(* ===== verification/_CoqProject ===== *)
-Q . S2P
Prelude.v
Heap.v
Table.v
RbTree.v
RbSpec.v
RbInsert.v
RbOps.v
RbDelete.v
RbTrav.v
RbTable.v
RbProps.v
HashTab.v
TabRel.v
TreeRel.v
Avl.v
AvlSpec.v
AvlRot.v
AvlInsert.v
AvlDelete.v
AvlTrav.v
AvlProps.v
Trees.v
HashProps.v
List.v
ListProps.v
List2.v
Vector.v
Chat.v
ChatSpec.v
ChatRooms.v
ChatOps.v
ChatRefine.v
ChatTrav.v
ChatProps.v
Ring.v
RingSpec.v
Slot.v
QueueSpec.v
QueueProps.v
RingConc.v
RingLin.v
RingConcProps.v
Iovec.v
Mref.v
Bytes.v
RtmqRecv.v
RtmqMem.v
RtmqRecvSpec.v
RtmqSend.v
RtmqSendSpec.v
RtmqComm.v
RtmqCommSpec.v
RtmqRsvr.v
RtmqRsvrSpec.v
RtmqExp.v
RtmqProps.v
RtmqWork.v
RtmqConn.v
RtmqAbs.v
RtmqConnRep.v
RtmqConnEnd.v
RtmqConnBody.v
RtmqConnNew.v
RtmqThread.v
RtmqServer.v
RtmqSys.v
RtmqServerRep.v
RtmqServerSpec.v
RtmqServerDist.v
RtmqServerProps.v
RtmqInit.v
RtmqInitProps.v
RtmqDemo.v
Mesg.v
Lsnd.v
LsndSpec.v
LsndAbs.v
LsndRefine.v
LsndProps.v
