(* ===== verification/Prelude.v ===== *)
(** * The C core of beehive-im

    beehive-im is an instant-messaging service.  Its processes in C (under
    [src/src/clang]) share a library of containers ([lib/core]), the tables of the
    chat rooms ([lib/chat]) and a message queue over TCP, RTMQ ([lib/rtmq]): the
    listener keeps the connections of the clients and the rooms they are in, and
    exchanges messages with the servers of the back end through RTMQ.  This
    development models the containers, the chat rooms, the server of RTMQ from its
    sockets to its workers, and the listener ([exec/listend]) with all its handlers,
    and proves what each promises to the next.  File
    names below are relative to [src/src/clang]; definitions keep the names of the
    C functions.

    ** How C is read

    A function of C is a computation [SM S A] of this file on an explicit state [S]
    (the structure it works on), with a list of booleans [mem] that answers the
    successive allocations: [false] is an allocation that fails.  It returns
    ([Ok]), blocks for ever on a lock its own thread holds ([Blocked]), reaches a
    failed assertion or undefined behaviour such as the use of a dangling pointer
    or an index out of an array ([Crash]), or exhausts the fuel of a loop
    ([NoFuel]).  [wp m Q s ms] says that [m] returns, and that its result satisfies
    [Q]: every specification is one of total correctness.  Callbacks of C are
    arguments; a callback that changes a state of its own is a computation on it
    ([zoom], [on_fst], [on_snd] run a computation on a part of the state).

    Integers are [Z], with the wrap-around written where the width of the type can
    be reached ([u16], [u32], [u64], [i32], [i64]); pointers are positive integers,
    [NULL] is 0.  Linked structures live in a heap of nodes ([Heap]), where every
    access through a pointer is checked; their representation relations own their
    nodes exactly, so that leaks and double releases are excluded too.

    Loops take fuel computed from the state they start in: the number of nodes of
    the heap for trees and lists, the number of slots for arrays, the number of
    bytes for buffers, the number of queued items for workers.  No theorem assumes
    that the fuel lasts: it is proved in each specification, since [NoFuel] is no
    result.

    ** Files

    - [Prelude]: integers, outcomes, the monad, its specifications and tactics.
      [Heap]: nodes and ownership.  [Bytes]: memory as bytes.
    - [Table]: the interface of the search trees ([TreeOps], [TreeLaws]).
      [RbTree] is [rb_tree.c] with the stack of [stack.h]; [RbSpec], [RbInsert],
      [RbOps], [RbDelete], [RbTrav] verify it on a tree under focus,
      [RbTable] is the instance of the interface and [RbProps] the properties.
      [Avl] is [avl_tree.c], with [AvlSpec], [AvlRot], [AvlInsert], [AvlDelete],
      [AvlTrav] and [AvlProps] in the same order.  [Trees] names the two instances
      the code works with: [htree], the red-black trees of its hash tables, and
      [atree], the AVL trees of RTMQ.
    - [HashTab] is [hash_tab.c] over any search tree, with the read-write lock of
      each slot; [TabRel] and [TreeRel] read a table or a tree as a finite map for
      the clients; [HashProps] has the properties.
    - [List], [ListProps]: [list.c].  [List2]: [list2.c].
      [Vector]: [vector.c].
    - [Chat] is [chat_tab.c] and [chat.c] over any search tree; [ChatSpec] the
      abstract state (rooms, sessions, connections); [ChatRooms], [ChatOps],
      [ChatRefine], [ChatTrav] the proofs, [ChatProps] the properties.
    - [Ring], [RingSpec]: [ring.c] as one thread runs it.  [RingConc], [RingLin],
      [RingConcProps]: the same code run by any number of threads, one step per
      access to shared memory, in a sequentially consistent order.  [Slot],
      [QueueSpec], [QueueProps]: [slot.c] and [queue.c].
    - [Mref]: [mref.c], the reference-counted blocks.
    - [RtmqMem]: who holds which block of messages.  [RtmqRecv] is the receive path
      of a connection of [rtmq_rsvr.c], proved in [RtmqRecvSpec] against an
      interface of the message handlers ([RecvLaws]); [RtmqComm] and [RtmqCommSpec]
      are the shared tables of [rtmq_comm.c] and the accounts of
      [rtmq_recv.c]; [RtmqRsvr] is the handlers of [rtmq_rsvr.c] and the worker of
      [rtmq_worker.c], [RtmqRsvrSpec] and [RtmqExp] prove the interface for them,
      [RtmqProps] and [RtmqWork] put the pieces together.
    - [Iovec] is [iovec.c]; [RtmqSend] and [RtmqSendSpec] are the send
      path of a connection of [rtmq_rsvr.c].
    - [RtmqConn] is a receive thread of [rtmq_rsvr.c]: its connections, and a turn
      of its loop over [select].  [RtmqAbs] is the thread as its peers see it, a
      transition system with its invariants; [RtmqConnRep] says how the one
      represents the other; [RtmqConnEnd], [RtmqConnBody], [RtmqConnNew] and
      [RtmqThread] prove that a turn is a sequence of transitions.
    - [RtmqServer] is the server: the receive threads, the listening thread
      ([rtmq_lsn.c]), the distribution ([rtmq_dist.c]), the workers and
      [rtmq_async_send] ([rtmq_recv.c]); a step ([act]) is a turn of one thread, or
      a call.  [RtmqSys] is the server as its peers and the application see it,
      with its invariant ([yinv]); [RtmqServerRep] relates the two, and
      [RtmqServerSpec], [RtmqServerDist] prove that each step is a sequence of
      abstract ones.  [RtmqServerProps] has the properties of all runs.
    - [RtmqInit] is [rtmq_init], verified in [RtmqInitProps]; [RtmqDemo] is a server
      it sets up, with a run.
    - [Mesg]: the header of the chat messages ([incl/mesg.h]) and its bytes.  [Lsnd]
      is the listener: the handlers of [lsnd_mesg.c] and [lsnd_comm.c] over the hash
      tables, the chat rooms and a heap of connections, the dispatch of the access
      layer ([acc_rsvr.c]) and of the proxy ([rtmq_proxy_worker.c]) that calls them,
      and the set-up of [listend.c]; what it sends is recorded ([ports]).  An event
      ([lsnd_ev]) is a connection that opens or closes, a message of a client or of
      RTMQ, or a task of the timer.  [LsndSpec] relates the context to an abstract
      state ([alsnd]), [LsndAbs] gives each event as a function on it, with its
      invariant ([ainv]), [LsndRefine] proves that each handler is that function, and
      [LsndProps] has the properties and a run.

    ** What the theorems show

    - The red-black tree and the AVL tree keep their balance and the order of
      their data under insertion and deletion, at a logarithmic depth; traversals
      and destruction visit each datum once ([rbt_insert_spec],
      [rbt_delete_spec], [rbt_trav_spec], [rbt_destroy_spec], [rbt_height],
      [avl_insert_log], [avl_delete_log]); no caller can tell the two apart
      ([trees_agree]).
    - The hash table is a finite map whatever its trees ([hash_tab_refines]), with
      balanced locks except where a query hands one to its caller.
    - The lists and the vector are lists ([list_refines], [list2_refines],
      [vector_refines]).
    - Any sequence of calls on the chat rooms refines the abstract rooms
      ([chat_calls_refine]), in which the members of a room are sessions that know
      it ([chat_members_known]); the other [chat_] theorems give each call.
    - The ring is a bounded queue with counters that wrap ([ring_refines]),
      linearizable and free of deadlock under concurrency ([ring_linearizable],
      [ring_progress]); the queue of blocks never hands a block out twice
      ([queue_refines]); a counted block lives as long as it is referred to
      ([mref_refines]).
    - A connection of the server of RTMQ delivers the messages of a stream once, in
      order and unchanged, however the network cuts it ([recv_stream]), and sends
      what it has to send likewise, whatever the socket takes at a time
      ([send_stream]).
    - Any sequence of turns of the threads of the server and of calls refines the
      abstract server ([server_refines]), none goes wrong ([server_safe]), an idle
      server holds no memory ([server_no_leak]), and [server_promises] puts into one
      statement what the nodes and the application can rely on: who is authenticated
      as which node, who gets which message, how often, and in which order.
      [rtmq_init_starts] says that [rtmq_init] gives a server to which all this
      applies.
    - The listener handles any sequence of events as the abstract one does
      ([lsnd_refines]), from the state its set-up leads to ([lsnd_boots]).  Members of
      rooms and entries of tables are open connections ([lsnd_members_live]); a
      message to a room reaches each member once ([lsnd_room_delivery]); a client
      speaks under its own name ([lsnd_no_spoofing]) and once per message
      ([lsnd_no_replay]); a second login takes over ([lsnd_login_takes_over]), kicks
      come on time ([lsnd_kick_on_time]), a closed connection is forgotten
      ([lsnd_close_forgets]), and what is sent is well formed ([lsnd_calls_typed],
      [mesg_roundtrip]).
    - What the code gets wrong is stated as it is: a join of a second room that
      has no effect ([chat_join_second]), locks that are not given back
      ([chat_part_blocks], [sub_del_blocks]), a negative index
      ([hash_tab_negative]), a dangling tail ([list_find_and_del_dangles]), a
      vector that does not grow ([vector_append_full]), a comparison that is no
      order ([sub_add_duplicates]), an assertion any peer can reach
      ([bad_checksum_aborts]), and the runs of the listener that end badly, at the end
      of [LsndProps].

    ** Hypotheses

    The theorems on trees and tables ask for a comparison callback that orders the
    data ([cmp_law]); those of the code do on keys below 2^63, where the difference
    of two of them does not overflow.  Counters of 64 bits are taken not to wrap
    where it would take 2^64 elements.  The callbacks and applications that call
    the library are arguments of the definitions.

    The server of RTMQ is given what the system does as input: what each read,
    write, [accept], [select], [time] and [rand] gives, and whether a pipe has room.
    Its theorems ask of the peers that the bytes they send be messages with a valid
    checksum that fit the buffer (what other bytes do is [bad_checksum_aborts]), with
    no request to subscribe (a comparison of the subscriptions is no order), and of
    the run that no connection is silent for a minute when its thread looks for
    such, since the code then releases its buffer twice, and that the descriptors
    are below [FD_SETSIZE], which it does not check ([act_safe], [turn_safe]).

    The listener is given the time of each event, the decoders and encoders of the
    message bodies ([Protobuf], generated code), the answers of the access layer and
    of the proxy, and what a released connection holds.  Its theorems ask of each
    event ([ev_ok]) what the environment has to respect: the access layer gives fresh
    identifiers and whole messages; a client keeps its session while it is in the
    table, does not leave a room it is in, and sends none of the types whose callback
    has the wrong signature (what happens otherwise is at the end of [LsndProps]); the
    bodies of RTMQ messages are within the message.

    ** Not modelled

    The threads of the server take turns: a turn of a loop is one step, so that the
    interleaving of accesses inside of a turn is not considered, except for the ring,
    which is verified for interleaved accesses, and for the locks of the hash table,
    whose balance is proved.  [rtmq_publish], and the destruction of the pools of
    threads, which no code calls, are left out; so are the proxy side of RTMQ, whose
    framing repeats that of the server, but for its registration and dispatch of
    callbacks; the access layer, but for the life of the block of a connection; the
    options and the configuration of the listener, and the start of its threads, whose
    handlers are events that do not overlap; the forwarder; the SDK of the clients;
    the XML parser of the configuration; the memory pools, which compute addresses inside raw pages, and
    the containers in shared memory; logging, and wrappers of system calls. *)
From stdpp Require Export base list gmap option numbers sorting.
From Stdlib Require Export ZArith Lia.

#[export] Set Default Goal Selector "!".

(** ** Machine integers *)

Module Int.
#[local] Open Scope Z_scope.
Definition u16 (z : Z) : Z := z mod 2 ^ 16.
Definition u32 (z : Z) : Z := z mod 2 ^ 32.
Definition u64 (z : Z) : Z := z mod 2 ^ 64.
(** Conversion of a value to [int32_t] / [int64_t] (two's complement). *)
Definition i32 (z : Z) : Z := (z + 2 ^ 31) mod 2 ^ 32 - 2 ^ 31.
Definition i64 (z : Z) : Z := (z + 2 ^ 63) mod 2 ^ 64 - 2 ^ 63.

Lemma i32_add a b : i32 (i32 a + b) = i32 (a + b).
Proof.
  unfold i32. f_equal.
  replace ((a + 2 ^ 31) mod 2 ^ 32 - 2 ^ 31 + b + 2 ^ 31) with ((a + 2 ^ 31) mod 2 ^ 32 + b) by lia.
  rewrite Zplus_mod_idemp_l. f_equal. lia.
Qed.

Lemma i32_small z : - 2 ^ 31 ≤ z < 2 ^ 31 → i32 z = z.
Proof. intros. unfold i32. rewrite Z.mod_small; lia. Qed.

Lemma u64_add a b : u64 (u64 a + b) = u64 (a + b).
Proof. unfold u64. by rewrite Zplus_mod_idemp_l. Qed.

Lemma u64_small z : 0 ≤ z < 2 ^ 64 → u64 z = z.
Proof. apply Z.mod_small. Qed.

Lemma u32_small z : 0 ≤ z < 2 ^ 32 → u32 z = z.
Proof. apply Z.mod_small. Qed.
End Int.
Export Int.

(** The difference of two [uint64_t] read as an [int64_t]. *)
Definition cmp_u64 (a b : Z) : Z := i64 (u64 (a - b)).


Lemma cmp_u64_small a b : (0 ≤ a < 2 ^ 63 → 0 ≤ b < 2 ^ 63 → cmp_u64 a b = a - b)%Z.
Proof.
  intros. unfold cmp_u64, i64, u64. rewrite Zplus_mod_idemp_l.
  rewrite Z.mod_small by lia. lia.
Qed.


Definition is_id (z : Z) : Prop := (0 ≤ z < 2 ^ 63)%Z.

(** Pointers are positive addresses. *)
Abbreviation ptr := Z.
Definition NULL : ptr := 0%Z.

(** The first element a predicate accepts. *)
Fixpoint first_match {D} (cb : D → bool) (xs : list D) : option D :=
  match xs with [] => None | x :: xs' => if cb x then Some x else first_match cb xs' end.

(** ** Outcomes *)

(** A run of C code returns, blocks for ever on a lock its own thread holds,
    reaches undefined behaviour or a failed assertion, or exhausts the fuel of a
    loop of the model. *)
Inductive outcome (A : Type) : Type :=
  | Ok (a : A)
  | Blocked
  | Crash
  | NoFuel.
Arguments Ok {_} _.
Arguments Blocked {_}.
Arguments Crash {_}.
Arguments NoFuel {_}.

(** ** State monad with an allocator oracle *)

(** [mem] answers the successive allocations: [true] when the block is
    obtained, [false] when the allocator returns NULL.  The empty list answers
    [true] for ever. *)
Abbreviation mem := (list bool).

Definition SM (S A : Type) : Type := S → mem → outcome (A * S * mem).

Section Monad.
Context {S : Type}.

#[global] Instance SM_ret : MRet (SM S) := λ A a s ms, Ok (a, s, ms).
#[global] Instance SM_bind : MBind (SM S) := λ A B f m s ms,
  match m s ms with
  | Ok (a, s', ms') => f a s' ms'
  | Blocked => Blocked
  | Crash => Crash
  | NoFuel => NoFuel
  end.

Definition get : SM S S := λ s ms, Ok (s, s, ms).
Definition gets {A} (f : S → A) : SM S A := λ s ms, Ok (f s, s, ms).
Definition put (s : S) : SM S unit := λ _ ms, Ok (tt, s, ms).
Definition modify (f : S → S) : SM S unit := λ s ms, Ok (tt, f s, ms).
Definition crash {A} : SM S A := λ _ _, Crash.
Definition blocked {A} : SM S A := λ _ _, Blocked.
Definition nofuel {A} : SM S A := λ _ _, NoFuel.

(** [assert(b)] of the C library. *)
Definition cassert (b : bool) : SM S unit := if b then mret tt else crash.

(** A read through a pointer that may be dangling. *)
Definition deref {A} (o : option A) : SM S A :=
  match o with Some a => mret a | None => crash end.

(** One call of the allocator. *)
Definition malloc : SM S bool := λ s ms,
  match ms with
  | [] => Ok (true, s, [])
  | b :: ms' => Ok (b, s, ms')
  end.

(** A [while] loop: [inl] continues with a new loop state, [inr] leaves. *)
Fixpoint loop {A B} (fuel : nat) (body : A → SM S (A + B)) (a : A) : SM S B :=
  match fuel with
  | O => nofuel
  | Datatypes.S n =>
      r ← body a;
      match r with inl a' => loop n body a' | inr b => mret b end
  end.

(** [for] over the elements of a list known at loop entry. *)
Fixpoint for_each {A} (f : A → SM S unit) (l : list A) : SM S unit :=
  match l with
  | [] => mret tt
  | x :: l' => f x;; for_each f l'
  end.

Lemma loop_S {A B} n (body : A → SM S (A + B)) a s ms :
  loop (Datatypes.S n) body a s ms =
  match body a s ms with
  | Ok (inl a', s', ms') => loop n body a' s' ms'
  | Ok (inr b, s', ms') => Ok (b, s', ms')
  | Blocked => Blocked
  | Crash => Crash
  | NoFuel => NoFuel
  end.
Proof.
  simpl. unfold mbind, SM_bind. by destruct (body a s ms) as [[[[a'|b] s'] ms']| | |].
Qed.
End Monad.

(** Run a computation on a part of the state. *)
Definition zoom {S T A} (g : S → T) (p : T → S → S) (m : SM T A) : SM S A :=
  λ s ms,
    match m (g s) ms with
    | Ok (a, t, ms') => Ok (a, p t s, ms')
    | Blocked => Blocked
    | Crash => Crash
    | NoFuel => NoFuel
    end.

(** Run a computation on an object that is not part of the state: its new value
    is returned. *)
Definition run_on {Σ V A} (v : V) (m : SM V A) : SM Σ (A * V) := λ s ms,
  match m v ms with
  | Ok (a, v', ms') => Ok ((a, v'), s, ms')
  | Blocked => Blocked
  | Crash => Crash
  | NoFuel => NoFuel
  end.

(** The first component of a pair: a datum next to the state it belongs to. *)
Definition on_fst {A B C} : SM A C → SM (A * B) C := zoom fst (λ a x, (a, x.2)).
Definition on_snd {A B C} : SM B C → SM (A * B) C := zoom snd (λ b x, (x.1, b)).

(** A [goto] back to a query that failed allocations alone can repeat: each
    round uses up answers of the allocator. *)
Definition retry {Σ B} (body : SM Σ (unit + B)) : SM Σ B := λ s ms,
  loop (2 + length ms) (λ _, body) tt s ms.

(** ** Weakest preconditions *)

(** [wp m Q s ms]: from state [s] and oracle [ms] the computation returns, and
    its result satisfies [Q] (total correctness). *)
Definition wp {S A} (m : SM S A) (Q : A → S → mem → Prop) (s : S) (ms : mem) : Prop :=
  match m s ms with
  | Ok (a, s', ms') => Q a s' ms'
  | _ => False
  end.

Section Wp.
Context {S : Type}.

Lemma wp_ret {A} (a : A) (Q : A → S → mem → Prop) s ms : Q a s ms → wp (mret a) Q s ms.
Proof. done. Qed.

Lemma wp_bind {A B} (m : SM S A) (f : A → SM S B) Q s ms :
  wp m (λ a, wp (f a) Q) s ms → wp (m ≫= f) Q s ms.
Proof. unfold wp, mbind, SM_bind. by destruct (m s ms) as [[[??]?]| | |]. Qed.

Lemma wp_bind_inv {A B} (m : SM S A) (f : A → SM S B) Q s ms :
  wp (m ≫= f) Q s ms → wp m (λ a, wp (f a) Q) s ms.
Proof. unfold wp, mbind, SM_bind. by destruct (m s ms) as [[[??]?]| | |]. Qed.

Lemma wp_mono {A} (m : SM S A) (Q R : A → S → mem → Prop) s ms :
  wp m Q s ms → (∀ a s' ms', Q a s' ms' → R a s' ms') → wp m R s ms.
Proof. unfold wp. destruct (m s ms) as [[[??]?]| | |]; naive_solver. Qed.

Lemma wp_zoom {T A} (g : S → T) (p : T → S → S) (m : SM T A) Q s ms :
  wp m (λ a t, Q a (p t s)) (g s) ms → wp (zoom g p m) Q s ms.
Proof. unfold wp, zoom. by destruct (m (g s) ms) as [[[??]?]| | |]. Qed.

Lemma wp_run_on {Σ A} (v : S) (m : SM S A) (Q : A * S → Σ → mem → Prop) s ms :
  wp m (λ a v' ms', Q (a, v') s ms') v ms → wp (run_on v m) Q s ms.
Proof. unfold wp, run_on. by destruct (m v ms) as [[[??]?]| | |]. Qed.

Lemma wp_elim {A} (m : SM S A) Q s ms :
  wp m Q s ms → ∃ a s' ms', m s ms = Ok (a, s', ms') ∧ Q a s' ms'.
Proof. unfold wp. destruct (m s ms) as [[[??]?]| | |]; naive_solver. Qed.

Lemma wp_intro {A} (m : SM S A) (Q : A → S → mem → Prop) s ms a s' ms' :
  m s ms = Ok (a, s', ms') → Q a s' ms' → wp m Q s ms.
Proof. unfold wp. by intros ->. Qed.

Lemma wp_malloc (Q : bool → S → mem → Prop) s ms :
  (if decide (head ms = Some false) then Q false s (tail ms) else Q true s (tail ms)) →
  wp malloc Q s ms.
Proof. unfold wp, malloc. case_decide; destruct ms as [|[] ms]; by simplify_eq/=. Qed.

Lemma wp_loop_step {A B} n (body : A → SM S (A + B)) a Q s ms :
  wp (body a) (λ r, match r with
                    | inl a' => wp (loop n body a') Q
                    | inr b => Q b
                    end) s ms →
  wp (loop (Datatypes.S n) body a) Q s ms.
Proof.
  intros H. simpl. apply wp_bind. eapply wp_mono; [exact H|].
  by intros [a'|b] s' ms'.
Qed.

Lemma wp_for_each_inv {A} (f : A → SM S unit) (I : list A → S → mem → Prop) l :
  ∀ done s ms,
  I done s ms →
  (∀ pre x post s' ms', l = pre ++ x :: post → I (done ++ pre) s' ms' →
     wp (f x) (λ _, I (done ++ pre ++ [x])) s' ms') →
  wp (for_each f l) (λ _, I (done ++ l)) s ms.
Proof.
  induction l as [|x l IH]; intros don s ms HI Hstep; simpl.
  - apply wp_ret. by rewrite app_nil_r.
  - apply wp_bind. eapply wp_mono; [apply (Hstep [] x l); [done|by rewrite app_nil_r]|].
    intros [] s' ms' HI'. simpl in HI'.
    eapply wp_mono; [apply (IH (don ++ [x])); [done|]|].
    + intros pre y post s1 ms1 -> H1. rewrite <-!app_assoc in *. simpl in *.
      apply (Hstep (x :: pre) y post); [done|]. done.
    + intros [] s1 ms1. by rewrite <-app_assoc.
Qed.
Lemma wp_malloc_nil {Σ} (Q : bool → Σ → mem → Prop) s : Q true s [] → wp malloc Q s [].
Proof. done. Qed.

End Wp.

Lemma wp_zoom_inv {S T A} (g : S → T) (p : T → S → S) (m : SM T A) Q s ms :
  wp (zoom g p m) Q s ms → wp m (λ a t, Q a (p t s)) (g s) ms.
Proof. unfold wp, zoom. by destruct (m (g s) ms) as [[[??]?]| | |]. Qed.

Lemma wp_bind_assoc {S A B C} (m : SM S A) (f : A → SM S B) (g : B → SM S C) Q s ms :
  wp ((m ≫= f) ≫= g) Q s ms → wp (m ≫= λ a, f a ≫= g) Q s ms.
Proof. intros Hw. do 2 apply wp_bind_inv in Hw. apply wp_bind. eapply wp_mono; [exact Hw|]. intros. by apply wp_bind. Qed.

Lemma wp_for_each_app_inv {S A} (f : A → SM S unit) l1 l2 : ∀ (Q : unit → S → mem → Prop) s ms,
  wp (for_each f (l1 ++ l2)) Q s ms → wp (for_each f l1) (λ _, wp (for_each f l2) Q) s ms.
Proof.
  induction l1 as [|x l1 IH]; intros Q s ms Hw; simpl in *; [by apply wp_ret|].
  apply wp_bind_inv in Hw. apply wp_bind. eapply wp_mono; [exact Hw|]. intros [] s' ms'. apply IH.
Qed.

(** An equation, for the runs that do not return. *)
Lemma bind_ok {S A B} (m : SM S A) (f : A → SM S B) s ms a s' ms' :
  m s ms = Ok (a, s', ms') → (m ≫= f) s ms = f a s' ms'.
Proof. intros Hm. unfold mbind, SM_bind. by rewrite Hm. Qed.

Lemma wp_retry {Σ B} (body : SM Σ (unit + B)) (Q : B → Σ → mem → Prop) s :
  wp body (λ r s' ms', match r with
     | inl _ => wp body (λ r' s2 ms2, match r' with inl _ => False | inr b => Q b s2 ms2 end) s' ms'
     | inr b => Q b s' ms'
     end) s [] →
  wp (retry body) Q s [].
Proof.
  intros Hb. unfold retry, wp at 1. simpl length. change (2 + 0)%nat with 2%nat.
  apply wp_loop_step. eapply wp_mono; [exact Hb|]. intros [[]|b] s' ms' HQ; [|done].
  apply wp_loop_step. eapply wp_mono; [exact HQ|]. by intros [[]|b] s2 ms2.
Qed.

(** Step through the primitive operations of a monadic program. *)
Ltac wp_step :=
  match goal with
  | |- wp (mret _) _ _ _ => apply wp_ret
  | |- wp (_ ≫= _) _ _ _ => apply wp_bind
  | |- wp (gets _) _ _ _ => unfold gets at 1; unfold wp at 1
  | |- wp get _ _ _ => unfold get at 1; unfold wp at 1
  | |- wp (put _) _ _ _ => unfold put at 1; unfold wp at 1
  | |- wp (modify _) _ _ _ => unfold modify at 1; unfold wp at 1
  end.
Ltac wp_steps := repeat (wp_step; cbn beta iota).

(** ** Sequences of calls *)

Section Calls.
Context {Σ C R A : Type} (run : C → SM Σ R) (abs : C → A → R * A).

Fixpoint run_seq (cs : list C) : SM Σ (list R) :=
  match cs with
  | [] => mret []
  | c :: cs' => x ← run c; l ← run_seq cs'; mret (x :: l)
  end.
Fixpoint abs_seq (cs : list C) (a : A) : list R * A :=
  match cs with
  | [] => ([], a)
  | c :: cs' => let x := abs c a in let y := abs_seq cs' x.2 in (x.1 :: y.1, y.2)
  end.
Fixpoint ok_seq (ok : C → A → Prop) (cs : list C) (a : A) : Prop :=
  match cs with
  | [] => True
  | c :: cs' => ok c a ∧ ok_seq ok cs' (abs c a).2
  end.

(** A refinement of each call is one of the sequences. *)
Lemma wp_run_seq (rep : Σ → A → Prop) (ok : C → A → Prop) :
  (∀ c s a ms, rep s a → ok c a → wp (run c) (λ x s' _, x = (abs c a).1 ∧ rep s' (abs c a).2) s ms) →
  ∀ cs s a ms, rep s a → ok_seq ok cs a →
  wp (run_seq cs) (λ l s' _, l = (abs_seq cs a).1 ∧ rep s' (abs_seq cs a).2) s ms.
Proof.
  intros Hstep. induction cs as [|c cs IH]; intros s a ms Hr Hok; simpl.
  - by wp_steps.
  - destruct Hok as [H1 H2]. wp_steps. eapply wp_mono; [by apply Hstep|].
    intros x s1 ms1 [-> Hr1]. wp_steps. eapply wp_mono; [by apply IH|].
    intros l s2 ms2 [-> Hr2]. by wp_steps.
Qed.

(** The same for the calls whose allocations all succeed. *)
Lemma wp_run_seq_nil (rep : Σ → A → Prop) (ok : C → A → Prop) :
  (∀ c s a, rep s a → ok c a → wp (run c) (λ x s' ms', ms' = [] ∧ x = (abs c a).1 ∧ rep s' (abs c a).2) s []) →
  ∀ cs s a, rep s a → ok_seq ok cs a →
  wp (run_seq cs) (λ l s' ms', ms' = [] ∧ l = (abs_seq cs a).1 ∧ rep s' (abs_seq cs a).2) s [].
Proof.
  intros Hstep. induction cs as [|c cs IH]; intros s a Hr Hok; simpl.
  - by wp_steps.
  - destruct Hok as [H1 H2]. wp_steps. eapply wp_mono; [by apply Hstep|].
    intros x s1 ms1 (-> & -> & Hr1). wp_steps. eapply wp_mono; [by apply IH|].
    intros l s2 ms2 (-> & -> & Hr2). by wp_steps.
Qed.
End Calls.
