(* ===== verification/Heap.v ===== *)
(** A heap of nodes of one type, its allocator, and the exact ownership predicate
    [hp h C]: the live nodes of [h] are those of the list of cells [C], no more
    and no less.  The linked structures of the library are specified with it. *)
From S2P Require Import Prelude.
Open Scope Z_scope.

Record heap (N : Type) := Heap { cell : gmap ptr N; fresh : ptr }.
Arguments Heap {_} _ _.
Arguments cell {_} _.
Arguments fresh {_} _.

Section Heap.
Context {N : Type}.
Abbreviation HM := (SM (heap N)).

Definition empty_heap : heap N := Heap ∅ 1.

Definition set_cell (p : ptr) (n : N) (h : heap N) : heap N := Heap (<[p := n]> (cell h)) (fresh h).
Definition del_cell (p : ptr) (h : heap N) : heap N := Heap (delete p (cell h)) (fresh h).

(** A read of a dangling or NULL pointer is a [Crash]. *)
Definition hrd (p : ptr) : HM N := h ← get; deref (cell h !! p).
Definition hwr (p : ptr) (f : N → N) : HM unit := n ← hrd p; modify (set_cell p (f n)).

(** [None] stands for NULL. *)
Definition halloc (n : N) : HM (option ptr) :=
  ok ← malloc;
  if ok : bool then
    h ← get;
    put (Heap (<[fresh h := n]> (cell h)) (fresh h + 1));;
    mret (Some (fresh h))
  else mret None.

Definition hfree (p : ptr) : HM unit := _ ← hrd p; modify (del_cell p).

Record hp (h : heap N) (C : list (ptr * N)) : Prop := {
  hp_get : ∀ p n, cell h !! p = Some n ↔ (p, n) ∈ C;
  hp_nodup : NoDup C.*1;
  hp_range : Forall (λ p, NULL < p < fresh h) C.*1;
  hp_fresh : NULL < fresh h;
}.

Lemma hp_empty : hp empty_heap [].
Proof.
  constructor; [|constructor|constructor|done]. intros p n. simpl.
  rewrite lookup_empty. split; [done|by intros ?%elem_of_nil].
Qed.

#[export] Instance hp_proper h : Proper ((≡ₚ) ==> iff) (hp h).
Proof.
  intros C C' HC. split; intros []; constructor; try done;
    try (intros p n; rewrite hp_get0; by rewrite HC); by rewrite ?HC || by rewrite <-?HC.
Qed.

Lemma hp_perm h C C' : C ≡ₚ C' → hp h C → hp h C'.
Proof. intros HC. by rewrite HC. Qed.

Lemma hp_pos h C p : hp h C → p ∈ C.*1 → NULL < p < fresh h.
Proof. intros H Hp. pose proof (hp_range _ _ H) as Hr. rewrite Forall_forall in Hr. by apply Hr. Qed.

Lemma hp_nil h : hp h [] → cell h = ∅.
Proof.
  intros H. apply map_eq. intros p. rewrite lookup_empty.
  destruct (cell h !! p) eqn:Hp; [|done]. apply (hp_get _ _ H) in Hp. by apply elem_of_nil in Hp.
Qed.

Lemma hp_size h C : hp h C → size (cell h) = length C.
Proof.
  intros H. rewrite <-size_dom. assert (dom (cell h) = list_to_set C.*1 :> gset ptr) as ->.
  { apply set_eq. intros p. rewrite elem_of_dom, elem_of_list_to_set. split.
    - intros [n Hn]. apply (hp_get _ _ H) in Hn. by apply (list_elem_of_fmap_2' _ _ (p, n)).
    - intros ([q n] & -> & Hn)%list_elem_of_fmap. apply (hp_get _ _ H) in Hn. by eexists. }
  rewrite size_list_to_set by apply (hp_nodup _ _ H). by rewrite length_fmap.
Qed.

Lemma hp_set h p n n' C : hp h ((p, n) :: C) → hp (set_cell p n' h) ((p, n') :: C).
Proof.
  intros [Hg Hn Hr Hf]. simpl in *. apply NoDup_cons in Hn as [Hn1 Hn2].
  constructor; simpl; [|by constructor|done|done].
  intros q m. rewrite lookup_insert_Some, elem_of_cons, Hg, elem_of_cons. split.
  - intros [[-> ->]|[Hne [Heq|?]]]; [by left|congruence|by right].
  - intros [Heq|Hin]; [left; by simplify_eq|right]. split; [|by right].
    intros ->. apply Hn1. by apply (list_elem_of_fmap_2' _ _ (q, m)).
Qed.

Lemma wp_hrd p n C (Q : N → _ → _ → Prop) h ms :
  hp h ((p, n) :: C) → Q n h ms → wp (hrd p) Q h ms.
Proof.
  intros H HQ. unfold hrd. wp_steps.
  assert (cell h !! p = Some n) as -> by (apply (hp_get _ _ H); left). done.
Qed.

Lemma wp_hwr p n f C (Q : unit → _ → _ → Prop) h ms :
  hp h ((p, n) :: C) → (∀ h', hp h' ((p, f n) :: C) → Q tt h' ms) → wp (hwr p f) Q h ms.
Proof.
  intros H HQ. unfold hwr. wp_steps. eapply wp_hrd; [done|]. wp_steps.
  apply HQ. by eapply hp_set.
Qed.

Lemma wp_halloc n C (Q : option ptr → _ → _ → Prop) h ms :
  hp h C →
  (if decide (head ms = Some false) then Q None h (tail ms)
   else ∀ h' p, NULL < p → hp h' ((p, n) :: C) → Q (Some p) h' (tail ms)) →
  wp (halloc n) Q h ms.
Proof.
  intros H HQ. unfold halloc. wp_steps. apply wp_malloc. case_decide; wp_steps; [done|].
  apply HQ; [apply H|]. assert (Hnin : fresh h ∉ C.*1).
  { intros Hin. apply (hp_pos _ _ _ H) in Hin. lia. }
  destruct H as [Hg Hn Hr Hf]. constructor; simpl.
  - intros q m. rewrite lookup_insert_Some, elem_of_cons, Hg. split.
    + intros [[-> ->]|[_ ?]]; [by left|by right].
    + intros [Heq|Hin]; [left; by simplify_eq|right]. split; [|done].
      intros <-. apply Hnin. by apply (list_elem_of_fmap_2' _ _ (fresh h, m)).
  - by constructor.
  - constructor; [lia|]. eapply Forall_impl; [exact Hr|]. simpl. lia.
  - lia.
Qed.

Lemma wp_hfree p n C (Q : unit → _ → _ → Prop) h ms :
  hp h ((p, n) :: C) → (∀ h', hp h' C → Q tt h' ms) → wp (hfree p) Q h ms.
Proof.
  intros H HQ. unfold hfree. wp_steps. eapply wp_hrd; [done|]. wp_steps. apply HQ.
  destruct H as [Hg Hn Hr Hf]. simpl in *. apply NoDup_cons in Hn as [Hn1 Hn2].
  apply Forall_cons in Hr as [_ Hr]. constructor; simpl; try done.
  intros q m. rewrite lookup_delete_Some, Hg, elem_of_cons. split.
  - intros [Hne [Heq|?]]; [congruence|done].
  - intros Hin. split; [|by right]. intros <-. apply Hn1. by apply (list_elem_of_fmap_2' _ _ (p, m)).
Qed.
End Heap.

(** Close [hp h C] from a hypothesis on a permutation of [C]. *)
Ltac heap_solve H := eapply hp_perm; [|exact H]; simpl; solve_Permutation.
