(* ===== verification/Table.v ===== *)
(** The interface of the search trees: what [lib/core/rb_tree.c] and
    [lib/core/avl_tree.c] promise to their clients ([hash_tab.c], [chat.c],
    [rtmq_comm.c], ...).  The operations are those of the two modules, the same in
    both up to the prefix of the names. *)
From S2P Require Import Prelude.
Open Scope Z_scope.

(** ** Positions in an ordered list *)

Section Order.
Context {D : Type} (cmp : D → D → Z).

(** Along [l], the sign of the comparison of [d] with the elements goes from
    positive to zero, at most once, to negative. *)
Definition sep (d : D) (l : list D) : Prop :=
  StronglySorted (λ x y, 0 < cmp d x ∨ cmp d y < 0) l.

(** [l] is cut by [d] into smaller elements, the equal one if any, and greater
    ones. *)
Record cut (d : D) (l l1 : list D) (o : option D) (l2 : list D) : Prop := {
  cut_eq : l = l1 ++ option_list o ++ l2;
  cut_lt : Forall (λ x, 0 < cmp d x) l1;
  cut_hit : ∀ x, o = Some x → cmp d x = 0;
  cut_gt : Forall (λ x, cmp d x < 0) l2;
}.

Lemma sep_app d l1 l2 :
  sep d (l1 ++ l2) → sep d l1 ∧ sep d l2 ∧
    ∀ x y, x ∈ l1 → y ∈ l2 → 0 < cmp d x ∨ cmp d y < 0.
Proof.
  unfold sep. induction l1 as [|a l1 IH]; simpl; intros H.
  - split_and!; [constructor|done|]. intros x y Hx. by apply elem_of_nil in Hx.
  - apply StronglySorted_inv in H as [H Ha]. apply IH in H as (H1 & H2 & H3).
    apply Forall_app in Ha as [Ha1 Ha2]. split_and!; [by constructor|done|].
    intros x y [->|Hx]%elem_of_cons Hy; [|by apply H3].
    rewrite Forall_forall in Ha2. by apply Ha2.
Qed.

Lemma sep_lt d A x B :
  sep d (A ++ x :: B) → 0 ≤ cmp d x → Forall (λ y, 0 < cmp d y) A.
Proof.
  intros H Hx. apply sep_app in H as (_ & _ & H). apply Forall_forall. intros y Hy.
  destruct (H y x); [done|left|done|lia].
Qed.

Lemma sep_gt d A x B :
  sep d (A ++ x :: B) → cmp d x ≤ 0 → Forall (λ y, cmp d y < 0) B.
Proof.
  intros H Hx. apply sep_app in H as (_ & H & _). apply StronglySorted_inv in H as [_ H].
  eapply Forall_impl; [exact H|]. simpl. lia.
Qed.

(** Cutting the elements of a node and its two subtrees. *)
Lemma cut_here d A x B : sep d (A ++ x :: B) → cmp d x = 0 → cut d (A ++ x :: B) A (Some x) B.
Proof.
  intros Hs Hx. constructor; [done|eapply sep_lt; [exact Hs|lia]|by intros ? [= <-]|eapply sep_gt; [exact Hs|lia]].
Qed.

Lemma cut_left d A x B l1 o l2 :
  sep d (A ++ x :: B) → cmp d x < 0 → cut d A l1 o l2 → cut d (A ++ x :: B) l1 o (l2 ++ x :: B).
Proof.
  intros Hs Hx [-> H1 H2 H3]. constructor; [by rewrite <-!app_assoc|done|done|].
  apply Forall_app. split; [done|]. constructor; [done|eapply sep_gt; [exact Hs|lia]].
Qed.

Lemma cut_right d A x B l1 o l2 :
  sep d (A ++ x :: B) → 0 < cmp d x → cut d B l1 o l2 → cut d (A ++ x :: B) (A ++ x :: l1) o l2.
Proof.
  intros Hs Hx [-> H1 H2 H3]. constructor; [by rewrite <-!app_assoc|..|done|done].
  apply Forall_app. split; [eapply sep_lt; [exact Hs|lia]|by constructor].
Qed.

Lemma cut_nil d : cut d [] [] None [].
Proof. by constructor. Qed.

Lemma sep_node d A x B : sep d (A ++ x :: B) → sep d A ∧ sep d B.
Proof. intros (? & HB & _)%sep_app. apply StronglySorted_inv in HB as [? _]. done. Qed.

Lemma cut_hit_inv d l l1 l1' x o l2 l2' :
  cut d l l1 (Some x) l2 → cut d l l1' o l2' → l1 = l1' ∧ o = Some x ∧ l2 = l2'.
Proof.
  intros [-> H1 H2 H3] [He H1' H2' H3']. specialize (H2 _ eq_refl).
  revert l1' He H1'. induction l1 as [|a l1 IH]; intros [|a' l1'] He H1'; simpl in *.
  - destruct o as [y|]; simpl in *; simplify_eq; [done|].
    apply Forall_cons in H3' as [? _]. lia.
  - simplify_eq. apply Forall_cons in H1' as [? _]. lia.
  - apply Forall_cons in H1 as [? _]. destruct o as [y|]; simpl in *; simplify_eq.
    + specialize (H2' _ eq_refl). lia.
    + apply Forall_cons in H3' as [? _]. lia.
  - simplify_eq. apply Forall_cons in H1 as [_ H1]. apply Forall_cons in H1' as [_ H1'].
    destruct (IH H1 l1') as (-> & -> & ->); done.
Qed.

Lemma cut_miss d l l1 l2 x : cut d l l1 None l2 → x ∈ l → cmp d x ≠ 0.
Proof.
  intros [-> H1 _ H2] Hx. simpl in Hx. rewrite Forall_forall in H1. rewrite Forall_forall in H2.
  apply elem_of_app in Hx as [Hx|Hx]; [specialize (H1 _ Hx)|specialize (H2 _ Hx)]; lia.
Qed.
End Order.

(** ** Comparison callbacks *)

(** A callback that orders the data of [dom] by a key: a total preorder, zero
    exactly on equal keys. *)
Record cmp_law {D K : Type} (key : D → K) (dom : D → Prop) (cmp : D → D → Z) : Prop := {
  cmp_zero : ∀ x y, dom x → dom y → cmp x y = 0 ↔ key x = key y;
  cmp_anti : ∀ x y, dom x → dom y → cmp x y < 0 ↔ 0 < cmp y x;
  cmp_trans : ∀ x y z, dom x → dom y → dom z → cmp x y < 0 → cmp y z < 0 → cmp x z < 0;
}.

(** Comparison by a difference of integers. *)
Lemma cmp_law_diff {D} (key : D → Z) (dom : D → Prop) (cmp : D → D → Z) :
  (∀ x y, dom x → dom y → cmp x y = key x - key y) → cmp_law key dom cmp.
Proof.
  intros Hc. constructor.
  - intros x y Hx Hy. rewrite Hc by done. lia.
  - intros x y Hx Hy. rewrite !Hc by done. lia.
  - intros x y z Hx Hy Hz. rewrite !Hc by done. lia.
Qed.

(** Lexicographic comparison of two integers. *)
Lemma cmp_law_lex {D} (k1 k2 : D → Z) (dom : D → Prop) (cmp : D → D → Z) :
  (∀ x y, dom x → dom y →
     cmp x y = if k1 x - k1 y =? 0 then k2 x - k2 y else k1 x - k1 y) →
  cmp_law (λ d, (k1 d, k2 d)) dom cmp.
Proof.
  intros Hc. constructor.
  - intros x y Hx Hy. rewrite Hc by done. split.
    + destruct (Z.eqb_spec (k1 x - k1 y) 0); intros; f_equal; lia.
    + intros [= -> ->]. by rewrite !Z.sub_diag.
  - intros x y Hx Hy. rewrite !Hc by done.
    destruct (Z.eqb_spec (k1 x - k1 y) 0), (Z.eqb_spec (k1 y - k1 x) 0); lia.
  - intros x y z Hx Hy Hz. rewrite !Hc by done.
    destruct (Z.eqb_spec (k1 x - k1 y) 0), (Z.eqb_spec (k1 y - k1 z) 0), (Z.eqb_spec (k1 x - k1 z) 0); lia.
Qed.

Definition sorted {D} (cmp : D → D → Z) : list D → Prop := StronglySorted (λ x y, cmp x y < 0).

Section Law.
Context {D K : Type} (key : D → K) (dom : D → Prop) (cmp : D → D → Z).
Context (law : cmp_law key dom cmp).

Lemma sorted_sep d l : dom d → Forall dom l → sorted cmp l → sep cmp d l.
Proof.
  intros Hd Hl Hs. unfold sep, sorted in *.
  induction Hs as [|x l Hs IH Hx]; constructor.
  - apply IH. by apply Forall_cons in Hl as [_ ?].
  - apply Forall_cons in Hl as [Hdx Hl]. rewrite Forall_forall in Hl.
    rewrite Forall_forall in Hx. apply Forall_forall. intros y Hy.
    specialize (Hx _ Hy). specialize (Hl _ Hy).
    destruct (Z.lt_trichotomy (cmp d x) 0) as [H|[H|H]]; [right|right|by left].
    + by apply (cmp_trans _ _ _ law d x y).
    + apply (cmp_zero _ _ _ law) in H; [|done..].
      destruct (Z.lt_trichotomy (cmp d y) 0) as [H'|[H'|H']]; [done| |].
      * apply (cmp_zero _ _ _ law) in H'; [|done..].
        assert (cmp x y = 0) by (apply (cmp_zero _ _ _ law); [done..|congruence]). lia.
      * apply (cmp_anti _ _ _ law) in H'; [|done..].
        assert (cmp x d < 0) by (by apply (cmp_trans _ _ _ law x y d)).
        assert (cmp x d = 0) by (by apply (cmp_zero _ _ _ law)). lia.
Qed.

Lemma cut_sorted d l l1 l2 :
  dom d → Forall dom l → sorted cmp l → cut cmp d l l1 None l2 → sorted cmp (l1 ++ d :: l2).
Proof.
  intros Hd Hl Hs [-> H1 _ H2]. simpl in *. unfold sorted in *.
  apply StronglySorted_app in Hs as (H12 & Hs1 & Hs2).
  apply Forall_app in Hl as [Hl1 Hl2].
  apply StronglySorted_app. rewrite Forall_forall in H1, Hl1. split_and!; [|done|by constructor].
  intros x y Hx [->|Hy]%elem_of_cons; [|by apply H12].
  apply (cmp_anti _ _ _ law); auto.
Qed.

Lemma sorted_delete l1 x l2 : sorted cmp (l1 ++ x :: l2) → sorted cmp (l1 ++ l2).
Proof.
  unfold sorted. intros (H & H1 & H2)%StronglySorted_app.
  apply StronglySorted_inv in H2 as [H2 _]. apply StronglySorted_app.
  split_and!; [|done..]. intros a b Ha Hb. apply H; [done|by right].
Qed.
(** Data of equal keys compare alike. *)
Lemma cmp_same_key x x' y :
  dom x → dom x' → dom y → key x = key x' → cmp x y < 0 → cmp x' y < 0.
Proof.
  intros Hx Hx' Hy Hk Hlt. destruct (Z.lt_trichotomy (cmp x' y) 0) as [|[Hz|Hgt]]; [done|exfalso..].
  - apply (cmp_zero _ _ _ law) in Hz; [|done..].
    assert (cmp x y = 0) by (apply (cmp_zero _ _ _ law); [done..|congruence]). lia.
  - apply (cmp_anti _ _ _ law) in Hgt; [|done..].
    assert (cmp x x' < 0) by (by apply (cmp_trans _ _ _ law x y x')).
    assert (cmp x x' = 0) by (by apply (cmp_zero _ _ _ law)). lia.
Qed.

Lemma cut_same_key d d' l1 o l2 l :
  dom d → dom d' → Forall dom l → key d = key d' → l = l1 ++ l2 →
  Forall (λ x, 0 < cmp d x) l1 → Forall (λ x, cmp d x < 0) l2 → o = None → cut cmp d' l l1 o l2.
Proof.
  intros Hd Hd' Hl Hk -> H1' H2' ->. apply Forall_app in Hl as [Hl1 Hl2].
  rewrite Forall_forall in H1', H2', Hl1, Hl2. constructor; try done; apply Forall_forall; intros x Hx.
  - apply (cmp_anti _ _ _ law); [by auto..|].
    destruct (Z.lt_trichotomy (cmp x d') 0) as [|[Hz|Hgt]]; [done|exfalso..].
    + apply (cmp_zero _ _ _ law) in Hz; [|by auto..]. specialize (H1' _ Hx).
      assert (cmp d x = 0) by (apply (cmp_zero _ _ _ law); [by auto..|congruence]). lia.
    + apply (cmp_anti _ _ _ law) in Hgt; [|by auto..].
      apply (cmp_same_key d' d) in Hgt; [|by auto..]. specialize (H1' _ Hx). lia.
  - apply (cmp_same_key d); auto.
Qed.

Lemma sorted_keys l : Forall dom l → sorted cmp l → NoDup (key <$> l).
Proof.
  intros Hd Hs. induction Hs as [|x l Hs IH Hx]; simpl; [constructor|].
  apply Forall_cons in Hd as [Hdx Hd]. constructor; [|by apply IH].
  intros (y & Hk & Hy)%list_elem_of_fmap. rewrite Forall_forall in Hx. rewrite Forall_forall in Hd.
  specialize (Hx _ Hy). specialize (Hd _ Hy).
  assert (cmp x y = 0) by (by apply (cmp_zero _ _ _ law)). lia.
Qed.
End Law.

(** ** Search trees *)

(** [insert], [query], [delete] return the codes of the C enumerations, [OK] = 0. *)
Definition TREE_OK : Z := 0.
Definition TREE_ERR : Z := - 2 ^ 31.
Definition TREE_NODE_EXIST : Z := TREE_ERR + 1.

Class TreeOps (T : Type → Type) := {
  tr_creat : ∀ {D Σ : Type}, SM Σ (option (T D));
  tr_insert : ∀ {D : Type}, (D → D → Z) → D → SM (T D) Z;
  tr_query : ∀ {D : Type}, (D → D → Z) → D → SM (T D) (option D);
  tr_store : ∀ {D : Type}, (D → D → Z) → D → (D → D) → SM (T D) unit;
  tr_delete : ∀ {D : Type}, (D → D → Z) → D → SM (T D) (Z * option D);
  tr_trav : ∀ {D Σ : Type}, T D → (D → SM Σ unit) → SM Σ unit;
  (** The tree is gone; [dealloc] runs on its elements. *)
  tr_destroy : ∀ {D Σ : Type}, T D → (D → SM Σ unit) → SM Σ unit;
  tr_num : ∀ {D : Type}, T D → Z;
  (** [tr_wf t l]: the tree is well formed and holds [l], in order. *)
  tr_wf : ∀ {D : Type}, T D → list D → Prop;
}.

Class TreeLaws (T : Type → Type) `{TreeOps T} := {
  law_creat {D Σ} (s : Σ) :
    wp (tr_creat (D := D)) (λ r s' ms', s' = s ∧ ms' = [] ∧ ∃ t, r = Some t ∧ tr_wf t []) s [];

  law_insert {D} (cmp : D → D → Z) (d : D) (t : T D) (l : list D) ms :
    tr_wf t l → sep cmp d l →
    wp (tr_insert cmp d)
      (λ r t' ms',
         (∃ l1 x l2, cut cmp d l l1 (Some x) l2 ∧ r = TREE_NODE_EXIST ∧ t' = t ∧ ms' = ms) ∨
         (∃ l1 l2, cut cmp d l l1 None l2 ∧ ms' = tail ms ∧
            if decide (head ms = Some false) then r = TREE_ERR ∧ tr_wf t' l
            else r = TREE_OK ∧ tr_wf t' (l1 ++ d :: l2))) t ms;

  law_query {D} (cmp : D → D → Z) (d : D) (t : T D) (l : list D) ms :
    tr_wf t l → sep cmp d l →
    wp (tr_query cmp d)
      (λ r t' ms', t' = t ∧ ms' = ms ∧ ∃ l1 l2, cut cmp d l l1 r l2) t ms;

  law_store {D} (cmp : D → D → Z) (d : D) (f : D → D) (t : T D) (l : list D) ms :
    tr_wf t l → sep cmp d l →
    wp (tr_store cmp d f)
      (λ _ t' ms', ms' = ms ∧ ∃ l1 o l2, cut cmp d l l1 o l2 ∧
         tr_wf t' (l1 ++ option_list (f <$> o) ++ l2)) t ms;

  law_delete {D} (cmp : D → D → Z) (d : D) (t : T D) (l : list D) ms :
    tr_wf t l → sep cmp d l →
    wp (tr_delete cmp d)
      (λ r t' ms', ms' = ms ∧ r.1 = TREE_OK ∧ ∃ l1 l2, cut cmp d l l1 r.2 l2 ∧
         tr_wf t' (l1 ++ l2)) t ms;

  law_num {D} (t : T D) (l : list D) : tr_wf t l → tr_num t = u64 (Z.of_nat (length l));

  law_trav {D Σ} (t : T D) (l : list D) (proc : D → SM Σ unit) s ms Q :
    tr_wf t l → Z.of_nat (length l) < 2 ^ 64 →
    wp (for_each proc l) Q s ms → wp (tr_trav t proc) Q s ms;

  law_destroy {D Σ} (t : T D) (l : list D) (dealloc : D → SM Σ unit) :
    tr_wf t l → Z.of_nat (length l) < 2 ^ 64 →
    ∃ ds, ds ≡ₚ l ∧ ∀ Q s ms, wp (for_each dealloc ds) Q s ms → wp (tr_destroy t dealloc) Q s ms;
}.
