(* ===== verification/RbTree.v ===== *)
(** The red-black tree of [lib/core/rb_tree.c] and the bounded stack of
    [incl/stack.h] it is traversed with, on an explicit heap of nodes: every
    pointer read goes through the heap (a dangling one is a [Crash]), the shared
    sentinel is a node like any other, and freed nodes leave the heap.  This
    file holds the data and the operations; [RbSpec] the proofs. *)
From S2P Require Import Prelude.
Open Scope Z_scope.

Inductive color := RED | BLACK.
#[global] Instance color_eq_dec : EqDecision color.
Proof. solve_decision. Defined.

Definition is_red (c : color) : bool := match c with RED => true | BLACK => false end.

(** [rbt_ret_e]. *)
Definition RBT_OK : Z := 0.
Definition RBT_ERR : Z := - 2 ^ 31.
Definition RBT_NODE_EXIST : Z := RBT_ERR + 1.

Definition RBT_MAX_DEPTH : nat := 512.

(** [RBT_LCHILD] / [RBT_RCHILD]. *)
Inductive side := LCHILD | RCHILD.

(** ** [Stack_t] (the [max] entries of the array, top first) *)
Record stack_t := { stk : list ptr; stk_max : nat }.

Definition stack_init (max : nat) : stack_t := {| stk := []; stk_max := max |}.

(** A push beyond the capacity is dropped (the function returns -1, which the
    callers ignore). *)
Definition stack_push (s : stack_t) (p : ptr) : stack_t :=
  if (stk_max s <=? length (stk s))%nat then s
  else {| stk := p :: stk s; stk_max := stk_max s |}.

Definition stack_pop (s : stack_t) : stack_t :=
  {| stk := tail (stk s); stk_max := stk_max s |}.

Definition stack_gettop (s : stack_t) : ptr :=
  match stk s with [] => NULL | p :: _ => p end.

(** ** Nodes and trees *)

Section Data.
Context {D : Type}.

(** [rbt_node_t]; the data of the sentinel is never set. *)
Record rbt_node_t := {
  color_ : color; parent : ptr; lchild : ptr; rchild : ptr; data : option D }.

(** [rbt_tree_t], with the heap its nodes live in and the next fresh address. *)
Record rbt_tree_t := {
  num : Z; root : ptr; sentinel : ptr;
  heap : gmap ptr rbt_node_t; brk : ptr }.

Definition set_color (c : color) (n : rbt_node_t) : rbt_node_t :=
  {| color_ := c; parent := parent n; lchild := lchild n; rchild := rchild n; data := data n |}.
Definition set_parent (p : ptr) (n : rbt_node_t) : rbt_node_t :=
  {| color_ := color_ n; parent := p; lchild := lchild n; rchild := rchild n; data := data n |}.
Definition set_lchild (p : ptr) (n : rbt_node_t) : rbt_node_t :=
  {| color_ := color_ n; parent := parent n; lchild := p; rchild := rchild n; data := data n |}.
Definition set_rchild (p : ptr) (n : rbt_node_t) : rbt_node_t :=
  {| color_ := color_ n; parent := parent n; lchild := lchild n; rchild := p; data := data n |}.
Definition set_data (d : D) (n : rbt_node_t) : rbt_node_t :=
  {| color_ := color_ n; parent := parent n; lchild := lchild n; rchild := rchild n; data := Some d |}.

Definition set_root (p : ptr) (t : rbt_tree_t) : rbt_tree_t :=
  {| num := num t; root := p; sentinel := sentinel t; heap := heap t; brk := brk t |}.
Definition set_num (n : Z) (t : rbt_tree_t) : rbt_tree_t :=
  {| num := n; root := root t; sentinel := sentinel t; heap := heap t; brk := brk t |}.
Definition set_heap (h : gmap ptr rbt_node_t) (t : rbt_tree_t) : rbt_tree_t :=
  {| num := num t; root := root t; sentinel := sentinel t; heap := h; brk := brk t |}.
Definition set_brk (b : ptr) (t : rbt_tree_t) : rbt_tree_t :=
  {| num := num t; root := root t; sentinel := sentinel t; heap := heap t; brk := b |}.
End Data.
Arguments rbt_node_t : clear implicits.
Arguments rbt_tree_t : clear implicits.

(** The state of the loop of [rbt_delete_fixup]: [node], [brother] and [parent];
    the last two are NULL until the first iteration. *)
Abbreviation fixup := (ptr * ptr * ptr)%type.

(** ** Pointer accesses *)
Section Access.
Context {D : Type}.
Abbreviation RB := (SM (rbt_tree_t D)).

Definition rd (p : ptr) : RB (rbt_node_t D) := t ← get; deref (heap t !! p).

Definition wr (p : ptr) (f : rbt_node_t D → rbt_node_t D) : RB unit :=
  n ← rd p; modify (λ t, set_heap (<[p := f n]> (heap t)) t).

(** [tree->alloc] of a node: zeroed memory, [None] when it returns NULL. *)
Definition alloc_node : RB (option ptr) :=
  ok ← malloc;
  if ok : bool then
    p ← gets brk;
    modify (λ t, set_brk (p + 1)
      (set_heap (<[p := {| color_ := BLACK; parent := NULL; lchild := NULL;
                           rchild := NULL; data := None |}]> (heap t)) t));;
    mret (Some p)
  else mret None.

(** [tree->dealloc] of a node. *)
Definition dealloc_node (p : ptr) : RB unit :=
  _ ← rd p; modify (λ t, set_heap (delete p (heap t)) t).

Definition rbt_is_red (p : ptr) : RB bool := n ← rd p; mret (is_red (color_ n)).
Definition rbt_is_black (p : ptr) : RB bool := n ← rd p; mret (negb (is_red (color_ n))).
Definition rbt_set_red (p : ptr) : RB unit := wr p (set_color RED).
Definition rbt_set_black (p : ptr) : RB unit := wr p (set_color BLACK).
Definition rbt_copy_color (p src : ptr) : RB unit := s ← rd src; wr p (set_color (color_ s)).

Definition rbt_set_lchild (node left : ptr) : RB unit :=
  wr node (set_lchild left);;
  s ← gets sentinel;
  if s =? left then mret tt else wr left (set_parent node).

Definition rbt_set_rchild (node right : ptr) : RB unit :=
  wr node (set_rchild right);;
  s ← gets sentinel;
  if s =? right then mret tt else wr right (set_parent node).

Definition rbt_set_child (node : ptr) (type : side) (child : ptr) : RB unit :=
  match type with
  | LCHILD => rbt_set_lchild node child
  | RCHILD => rbt_set_rchild node child
  end.

(** [rbt_assert]. *)
Definition rbt_assert (node : ptr) : RB unit :=
  s ← gets sentinel;
  if (node =? NULL) || (s =? node) then mret tt else
  n ← rd node;
  if s =? parent n then mret tt else
  cassert (negb ((parent n =? lchild n) || (parent n =? rchild n)));;
  pn ← rd (parent n);
  cassert (negb (negb (lchild pn =? node) && negb (rchild pn =? node)));;
  cassert (negb ((parent n =? lchild n) || (parent n =? rchild n))).

Definition rbt_right_rotate (node : ptr) : RB unit :=
  n ← rd node;
  s ← gets sentinel;
  let parent := parent n in
  let lchild := lchild n in
  (if s =? parent then
     modify (set_root lchild);; wr lchild (set_parent s)
   else
     p ← rd parent;
     if node =? RbTree.lchild p then rbt_set_lchild parent lchild
     else rbt_set_rchild parent lchild);;
  l ← rd lchild;
  rbt_set_lchild node (rchild l);;
  rbt_set_rchild lchild node;;
  rbt_assert node;; rbt_assert lchild;; rbt_assert parent.

Definition rbt_left_rotate (node : ptr) : RB unit :=
  n ← rd node;
  s ← gets sentinel;
  let parent := parent n in
  let rchild := rchild n in
  (if s =? parent then
     modify (set_root rchild);; wr rchild (set_parent s)
   else
     p ← rd parent;
     if node =? lchild p then rbt_set_lchild parent rchild
     else rbt_set_rchild parent rchild);;
  r ← rd rchild;
  rbt_set_rchild node (lchild r);;
  rbt_set_lchild rchild node;;
  rbt_assert node;; rbt_assert rchild;; rbt_assert parent.

Definition rbt_creat_node (c : color) (type : side) (par : option ptr) : RB (option ptr) :=
  r ← alloc_node;
  match r with
  | None => mret None
  | Some node =>
      s ← gets sentinel;
      wr node (set_color c);;
      wr node (set_lchild s);;
      wr node (set_rchild s);;
      (match par with
       | Some p => rbt_set_child p type node
       | None => wr node (set_parent s)
       end);;
      mret (Some node)
  end.

(** Enough iterations for any walk that never visits a node twice; the loops
    that recolour upwards visit each level at most three times. *)
Definition tree_fuel (t : rbt_tree_t D) : nat := S (3 * size (heap t)).

(** One iteration of the loop of [rbt_insert_fixup]. *)
Definition insert_fixup_step (node : ptr) : RB (ptr + Z) :=
  red ← rbt_is_red node;
  if negb red then mret (inr RBT_OK) else
  n ← rd node;
  let par := parent n in
  pblack ← rbt_is_black par;
  if pblack : bool then mret (inr RBT_OK) else
  p ← rd par;
  let grandpa := parent p in
  g ← rd grandpa;
  if par =? lchild g then
    let uncle := rchild g in
    ured ← rbt_is_red uncle;
    if ured : bool then
      (* case 1: parent and uncle are red *)
      rbt_set_black par;; rbt_set_black uncle;;
      rt ← gets root;
      (if negb (grandpa =? rt) then rbt_set_red grandpa else mret tt);;
      mret (inl grandpa)
    else if node =? lchild p then
      (* case 2: rotate right around the grandparent *)
      let gparent := parent g in
      rbt_set_red grandpa;; rbt_set_black par;;
      rbt_right_rotate grandpa;;
      mret (inl gparent)
    else
      (* case 3: rotate left around the parent *)
      rbt_left_rotate par;; mret (inl par)
  else
    let uncle := lchild g in
    ured ← rbt_is_red uncle;
    if ured : bool then
      rbt_set_black par;; rbt_set_black uncle;;
      rt ← gets root;
      (if negb (grandpa =? rt) then rbt_set_red grandpa else mret tt);;
      mret (inl grandpa)
    else if node =? lchild p then
      rbt_right_rotate par;; mret (inl par)
    else
      let gparent := parent g in
      rbt_set_black par;; rbt_set_red grandpa;;
      rbt_left_rotate grandpa;;
      mret (inl gparent).

Definition rbt_insert_fixup (node : ptr) : RB Z :=
  fuel ← gets tree_fuel; loop fuel insert_fixup_step node.

(** Cases 2, 3 and 4: [node] is a left child and its brother is black. *)
Definition delete_fixup_left_black (par brother : ptr) : RB (fixup + fixup) :=
  b ← rd brother;
  lb ← rbt_is_black (lchild b);
  both ← (if lb : bool then rbt_is_black (rchild b) else mret false);
  if both : bool then
    rbt_set_red brother;; mret (inl (par, brother, par))
  else
    rb ← rbt_is_black (rchild b);
    brother ← (if rb : bool then
        rbt_set_black (lchild b);; rbt_set_red brother;;
        rbt_right_rotate brother;;
        p ← rd par; mret (rchild p)
      else mret brother);
    rbt_copy_color brother par;;
    b ← rd brother;
    rbt_set_black (rchild b);; rbt_set_black par;;
    rbt_left_rotate par;;
    rt ← gets root;
    mret (inl (rt, brother, par)).

(** Case 1, then the others. *)
Definition delete_fixup_left (par brother : ptr) : RB (fixup + fixup) :=
  bred ← rbt_is_red brother;
  brother ← (if bred : bool then
      rbt_set_red par;; rbt_set_black brother;; rbt_left_rotate par;;
      p ← rd par; mret (rchild p)
    else mret brother);
  delete_fixup_left_black par brother.

(** Cases 6, 7 and 8: [node] is a right child and its brother is black. *)
Definition delete_fixup_right_black (par brother : ptr) : RB (fixup + fixup) :=
  b ← rd brother;
  lb ← rbt_is_black (lchild b);
  both ← (if lb : bool then rbt_is_black (rchild b) else mret false);
  if both : bool then
    rbt_set_red brother;; mret (inl (par, brother, par))
  else
    lb ← rbt_is_black (lchild b);
    brother ← (if lb : bool then
        rbt_set_red brother;; rbt_set_black (rchild b);;
        rbt_left_rotate brother;;
        p ← rd par; mret (lchild p)
      else mret brother);
    rbt_copy_color brother par;;
    b ← rd brother;
    rbt_set_black (lchild b);; rbt_set_black par;;
    rbt_right_rotate par;;
    rt ← gets root;
    mret (inl (rt, brother, par)).

(** Case 5, then the others. *)
Definition delete_fixup_right (par brother : ptr) : RB (fixup + fixup) :=
  bred ← rbt_is_red brother;
  brother ← (if bred : bool then
      rbt_set_red par;; rbt_set_black brother;; rbt_right_rotate par;;
      p ← rd par; mret (lchild p)
    else mret brother);
  delete_fixup_right_black par brother.

(** One iteration of the loop. *)
Definition delete_fixup_step : fixup → RB (fixup + fixup) :=
  λ '(node, brother, par),
  black ← rbt_is_black node;
  rt ← gets root;
  if negb (black && negb (rt =? node)) then mret (inr (node, brother, par)) else
  n ← rd node;
  let par := parent n in
  p ← rd par;
  if node =? lchild p then delete_fixup_left par (rchild p)
  else delete_fixup_right par (lchild p).

Definition rbt_delete_fixup (node : ptr) : RB Z :=
  fuel ← gets tree_fuel;
  '(node, brother, par) ← loop fuel delete_fixup_step (node, NULL, NULL);
  rbt_set_black node;;
  rbt_assert node;; rbt_assert brother;; rbt_assert par;;
  mret RBT_OK.

(** The child link to [node] of its parent is redirected to [child]. *)
Definition redirect (node par child : ptr) : RB unit :=
  p ← rd par;
  if node =? lchild p then wr par (set_lchild child) else wr par (set_rchild child).

(** Cases 1 and 2 of [_rbt_delete]: [dnode] is replaced by its child [refer]. *)
Definition rbt_replace (dnode refer : ptr) : RB Z :=
  dn ← rd dnode;
  let par := parent dn in
  s ← gets sentinel;
  wr refer (set_parent par);;
  (if s =? par then modify (set_root refer)
   else redirect dnode par refer);;
  red ← rbt_is_red dnode;
  if red : bool then dealloc_node dnode;; mret RBT_OK
  else dealloc_node dnode;; rbt_delete_fixup refer.

Definition _rbt_delete (dnode : ptr) : RB Z :=
  dn ← rd dnode;
  s ← gets sentinel;
  if s =? lchild dn then rbt_replace dnode (rchild dn)
  else if s =? rchild dn then rbt_replace dnode (lchild dn)
  else
    (* case 3: find the successor of dnode *)
    fuel ← gets tree_fuel;
    next ← loop fuel (λ next,
      n ← rd next;
      if s =? lchild n then mret (inr next) else mret (inl (lchild n))) (rchild dn);
    n ← rd next;
    let par := parent n in
    let refer := rchild n in
    wr refer (set_parent par);;
    redirect next par refer;;
    nd ← deref (data n);
    wr dnode (set_data nd);;
    red ← rbt_is_red next;
    if red : bool then dealloc_node next;; mret RBT_OK
    else dealloc_node next;; rbt_delete_fixup refer.
End Access.

(** ** Operations *)
Section Ops.
Context {D : Type} (cmp_cb : D → D → Z).
Abbreviation RB := (SM (rbt_tree_t D)).

(** [rbt_creat]: when the sentinel cannot be allocated the code calls
    [tree->dealloc] before setting it (a call through a NULL pointer). *)
Definition rbt_creat {Σ} : SM Σ (option (rbt_tree_t D)) :=
  ok ← malloc;
  if negb ok then mret None else
  ok2 ← malloc;
  if negb ok2 then crash else
  mret (Some {| num := 0; root := 1; sentinel := 1;
                heap := {[ 1 := {| color_ := BLACK; parent := NULL; lchild := NULL;
                                   rchild := NULL; data := None |} ]};
                brk := 2 |}).

Definition rbt_insert (d : D) : RB Z :=
  t ← get;
  if sentinel t =? root t then
    r ← rbt_creat_node BLACK LCHILD None;
    match r with
    | None => modify (λ t, set_root (sentinel t) t);; mret RBT_ERR
    | Some p =>
        modify (set_root p);;
        modify (λ t, set_num (u64 (num t + 1)) t);;
        wr p (set_data d);;
        mret RBT_OK
    end
  else
    loop (tree_fuel t) (λ node,
      s ← gets sentinel;
      if s =? node then mret (inr RBT_OK) else
      n ← rd node;
      nd ← deref (data n);
      let ret := cmp_cb d nd in
      if ret =? 0 then mret (inr RBT_NODE_EXIST)
      else if ret <? 0 then
        if s =? lchild n then
          r ← rbt_creat_node RED LCHILD (Some node);
          match r with
          | None => mret (inr RBT_ERR)
          | Some add =>
              modify (λ t, set_num (u64 (num t + 1)) t);;
              wr add (set_data d);;
              code ← rbt_insert_fixup add; mret (inr code)
          end
        else mret (inl (lchild n))
      else
        if s =? rchild n then
          r ← rbt_creat_node RED RCHILD (Some node);
          match r with
          | None => mret (inr RBT_ERR)
          | Some add =>
              modify (λ t, set_num (u64 (num t + 1)) t);;
              wr add (set_data d);;
              code ← rbt_insert_fixup add; mret (inr code)
          end
        else mret (inl (rchild n))) (root t).

Definition rbt_query (key : D) : RB (option D) :=
  t ← get;
  loop (tree_fuel t) (λ node,
    s ← gets sentinel;
    if s =? node then mret (inr None) else
    n ← rd node;
    nd ← deref (data n);
    let ret := cmp_cb key nd in
    if ret =? 0 then mret (inr (Some nd))
    else if ret <? 0 then mret (inl (lchild n))
    else mret (inl (rchild n))) (root t).

Definition rbt_num (t : rbt_tree_t D) : Z := num t.

(** The write the callers make through the pointer [rbt_query] returned: the
    data of the node it found is replaced. *)
Definition rbt_store (key : D) (f : D → D) : RB unit :=
  t ← get;
  loop (tree_fuel t) (λ node,
    s ← gets sentinel;
    if s =? node then mret (inr tt) else
    n ← rd node;
    nd ← deref (data n);
    let ret := cmp_cb key nd in
    if ret =? 0 then wr node (set_data (f nd));; mret (inr tt)
    else if ret <? 0 then mret (inl (lchild n))
    else mret (inl (rchild n))) (root t).

(** [rbt_delete]: the code, and the data unlinked ([None] for NULL). *)
Definition rbt_delete (key : D) : RB (Z * option D) :=
  t ← get;
  loop (tree_fuel t) (λ node,
    s ← gets sentinel;
    if s =? node then mret (inr (RBT_OK, None)) else
    n ← rd node;
    nd ← deref (data n);
    let ret := cmp_cb key nd in
    if ret =? 0 then
      modify (λ t, set_num (u64 (num t - 1)) t);;
      code ← _rbt_delete node;
      mret (inr (code, Some nd))
    else if ret <? 0 then mret (inl (lchild n))
    else mret (inl (rchild n))) (root t).
End Ops.

(** ** Traversals

    They read the tree and run a callback on a state [Σ] of the caller. *)
Section Trav.
Context {D Σ : Type} (t : rbt_tree_t D).

Definition node_of (p : ptr) : SM Σ (rbt_node_t D) := deref (heap t !! p).

Definition data_of (p : ptr) : SM Σ D := n ← node_of p; deref (data n).

(** [rbt_assert], reading only. *)
Definition rbt_assert_ro (node : ptr) : SM Σ unit :=
  match rbt_assert node t [] with
  | Ok _ => mret tt
  | _ => crash
  end.

(** The inner loop that pushes the left spine. *)
Definition push_left (check : bool) : ptr * stack_t → SM Σ (ptr * stack_t) :=
  loop (tree_fuel t) (λ '(node, st),
    n ← node_of node;
    if sentinel t =? lchild n then mret (inr (node, st)) else
    (if check then rbt_assert_ro node else mret tt);;
    mret (inl (lchild n, stack_push st node))).

(** The inner loop that pops the finished ancestors; [None] when the stack is
    exhausted (the caller returns). *)
Definition pop_done : ptr * ptr * stack_t → SM Σ (option (ptr * stack_t)) :=
  loop (tree_fuel t) (λ '(node, par, st),
    p ← node_of par;
    if (node =? rchild p) || (sentinel t =? rchild p) then
      let st := stack_pop st in
      let node := par in
      let par := stack_gettop st in
      if par =? NULL then mret (inr None) else mret (inl (node, par, st))
    else mret (inr (Some (par, st)))).

(** One iteration of the outer loop: the left spine of [node] is pushed, its
    last node visited, and the next subtree to visit looked for. *)
Definition trav_step (proc : D → SM Σ unit) : ptr * stack_t → SM Σ (ptr * stack_t + unit) :=
  λ '(node, st),
  if sentinel t =? node then mret (inr tt) else
  '(node, st) ← push_left true (node, st);
  d ← data_of node;
  proc d;;
  n ← node_of node;
  if negb (sentinel t =? rchild n) then
    mret (inl (rchild n, stack_push st node))
  else
  let par := stack_gettop st in
  if par =? NULL then mret (inr tt) else
  p ← node_of par;
  (* next: [Some] goes on with the popping loop, [None] returns,
     [inl] continues the outer loop *)
  step ← (if lchild p =? node then
      pd ← data_of par;
      proc pd;;
      if negb (sentinel t =? rchild p) then mret (inl (rchild p))
      else
        let st := stack_pop st in
        let par' := stack_gettop st in
        if par' =? NULL then mret (inr None)
        else mret (inr (Some (par, par', st)))
    else mret (inr (Some (node, par, st))));
  match step with
  | inl node' => mret (inl (node', st))
  | inr None => mret (inr tt)
  | inr (Some nps) =>
      r ← pop_done nps;
      match r with
      | None => mret (inr tt)
      | Some (par, st) =>
          pd ← data_of par;
          proc pd;;
          p ← node_of par;
          mret (inl (rchild p, st))
      end
  end.

Definition rbt_trav (proc : D → SM Σ unit) : SM Σ unit :=
  if sentinel t =? root t then mret tt else
  loop (tree_fuel t) (trav_step proc) (root t, stack_init RBT_MAX_DEPTH).

Definition rbt_find (find : D → SM Σ bool) : SM Σ (option D) :=
  if sentinel t =? root t then mret None else
  loop (tree_fuel t) (λ '(node, st),
    if sentinel t =? node then mret (inr None) else
    '(node, st) ← push_left true (node, st);
    d ← data_of node;
    hit ← find d;
    if hit : bool then mret (inr (Some d)) else
    n ← node_of node;
    if negb (sentinel t =? rchild n) then
      mret (inl (rchild n, stack_push st node))
    else
    let par := stack_gettop st in
    if par =? NULL then mret (inr None) else
    p ← node_of par;
    step ← (if lchild p =? node then
        pd ← data_of par;
        hit ← find pd;
        if hit : bool then mret (inr (inl (Some pd)))
        else if negb (sentinel t =? rchild p) then mret (inl (rchild p))
        else
          let st := stack_pop st in
          let par' := stack_gettop st in
          if par' =? NULL then mret (inr (inl None))
          else mret (inr (inr (par, par', st)))
      else mret (inr (inr (node, par, st))));
    match step with
    | inl node' => mret (inl (node', st))
    | inr (inl res) => mret (inr res)
    | inr (inr nps) =>
        r ← pop_done nps;
        match r with
        | None => mret (inr None)
        | Some (par, st) =>
            pd ← data_of par;
            hit ← find pd;
            if hit : bool then mret (inr (Some pd)) else
            p ← node_of par;
            mret (inl (rchild p, st))
        end
    end) (root t, stack_init RBT_MAX_DEPTH).
End Trav.

(** ** Destruction

    [rbt_destroy] releases the nodes in postfix order, calling [dealloc] (on a
    state [Σ] of the caller) on the data of each. *)
Section Destroy.
Context {D Σ : Type} (dealloc : D → SM Σ unit).
Abbreviation ST := (rbt_tree_t D * Σ)%type.

Definition on_tree {A} : SM (rbt_tree_t D) A → SM ST A := zoom fst (λ t s, (t, s.2)).
Definition on_user {A} : SM Σ A → SM ST A := zoom snd (λ u s, (s.1, u)).

Definition free_node (node : ptr) : SM ST unit :=
  n ← on_tree (rd node);
  d ← deref (data n);
  on_user (dealloc d);;
  on_tree (dealloc_node node).

Definition free_sentinel : SM ST unit := s ← gets (λ s, sentinel s.1); on_tree (dealloc_node s).

Definition destroy_push : ptr * stack_t → SM ST (ptr * stack_t) := λ x,
  s ← get;
  loop (tree_fuel s.1) (λ '(node, st),
    n ← on_tree (rd node);
    if sentinel s.1 =? lchild n then mret (inr (node, st))
    else mret (inl (lchild n, stack_push st node))) x.

(** The inner loop that releases the finished nodes; [None] when the root has
    been released. *)
Definition destroy_pop_step :
    ptr * ptr * stack_t → SM ST (ptr * ptr * stack_t + option (ptr * ptr * stack_t)) :=
  λ '(node, par, st),
  p ← on_tree (rd par);
  s ← gets (λ s, sentinel s.1);
  if (node =? rchild p) || (s =? rchild p) then
    let st := stack_pop st in
    free_node node;;
    let node := par in
    let par := stack_gettop st in
    if par =? NULL then free_node node;; free_sentinel;; mret (inr None)
    else mret (inl (node, par, st))
  else mret (inr (Some (node, par, st))).

Definition destroy_step : ptr * stack_t → SM ST (ptr * stack_t + unit) :=
  λ '(node, st),
  s ← gets (λ s, sentinel s.1);
  if s =? node then free_sentinel;; mret (inr tt) else
  '(node, st) ← destroy_push (node, st);
  n ← on_tree (rd node);
  if negb (s =? rchild n) then mret (inl (rchild n, stack_push st node)) else
  let par := stack_gettop st in
  if par =? NULL then free_node node;; free_sentinel;; mret (inr tt) else
  p ← on_tree (rd par);
  if (lchild p =? node) && negb (s =? rchild p) then
    free_node node;; mret (inl (rchild p, st))
  else
    t ← get;
    r ← loop (tree_fuel t.1) destroy_pop_step (node, par, st);
    match r with
    | None => mret (inr tt)
    | Some (node, par, st) =>
        free_node node;;
        p ← on_tree (rd par);
        mret (inl (rchild p, st))
    end.

(** The final heap is empty; the tree structure itself is freed with it. *)
Definition rbt_destroy : SM ST unit :=
  t ← get;
  if sentinel t.1 =? root t.1 then free_sentinel
  else loop (tree_fuel t.1) destroy_step (root t.1, stack_init RBT_MAX_DEPTH).
End Destroy.
