(* ===== verification/RbSpec.v ===== *)
(** The heap of [RbTree] read as a binary tree under focus.  [Hp st C] says that
    the live nodes of the heap are exactly the cells [C] (and the sentinel);
    [Rep st t k] that these cells are those of the tree [t] hanging in the context
    [k].  Every pointer operation (recolouring, relinking, rotation, allocation,
    release) is specified once on this view, so that the proofs about the
    algorithms speak of trees and contexts only. *)
From S2P Require Import Prelude RbTree.
Open Scope Z_scope.

(** The address [rbt_creat] gives the sentinel. *)
Definition SENT : ptr := 1.

Section Rep.
Context {D : Type}.

Inductive tree :=
  | E
  | N (c : color) (l : tree) (p : ptr) (d : D) (r : tree).

(** One ancestor of the focus: the focus is its left or right child. *)
Inductive frame :=
  | FL (c : color) (p : ptr) (d : D) (r : tree)
  | FR (c : color) (l : tree) (p : ptr) (d : D).

Definition rp (t : tree) : ptr := match t with E => SENT | N _ _ p _ _ => p end.
Definition col (t : tree) : color := match t with E => BLACK | N c _ _ _ _ => c end.
Definition fp (f : frame) : ptr := match f with FL _ p _ _ | FR _ _ p _ => p end.
Definition fcol (f : frame) : color := match f with FL c _ _ _ | FR c _ _ _ => c end.
Definition plug (t : tree) (f : frame) : tree :=
  match f with FL c p d r => N c t p d r | FR c l p d => N c l p d t end.
Definition top (k : list frame) : ptr := match k with [] => SENT | f :: _ => fp f end.
Fixpoint zip (t : tree) (k : list frame) : tree :=
  match k with [] => t | f :: k' => zip (plug t f) k' end.
Fixpoint zroot (k : list frame) (q : ptr) : ptr :=
  match k with [] => q | f :: k' => zroot k' (fp f) end.

Abbreviation cell := (ptr * rbt_node_t D)%type.

Definition mk c par l r d : rbt_node_t D :=
  {| color_ := c; parent := par; lchild := l; rchild := r; data := Some d |}.

Fixpoint cells (par : ptr) (t : tree) : list cell :=
  match t with
  | E => []
  | N c l p d r => (p, mk c par (rp l) (rp r) d) :: cells p l ++ cells p r
  end.

(** The cells of the context, [q] being the child pointer at the hole. *)
Fixpoint zcells (k : list frame) (q : ptr) : list cell :=
  match k with
  | [] => []
  | FL c p d r :: k' => (p, mk c (top k') q (rp r) d) :: cells p r ++ zcells k' p
  | FR c l p d :: k' => (p, mk c (top k') (rp l) q d) :: cells p l ++ zcells k' p
  end.

Definition total (t : tree) (k : list frame) := cells (top k) t ++ zcells k (rp t).

Record Hp (st : rbt_tree_t D) (C : list cell) : Prop := {
  hp_sent : sentinel st = SENT;
  hp_cells : Forall (λ x, heap st !! x.1 = Some x.2) C;
  hp_nodup : NoDup C.*1;
  hp_range : Forall (λ p, SENT < p < brk st) C.*1;
  hp_brk : SENT < brk st;
  hp_black : ∃ sn, heap st !! SENT = Some sn ∧ color_ sn = BLACK;
  hp_dom : ∀ p, is_Some (heap st !! p) → p = SENT ∨ p ∈ C.*1;
}.

Definition Rep (st : rbt_tree_t D) (t : tree) (k : list frame) : Prop :=
  Hp st (total t k) ∧ root st = zroot k (rp t).

(** What the link updates leave alone. *)
Record keep (st st' : rbt_tree_t D) : Prop := {
  keep_num : num st' = num st;
  keep_brk : brk st' = brk st;
  keep_sent : heap st' !! SENT = heap st !! SENT;
  keep_live : ∀ p, is_Some (heap st !! p) → is_Some (heap st' !! p);
}.

Lemma keep_refl st : keep st st.
Proof. done. Qed.

Lemma keep_trans st1 st2 st3 : keep st1 st2 → keep st2 st3 → keep st1 st3.
Proof. intros [] []. constructor; [congruence..|auto]. Qed.

Lemma rb_hp_perm st C C' : C ≡ₚ C' → Hp st C → Hp st C'.
Proof.
  intros HC []. constructor; try done.
  - by rewrite <-HC.
  - by rewrite <-HC.
  - by rewrite <-HC.
  - intros p ?. rewrite <-HC. auto.
Qed.

#[export] Instance Hp_proper st : Proper ((≡ₚ) ==> iff) (Hp st).
Proof. intros C C' HC. split; by apply rb_hp_perm. Qed.

(** Close [Hp st C] from a hypothesis on a permutation of [C]. *)
Ltac hp_solve H := eapply rb_hp_perm; [|exact H]; simpl; solve_Permutation.

(** *** Single cells *)

Lemma hp_lookup st p n C : Hp st ((p, n) :: C) → heap st !! p = Some n.
Proof. intros []. by decompose_Forall. Qed.

Lemma rb_hp_pos st C p : Hp st C → p ∈ C.*1 → SENT < p < brk st.
Proof. intros H Hp. pose proof (hp_range _ _ H) as Hg. rewrite Forall_forall in Hg. by apply Hg. Qed.

Lemma hp_update st p n n' C :
  Hp st ((p, n) :: C) → Hp (set_heap (<[p := n']> (heap st)) st) ((p, n') :: C).
Proof.
  intros H. assert (SENT < p) by (apply (rb_hp_pos _ _ p H); left).
  destruct H as [Hs Hc Hn Hr Hbr Hb Hd]. apply Forall_cons in Hc as [Hc1 Hc2].
  simpl in *. apply NoDup_cons in Hn as [Hn1 Hn2].
  constructor; simpl; try done.
  - constructor; [by simplify_map_eq|]. apply Forall_forall. intros x Hx.
    rewrite Forall_forall in Hc2. rewrite lookup_insert_ne; [by apply Hc2|].
    intros ->. apply Hn1. by apply list_elem_of_fmap_2.
  - by constructor.
  - destruct Hb as (sn & ? & ?). exists sn. rewrite lookup_insert_ne; [done|lia].
  - intros q. rewrite lookup_insert. case_decide; [subst; right; left|apply Hd].
Qed.

Lemma keep_update st (p : ptr) n' : SENT < p → keep st (set_heap (<[p := n']> (heap st)) st).
Proof.
  intros. constructor; simpl; try done.
  - rewrite lookup_insert_ne; [done|lia].
  - intros q ?. rewrite lookup_insert_is_Some'. by right.
Qed.

Lemma wp_rd p n C (Q : rbt_node_t D → _ → _ → Prop) st ms :
  Hp st ((p, n) :: C) → Q n st ms → wp (rd p) Q st ms.
Proof. intros H HQ. unfold rd. wp_steps. by rewrite (hp_lookup _ _ _ _ H). Qed.

Lemma wp_wr p f n C (Q : unit → _ → _ → Prop) st ms :
  Hp st ((p, n) :: C) →
  (∀ st', Hp st' ((p, f n) :: C) → keep st st' → root st' = root st → Q tt st' ms) →
  wp (wr p f) Q st ms.
Proof.
  intros H HQ. unfold wr. wp_steps. eapply wp_rd; [done|]. wp_steps.
  apply HQ; [by eapply hp_update| |done].
  apply keep_update. apply (rb_hp_pos _ _ p H). left.
Qed.

(** *** Subtrees under a changing parent *)

Lemma rp_cells par (t : tree) : rp t = SENT ∨ rp t ∈ (cells par t).*1.
Proof. destruct t; [by left|right]. simpl. left. Qed.

Lemma wp_set_parent b par par' C (Q : unit → _ → _ → Prop) st ms :
  Hp st (cells par b ++ C) → b ≠ E →
  (∀ st', Hp st' (cells par' b ++ C) → keep st st' → root st' = root st → Q tt st' ms) →
  wp (wr (rp b) (set_parent par')) Q st ms.
Proof.
  destruct b as [|c l p d r]; [done|]. intros H _ HQ. simpl in *.
  eapply wp_wr; [done|]. intros st' H' ? ?. apply HQ; [|done..]. done.
Qed.

Lemma wp_set_lchild p n b par C (Q : unit → _ → _ → Prop) st ms :
  Hp st ((p, n) :: cells par b ++ C) →
  (∀ st', Hp st' ((p, set_lchild (rp b) n) :: cells p b ++ C) →
     keep st st' → root st' = root st → Q tt st' ms) →
  wp (rbt_set_lchild p (rp b)) Q st ms.
Proof.
  intros H HQ. unfold rbt_set_lchild. wp_steps. eapply wp_wr; [done|].
  intros st1 H1 K1 R1. wp_steps. rewrite (hp_sent _ _ H1).
  assert (b = E ∨ b ≠ E) as [->|Hb] by (destruct b; auto); [by apply HQ|].
  rewrite (proj2 (Z.eqb_neq _ _)).
  2: { pose proof (rb_hp_pos _ _ (rp b) H1) as Hpos. destruct b; [done|]. simpl in *.
       intros <-. destruct Hpos; [right; left|lia]. }
  apply wp_set_parent with par ((p, set_lchild (rp b) n) :: C); [|done|].
  - by rewrite <-Permutation_middle.
  - intros st2 H2 K2 R2. apply HQ; [|by eapply keep_trans|congruence].
    by rewrite Permutation_middle.
Qed.

Lemma wp_set_rchild p n b par C (Q : unit → _ → _ → Prop) st ms :
  Hp st ((p, n) :: cells par b ++ C) →
  (∀ st', Hp st' ((p, set_rchild (rp b) n) :: cells p b ++ C) →
     keep st st' → root st' = root st → Q tt st' ms) →
  wp (rbt_set_rchild p (rp b)) Q st ms.
Proof.
  intros H HQ. unfold rbt_set_rchild. wp_steps. eapply wp_wr; [done|].
  intros st1 H1 K1 R1. wp_steps. rewrite (hp_sent _ _ H1).
  assert (b = E ∨ b ≠ E) as [->|Hb] by (destruct b; auto); [by apply HQ|].
  rewrite (proj2 (Z.eqb_neq _ _)).
  2: { pose proof (rb_hp_pos _ _ (rp b) H1) as Hpos. destruct b; [done|]. simpl in *.
       intros <-. destruct Hpos; [right; left|lia]. }
  apply wp_set_parent with par ((p, set_rchild (rp b) n) :: C); [|done|].
  - by rewrite <-Permutation_middle.
  - intros st2 H2 K2 R2. apply HQ; [|by eapply keep_trans|congruence].
    by rewrite Permutation_middle.
Qed.
(** The fragment every rotation starts with: hang the subtree [b] where the
    child [node] of the innermost ancestor was. *)
Definition relink (node par child : ptr) : SM (rbt_tree_t D) unit :=
  if SENT =? par then modify (set_root child);; wr child (set_parent SENT)
  else
    p ← rd par;
    if node =? lchild p then rbt_set_lchild par child else rbt_set_rchild par child.

Lemma wp_relink node b par k C (Q : unit → _ → _ → Prop) st ms :
  Hp st (zcells k node ++ cells par b ++ C) → b ≠ E →
  node ∈ (cells par b ++ C).*1 → root st = zroot k node →
  (∀ st', Hp st' (zcells k (rp b) ++ cells (top k) b ++ C) → keep st st' →
     root st' = zroot k (rp b) → Q tt st' ms) →
  wp (relink node (top k) (rp b)) Q st ms.
Proof.
  intros H Hb Hnode Hroot HQ. unfold relink. destruct k as [|f k].
  - simpl in *. wp_steps. apply wp_set_parent with par C; [|done|].
    + by destruct H; constructor.
    + intros st' H' [K1 K2 K3 K4] R. by apply HQ.
  - change (top (f :: k)) with (fp f) in *.
    assert (Hpos : SENT < fp f).
    { apply (rb_hp_pos _ _ _ H). rewrite fmap_app. apply elem_of_app. left.
      destruct f; simpl; left. }
    rewrite (proj2 (Z.eqb_neq _ _)) by lia.
    pose proof (hp_nodup _ _ H) as Hn. rewrite fmap_app in Hn.
    apply NoDup_app in Hn as (_ & Hd & _).
    destruct f as [c p d r|c l p d]; simpl in *.
    + wp_steps. eapply wp_rd; [done|]. simpl. rewrite Z.eqb_refl.
      apply wp_set_lchild with (mk c (top k) node (rp r) d) par
        ((cells p r ++ zcells k p) ++ C).
      { by rewrite (Permutation_app_swap_app (cells par b)). }
      intros st' H' K R. apply HQ; [|done|congruence].
      by rewrite (Permutation_app_swap_app _ (cells p b)).
    + wp_steps. eapply wp_rd; [done|]. simpl.
      rewrite (proj2 (Z.eqb_neq node (rp l))).
      2: { intros ->. destruct (rp_cells p l) as [Hl|Hl].
           - pose proof (rb_hp_pos _ _ (rp l) H) as Hx. rewrite Hl in *.
             destruct Hx; [|lia]. right. rewrite !fmap_app in *. set_solver.
           - apply (Hd (rp l)); [|done]. rewrite fmap_app. set_solver. }
      apply wp_set_rchild with (mk c (top k) (rp l) node d) par
        ((cells p l ++ zcells k p) ++ C).
      { by rewrite (Permutation_app_swap_app (cells par b)). }
      intros st' H' K R. apply HQ; [|done|congruence].
      by rewrite (Permutation_app_swap_app _ (cells p b)).
Qed.
(** *** Moving the focus *)

Lemma total_plug t f k : total (plug t f) k ≡ₚ total t (f :: k).
Proof.
  unfold total. destruct f; simpl.
  - rewrite <-Permutation_middle, <-app_assoc. done.
  - rewrite <-Permutation_middle. constructor.
    rewrite (Permutation_app_comm (cells p l)), <-app_assoc. done.
Qed.

Lemma rep_plug st t f k : Rep st (plug t f) k ↔ Rep st t (f :: k).
Proof. unfold Rep. rewrite total_plug. by destruct f. Qed.

Lemma rep_zip st t k : Rep st (zip t k) [] ↔ Rep st t k.
Proof.
  revert t; induction k as [|f k IH]; intros t; simpl; [done|].
  by rewrite IH, rep_plug.
Qed.

Lemma rep_sent st t k : Rep st t k → sentinel st = SENT.
Proof. intros [H _]. by destruct H. Qed.

Lemma wp_rd_focus (Q : rbt_node_t D → _ → _ → Prop) st ms c l p d r k :
  Rep st (N c l p d r) k →
  Q (mk c (top k) (rp l) (rp r) d) st ms → wp (rd p) Q st ms.
Proof. intros [H _] HQ. eapply wp_rd; [exact H|exact HQ]. Qed.

Definition frame_node (f : frame) (k : list frame) (q : ptr) : rbt_node_t D :=
  match f with
  | FL c p d r => mk c (top k) q (rp r) d
  | FR c l p d => mk c (top k) (rp l) q d
  end.

Lemma wp_rd_top (Q : rbt_node_t D → _ → _ → Prop) st ms t f k :
  Rep st t (f :: k) → Q (frame_node f k (rp t)) st ms → wp (rd (fp f)) Q st ms.
Proof. intros H HQ. apply rep_plug in H. destruct f; by eapply wp_rd_focus. Qed.

Lemma rep_focus_pos st t k : Rep st t k → t ≠ E → SENT < rp t.
Proof.
  intros [H _] Ht. destruct t; [done|]. apply (rb_hp_pos _ _ (rp _) H).
  unfold total. simpl. left.
Qed.

Lemma rep_top_pos st t f k : Rep st t (f :: k) → SENT < fp f.
Proof.
  intros H. apply rep_plug, rep_focus_pos in H; destruct f; simpl in *; done.
Qed.

(** The pointers of disjoint parts of the tree differ. *)
Lemma rep_top_ne st c l p d r f k :
  Rep st (N c l p d r) (f :: k) → fp f ≠ rp l ∧ fp f ≠ rp r ∧ fp f ≠ p.
Proof.
  intros H. pose proof (rep_top_pos _ _ _ _ H) as Hpos.
  destruct H as [H _]. pose proof (hp_nodup _ _ H) as Hn.
  unfold total in Hn. rewrite fmap_app in Hn. apply NoDup_app in Hn as (Hn1 & Hd & _).
  assert (Hf : fp f ∈ (zcells (f :: k) (rp (N c l p d r))).*1) by (destruct f; simpl; left).
  assert (Hne : ∀ q, q = SENT ∨ q ∈ (cells (top (f :: k)) (N c l p d r)).*1 → fp f ≠ q).
  { intros q [->|Hin] Heq; [lia|]. apply (Hd q Hin). by rewrite <-Heq. }
  simpl in Hne. split_and!; apply Hne.
  - destruct (rp_cells p l); [by left|right; right]. rewrite fmap_app. set_solver.
  - destruct (rp_cells p r); [by left|right; right]. rewrite fmap_app. set_solver.
  - right. left.
Qed.

(** Siblings differ unless both are the sentinel. *)
Lemma rep_sibling_ne st c l p d r k :
  Rep st (N c l p d r) k → l ≠ E ∨ r ≠ E → rp l ≠ rp r.
Proof.
  intros H Hlr Heq.
  assert (Hpos : ∀ t, t = l ∨ t = r → t ≠ E → SENT < rp t).
  { intros t Ht Hne. destruct Ht as [->| ->];
      [apply (rep_focus_pos st l (FL c p d r :: k))|apply (rep_focus_pos st r (FR c l p d :: k))];
      try done; by apply rep_plug. }
  destruct H as [H _]. pose proof (hp_nodup _ _ H) as Hn.
  unfold total in Hn. simpl in Hn. apply NoDup_cons in Hn as [_ Hn].
  rewrite !fmap_app in Hn. apply NoDup_app in Hn as [Hn _].
  apply NoDup_app in Hn as (_ & Hd & _).
  destruct (rp_cells p l) as [Hl|Hl], (rp_cells p r) as [Hr|Hr].
  - destruct Hlr as [Ht|Ht]; apply Hpos in Ht; first [lia|auto].
  - pose proof (rb_hp_pos _ _ (rp r) H) as Hx. destruct Hx; [|lia].
    unfold total. simpl. right. rewrite !fmap_app. set_solver.
  - pose proof (rb_hp_pos _ _ (rp l) H) as Hx. destruct Hx; [|lia].
    unfold total. simpl. right. rewrite !fmap_app. set_solver.
  - apply (Hd (rp l)); [done|]. by rewrite Heq.
Qed.

(** *** Assertions never fail on a well linked tree *)

Lemma wp_assert_null (Q : unit → rbt_tree_t D → _ → Prop) st ms :
  Q tt st ms → wp (rbt_assert NULL) Q st ms.
Proof. done. Qed.

Lemma wp_assert_focus (Q : unit → _ → _ → Prop) st ms t k :
  Rep st t k → Q tt st ms → wp (rbt_assert (rp t)) Q st ms.
Proof.
  intros H HQ. unfold rbt_assert. wp_steps. rewrite (rep_sent _ _ _ H).
  destruct t as [|c l p d r]; [by rewrite orb_comm|]. simpl rp.
  destruct ((p =? NULL) || (SENT =? p)); [done|].
  wp_steps. eapply wp_rd_focus; [done|]. simpl.
  destruct k as [|f k]; [done|]. simpl top.
  destruct (rep_top_ne _ _ _ _ _ _ _ _ H) as (H1 & H2 & H3). simpl in *.
  case_match; [done|].
  rewrite !(proj2 (Z.eqb_neq _ _)) by done. simpl. wp_steps.
  eapply wp_rd_top; [done|]. simpl.
  destruct f; simpl; rewrite Z.eqb_refl; simpl; rewrite ?andb_false_r; by simpl.
Qed.

Lemma wp_assert_top (Q : unit → _ → _ → Prop) st ms t k :
  Rep st t k → Q tt st ms → wp (rbt_assert (top k)) Q st ms.
Proof.
  intros H HQ. destruct k as [|f k].
  - unfold rbt_assert. wp_steps. rewrite (rep_sent _ _ _ H). done.
  - change (top (f :: k)) with (fp f). replace (fp f) with (rp (plug t f)) by (by destruct f).
    apply wp_assert_focus with k; [by apply rep_plug|done].
Qed.

(** *** Recolouring and rotating the focus *)

Lemma wp_set_color c' (Q : unit → _ → _ → Prop) st ms c l p d r k :
  Rep st (N c l p d r) k →
  (∀ st', Rep st' (N c' l p d r) k → keep st st' → Q tt st' ms) →
  wp (wr p (set_color c')) Q st ms.
Proof.
  intros [H R] HQ. unfold total in H. simpl in H. eapply wp_wr; [done|].
  intros st' H' K R'. apply HQ; [|done]. split; [done|]. simpl in *. congruence.
Qed.

Lemma wp_right_rotate (Q : unit → _ → _ → Prop) st ms c c1 a q e b p d r k :
  Rep st (N c (N c1 a q e b) p d r) k →
  (∀ st', Rep st' (N c1 a q e (N c b p d r)) k → keep st st' → Q tt st' ms) →
  wp (rbt_right_rotate p) Q st ms.
Proof.
  intros H HQ. unfold rbt_right_rotate. wp_steps. eapply wp_rd_focus; [done|].
  wp_steps. rewrite (rep_sent _ _ _ H). wp_steps. destruct H as [H R].
  unfold total in H. simpl in *.
  apply (wp_relink p (N c1 a q e b) p k
    ((p, mk c (top k) q (rp r) d) :: cells p r)); [hp_solve H|done| |done|].
  { simpl. rewrite fmap_app. simpl. set_solver. }
  intros st1 H1 K1 R1. simpl in *.
  wp_steps. apply (wp_rd q (mk c1 (top k) (rp a) (rp b) e)
    (zcells k q ++ cells q a ++ cells q b ++ (p, mk c (top k) q (rp r) d) :: cells p r));
    [hp_solve H1|].
  wp_steps. apply (wp_set_lchild p (mk c (top k) q (rp r) d) b q
    (cells p r ++ (q, mk c1 (top k) (rp a) (rp b) e) :: cells q a ++ zcells k q));
    [hp_solve H1|].
  intros st2 H2 K2 R2. wp_steps.
  apply (wp_set_rchild q (mk c1 (top k) (rp a) (rp b) e) (N c b p d r) (top k)
    (cells q a ++ zcells k q)); [hp_solve H2|].
  intros st3 H3 K3 R3.
  assert (H4 : Rep st3 (N c1 a q e (N c b p d r)) k).
  { split; [|simpl; congruence]. unfold total. hp_solve H3. }
  wp_steps. apply (wp_assert_focus _ _ _ (N c b p d r) (FR c1 a q e :: k)); [by apply rep_plug|].
  wp_steps. apply (wp_assert_focus _ _ _ (N c1 a q e (N c b p d r)) k); [done|].
  eapply wp_assert_top; [done|]. apply HQ; [done|].
  by eapply keep_trans; [|eapply keep_trans].
Qed.

Lemma wp_left_rotate (Q : unit → _ → _ → Prop) st ms c l p d c1 a q e b k :
  Rep st (N c l p d (N c1 a q e b)) k →
  (∀ st', Rep st' (N c1 (N c l p d a) q e b) k → keep st st' → Q tt st' ms) →
  wp (rbt_left_rotate p) Q st ms.
Proof.
  intros H HQ. unfold rbt_left_rotate. wp_steps. eapply wp_rd_focus; [done|].
  wp_steps. rewrite (rep_sent _ _ _ H). wp_steps. destruct H as [H R].
  unfold total in H. simpl in *.
  apply (wp_relink p (N c1 a q e b) p k
    ((p, mk c (top k) (rp l) q d) :: cells p l)); [hp_solve H|done| |done|].
  { simpl. rewrite fmap_app. simpl. set_solver. }
  intros st1 H1 K1 R1. simpl in *.
  wp_steps. apply (wp_rd q (mk c1 (top k) (rp a) (rp b) e)
    (zcells k q ++ cells q a ++ cells q b ++ (p, mk c (top k) (rp l) q d) :: cells p l));
    [hp_solve H1|].
  wp_steps. apply (wp_set_rchild p (mk c (top k) (rp l) q d) a q
    (cells p l ++ (q, mk c1 (top k) (rp a) (rp b) e) :: cells q b ++ zcells k q));
    [hp_solve H1|].
  intros st2 H2 K2 R2. wp_steps.
  apply (wp_set_lchild q (mk c1 (top k) (rp a) (rp b) e) (N c l p d a) (top k)
    (cells q b ++ zcells k q)); [hp_solve H2|].
  intros st3 H3 K3 R3.
  assert (H4 : Rep st3 (N c1 (N c l p d a) q e b) k).
  { split; [|simpl; congruence]. unfold total. hp_solve H3. }
  wp_steps. apply (wp_assert_focus _ _ _ (N c l p d a) (FL c1 q e b :: k)); [by apply rep_plug|].
  wp_steps. apply (wp_assert_focus _ _ _ (N c1 (N c l p d a) q e b) k); [done|].
  eapply wp_assert_top; [done|]. apply HQ; [done|].
  by eapply keep_trans; [|eapply keep_trans].
Qed.

Lemma rep_refocus (st : rbt_tree_t D) t k t' k' : zip t k = zip t' k' → Rep st t k → Rep st t' k'.
Proof. intros Hz H. apply rep_zip. rewrite <-Hz. by apply rep_zip. Qed.
End Rep.
Arguments tree : clear implicits.
Arguments frame : clear implicits.

(** ** Automation: moving the focus, tests and colour writes *)

(** Close [Hp st C] from a hypothesis on a permutation of [C]. *)
Ltac hp_solve H := eapply rb_hp_perm; [|exact H]; simpl; solve_Permutation.

(** Refocus the hypothesis [H] on the subtree [T] in the context [K]. *)
Ltac refocus H T K :=
  match type of H with Rep ?st ?t ?k => apply (rep_refocus st t k T K eq_refl) in H end.

(** Decide a test "is it the left child" at the head of the goal, [H] being
    focused on the parent. *)
Ltac side_test H :=
  match goal with
  | |- wp (if ?a =? ?b then _ else _) _ _ _ =>
      first
        [ constr_eq a b; rewrite (Z.eqb_refl a)
        | rewrite (proj2 (Z.eqb_neq a b)) by
            (apply not_eq_sym, (rep_sibling_ne _ _ _ _ _ _ _ H); right; discriminate) ]
  end.

(** One colour write at the subtree [T] in the context [K]. *)
Ltac recolour H T K :=
  refocus H T K; unfold rbt_set_black, rbt_set_red;
  eapply wp_set_color; [exact H|];
  let st := fresh "st" in let H' := fresh "H" in let Kp := fresh "Kp" in
  intros st H' Kp; clear H; rename H' into H; wp_steps.

Ltac keeps := repeat (eapply keep_trans; [eassumption|]); apply keep_refl.

