(* ===== verification/RbInsert.v ===== *)
(** Red-black balance on the focused view of the tree, and the correctness of
    [rbt_insert_fixup]. *)
From S2P Require Import Prelude RbTree RbSpec.
Open Scope Z_scope.

Section Balance.
Context {D : Type}.
Abbreviation tree := (tree D).
Abbreviation frame := (frame D).

Fixpoint elems (t : tree) : list D :=
  match t with E => [] | N _ l _ d r => elems l ++ d :: elems r end.
Fixpoint zleft (k : list frame) : list D :=
  match k with
  | [] => []
  | FL _ _ _ _ :: k' => zleft k'
  | FR _ l _ d :: k' => zleft k' ++ elems l ++ [d]
  end.
Fixpoint zright (k : list frame) : list D :=
  match k with
  | [] => []
  | FL _ _ d r :: k' => d :: elems r ++ zright k'
  | FR _ _ _ _ :: k' => zright k'
  end.

Lemma elems_zip t k : elems (zip t k) = zleft k ++ elems t ++ zright k.
Proof.
  revert t; induction k as [|f k IH]; intros t; simpl; [by rewrite app_nil_r|].
  rewrite IH. destruct f; simpl; by rewrite <-?app_assoc.
Qed.

(** [bal t n]: every path of [t] has [n] black nodes. *)
Fixpoint bal (t : tree) (n : nat) : Prop :=
  match t with
  | E => n = O
  | N RED l _ _ r => bal l n ∧ bal r n
  | N BLACK l _ _ r => match n with O => False | S m => bal l m ∧ bal r m end
  end.
(** No red node has a red child. *)
Fixpoint nrr (t : tree) : Prop :=
  match t with
  | E => True
  | N c l _ _ r => (c = RED → col l = BLACK ∧ col r = BLACK) ∧ nrr l ∧ nrr r
  end.

Definition sib (f : frame) : tree := match f with FL _ _ _ r => r | FR _ l _ _ => l end.

(** The same for a context whose hole takes a tree of black height [n] and of
    root colour [c]. *)
Fixpoint zbal (k : list frame) (n : nat) : Prop :=
  match k with
  | [] => True
  | f :: k' => bal (sib f) n ∧ zbal k' (if decide (fcol f = BLACK) then S n else n)
  end.
Fixpoint znrr (k : list frame) (c : color) : Prop :=
  match k with
  | [] => True
  | f :: k' => nrr (sib f) ∧ (fcol f = RED → c = BLACK ∧ col (sib f) = BLACK) ∧ znrr k' (fcol f)
  end.
Fixpoint zcol (k : list frame) (c : color) : color :=
  match k with [] => c | f :: k' => zcol k' (fcol f) end.

Definition rb (t : tree) : Prop := (∃ n, bal t n) ∧ nrr t ∧ col t = BLACK.

Lemma bal_zip t k n : bal t n → zbal k n → ∃ m, bal (zip t k) m.
Proof.
  revert t n; induction k as [|f k IH]; intros t n Ht Hk; simpl in *; [by eexists|].
  destruct Hk as [Hs Hk]. eapply IH; [|exact Hk].
  destruct f as [[]|[]]; simpl in *; done.
Qed.

Lemma nrr_zip t k : nrr t → znrr k (col t) → nrr (zip t k).
Proof.
  revert t; induction k as [|f k IH]; intros t Ht Hk; simpl in *; [done|].
  destruct Hk as (Hs & Hc & Hk). apply IH; destruct f; simpl in *; naive_solver.
Qed.

Lemma col_zip t k : col (zip t k) = zcol k (col t).
Proof. revert t; induction k as [|f k IH]; intros t; simpl; [done|]. rewrite IH. by destruct f. Qed.

Lemma bal_unzip t k m : bal (zip t k) m → ∃ n, bal t n ∧ zbal k n.
Proof.
  revert t; induction k as [|f k IH]; intros t Ht; simpl in *; [by eexists|].
  apply IH in Ht as (n & Ht & Hk).
  destruct f as [[]|[]]; simpl in *.
  all: try (destruct Ht; exists n; by rewrite ?decide_False).
  all: destruct n as [|n]; [done|]; destruct Ht; exists n; done.
Qed.

Lemma nrr_unzip t k : nrr (zip t k) → nrr t ∧ znrr k (col t).
Proof.
  revert t; induction k as [|f k IH]; intros t Ht; simpl in *; [done|].
  apply IH in Ht as (Ht & Hk). destruct f; simpl in *; naive_solver.
Qed.

Lemma rb_zip t k n :
  bal t n → zbal k n → nrr t → znrr k (col t) → zcol k (col t) = BLACK → rb (zip t k).
Proof.
  intros. split_and!; [by eapply bal_zip|by apply nrr_zip|by rewrite col_zip].
Qed.

Lemma rb_unzip t k :
  rb (zip t k) → ∃ n, bal t n ∧ zbal k n ∧ nrr t ∧ znrr k (col t) ∧ zcol k (col t) = BLACK.
Proof.
  intros ([m Hb] & Hn & Hc). apply bal_unzip in Hb as (n & ? & ?).
  apply nrr_unzip in Hn as []. rewrite col_zip in Hc. by exists n.
Qed.

(** *** Steps on the focused heap *)

Lemma wp_rd_sent (Q : rbt_node_t D → _ → _ → Prop) (st : rbt_tree_t D) ms C :
  Hp st C → (∀ n, color_ n = BLACK → heap st !! SENT = Some n → Q n st ms) →
  wp (rd SENT) Q st ms.
Proof.
  intros [] HQ. destruct hp_black as (n & Hn & Hb).
  unfold rd. wp_steps. rewrite Hn. wp_steps. by apply HQ.
Qed.

Lemma wp_is_red (Q : bool → _ → _ → Prop) (st : rbt_tree_t D) ms t k :
  Rep st t k → Q (is_red (col t)) st ms → wp (rbt_is_red (rp t)) Q st ms.
Proof.
  intros H HQ. unfold rbt_is_red. destruct t as [|c l p d r]; simpl in *.
  - wp_steps. destruct H as [H _]. eapply wp_rd_sent; [done|]. intros n Hb _.
    wp_steps. by rewrite Hb.
  - wp_steps. eapply wp_rd_focus; [done|]. by wp_steps.
Qed.

Lemma wp_is_black (Q : bool → _ → _ → Prop) (st : rbt_tree_t D) ms t k :
  Rep st t k → Q (negb (is_red (col t))) st ms → wp (rbt_is_black (rp t)) Q st ms.
Proof.
  intros H HQ. unfold rbt_is_black. destruct t as [|c l p d r]; simpl in *.
  - wp_steps. destruct H as [H _]. eapply wp_rd_sent; [done|]. intros n Hb _.
    wp_steps. by rewrite Hb.
  - wp_steps. eapply wp_rd_focus; [done|]. by wp_steps.
Qed.

Lemma zroot_cells (k : list frame) q : k ≠ [] → zroot k q ∈ (zcells k q).*1.
Proof.
  revert q; induction k as [|f k IH]; intros q Hk; [done|].
  destruct f; simpl in *; rewrite fmap_app;
    (destruct k; [left|right; apply elem_of_app; right; by apply IH]).
Qed.

Lemma rep_root_eq (st : rbt_tree_t D) t k :
  Rep st t k → t ≠ E → bool_decide (k = []) = (root st =? rp t).
Proof.
  intros [H ->] Ht. destruct k as [|f k]; [by rewrite Z.eqb_refl|].
  rewrite bool_decide_false by done. symmetry. apply Z.eqb_neq. intros Heq.
  pose proof (hp_nodup _ _ H) as Hn. unfold total in Hn.
  rewrite fmap_app in Hn. apply NoDup_app in Hn as (_ & Hd & _).
  assert (Hz : zroot (f :: k) (rp t) ∈ (zcells (f :: k) (rp t)).*1) by (by apply zroot_cells).
  rewrite Heq in Hz. apply (Hd (rp t)); [destruct t; [done|left]|done].
Qed.
(** *** [rbt_insert_fixup] *)

(** A tree without violation is left alone, whichever node of it (or the
    sentinel above the root) the loop is at. *)
Lemma wp_fixup_done (Q : ptr + Z → _ → _ → Prop) (st : rbt_tree_t D) ms t k :
  Rep st t k → rb (zip t k) → Q (inr RBT_OK) st ms →
  wp (insert_fixup_step (rp t)) Q st ms.
Proof.
  intros H Hrb HQ. apply rb_unzip in Hrb as (n & _ & _ & _ & Hn & Hc).
  unfold insert_fixup_step. wp_steps. eapply wp_is_red; [done|].
  destruct (col t) eqn:Hcol; simpl; [|by wp_steps].
  destruct t as [|c l p d r]; [done|]. simpl in Hcol. subst c.
  destruct k as [|f k]; [done|]. simpl in Hn.
  wp_steps. eapply wp_rd_focus; [done|]. wp_steps.
  simpl. replace (fp f) with (rp (plug (N RED l p d r) f)) by (by destruct f).
  eapply wp_is_black; [by apply rep_plug|].
  assert (Hf : col (plug (N RED l p d r) f) = BLACK).
  { destruct f as [[]|[]]; simpl in *; naive_solver. }
  rewrite Hf. by wp_steps.
Qed.

Lemma wp_fixup_done_loop (Q : Z → _ → _ → Prop) (st : rbt_tree_t D) ms t k m :
  Rep st t k → rb (zip t k) → Q RBT_OK st ms →
  wp (loop (S m) insert_fixup_step (rp t)) Q st ms.
Proof. intros. apply wp_loop_step. by eapply wp_fixup_done. Qed.

(** The violation the loop repairs: the red focus may have a red parent. *)
Record viol (t : tree) (k : list frame) : Prop := {
  vi_bal : ∃ n, bal t n ∧ zbal k n;
  vi_nrr : nrr t;
  vi_znrr : znrr k BLACK;
  vi_red : col t = RED;
  vi_root : zcol k RED = BLACK;
}.

Lemma viol_black t f k : viol t (f :: k) → fcol f = BLACK → rb (zip t (f :: k)).
Proof.
  intros [(n & ? & ?) ? ? Hr ?] Hf. eapply rb_zip; [done..| |]; rewrite Hr; [|done].
  simpl in *. rewrite Hf in *. naive_solver.
Qed.
Definition aligned (f1 f2 : frame) : bool :=
  match f1, f2 with FL _ _ _ _, FL _ _ _ _ | FR _ _ _ _, FR _ _ _ _ => true | _, _ => false end.


Lemma wp_is_red_N (Q : bool → _ → _ → Prop) (st : rbt_tree_t D) ms c l p d r k :
  Rep st (N c l p d r) k → Q (is_red c) st ms → wp (rbt_is_red p) Q st ms.
Proof. apply (wp_is_red _ _ _ (N c l p d r)). Qed.

Lemma wp_is_black_N (Q : bool → _ → _ → Prop) (st : rbt_tree_t D) ms c l p d r k :
  Rep st (N c l p d r) k → Q (negb (is_red c)) st ms → wp (rbt_is_black p) Q st ms.
Proof. apply (wp_is_black _ _ _ (N c l p d r)). Qed.

(** Run an iteration from the red focus [T] with red parent, in the context
    [f1 :: f2 :: k], up to the colour test of the uncle. *)
Ltac to_uncle H T f1 f2 k :=
  let P := eval cbn [plug] in (plug T f1) in
  let G := eval cbn [plug] in (plug P f2) in
  unfold insert_fixup_step; wp_steps;
  refocus H T (f1 :: f2 :: k); eapply wp_is_red_N; [exact H|]; cbn [is_red negb];
  wp_steps; eapply wp_rd_focus; [exact H|]; wp_steps; cbn [mk parent RbSpec.top fp];
  refocus H P (f2 :: k); eapply wp_is_black_N; [exact H|]; cbn [is_red negb]; wp_steps;
  eapply wp_rd_focus; [exact H|]; wp_steps; cbn [mk parent RbSpec.top fp];
  refocus H G k; eapply wp_rd_focus; [exact H|]; wp_steps;
  cbn [mk parent lchild rchild rp RbSpec.top];
  side_test H; wp_steps.

Definition paint (c : color) (t : tree) : tree :=
  match t with E => E | N _ l p d r => N c l p d r end.
Definition fpaint (c : color) (f : frame) : frame :=
  match f with FL _ p d r => FL c p d r | FR _ l p d => FR c l p d end.
Definition fsib (t : tree) (f : frame) : frame :=
  match f with FL c p d _ => FL c p d t | FR c _ p d => FR c t p d end.

(** The tree after case 1, the grandparent being painted [c]. *)
Definition case1_tree (c : color) (t : tree) (f1 f2 : frame) : tree :=
  plug (plug t (fpaint BLACK f1)) (fpaint c (fsib (paint BLACK (sib f2)) f2)).

Lemma case1_elems c t f1 f2 : elems (case1_tree c t f1 f2) = elems (plug (plug t f1) f2).
Proof. destruct f1, f2 as [? ? ? []|? [] ? ?]; reflexivity. Qed.

Lemma case1_viol t f1 f2 k :
  viol t (f1 :: f2 :: k) → fcol f1 = RED → col (sib f2) = RED → k ≠ [] →
  viol (case1_tree RED t f1 f2) k.
Proof.
  intros [(n & Hb & Hs1 & Hs2 & Hz) Hn (Hn1 & Hc1 & Hn2 & Hc2 & Hz') Hr Hroot] H1 H2 Hk.
  rewrite H1 in *. destruct (fcol f2) eqn:H2c; [naive_solver|].
  rewrite decide_False in * by done. rewrite decide_True in Hz by done.
  constructor.
  - exists (S n). split; [|done].
    destruct f1, f2 as [? ? ? [|[]]|? [|[]] ? ?]; simpl in *; naive_solver.
  - destruct f1, f2 as [? ? ? [|[]]|? [|[]] ? ?]; simpl in *; naive_solver.
  - done.
  - by destruct f1, f2.
  - simpl in Hroot. rewrite H2c in Hroot. by destruct k.
Qed.

Lemma case1_rb t f1 f2 :
  viol t [f1; f2] → fcol f1 = RED → col (sib f2) = RED →
  rb (case1_tree BLACK t f1 f2).
Proof.
  intros [(n & Hb & Hs1 & Hs2 & Hz) Hn (Hn1 & Hc1 & Hn2 & Hc2 & Hz') Hr Hroot] H1 H2.
  rewrite H1 in *. destruct (fcol f2) eqn:H2c; [naive_solver|].
  rewrite decide_False in * by done. split_and!.
  - exists (S (S n)).
    destruct f1, f2 as [? ? ? [|[]]|? [|[]] ? ?]; simpl in *; naive_solver.
  - destruct f1, f2 as [? ? ? [|[]]|? [|[]] ? ?]; simpl in *; naive_solver.
  - by destruct f1, f2.
Qed.

Ltac case1_run H T f1 f2 k HQ :=
  to_uncle H T f1 f2 k;
  let P := eval cbn [plug] in (plug T f1) in
  let B := eval cbn [plug fpaint] in (plug T (fpaint BLACK f1)) in
  let U := eval cbn [sib] in (sib f2) in
  let UB := eval cbn [sib paint] in (paint BLACK (sib f2)) in
  let fu := match f2 with FL ?c ?p ?d _ => constr:(FR c P p d) | FR ?c _ ?p ?d => constr:(FL c p d P) end in
  let fb := match f2 with FL ?c ?p ?d _ => constr:(FR c B p d) | FR ?c _ ?p ?d => constr:(FL c p d B) end in
  refocus H U (fu :: k); eapply wp_is_red_N; [exact H|]; cbn [is_red]; wp_steps;
  recolour H P (f2 :: k);
  recolour H U (fb :: k);
  let G := eval cbn [plug fsib] in (plug B (fsib UB f2)) in
  refocus H G k;
  let HR := fresh "HR" in
  assert (HR := rep_root_eq _ _ _ H ltac:(discriminate)); cbn [rp] in HR;
  rewrite Z.eqb_sym in HR; rewrite <-HR; clear HR;
  destruct (decide (k = [])) as [->|Hk];
  [ rewrite bool_decide_true by done; cbn [negb]; wp_steps; apply HQ; [keeps|exact H]
  | rewrite bool_decide_false by done; cbn [negb];
    recolour H G k; apply HQ; [keeps|exact H] ].

Lemma step_case1 (Q : ptr + Z → _ → _ → Prop) (st : rbt_tree_t D) ms l p d r f1 f2 k :
  Rep st (N RED l p d r) (f1 :: f2 :: k) → fcol f1 = RED → col (sib f2) = RED →
  fcol f2 = BLACK →
  (∀ st', keep st st' →
     Rep st' (case1_tree (if decide (k = []) then BLACK else RED) (N RED l p d r) f1 f2) k →
     Q (inl (fp f2)) st' ms) →
  wp (insert_fixup_step p) Q st ms.
Proof.
  intros H H1 Hu H2 HQ. set (T := N RED l p d r).
  destruct f1 as [c1 p1 d1 s1|c1 s1 p1 d1]; simpl in H1; subst c1;
  destruct f2 as [c2 p2 d2 u|c2 u p2 d2]; simpl in Hu, H2; subst c2;
  destruct u as [|[] ul up ud ur]; try done.
  - case1_run H T (FL RED p1 d1 s1) (FL BLACK p2 d2 (N RED ul up ud ur)) k HQ.
  - case1_run H T (FL RED p1 d1 s1) (FR BLACK (N RED ul up ud ur) p2 d2) k HQ.
  - case1_run H T (FR RED s1 p1 d1) (FL BLACK p2 d2 (N RED ul up ud ur)) k HQ.
  - case1_run H T (FR RED s1 p1 d1) (FR BLACK (N RED ul up ud ur) p2 d2) k HQ.
Qed.
(** Case 2: the focus and its parent lie on the same side and the uncle is
    black; one rotation around the grandparent repairs the tree. *)
Definition case2_tree (t : tree) (f1 f2 : frame) : tree :=
  match f1, f2 with
  | FL _ p1 d1 s, FL _ p2 d2 u => N BLACK t p1 d1 (N RED s p2 d2 u)
  | FR _ s p1 d1, FR _ u p2 d2 => N BLACK (N RED u p2 d2 s) p1 d1 t
  | _, _ => E
  end.

Lemma case2_elems t f1 f2 :
  aligned f1 f2 = true → elems (case2_tree t f1 f2) = elems (plug (plug t f1) f2).
Proof. destruct f1, f2; simpl; try done; intros _; by rewrite <-?app_assoc. Qed.

Lemma case2_rb t f1 f2 k :
  viol t (f1 :: f2 :: k) → fcol f1 = RED → col (sib f2) = BLACK → aligned f1 f2 = true →
  rb (zip (case2_tree t f1 f2) k).
Proof.
  intros [(n & Hb & Hs1 & Hs2 & Hz) Hn (Hn1 & Hc1 & Hn2 & Hc2 & Hz') Hr Hroot] H1 H2 Ha.
  rewrite H1 in *. destruct (fcol f2) eqn:H2c; [naive_solver|].
  rewrite decide_False in * by done. rewrite decide_True in Hz by done.
  simpl in Hroot. rewrite H2c in Hroot.
  apply rb_zip with (S n); [| done | | | ];
    destruct f1, f2; simpl in *; try done; naive_solver.
Qed.

(** Case 3: they lie on different sides; a rotation around the parent leads to
    case 2. *)
Definition case3_focus (l : tree) (p : ptr) (d : D) (r : tree) (f1 : frame) : tree * frame :=
  match f1 with
  | FL _ p1 d1 s => (N RED r p1 d1 s, FR RED l p d)
  | FR _ s p1 d1 => (N RED s p1 d1 l, FL RED p d r)
  end.

Lemma case3_elems l p d r f1 :
  elems (plug (case3_focus l p d r f1).1 (case3_focus l p d r f1).2) = elems (plug (N RED l p d r) f1).
Proof. destruct f1; simpl; by rewrite <-?app_assoc. Qed.

Lemma case3_viol l p d r f1 f2 k :
  viol (N RED l p d r) (f1 :: f2 :: k) → fcol f1 = RED →
  viol (case3_focus l p d r f1).1 ((case3_focus l p d r f1).2 :: f2 :: k).
Proof.
  intros [(n & Hb & Hs1 & Hs2 & Hz) Hn (Hn1 & Hc1 & Hn2 & Hc2 & Hz') Hr Hroot] H1.
  rewrite H1 in *. rewrite decide_False in * by done.
  constructor; [exists n|..]; destruct f1; simpl in *; naive_solver.
Qed.

Lemma step_case2 (Q : ptr + Z → _ → _ → Prop) (st : rbt_tree_t D) ms l p d r f1 f2 k :
  Rep st (N RED l p d r) (f1 :: f2 :: k) → fcol f1 = RED → col (sib f2) = BLACK →
  aligned f1 f2 = true →
  (∀ st', keep st st' → Rep st' (case2_tree (N RED l p d r) f1 f2) k →
     Q (inl (top k)) st' ms) →
  wp (insert_fixup_step p) Q st ms.
Proof.
  intros H H1 Hu Ha HQ. set (T := N RED l p d r).
  destruct f1 as [c1 p1 d1 s1|c1 s1 p1 d1]; simpl in H1; subst c1;
  destruct f2 as [c2 p2 d2 u|c2 u p2 d2]; simpl in Hu; try done.
  - to_uncle H T (FL RED p1 d1 s1) (FL c2 p2 d2 u) k.
    refocus H u (FR c2 (N RED T p1 d1 s1) p2 d2 :: k).
    eapply wp_is_red; [exact H|]. rewrite Hu. cbn [is_red].
    cbn [T rp]. rewrite Z.eqb_refl. wp_steps.
    recolour H (N c2 (N RED T p1 d1 s1) p2 d2 u) k.
    recolour H (N RED T p1 d1 s1) (FL RED p2 d2 u :: k).
    refocus H (N RED (N BLACK T p1 d1 s1) p2 d2 u) k.
    eapply wp_right_rotate; [exact H|]. intros st' H' Kp'. wp_steps.
    apply HQ; [keeps|exact H'].
  - to_uncle H T (FR RED s1 p1 d1) (FR c2 u p2 d2) k.
    refocus H u (FL c2 p2 d2 (N RED s1 p1 d1 T) :: k).
    eapply wp_is_red; [exact H|]. rewrite Hu. cbn [is_red].
    refocus H (N RED s1 p1 d1 T) (FR c2 u p2 d2 :: k). side_test H. wp_steps.
    recolour H (N RED s1 p1 d1 T) (FR c2 u p2 d2 :: k).
    recolour H (N c2 u p2 d2 (N BLACK s1 p1 d1 T)) k.
    eapply wp_left_rotate; [exact H|]. intros st' H' Kp'. wp_steps.
    apply HQ; [keeps|exact H'].
Qed.

Lemma step_case3 (Q : ptr + Z → _ → _ → Prop) (st : rbt_tree_t D) ms l p d r f1 f2 k :
  Rep st (N RED l p d r) (f1 :: f2 :: k) → fcol f1 = RED → col (sib f2) = BLACK →
  aligned f1 f2 = false →
  (∀ st', keep st st' →
     Rep st' (case3_focus l p d r f1).1 ((case3_focus l p d r f1).2 :: f2 :: k) →
     Q (inl (fp f1)) st' ms) →
  wp (insert_fixup_step p) Q st ms.
Proof.
  intros H H1 Hu Ha HQ. set (T := N RED l p d r).
  destruct f1 as [c1 p1 d1 s1|c1 s1 p1 d1]; simpl in H1; subst c1;
  destruct f2 as [c2 p2 d2 u|c2 u p2 d2]; simpl in Hu; try done.
  - to_uncle H T (FL RED p1 d1 s1) (FR c2 u p2 d2) k.
    refocus H u (FL c2 p2 d2 (N RED T p1 d1 s1) :: k).
    eapply wp_is_red; [exact H|]. rewrite Hu. cbn [is_red].
    cbn [T rp]. rewrite Z.eqb_refl. wp_steps.
    refocus H (N RED T p1 d1 s1) (FR c2 u p2 d2 :: k).
    eapply wp_right_rotate; [exact H|]. intros st' H' Kp'. wp_steps.
    apply HQ; [keeps|]. refocus H' (N RED r p1 d1 s1) (FR RED l p d :: FR c2 u p2 d2 :: k).
    exact H'.
  - to_uncle H T (FR RED s1 p1 d1) (FL c2 p2 d2 u) k.
    refocus H u (FR c2 (N RED s1 p1 d1 T) p2 d2 :: k).
    eapply wp_is_red; [exact H|]. rewrite Hu. cbn [is_red].
    refocus H (N RED s1 p1 d1 T) (FL c2 p2 d2 u :: k). side_test H. wp_steps.
    eapply wp_left_rotate; [exact H|]. intros st' H' Kp'. wp_steps.
    apply HQ; [keeps|]. refocus H' (N RED s1 p1 d1 l) (FL RED p d r :: FL c2 p2 d2 u :: k).
    exact H'.
Qed.

(** After the last rotation the loop looks at the node above the repaired
    subtree and stops. *)
Lemma fixup_top_loop (Q : Z → _ → _ → Prop) (st : rbt_tree_t D) ms t k m :
  Rep st t k → rb (zip t k) → Q RBT_OK st ms →
  wp (loop (S m) insert_fixup_step (top k)) Q st ms.
Proof.
  intros H Hrb HQ. destruct k as [|f k].
  - apply wp_loop_step. simpl. unfold insert_fixup_step. unfold rbt_is_red.
    wp_steps. destruct H as [H _]. eapply wp_rd_sent; [done|]. intros n Hn _.
    wp_steps. rewrite Hn. simpl. wp_steps. done.
  - replace (top (f :: k)) with (rp (plug t f)) by (by destruct f).
    eapply wp_fixup_done_loop; [by apply rep_plug|done|done].
Qed.

Theorem insert_fixup_loop (Q : Z → _ → _ → Prop) fuel (st : rbt_tree_t D) ms t k :
  Rep st t k → viol t k → k ≠ [] → (length k + 2 ≤ fuel)%nat →
  (∀ st' t', Rep st' t' [] → keep st st' → elems t' = elems (zip t k) → rb t' →
     Q RBT_OK st' ms) →
  wp (loop fuel insert_fixup_step (rp t)) Q st ms.
Proof.
  remember (length k) as n eqn:Hlen. revert fuel st t k Hlen.
  induction (lt_wf n) as [n _ IH]. intros fuel st t k Hlen H V Hk Hfuel HQ.
  destruct fuel as [|fuel]; [lia|].
  destruct t as [|[] l p d r]; [by destruct V| |by destruct V].
  destruct k as [|f1 k]; [done|].
  assert (Hfin : ∀ t' k' st', rb (zip t' k') → Rep st' t' k' → keep st st' →
    elems (zip t' k') = elems (zip (N RED l p d r) (f1 :: k)) → Q RBT_OK st' ms).
  { intros t' k' st' ? ? ? ?. apply HQ with (zip t' k'); try done. by apply rep_zip. }
  destruct (fcol f1) eqn:H1.
  2: { eapply wp_fixup_done_loop; [done|by apply viol_black|].
       eapply Hfin; [|done..]. by apply viol_black. }
  destruct k as [|f2 k].
  { destruct V as [_ _ _ _ Hroot]. simpl in Hroot. congruence. }
  assert (H2 : fcol f2 = BLACK).
  { destruct V as [_ _ (_ & _ & _ & Hc & _) _ _]. destruct (fcol f2); [|done]. destruct Hc; congruence. }
  simpl in Hlen. apply wp_loop_step. destruct (col (sib f2)) eqn:Hu.
  - eapply step_case1; try done. intros st' K H'.
    destruct (decide (k = [])) as [->|Hk0].
    + pose proof (case1_rb _ _ _ V H1 Hu) as Hrb.
      replace (fp f2) with (rp (case1_tree BLACK (N RED l p d r) f1 f2)) by (by destruct f2).
      destruct fuel; [lia|]. eapply wp_fixup_done_loop; [done|done|].
      apply (Hfin (case1_tree BLACK (N RED l p d r) f1 f2) []); try done.
      simpl. apply case1_elems.
    + replace (fp f2) with (rp (case1_tree RED (N RED l p d r) f1 f2)) by (by destruct f2).
      eapply (IH (length k)); [lia|done|done|by apply case1_viol|done|lia|].
      intros st2 t2 H2' K2 He Hrb. eapply HQ; [done|by eapply keep_trans| |done].
      rewrite He. change (zip (N RED l p d r) (f1 :: f2 :: k))
        with (zip (plug (plug (N RED l p d r) f1) f2) k).
      by rewrite !elems_zip, case1_elems.
  - destruct (aligned f1 f2) eqn:Ha.
    + eapply step_case2; try done. intros st' K H'.
      pose proof (case2_rb _ _ _ _ V H1 Hu Ha) as Hrb. destruct fuel; [lia|].
      eapply fixup_top_loop; [done|done|]. eapply Hfin; [done|done|done|].
      change (zip (N RED l p d r) (f1 :: f2 :: k))
        with (zip (plug (plug (N RED l p d r) f1) f2) k).
      by rewrite !elems_zip, case2_elems.
    + apply (step_case3 _ _ _ l p d r f1 f2 k); try done. intros st' K H'. simpl in Hfuel.
      pose proof (case3_viol _ _ _ _ _ _ _ V H1) as V'.
      pose proof (case3_elems l p d r f1) as He.
      destruct fuel as [|[|fuel]]; [lia..|]. apply wp_loop_step.
      destruct (case3_focus l p d r f1) as [t3 f3] eqn:H3. simpl in *.
      assert (Hf3 : fcol f3 = RED ∧ aligned f3 f2 = true ∧ col t3 = RED ∧ rp t3 = fp f1)
        by (destruct f1, f2; naive_solver).
      destruct Hf3 as (Hf31 & Hf32 & Hf33 & <-). destruct t3 as [|[] l3 p3 d3 r3]; try done.
      eapply (step_case2 _ _ _ l3 p3 d3 r3 f3 f2 k); try done. intros st2 K2 H2'.
      pose proof (case2_rb _ _ _ _ V' Hf31 Hu Hf32) as Hrb.
      eapply fixup_top_loop; [done|done|]. eapply Hfin; [done|done|by eapply keep_trans|].
      change (zip (N RED l p d r) (f1 :: f2 :: k))
        with (zip (plug (plug (N RED l p d r) f1) f2) k).
      rewrite !elems_zip, case2_elems by done. by destruct f2; simpl; rewrite He.
Qed.
End Balance.
