(* ===== verification/RbOps.v ===== *)
(** Searching, storing and inserting in the red-black tree: [rbt_query],
    [rbt_store] and [rbt_insert] refine the operations on the ordered list of the
    elements. *)
From S2P Require Import Prelude Table RbTree RbSpec RbInsert.
Open Scope Z_scope.

Section Ops.
Context {D : Type}.
Abbreviation tree := (tree D).
Abbreviation frame := (frame D).

Fixpoint height (t : tree) : nat :=
  match t with E => O | N _ l _ _ r => S (Nat.max (height l) (height r)) end.

Lemma tree_hp_size (st : rbt_tree_t D) C : Hp st C → size (heap st) = S (length C).
Proof.
  intros H. rewrite <-size_dom.
  assert (dom (heap st) = {[ SENT ]} ∪ list_to_set C.*1 :> gset ptr) as ->.
  { apply set_eq. intros p. rewrite elem_of_dom, elem_of_union, elem_of_singleton, elem_of_list_to_set.
    split; [apply (hp_dom _ _ H)|]. intros [->|Hp].
    - destruct (hp_black _ _ H) as (sn & -> & _). done.
    - apply list_elem_of_fmap in Hp as ([q n] & -> & Hin).
      pose proof (hp_cells _ _ H) as Hc. rewrite Forall_forall in Hc.
      rewrite (Hc _ Hin). done. }
  rewrite size_union.
  - rewrite size_singleton, size_list_to_set by apply (hp_nodup _ _ H). by rewrite length_fmap.
  - intros p. rewrite elem_of_singleton, elem_of_list_to_set. intros -> Hp.
    apply (rb_hp_pos _ _ _ H) in Hp. lia.
Qed.

Lemma length_cells par (t : tree) : length (cells par t) = length (elems t).
Proof.
  revert par; induction t as [|c l IHl p d r IHr]; intros par; simpl; [done|].
  rewrite !length_app, IHl, IHr. simpl. lia.
Qed.

Lemma height_cells (t : tree) : (height t ≤ length (elems t))%nat.
Proof. induction t; simpl; [done|]. rewrite length_app. simpl. lia. Qed.

Lemma length_zcells (k : list frame) q : (length k ≤ length (zcells k q))%nat.
Proof. revert q; induction k as [|[] k IH]; intros q; simpl; [done|..]; rewrite length_app; specialize (IH p); lia. Qed.

(** The fuel of the loops covers the height of the tree and the depth of the
    context, with three iterations per level. *)
Lemma fuel_enough (st : rbt_tree_t D) t k :
  Rep st t k → (3 * (height t + length k) + 4 ≤ tree_fuel st)%nat.
Proof.
  intros [H _]. unfold tree_fuel. rewrite (tree_hp_size _ _ H). unfold total.
  rewrite length_app, length_cells. pose proof (height_cells t). pose proof (length_zcells k (rp t)). lia.
Qed.

(** *** Searching *)

Section Walk.
Context (cmp : D → D → Z) (key : D).

(** The context [k] lies on the search path of [key]. *)
Definition onpath (k : list frame) : Prop :=
  Forall (λ x, 0 < cmp key x) (zleft k) ∧ Forall (λ x, cmp key x < 0) (zright k).

Lemma onpath_left c p d r k l :
  sep cmp key (elems (zip (N c l p d r) k)) → cmp key d < 0 → onpath k → onpath (FL c p d r :: k).
Proof.
  rewrite elems_zip. simpl. intros Hs Hd [? ?]. split; [done|]. simpl.
  rewrite <-app_assoc in Hs. simpl in Hs. rewrite app_assoc in Hs.
  apply sep_gt in Hs; [|lia]. by constructor.
Qed.

Lemma onpath_right c p d r k l :
  sep cmp key (elems (zip (N c l p d r) k)) → 0 < cmp key d → onpath k → onpath (FR c l p d :: k).
Proof.
  rewrite elems_zip. simpl. intros Hs Hd [? ?]. split; [|done]. simpl.
  rewrite <-app_assoc in Hs. simpl in Hs. rewrite app_assoc in Hs.
  apply sep_lt in Hs; [|lia]. rewrite app_assoc. apply Forall_app. split; [done|]. by constructor.
Qed.

Lemma onpath_hit c p d r k l :
  sep cmp key (elems (zip (N c l p d r) k)) → cmp key d = 0 →
  cut cmp key (elems (zip (N c l p d r) k)) (zleft k ++ elems l) (Some d) (elems r ++ zright k).
Proof.
  rewrite elems_zip. simpl. rewrite <-app_assoc. simpl. rewrite app_assoc. intros Hs Hd.
  constructor; [done| | |].
  - eapply sep_lt; [exact Hs|lia].
  - naive_solver.
  - eapply sep_gt; [exact Hs|lia].
Qed.

Lemma onpath_miss k :
  onpath k → cut cmp key (elems (zip E k)) (zleft k) None (zright k).
Proof. rewrite elems_zip. intros []. by constructor. Qed.

(** A loop whose body goes left or right by the comparison until it leaves. *)
Lemma wp_walk {B} (P : tree → Prop) (body : ptr → SM (rbt_tree_t D) (ptr + B))
    (Q : B → _ → _ → Prop) st ms T :
  sep cmp key (elems T) →
  (∀ t k, zip t k = T → Rep st t k → onpath k → P t →
     wp (body (rp t)) (λ r st' ms',
       match r with
       | inl q => st' = st ∧ ms' = ms ∧ ∃ c l p d r, t = N c l p d r ∧
           (cmp key d < 0 ∧ q = rp l ∧ P l ∨ 0 < cmp key d ∧ q = rp r ∧ P r)
       | inr b => Q b st' ms'
       end) st ms) →
  Rep st T [] → P T → ∀ fuel, (height T < fuel)%nat → wp (loop fuel body (rp T)) Q st ms.
Proof.
  intros Hs Hstep H HP.
  assert (∀ fuel t k, zip t k = T → Rep st t k → onpath k → P t → (height t < fuel)%nat →
    wp (loop fuel body (rp t)) Q st ms) as Hgen.
  { induction fuel as [|fuel IH]; intros t k Hz HR Hon HPt Hf; [lia|].
    apply wp_loop_step. eapply wp_mono; [by apply (Hstep t k)|].
    intros [q|b] st' ms'; [|done].
    intros (-> & -> & c & l & p & d & r & -> & [(Hd & -> & ?)|(Hd & -> & ?)]).
    - apply IH with (FL c p d r :: k); [done|by apply rep_plug| |done|simpl in *; lia].
      eapply onpath_left; [by rewrite Hz|done|done].
    - apply IH with (FR c l p d :: k); [done|by apply rep_plug| |done|simpl in *; lia].
      eapply onpath_right; [by rewrite Hz|done|done]. }
  intros fuel Hf. apply Hgen with []; [done|done| |done|done]. split; constructor.
Qed.
End Walk.

(** Enter the walk loop of a search from the root [T]. *)
Lemma rep_root (st : rbt_tree_t D) T : Rep st T [] → root st = rp T.
Proof. by intros [_ ->]. Qed.

Lemma rep_neq_sent (st : rbt_tree_t D) c l p d r k :
  Rep st (N c l p d r) k → (SENT =? p) = false.
Proof. intros H. apply rep_focus_pos in H; [|done]. simpl in H. lia. Qed.

Lemma wp_query cmp key (st : rbt_tree_t D) T ms :
  Rep st T [] → sep cmp key (elems T) →
  wp (rbt_query cmp key) (λ r st' ms', st' = st ∧ ms' = ms ∧
    ∃ l1 l2, cut cmp key (elems T) l1 r l2) st ms.
Proof.
  intros H Hs. unfold rbt_query. wp_steps. rewrite (rep_root _ _ H).
  apply wp_walk with cmp key (λ _, True); [done| |done|done|pose proof (fuel_enough _ _ _ H); lia].
  intros t k Hz HR Hon _. wp_steps. rewrite (rep_sent _ _ _ HR).
  destruct t as [|c l p d r]; simpl rp.
  - simpl. wp_steps. split_and!; [done|done|]. eexists _, _. rewrite <-Hz. by apply onpath_miss.
  - rewrite (rep_neq_sent _ _ _ _ _ _ _ HR). wp_steps. eapply wp_rd_focus; [done|]. simpl. wp_steps.
    case_match eqn:Hc; wp_steps.
    + split_and!; [done|done|]. eexists _, _. rewrite <-Hz. apply onpath_hit; [by rewrite Hz|lia].
    + case_match; wp_steps; split_and!; try done; eexists _, _, _, _, _; split; try done; [left|right]; split_and!; try done; lia.
Qed.

Lemma wp_set_data d' (Q : unit → _ → _ → Prop) (st : rbt_tree_t D) ms c l p d r k :
  Rep st (N c l p d r) k →
  (∀ st', Rep st' (N c l p d' r) k → keep st st' → Q tt st' ms) →
  wp (wr p (set_data d')) Q st ms.
Proof.
  intros [H R] HQ. unfold total in H. simpl in H. eapply wp_wr; [done|].
  intros st' H' K R'. apply HQ; [|done]. split; [done|]. simpl in *. congruence.
Qed.

(** The red-black tree [st] is well formed and holds [l], in order. *)
Definition rb_wf (st : rbt_tree_t D) (l : list D) : Prop :=
  ∃ T, Rep st T [] ∧ elems T = l ∧ rb T ∧ num st = u64 (Z.of_nat (length l)).

Lemma rb_data c l p d d' r (k : list frame) :
  rb (zip (N c l p d r) k) → rb (zip (N c l p d' r) k).
Proof.
  intros (n & ? & ? & ? & ? & ?)%rb_unzip. apply rb_zip with n; done.
Qed.

Lemma wp_store cmp key f (st : rbt_tree_t D) l ms :
  rb_wf st l → sep cmp key l →
  wp (rbt_store cmp key f) (λ _ st' ms', ms' = ms ∧ ∃ l1 o l2, cut cmp key l l1 o l2 ∧
    rb_wf st' (l1 ++ option_list (f <$> o) ++ l2)) st ms.
Proof.
  intros (T & H & <- & Hrb & Hnum) Hs. unfold rbt_store. wp_steps. rewrite (rep_root _ _ H).
  apply wp_walk with cmp key (λ _, True); [done| |done|done|pose proof (fuel_enough _ _ _ H); lia].
  intros t k Hz HR Hon _. wp_steps. rewrite (rep_sent _ _ _ HR).
  destruct t as [|c l p d r]; simpl rp.
  - simpl. wp_steps. split; [done|]. eexists _, None, _. split; [rewrite <-Hz; by apply onpath_miss|].
    exists T. split_and!; [done| |done|]; rewrite <-Hz, elems_zip in *; done.
  - rewrite (rep_neq_sent _ _ _ _ _ _ _ HR). wp_steps. eapply wp_rd_focus; [done|]. simpl. wp_steps.
    case_match eqn:Hc; wp_steps.
    + eapply wp_set_data; [done|]. intros st' HR' K. wp_steps. split; [done|].
      eexists _, (Some d), _. split; [rewrite <-Hz; apply onpath_hit; [by rewrite Hz|lia]|].
      exists (zip (N c l p (f d) r) k). split_and!; [by apply rep_zip| | |].
      * rewrite elems_zip. simpl. by rewrite <-!app_assoc.
      * eapply rb_data. by rewrite Hz.
      * rewrite (keep_num _ _ K), Hnum, <-Hz, elems_zip. simpl. f_equal.
        rewrite !length_app. simpl. rewrite !length_app. simpl. lia.
    + case_match; wp_steps; split_and!; try done; eexists _, _, _, _, _; split; try done; [left|right]; split_and!; try done; lia.
Qed.

(** *** Inserting *)

(** The state after one allocation: [k] more addresses are used, the rest is
    kept. *)
Record grown (st st' : rbt_tree_t D) : Prop := {
  grown_num : num st' = num st;
  grown_sent : heap st' !! SENT = heap st !! SENT;
  grown_root : root st' = root st;
}.

Definition blank c par (lr : ptr) (o : option D) : rbt_node_t D :=
  {| color_ := c; parent := par; lchild := lr; rchild := lr; data := o |}.

Lemma hp_brk_fresh (st : rbt_tree_t D) C : Hp st C → heap st !! brk st = None.
Proof.
  intros H. destruct (heap st !! brk st) eqn:Hb; [|done].
  destruct (hp_dom _ _ H (brk st)) as [He|Hin]; [by eexists| |].
  - pose proof (hp_brk _ _ H). lia.
  - pose proof (rb_hp_pos _ _ _ H Hin). lia.
Qed.

Lemma wp_alloc_node C (Q : option ptr → _ → _ → Prop) (st : rbt_tree_t D) ms :
  Hp st C →
  (if decide (head ms = Some false) then Q None st (tail ms)
   else ∀ st', Hp st' ((brk st, blank BLACK NULL NULL None) :: C) → grown st st' →
        Q (Some (brk st)) st' (tail ms)) →
  wp alloc_node Q st ms.
Proof.
  intros H HQ. unfold alloc_node. wp_steps. apply wp_malloc.
  case_decide; wp_steps; [done|].
  pose proof (hp_brk_fresh _ _ H) as Hfr. pose proof (hp_brk _ _ H) as Hpos.
  assert (Hnin : brk st ∉ C.*1) by (intros Hin; apply (rb_hp_pos _ _ _ H) in Hin; lia).
  apply HQ; [|constructor; simpl; rewrite ?lookup_insert_ne; [done|done|lia|done]].
  destruct H as [Hs Hc Hn Hr Hbr Hb Hd]. constructor; simpl.
  - done.
  - constructor; [by simplify_map_eq|]. apply Forall_forall. intros x Hx.
    rewrite Forall_forall in Hc. rewrite lookup_insert_ne; [by apply Hc|].
    intros Heq. apply Hnin. rewrite Heq. by apply list_elem_of_fmap_2.
  - by constructor.
  - constructor; [lia|]. eapply Forall_impl; [exact Hr|]. simpl. lia.
  - lia.
  - destruct Hb as (sn & ? & ?). exists sn. rewrite lookup_insert_ne; [done|lia].
  - intros q. rewrite lookup_insert. case_decide; [subst; right; left|].
    intros Hq. destruct (Hd q Hq); [by left|]. right. by right.
Qed.

Lemma grown_keep (st st1 st2 : rbt_tree_t D) :
  grown st st1 → keep st1 st2 → root st2 = root st1 → grown st st2.
Proof. intros [] [] ?. constructor; congruence. Qed.

Definition link (type : side) (q : ptr) (n : rbt_node_t D) : rbt_node_t D :=
  match type with LCHILD => set_lchild q n | RCHILD => set_rchild q n end.

(** One write to the cell at the head of the list. *)
Ltac wr_head H G :=
  eapply wp_wr; [exact H|];
  let st := fresh "st" in let H' := fresh "H" in let Kp := fresh "Kp" in let R := fresh "R" in
  intros st H' Kp R; apply (grown_keep _ _ _ G) in Kp as G'; [|done];
  clear G H Kp R; rename H' into H; rename G' into G; wp_steps.

Lemma wp_creat_node c type p n C (Q : option ptr → _ → _ → Prop) (st : rbt_tree_t D) ms :
  Hp st ((p, n) :: C) →
  (if decide (head ms = Some false) then Q None st (tail ms)
   else ∀ st' q, Hp st' ((p, link type q n) :: (q, blank c p SENT None) :: C) → grown st st' →
        SENT < q → Q (Some q) st' (tail ms)) →
  wp (rbt_creat_node c type (Some p)) Q st ms.
Proof.
  intros H HQ. unfold rbt_creat_node. wp_steps.
  apply wp_alloc_node with ((p, n) :: C); [done|]. case_decide; wp_steps; [done|].
  set (q := brk st) in *. pose proof (hp_brk _ _ H) as Hq. fold q in Hq. clear H.
  intros st1 H G. wp_steps. rewrite (hp_sent _ _ H).
  wr_head H G. wr_head H G. wr_head H G.
  unfold rbt_set_child, rbt_set_lchild, rbt_set_rchild, set_color, set_lchild, set_rchild, blank in *.
  simpl in *. apply (rb_hp_perm _ _ _ (perm_swap _ _ _)) in H.
  destruct type; wp_steps; wr_head H G; rewrite (hp_sent _ _ H), (proj2 (Z.eqb_neq SENT q)) by lia;
    apply (rb_hp_perm _ _ _ (perm_swap _ _ _)) in H; wr_head H G;
    apply (rb_hp_perm _ _ _ (perm_swap _ _ _)) in H; by apply HQ.
Qed.

Lemma wp_creat_root c C (Q : option ptr → _ → _ → Prop) (st : rbt_tree_t D) ms :
  Hp st C →
  (if decide (head ms = Some false) then Q None st (tail ms)
   else ∀ st' q, Hp st' ((q, blank c SENT SENT None) :: C) → grown st st' →
        Q (Some q) st' (tail ms)) →
  wp (rbt_creat_node c LCHILD None) Q st ms.
Proof.
  intros H HQ. unfold rbt_creat_node. wp_steps.
  apply wp_alloc_node with C; [done|]. case_decide; wp_steps; [done|]. clear H.
  intros st1 H G. wp_steps. rewrite (hp_sent _ _ H).
  wr_head H G. wr_head H G. wr_head H G.
  unfold set_color, set_lchild, set_rchild, blank in *. simpl in *.
  wr_head H G. by apply HQ.
Qed.

(** The new leaf under the last node of the search path. *)
Lemma rb_insert_viol c p d x q l r (k : list frame) :
  rb (zip (N c l p d r) k) →
  (l = E → viol (N RED E q x E) (FL c p d r :: k)) ∧
  (r = E → viol (N RED E q x E) (FR c l p d :: k)).
Proof.
  intros (n & Hb & Hz & (Hc & Hl & Hr) & Hzn & Hzc)%rb_unzip. simpl in Hzn, Hzc.
  split; intros ->; constructor; simpl; try done.
  - exists O. split; [done|]. destruct c; simpl in *.
    + destruct Hb as [He Hb]. simpl in He. by subst.
    + destruct n; [done|]. destruct Hb as [He Hb]. simpl in He. by subst.
  - exists O. split; [done|]. destruct c; simpl in *.
    + destruct Hb as [Hb He]. simpl in He. by subst.
    + destruct n; [done|]. destruct Hb as [Hb He]. simpl in He. by subst.
  - split_and!; [done| |done]. intros Hred. by destruct (Hc Hred).
Qed.

Lemma u64_succ n : u64 (u64 (Z.of_nat n) + 1) = u64 (Z.of_nat (S n)).
Proof. unfold u64. rewrite Zplus_mod_idemp_l. f_equal. lia. Qed.

(** The end of [rbt_insert], once the node is linked. *)
Lemma wp_insert_leaf C (l : list D) x q f (k : list frame) (Q : ptr + Z → _ → _ → Prop) (st st0 : rbt_tree_t D) ms :
  Hp st ((q, blank RED (fp f) SENT None) :: C) →
  C ≡ₚ zcells (f :: k) q → grown st0 st → root st0 = zroot (f :: k) q →
  viol (N RED E q x E) (f :: k) → num st0 = u64 (Z.of_nat (length l)) →
  length l = length (zleft (f :: k) ++ zright (f :: k)) →
  (∀ st', rb_wf st' (zleft (f :: k) ++ x :: zright (f :: k)) → Q (inr RBT_OK) st' ms) →
  wp (modify (λ t, set_num (u64 (num t + 1)) t);; wr q (set_data x);;
      code ← rbt_insert_fixup q; mret (inr code)) Q st ms.
Proof.
  intros H HC G HR V Hnum Hlen HQ. wp_steps.
  set (st1 := set_num (u64 (num st + 1)) st).
  assert (H1 : Hp st1 ((q, blank RED (fp f) SENT None) :: C)) by (by destruct H; constructor).
  eapply wp_wr; [exact H1|]. intros st2 H2 K2 R2. unfold rbt_insert_fixup. wp_steps.
  assert (HRep : Rep st2 (N RED E q x E) (f :: k)).
  { split; [unfold total; rewrite HC in H2; exact H2|].
    rewrite R2. simpl. rewrite (grown_root _ _ G). exact HR. }
  eapply (insert_fixup_loop _ _ st2 ms (N RED E q x E) (f :: k)); [done|done|done| |].
  { pose proof (fuel_enough _ _ _ HRep). lia. }
  intros st3 t3 H3 K3 He3 Hrb3. wp_steps. apply HQ. exists t3. split_and!; [done| |done|].
  - by rewrite He3, elems_zip.
  - rewrite (keep_num _ _ K3), (keep_num _ _ K2). simpl. rewrite (grown_num _ _ G), Hnum, u64_succ, Hlen.
    do 2 f_equal. rewrite !length_app. simpl. lia.
Qed.

Lemma wp_insert_root x q (Q : Z → _ → _ → Prop) (st : rbt_tree_t D) ms :
  Hp st [(q, blank BLACK SENT SENT None)] → num st = u64 0 →
  (∀ st', rb_wf st' [x] → Q RBT_OK st' ms) →
  wp (modify (set_root q);; modify (λ t, set_num (u64 (num t + 1)) t);;
      wr q (set_data x);; mret RBT_OK) Q st ms.
Proof.
  intros H Hnum HQ. wp_steps. set (st1 := set_num _ _).
  assert (H1 : Hp st1 [(q, blank BLACK SENT SENT None)]) by (by destruct H; constructor).
  eapply wp_wr; [exact H1|]. intros st2 H2 K2 R2. wp_steps. apply HQ.
  exists (N BLACK E q x E). split_and!; [|done| |].
  - split; [exact H2|]. by rewrite R2.
  - split_and!; [by exists 1%nat|done|done].
  - rewrite (keep_num _ _ K2). simpl. by rewrite Hnum.
Qed.

Definition hole (type : side) c l p d r : frame :=
  match type with LCHILD => FL c p d r | RCHILD => FR c l p d end.
Definition child_of (type : side) (l r : tree) : tree :=
  match type with LCHILD => l | RCHILD => r end.

(** The insertion under a node whose child on that side is missing. *)
Lemma wp_insert_side cmp x type c l p d r k (st : rbt_tree_t D) T ms :
  zip (N c l p d r) k = T → Rep st (N c l p d r) k → rb T → num st = u64 (Z.of_nat (length (elems T))) →
  child_of type l r = E → onpath cmp x (hole type c l p d r :: k) →
  wp (o ← rbt_creat_node RED type (Some p);
      match o with
      | None => mret (inr RBT_ERR)
      | Some add =>
          modify (λ t, set_num (u64 (num t + 1)) t);; wr add (set_data x);;
          code ← rbt_insert_fixup add; mret (inr code)
      end)
    (λ o st' ms', ∃ r, o = inr (A := ptr) r ∧ ∃ l1 l2, cut cmp x (elems T) l1 None l2 ∧ ms' = tail ms ∧
       if decide (head ms = Some false) then r = RBT_ERR ∧ rb_wf st' (elems T)
       else r = RBT_OK ∧ rb_wf st' (l1 ++ x :: l2)) st ms.
Proof.
  intros Hz HR Hrb Hnum Hch Hon. apply wp_bind.
  assert (HzE : zip E (hole type c l p d r :: k) = T)
    by (rewrite <-Hz; by destruct type; simpl in *; subst).
  pose proof (onpath_miss _ _ _ Hon) as Hcut. rewrite HzE in Hcut.
  pose proof HR as [HH HRt]. unfold total in HH. simpl in HH, HRt.
  eapply wp_creat_node; [exact HH|]. case_decide as Hms.
  - wp_steps. eexists. split; [done|]. eexists _, _. split; [exact Hcut|]. split; [done|].
    split; [done|]. exists T. split_and!; [|done..]. rewrite <-Hz. by apply rep_zip.
  - intros st1 q H1 G Hq.
    pose proof (rb_insert_viol c p d x q l r k ltac:(by rewrite Hz)) as [Vl Vr].
    assert (Hfp : fp (hole type c l p d r) = p) by (by destruct type).
    pose proof (cut_eq _ _ _ _ _ _ Hcut) as Hel. simpl in Hel.
    pose proof (rb_hp_perm _ _ _ (perm_swap _ _ _) H1) as H1'.
    eapply (wp_insert_leaf _ (elems T) x q (hole type c l p d r) k _ st1 st).
    + rewrite Hfp. exact H1'.
    + destruct type; simpl in Hch; subst; simpl; rewrite ?app_nil_r; done.
    + done.
    + by destruct type.
    + destruct type; simpl in Hch; auto.
    + done.
    + by rewrite Hel.
    + intros st2 H2. eexists. split; [done|]. eexists _, _. split; [exact Hcut|]. split; [done|].
      by split.
Qed.

#[local] Arguments Z.eqb : simpl never.

Lemma wp_insert cmp x (st : rbt_tree_t D) l ms :
  rb_wf st l → sep cmp x l →
  wp (rbt_insert cmp x) (λ r st' ms',
       (∃ l1 y l2, cut cmp x l l1 (Some y) l2 ∧ r = RBT_NODE_EXIST ∧ st' = st ∧ ms' = ms) ∨
       (∃ l1 l2, cut cmp x l l1 None l2 ∧ ms' = tail ms ∧
          if decide (head ms = Some false) then r = RBT_ERR ∧ rb_wf st' l
          else r = RBT_OK ∧ rb_wf st' (l1 ++ x :: l2))) st ms.
Proof.
  intros (T & H & <- & Hrb & Hnum) Hs. unfold rbt_insert. wp_steps.
  rewrite (rep_root _ _ H), (rep_sent _ _ _ H).
  assert (T = E ∨ T ≠ E) as [->|HT] by (destruct T; auto).
  - change (SENT =? rp E) with true. apply wp_bind. simpl elems in *. destruct H as [H R].
    eapply wp_creat_root; [exact H|].
    assert (Hcut : cut cmp x [] [] None []) by (by constructor).
    case_decide as Hms.
    + wp_steps. right. exists [], []. split; [done|]. split; [done|]. split; [done|].
      exists E. split_and!; try done. split; [by destruct H; constructor|].
      simpl. exact (hp_sent _ _ H).
    + intros st1 q H1 G. wp_step. apply (wp_insert_root x q); [done|by rewrite (grown_num _ _ G)|].
      intros st2 H2. right. exists [], []. split; [done|]. by split.
  - rewrite (proj2 (Z.eqb_neq _ _)) by (pose proof (rep_focus_pos _ _ _ H HT); lia).
    apply wp_walk with cmp x (λ t, t ≠ E); [done| |done|done|pose proof (fuel_enough _ _ _ H); lia].
    intros t k Hz HR Hon Ht. destruct t as [|c l p d r]; [done|]. simpl rp.
    wp_steps. rewrite (rep_sent _ _ _ HR), (rep_neq_sent _ _ _ _ _ _ _ HR).
    wp_steps. eapply wp_rd_focus; [done|]. simpl. wp_steps.
    case_match eqn:Hc; wp_steps.
    { left. eexists _, _, _. split_and!; [|done..]. rewrite <-Hz.
      apply onpath_hit; [by rewrite Hz|lia]. }
    pose proof (rep_focus_pos _ l (FL c p d r :: k) ltac:(by apply rep_plug)) as Hl.
    pose proof (rep_focus_pos _ r (FR c l p d :: k) ltac:(by apply rep_plug)) as Hr.
    rewrite <-Hz in Hs. case_match eqn:Hlt.
    + destruct l as [|lc ll lp ld lr]; cbn [rp].
      * eapply wp_mono; [apply (wp_insert_side cmp x LCHILD c E p d r k); try done; simpl|].
        { by apply (onpath_left _ _ _ _ _ _ _ E); [|lia|]. }
        naive_solver.
      * rewrite (proj2 (Z.eqb_neq _ _)) by (specialize (Hl ltac:(done)); simpl in Hl; lia).
        wp_steps. split_and!; [done..|]. eexists _, _, _, _, _. split; [done|]. left. split_and!; try done. lia.
    + destruct r as [|rc rl rp' rd rr]; cbn [rp].
      * eapply wp_mono; [apply (wp_insert_side cmp x RCHILD c l p d E k); try done; simpl|].
        { by apply (onpath_right _ _ _ _ _ E); [|lia|]. }
        naive_solver.
      * rewrite (proj2 (Z.eqb_neq _ _)) by (specialize (Hr ltac:(done)); simpl in Hr; lia).
        wp_steps. split_and!; [done..|]. eexists _, _, _, _, _. split; [done|]. right. split_and!; try done. lia.
Qed.
End Ops.
