(* ===== verification/RbDelete.v ===== *)
(** The correctness of [rbt_delete_fixup] and [rbt_delete]. *)
From S2P Require Import Prelude Table RbTree RbSpec RbInsert RbOps.
Open Scope Z_scope.

Section Delete.
Context {D : Type}.
Abbreviation tree := (tree D).
Abbreviation frame := (frame D).
Implicit Types (t x y b l r : tree) (f : frame) (k : list frame) (st : rbt_tree_t D).

(** Both sides hold the same elements, up to the grouping of the appends. *)
Ltac elems_solve := simpl; repeat (rewrite <-app_assoc; simpl); done.

(** *** One iteration, [node] being a left child with a black brother *)

(** Case 4: the far child of the brother is red; the rotation around the parent
    restores the black height. *)
Definition case4_left c t p d x bp bd y : tree :=
  N c (N BLACK t p d x) bp bd (paint BLACK y).
Definition case4_right c t p d x bp bd y : tree :=
  N c (paint BLACK x) bp bd (N BLACK y p d t).

Lemma left_case4 (Q : fixup + fixup → _ → _ → Prop) st ms c t p d bc x bp bd yl yp yd yr k :
  let y := N RED yl yp yd yr in
  Rep st t (FL c p d (N bc x bp bd y) :: k) →
  (∀ st', keep st st' → Rep st' (case4_left c t p d x bp bd y) k →
     Q (inl (root st', bp, p)) st' ms) →
  wp (rbt_copy_color bp p;;
      b ← rd bp;
      rbt_set_black (rchild b);; rbt_set_black p;;
      rbt_left_rotate p;;
      rt ← gets root;
      mret (inl (rt, bp, p))) Q st ms.
Proof.
  intros y H HQ. wp_steps. unfold rbt_copy_color. wp_steps.
  refocus H (N c t p d (N bc x bp bd y)) k. eapply wp_rd_focus; [exact H|]. wp_steps. cbn [mk color_].
  recolour H (N bc x bp bd y) (FR c t p d :: k).
  eapply wp_rd_focus; [exact H|]. wp_steps. cbn [mk rchild rp].
  recolour H (N RED yl yp yd yr) (FR c x bp bd :: FR c t p d :: k).
  recolour H (N c t p d (N c x bp bd (N BLACK yl yp yd yr))) k.
  eapply wp_left_rotate; [exact H|]. intros st' H' K'. wp_steps.
  apply HQ; [keeps|exact H'].
Qed.

Lemma right_case8 (Q : fixup + fixup → _ → _ → Prop) st ms c t p d bc xl xp xd xr bp bd y k :
  let x := N RED xl xp xd xr in
  Rep st t (FR c (N bc x bp bd y) p d :: k) →
  (∀ st', keep st st' → Rep st' (case4_right c t p d x bp bd y) k →
     Q (inl (root st', bp, p)) st' ms) →
  wp (rbt_copy_color bp p;;
      b ← rd bp;
      rbt_set_black (lchild b);; rbt_set_black p;;
      rbt_right_rotate p;;
      rt ← gets root;
      mret (inl (rt, bp, p))) Q st ms.
Proof.
  intros x H HQ. wp_steps. unfold rbt_copy_color. wp_steps.
  refocus H (N c (N bc x bp bd y) p d t) k. eapply wp_rd_focus; [exact H|]. wp_steps. cbn [mk color_].
  recolour H (N bc x bp bd y) (FL c p d t :: k).
  eapply wp_rd_focus; [exact H|]. wp_steps. cbn [mk lchild rp].
  recolour H (N RED xl xp xd xr) (FL c bp bd y :: FL c p d t :: k).
  recolour H (N c (N c (N BLACK xl xp xd xr) bp bd y) p d t) k.
  eapply wp_right_rotate; [exact H|]. intros st' H' K'. wp_steps.
  apply HQ; [keeps|exact H'].
Qed.

Lemma wp_left_black (Q : fixup + fixup → _ → _ → Prop) st ms c t p d x bp bd y k :
  Rep st t (FL c p d (N BLACK x bp bd y) :: k) →
  (∀ st', keep st st' → col x = BLACK → col y = BLACK →
     Rep st' (N c t p d (N RED x bp bd y)) k → Q (inl (p, bp, p)) st' ms) →
  (∀ st', keep st st' → col y = RED → Rep st' (case4_left c t p d x bp bd y) k →
     Q (inl (root st', bp, p)) st' ms) →
  (∀ st' xl xp xd xr, keep st st' → col y = BLACK → x = N RED xl xp xd xr →
     Rep st' (case4_left c t p d xl xp xd (N RED xr bp bd y)) k →
     Q (inl (root st', xp, p)) st' ms) →
  wp (delete_fixup_left_black p bp) Q st ms.
Proof.
  intros H HQ2 HQ4 HQ3. unfold delete_fixup_left_black. wp_steps.
  refocus H (N BLACK x bp bd y) (FR c t p d :: k). eapply wp_rd_focus; [exact H|]. wp_steps.
  cbn [mk lchild rchild]. refocus H x (FL BLACK bp bd y :: FR c t p d :: k).
  eapply wp_is_black; [exact H|]. wp_steps.
  refocus H y (FR BLACK x bp bd :: FR c t p d :: k).
  assert (Hy : ∀ Q : bool → _ → _ → Prop, Q (negb (is_red (col y))) st ms → wp (rbt_is_black (rp y)) Q st ms)
    by (intros; by eapply wp_is_black).
  destruct (col x) eqn:Hx; cbn [is_red negb]; wp_steps.
  - apply Hy. wp_steps. destruct (col y) eqn:Hyc; cbn [is_red negb]; wp_steps.
    + destruct y as [|[] yl yp yd yr]; try done. cbn [rp].
      refocus H t (FL c p d (N BLACK x bp bd (N RED yl yp yd yr)) :: k).
      apply wp_bind_inv; eapply left_case4; [exact H|]. intros. by apply HQ4.
    + destruct x as [|[] xl xp xd xr]; try done. cbn [rp].
      recolour H (N RED xl xp xd xr) (FL BLACK bp bd y :: FR c t p d :: k).
      recolour H (N BLACK (N BLACK xl xp xd xr) bp bd y) (FR c t p d :: k).
      eapply wp_right_rotate; [exact H|]. intros st2 H2 K2. wp_steps.
      refocus H2 (N c t p d (N BLACK xl xp xd (N RED xr bp bd y))) k.
      eapply wp_rd_focus; [exact H2|]. wp_steps. cbn [mk rchild rp].
      refocus H2 t (FL c p d (N BLACK xl xp xd (N RED xr bp bd y)) :: k).
      apply wp_bind_inv; eapply left_case4; [exact H2|]. intros st3 K3 H3. eapply HQ3; [keeps|done|done|done].
  - apply Hy. destruct (col y) eqn:Hyc; cbn [is_red negb]; wp_steps.
    + apply Hy. cbn [is_red negb]. wp_steps. destruct y as [|[] yl yp yd yr]; try done. cbn [rp].
      refocus H t (FL c p d (N BLACK x bp bd (N RED yl yp yd yr)) :: k).
      apply wp_bind_inv; eapply left_case4; [exact H|]. intros. by apply HQ4.
    + recolour H (N BLACK x bp bd y) (FR c t p d :: k).
      refocus H (N c t p d (N RED x bp bd y)) k. apply HQ2; [keeps|done|done|exact H].
Qed.

Lemma wp_right_black (Q : fixup + fixup → _ → _ → Prop) st ms c t p d x bp bd y k :
  Rep st t (FR c (N BLACK x bp bd y) p d :: k) →
  (∀ st', keep st st' → col x = BLACK → col y = BLACK →
     Rep st' (N c (N RED x bp bd y) p d t) k → Q (inl (p, bp, p)) st' ms) →
  (∀ st', keep st st' → col x = RED → Rep st' (case4_right c t p d x bp bd y) k →
     Q (inl (root st', bp, p)) st' ms) →
  (∀ st' yl yp yd yr, keep st st' → col x = BLACK → y = N RED yl yp yd yr →
     Rep st' (case4_right c t p d (N RED x bp bd yl) yp yd yr) k →
     Q (inl (root st', yp, p)) st' ms) →
  wp (delete_fixup_right_black p bp) Q st ms.
Proof.
  intros H HQ2 HQ4 HQ3. unfold delete_fixup_right_black. wp_steps.
  refocus H (N BLACK x bp bd y) (FL c p d t :: k). eapply wp_rd_focus; [exact H|]. wp_steps.
  cbn [mk lchild rchild]. refocus H x (FL BLACK bp bd y :: FL c p d t :: k).
  assert (Hx : ∀ Q : bool → _ → _ → Prop, Q (negb (is_red (col x))) st ms → wp (rbt_is_black (rp x)) Q st ms)
    by (intros; by eapply wp_is_black).
  apply Hx. wp_steps. destruct (col x) eqn:Hxc; cbn [is_red negb]; wp_steps.
  - apply Hx. cbn [is_red negb]. wp_steps. destruct x as [|[] xl xp xd xr]; try done. cbn [rp].
    refocus H t (FR c (N BLACK (N RED xl xp xd xr) bp bd y) p d :: k).
    apply wp_bind_inv; eapply right_case8; [exact H|]. intros. by apply HQ4.
  - refocus H y (FR BLACK x bp bd :: FL c p d t :: k). eapply wp_is_black; [exact H|].
    destruct (col y) eqn:Hyc; cbn [is_red negb]; wp_steps.
    + apply Hx. cbn [is_red negb]. wp_steps.
      destruct y as [|[] yl yp yd yr]; try done. cbn [rp].
      recolour H (N BLACK x bp bd (N RED yl yp yd yr)) (FL c p d t :: k).
      recolour H (N RED yl yp yd yr) (FR RED x bp bd :: FL c p d t :: k).
      refocus H (N RED x bp bd (N BLACK yl yp yd yr)) (FL c p d t :: k).
      eapply wp_left_rotate; [exact H|]. intros st2 H2 K2. wp_steps.
      refocus H2 (N c (N BLACK (N RED x bp bd yl) yp yd yr) p d t) k.
      eapply wp_rd_focus; [exact H2|]. wp_steps. cbn [mk lchild rp].
      refocus H2 t (FR c (N BLACK (N RED x bp bd yl) yp yd yr) p d :: k).
      apply wp_bind_inv; eapply right_case8; [exact H2|]. intros st3 K3 H3. eapply HQ3; [keeps|done|done|done].
    + recolour H (N BLACK x bp bd y) (FL c p d t :: k).
      refocus H (N c (N RED x bp bd y) p d t) k. apply HQ2; [keeps|done|done|exact H].
Qed.

(** *** The black height *)

(** The focus is one black node short of what its context expects; its root may
    be red under a red parent, as the loop then only paints it black. *)
Record deficit t k : Prop := {
  de_bal : ∃ n, bal t n ∧ zbal k (S n);
  de_nrr : nrr (paint BLACK t);
  de_znrr : znrr k BLACK;
  de_root : zcol k BLACK = BLACK;
}.

Lemma deficit_sib t f k : deficit t (f :: k) → sib f ≠ E.
Proof. intros [(n & _ & Hb & _) _ _ _] He. by rewrite He in Hb. Qed.

Lemma deficit_red_sib t f k :
  deficit t (f :: k) → col (sib f) = RED → fcol f = BLACK.
Proof.
  intros [_ _ (_ & Hc & _) _] Hs. destruct (fcol f); [|done].
  destruct Hc as [_ Hc]; [done|]. congruence.
Qed.

(** The loop ends on a red focus: painting it black pays the debt. *)
Lemma deficit_red t k : deficit t k → col t = RED → rb (zip (paint BLACK t) k).
Proof.
  intros [(n & Hb & Hz) Hn Hzn Hr] Hc. destruct t as [|[] l p d r]; try done.
  apply rb_zip with (S n); done.
Qed.

Lemma deficit_root t : deficit t [] → rb (paint BLACK t).
Proof.
  intros [(n & Hb & _) Hn _ _]. destruct t as [|[] l p d r].
  - by split_and!; [exists O| |].
  - by split_and!; [exists (S n)| |].
  - by split_and!; [exists n| |].
Qed.

Lemma case1_left t p d c bl bp bd br k :
  deficit t (FL c p d (N RED bl bp bd br) :: k) →
  c = BLACK ∧ col bl = BLACK ∧ deficit t (FL RED p d bl :: FL BLACK bp bd br :: k).
Proof.
  intros V. pose proof (deficit_red_sib _ _ _ V eq_refl) as Hc. simpl in Hc. subst c.
  destruct V as [(n & Hb & Hs & Hz) Hn (Hns & _ & Hzn) Hr]. simpl in *.
  destruct Hns as (Hnb & Hnl & Hnr). destruct (Hnb eq_refl) as [Hcl Hcr].
  split_and!; [done|done|]. constructor; [|done|by split_and!|done].
  exists n. simpl. destruct Hs. by split_and!.
Qed.

Lemma case1_right t p d c bl bp bd br k :
  deficit t (FR c (N RED bl bp bd br) p d :: k) →
  c = BLACK ∧ col br = BLACK ∧ deficit t (FR RED br p d :: FR BLACK bl bp bd :: k).
Proof.
  intros V. pose proof (deficit_red_sib _ _ _ V eq_refl) as Hc. simpl in Hc. subst c.
  destruct V as [(n & Hb & Hs & Hz) Hn (Hns & _ & Hzn) Hr]. simpl in *.
  destruct Hns as (Hnb & Hnl & Hnr). destruct (Hnb eq_refl) as [Hcl Hcr].
  split_and!; [done|done|]. constructor; [|done|by split_and!|done].
  exists n. simpl. destruct Hs. by split_and!.
Qed.

(** Case 2: the debt moves up to the parent. *)
Definition case2_up (f : frame) (t : tree) : tree :=
  plug t (fsib (paint RED (sib f)) f).

Lemma case2_deficit t f x bp bd y k :
  deficit t (f :: k) → sib f = N BLACK x bp bd y → col t = BLACK → col x = BLACK → col y = BLACK →
  deficit (case2_up f t) k.
Proof.
  intros [(n & Hb & Hs & Hz) Hn (Hns & Hc & Hzn) Hr] Hsib Ht Hx Hy.
  assert (Hnt : nrr t) by (destruct t as [|[]]; done).
  rewrite Hsib in *. simpl in Hns, Hs. destruct Hs as [Hbx Hby].
  constructor.
  - exists (if decide (fcol f = BLACK) then S n else n). split.
    + destruct f as [[] ? ? ?|[] ? ? ?]; simpl in *; subst; simpl; done.
    + by destruct (fcol f).
  - destruct f; simpl in *; subst; simpl; naive_solver.
  - destruct k as [|f' k]; [done|]. simpl in *. naive_solver.
  - by destruct k.
Qed.

(** Case 4: the debt is paid. *)
Lemma rb_join c a p d b k n :
  bal a (S n) → bal b (S n) → nrr a → nrr b → col a = BLACK → col b = BLACK →
  znrr k c → zcol k c = BLACK → zbal k (if decide (c = BLACK) then S (S n) else S n) →
  rb (zip (N c a p d b) k).
Proof.
  intros. apply rb_zip with (if decide (c = BLACK) then S (S n) else S n); try done.
  by destruct c.
Qed.

Lemma paint_red y n : col y = RED → bal y n → nrr y → bal (paint BLACK y) (S n) ∧ nrr (paint BLACK y).
Proof. destruct y as [|[] l p d r]; intros Hc Hb Hn; [done| |done]. destruct Hn as (_ & ? & ?). by split_and!. Qed.

Lemma case4_left_rb t c p d x bp bd y k :
  deficit t (FL c p d (N BLACK x bp bd y) :: k) → col t = BLACK → col y = RED →
  rb (zip (case4_left c t p d x bp bd y) k).
Proof.
  intros [(n & Hb & [Hbx Hby] & Hz) Hn ((_ & Hnx & Hny) & _ & Hzn) Hr] Ht Hy.
  assert (Hnt : nrr t) by (destruct t as [|[]]; done).
  destruct (paint_red y n Hy Hby Hny) as [? ?].
  apply rb_join with n; try done. by destruct y.
Qed.

Lemma case4_right_rb t c p d x bp bd y k :
  deficit t (FR c (N BLACK x bp bd y) p d :: k) → col t = BLACK → col x = RED →
  rb (zip (case4_right c t p d x bp bd y) k).
Proof.
  intros [(n & Hb & [Hbx Hby] & Hz) Hn ((_ & Hnx & Hny) & _ & Hzn) Hr] Ht Hx.
  assert (Hnt : nrr t) by (destruct t as [|[]]; done).
  destruct (paint_red x n Hx Hbx Hnx) as [? ?].
  apply rb_join with n; try done. by destruct x.
Qed.

(** Case 3 rotates the brother into the shape of case 4. *)
Lemma case3_left_rb t c p d xl xp xd xr bp bd y k :
  deficit t (FL c p d (N BLACK (N RED xl xp xd xr) bp bd y) :: k) → col t = BLACK → col y = BLACK →
  rb (zip (case4_left c t p d xl xp xd (N RED xr bp bd y)) k).
Proof.
  intros [(n & Hb & [[Hbx Hbx'] Hby] & Hz) Hn ((_ & (_ & Hnx & Hnx') & Hny) & _ & Hzn) Hr] Ht Hy.
  assert (Hnt : nrr t) by (destruct t as [|[]]; done).
  apply rb_join with n; try done; by split_and!.
Qed.

Lemma case3_right_rb t c p d x yl yp yd yr bp bd k :
  deficit t (FR c (N BLACK x bp bd (N RED yl yp yd yr)) p d :: k) → col t = BLACK → col x = BLACK →
  rb (zip (case4_right c t p d (N RED x bp bd yl) yp yd yr) k).
Proof.
  intros [(n & Hb & [Hbx [Hby Hby']] & Hz) Hn ((_ & Hnx & (_ & Hny & Hny')) & _ & Hzn) Hr] Ht Hx.
  assert (Hnt : nrr t) by (destruct t as [|[]]; done).
  apply rb_join with n; try done; by split_and!.
Qed.

(** *** The loop *)

(** What an iteration leaves: the whole tree repaired and the loop at its root,
    or the debt moved up, or a red focus. *)
Definition after (T : tree) (m : nat) (node : ptr) st : Prop :=
  (∃ T', Rep st T' [] ∧ rb T' ∧ elems T' = elems T ∧ node = rp T') ∨
  (∃ t k, Rep st t k ∧ deficit t k ∧ elems (zip t k) = elems T ∧ node = rp t ∧ t ≠ E ∧
     (col t = RED ∨ (length k < m)%nat)).

Definition live st (p : ptr) : Prop := p = NULL ∨ is_Some (heap st !! p).

Lemma live_node st c l p d r k : Rep st (N c l p d r) k → live st p.
Proof. intros [H _]. right. unfold total in H. simpl in H. by rewrite (hp_lookup _ _ _ _ H). Qed.

Lemma live_keep st st' p : live st p → keep st st' → live st' p.
Proof. intros [->|?] K; [by left|right]. by apply (keep_live _ _ K). Qed.

Lemma after_root T m t k st :
  Rep st t k → rb (zip t k) → elems (zip t k) = elems T → after T m (root st) st.
Proof.
  intros H Hrb He. left. exists (zip t k). apply rep_zip in H.
  split_and!; try done. by apply rep_root.
Qed.

Lemma elems_zip_eq t t' k : elems t = elems t' → elems (zip t k) = elems (zip t' k).
Proof. intros He. by rewrite !elems_zip, He. Qed.

Lemma after_left_black T m st ms c t p d b k (Q : fixup + fixup → _ → _ → Prop) :
  Rep st t (FL c p d b :: k) → deficit t (FL c p d b :: k) → col b = BLACK → col t = BLACK →
  elems (zip t (FL c p d b :: k)) = elems T → (c = RED ∨ length k < m)%nat →
  (∀ st' node brother, keep st st' → after T m node st' → live st' brother → live st' p →
     Q (inl (node, brother, p)) st' ms) →
  wp (delete_fixup_left_black p (rp b)) Q st ms.
Proof.
  intros H V Hcb Ht He Hm HQ. pose proof (deficit_sib _ _ _ V) as Hb. simpl in Hb.
  destruct b as [|[] x bp bd y]; try done. simpl rp.
  assert (Hp : live st p) by (eapply live_node, (rep_plug _ _ (FL c p d _)); exact H).
  assert (Hbp : live st bp).
  { eapply (live_node _ BLACK x bp bd y (FR c t p d :: k)). by refocus H (N BLACK x bp bd y) (FR c t p d :: k). }
  eapply wp_left_black; [exact H| | |].
  - intros st' K Hx Hy H'. apply HQ; [done| |by eapply live_keep..].
    right. exists (N c t p d (N RED x bp bd y)), k. split_and!; try done.
    + by apply (case2_deficit t (FL c p d (N BLACK x bp bd y)) x bp bd y k).
    + rewrite <-He. by apply (elems_zip_eq _ (N c t p d (N BLACK x bp bd y))).
  - intros st' K Hy H'. apply HQ; [done| |by eapply live_keep..].
    eapply after_root; [exact H'|by apply case4_left_rb|]. rewrite <-He.
    apply (elems_zip_eq _ (N c t p d (N BLACK x bp bd y))).
    destruct y; elems_solve.
  - intros st' xl xp xd xr K Hy -> H'.
    apply HQ; [done| | |by eapply live_keep].
    + eapply after_root; [exact H'|by apply case3_left_rb|]. rewrite <-He.
      apply (elems_zip_eq _ (N c t p d (N BLACK (N RED xl xp xd xr) bp bd y))).
      elems_solve.
    + by eapply live_node.
Qed.

Lemma after_right_black T m st ms c t p d b k (Q : fixup + fixup → _ → _ → Prop) :
  Rep st t (FR c b p d :: k) → deficit t (FR c b p d :: k) → col b = BLACK → col t = BLACK →
  elems (zip t (FR c b p d :: k)) = elems T → (c = RED ∨ length k < m)%nat →
  (∀ st' node brother, keep st st' → after T m node st' → live st' brother → live st' p →
     Q (inl (node, brother, p)) st' ms) →
  wp (delete_fixup_right_black p (rp b)) Q st ms.
Proof.
  intros H V Hcb Ht He Hm HQ. pose proof (deficit_sib _ _ _ V) as Hb. simpl in Hb.
  destruct b as [|[] x bp bd y]; try done. simpl rp.
  assert (Hp : live st p) by (eapply live_node, (rep_plug _ _ (FR c _ p d)); exact H).
  assert (Hbp : live st bp).
  { eapply (live_node _ BLACK x bp bd y (FL c p d t :: k)). by refocus H (N BLACK x bp bd y) (FL c p d t :: k). }
  eapply wp_right_black; [exact H| | |].
  - intros st' K Hx Hy H'. apply HQ; [done| |by eapply live_keep..].
    right. exists (N c (N RED x bp bd y) p d t), k. split_and!; try done.
    + by apply (case2_deficit t (FR c (N BLACK x bp bd y) p d) x bp bd y k).
    + rewrite <-He. by apply (elems_zip_eq _ (N c (N BLACK x bp bd y) p d t)).
  - intros st' K Hx H'. apply HQ; [done| |by eapply live_keep..].
    eapply after_root; [exact H'|by apply case4_right_rb|]. rewrite <-He.
    apply (elems_zip_eq _ (N c (N BLACK x bp bd y) p d t)).
    destruct x; elems_solve.
  - intros st' yl yp yd yr K Hx -> H'.
    apply HQ; [done| | |by eapply live_keep].
    + eapply after_root; [exact H'|by apply case3_right_rb|]. rewrite <-He.
      apply (elems_zip_eq _ (N c (N BLACK x bp bd (N RED yl yp yd yr)) p d t)).
      elems_solve.
    + by eapply live_node.
Qed.

Lemma after_left T st ms c t p d b k (Q : fixup + fixup → _ → _ → Prop) :
  Rep st t (FL c p d b :: k) → deficit t (FL c p d b :: k) → col t = BLACK →
  elems (zip t (FL c p d b :: k)) = elems T →
  (∀ st' node brother, keep st st' → after T (S (length k)) node st' → live st' brother → live st' p →
     Q (inl (node, brother, p)) st' ms) →
  wp (delete_fixup_left p (rp b)) Q st ms.
Proof.
  intros H V Ht He HQ. pose proof (deficit_sib _ _ _ V) as Hb. simpl in Hb.
  unfold delete_fixup_left. wp_steps.
  refocus H b (FR c t p d :: k). eapply wp_is_red; [exact H|].
  destruct (col b) eqn:Hcb; cbn [is_red]; wp_steps.
  - destruct b as [|[] bl bp bd br]; try done.
    apply case1_left in V as (-> & Hbl & V).
    recolour H (N BLACK t p d (N RED bl bp bd br)) k.
    recolour H (N RED bl bp bd br) (FR RED t p d :: k).
    refocus H (N RED t p d (N BLACK bl bp bd br)) k.
    eapply wp_left_rotate; [exact H|]. clear H. intros st' H K'. wp_steps.
    refocus H (N RED t p d bl) (FL BLACK bp bd br :: k).
    eapply wp_rd_focus; [exact H|]. wp_steps. cbn [mk rchild].
    refocus H t (FL RED p d bl :: FL BLACK bp bd br :: k).
    eapply (after_left_black T (S (length k))); [exact H|exact V|done|done| |by left|].
    + rewrite <-He. apply (elems_zip_eq (N BLACK (N RED t p d bl) bp bd br) (N BLACK t p d (N RED bl bp bd br)) k).
      elems_solve.
    + intros. apply HQ; [keeps|done..].
  - refocus H t (FL c p d b :: k).
    eapply (after_left_black T (S (length k))); [exact H|exact V|done|done|done|right; lia|done].
Qed.

Lemma after_right T st ms c t p d b k (Q : fixup + fixup → _ → _ → Prop) :
  Rep st t (FR c b p d :: k) → deficit t (FR c b p d :: k) → col t = BLACK →
  elems (zip t (FR c b p d :: k)) = elems T →
  (∀ st' node brother, keep st st' → after T (S (length k)) node st' → live st' brother → live st' p →
     Q (inl (node, brother, p)) st' ms) →
  wp (delete_fixup_right p (rp b)) Q st ms.
Proof.
  intros H V Ht He HQ. pose proof (deficit_sib _ _ _ V) as Hb. simpl in Hb.
  unfold delete_fixup_right. wp_steps.
  refocus H b (FL c p d t :: k). eapply wp_is_red; [exact H|].
  destruct (col b) eqn:Hcb; cbn [is_red]; wp_steps.
  - destruct b as [|[] bl bp bd br]; try done.
    apply case1_right in V as (-> & Hbr & V).
    recolour H (N BLACK (N RED bl bp bd br) p d t) k.
    recolour H (N RED bl bp bd br) (FL RED p d t :: k).
    refocus H (N RED (N BLACK bl bp bd br) p d t) k.
    eapply wp_right_rotate; [exact H|]. clear H. intros st' H K'. wp_steps.
    refocus H (N RED br p d t) (FR BLACK bl bp bd :: k).
    eapply wp_rd_focus; [exact H|]. wp_steps. cbn [mk lchild].
    refocus H t (FR RED br p d :: FR BLACK bl bp bd :: k).
    eapply (after_right_black T (S (length k))); [exact H|exact V|done|done| |by left|].
    + rewrite <-He. apply (elems_zip_eq (N BLACK bl bp bd (N RED br p d t)) (N BLACK (N RED bl bp bd br) p d t) k).
      elems_solve.
    + intros. apply HQ; [keeps|done..].
  - refocus H t (FR c b p d :: k).
    eapply (after_right_black T (S (length k))); [exact H|exact V|done|done|done|right; lia|done].
Qed.

(** The parent link of the focus: in its cell, or in the sentinel when the
    focus is empty. *)
Definition sent_parent st (q : ptr) : Prop := ∃ sn, heap st !! SENT = Some sn ∧ parent sn = q.

Lemma wp_step_deficit T st ms t f k br0 par0 (Q : fixup + fixup → _ → _ → Prop) :
  Rep st t (f :: k) → deficit t (f :: k) → (t = E → sent_parent st (fp f)) →
  col t = BLACK → elems (zip t (f :: k)) = elems T →
  (∀ st' node brother par, keep st st' → after T (S (length k)) node st' →
     live st' brother → live st' par → Q (inl (node, brother, par)) st' ms) →
  wp (delete_fixup_step (rp t, br0, par0)) Q st ms.
Proof.
  intros H V Hsp Ht He HQ. unfold delete_fixup_step. wp_steps.
  eapply wp_is_black; [exact H|]. rewrite Ht. cbn [is_red negb andb]. wp_steps.
  assert (Hroot : (root st =? rp t) = false).
  { destruct t as [|c l p d r].
    - destruct H as [H ->]. apply Z.eqb_neq. simpl.
      pose proof (zroot_cells (f :: k) SENT ltac:(done)) as Hz. simpl in Hz.
      intros Heq. pose proof (rb_hp_pos _ _ (zroot k (fp f)) H) as Hp.
      unfold total in Hp. simpl in Hp. apply Hp in Hz. rewrite Heq in Hz. lia.
    - rewrite <-(rep_root_eq _ _ _ H) by done. by rewrite bool_decide_false. }
  rewrite Hroot. cbn [negb]. wp_steps.
  assert (Hrd : ∀ Q : rbt_node_t D → _ → _ → Prop,
    (∀ n, parent n = fp f → Q n st ms) → wp (rd (rp t)) Q st ms).
  { intros Q' HQ'. destruct t as [|c l p d r].
    - destruct Hsp as (sn & Hsn & Hpar); [done|]. unfold rd. wp_steps. simpl. rewrite Hsn.
      wp_steps. by apply HQ'.
    - eapply wp_rd_focus; [exact H|]. by apply HQ'. }
  apply Hrd. intros n ->. wp_steps. eapply wp_rd_top; [exact H|]. wp_steps.
  destruct f as [c p d b|c b p d]; cbn [frame_node mk lchild rchild].
  - rewrite Z.eqb_refl. eapply after_left; [exact H|done|done|done|]. intros. by apply HQ.
  - pose proof (deficit_sib _ _ _ V) as Hb. simpl in Hb.
    assert (Hne : rp b ≠ rp t).
    { apply (rep_sibling_ne st c b p d t k); [by apply (rep_plug _ _ (FR c b p d))|by left]. }
    rewrite (proj2 (Z.eqb_neq _ _)) by done.
    eapply after_right; [exact H|done|done|done|]. intros. by apply HQ.
Qed.

Lemma focus_on par t k p :
  p ∈ (cells par t).*1 → ∃ c l d r k', zip (N c l p d r) k' = zip t k.
Proof.
  revert par k. induction t as [|c l IHl q d r IHr]; intros par k Hp; simpl in Hp.
  - by apply elem_of_nil in Hp.
  - apply elem_of_cons in Hp as [->|Hp]; [by eexists _, _, _, _, _|].
    rewrite fmap_app in Hp. apply elem_of_app in Hp as [Hp|Hp].
    + by apply (IHl q (FL c q d r :: k)).
    + by apply (IHr q (FR c l q d :: k)).
Qed.

Lemma wp_assert_live st ms t k p (Q : unit → _ → _ → Prop) :
  Rep st t k → live st p → Q tt st ms → wp (rbt_assert p) Q st ms.
Proof.
  intros H [->|Hp] HQ; [by apply wp_assert_null|].
  apply rep_zip in H. pose proof H as [HH _]. apply (hp_dom _ _ HH) in Hp as [->|Hp].
  - unfold rbt_assert. wp_steps. by rewrite (rep_sent _ _ _ H), Z.eqb_refl, orb_true_r.
  - unfold total in Hp. simpl in Hp. rewrite app_nil_r in Hp.
    destruct (focus_on _ _ [] _ Hp) as (c & l & d & r & k' & Hz).
    apply (wp_assert_focus _ _ _ (N c l p d r) k'); [|done]. eapply rep_refocus; [|exact H]. done.
Qed.

(** The loop stops at a node whose painting black leaves a red-black tree. *)
Definition fin (T : tree) (node : ptr) st : Prop :=
  ∃ t k, Rep st t k ∧ rb (zip (paint BLACK t) k) ∧ elems (zip t k) = elems T ∧ node = rp t.

Lemma wp_step_stop st ms t k br par (Q : fixup + fixup → _ → _ → Prop) :
  Rep st t k → col t = RED ∨ k = [] → Q (inr (rp t, br, par)) st ms →
  wp (delete_fixup_step (rp t, br, par)) Q st ms.
Proof.
  intros H Hs HQ. unfold delete_fixup_step. wp_steps. eapply wp_is_black; [exact H|]. wp_steps.
  destruct Hs as [->| ->]; [by wp_steps|].
  rewrite (rep_root _ _ H), Z.eqb_refl, andb_false_r. by wp_steps.
Qed.

Lemma delete_fixup_loop T fuel st ms t k br par :
  Rep st t k → deficit t k → (t = E → sent_parent st (top k)) →
  elems (zip t k) = elems T → live st br → live st par → (length k + 2 ≤ fuel)%nat →
  wp (loop fuel delete_fixup_step (rp t, br, par))
    (λ '(node, br, par) st' ms', ms' = ms ∧ keep st st' ∧ fin T node st' ∧ live st' br ∧ live st' par)
    st ms.
Proof.
  revert st t k br par. induction fuel as [|fuel IH]; intros st t k br par H V Hsp He Hbr Hpar Hf; [lia|].
  apply wp_loop_step. destruct (col t) eqn:Ht; [|destruct k as [|f k]].
  - eapply wp_step_stop; [exact H|by left|]. split_and!; try done.
    exists t, k. split_and!; try done. by apply deficit_red.
  - eapply wp_step_stop; [exact H|by right|]. split_and!; try done.
    exists t, []. split_and!; try done. by apply deficit_root.
  - eapply wp_step_deficit; [exact H|done..|]. intros st' node brother par' K Haft Hb Hp.
    destruct Haft as [(T' & H' & Hrb & He' & ->)|(t' & k' & H' & V' & He' & -> & Hne & Hm)].
    + destruct fuel as [|fuel]; [simpl in Hf; lia|]. apply wp_loop_step.
      eapply wp_step_stop; [exact H'|by right|]. split_and!; try done.
      exists T', []. split_and!; try done.
      destruct Hrb as (? & ? & Hc). by destruct T' as [|[]].
    + destruct (decide (length k' < S (length k))%nat) as [Hlt|Hge].
      * eapply wp_mono; [apply (IH st' t' k'); try done; simpl in Hf; lia|].
        intros [[node br'] par''] st'' ms'' (-> & K' & ?). split_and!; try naive_solver. keeps.
      * destruct Hm as [Hred|]; [|lia]. destruct fuel as [|fuel]; [simpl in Hf; lia|]. apply wp_loop_step.
        eapply wp_step_stop; [exact H'|by left|]. split_and!; try done.
        exists t', k'. split_and!; try done. by apply deficit_red.
Qed.

Lemma wp_paint_black st ms t k (Q : unit → _ → _ → Prop) :
  Rep st t k →
  (∀ st', Rep st' (paint BLACK t) k → num st' = num st →
     (∀ p, live st p → live st' p) → Q tt st' ms) →
  wp (rbt_set_black (rp t)) Q st ms.
Proof.
  intros H HQ. unfold rbt_set_black. destruct t as [|c l p d r]; simpl.
  - pose proof H as [HH _]. unfold wr. wp_steps. eapply wp_rd_sent; [exact HH|].
    intros sn Hb Hsn. wp_steps.
    assert (set_color BLACK sn = sn) as -> by (destruct sn; simpl in *; by subst).
    rewrite insert_id by done. apply HQ; [|done|done]. destruct H as [HH' HR].
    split; [by destruct HH'; constructor|done].
  - eapply wp_set_color; [exact H|]. intros st' H' K. apply HQ; [done|by apply keep_num|].
    intros. by eapply live_keep.
Qed.

Lemma wp_delete_fixup st ms t k (Q : Z → _ → _ → Prop) :
  Rep st t k → deficit t k → (t = E → sent_parent st (top k)) →
  (∀ st' T, Rep st' T [] → rb T → elems T = elems (zip t k) → num st' = num st → Q RBT_OK st' ms) →
  wp (rbt_delete_fixup (rp t)) Q st ms.
Proof.
  intros H V Hsp HQ. unfold rbt_delete_fixup. wp_steps.
  pose proof (fuel_enough _ _ _ H) as Hf.
  eapply wp_mono.
  { eapply (delete_fixup_loop (zip t k)); [exact H|done|done|done|by left|by left|lia]. }
  intros [[node br] par] st' ms' (-> & K & (t' & k' & H' & Hrb & He & ->) & Hbr & Hpar).
  wp_steps. eapply wp_paint_black; [exact H'|]. intros st2 H2 Hn2 Hl. wp_steps.
  assert (Hrp : rp t' = rp (paint BLACK t')) by (by destruct t'). rewrite Hrp.
  eapply wp_assert_focus; [exact H2|]. wp_steps.
  eapply wp_assert_live; [exact H2|by apply Hl|]. wp_steps.
  eapply wp_assert_live; [exact H2|by apply Hl|]. wp_steps.
  apply (HQ _ (zip (paint BLACK t') k')).
  - by apply rep_zip.
  - done.
  - rewrite <-He, !elems_zip. by destruct t'.
  - rewrite Hn2. by apply keep_num.
Qed.

(** *** Unlinking a node that has at most one child *)

Lemma hp_sent_write st C sn :
  Hp st C → color_ sn = BLACK → Hp (set_heap (<[SENT := sn]> (heap st)) st) C.
Proof.
  intros H Hsn. assert (Hne : ∀ ce, ce ∈ C → ce.1 ≠ SENT).
  { intros x Hx Heq. apply (list_elem_of_fmap_2 fst) in Hx. apply (rb_hp_pos _ _ _ H) in Hx. lia. }
  destruct H as [Hs Hc Hn Hr Hbr Hb Hd]. constructor; simpl; try done.
  - apply Forall_forall. intros x Hx. rewrite Forall_forall in Hc.
    rewrite lookup_insert_ne; [by apply Hc|]. intros Heq. by apply (Hne x).
  - exists sn. by rewrite lookup_insert, decide_True.
  - intros q. rewrite lookup_insert_is_Some'. intros [->|?]; [by left|auto].
Qed.

(** The write of the parent link of a subtree, the sentinel's included. *)
Lemma wp_set_parent_any b par par' C st ms (Q : unit → _ → _ → Prop) :
  Hp st (cells par b ++ C) →
  (∀ st', Hp st' (cells par' b ++ C) → num st' = num st → root st' = root st →
     (b = E → sent_parent st' par') → Q tt st' ms) →
  wp (wr (rp b) (set_parent par')) Q st ms.
Proof.
  intros H HQ. destruct b as [|c l p d r]; simpl rp.
  - unfold wr. wp_steps. eapply wp_rd_sent; [exact H|]. intros sn Hb Hsn. wp_steps.
    apply HQ; [by apply hp_sent_write|done|done|]. intros _.
    exists (set_parent par' sn). simpl. by rewrite lookup_insert, decide_True.
  - eapply (wp_set_parent (N c l p d r)); [exact H|done|]. intros st' H' K R. apply HQ; try done.
    by apply keep_num.
Qed.

Lemma wp_redirect q b f k C st ms (Q : unit → _ → _ → Prop) :
  Hp st (zcells (f :: k) q ++ C) → q ∈ C.*1 →
  (∀ st', Hp st' (zcells (f :: k) (rp b) ++ C) → keep st st' → root st' = root st → Q tt st' ms) →
  wp (redirect q (fp f) (rp b)) Q st ms.
Proof.
  intros H Hq HQ. unfold redirect. wp_steps. destruct f as [c p d r|c l p d]; simpl in *.
  - eapply wp_rd; [exact H|]. cbn [mk lchild]. rewrite Z.eqb_refl.
    eapply wp_wr; [exact H|]. intros st' H' K R. by apply HQ.
  - eapply wp_rd; [exact H|]. cbn [mk lchild].
    rewrite (proj2 (Z.eqb_neq q (rp l))).
    2: { intros ->. pose proof (rb_hp_pos _ _ (rp l) H) as Hx.
         pose proof (hp_nodup _ _ H) as Hn. simpl in Hn, Hx. apply NoDup_cons in Hn as [_ Hn].
         rewrite !fmap_app in Hn, Hx. apply NoDup_app in Hn as (_ & Hd & _).
         destruct (rp_cells p l) as [Hl|Hl].
         - rewrite Hl in *. destruct Hx; [|lia]. set_solver.
         - apply (Hd (rp l)); [set_solver|done]. }
    eapply wp_wr; [exact H|]. intros st' H' K R. by apply HQ.
Qed.

Lemma wp_dealloc p n C st ms (Q : unit → _ → _ → Prop) :
  Hp st ((p, n) :: C) →
  (∀ st', Hp st' C → num st' = num st → root st' = root st →
     heap st' !! SENT = heap st !! SENT → Q tt st' ms) →
  wp (dealloc_node p) Q st ms.
Proof.
  intros H HQ. unfold dealloc_node. wp_steps. eapply wp_rd; [exact H|]. wp_steps.
  pose proof (rb_hp_pos _ _ p H ltac:(left)) as Hp.
  apply HQ; [|done..|simpl; rewrite lookup_delete_ne; [done|lia]].
  destruct H as [Hs Hc Hn Hr Hbr Hb Hd]. simpl in *.
  apply Forall_cons in Hc as [_ Hc], Hr as [_ Hr]. apply NoDup_cons in Hn as [Hn1 Hn2].
  constructor; simpl; try done.
  - apply Forall_forall. intros x Hx. rewrite Forall_forall in Hc.
    rewrite lookup_delete_ne; [by apply Hc|]. intros ->. apply Hn1. by apply list_elem_of_fmap_2.
  - destruct Hb as (sn & ? & ?). exists sn. rewrite lookup_delete_ne; [done|lia].
  - intros q. rewrite lookup_delete_is_Some. intros [Hne Hq].
    destruct (Hd q Hq) as [|[?|?]%elem_of_cons]; [by left|done|by right].
Qed.

Lemma unlink_balance c l p d r b k :
  rb (zip (N c l p d r) k) → l = E ∧ b = r ∨ r = E ∧ b = l →
  (c = RED → rb (zip b k)) ∧ (c = BLACK → deficit b k).
Proof.
  intros (n & Hb & Hz & (Hc & Hl & Hr) & Hzn & Hzc)%rb_unzip Hch. simpl in Hzn, Hzc.
  split; intros ->; simpl in Hb.
  - destruct (Hc eq_refl) as [Hcl Hcr].
    assert (n = O ∧ b = E) as [-> ->].
    { destruct Hb as [Hbl Hbr], Hch as [[-> ->]|[-> ->]]; simpl in *; subst; split; try done.
      - by destruct r as [|[]]. - by destruct l as [|[]]. }
    apply rb_zip with O; try done.
    + destruct k as [|f k]; [done|]. simpl in *. naive_solver.
    + by destruct k.
  - destruct n as [|n]; [done|]. constructor; try done.
    + exists n. split; [|done]. destruct Hb, Hch as [[-> ->]|[-> ->]]; done.
    + assert (nrr b) by (destruct Hch as [[-> ->]|[-> ->]]; done). destruct b; [done|].
      simpl in *. naive_solver.
Qed.

(** The end of [_rbt_delete]: the unlinked node is released, and its colour
    decides of the repair. *)
Lemma wp_release q nq b k st ms (Q : Z → _ → _ → Prop) :
  Hp st ((q, nq) :: total b k) → root st = zroot k (rp b) →
  (b = E → sent_parent st (top k)) →
  (color_ nq = RED → rb (zip b k)) → (color_ nq = BLACK → deficit b k) →
  (∀ st' T, Rep st' T [] → rb T → elems T = elems (zip b k) → num st' = num st → Q RBT_OK st' ms) →
  wp (red ← rbt_is_red q;
      if red : bool then dealloc_node q;; mret RBT_OK
      else dealloc_node q;; rbt_delete_fixup (rp b)) Q st ms.
Proof.
  intros H HR Hsp Hred Hblack HQ. wp_steps. unfold rbt_is_red. wp_steps.
  eapply wp_rd; [exact H|]. wp_steps. destruct (color_ nq) eqn:Hc; cbn [is_red]; wp_steps.
  - eapply wp_dealloc; [exact H|]. intros st' H' Hn R' _. wp_steps.
    apply (HQ _ (zip b k)); [apply rep_zip; split; [done|congruence]|auto|done|done].
  - eapply wp_dealloc; [exact H|]. intros st' H' Hn R' Hs'.
    eapply wp_delete_fixup; [split; [exact H'|congruence]|auto| |].
    + intros ->. destruct Hsp as (sn & ? & ?); [done|]. exists sn. by rewrite Hs'.
    + intros st2 T ????. apply (HQ _ T); try done. congruence.
Qed.

Lemma total_zip t k t' k' : zip t k = zip t' k' → total t k ≡ₚ total t' k'.
Proof.
  assert (∀ t k, total (zip t k) [] ≡ₚ total t k) as Hgen.
  { intros u k0. revert u. induction k0 as [|f k0 IH]; intros u; simpl; [done|]. by rewrite IH, total_plug. }
  intros Hz. by rewrite <-Hgen, Hz, Hgen.
Qed.

(** The same when [q] may be the root. *)
Definition unhook (q par child : ptr) : SM (rbt_tree_t D) unit :=
  if SENT =? par then modify (set_root child) else redirect q par child.

Lemma wp_unhook q b k C st ms (Q : unit → _ → _ → Prop) :
  Hp st (zcells k q ++ C) → q ∈ C.*1 → root st = zroot k q →
  (∀ st', Hp st' (zcells k (rp b) ++ C) → num st' = num st →
     heap st' !! SENT = heap st !! SENT → root st' = zroot k (rp b) → Q tt st' ms) →
  wp (unhook q (top k) (rp b)) Q st ms.
Proof.
  intros H Hq HR HQ. unfold unhook. destruct k as [|f k].
  - simpl. wp_steps. apply HQ; [|done..]. by destruct H; constructor.
  - assert (Hpos : SENT < fp f).
    { apply (rb_hp_pos _ _ _ H). rewrite fmap_app. apply elem_of_app. left. destruct f; left. }
    cbn [RbSpec.top]. rewrite (proj2 (Z.eqb_neq _ _)) by lia.
    eapply wp_redirect; [exact H|done|]. intros st' H' [K1 K2 K3 K4] R.
    apply HQ; try done. by rewrite R, HR.
Qed.

Lemma wp_replace c l p d r b k st ms (Q : Z → _ → _ → Prop) :
  Rep st (N c l p d r) k → rb (zip (N c l p d r) k) → l = E ∧ b = r ∨ r = E ∧ b = l →
  (∀ st' T, Rep st' T [] → rb T → elems T = elems (zip b k) → num st' = num st → Q RBT_OK st' ms) →
  wp (rbt_replace p (rp b)) Q st ms.
Proof.
  intros H Hrb Hch HQ. destruct (unlink_balance _ _ _ _ _ _ _ Hrb Hch) as [Hred Hblack].
  unfold rbt_replace. wp_step. eapply wp_rd_focus; [exact H|]. wp_steps. cbn [mk parent].
  rewrite (rep_sent _ _ _ H). set (np := mk c (top k) (rp l) (rp r) d).
  assert (HC : Hp st (cells p b ++ (p, np) :: zcells k p)).
  { destruct H as [H _]. unfold total in H. simpl in H. eapply rb_hp_perm; [|exact H].
    destruct Hch as [[-> ->]|[-> ->]]; simpl; rewrite ?app_nil_r; by rewrite Permutation_middle. }
  eapply wp_set_parent_any; [exact HC|]. intros st1 H1 N1 R1 S1. wp_step.
  eapply (wp_unhook p b k ((p, np) :: cells (top k) b)); [hp_solve H1|left| |].
  { rewrite R1. by destruct H as [_ ->]. }
  intros st2 H2 N2 S2 R2. apply (wp_release p np b k); try done.
  - unfold total. hp_solve H2.
  - intros Hb. destruct (S1 Hb) as (sn & ? & ?). exists sn. by rewrite S2.
  - intros st3 T ????. apply (HQ _ T); try done. congruence.
Qed.

(** The successor: the leftmost node of the right subtree. *)
Lemma wp_leftmost st ms t k (Q : ptr → _ → _ → Prop) fuel :
  Rep st t k → t ≠ E → (height t ≤ fuel)%nat →
  (∀ c q d r k', zip (N c E q d r) k' = t → zleft k' = [] → Rep st (N c E q d r) (k' ++ k) → Q q st ms) →
  wp (loop fuel (λ next, n ← rd next;
        if SENT =? lchild n then mret (inr next) else mret (inl (lchild n))) (rp t)) Q st ms.
Proof.
  intros H Ht Hf HQ.
  assert (∀ fuel u k', Rep st u (k' ++ k) → u ≠ E → (height u ≤ fuel)%nat → zip u k' = t → zleft k' = [] →
    wp (loop fuel (λ next, n ← rd next;
        if SENT =? lchild n then mret (inr next) else mret (inl (lchild n))) (rp u)) Q st ms) as Hgen.
  { clear H Ht Hf fuel. induction fuel as [|fuel IH]; intros u k' H Hu Hf Hz Hl;
      destruct u as [|c l q d r]; simpl in Hf; try done; [lia|].
    apply wp_loop_step. wp_steps. eapply wp_rd_focus; [exact H|]. cbn [mk lchild].
    destruct l as [|lc ll lp ld lr].
    - simpl. wp_steps. by apply (HQ c q d r k').
    - assert (H' : Rep st (N lc ll lp ld lr) (FL c q d r :: k' ++ k)) by (by apply rep_plug).
      cbn [rp]. rewrite (rep_neq_sent _ _ _ _ _ _ _ H'). wp_steps.
      apply (IH (N lc ll lp ld lr) (FL c q d r :: k')); try done. simpl in *. lia. }
  by apply (Hgen fuel t []).
Qed.

Lemma zip_app t k1 k2 : zip t (k1 ++ k2) = zip (zip t k1) k2.
Proof. revert t; induction k1; intros t; simpl; auto. Qed.

(** The successor is unlinked: its data moves to the deleted node [p]. *)
Lemma wp_copy_release c l p d k' k q nq e r' st ms (Q : Z → _ → _ → Prop) :
  let K := k' ++ FR c l p d :: k in
  Hp st ((q, nq) :: total r' K) → root st = zroot k p →
  (r' = E → sent_parent st (top K)) → rb (zip (N (color_ nq) E q e r') K) →
  (∀ st' T, Rep st' T [] → rb T → elems T = (zleft k ++ elems l) ++ e :: elems (zip r' k') ++ zright k →
     num st' = num st → Q RBT_OK st' ms) →
  wp (wr p (set_data e);;
      red ← rbt_is_red q;
      if red : bool then dealloc_node q;; mret RBT_OK
      else dealloc_node q;; rbt_delete_fixup (rp r')) Q st ms.
Proof.
  intros K H HR HS Hrb HQ. set (Ke := k' ++ FR c l p e :: k). set (X := zip r' k').
  assert (HzK : zip r' K = zip (N c l p d X) k) by (unfold K; by rewrite zip_app).
  assert (HzKe : zip r' Ke = zip (N c l p e X) k) by (unfold Ke; by rewrite zip_app).
  assert (Htop : top Ke = top K) by (unfold K, Ke; by destruct k').
  assert (Hroot : zroot Ke (rp r') = zroot k p).
  { unfold Ke. generalize (rp r'). clear. induction k'; intros; simpl; auto. }
  apply wp_bind. rewrite (total_zip _ _ _ _ HzK) in H. apply (rb_hp_perm _ _ _ (perm_swap _ _ _)) in H.
  eapply wp_wr; [exact H|]. intros st1 H1 [N1 _ S1 _] R1.
  apply (rb_hp_perm _ _ _ (perm_swap _ _ _)) in H1.
  apply (wp_release q nq r' Ke).
  - eapply rb_hp_perm; [|exact H1]. constructor. by rewrite (total_zip _ _ _ _ HzKe).
  - congruence.
  - intros HE. destruct (HS HE) as (sn & ? & ?). exists sn. rewrite S1, Htop. done.
  - eapply unlink_balance; [|by left]. unfold K, Ke in *. rewrite zip_app in *. by apply (rb_data _ _ _ d).
  - eapply unlink_balance; [|by left]. unfold K, Ke in *. rewrite zip_app in *. by apply (rb_data _ _ _ d).
  - intros st' T ? ? He ?. apply (HQ _ T); try done; [|congruence].
    rewrite He, HzKe, elems_zip. elems_solve.
Qed.

Lemma wp__rbt_delete c l p d r k st ms (Q : Z → _ → _ → Prop) :
  Rep st (N c l p d r) k → rb (zip (N c l p d r) k) →
  (∀ st' T, Rep st' T [] → rb T → elems T = (zleft k ++ elems l) ++ elems r ++ zright k →
     num st' = num st → Q RBT_OK st' ms) →
  wp (_rbt_delete p) Q st ms.
Proof.
  intros H Hrb HQ. unfold _rbt_delete. wp_step. eapply wp_rd_focus; [exact H|]. wp_steps.
  cbn [mk lchild rchild]. rewrite (rep_sent _ _ _ H).
  destruct (decide (rp l = SENT)) as [Hl|Hl].
  { rewrite Hl, Z.eqb_refl. assert (l = E) as ->.
    { destruct l; [done|]. apply (rep_plug _ _ (FL c p d r)), rep_focus_pos in H; [simpl in *; lia|done]. }
    eapply wp_replace; [exact H|exact Hrb|by left|]. intros st' T ? ? He ?. apply (HQ _ T); try done.
    rewrite He, elems_zip. elems_solve. }
  rewrite (proj2 (Z.eqb_neq SENT (rp l))) by done.
  destruct (decide (rp r = SENT)) as [Hr|Hr].
  { rewrite Hr, Z.eqb_refl. assert (r = E) as ->.
    { destruct r; [done|]. apply (rep_plug _ _ (FR c l p d)), rep_focus_pos in H; [simpl in *; lia|done]. }
    eapply wp_replace; [exact H|exact Hrb|by right|]. intros st' T ? ? He ?. apply (HQ _ T); try done.
    rewrite He, elems_zip. elems_solve. }
  rewrite (proj2 (Z.eqb_neq SENT (rp r))) by done. wp_step. wp_step. cbn beta.
  assert (r ≠ E) as Hre by (by intros ->).
  apply (wp_bind (loop _ _ _)). apply (rep_plug _ r (FR c l p d)) in H.
  eapply wp_leftmost; [exact H|done|pose proof (fuel_enough _ _ _ H); lia|].
  intros c' q e r' k' Hz Hzl H'. set (K := k' ++ FR c l p d :: k) in *.
  assert (∃ f K', K = f :: K') as (f & K' & HK) by (unfold K; destruct k'; simpl; eauto).
  apply wp_bind. eapply wp_rd_focus; [exact H'|]. cbn [mk parent rchild].
  set (nq := mk c' (top K) (rp E) (rp r') e).
  assert (HC : Hp st (cells q r' ++ (q, nq) :: zcells K q)).
  { destruct H' as [H' _]. unfold total in H'. simpl in H'. hp_solve H'. }
  apply wp_bind. eapply wp_set_parent_any; [exact HC|]. intros st1 H1 N1 R1 S1.
  apply wp_bind. rewrite HK in H1. cbn [RbSpec.top] in H1. rewrite HK at 1. cbn [RbSpec.top].
  eapply (wp_redirect q r' f K' ((q, nq) :: cells (fp f) r')); [hp_solve H1|left|].
  intros st2 H2 [N2 _ S2 _] R2. wp_steps.
  apply (wp_copy_release c l p d k' k q nq e r' st2).
  - unfold total. fold K. rewrite HK. cbn [RbSpec.top]. hp_solve H2.
  - rewrite R2, R1. by destruct H as [_ ->].
  - intros HE. destruct (S1 HE) as (sn & ? & ?). exists sn. by rewrite S2.
  - simpl. rewrite zip_app, Hz. exact Hrb.
  - intros st3 T ? ? He ?. apply (HQ _ T); try done; [|congruence].
    rewrite He, <-Hz, !elems_zip, Hzl. elems_solve.
Qed.

Lemma u64_pred n : u64 (u64 (Z.of_nat (S n)) - 1) = u64 (Z.of_nat n).
Proof. unfold u64. rewrite Zminus_mod_idemp_l. f_equal. lia. Qed.

Lemma wp_delete cmp key st (l : list D) ms :
  rb_wf st l → sep cmp key l →
  wp (rbt_delete cmp key) (λ (res : Z * option D) st' ms', ms' = ms ∧ res.1 = RBT_OK ∧
    ∃ l1 l2 : list D, cut cmp key l l1 res.2 l2 ∧ rb_wf st' (l1 ++ l2)) st ms.
Proof.
  intros (T & H & <- & Hrb & Hnum) Hs. unfold rbt_delete. wp_steps. rewrite (rep_root _ _ H).
  apply wp_walk with cmp key (λ _, True); [done| |done|done|pose proof (fuel_enough _ _ _ H); lia].
  intros t k Hz HR Hon _. wp_steps. rewrite (rep_sent _ _ _ HR).
  destruct t as [|c l p d r].
  - change (SENT =? rp E) with true. wp_steps. split_and!; [done|done|].
    eexists _, _. split; [rewrite <-Hz; by apply onpath_miss|].
    exists T. split_and!; try done; rewrite <-Hz, elems_zip in *; done.
  - cbn [rp]. rewrite (rep_neq_sent _ _ _ _ _ _ _ HR). wp_steps. eapply wp_rd_focus; [exact HR|].
    cbn [mk data deref]. wp_steps.
    case_match eqn:Hc; wp_steps.
    + set (st1 := set_num _ st). assert (HR1 : Rep st1 (N c l p d r) k).
      { destruct HR as [HR HRr]. split; [by destruct HR; constructor|done]. }
      eapply wp__rbt_delete; [exact HR1|by rewrite Hz|].
      intros st' T' H' Hrb' He' Hn'. wp_steps. split_and!; [done|done|].
      eexists _, _. split; [rewrite <-Hz; apply onpath_hit; [by rewrite Hz|lia]|].
      exists T'. split_and!; [done|done|done|].
      rewrite Hn'. simpl. rewrite Hnum, <-Hz, elems_zip. simpl.
      etrans; [|apply u64_pred]. do 4 f_equal. repeat (rewrite length_app; simpl). lia.
    + case_match; wp_steps; split_and!; try done; eexists _, _, _, _, _; split; try done;
        [left|right]; split_and!; try done; lia.
Qed.
End Delete.
