(* ===== verification/RbTrav.v ===== *)
(** [rbt_trav] visits the elements in order: its explicit stack holds the path to
    the node under visit, never deeper than its capacity, and the red-black
    balance makes the shortcut over nodes without right child sound. *)
From S2P Require Import Prelude Table RbTree RbSpec RbInsert RbOps RbDelete.
Open Scope Z_scope.

Section Height.
Context {D : Type}.
Implicit Types (t l r : tree D) (k : list (frame D)).

Lemma rb_height t n :
  bal t n → nrr t → (height t ≤ 2 * n + (if decide (col t = RED) then 1 else 0))%nat.
Proof.
  revert n. induction t as [|c l IHl p d r IHr]; intros n Hb Hn; simpl in *; [lia|].
  destruct Hn as (Hc & Hl & Hr). destruct c.
  - destruct Hb as [Hbl Hbr], (Hc eq_refl) as [Hcl Hcr].
    specialize (IHl _ Hbl Hl). specialize (IHr _ Hbr Hr). rewrite Hcl in IHl. rewrite Hcr in IHr.
    simpl in *. lia.
  - destruct n as [|n]; [done|]. destruct Hb as [Hbl Hbr].
    specialize (IHl _ Hbl Hl). specialize (IHr _ Hbr Hr). simpl.
    repeat case_decide; lia.
Qed.

Lemma rb_size t n : bal t n → (2 ^ n ≤ S (length (elems t)))%nat.
Proof.
  revert n. induction t as [|c l IHl p d r IHr]; intros n Hb; simpl in *; [by subst|].
  rewrite length_app. simpl. destruct c.
  - destruct Hb as [Hbl Hbr]. specialize (IHl _ Hbl). lia.
  - destruct n as [|n]; [done|]. destruct Hb as [Hbl Hbr].
    specialize (IHl _ Hbl). specialize (IHr _ Hbr). rewrite Nat.pow_succ_r'. lia.
Qed.

(** A red-black tree of less than 2^64 elements fits the traversal stack. *)
Lemma rb_depth t :
  rb t → Z.of_nat (length (elems t)) < 2 ^ 64 → (height t ≤ RBT_MAX_DEPTH)%nat.
Proof.
  intros ([n Hb] & Hn & Hc) Hlen. pose proof (rb_height _ _ Hb Hn) as Hh.
  rewrite Hc in Hh. rewrite decide_False in Hh by done.
  pose proof (rb_size _ _ Hb) as Hs.
  assert (n ≤ 64)%nat.
  { destruct (decide (n ≤ 64)%nat) as [|Hgt]; [done|].
    assert (2 ^ 65 ≤ 2 ^ n)%nat by (apply Nat.pow_le_mono_r; lia).
    assert (2 ^ 65 ≤ Z.of_nat (2 ^ n)).
    { rewrite Nat2Z.inj_pow. apply (Z.pow_le_mono_r 2 65); lia. }
    change (2 ^ 64) with 18446744073709551616 in Hlen.
    change (2 ^ 65) with 36893488147419103232 in *. lia. }
  unfold RBT_MAX_DEPTH. lia.
Qed.

Lemma height_zip t k : (height t + length k ≤ height (zip t k))%nat.
Proof.
  revert t; induction k as [|f k IH]; intros t; simpl; [lia|].
  specialize (IH (plug t f)). destruct f; simpl in *; lia.
Qed.

Lemma zright_app k1 k2 : zright (k1 ++ k2) = zright k1 ++ zright k2.
Proof. induction k1 as [|[] k1 IH]; simpl; [done|by rewrite IH, app_assoc|done]. Qed.

(** Beside a missing right sibling there is a leaf only. *)
Lemma left_of_hole c l p d k :
  rb (zip (N c l p d E) k) → ∀ c' l' p' d' r', l = N c' l' p' d' r' → l' = E ∧ r' = E.
Proof.
  intros (n & Hb & _ & (_ & Hl & _) & _)%rb_unzip c' l' p' d' r' ->.
  assert (Hb0 : bal (N c' l' p' d' r') 0).
  { destruct c; simpl in Hb; [by destruct Hb; subst|]. destruct n; [done|]. by destruct Hb; subst. }
  destruct c'; [|done]. simpl in Hb0, Hl. destruct Hb0 as [Hbl Hbr], Hl as (Hc & _).
  destruct (Hc eq_refl). by destruct l' as [|[]], r' as [|[]].
Qed.
End Height.

Section Trav.
Context {D Σ : Type} (st : rbt_tree_t D) (T : tree D).
Context (HT : Rep st T []) (Hrb : rb T) (Hdepth : (height T ≤ RBT_MAX_DEPTH)%nat).
Implicit Types (t l r : tree D) (k : list (frame D)) (s : Σ).
#[local] Arguments Z.eqb : simpl never.

Lemma rep_at t k : zip t k = T → Rep st t k.
Proof. intros <-. by apply rep_zip. Qed.

(** The stack at a node whose ancestors are [k]. *)
Definition stack_of k : stack_t := {| stk := fp <$> k; stk_max := RBT_MAX_DEPTH |}.

Lemma push_at t f k : zip t (f :: k) = T → stack_push (stack_of k) (fp f) = stack_of (f :: k).
Proof.
  intros Hz. unfold stack_push, stack_of. cbn [stk stk_max]. rewrite length_fmap.
  pose proof (height_zip t (f :: k)) as Hh. rewrite Hz in Hh. simpl in Hh.
  rewrite (proj2 (Nat.leb_gt _ _)); [done|lia].
Qed.

Lemma gettop_at t f k : zip t (f :: k) = T → stack_gettop (stack_of (f :: k)) = fp f ∧ (fp f =? NULL) = false.
Proof.
  intros Hz. split; [done|]. apply Z.eqb_neq. pose proof (rep_top_pos _ _ _ _ (rep_at _ _ Hz)).
  unfold NULL, SENT in *. lia.
Qed.

Lemma wp_node_of c l p d r k s ms (Q : rbt_node_t D → Σ → mem → Prop) :
  zip (N c l p d r) k = T → Q (mk c (top k) (rp l) (rp r) d) s ms → wp (node_of st p) Q s ms.
Proof.
  intros Hz HQ. destruct (rep_at _ _ Hz) as [H _]. unfold total in H. simpl in H.
  unfold node_of. by rewrite (hp_lookup _ _ _ _ H).
Qed.

Lemma wp_data_of c l p d r k s ms (Q : D → Σ → mem → Prop) :
  zip (N c l p d r) k = T → Q d s ms → wp (data_of st p) Q s ms.
Proof. intros Hz HQ. unfold data_of. wp_steps. by eapply wp_node_of. Qed.

Lemma wp_assert_ro c l p d r k s ms (Q : unit → Σ → mem → Prop) :
  zip (N c l p d r) k = T → Q tt s ms → wp (rbt_assert_ro st p) Q s ms.
Proof.
  intros Hz HQ. unfold rbt_assert_ro.
  destruct (wp_elim (rbt_assert p) (λ _ _ _, True) st []) as (a & s' & ms' & -> & _); [|done].
  by eapply (wp_assert_focus _ _ _ (N c l p d r)), I; apply rep_at.
Qed.

Lemma sent_child t f k : zip t (f :: k) = T → t ≠ E → (SENT =? rp t) = false.
Proof. intros Hz Ht. destruct t as [|c l p d r]; [done|]. by eapply rep_neq_sent, rep_at. Qed.

Lemma wp_push_left t k fuel s ms (Q : ptr * stack_t → Σ → mem → Prop) :
  zip t k = T → t ≠ E → (height t ≤ fuel)%nat →
  (∀ c q d r k', zip (N c E q d r) k' = T → elems t ++ zright k = d :: elems r ++ zright k' →
     Q (q, stack_of k') s ms) →
  wp (loop fuel (λ '(node, sk),
    n ← node_of st node;
    if sentinel st =? lchild n then mret (inr (node, sk)) else
    rbt_assert_ro st node;;
    mret (inl (lchild n, stack_push sk node))) (rp t, stack_of k)) Q s ms.
Proof.
  rewrite (rep_sent _ _ _ HT). revert t k. induction fuel as [|fuel IH]; intros t k Hz Ht Hf HQ;
    destruct t as [|c l q d r]; simpl in Hf; try done; [lia|].
  apply wp_loop_step. wp_steps. eapply wp_node_of; [exact Hz|]. cbn [mk lchild].
  assert (l = E ∨ l ≠ E) as [->|Hl] by (destruct l; auto).
  - change (SENT =? rp E) with true. wp_steps. by apply (HQ c q d r k).
  - rewrite (sent_child l (FL c q d r) k Hz Hl). wp_steps.
    eapply wp_assert_ro; [exact Hz|].
    cbn [rp]. wp_steps. pose proof (push_at l (FL c q d r) k Hz) as Hpush. cbn [fp] in Hpush. rewrite Hpush.
    apply IH; [done|done|lia|]. intros c' q' d' r' k' Hz' He. apply (HQ c' q' d' r' k'); [done|].
    rewrite <-He. simpl. by rewrite <-app_assoc.
Qed.

Lemma wp_push_left' t k s ms (Q : ptr * stack_t → Σ → mem → Prop) :
  zip t k = T → t ≠ E →
  (∀ c q d r k', zip (N c E q d r) k' = T → elems t ++ zright k = d :: elems r ++ zright k' →
     Q (q, stack_of k') s ms) →
  wp (push_left st true (rp t, stack_of k)) Q s ms.
Proof.
  intros Hz Ht HQ. unfold push_left. apply wp_push_left; [done|done| |done].
  pose proof (fuel_enough _ _ _ (rep_at _ _ Hz)). lia.
Qed.
(** The ancestors whose right subtree is finished are popped; the next element
    is that of the first one which has an unvisited right subtree. *)
Lemma wp_pop_done t f k fuel s ms (Q : option (ptr * stack_t) → Σ → mem → Prop) :
  zip t (f :: k) = T → t ≠ E → (length k < fuel)%nat →
  match f with FL _ _ _ r => r ≠ E | FR _ _ _ _ => True end →
  (zright (f :: k) = [] → Q None s ms) →
  (∀ c l q d r k', zip (N c l q d r) k' = T → r ≠ E →
     zright (f :: k) = d :: elems r ++ zright k' → Q (Some (q, stack_of (FR c l q d :: k'))) s ms) →
  wp (loop fuel (λ '(node, par, sk),
    p ← node_of st par;
    if (node =? rchild p) || (sentinel st =? rchild p) then
      let sk := stack_pop sk in
      let node := par in
      let par := stack_gettop sk in
      if par =? NULL then mret (inr None) else mret (inl (node, par, sk))
    else mret (inr (Some (par, sk)))) (rp t, fp f, stack_of (f :: k))) Q s ms.
Proof.
  rewrite (rep_sent _ _ _ HT). revert t f k. induction fuel as [|fuel IH]; intros t f k Hz Ht Hf Hfr HQN HQS; [lia|].
  apply wp_loop_step. wp_step.
  destruct f as [c p d r|c l p d]; cbn [fp].
  - eapply (wp_node_of c t p d r); [exact Hz|]. cbn [mk rchild].
    assert (rp t ≠ rp r).
    { apply (rep_sibling_ne st c t p d r k); [by apply rep_at|by left]. }
    rewrite (proj2 (Z.eqb_neq (rp t) (rp r))) by done.
    rewrite (sent_child r (FR c t p d) k Hz Hfr). wp_steps.
    by apply (HQS c t p d r k).
  - eapply (wp_node_of c l p d t); [exact Hz|]. cbn [mk rchild]. rewrite Z.eqb_refl. cbn [orb]. cbv zeta.
    destruct k as [|f k].
    + change (stack_gettop (stack_pop (stack_of [FR c l p d])) =? NULL) with true. wp_steps. by apply HQN.
    + change (stack_pop (stack_of (FR c l p d :: f :: k))) with (stack_of (f :: k)).
      destruct (gettop_at (N c l p d t) f k Hz) as [-> ->]. wp_steps.
      apply (IH (N c l p d t) f k); try done; [simpl in Hf; lia|].
      destruct f as [c' p' d' r'|]; [|done]. intros ->.
      destruct (left_of_hole c' (N c l p d t) p' d' k) with c l p d t as [_ ?]; try done.
      simpl in Hz. by rewrite Hz.
Qed.

Section Proc.
Context (proc : D → SM Σ unit) (Q : unit → Σ → mem → Prop).

(** The state of the outer loop: at [t], with [n] elements or less to go. *)
Definition todo (n : nat) (x : ptr * stack_t) s ms : Prop :=
  ∃ t k, x = (rp t, stack_of k) ∧ zip t k = T ∧ t ≠ E ∧
    (length (elems t ++ zright k) < n)%nat ∧ wp (for_each proc (elems t ++ zright k)) Q s ms.

Definition next (n : nat) (o : ptr * stack_t + unit) s ms : Prop :=
  match o with inl x => todo n x s ms | inr _ => Q tt s ms end.

Lemma wp_for_each_cons d ds s ms :
  wp (for_each proc (d :: ds)) Q s ms → wp (proc d) (λ _, wp (for_each proc ds) Q) s ms.
Proof. intros H. by apply wp_bind_inv in H. Qed.

(** Visit the head of the list, in the program and in the specification. *)
Ltac visit H :=
  apply wp_for_each_cons in H; eapply wp_mono; [exact H|]; clear H;
  let s1 := fresh "s" in let ms1 := fresh "ms" in intros [] s1 ms1 H; wp_steps.

Lemma wp_resume t f k n s ms :
  zip t (f :: k) = T → t ≠ E →
  match f with FL _ _ _ r => r ≠ E | FR _ _ _ _ => True end →
  (length (zright (f :: k)) ≤ n)%nat → wp (for_each proc (zright (f :: k))) Q s ms →
  wp (o ← pop_done st (rp t, fp f, stack_of (f :: k));
      match o with
      | None => mret (inr tt)
      | Some (par, sk) =>
          pd ← data_of st par; proc pd;; p ← node_of st par; mret (inl (rchild p, sk))
      end) (next n) s ms.
Proof.
  intros Hz Ht Hf Hn HQ. wp_step. unfold pop_done.
  apply wp_pop_done; [done|done| |done| |].
  - pose proof (fuel_enough _ _ _ (rep_at _ _ Hz)) as Hfuel. simpl in Hfuel. lia.
  - intros HE. wp_steps. rewrite HE in HQ. exact HQ.
  - intros c l q d r k' Hz' Hr HE. wp_steps. rewrite HE in HQ, Hn.
    eapply wp_data_of; [exact Hz'|]. wp_steps. visit HQ.
    eapply wp_node_of; [exact Hz'|]. wp_steps.
    exists r, (FR c l q d :: k'). split_and!; try done.
Qed.

Lemma wp_trav_step t k s ms :
  zip t k = T → t ≠ E → wp (for_each proc (elems t ++ zright k)) Q s ms →
  wp (trav_step st proc (rp t, stack_of k)) (next (length (elems t ++ zright k))) s ms.
Proof.
  intros Hz Ht HQ. unfold trav_step. rewrite (rep_sent _ _ _ HT).
  destruct t as [|c0 l0 p0 d0 r0]; [done|]. cbn [rp]. rewrite (rep_neq_sent _ _ _ _ _ _ _ (rep_at _ _ Hz)).
  wp_step. eapply (wp_push_left' (N c0 l0 p0 d0 r0)); [exact Hz|done|].
  intros c q d r k1 Hz1 He. rewrite He in HQ |- *. clear Hz Ht He c0 l0 p0 d0 r0. wp_steps.
  eapply wp_data_of; [exact Hz1|]. wp_steps. visit HQ.
  eapply wp_node_of; [exact Hz1|]. wp_steps. cbn [mk rchild].
  assert (r = E ∨ r ≠ E) as [->|Hr] by (destruct r; auto); cbn [rp elems length app] in *.
  2: { rewrite (sent_child r (FR c E q d) k1 Hz1 Hr). cbn [negb]. wp_steps.
       pose proof (push_at r (FR c E q d) k1 Hz1) as Hp. cbn [fp] in Hp. rewrite Hp.
       exists r, (FR c E q d :: k1). split_and!; try done. simpl. lia. }
  rewrite Z.eqb_refl. cbn [negb]. destruct k1 as [|f k1].
  { change (stack_gettop (stack_of []) =? NULL) with true. wp_steps. exact HQ. }
  destruct (gettop_at (N c E q d E) f k1 Hz1) as [-> ->]. wp_step.
  destruct f as [c' p' d' r'|c' l' p' d']; cbn [fp].
  - eapply (wp_node_of c' (N c E q d E) p' d' r' k1); [exact Hz1|]. cbn [mk lchild rchild rp].
    rewrite Z.eqb_refl. wp_steps. eapply (wp_data_of c' (N c E q d E) p' d' r' k1); [exact Hz1|].
    wp_steps. cbn [zright] in HQ. visit HQ.
    assert (r' = E ∨ r' ≠ E) as [->|Hr'] by (destruct r'; auto).
    2: { rewrite (sent_child r' (FR c' (N c E q d E) p' d') k1 Hz1 Hr'). cbn [negb]. wp_steps.
         exists r', (FR c' (N c E q d E) p' d' :: k1). split_and!; try done. simpl. lia. }
    change (SENT =? rp E) with true. cbn [negb]. cbv zeta.
    change (stack_pop (stack_of (FL c' p' d' E :: k1))) with (stack_of k1). destruct k1 as [|f k1].
    { change (stack_gettop (stack_of []) =? NULL) with true. wp_steps. exact HQ. }
    destruct (gettop_at (N c' (N c E q d E) p' d' E) f k1 Hz1) as [-> ->]. wp_steps. apply wp_bind_inv.
    apply (wp_resume (N c' (N c E q d E) p' d' E) f k1); try done; [|simpl; lia].
    destruct f as [c2 p2 d2 r2|]; [|done]. intros ->.
    destruct (left_of_hole c2 (N c' (N c E q d E) p' d' E) p2 d2 k1) with c' (N c E q d E) p' d' (E (D := D)) as [? _];
      try done. simpl in Hz1. by rewrite Hz1.
  - eapply (wp_node_of c' l' p' d' (N c E q d E) k1); [exact Hz1|]. cbn [mk lchild rchild rp].
    rewrite (proj2 (Z.eqb_neq (rp l') q)).
    2: { apply (rep_sibling_ne st c' l' p' d' (N c E q d E) k1); [by apply rep_at|by right]. }
    wp_steps. apply wp_bind_inv.
    apply (wp_resume (N c E q d E) (FR c' l' p' d') k1); try done. simpl. lia.
Qed.

Lemma wp_rbt_trav s ms :
  wp (for_each proc (elems T)) Q s ms → wp (rbt_trav st proc) Q s ms.
Proof.
  intros HQ. unfold rbt_trav. rewrite (rep_root _ _ HT), (rep_sent _ _ _ HT).
  assert (T = E ∨ T ≠ E) as [HE|HE] by (destruct T; auto).
  { rewrite HE in *. exact HQ. }
  assert ((SENT =? rp T) = false) as ->.
  { destruct T; [done|]. by eapply rep_neq_sent. }
  assert (∀ fuel x s ms, todo fuel x s ms → wp (loop fuel (trav_step st proc) x) Q s ms) as Hgen.
  { clear HQ s ms. induction fuel as [|fuel IH]; intros x s ms (t & k & -> & Hz & Ht & Hn & HQ); [lia|].
    apply wp_loop_step. eapply wp_mono; [by apply wp_trav_step|].
    intros [x|[]] s1 ms1; [|done]. intros (t' & k' & ? & ? & ? & ? & ?). apply IH.
    exists t', k'. split_and!; try done. lia. }
  apply Hgen. exists T, []. split_and!; try done; simpl; rewrite app_nil_r; [|done].
  unfold tree_fuel. destruct HT as [HH _]. rewrite (tree_hp_size _ _ HH). unfold total.
  simpl. rewrite app_nil_r, length_cells. lia.
Qed.
End Proc.
End Trav.

Lemma rb_wf_trav {D Σ} (t : rbt_tree_t D) (l : list D) (proc : D → SM Σ unit) s ms Q :
  rb_wf t l → Z.of_nat (length l) < 2 ^ 64 →
  wp (for_each proc l) Q s ms → wp (rbt_trav t proc) Q s ms.
Proof.
  intros (T & H & <- & Hrb & _) Hlen HQ. apply wp_rbt_trav with T; [done|done| |done].
  by apply rb_depth.
Qed.

(** * [rbt_destroy] releases every node exactly once, in postfix order, and leaves
    an empty heap: no link of a released node is followed *)

Section Postfix.
Context {D : Type}.
Implicit Types (t l r : tree D) (k : list (frame D)).

Fixpoint pelems t : list D :=
  match t with E => [] | N _ l _ d r => pelems l ++ pelems r ++ [d] end.

(** The data still to release once the subtree at the hole has been. *)
Fixpoint post k : list D :=
  match k with
  | [] => []
  | FL _ _ d r :: k' => pelems r ++ d :: post k'
  | FR _ _ _ d :: k' => d :: post k'
  end.

(** The cells still live: the left subtrees of the context are released. *)
Fixpoint dcells k (q : ptr) : list (ptr * rbt_node_t D) :=
  match k with
  | [] => []
  | FL c p d r :: k' => (p, mk c (top k') q (rp r) d) :: cells p r ++ dcells k' p
  | FR c l p d :: k' => (p, mk c (top k') (rp l) q d) :: dcells k' p
  end.

Lemma pelems_perm t : pelems t ≡ₚ elems t.
Proof.
  induction t as [|c l IHl p d r IHr]; simpl; [done|].
  rewrite IHl, IHr. by rewrite (Permutation_app_comm (elems r)).
Qed.

Lemma length_dcells k q : (length k ≤ length (dcells k q))%nat.
Proof. revert q; induction k as [|[] k IH]; intros q; simpl; [done|..]; rewrite ?length_app; specialize (IH p); lia. Qed.

Lemma hp_only_sent (st : rbt_tree_t D) : Hp st [] → delete SENT (heap st) = ∅.
Proof.
  intros H. apply map_eq. intros p. rewrite lookup_empty, lookup_delete.
  case_decide; [done|]. destruct (heap st !! p) eqn:Hp; [|done].
  destruct (hp_dom _ _ H p) as [|Hin]; [by eexists|congruence|]. by apply elem_of_nil in Hin.
Qed.
End Postfix.

Section Destroy.
Context {D Σ : Type} (dealloc : D → SM Σ unit) (Q : unit → Σ → mem → Prop).
Context (st0 : rbt_tree_t D) (T : tree D).
Context (HT : Rep st0 T []) (Hrb : rb T) (Hdepth : (height T ≤ RBT_MAX_DEPTH)%nat).
Implicit Types (t l r : tree D) (k : list (frame D)) (u : Σ) (st : rbt_tree_t D).
#[local] Arguments Z.eqb : simpl never.

Lemma wp_on_tree {A} (m : SM (rbt_tree_t D) A) st u ms (R : A → rbt_tree_t D * Σ → mem → Prop) :
  wp m (λ a st', R a (st', u)) st ms → wp (on_tree m) R (st, u) ms.
Proof. intros H. by apply wp_zoom. Qed.

Lemma wp_on_user {A} (m : SM Σ A) st u ms (R : A → rbt_tree_t D * Σ → mem → Prop) :
  wp m (λ a u', R a (st, u')) u ms → wp (on_user m) R (st, u) ms.
Proof. intros H. by apply wp_zoom. Qed.

(** Releasing the node at the head of the live cells: the head of the list of
    data to release. *)
Lemma wp_free_node p c par lc rc d C ds st u ms (R : unit → rbt_tree_t D * Σ → mem → Prop) :
  Hp st ((p, mk c par lc rc d) :: C) → wp (for_each dealloc (d :: ds)) Q u ms →
  (∀ st' u' ms', Hp st' C → wp (for_each dealloc ds) Q u' ms' → R tt (st', u') ms') →
  wp (free_node dealloc p) R (st, u) ms.
Proof.
  intros H HQ HR. unfold free_node. wp_steps. apply wp_on_tree. eapply wp_rd; [exact H|]. wp_steps.
  cbn [mk data deref]. wp_steps. apply wp_on_user. apply wp_for_each_cons in HQ.
  eapply wp_mono; [exact HQ|]. intros [] u' ms' HQ'. apply wp_on_tree.
  eapply wp_dealloc; [exact H|]. intros. by apply HR.
Qed.

Lemma wp_free_sentinel st u ms (R : unit → rbt_tree_t D * Σ → mem → Prop) :
  Hp st [] → (∀ st', heap st' = ∅ → R tt (st', u) ms) → wp free_sentinel R (st, u) ms.
Proof.
  intros H HR. unfold free_sentinel. wp_steps. simpl. rewrite (hp_sent _ _ H). apply wp_on_tree.
  unfold dealloc_node. wp_steps. eapply wp_rd_sent; [exact H|]. intros. wp_steps.
  apply HR. simpl. by apply hp_only_sent.
Qed.

(** The live heap at the focus [t] in [k]. *)
Definition live_at st t k : Prop := Hp st (cells (top k) t ++ dcells k (rp t)).

Lemma live_fuel st t k : live_at st t k → (height t + length k < tree_fuel st)%nat.
Proof.
  intros H. unfold tree_fuel. rewrite (tree_hp_size _ _ H), length_app, length_cells.
  pose proof (height_cells t). pose proof (length_dcells k (rp t)). lia.
Qed.

Lemma wp_destroy_push t k st u ms (R : ptr * stack_t → rbt_tree_t D * Σ → mem → Prop) :
  zip t k = T → t ≠ E → live_at st t k →
  (∀ c q d r k', zip (N c E q d r) k' = T → live_at st (N c E q d r) k' →
     elems t ++ zright k = d :: elems r ++ zright k' → pelems t ++ post k = pelems r ++ d :: post k' →
     R (q, stack_of k') (st, u) ms) →
  wp (destroy_push (rp t, stack_of k)) R (st, u) ms.
Proof.
  intros Hz Ht H HR. unfold destroy_push. wp_steps. cbn [fst]. rewrite (hp_sent _ _ H).
  assert (Hf : (height t ≤ tree_fuel st)%nat) by (pose proof (live_fuel _ _ _ H); lia).
  revert Hf. generalize (tree_fuel st). intros fuel. revert t k Hz Ht H HR.
  induction fuel as [|fuel IH]; intros t k Hz Ht H HR Hf;
    destruct t as [|c l q d r]; simpl in Hf; try done; [lia|].
  apply wp_loop_step. cbn [rp]. wp_steps. apply wp_on_tree. eapply wp_rd; [exact H|]. cbn [mk lchild].
  assert (l = E ∨ l ≠ E) as [->|Hl] by (destruct l; auto).
  - change (SENT =? rp E) with true. wp_steps. apply (HR c q d r k); try done.
    simpl. by rewrite <-app_assoc.
  - rewrite (sent_child st0 T HT Hrb Hdepth l (FL c q d r) k Hz Hl). wp_steps.
    pose proof (push_at T Hdepth l (FL c q d r) k Hz) as Hpush. cbn [fp] in Hpush. rewrite Hpush.
    apply IH; [done|done| | |lia].
    + unfold live_at in *. simpl in *. hp_solve H.
    + intros c' q' d' r' k' Hz' H' He Hp. apply (HR c' q' d' r' k'); try done.
      * rewrite <-He. simpl. by rewrite <-app_assoc.
      * rewrite <-Hp. simpl. by rewrite <-!app_assoc.
Qed.

(** The inner loop: the node at the focus is the last live one of its subtree. *)
Definition last_at st c l p d r k : Prop :=
  Hp st ((p, mk c (top k) (rp l) (rp r) d) :: dcells k p).

Definition popped (n : nat) (o : option (ptr * ptr * stack_t)) st u ms : Prop :=
  match o with
  | None => Q tt u ms ∧ heap st = ∅
  | Some x => ∃ c l p d r c' p' d' r' k,
      x = (p, p', stack_of (FL c' p' d' r' :: k)) ∧ zip (N c l p d r) (FL c' p' d' r' :: k) = T ∧
      r' ≠ E ∧ last_at st c l p d r (FL c' p' d' r' :: k) ∧
      (length (zright (FL c' p' d' r' :: k)) ≤ n)%nat ∧
      wp (for_each dealloc (d :: pelems r' ++ d' :: post k)) Q u ms
  end.

Lemma wp_destroy_pop fuel c l p d r f k st u ms n :
  zip (N c l p d r) (f :: k) = T → last_at st c l p d r (f :: k) → (length k < fuel)%nat →
  (length (zright (f :: k)) ≤ n)%nat →
  wp (for_each dealloc (d :: post (f :: k))) Q u ms →
  wp (loop fuel (destroy_pop_step dealloc) (p, fp f, stack_of (f :: k)))
    (λ o s, popped n o s.1 s.2) (st, u) ms.
Proof.
  revert c l p d r f k st u ms. induction fuel as [|fuel IH];
    intros c l p d r f k st u ms Hz H Hf Hn HQ; [lia|].
  apply wp_loop_step. unfold destroy_pop_step at 1. wp_steps. apply wp_on_tree.
  pose proof (rep_at st0 T HT Hrb Hdepth _ _ Hz) as Hst. unfold last_at in H.
  (* the parent is finished too when [p] is its right child or it has none *)
  assert (Hpop : ∀ c' l' p' d' r',
    Hp st ((p, mk c p' (rp l) (rp r) d) :: (p', mk c' (top k) (rp l') (rp r') d') :: dcells k p') →
    zip (N c' l' p' d' r') k = T → p' = fp f → (length (zright k) ≤ n)%nat →
    wp (for_each dealloc (d :: d' :: post k)) Q u ms →
    wp (let sk := stack_pop (stack_of (f :: k)) in
        free_node dealloc p;;
        let node := p' in
        let par := stack_gettop sk in
        if par =? NULL then free_node dealloc node;; free_sentinel;; mret (inr None)
        else mret (inl (node, par, sk)))
      (λ o, match o with
         | inl a' => wp (loop fuel (destroy_pop_step dealloc) a') (λ o s, popped n o s.1 s.2)
         | inr b => λ s, popped n b s.1 s.2
         end) (st, u) ms).
  { clear H Hn HQ. intros c' l' p' d' r' H Hz' -> Hn HQ. cbv zeta. wp_step.
    eapply wp_free_node; [exact H|exact HQ|]. clear H HQ. intros st' u' ms' H HQ.
    change (stack_pop (stack_of (f :: k))) with (stack_of k). destruct k as [|f2 k].
    - change (stack_gettop (stack_of []) =? NULL) with true. cbn beta iota. wp_step.
      eapply wp_free_node; [exact H|exact HQ|]. intros st2 u2 ms2 H2 HQ2. wp_step.
      eapply wp_free_sentinel; [exact H2|]. intros st3 He. wp_steps. by split.
    - destruct (gettop_at st0 T HT Hrb Hdepth _ f2 k Hz') as [-> ->]. wp_steps.
      apply (IH c' l' (fp f) d' r' f2 k); try done. simpl in Hf. lia. }
  destruct f as [c' p' d' r'|c' l' p' d']; cbn [fp].
  - simpl in H. apply (wp_rd p' (mk c' (top k) p (rp r') d')
      ((p, mk c p' (rp l) (rp r) d) :: cells p' r' ++ dcells k p')); [hp_solve H|].
    wp_steps. cbn [fst mk rchild]. rewrite (hp_sent _ _ H).
    assert (r' = E ∨ r' ≠ E) as [->|Hr'] by (destruct r'; auto).
    { change (SENT =? rp E) with true. rewrite orb_true_r.
      apply (Hpop c' (N c l p d r) p' d' E); try done. simpl in Hn. lia. }
    assert (p ≠ rp r').
    { apply (rep_sibling_ne st0 c' (N c l p d r) p' d' r' k); [by apply (rep_plug _ _ (FL c' p' d' r'))|by left]. }
    rewrite (proj2 (Z.eqb_neq p (rp r'))) by done.
    rewrite (sent_child st0 T HT Hrb Hdepth r' (FR c' (N c l p d r) p' d') k Hz Hr'). wp_steps.
    exists c, l, p, d, r, c', p', d', r', k. by split_and!.
  - simpl in H. apply (wp_rd p' (mk c' (top k) (rp l') p d')
      ((p, mk c p' (rp l) (rp r) d) :: dcells k p')); [hp_solve H|].
    wp_steps. cbn [fst mk rchild]. rewrite Z.eqb_refl. cbn [orb].
    apply (Hpop c' l' p' d' (N c l p d r)); try done.
Qed.

(** The outer loop, at a subtree wholly live. *)
Definition dtodo (n : nat) (x : ptr * stack_t) (s : rbt_tree_t D * Σ) ms : Prop :=
  ∃ t k, x = (rp t, stack_of k) ∧ zip t k = T ∧ t ≠ E ∧ live_at s.1 t k ∧
    (length (elems t ++ zright k) < n)%nat ∧ wp (for_each dealloc (pelems t ++ post k)) Q s.2 ms.

Definition dnext (n : nat) (o : ptr * stack_t + unit) (s : rbt_tree_t D * Σ) ms : Prop :=
  match o with inl x => dtodo n x s ms | inr _ => Q tt s.2 ms ∧ heap s.1 = ∅ end.

(** Going to the right sibling once the left subtree is released. *)
Lemma wp_to_sibling c l p d r c' p' d' r' k st u ms n :
  zip (N c l p d r) (FL c' p' d' r' :: k) = T → r' ≠ E → last_at st c l p d r (FL c' p' d' r' :: k) →
  (length (zright (FL c' p' d' r' :: k)) ≤ n)%nat →
  wp (for_each dealloc (d :: pelems r' ++ d' :: post k)) Q u ms →
  wp (free_node dealloc p;; q ← on_tree (rd p');
      mret (inl (rchild q, stack_of (FL c' p' d' r' :: k)))) (dnext n) (st, u) ms.
Proof.
  intros Hz Hr H Hn HQ. wp_step. unfold last_at in H.
  eapply wp_free_node; [exact H|exact HQ|]. clear H HQ. intros st' u' ms' H HQ. simpl in H.
  wp_step. apply wp_on_tree. eapply wp_rd; [exact H|]. wp_steps. cbn [mk rchild].
  exists r', (FR c' (N c l p d r) p' d' :: k). split_and!; try done.
  unfold live_at. simpl. hp_solve H.
Qed.

Lemma wp_destroy_up c l p d r f k st u ms n :
  zip (N c l p d r) (f :: k) = T → last_at st c l p d r (f :: k) →
  (length (zright (f :: k)) ≤ n)%nat → wp (for_each dealloc (d :: post (f :: k))) Q u ms →
  wp (s ← get;
      o ← loop (tree_fuel s.1) (destroy_pop_step dealloc) (p, fp f, stack_of (f :: k));
      match o with
      | None => mret (inr tt)
      | Some (node, par, sk) =>
          free_node dealloc node;; q ← on_tree (rd par); mret (inl (rchild q, sk))
      end) (dnext n) (st, u) ms.
Proof.
  intros Hz H Hn HQ. wp_steps. cbn [fst]. eapply wp_mono.
  { apply (wp_destroy_pop (tree_fuel st) c l p d r f k st u ms n); try done.
    unfold tree_fuel. rewrite (tree_hp_size _ _ H). pose proof (length_dcells (f :: k) p). simpl in *. lia. }
  intros [[[node par] sk]|] [st' u'] ms' Hp; cbn [popped fst snd] in Hp.
  - destruct Hp as (c2 & l2 & p2 & d2 & r2 & c' & p' & d' & r' & k' & Heq & Hz' & Hr' & H' & Hn' & HQ').
    simplify_eq. by apply (wp_to_sibling c2 l2 p2 d2 r2 c' p' d' r' k').
  - by wp_steps.
Qed.

Lemma wp_destroy_step t k st u ms :
  zip t k = T → t ≠ E → live_at st t k → wp (for_each dealloc (pelems t ++ post k)) Q u ms →
  wp (destroy_step dealloc (rp t, stack_of k)) (dnext (length (elems t ++ zright k))) (st, u) ms.
Proof.
  intros Hz Ht H HQ. unfold destroy_step. wp_steps. cbn [fst]. rewrite (hp_sent _ _ H).
  assert ((SENT =? rp t) = false) as ->.
  { destruct t; [done|]. by eapply rep_neq_sent, (rep_at st0 T HT Hrb Hdepth). }
  wp_step. eapply wp_destroy_push; [exact Hz|done|exact H|].
  intros c q d r k1 Hz1 H1 He Hp. rewrite He. rewrite Hp in HQ. clear Hz Ht H He Hp t k. wp_steps.
  apply wp_on_tree. unfold live_at in H1. simpl in H1. eapply wp_rd; [exact H1|]. cbn [mk rchild].
  assert (r = E ∨ r ≠ E) as [->|Hr] by (destruct r; auto).
  2: { rewrite (sent_child st0 T HT Hrb Hdepth r (FR c E q d) k1 Hz1 Hr). cbn [negb]. wp_steps.
       pose proof (push_at T Hdepth r (FR c E q d) k1 Hz1) as Hpush. cbn [fp] in Hpush. rewrite Hpush.
       exists r, (FR c E q d :: k1). split_and!; try done; [|simpl; lia].
       unfold live_at. simpl. hp_solve H1. }
  change (SENT =? rp E) with true. cbn [negb]. cbv zeta. cbn [pelems app] in HQ.
  assert (Hl : last_at st c E q d E k1) by exact H1. destruct k1 as [|f k1].
  { change (stack_gettop (stack_of []) =? NULL) with true. cbn beta iota. wp_step.
    eapply wp_free_node; [exact H1|exact HQ|]. intros st2 u2 ms2 H2 HQ2. wp_step.
    eapply wp_free_sentinel; [exact H2|]. intros st3 He. wp_steps. by split. }
  destruct (gettop_at st0 T HT Hrb Hdepth (N c E q d E) f k1 Hz1) as [-> ->]. wp_step. apply wp_on_tree.
  destruct f as [c' p' d' r'|c' l' p' d']; cbn [fp].
  - simpl in H1. apply (wp_rd p' (mk c' (top k1) q (rp r') d')
      ((q, mk c p' SENT SENT d) :: cells p' r' ++ dcells k1 p')); [hp_solve H1|].
    cbn [mk lchild rchild]. rewrite Z.eqb_refl. cbn [andb].
    assert (r' = E ∨ r' ≠ E) as [->|Hr'] by (destruct r'; auto).
    + change (SENT =? rp E) with true. cbn [negb].
      apply (wp_destroy_up c E q d E (FL c' p' d' E) k1); try done. simpl. lia.
    + rewrite (sent_child st0 T HT Hrb Hdepth r' (FR c' (N c E q d E) p' d') k1 Hz1 Hr'). cbn [negb]. wp_step.
      eapply wp_free_node; [exact H1|exact HQ|]. intros st' u' ms' H' HQ'. wp_steps.
      exists r', (FR c' (N c E q d E) p' d' :: k1). split_and!; try done; [|simpl; lia].
      unfold live_at. simpl. hp_solve H'.
  - simpl in H1. apply (wp_rd p' (mk c' (top k1) (rp l') q d') ((q, mk c p' SENT SENT d) :: dcells k1 p'));
      [hp_solve H1|]. cbn [mk lchild rchild].
    rewrite (proj2 (Z.eqb_neq (rp l') q)).
    2: { apply (rep_sibling_ne st0 c' l' p' d' (N c E q d E) k1); [|by right].
         by apply (rep_at st0 T HT Hrb Hdepth). }
    cbn [andb]. apply (wp_destroy_up c E q d E (FR c' l' p' d') k1); try done. simpl. lia.
Qed.

Lemma wp_rbt_destroy u ms :
  wp (for_each dealloc (pelems T)) Q u ms →
  wp (rbt_destroy dealloc) (λ _ s ms', Q tt s.2 ms' ∧ heap s.1 = ∅) (st0, u) ms.
Proof.
  intros HQ. unfold rbt_destroy. wp_steps. cbn [fst]. rewrite (rep_root _ _ HT), (rep_sent _ _ _ HT).
  assert (HC : Hp st0 (cells SENT T)).
  { destruct HT as [H _]. unfold total in H. simpl in H. by rewrite app_nil_r in H. }
  assert (T = E ∨ T ≠ E) as [HE|HE] by (destruct T; auto).
  { rewrite HE in *. change (SENT =? rp E) with true. cbn beta iota.
    eapply wp_free_sentinel; [exact HC|]. intros. by split. }
  assert ((SENT =? rp T) = false) as ->.
  { destruct T; [done|]. by eapply rep_neq_sent. }
  assert (∀ fuel x s ms, dtodo fuel x s ms →
    wp (loop fuel (destroy_step dealloc) x) (λ _ s ms', Q tt s.2 ms' ∧ heap s.1 = ∅) s ms) as Hgen.
  { clear HQ u ms. induction fuel as [|fuel IH];
      intros x [st u] ms (t & k & -> & Hz & Ht & HL & Hn & HQ); [lia|].
    apply wp_loop_step. eapply wp_mono; [by apply wp_destroy_step|].
    intros [x|[]] s1 ms1; [|done]. intros (t' & k' & ? & ? & ? & ? & ? & ?). apply IH.
    exists t', k'. split_and!; try done. lia. }
  apply Hgen. exists T, []. split_and!; try done; simpl; rewrite ?app_nil_r; try done.
  - unfold live_at. simpl. by rewrite app_nil_r.
  - unfold tree_fuel. rewrite (tree_hp_size _ _ HC), length_cells. lia.
Qed.
End Destroy.

(** On a well-formed tree [rbt_destroy] calls [dealloc] once on every element and
    leaves no node. *)
Lemma rb_wf_destroy {D Σ} (t : rbt_tree_t D) (l : list D) (dealloc : D → SM Σ unit) :
  rb_wf t l → Z.of_nat (length l) < 2 ^ 64 →
  ∃ ds, ds ≡ₚ l ∧ ∀ (Q : unit → Σ → mem → Prop) u ms,
    wp (for_each dealloc ds) Q u ms →
    wp (rbt_destroy dealloc) (λ _ s ms', Q tt s.2 ms' ∧ heap s.1 = ∅) (t, u) ms.
Proof.
  intros (T & H & <- & Hrb & _) Hlen. exists (pelems T). split; [apply pelems_perm|].
  intros Q u ms HQ. eapply wp_rbt_destroy; [done|done|by apply rb_depth|done].
Qed.
