(* ===== verification/RbTable.v ===== *)
(** [rb_tree.c] implements the interface of the search trees. *)
From S2P Require Import Prelude Table RbTree RbSpec RbInsert RbOps RbDelete RbTrav.
Open Scope Z_scope.

(** ** The red-black tree implements the interface of the search trees *)

(** [rbt_destroy] seen from its caller, whose tree is gone afterwards. *)
Definition destroy_with {D Σ} (t : rbt_tree_t D) (dealloc : D → SM Σ unit) : SM Σ unit :=
  zoom (λ u, (t, u)) (λ s _, s.2) (rbt_destroy dealloc).

#[export] Instance rbt_ops : TreeOps rbt_tree_t := {
  tr_creat D Σ := rbt_creat;
  tr_insert D := rbt_insert;
  tr_query D := rbt_query;
  tr_store D := rbt_store;
  tr_delete D := rbt_delete;
  tr_trav D Σ := rbt_trav;
  tr_destroy D Σ := destroy_with;
  tr_num D := rbt_num;
  tr_wf D := rb_wf;
}.

Lemma rb_wf_creat {D} :
  rb_wf (D := D) {| num := 0; root := 1; sentinel := 1;
    heap := {[ 1 := {| color_ := BLACK; parent := NULL; lchild := NULL; rchild := NULL; data := None |} ]};
    brk := 2 |} [].
Proof.
  exists E. split_and!; [|done|by split_and!; [exists O| |]|done].
  split; [|done]. constructor; simpl; try done; try by constructor.
  - by eexists.
  - intros p [n [<- _]%lookup_singleton_Some]. by left.
Qed.

#[export] Instance rbt_laws : TreeLaws rbt_tree_t.
Proof.
  split.
  - intros D Σ s. unfold tr_creat. simpl. unfold rbt_creat, wp. simpl.
    split_and!; [done|done|]. eexists. split; [done|]. apply rb_wf_creat.
  - intros. by apply wp_insert.
  - intros D cmp d t l ms (T & H & <- & _) Hs. by apply wp_query.
  - intros. by apply wp_store.
  - intros. by apply wp_delete.
  - by intros D t l (? & _ & _ & _ & ?).
  - intros. by eapply rb_wf_trav.
  - intros D Σ t l dealloc Hwf Hlen.
    destruct (rb_wf_destroy t l dealloc Hwf Hlen) as (ds & Hds & H).
    exists ds. split; [done|]. intros Q u ms HQ. unfold tr_destroy. simpl. unfold destroy_with.
    apply wp_zoom. eapply wp_mono; [by apply H|]. by intros [] s ms' [? _].
Qed.
