(* ===== verification/RbProps.v ===== *)
(** What [lib/core/rb_tree.c] promises: the operations on an ordered list of data,
    with the red-black invariant and the shape of the heap kept by each of them. *)
From S2P Require Import Prelude Table RbTree RbSpec RbInsert RbOps RbDelete RbTrav RbTable.
Open Scope Z_scope.

Section Props.
Context {D K : Type} (key : D → K) (dom : D → Prop) (cmp : D → D → Z).
Context (law : cmp_law key dom cmp).

Lemma cut_none_keys d l l1 l2 :
  dom d → Forall dom l → cut cmp d l l1 None l2 → Forall (λ x, key x ≠ key d) l.
Proof.
  intros Hd Hl Hc. rewrite Forall_forall in Hl. apply Forall_forall. intros x Hx Hk.
  apply (cut_miss _ _ _ _ _ x Hc Hx). apply (cmp_zero _ _ _ law); auto.
Qed.

Lemma cut_some_key d l l1 x l2 :
  dom d → Forall dom l → cut cmp d l l1 (Some x) l2 → x ∈ l ∧ key x = key d.
Proof.
  intros Hd Hl Hc. assert (Hx : x ∈ l) by (rewrite (cut_eq _ _ _ _ _ _ Hc); set_solver).
  split; [done|]. rewrite Forall_forall in Hl. symmetry. apply (cmp_zero _ _ _ law); auto.
  by apply (cut_hit _ _ _ _ _ _ Hc).
Qed.

(** C19: insertion.  A datum of the same key in the tree refuses the new one and
    nothing changes; a failed allocation leaves the data as they are; else the tree
    is again a red-black tree, and holds the datum besides the others, in order. *)
Theorem rbt_insert_spec d st l ms :
  rb_wf st l → sorted cmp l → Forall dom l → dom d →
  wp (rbt_insert cmp d) (λ r st' ms',
    (r = RBT_NODE_EXIST ∧ st' = st ∧ ms' = ms ∧ Exists (λ x, key x = key d) l) ∨
    (Forall (λ x, key x ≠ key d) l ∧ ms' = tail ms ∧
      if decide (head ms = Some false) then r = RBT_ERR ∧ rb_wf st' l
      else r = RBT_OK ∧ ∃ l', rb_wf st' l' ∧ sorted cmp l' ∧ l' ≡ₚ d :: l)) st ms.
Proof.
  intros Hwf Hs Hl Hd. eapply wp_mono; [apply wp_insert; [done|by eapply sorted_sep]|].
  intros r st' ms' [(l1 & x & l2 & Hc & -> & -> & ->)|(l1 & l2 & Hc & -> & Hr)]; [left|right].
  - split_and!; [done..|]. apply Exists_exists. exists x. by eapply cut_some_key.
  - split_and!; [by eapply cut_none_keys|done|]. case_decide; [done|]. destruct Hr as [-> Hr].
    split; [done|]. exists (l1 ++ d :: l2). split_and!; [done|by eapply cut_sorted|].
    rewrite (cut_eq _ _ _ _ _ _ Hc). simpl. by rewrite Permutation_middle.
Qed.

(** C18: deletion takes out the datum of the key and returns it, or changes
    nothing when there is none; the tree is again a red-black tree, its node is
    freed, and no allocation takes place. *)
Theorem rbt_delete_spec d st l ms :
  rb_wf st l → sorted cmp l → Forall dom l → dom d →
  wp (rbt_delete cmp d) (λ r st' ms', ms' = ms ∧ r.1 = RBT_OK ∧ ∃ l', rb_wf st' l' ∧ sorted cmp l' ∧
    match r.2 with
    | Some x => key x = key d ∧ l ≡ₚ x :: l'
    | None => l' = l ∧ Forall (λ x, key x ≠ key d) l
    end) st ms.
Proof.
  intros Hwf Hs Hl Hd. eapply wp_mono; [apply wp_delete; [done|by eapply sorted_sep]|].
  intros [code r] st' ms' (-> & Hcode & l1 & l2 & Hc & Hr). split_and!; [done..|]. exists (l1 ++ l2).
  pose proof (cut_eq _ _ _ _ _ _ Hc) as Heq. cbn [fst snd] in *. destruct r as [x|]; simpl in Heq.
  - split_and!; [done|rewrite Heq in Hs; by eapply sorted_delete|by eapply cut_some_key|].
    by rewrite Heq, Permutation_middle.
  - subst l. split_and!; [done|done|done|]. by eapply cut_none_keys.
Qed.

(** A query finds the datum of the key, and only that. *)
Theorem rbt_query_spec d st l ms :
  rb_wf st l → sorted cmp l → Forall dom l → dom d →
  wp (rbt_query cmp d) (λ r st' ms', st' = st ∧ ms' = ms ∧
    match r with
    | Some x => x ∈ l ∧ key x = key d
    | None => Forall (λ x, key x ≠ key d) l
    end) st ms.
Proof.
  intros (T & H & <- & Hrb & _) Hs Hl Hd. eapply wp_mono; [apply (wp_query cmp d st T); [done|by eapply sorted_sep]|].
  intros r st' ms' (-> & -> & l1 & l2 & Hc). split_and!; [done..|].
  destruct r as [x|]; [by eapply cut_some_key|by eapply cut_none_keys].
Qed.
End Props.

(** The height of a red-black tree of [n] data is at most [2 log2 (n + 1)]; so
    the stacks of 512 entries hold the nodes of every path of a tree of less than
    2^64 data. *)
Theorem rbt_height {D} (st : rbt_tree_t D) l :
  rb_wf st l → ∃ T, Rep st T [] ∧ elems T = l ∧ (2 ^ height T ≤ (S (length l)) ^ 2)%nat ∧
    (Z.of_nat (length l) < 2 ^ 64 → (height T ≤ RBT_MAX_DEPTH)%nat).
Proof.
  intros (T & H & <- & Hrb & _). exists T. split_and!; [done|done| |by apply rb_depth].
  destruct Hrb as ([n Hb] & Hn & Hc). pose proof (rb_height _ _ Hb Hn) as Hh. pose proof (rb_size _ _ Hb) as Hs.
  rewrite Hc, decide_False in Hh by done.
  transitivity (2 ^ (2 * n))%nat; [apply Nat.pow_le_mono_r; lia|].
  rewrite Nat.mul_comm, Nat.pow_mul_r. by apply Nat.pow_le_mono_l.
Qed.

(** C22: the traversal with the bounded stack is the loop over the data in order,
    whatever the callback does to its own state. *)
Theorem rbt_trav_spec {D Σ} (st : rbt_tree_t D) l (proc : D → SM Σ unit) Q s ms :
  rb_wf st l → Z.of_nat (length l) < 2 ^ 64 →
  wp (for_each proc l) Q s ms → wp (rbt_trav st proc) Q s ms.
Proof. apply rb_wf_trav. Qed.

(** C23: the destruction gives each datum to [dealloc] once and frees every node. *)
Theorem rbt_destroy_spec {D} (st : rbt_tree_t D) l (log : list D) ms :
  rb_wf st l → Z.of_nat (length l) < 2 ^ 64 →
  wp (rbt_destroy (λ d, modify (λ log, log ++ [d]))) (λ _ s ms', ms' = ms ∧ heap s.1 = ∅ ∧
    ∃ ds, s.2 = log ++ ds ∧ ds ≡ₚ l) (st, log) ms.
Proof.
  intros Hwf Hlen. destruct (rb_wf_destroy st l (λ d, modify (λ log, log ++ [d])) Hwf Hlen) as (ds & Hds & HQ).
  eapply wp_mono; [apply (HQ (λ _ log' ms', ms' = ms ∧ log' = log ++ ds))|].
  - clear. revert log. induction ds as [|d ds IH]; intros log; simpl; [wp_step; by rewrite app_nil_r|].
    wp_steps. eapply wp_mono; [apply IH|]. intros [] s ms'. by rewrite <-app_assoc.
  - intros [] s ms' [[-> ->] Hh]. split_and!; [done|done|]. by exists ds.
Qed.

(** ** Witnesses *)

Definition zcmp (x y : Z) : Z := x - y.

Lemma zcmp_law : cmp_law id (λ _, True) zcmp.
Proof. by constructor; unfold zcmp, id; intros; lia. Qed.

(** A tree of these numbers. *)
Lemma built (ds : list Z) : NoDup ds → ∃ st l, rb_wf st l ∧ sorted zcmp l ∧ l ≡ₚ ds.
Proof.
  induction ds as [|d ds IH]; intros Hn.
  - eexists _, []. split_and!; [apply rb_wf_creat|constructor|done].
  - apply NoDup_cons in Hn as [Hd Hn]. destruct (IH Hn) as (st & l & Hwf & Hs & Hl).
    assert (Hall : Forall (λ _ : Z, True) l) by by apply Forall_true.
    destruct (wp_elim _ _ _ _ (wp_insert zcmp d st l [] Hwf (sorted_sep _ _ _ zcmp_law _ _ I Hall Hs)))
      as (r & st' & ms' & _ & [(l1 & x & l2 & Hc & _)|(l1 & l2 & Hc & _ & _ & Hwf')]).
    + destruct (cut_some_key _ _ _ zcmp_law _ _ _ _ _ I Hall Hc) as [Hx Hk]. unfold id in Hk. subst x.
      by rewrite Hl in Hx.
    + exists st', (l1 ++ d :: l2). split_and!; [done|by eapply cut_sorted; [exact zcmp_law|..]|].
      rewrite <-Hl, (cut_eq _ _ _ _ _ _ Hc). simpl. by rewrite Permutation_middle.
Qed.

Lemma built_perm ds st l : rb_wf (D := Z) st l → l ≡ₚ ds → Z.of_nat (length ds) < 2 ^ 64 → Z.of_nat (length l) < 2 ^ 64.
Proof. by intros _ ->. Qed.

Definition demo : list Z := [5; 3; 8; 1; 4; 7; 9].

Lemma demo_built : ∃ st l, rb_wf st l ∧ sorted zcmp l ∧ l ≡ₚ demo.
Proof. apply built. by apply (bool_decide_unpack _); vm_compute. Qed.

Lemma rbt_insert_spec_witness : ∃ st l, rb_wf st l ∧ l ≡ₚ demo ∧
  wp (rbt_insert zcmp 6) (λ r st' ms',
      (r = RBT_NODE_EXIST ∧ st' = st ∧ ms' = [] ∧ Exists (λ x, id x = id 6) l) ∨
      (Forall (λ x, id x ≠ id 6) l ∧ ms' = tail [] ∧
        if decide (head (A := bool) [] = Some false) then r = RBT_ERR ∧ rb_wf st' l
        else r = RBT_OK ∧ ∃ l', rb_wf st' l' ∧ sorted zcmp l' ∧ l' ≡ₚ 6 :: l)) st [].
Proof.
  destruct demo_built as (st & l & Hwf & Hs & Hl). exists st, l. split; [exact Hwf|]. split; [exact Hl|].
  apply (rbt_insert_spec id (λ _, True) zcmp zcmp_law 6); [exact Hwf|exact Hs|by apply Forall_true|done].
Defined.

Lemma rbt_delete_spec_witness : ∃ st l, rb_wf st l ∧ l ≡ₚ demo ∧
  wp (rbt_delete zcmp 5) (λ r st' ms', ms' = [] ∧ r.1 = RBT_OK ∧ ∃ l', rb_wf st' l' ∧ sorted zcmp l' ∧
      match r.2 with
      | Some x => id x = id 5 ∧ l ≡ₚ x :: l'
      | None => l' = l ∧ Forall (λ x, id x ≠ id 5) l
      end) st [].
Proof.
  destruct demo_built as (st & l & Hwf & Hs & Hl). exists st, l. split; [exact Hwf|]. split; [exact Hl|].
  apply (rbt_delete_spec id (λ _, True) zcmp zcmp_law 5); [exact Hwf|exact Hs|by apply Forall_true|done].
Defined.

Lemma rbt_query_spec_witness : ∃ st l, rb_wf st l ∧ l ≡ₚ demo ∧
  wp (rbt_query zcmp 4) (λ r st' ms', st' = st ∧ ms' = [] ∧
      match r with
      | Some x => x ∈ l ∧ id x = id 4
      | None => Forall (λ x, id x ≠ id 4) l
      end) st [].
Proof.
  destruct demo_built as (st & l & Hwf & Hs & Hl). exists st, l. split; [exact Hwf|]. split; [exact Hl|].
  apply (rbt_query_spec id (λ _, True) zcmp zcmp_law 4); [exact Hwf|exact Hs|by apply Forall_true|done].
Defined.

Lemma rbt_height_witness : ∃ st l T, l ≡ₚ demo ∧ Rep st T [] ∧ elems T = l ∧ (height T ≤ RBT_MAX_DEPTH)%nat.
Proof.
  destruct demo_built as (st & l & Hwf & Hs & Hl). exists st, l.
  destruct (rbt_height st l Hwf) as (T & HT & He & _ & Hd). exists T. split; [exact Hl|].
  split; [exact HT|]. split; [exact He|]. apply Hd. by apply (built_perm demo st).
Defined.

Lemma rbt_trav_spec_witness : ∃ st l, rb_wf st l ∧ l ≡ₚ demo ∧
  wp (rbt_trav st (λ d, modify (λ n, n + d))) (λ _ n _, n = 37) 0 [].
Proof.
  destruct demo_built as (st & l & Hwf & Hs & Hl). exists st, l. split; [exact Hwf|]. split; [exact Hl|].
  apply (rbt_trav_spec st l); [exact Hwf|by apply (built_perm demo st)|].
  assert (Hsum : ∀ l n, wp (for_each (λ d, modify (λ n, n + d)) l) (λ _ n' _, n' = n + foldr Z.add 0 l) n []).
  { clear. induction l as [|d l IH]; intros n; simpl; [wp_step; lia|]. wp_steps.
    eapply wp_mono; [apply IH|]. intros; simpl in *; lia. }
  eapply wp_mono; [apply Hsum|]. intros [] n _ ->.
  assert (foldr Z.add 0 l = foldr Z.add 0 demo) as ->; [|done].
  clear - Hl. induction Hl; simpl; lia.
Defined.

Lemma rbt_destroy_spec_witness : ∃ st l, rb_wf st l ∧ l ≡ₚ demo ∧
  wp (rbt_destroy (λ d, modify (λ log, log ++ [d]))) (λ _ s ms', ms' = [] ∧ heap s.1 = ∅ ∧
    ∃ ds, s.2 = [] ++ ds ∧ ds ≡ₚ l) (st, []) [].
Proof.
  destruct demo_built as (st & l & Hwf & Hs & Hl). exists st, l. split; [exact Hwf|]. split; [exact Hl|].
  apply (rbt_destroy_spec st l); [exact Hwf|by apply (built_perm demo st)].
Defined.
