(* ===== verification/HashTab.v ===== *)
(** The hash table of [lib/core/hash_tab.c]: an array of search trees, each with
    its read-write lock, over any implementation of the trees ([TreeOps]).  The
    second half shows that it refines a finite map from keys to data. *)
From stdpp Require Import fin_maps gmap.
From S2P Require Import Prelude Table.
Open Scope Z_scope.

(** [lock_e]. *)
Inductive lock_e := NONLOCK | RDLOCK | WRLOCK.
#[global] Instance lock_e_eq_dec : EqDecision lock_e.
Proof. solve_decision. Defined.

(** A [pthread_rwlock_t] as seen by the only thread of the model: the read locks
    it holds, and whether it holds the write lock. *)
Record rwlock := { readers : nat; writer : bool }.
Definition idle : rwlock := {| readers := 0; writer := false |}.

(** Taking a lock the thread itself holds in a conflicting mode never returns;
    releasing a lock that is not held is undefined. *)
Definition rwlock_rdlock (l : rwlock) : outcome rwlock :=
  if writer l then Blocked else Ok {| readers := S (readers l); writer := false |}.
Definition rwlock_wrlock (l : rwlock) : outcome rwlock :=
  if writer l then Blocked else
  match readers l with O => Ok {| readers := 0; writer := true |} | S _ => Blocked end.
Definition rwlock_unlock (l : rwlock) : outcome rwlock :=
  if writer l then Ok {| readers := readers l; writer := false |} else
  match readers l with O => Crash | S n => Ok {| readers := n; writer := false |} end.

(** [hash_tab_t] (the callbacks are arguments of the operations). *)
Record hash_tab_t (T : Type → Type) (D : Type) := HashTab {
  len : Z; total : Z; tree : list (T D); lock : list rwlock }.
Arguments HashTab {_ _} _ _ _ _.
Arguments len {_ _} _.
Arguments total {_ _} _.
Arguments tree {_ _} _.
Arguments lock {_ _} _.

Section Ops.
Context {T : Type → Type} `{TreeOps T} {D : Type}.
Abbreviation tab := (hash_tab_t T D).
Context (hash : D → Z) (cmp : D → D → Z).

Definition set_total (n : Z) (h : tab) : tab := HashTab (len h) n (tree h) (lock h).
Definition set_tree (i : nat) (t : T D) (h : tab) : tab :=
  HashTab (len h) (total h) (<[i := t]> (tree h)) (lock h).
Definition set_lock (i : nat) (l : rwlock) (h : tab) : tab :=
  HashTab (len h) (total h) (tree h) (<[i := l]> (lock h)).

Definition lock_op (f : rwlock → outcome rwlock) (idx : nat) : SM tab unit :=
  h ← get;
  l ← deref (lock h !! idx);
  match f l with
  | Ok l' => put (set_lock idx l' h)
  | Blocked => blocked
  | Crash => crash
  | NoFuel => nofuel
  end.

Definition _hash_tab_lock (idx : nat) (lk : lock_e) : SM tab unit :=
  match lk with
  | WRLOCK => lock_op rwlock_wrlock idx
  | RDLOCK => lock_op rwlock_rdlock idx
  | NONLOCK => mret tt
  end.

Definition _hash_tab_unlock (idx : nat) (lk : lock_e) : SM tab unit :=
  match lk with
  | WRLOCK | RDLOCK => lock_op rwlock_unlock idx
  | NONLOCK => mret tt
  end.

(** [idx = htab->hash(key) % htab->len]: the hash is an [int64_t], the result an
    [unsigned int]; a division by zero is undefined. *)
Definition slot_idx (key : D) : SM tab nat :=
  h ← get;
  cassert (negb (len h =? 0));;
  mret (Z.to_nat (u32 (Z.rem (i64 (hash key)) (len h)))).

(** Run a tree operation on [htab->tree[idx]]. *)
Definition on_slot {A} (idx : nat) (m : SM (T D) A) : SM tab A := λ h ms,
  match tree h !! idx with
  | None => Crash
  | Some t =>
      match m t ms with
      | Ok (a, t', ms') => Ok (a, set_tree idx t' h, ms')
      | Blocked => Blocked
      | Crash => Crash
      | NoFuel => NoFuel
      end
  end.

Definition hash_tab_unlock (key : D) (lk : lock_e) : SM tab unit :=
  idx ← slot_idx key;
  match lk with
  | WRLOCK | RDLOCK => lock_op rwlock_unlock idx
  | NONLOCK => mret tt
  end.

Definition hash_tab_insert (d : D) (lk : lock_e) : SM tab Z :=
  idx ← slot_idx d;
  _hash_tab_lock idx lk;;
  ret ← on_slot idx (tr_insert cmp d);
  (if ret =? 0 then modify (λ h, set_total (u64 (total h + 1)) h) else mret tt);;
  _hash_tab_unlock idx lk;;
  mret ret.

(** The lock stays held when the key is found. *)
Definition hash_tab_query (key : D) (lk : lock_e) : SM tab (option D) :=
  idx ← slot_idx key;
  _hash_tab_lock idx lk;;
  data ← on_slot idx (tr_query cmp key);
  match data with
  | None => _hash_tab_unlock idx lk;; mret None
  | Some d => mret (Some d)
  end.

(** The writes made through the pointer a query returned. *)
Definition hash_tab_store (key : D) (f : D → D) : SM tab unit :=
  idx ← slot_idx key; on_slot idx (tr_store cmp key f).

Definition hash_tab_delete (key : D) (lk : lock_e) : SM tab (option D) :=
  idx ← slot_idx key;
  _hash_tab_lock idx lk;;
  '(_, data) ← on_slot idx (tr_delete cmp key);
  (match data with
   | Some _ => modify (λ h, set_total (u64 (total h - 1)) h)
   | None => mret tt
   end);;
  _hash_tab_unlock idx lk;;
  mret data.
End Ops.

(** ** Creation *)

Section Creat.
Context {T : Type → Type} `{TreeOps T} {D Σ : Type}.

(** The loop that creates the trees: [None] when one cannot be. *)
Fixpoint creat_trees (n : nat) : SM Σ (option (list (T D))) :=
  match n with
  | O => mret (Some [])
  | S n' =>
      t ← tr_creat;
      match t with
      | None => mret None
      | Some t =>
          ts ← creat_trees n';
          mret ((λ ts, t :: ts) <$> ts)
      end
  end.

(** The three allocations, then the trees; on failure everything is given back. *)
Definition hash_tab_creat (n : Z) : SM Σ (option (hash_tab_t T D)) :=
  ok ← malloc;
  if negb ok then mret None else
  ok ← malloc;
  if negb ok then mret None else
  ok ← malloc;
  if negb ok then mret None else
  ts ← creat_trees (Z.to_nat n);
  match ts with
  | None => mret None
  | Some ts => mret (Some (HashTab n 0 ts (replicate (Z.to_nat n) idle)))
  end.
End Creat.

(** ** Traversal and destruction

    The table is reached through a getter and a setter from the state [Σ] on which
    the callback runs, which may hold the table itself. *)
Section Trav.
Context {T : Type → Type} `{TreeOps T} {D Σ : Type}.
Abbreviation tab := (hash_tab_t T D).
Context (g : Σ → tab) (p : tab → Σ → Σ).

Definition trav_slot (idx : nat) (proc : D → SM Σ unit) (lk : lock_e) : SM Σ unit :=
  zoom g p (_hash_tab_lock idx lk);;
  h ← gets g;
  t ← deref (tree h !! idx);
  tr_trav t proc;;
  zoom g p (_hash_tab_unlock idx lk).

Definition hash_tab_trav (proc : D → SM Σ unit) (lk : lock_e) : SM Σ unit :=
  h ← gets g;
  for_each (λ idx, trav_slot idx proc lk) (seq 0 (Z.to_nat (len h))).

Definition hash_tab_trav_slot (hash : D → Z) (key : D) (proc : D → SM Σ unit) (lk : lock_e) : SM Σ unit :=
  idx ← zoom g p (slot_idx hash key);
  trav_slot idx proc lk.

Definition destroy_slot (idx : nat) (dealloc : D → SM Σ unit) : SM Σ unit :=
  zoom g p (lock_op rwlock_wrlock idx);;
  h ← gets g;
  t ← deref (tree h !! idx);
  tr_destroy t dealloc;;
  zoom g p (lock_op rwlock_unlock idx).

Definition hash_tab_destroy (dealloc : D → SM Σ unit) : SM Σ unit :=
  h ← gets g;
  for_each (λ idx, destroy_slot idx dealloc) (seq 0 (Z.to_nat (len h))).

(** Work on the datum a query of [key] found, in place: [m] sees it next to the
    state it belongs to. *)
Definition with_data {A} (hash : D → Z) (cmp : D → D → Z) (key : D) (m : SM (D * Σ) A) : SM Σ A := λ s ms,
  match (idx ← slot_idx hash key; on_slot idx (tr_query cmp key)) (g s) ms with
  | Ok (Some d, _, ms1) =>
      match m (d, s) ms1 with
      | Ok (a, (d', s'), ms2) =>
          (zoom g p (hash_tab_store hash cmp key (λ _, d'));; mret a) s' ms2
      | Blocked => Blocked
      | Crash => Crash
      | NoFuel => NoFuel
      end
  | Ok (None, _, _) | Crash => Crash
  | Blocked => Blocked
  | NoFuel => NoFuel
  end.
End Trav.

(** ** Locks *)

Definition granted (lk : lock_e) (l : rwlock) : Prop :=
  match lk with
  | NONLOCK => True
  | RDLOCK => writer l = false
  | WRLOCK => l = idle
  end.

Definition acquire (lk : lock_e) (l : rwlock) : rwlock :=
  match lk with
  | NONLOCK => l
  | RDLOCK => {| readers := S (readers l); writer := false |}
  | WRLOCK => {| readers := 0; writer := true |}
  end.

(** The lock of slot [i] can be taken in the mode [lk]. *)
Definition free_at (L : list rwlock) (i : nat) (lk : lock_e) : Prop :=
  ∃ l, L !! i = Some l ∧ granted lk l.

Definition locked (i : nat) (lk : lock_e) (L : list rwlock) : list rwlock := alter (acquire lk) i L.

Lemma length_locked i lk L : length (locked i lk L) = length L.
Proof. apply length_alter. Qed.

Lemma granted_idle lk : granted lk idle.
Proof. by destruct lk. Qed.

Lemma free_replicate n i lk : (i < n)%nat → free_at (replicate n idle) i lk.
Proof. intros. exists idle. split; [by apply lookup_replicate_2|apply granted_idle]. Qed.

(** ** Refinement of a finite map *)

Section Refine.
Context {T : Type → Type} `{TreeLaws T} {D K : Type} `{Countable K}.
Context (key : D → K) (dom : D → Prop) (hash : D → Z) (cmp : D → D → Z).
Abbreviation tab := (hash_tab_t T D).

Class HashOk : Prop := {
  hash_range : ∀ d, dom d → 0 ≤ hash d < 2 ^ 63;
  hash_key : ∀ x y, dom x → dom y → key x = key y → hash x = hash y;
  hash_cmp : cmp_law key dom cmp;
}.
Context `{!HashOk}.

Definition slot (n : Z) (d : D) : nat := Z.to_nat (hash d mod n).

(** The slot [i] holds, in order, the data of [m] whose hash leads there. *)
Record slot_ok (n : Z) (m : gmap K D) (i : nat) (l : list D) : Prop := {
  so_sorted : sorted cmp l;
  so_elem : ∀ d, d ∈ l ↔ m !! key d = Some d ∧ slot n d = i;
}.

(** The table represents [m], its locks being in the states [L]. *)
Record hrep (h : tab) (m : gmap K D) (L : list rwlock) : Prop := {
  hr_len : 0 < len h < 2 ^ 31;
  hr_tree : length (tree h) = Z.to_nat (len h);
  hr_nlock : length L = Z.to_nat (len h);
  hr_lock : lock h = L;
  hr_total : total h = u64 (Z.of_nat (size m));
  hr_dom : map_Forall (λ k d, key d = k ∧ dom d) m;
  hr_slot : ∀ i t, tree h !! i = Some t → ∃ l, tr_wf t l ∧ slot_ok (len h) m i l;
}.

Lemma so_dom h m L i l : hrep h m L → slot_ok (len h) m i l → Forall dom l.
Proof.
  intros Hr Hs. apply Forall_forall. intros d Hd. apply (so_elem _ _ _ _ Hs) in Hd as [Hm _].
  by destruct (hr_dom _ _ _ Hr _ _ Hm).
Qed.

Lemma hr_key h m L k d : hrep h m L → m !! k = Some d → key d = k ∧ dom d.
Proof. intros Hr. apply (hr_dom _ _ _ Hr). Qed.

Lemma slot_lt h m L d : hrep h m L → (slot (len h) d < Z.to_nat (len h))%nat.
Proof.
  intros Hr. pose proof (hr_len _ _ _ Hr). unfold slot.
  pose proof (Z.mod_pos_bound (hash d) (len h)). lia.
Qed.

(** *** The slot of a key and its lock *)

Lemma wp_slot_idx h m L d (Q : nat → tab → mem → Prop) ms :
  hrep h m L → dom d → Q (slot (len h) d) h ms → wp (slot_idx hash d) Q h ms.
Proof.
  intros Hr Hd HQ. unfold slot_idx. wp_steps. pose proof (hr_len _ _ _ Hr).
  rewrite (proj2 (Z.eqb_neq _ _)) by lia. simpl. wp_steps.
  pose proof (hash_range _ Hd) as Hh.
  assert (Z.to_nat (u32 (Z.rem (i64 (hash d)) (len h))) = slot (len h) d) as ->; [|done].
  unfold slot. f_equal. assert (i64 (hash d) = hash d) as ->.
  { unfold i64. rewrite Z.mod_small by lia. lia. }
  rewrite Z.rem_mod_nonneg by lia. unfold u32. apply Z.mod_small.
  pose proof (Z.mod_pos_bound (hash d) (len h)). lia.
Qed.


Lemma hrep_set_lock h m L i l' : hrep h m L → hrep (set_lock i l' h) m (<[i := l']> L).
Proof. intros []. constructor; simpl; rewrite ?length_insert; congruence || done. Qed.

Lemma wp_lock h m L i lk (Q : unit → tab → mem → Prop) ms :
  hrep h m L → free_at L i lk →
  (∀ h', hrep h' m (locked i lk L) → len h' = len h → tree h' = tree h → Q tt h' ms) →
  wp (_hash_tab_lock i lk) Q h ms.
Proof.
  intros Hr (l & Hl & Hg) HQ.
  assert (Hacq : ∀ f, f l = Ok (acquire lk l) → wp (lock_op f i) Q h ms).
  { intros f Hf. unfold lock_op. wp_steps. rewrite (hr_lock _ _ _ Hr), Hl. cbn [deref]. wp_steps.
    rewrite Hf. unfold put, wp. apply HQ; [|done..].
    assert (locked i lk L = <[i := acquire lk l]> L) as ->.
    { unfold locked. apply list_eq. intros j. destruct (decide (i = j)) as [->|Hij].
      - rewrite list_lookup_alter_eq, Hl, list_lookup_insert_eq; [done|]. by eapply lookup_lt_Some.
      - by rewrite list_lookup_alter_ne, list_lookup_insert_ne. }
    by apply hrep_set_lock. }
  destruct lk; simpl in *.
  - wp_steps. apply HQ; [|done..]. unfold locked, acquire.
    assert (alter (λ l : rwlock, l) i L = L) as ->; [|done].
    apply list_alter_id. done.
  - apply Hacq. unfold rwlock_rdlock. by rewrite Hg.
  - apply Hacq. subst l. done.
Qed.

Lemma wp_unlock h m L i lk (Q : unit → tab → mem → Prop) ms :
  hrep h m (locked i lk L) → free_at L i lk →
  (∀ h', hrep h' m L → len h' = len h → tree h' = tree h → Q tt h' ms) →
  wp (_hash_tab_unlock i lk) Q h ms.
Proof.
  intros Hr (l & Hl & Hg) HQ.
  assert (Hrel : rwlock_unlock (acquire lk l) = Ok l → wp (lock_op rwlock_unlock i) Q h ms).
  { intros Hf. unfold lock_op. wp_steps.
    assert (Hlk : locked i lk L !! i = Some (acquire lk l)).
    { unfold locked. by rewrite list_lookup_alter_eq, Hl. }
    rewrite (hr_lock _ _ _ Hr), Hlk. cbn [deref]. wp_steps.
    rewrite Hf. unfold put, wp. apply HQ; [|done..].
    assert (L = <[i := l]> (locked i lk L)) as ->.
    { unfold locked. apply list_eq. intros j. destruct (decide (i = j)) as [->|Hij].
      - rewrite list_lookup_insert_eq; [done|]. rewrite length_alter. by eapply lookup_lt_Some.
      - by rewrite list_lookup_insert_ne, list_lookup_alter_ne. }
    by apply hrep_set_lock. }
  destruct lk; simpl in *.
  - wp_steps. apply HQ; [|done..]. unfold locked, acquire in Hr.
    assert (alter (λ l : rwlock, l) i L = L) as He; [|by rewrite He in Hr].
    apply list_alter_id. done.
  - apply Hrel. destruct l as [n w]. simpl in *. by subst.
  - apply Hrel. by subst.
Qed.

Lemma wp_hash_tab_unlock h m L d lk (Q : unit → tab → mem → Prop) ms :
  dom d → hrep h m (locked (slot (len h) d) lk L) → free_at L (slot (len h) d) lk →
  (∀ h', hrep h' m L → len h' = len h → Q tt h' ms) →
  wp (hash_tab_unlock hash d lk) Q h ms.
Proof.
  intros Hd Hr Hf HQ. unfold hash_tab_unlock. wp_steps. eapply wp_slot_idx; [exact Hr|done|].
  apply (wp_unlock h m L _ lk); [done|done|]. intros. by apply HQ.
Qed.

(** *** One slot *)

Lemma wp_on_slot {A} h m L i (op : SM (T D) A) (Q : A → tab → mem → Prop) ms :
  hrep h m L → (i < Z.to_nat (len h))%nat →
  (∀ t l, tr_wf t l → slot_ok (len h) m i l → sorted cmp l → Forall dom l →
     wp op (λ a t', Q a (set_tree i t' h)) t ms) →
  wp (on_slot i op) Q h ms.
Proof.
  intros Hr Hi HQ. rewrite <-(hr_tree _ _ _ Hr) in Hi. apply lookup_lt_is_Some_2 in Hi as [t Ht].
  destruct (hr_slot _ _ _ Hr _ _ Ht) as (l & Hwf & Hs).
  specialize (HQ t l Hwf Hs (so_sorted _ _ _ _ Hs) (so_dom _ _ _ _ _ Hr Hs)).
  unfold wp, on_slot in *. rewrite Ht. by destruct (op t ms) as [[[a t'] ms']| | |].
Qed.

Lemma hrep_set_tree h m m' L i t' l' n :
  hrep h m L → tr_wf t' l' → slot_ok (len h) m' i l' →
  map_Forall (λ k d, key d = k ∧ dom d) m' → n = u64 (Z.of_nat (size m')) →
  (∀ j l, j ≠ i → slot_ok (len h) m j l → slot_ok (len h) m' j l) →
  hrep (set_total n (set_tree i t' h)) m' L.
Proof.
  intros Hr Hwf Hs Hdom Hn Hother. destruct Hr as [R1 R2 R3 R4 R5 R6 R7].
  constructor; simpl; rewrite ?length_insert; try done.
  intros j t. rewrite list_lookup_insert_Some. intros [(-> & -> & _)|[Hne Ht]]; [by exists l'|].
  destruct (R7 _ _ Ht) as (l & ? & ?). exists l. split; [done|]. by apply Hother.
Qed.

(** A tree rewritten without change of its list. *)
Lemma hrep_same_tree h m L i t' l :
  hrep h m L → tr_wf t' l → slot_ok (len h) m i l → hrep (set_tree i t' h) m L.
Proof.
  intros Hr Hwf Hs. pose proof (hrep_set_tree h m m L i t' l (total h) Hr Hwf Hs) as H'.
  apply H'; try done; apply Hr.
Qed.

(** Where the search of [d] cuts the list of its slot tells whether the map has
    its key. *)
Lemma slot_cut h m L d l l1 o l2 :
  hrep h m L → dom d → slot_ok (len h) m (slot (len h) d) l → cut cmp d l l1 o l2 →
  o = m !! key d.
Proof.
  intros Hr Hd Hs Hc. destruct o as [x|].
  - pose proof (cut_hit _ _ _ _ _ _ Hc x eq_refl) as Hx.
    assert (Hin : x ∈ l).
    { rewrite (cut_eq _ _ _ _ _ _ Hc). simpl. set_solver. }
    apply (so_elem _ _ _ _ Hs) in Hin as [Hm _]. destruct (hr_key _ _ _ _ _ Hr Hm) as [_ Hdx].
    apply (cmp_zero _ _ _ hash_cmp) in Hx; [|done..]. by rewrite Hx.
  - destruct (m !! key d) as [x|] eqn:Hm; [|done]. exfalso.
    destruct (hr_key _ _ _ _ _ Hr Hm) as [Hk Hdx].
    assert (Hin : x ∈ l).
    { apply (so_elem _ _ _ _ Hs). rewrite Hk. split; [done|].
      unfold slot. by rewrite (hash_key x d). }
    apply (cut_miss _ _ _ _ _ _ Hc) in Hin. apply Hin.
    by apply (cmp_zero _ _ _ hash_cmp).
Qed.

Lemma slot_same_key n x y : dom x → dom y → key x = key y → slot n x = slot n y.
Proof. intros. unfold slot. by rewrite (hash_key x y). Qed.

(** *** Insertion *)

Lemma slot_ok_insert h m L d l l1 l2 :
  hrep h m L → dom d → m !! key d = None → slot_ok (len h) m (slot (len h) d) l →
  cut cmp d l l1 None l2 → slot_ok (len h) (<[key d := d]> m) (slot (len h) d) (l1 ++ d :: l2).
Proof.
  intros Hr Hd Hm Hs Hc. constructor.
  - eapply cut_sorted; [exact hash_cmp|done|by eapply so_dom|apply Hs|exact Hc].
  - intros x. rewrite (lookup_insert_Some m).
    assert (x ∈ l1 ++ d :: l2 ↔ x = d ∨ x ∈ l) as ->.
    { rewrite (cut_eq _ _ _ _ _ _ Hc). simpl. set_solver. }
    rewrite (so_elem _ _ _ _ Hs). split.
    + intros [->|[Hx Hsl]]; [by auto|]. split; [right|done]. split; [|done]. congruence.
    + intros [[(_ & ->)|(_ & Hx)] Hsl]; auto.
Qed.

Lemma slot_ok_other h m L d j l :
  hrep h m L → dom d → m !! key d = None → j ≠ slot (len h) d →
  slot_ok (len h) m j l → slot_ok (len h) (<[key d := d]> m) j l.
Proof.
  intros Hr Hd Hm Hj Hs. constructor; [apply Hs|]. intros x.
  rewrite (so_elem _ _ _ _ Hs), (lookup_insert_Some m). split.
  - intros [Hx Hsl]. split; [right|done]. split; [congruence|done].
  - intros [[(_ & ->)|(_ & Hx)] Hsl]; [done|done].
Qed.

Lemma dom_insert (m : gmap K D) d :
  map_Forall (λ k d, key d = k ∧ dom d) m → dom d →
  map_Forall (λ k d, key d = k ∧ dom d) (<[key d := d]> m).
Proof. intros Hm Hd k x. rewrite lookup_insert_Some. intros [[<- <-]|[_ Hx]]; [done|by apply Hm]. Qed.

Lemma wp_hash_tab_insert h m L d lk ms :
  hrep h m L → dom d → free_at L (slot (len h) d) lk →
  wp (hash_tab_insert hash cmp d lk) (λ r h' ms', len h' = len h ∧
    match m !! key d with
    | Some _ => r = TREE_NODE_EXIST ∧ ms' = ms ∧ hrep h' m L
    | None => ms' = tail ms ∧
        if decide (head ms = Some false) then r = TREE_ERR ∧ hrep h' m L
        else r = TREE_OK ∧ hrep h' (<[key d := d]> m) L
    end) h ms.
Proof.
  intros Hr Hd Hf. unfold hash_tab_insert. wp_steps. eapply wp_slot_idx; [done|done|]. wp_steps.
  apply (wp_lock h m L _ lk); [done|done|]. intros h1 Hr1 Hl1 _. rewrite <-Hl1 in *. clear Hr h Hl1. wp_steps.
  eapply (wp_on_slot h1 m _ _ (tr_insert cmp d)); [exact Hr1|by eapply slot_lt|].
  intros t l Hwf Hs Hsort Hdom.
  eapply wp_mono; [apply law_insert; [done|by eapply sorted_sep; [exact hash_cmp|..]]|].
  intros r t' ms' [(l1 & x & l2 & Hc & -> & -> & ->)|(l1 & l2 & Hc & -> & Hres)];
    pose proof (slot_cut _ _ _ _ _ _ _ _ Hr1 Hd Hs Hc) as <-.
  - change (TREE_NODE_EXIST =? 0) with false. wp_steps.
    eapply (wp_unlock _ m L); [by eapply hrep_same_tree|done|]. intros. by wp_steps.
  - pose proof (slot_cut _ _ _ _ _ _ _ _ Hr1 Hd Hs Hc) as Hm. symmetry in Hm.
    case_decide; destruct Hres as [-> Hwf'].
    + change (TREE_ERR =? 0) with false. wp_steps.
      eapply (wp_unlock _ m L); [by eapply hrep_same_tree|done|]. intros. by wp_steps.
    + change (TREE_OK =? 0) with true. wp_steps.
      eapply (wp_unlock _ (<[key d := d]> m) L); [|done|intros; by wp_steps].
      eapply (hrep_set_tree h1 m); [exact Hr1|exact Hwf'|by eapply slot_ok_insert| | |].
      * apply dom_insert; [apply Hr1|done].
      * simpl. rewrite map_size_insert_None, (hr_total _ _ _ Hr1) by done.
        unfold u64. rewrite Zplus_mod_idemp_l. f_equal. lia.
      * intros. by eapply slot_ok_other.
Qed.

(** *** Query *)

Lemma wp_hash_tab_query h m L d lk ms :
  hrep h m L → dom d → free_at L (slot (len h) d) lk →
  wp (hash_tab_query hash cmp d lk) (λ r h' ms', len h' = len h ∧ ms' = ms ∧ r = m !! key d ∧
    hrep h' m (match r with Some _ => locked (slot (len h) d) lk L | None => L end)) h ms.
Proof.
  intros Hr Hd Hf. unfold hash_tab_query. wp_steps. eapply wp_slot_idx; [done|done|]. wp_steps.
  apply (wp_lock h m L _ lk); [done|done|]. intros h1 Hr1 Hl1 _. rewrite <-Hl1 in *. clear Hr h Hl1. wp_steps.
  eapply (wp_on_slot h1 m _ _ (tr_query cmp d)); [exact Hr1|by eapply slot_lt|].
  intros t l Hwf Hs Hsort Hdom.
  eapply wp_mono; [apply law_query; [done|by eapply sorted_sep; [exact hash_cmp|..]]|].
  intros r t' ms' (-> & -> & l1 & l2 & Hc).
  pose proof (slot_cut _ _ _ _ _ _ _ _ Hr1 Hd Hs Hc) as Hm. destruct r as [x|]; wp_steps.
  - split_and!; try done. by eapply hrep_same_tree.
  - eapply (wp_unlock _ m L); [by eapply hrep_same_tree|done|]. intros. wp_steps. by split_and!.
Qed.

(** *** Deletion *)

Lemma dom_delete (m : gmap K D) k :
  map_Forall (λ k d, key d = k ∧ dom d) m → map_Forall (λ k d, key d = k ∧ dom d) (delete k m).
Proof. intros Hm j x. rewrite lookup_delete_Some. intros [_ Hx]. by apply Hm. Qed.

Lemma slot_ok_delete h m L d l l1 l2 :
  hrep h m L → dom d → slot_ok (len h) m (slot (len h) d) l →
  cut cmp d l l1 (m !! key d) l2 → slot_ok (len h) (delete (key d) m) (slot (len h) d) (l1 ++ l2).
Proof.
  intros Hr Hd Hs Hc. pose proof (so_dom _ _ _ _ _ Hr Hs) as Hdl. pose proof (so_sorted _ _ _ _ Hs) as Hsort.
  pose proof (cut_eq _ _ _ _ _ _ Hc) as Hl.
  assert (Hne : ∀ x, x ∈ l1 ++ l2 → key x ≠ key d).
  { intros x Hx Hk. assert (Hin : x ∈ l) by (rewrite Hl; set_solver).
    rewrite Forall_forall in Hdl. specialize (Hdl _ Hin).
    assert (cmp d x = 0) as H0' by (by apply (cmp_zero _ _ _ hash_cmp)).
    pose proof (cut_lt _ _ _ _ _ _ Hc) as Hlt. pose proof (cut_gt _ _ _ _ _ _ Hc) as Hgt.
    rewrite Forall_forall in Hlt. rewrite Forall_forall in Hgt.
    apply elem_of_app in Hx as [Hx|Hx]; [specialize (Hlt _ Hx)|specialize (Hgt _ Hx)]; lia. }
  constructor.
  - destruct (m !! key d) as [x|]; rewrite Hl in Hsort; simpl in Hsort; [by eapply sorted_delete|done].
  - intros x. rewrite lookup_delete_Some. split.
    + intros Hx. assert (Hin : x ∈ l) by (rewrite Hl; set_solver).
      apply (so_elem _ _ _ _ Hs) in Hin as [? ?]. split; [|done]. split; [|done].
      apply not_eq_sym. by apply Hne.
    + intros [[Hk Hm] Hsl].
      assert (Hin : x ∈ l) by (by apply (so_elem _ _ _ _ Hs)).
      rewrite Hl, !elem_of_app in Hin. rewrite elem_of_app.
      destruct Hin as [?|[Hin|?]]; [by left| |by right].
      destruct (m !! key d) as [y|] eqn:Hy; simpl in Hin; [|by apply elem_of_nil in Hin].
      apply list_elem_of_singleton in Hin as ->.
      destruct (hr_key _ _ _ _ _ Hr Hy) as [Hky _]. congruence.
Qed.

Lemma slot_ok_delete_other h m L d j l :
  hrep h m L → dom d → j ≠ slot (len h) d →
  slot_ok (len h) m j l → slot_ok (len h) (delete (key d) m) j l.
Proof.
  intros Hr Hd Hj Hs. constructor; [apply Hs|]. intros x.
  rewrite (so_elem _ _ _ _ Hs), lookup_delete_Some. split; [|by intros [[_ ?] ?]].
  intros [Hx Hsl]. split; [|done]. split; [|done]. intros Hk.
  destruct (hr_key _ _ _ _ _ Hr Hx) as [_ Hdx]. apply Hj. rewrite <-Hsl. by apply slot_same_key.
Qed.

Lemma wp_hash_tab_delete h m L d lk ms :
  hrep h m L → dom d → free_at L (slot (len h) d) lk →
  wp (hash_tab_delete hash cmp d lk) (λ r h' ms', len h' = len h ∧ ms' = ms ∧ r = m !! key d ∧
    hrep h' (delete (key d) m) L) h ms.
Proof.
  intros Hr Hd Hf. unfold hash_tab_delete. wp_steps. eapply wp_slot_idx; [done|done|]. wp_steps.
  apply (wp_lock h m L _ lk); [done|done|]. intros h1 Hr1 Hl1 _. rewrite <-Hl1 in *. clear Hr h Hl1. wp_steps.
  eapply (wp_on_slot h1 m _ _ (tr_delete cmp d)); [exact Hr1|by eapply slot_lt|].
  intros t l Hwf Hs Hsort Hdom.
  eapply wp_mono; [apply law_delete; [done|by eapply sorted_sep; [exact hash_cmp|..]]|].
  intros [code r] t' ms' (-> & _ & l1 & l2 & Hc & Hwf'). simpl in Hc.
  pose proof (slot_cut _ _ _ _ _ _ _ _ Hr1 Hd Hs Hc) as ->. wp_steps.
  pose proof (slot_ok_delete _ _ _ _ _ _ _ Hr1 Hd Hs Hc) as Hs'.
  set (n := match m !! key d with Some _ => u64 (total h1 - 1) | None => total h1 end).
  assert (Hr2 : hrep (set_total n (set_tree (slot (len h1) d) t' h1)) (delete (key d) m)
                  (locked (slot (len h1) d) lk L)).
  { eapply (hrep_set_tree h1 m); [exact Hr1|exact Hwf'|exact Hs'|apply dom_delete, Hr1| |].
    - unfold n. rewrite (hr_total _ _ _ Hr1). destruct (m !! key d) as [x|] eqn:Hm.
      + rewrite <-(insert_delete_id m (key d) x) at 1 by done.
        rewrite map_size_insert_None by apply lookup_delete_eq.
        unfold u64. rewrite Zminus_mod_idemp_l. f_equal. lia.
      + by rewrite delete_id.
    - intros. by eapply slot_ok_delete_other. }
  destruct (m !! key d) as [x|] eqn:Hm; wp_steps;
    (eapply (wp_unlock _ (delete (key d) m) L); [exact Hr2|done|intros; by wp_steps]).
Qed.

(** *** Writes through a found pointer *)

Lemma slot_ok_store h m L d x x' l l1 l2 :
  hrep h m L → dom d → slot_ok (len h) m (slot (len h) d) l → cut cmp d l l1 (Some x) l2 →
  key x' = key d → dom x' →
  slot_ok (len h) (<[key d := x']> m) (slot (len h) d) (l1 ++ x' :: l2).
Proof.
  intros Hr Hd Hs Hc Hk Hdx'. pose proof (slot_cut _ _ _ _ _ _ _ _ Hr Hd Hs Hc) as Hm.
  assert (Hc' : cut cmp d l l1 (m !! key d) l2) by (by rewrite <-Hm).
  pose proof (slot_ok_delete _ _ _ _ _ _ _ Hr Hd Hs Hc') as Hs0.
  pose proof (so_dom _ _ _ _ _ Hr Hs) as Hdl. rewrite (cut_eq _ _ _ _ _ _ Hc) in Hdl. simpl in Hdl.
  assert (Hdl' : Forall dom (l1 ++ l2)).
  { apply Forall_app in Hdl as [? Hdl]. apply Forall_cons in Hdl as [_ ?]. by apply Forall_app. }
  constructor.
  - eapply cut_sorted; [exact hash_cmp|done|exact Hdl'|apply Hs0|].
    eapply (cut_same_key key dom cmp hash_cmp d); [done|done|done|done|done|apply Hc|apply Hc|done].
  - intros y. assert (y ∈ l1 ++ x' :: l2 ↔ y = x' ∨ y ∈ l1 ++ l2) as -> by set_solver.
    rewrite (so_elem _ _ _ _ Hs0), lookup_delete_Some, lookup_insert_Some.
    assert (slot (len h) x' = slot (len h) d) by (by apply slot_same_key).
    naive_solver congruence.
Qed.

Lemma slot_ok_store_other h m L d x x' j l :
  hrep h m L → dom d → m !! key d = Some x → key x' = key d → dom x' → j ≠ slot (len h) d →
  slot_ok (len h) m j l → slot_ok (len h) (<[key d := x']> m) j l.
Proof.
  intros Hr Hd Hm Hk Hdx' Hj Hs. constructor; [apply Hs|]. intros y.
  rewrite (so_elem _ _ _ _ Hs), lookup_insert_Some.
  assert (Hsx : slot (len h) x' = slot (len h) d) by (by apply slot_same_key).
  split.
  - intros [Hy Hsl]. split; [|done]. right. split; [|done]. intros Hky.
    destruct (hr_key _ _ _ _ _ Hr Hy) as [_ Hdy]. apply Hj. rewrite <-Hsl. by apply slot_same_key.
  - intros [[[Hky ->]|[_ Hy]] Hsl]; [congruence|done].
Qed.

Lemma map_size_overwrite (m : gmap K D) k x x' : m !! k = Some x → size (<[k := x']> m) = size m.
Proof. intros Hm. by rewrite map_size_insert, Hm. Qed.

Lemma wp_hash_tab_store h m L d x x' (Q : unit → tab → mem → Prop) ms :
  hrep h m L → dom d → m !! key d = Some x → key x' = key d → dom x' →
  (∀ h', hrep h' (<[key d := x']> m) L → len h' = len h → Q tt h' ms) →
  wp (hash_tab_store hash cmp d (λ _, x')) Q h ms.
Proof.
  intros Hr Hd Hm Hk Hdx' HQ. unfold hash_tab_store. wp_steps. eapply wp_slot_idx; [done|done|].
  eapply (wp_on_slot h m); [exact Hr|by eapply slot_lt|].
  intros t l Hwf Hs Hsort Hdom.
  eapply wp_mono; [apply law_store; [done|by eapply sorted_sep; [exact hash_cmp|..]]|].
  intros [] t' ms' (-> & l1 & o & l2 & Hc & Hwf').
  pose proof (slot_cut _ _ _ _ _ _ _ _ Hr Hd Hs Hc) as Ho. rewrite Hm in Ho. subst o.
  simpl in Hwf'. apply HQ; [|done].
  pose proof (hrep_set_tree h m (<[key d := x']> m) L (slot (len h) d) t' (l1 ++ x' :: l2) (total h) Hr) as H'.
  apply H'; [done|by eapply slot_ok_store| | |].
  - intros k y. rewrite lookup_insert_Some. intros [[<- <-]|[_ Hy]]; [done|by apply Hr].
  - by rewrite (map_size_overwrite _ _ x), (hr_total _ _ _ Hr).
  - intros. by eapply slot_ok_store_other.
Qed.

Section Lens.
Context {Σ : Type} (g : Σ → tab) (p : tab → Σ → Σ).

Lemma wp_with_data {A} m L d x (body : SM (D * Σ) A) (Q : A → Σ → mem → Prop) s ms :
  hrep (g s) m L → dom d → m !! key d = Some x →
  wp body (λ a s1 ms', key s1.1 = key d ∧ dom s1.1 ∧
    ∃ m' L' x0, hrep (g s1.2) m' L' ∧ m' !! key d = Some x0 ∧
      ∀ h', hrep h' (<[key d := s1.1]> m') L' → len h' = len (g s1.2) → Q a (p h' s1.2) ms') (x, s) ms →
  wp (with_data g p hash cmp d body) Q s ms.
Proof.
  intros Hr Hd Hm HQ. unfold wp at 1, with_data.
  assert (Hq : ∃ h', (idx ← slot_idx hash d; on_slot idx (tr_query cmp d)) (g s) ms = Ok (Some x, h', ms)).
  { assert (Hq : wp (idx ← slot_idx hash d; on_slot idx (tr_query cmp d))
                   (λ r _ ms', r = Some x ∧ ms' = ms) (g s) ms).
    { wp_steps. eapply wp_slot_idx; [done|done|]. eapply (wp_on_slot (g s) m); [exact Hr|by eapply slot_lt|].
      intros t l Hwf Hs Hsort Hdom.
      eapply wp_mono; [apply law_query; [done|by eapply sorted_sep; [exact hash_cmp|..]]|].
      intros r t' ms' (-> & -> & l1 & l2 & Hc).
      by rewrite (slot_cut _ _ _ _ _ _ _ _ Hr Hd Hs Hc), Hm. }
    apply wp_elim in Hq as (a & h' & ms' & -> & -> & ->). eauto. }
  destruct Hq as [h' ->]. apply wp_elim in HQ as (a & [x' s'] & ms2 & -> & Hk & Hdx & m' & L' & x0 & Hr' & Hm' & HQ).
  simpl in *. change (wp (zoom g p (hash_tab_store hash cmp d (λ _, x'));; mret a) Q s' ms2).
  wp_step. apply wp_zoom. eapply wp_hash_tab_store; [exact Hr'|done|exact Hm'|done|done|].
  intros h2 Hr2 Hl2. wp_steps. by apply HQ.
Qed.

(** *** Traversal

    The callback may change the datum it is called on (and the caller's
    state), not the keys of the table.  [I done m] is the invariant, [done]
    being the keys visited so far and [m] the current map. *)
Section TravRule.
Context (gp : ∀ h s, g (p h s) = h).
Context (proc : D → SM Σ unit) (lk : lock_e) (L : list rwlock).
Context (I : list K → gmap K D → Σ → mem → Prop).

Hypothesis I_lock : ∀ ks m h s ms, I ks m s ms → I ks m (p h s) ms.
Hypothesis I_proc : ∀ ks m d L' s ms,
  hrep (g s) m L' → m !! key d = Some d → key d ∉ ks → I ks m s ms →
  wp (proc d) (λ _ s' ms', ∃ d', key d' = key d ∧ len (g s') = len (g s) ∧
    hrep (g s') (<[key d := d']> m) L' ∧ I (ks ++ [key d]) (<[key d := d']> m) s' ms') s ms.

(** The keys of the slots below [i]. *)
Definition visited (n : Z) (i : nat) (ks : list K) (m : gmap K D) : Prop :=
  NoDup ks ∧ ∀ k, k ∈ ks ↔ ∃ d, m !! k = Some d ∧ (slot n d < i)%nat.

Lemma slot_length h m i l L' :
  hrep h m L' → slot_ok (len h) m i l → (length l ≤ size m)%nat.
Proof.
  intros Hr Hs. rewrite <-(length_fmap key l).
  rewrite <-(size_list_to_set (C := gset K) (key <$> l)).
  - rewrite <-size_dom. apply subseteq_size. intros k.
    rewrite elem_of_list_to_set, elem_of_dom. intros (d & -> & Hd)%list_elem_of_fmap.
    apply (so_elem _ _ _ _ Hs) in Hd as [-> _]. done.
  - apply (sorted_keys key dom cmp hash_cmp); [by eapply so_dom|apply Hs].
Qed.

(** The state while slot [i] is visited: [don] of its data are done. *)
Lemma wp_trav_list l : ∀ ks m L' s ms,
  hrep (g s) m L' → I ks m s ms → NoDup (key <$> l) → Forall (λ d, m !! key d = Some d ∧ key d ∉ ks) l →
  wp (for_each proc l) (λ _ s' ms', ∃ m', hrep (g s') m' L' ∧ len (g s') = len (g s) ∧
    I (ks ++ (key <$> l)) m' s' ms' ∧
    ∀ k, is_Some (m' !! k) ↔ is_Some (m !! k)) s ms.
Proof.
  induction l as [|d l IH]; intros ks m L' s ms Hr HI Hn Hl; simpl.
  - wp_steps. exists m. by rewrite app_nil_r.
  - apply NoDup_cons in Hn as [Hd Hn]. apply Forall_cons in Hl as [[Hm Hk] Hl]. wp_steps.
    eapply wp_mono; [by eapply I_proc|]. intros [] s1 ms1 (d' & Hk' & Hlen & Hr1 & HI1).
    eapply wp_mono.
    { apply (IH (ks ++ [key d]) (<[key d := d']> m) L'); [done|done|done|].
      rewrite Forall_forall in Hl |- *. intros x Hx. destruct (Hl x Hx) as [Hmx Hkx].
      assert (key d ≠ key x) by (intros Heq; apply Hd; rewrite Heq; by apply list_elem_of_fmap_2).
      rewrite lookup_insert_ne by done. split; [done|].
      rewrite elem_of_app, list_elem_of_singleton. intros [?|?]; [done|congruence]. }
    intros [] s2 ms2 (m' & Hr2 & Hlen2 & HI2 & Hdom2). exists m'.
    rewrite <-app_assoc in HI2. split_and!; [done|congruence|done|].
    intros k. rewrite Hdom2, lookup_insert_is_Some'. split; [|by right].
    intros [<-|?]; [by eexists|done].
Qed.

(** Two maps of the same keys whose data represent the same slots. *)
Lemma slot_agree h m L1 h' m' L2 k d d' :
  hrep h m L1 → hrep h' m' L2 → m !! k = Some d → m' !! k = Some d' → slot (len h) d = slot (len h) d'.
Proof.
  intros Hr Hr' Hd Hd'. destruct (hr_key _ _ _ _ _ Hr Hd), (hr_key _ _ _ _ _ Hr' Hd').
  apply slot_same_key; congruence.
Qed.

Lemma wp_trav_slot i ks m s ms :
  hrep (g s) m L → (i < Z.to_nat (len (g s)))%nat → free_at L i lk → Z.of_nat (size m) < 2 ^ 64 →
  visited (len (g s)) i ks m → I ks m s ms →
  wp (trav_slot g p i proc lk) (λ _ s' ms', ∃ ks' m', len (g s') = len (g s) ∧ hrep (g s') m' L ∧
    visited (len (g s)) (S i) ks' m' ∧ I ks' m' s' ms' ∧ ∀ k, is_Some (m' !! k) ↔ is_Some (m !! k)) s ms.
Proof.
  intros Hr Hi Hf Hsz [Hnd Hvis] HI. unfold trav_slot. wp_step. apply wp_zoom.
  apply (wp_lock (g s) m L _ lk); [done|done|]. intros h1 Hr1 Hl1 _. wp_steps.
  rewrite gp. pose proof Hi as Hi'. rewrite <-Hl1, <-(hr_tree _ _ _ Hr1) in Hi'.
  apply lookup_lt_is_Some_2 in Hi' as [t Ht]. rewrite Ht. cbn [deref]. wp_steps.
  destruct (hr_slot _ _ _ Hr1 _ _ Ht) as (l & Hwf & Hs). rewrite Hl1 in Hs.
  pose proof Hs as Hs'. rewrite <-Hl1 in Hs'.
  eapply law_trav; [exact Hwf|pose proof (slot_length _ _ _ _ _ Hr1 Hs'); lia|].
  eapply wp_mono.
  { apply (wp_trav_list l ks m (locked i lk L)).
    - by rewrite gp.
    - by apply I_lock.
    - apply (sorted_keys key dom cmp hash_cmp); [exact (so_dom _ _ _ _ _ Hr Hs)|apply Hs].
    - apply Forall_forall. intros d Hd. apply (so_elem _ _ _ _ Hs) in Hd as [Hm Hsl].
      split; [done|]. rewrite Hvis. intros (d' & Hm' & Hlt). assert (d' = d) as -> by congruence. lia. }
  intros [] s2 ms2 (m' & Hr2 & Hl2 & HI2 & Hdom). rewrite gp in Hl2. apply wp_zoom.
  apply (wp_unlock (g s2) m' L _ lk); [done|done|]. intros h3 Hr3 Hl3 _.
  exists (ks ++ (key <$> l)), m'. rewrite gp. split_and!; [congruence|done| |by apply I_lock|done].
  split.
  - apply NoDup_app. split_and!; [done| |apply (sorted_keys key dom cmp hash_cmp); [exact (so_dom _ _ _ _ _ Hr Hs)|apply Hs]].
    intros k Hk. apply Hvis in Hk as (d & Hd & Hlt). intros (d' & -> & Hd')%list_elem_of_fmap.
    apply (so_elem _ _ _ _ Hs) in Hd' as [Hm Hsl]. assert (d' = d) as -> by congruence. lia.
  - intros k. rewrite elem_of_app, Hvis. split.
    + intros [(d & Hd & Hlt)|(d & -> & Hd)%list_elem_of_fmap].
      * destruct (proj2 (Hdom k)) as [d' Hd']; [by eexists|]. exists d'. split; [done|].
        rewrite <-(slot_agree _ _ _ _ _ _ _ _ _ Hr Hr2 Hd Hd'). lia.
      * apply (so_elem _ _ _ _ Hs) in Hd as [Hm Hsl].
        destruct (proj2 (Hdom (key d))) as [d' Hd']; [by eexists|]. exists d'. split; [done|].
        rewrite <-(slot_agree _ _ _ _ _ _ _ _ _ Hr Hr2 Hm Hd'). lia.
    + intros (d' & Hd' & Hlt). destruct (proj1 (Hdom k)) as [d Hd]; [by eexists|].
      rewrite <-(slot_agree _ _ _ _ _ _ _ _ _ Hr Hr2 Hd Hd') in Hlt.
      destruct (decide (slot (len (g s)) d < i)%nat); [left; eauto|right].
      destruct (hr_key _ _ _ _ _ Hr Hd) as [Hkd _]. rewrite <-Hkd. apply list_elem_of_fmap_2.
      apply (so_elem _ _ _ _ Hs). rewrite Hkd. split; [done|lia].
Qed.

(** Every datum is visited exactly once. *)
Lemma wp_hash_tab_trav m s ms :
  hrep (g s) m L → (∀ i, (i < Z.to_nat (len (g s)))%nat → free_at L i lk) →
  Z.of_nat (size m) < 2 ^ 64 → I [] m s ms →
  wp (hash_tab_trav g p proc lk) (λ _ s' ms', ∃ ks m', len (g s') = len (g s) ∧ hrep (g s') m' L ∧
    ks ≡ₚ (map_to_list m').*1 ∧ I ks m' s' ms' ∧ ∀ k, is_Some (m' !! k) ↔ is_Some (m !! k)) s ms.
Proof.
  intros Hr Hf Hsz HI. unfold hash_tab_trav. wp_steps. set (n := Z.to_nat (len (g s))).
  assert (Hgen : ∀ j i ks m' s' ms', (i + j = n)%nat → len (g s') = len (g s) → hrep (g s') m' L →
    visited (len (g s)) i ks m' → I ks m' s' ms' → (∀ k, is_Some (m' !! k) ↔ is_Some (m !! k)) →
    wp (for_each (λ idx, trav_slot g p idx proc lk) (seq i j)) (λ _ s2 ms2,
      ∃ ks m2, len (g s2) = len (g s) ∧ hrep (g s2) m2 L ∧ visited (len (g s)) n ks m2 ∧ I ks m2 s2 ms2 ∧
        ∀ k, is_Some (m2 !! k) ↔ is_Some (m !! k)) s' ms').
  { induction j as [|j IH]; intros i ks m' s' ms' Hij Hl' Hr' Hv HI' Hdom; simpl.
    - wp_steps. assert (i = n) as <- by lia. by exists ks, m'.
    - wp_steps. eapply wp_mono.
      { apply (wp_trav_slot i ks m'); [done|rewrite Hl'; unfold n in Hij; lia|apply Hf; unfold n in Hij; lia| |by rewrite Hl'|done].
        assert (size m' = size m) as ->; [|done]. rewrite <-!size_dom. f_equal. apply set_eq.
        intros k. by rewrite !elem_of_dom. }
      intros [] s2 ms2 (ks2 & m2 & Hl2 & Hr2 & Hv2 & HI2 & Hdom2). rewrite Hl' in Hv2.
      apply (IH (S i) ks2 m2); [lia|congruence|done|done|done|]. intros k. by rewrite Hdom2. }
  eapply wp_mono; [apply (Hgen n 0%nat [] m); [done|done|done| |done|done]|].
  - split; [constructor|]. intros k. split; [by intros ?%elem_of_nil|intros (d & _ & ?); lia].
  - intros [] s2 ms2 (ks & m2 & Hl2 & Hr2 & [Hnd Hv] & HI2 & Hdom2). exists ks, m2. split_and!; try done.
    apply NoDup_Permutation; [done|apply NoDup_fst_map_to_list|].
    intros k. rewrite Hv. split.
    + intros (d & Hd & _). apply (list_elem_of_fmap_2' _ _ (k, d)); [by apply elem_of_map_to_list|done].
    + intros ([k' d] & -> & Hd)%list_elem_of_fmap. apply elem_of_map_to_list in Hd.
      exists d. split; [done|]. rewrite <-Hl2. unfold n. rewrite <-Hl2. by eapply slot_lt.
Qed.
End TravRule.

(** *** Destruction: [dealloc] runs once on every datum *)
Section DestroyRule.
Context (gp : ∀ h s, g (p h s) = h).
Context (dealloc : D → SM Σ unit) (L : list rwlock) (m : gmap K D).
Context (I : list D → Σ → mem → Prop).

Hypothesis I_lock : ∀ ds h s ms, I ds s ms → I ds (p h s) ms.
Hypothesis I_dealloc : ∀ ds d s ms, m !! key d = Some d → I ds s ms →
  wp (dealloc d) (λ _ s' ms', g s' = g s ∧ I (ds ++ [d]) s' ms') s ms.

Definition released (n : Z) (i : nat) (ds : list D) : Prop :=
  NoDup ds ∧ ∀ d, d ∈ ds ↔ m !! key d = Some d ∧ (slot n d < i)%nat.

Lemma wp_destroy_slot i ds s ms :
  hrep (g s) m L → (i < Z.to_nat (len (g s)))%nat → L !! i = Some idle → Z.of_nat (size m) < 2 ^ 64 →
  released (len (g s)) i ds → I ds s ms →
  wp (destroy_slot g p i dealloc) (λ _ s' ms', ∃ ds', len (g s') = len (g s) ∧ hrep (g s') m L ∧
    released (len (g s)) (S i) ds' ∧ I ds' s' ms') s ms.
Proof.
  intros Hr Hi HL Hsz [Hnd Hrel] HI. unfold destroy_slot. wp_step. apply wp_zoom.
  assert (Hf : free_at L i WRLOCK) by (exists idle; done).
  apply (wp_lock (g s) m L _ WRLOCK); [done|done|]. intros h1 Hr1 Hl1 _. wp_steps.
  rewrite gp. pose proof Hi as Hi'. rewrite <-Hl1, <-(hr_tree _ _ _ Hr1) in Hi'.
  apply lookup_lt_is_Some_2 in Hi' as [t Ht]. rewrite Ht. cbn [deref]. wp_steps.
  destruct (hr_slot _ _ _ Hr1 _ _ Ht) as (l & Hwf & Hs).
  pose proof (slot_length _ _ _ _ _ Hr1 Hs) as Hlen. rewrite Hl1 in Hs.
  destruct (law_destroy t l dealloc Hwf) as (ls & Hls & HQ); [lia|]. apply HQ. clear HQ.
  assert (Hgen : ∀ ls' ds s1 ms1, g s1 = h1 → I ds s1 ms1 → Forall (λ d, m !! key d = Some d) ls' →
    wp (for_each dealloc ls') (λ _ s' ms', g s' = h1 ∧ I (ds ++ ls') s' ms') s1 ms1).
  { clear - I_dealloc. induction ls' as [|d ls' IH]; intros ds s1 ms1 Hg HI Hall; simpl.
    - wp_steps. by rewrite app_nil_r.
    - apply Forall_cons in Hall as [Hd Hall]. wp_steps. eapply wp_mono; [by apply I_dealloc|].
      intros [] s2 ms2 [Hg2 HI2]. eapply wp_mono; [apply (IH (ds ++ [d])); [congruence|done..]|].
      intros [] s3 ms3. by rewrite <-app_assoc. }
  assert (Hmem : ∀ d, d ∈ ls ↔ m !! key d = Some d ∧ slot (len (g s)) d = i).
  { intros d. by rewrite Hls, (so_elem _ _ _ _ Hs). }
  eapply wp_mono; [apply (Hgen ls ds); [by rewrite gp|by apply I_lock|]|].
  { apply Forall_forall. intros d Hd. by apply Hmem in Hd as [? _]. }
  intros [] s2 ms2 [Hg2 HI2]. apply wp_zoom.
  apply (wp_unlock (g s2) m L _ WRLOCK); [by rewrite Hg2|done|]. intros h3 Hr3 Hl3 _.
  exists (ds ++ ls). rewrite gp. split_and!; [congruence|done| |by apply I_lock]. split.
  - apply NoDup_app. split_and!; [done| |].
    + intros d Hd Hd'. apply Hrel in Hd as [_ ?]. apply Hmem in Hd' as [_ ?]. lia.
    + rewrite Hls. apply (NoDup_fmap_1 key). apply (sorted_keys key dom cmp hash_cmp); [|apply Hs].
      eapply so_dom; [exact Hr|exact Hs].
  - intros d. rewrite elem_of_app, Hrel, Hmem. split; [intros [[? ?]|[? ?]]; split; (done || lia)|].
    intros [Hd Hlt]. destruct (decide (slot (len (g s)) d = i)); [by right|left]. split; [done|lia].
Qed.

Lemma wp_hash_tab_destroy s ms :
  hrep (g s) m L → L = replicate (Z.to_nat (len (g s))) idle → Z.of_nat (size m) < 2 ^ 64 → I [] s ms →
  wp (hash_tab_destroy g p dealloc) (λ _ s' ms', ∃ ds, ds ≡ₚ (map_to_list m).*2 ∧ I ds s' ms') s ms.
Proof.
  intros Hr HL Hsz HI. unfold hash_tab_destroy. wp_steps. set (n := Z.to_nat (len (g s))) in *.
  assert (Hgen : ∀ j i ds s' ms', (i + j = n)%nat → len (g s') = len (g s) → hrep (g s') m L →
    released (len (g s)) i ds → I ds s' ms' →
    wp (for_each (λ idx, destroy_slot g p idx dealloc) (seq i j)) (λ _ s2 ms2,
      ∃ ds, released (len (g s)) n ds ∧ I ds s2 ms2) s' ms').
  { induction j as [|j IH]; intros i ds s' ms' Hij Hl' Hr' Hv HI'; simpl.
    - wp_steps. assert (i = n) as <- by lia. by exists ds.
    - wp_steps. eapply wp_mono.
      { apply (wp_destroy_slot i ds); [done|rewrite Hl'; unfold n in Hij; lia| |done|by rewrite Hl'|done].
        rewrite HL. apply lookup_replicate_2. lia. }
      intros [] s2 ms2 (ds2 & Hl2 & Hr2 & Hv2 & HI2). rewrite Hl' in Hv2.
      apply (IH (S i) ds2); [lia|congruence|done..]. }
  eapply wp_mono; [apply (Hgen n 0%nat []); [done|done|done| |done]|].
  - split; [constructor|]. intros d. split; [by intros ?%elem_of_nil|intros [_ ?]; lia].
  - intros [] s2 ms2 (ds & [Hnd Hv] & HI2). exists ds. split; [|done].
    assert (Hvals : ∀ d, d ∈ (map_to_list m).*2 ↔ m !! key d = Some d).
    { intros d. split.
      - intros ([k x] & -> & Hx)%list_elem_of_fmap. apply elem_of_map_to_list in Hx.
        destruct (hr_key _ _ _ _ _ Hr Hx) as [<- _]. done.
      - intros Hd. apply (list_elem_of_fmap_2' _ _ (key d, d)); [by apply elem_of_map_to_list|done]. }
    apply NoDup_Permutation; [done| |].
    + apply (NoDup_fmap_1 key). rewrite <-list_fmap_compose.
      assert ((key ∘ snd) <$> map_to_list m = (map_to_list m).*1) as ->; [|apply NoDup_fst_map_to_list].
      apply list_fmap_ext. intros i [k x] Hx. apply list_elem_of_lookup_2, elem_of_map_to_list in Hx.
      by destruct (hr_key _ _ _ _ _ Hr Hx).
    + intros d. rewrite Hv, Hvals. split; [by intros [? _]|]. intros Hd. split; [done|]. by eapply slot_lt.
Qed.
End DestroyRule.
End Lens.

(** *** Creation *)

Lemma wp_creat_trees {Σ} n (s : Σ) :
  wp (creat_trees (T := T) (D := D) n) (λ r s' ms', s' = s ∧ ms' = [] ∧ ∃ ts, r = Some ts ∧
    length ts = n ∧ Forall (λ t, tr_wf t []) ts) s [].
Proof.
  induction n as [|n IH]; simpl; wp_steps; [by split_and!; [..|exists []]|].
  eapply wp_mono; [apply law_creat|]. intros r s' ms' (-> & -> & t & -> & Ht). wp_steps.
  eapply wp_mono; [apply IH|]. intros r s' ms' (-> & -> & ts & -> & Hlen & Hts). wp_steps.
  split_and!; [done|done|]. exists (t :: ts). split_and!; [done|by simpl; rewrite Hlen|by constructor].
Qed.

Lemma wp_hash_tab_creat {Σ} n (s : Σ) :
  0 < n < 2 ^ 31 →
  wp (hash_tab_creat (T := T) (D := D) n) (λ r s' ms', s' = s ∧ ms' = [] ∧ ∃ h, r = Some h ∧ len h = n ∧
    hrep h ∅ (replicate (Z.to_nat n) idle)) s [].
Proof.
  intros Hn. unfold hash_tab_creat. do 3 (apply wp_bind; unfold malloc at 1; unfold wp at 1; cbn [negb]).
  apply wp_bind. eapply wp_mono; [apply wp_creat_trees|]. intros r s' ms' (-> & -> & ts & -> & Hlen & Hts).
  wp_steps. split_and!; [done|done|]. eexists. split_and!; [done|done|].
  constructor; simpl; try done.
  - by rewrite length_replicate.
  - intros i t Ht. exists []. rewrite Forall_forall in Hts. split; [apply Hts; by eapply list_elem_of_lookup_2|].
    constructor; [constructor|]. intros d. rewrite lookup_empty. split; [by intros ?%elem_of_nil|by intros [? _]].
Qed.
End Refine.
