(* ===== verification/TabRel.v ===== *)
(** A hash table read through an abstraction of its data: [trel R h M L] says that
    the table [h] represents the map [M] of abstract values, [R] relating a datum
    to its value.  The operations of the table in these terms. *)
From stdpp Require Import fin_maps gmap.
From S2P Require Import Prelude Table HashTab.
Open Scope Z_scope.

Definition idles (n : Z) : list rwlock := replicate (Z.to_nat n) idle.

Section Rel.
Context {T : Type → Type} `{TreeLaws T} {D K A : Type} `{Countable K}.
Context {key : D → K} {dm : D → Prop} {hash : D → Z} {cmp : D → D → Z}.
Context `{!HashOk key dm hash cmp} {R : D → A → Prop}.
Abbreviation tab := (hash_tab_t T D).
Abbreviation hrep := (hrep key dm hash cmp).
Abbreviation slot := (slot hash).

Definition mrel (m : gmap K D) (M : gmap K A) : Prop := ∀ k, option_Forall2 R (m !! k) (M !! k).

Definition trel (h : tab) (M : gmap K A) (L : list rwlock) : Prop := ∃ m, hrep h m L ∧ mrel m M.

Lemma mrel_insert m M k d a : mrel m M → R d a → mrel (<[k := d]> m) (<[k := a]> M).
Proof. intros Hm Hd j. rewrite !lookup_insert. case_decide; [by constructor|apply Hm]. Qed.

Lemma mrel_delete m M k : mrel m M → mrel (delete k m) (delete k M).
Proof. intros Hm j. rewrite !lookup_delete. case_decide; [constructor|apply Hm]. Qed.

Lemma mrel_size m M : mrel m M → size m = size M.
Proof.
  intros Hm. rewrite <-!size_dom. f_equal. apply set_eq. intros k. rewrite !elem_of_dom.
  specialize (Hm k). split; intros [x Hx]; rewrite Hx in Hm; inversion Hm; eauto.
Qed.

Lemma mrel_Some m M k a : mrel m M → M !! k = Some a → ∃ d, m !! k = Some d ∧ R d a.
Proof. intros Hm Ha. specialize (Hm k). rewrite Ha in Hm. inversion Hm; eauto. Qed.

Lemma trel_len {h M L} : trel h M L → 0 < len h < 2 ^ 31 ∧ length L = Z.to_nat (len h).
Proof. intros (m & Hr & _). split; [apply Hr|]. apply Hr. Qed.

Lemma free_nonlock {h M L} : trel h M L → ∀ d, free_at L (slot (len h) d) NONLOCK.
Proof.
  intros (m & Hr & _) d. pose proof (slot_lt _ _ _ _ _ _ _ d Hr) as Hs. rewrite <-(hr_nlock _ _ _ _ _ _ _ Hr) in Hs.
  apply lookup_lt_is_Some_2 in Hs as [l Hl]. by exists l.
Qed.

Lemma free_idles {h M L} : trel h M L → ∀ d lk, free_at (idles (len h)) (slot (len h) d) lk.
Proof. intros (m & Hr & _) d lk. apply free_replicate. by eapply slot_lt. Qed.

Lemma wp_rquery_key {h M L d lk ms} :
  trel h M L → dm d → free_at L (slot (len h) d) lk →
  wp (hash_tab_query hash cmp d lk) (λ r h' ms', len h' = len h ∧ ms' = ms ∧
    option_Forall2 R r (M !! key d) ∧ (∀ x, r = Some x → key x = key d ∧ dm x) ∧
    trel h' M (match r with Some _ => locked (slot (len h) d) lk L | None => L end)) h ms.
Proof.
  intros (m & Hr & Hm) Hd Hf. eapply wp_mono; [by apply (wp_hash_tab_query key dm hash cmp)|].
  intros r h' ms' (Hl & -> & -> & Hr'). split_and!; [done|done|apply Hm| |by exists m].
  intros x Hx. exact (hr_key _ _ _ _ _ _ _ _ _ Hr Hx).
Qed.

Lemma wp_rquery {h M L d lk ms} :
  trel h M L → dm d → free_at L (slot (len h) d) lk →
  wp (hash_tab_query hash cmp d lk) (λ r h' ms', len h' = len h ∧ ms' = ms ∧
    option_Forall2 R r (M !! key d) ∧
    trel h' M (match r with Some _ => locked (slot (len h) d) lk L | None => L end)) h ms.
Proof.
  intros Hr Hd Hf. eapply wp_mono; [by apply (wp_rquery_key Hr)|].
  by intros r h' ms' (? & ? & ? & _ & ?).
Qed.

Lemma wp_runlock {h M L d lk} {Q : unit → tab → mem → Prop} {ms} :
  trel h M (locked (slot (len h) d) lk L) → dm d → free_at L (slot (len h) d) lk →
  (∀ h', trel h' M L → len h' = len h → Q tt h' ms) →
  wp (hash_tab_unlock hash d lk) Q h ms.
Proof.
  intros (m & Hr & Hm) Hd Hf HQ. apply (wp_hash_tab_unlock key dm hash cmp h m L d lk Q ms); [done|done|done|].
  intros h' Hr' Hl. apply HQ; [by exists m|done].
Qed.

Lemma wp_rinsert {h M L d lk} :
  trel h M L → ∀ a, dm d → R d a → free_at L (slot (len h) d) lk →
  wp (hash_tab_insert hash cmp d lk) (λ r h' ms', len h' = len h ∧ ms' = [] ∧
    match M !! key d with
    | Some _ => r = TREE_NODE_EXIST ∧ trel h' M L
    | None => r = TREE_OK ∧ trel h' (<[key d := a]> M) L
    end) h [].
Proof.
  intros (m & Hr & Hm) a Hd Ha Hf. eapply wp_mono; [by apply (wp_hash_tab_insert key dm hash cmp)|].
  intros r h' ms' [Hl HQ]. split; [done|]. pose proof (Hm (key d)) as Hk.
  destruct (m !! key d), (M !! key d); inversion Hk; subst.
  - destruct HQ as (-> & -> & Hr'). split; [done|]. split; [done|]. exists m. split; done.
  - simpl in HQ. destruct HQ as (-> & -> & Hr'). split_and!; [done..|]. exists (<[key d := d]> m).
    split; [done|by apply mrel_insert].
Qed.

Lemma wp_rdelete {h M L d lk ms} :
  trel h M L → dm d → free_at L (slot (len h) d) lk →
  wp (hash_tab_delete hash cmp d lk) (λ r h' ms', len h' = len h ∧ ms' = ms ∧
    option_Forall2 R r (M !! key d) ∧ (∀ x, r = Some x → key x = key d ∧ dm x) ∧
    trel h' (delete (key d) M) L) h ms.
Proof.
  intros (m & Hr & Hm) Hd Hf. eapply wp_mono; [by apply (wp_hash_tab_delete key dm hash cmp)|].
  intros r h' ms' (Hl & -> & -> & Hr'). split_and!; [done|done|apply Hm| |].
  - intros x Hx. exact (hr_key _ _ _ _ _ _ _ _ _ Hr Hx).
  - exists (delete (key d) m). split; [done|by apply mrel_delete].
Qed.

Lemma wp_rwith {Σ B} {g : Σ → tab} {p : tab → Σ → Σ} {M L d a} {body : SM (D * Σ) B}
    {Q : B → Σ → mem → Prop} {s ms} :
  trel (g s) M L → dm d → M !! key d = Some a →
  (∀ x, R x a → key x = key d → dm x →
    wp body (λ r s1 ms', key s1.1 = key d ∧ dm s1.1 ∧
      ∃ a' L', R s1.1 a' ∧ trel (g s1.2) M L' ∧
        ∀ h', trel h' (<[key d := a']> M) L' → len h' = len (g s1.2) → Q r (p h' s1.2) ms') (x, s) ms) →
  wp (with_data g p hash cmp d body) Q s ms.
Proof.
  intros (m & Hr & Hm) Hd Ha HQ. destruct (mrel_Some _ _ _ _ Hm Ha) as (x & Hx & Hxa).
  destruct (hr_key _ _ _ _ _ _ _ _ _ Hr Hx) as [Hk Hdx].
  eapply (wp_with_data key dm hash cmp); [exact Hr|done|exact Hx|].
  eapply wp_mono; [by apply HQ|].
  intros r s1 ms1 (Hk1 & Hd1 & a' & L' & Ha' & (m' & Hr' & Hm') & HQ'). split_and!; [done..|].
  destruct (mrel_Some _ _ _ _ Hm' Ha) as (x0 & Hx0 & _).
  exists m', L', x0. split_and!; [done..|]. intros h' Hh' Hl'. apply HQ'; [|done].
  exists (<[key d := s1.1]> m'). split; [done|]. by apply mrel_insert.
Qed.

(** Traversal by a callback that keeps the abstract values. *)
Lemma wp_rtrav {Σ} {g : Σ → tab} {p : tab → Σ → Σ} {proc : D → SM Σ unit} {lk M L s ms} :
  trel (g s) M L → ∀ (I : list K → Σ → mem → Prop), (∀ h s, g (p h s) = h) →
  (∀ ks h s ms, I ks s ms → I ks (p h s) ms) →
  (∀ ks m d a L' s ms, hrep (g s) m L' → mrel m M → m !! key d = Some d → M !! key d = Some a → R d a →
    key d ∉ ks → I ks s ms →
    wp (proc d) (λ _ s' ms', ∃ d', key d' = key d ∧ R d' a ∧ len (g s') = len (g s) ∧
      hrep (g s') (<[key d := d']> m) L' ∧ I (ks ++ [key d]) s' ms') s ms) →
  (∀ i, (i < Z.to_nat (len (g s)))%nat → free_at L i lk) →
  Z.of_nat (size M) < 2 ^ 64 → I [] s ms →
  wp (hash_tab_trav g p proc lk) (λ _ s' ms', ∃ ks, len (g s') = len (g s) ∧ trel (g s') M L ∧
    ks ≡ₚ (map_to_list M).*1 ∧ I ks s' ms') s ms.
Proof.
  intros (m & Hr & Hm) I gp HIl HIp Hf Hsz HI.
  assert (Hkeys : ∀ m', mrel m' M → (map_to_list m').*1 ≡ₚ (map_to_list M).*1).
  { intros m' Hm'. apply NoDup_Permutation; [apply NoDup_fst_map_to_list..|]. intros k.
    specialize (Hm' k). rewrite !list_elem_of_fmap. split.
    - intros ([k' x] & -> & Hx%elem_of_map_to_list). simpl in *. rewrite Hx in Hm'. inversion Hm'.
      eexists (k', _). split; [done|]. by apply elem_of_map_to_list.
    - intros ([k' x] & -> & Hx%elem_of_map_to_list). simpl in *. rewrite Hx in Hm'. inversion Hm'.
      eexists (k', _). split; [done|]. by apply elem_of_map_to_list. }
  eapply wp_mono.
  { apply (wp_hash_tab_trav key dm hash cmp g p gp proc lk L (λ ks m s ms, mrel m M ∧ I ks s ms)) with (m := m).
    - intros ks m0 h s0 ms0 [? ?]. split; [done|by apply HIl].
    - intros ks m0 d L' s0 ms0 Hr0 Hd0 Hk0 [Hm0 HI0].
      pose proof (Hm0 (key d)) as Hk. rewrite Hd0 in Hk. inversion Hk as [? a Ha HM|]; subst.
      eapply wp_mono; [by eapply HIp|]. intros [] s1 ms1 (d' & Hk' & Hd' & Hl & Hr1 & HI1).
      exists d'. split_and!; try done. rewrite <-(insert_id M (key d) a) by done. by apply mrel_insert.
    - done.
    - done.
    - by rewrite (mrel_size m M).
    - done. }
  intros [] s1 ms1 (ks & m1 & Hl1 & Hr1 & Hks & [Hm1 HI1] & _). exists ks. split_and!; [done|by exists m1| |done].
  rewrite Hks. by apply Hkeys.
Qed.

(** Traversal by a callback that leaves the table alone. *)
Lemma wp_rtrav_ro {Σ} {g : Σ → tab} {p : tab → Σ → Σ} {proc : D → SM Σ unit} {lk M L s ms} :
  trel (g s) M L → ∀ (I : list K → Σ → mem → Prop), (∀ h s, g (p h s) = h) →
  (∀ ks h s ms, I ks s ms → I ks (p h s) ms) →
  (∀ ks d a s ms, M !! key d = Some a → R d a → dm d → key d ∉ ks → I ks s ms →
    wp (proc d) (λ _ s' ms', g s' = g s ∧ I (ks ++ [key d]) s' ms') s ms) →
  (∀ i, (i < Z.to_nat (len (g s)))%nat → free_at L i lk) →
  Z.of_nat (size M) < 2 ^ 64 → I [] s ms →
  wp (hash_tab_trav g p proc lk) (λ _ s' ms', ∃ ks, len (g s') = len (g s) ∧ trel (g s') M L ∧
    ks ≡ₚ (map_to_list M).*1 ∧ I ks s' ms') s ms.
Proof.
  intros Hr I gp HIl HIp Hf Hsz HI. eapply (wp_rtrav Hr); try done.
  intros ks m d a L' s0 ms0 Hr0 _ Hd Ha Hda Hk HI0. destruct (hr_key _ _ _ _ _ _ _ _ _ Hr0 Hd) as [_ Hdd].
  eapply wp_mono; [by eapply HIp|]. intros [] s1 ms1 [Hg HI1]. exists d. rewrite Hg.
  rewrite insert_id by done. by split_and!.
Qed.

(** Destruction. *)
Lemma wp_rdestroy {Σ} {g : Σ → tab} {p : tab → Σ → Σ} {dealloc : D → SM Σ unit} {M s ms} :
  trel (g s) M (idles (len (g s))) → ∀ (I : Σ → mem → Prop), (∀ h s, g (p h s) = h) →
  (∀ h s ms, I s ms → I (p h s) ms) →
  (∀ d a s ms, M !! key d = Some a → R d a → I s ms →
    wp (dealloc d) (λ _ s' ms', g s' = g s ∧ I s' ms') s ms) →
  Z.of_nat (size M) < 2 ^ 64 → I s ms →
  wp (hash_tab_destroy g p dealloc) (λ _ s' ms', I s' ms') s ms.
Proof.
  intros (m & Hr & Hm) I gp HIl HId Hsz HI. eapply wp_mono.
  { apply (wp_hash_tab_destroy key dm hash cmp g p gp dealloc (idles (len (g s))) m (λ _, I)); try done.
    - intros ds d s0 ms0 Hd HI0. pose proof (Hm (key d)) as Hk. rewrite Hd in Hk.
      inversion Hk as [? a Ha HM|]; subst. by eapply HId.
    - by rewrite (mrel_size m M). }
  by intros [] s1 ms1 (ds & _ & ?).
Qed.

Lemma wp_rcreat {Σ} n (s : Σ) :
  0 < n < 2 ^ 31 →
  wp (hash_tab_creat n) (λ r s' ms', s' = s ∧ ms' = [] ∧ ∃ h, r = Some h ∧ len h = n ∧
    trel h ∅ (idles n)) s [].
Proof.
  intros Hn. eapply wp_mono; [by apply (wp_hash_tab_creat key dm hash cmp)|].
  intros r s' ms' (-> & -> & h & -> & Hl & Hr). split_and!; [done..|]. exists h. split_and!; [done..|].
  exists ∅. split; [done|]. intros k. rewrite !lookup_empty. constructor.
Qed.
End Rel.

Section Range.
Context {T : Type → Type} `{TreeLaws T} {D A : Type}.
Context {key : D → Z} {dm : D → Prop} {hash : D → Z} {cmp : D → D → Z} {R : D → A → Prop}.

(** Integer keys of a range [0, n) leave room for [n] data. *)
Lemma trel_size {h : hash_tab_t T D} {M : gmap Z A} {L} n :
  trel (key := key) (dm := dm) (hash := hash) (cmp := cmp) (R := R) h M L →
  0 ≤ n → (∀ d, dm d → 0 ≤ key d < n) → Z.of_nat (size M) ≤ n.
Proof.
  intros (m & Hr & Hm) Hn Hrange. rewrite <-(mrel_size m M) by done. rewrite <-size_dom.
  assert (Hsub : dom m ⊆ list_to_set (C := gset Z) (seqZ 0 n)).
  { intros k [d Hd]%elem_of_dom. apply elem_of_list_to_set, elem_of_seqZ.
    destruct (hr_key _ _ _ _ _ _ _ _ _ Hr Hd) as [<- Hdd]. specialize (Hrange _ Hdd). lia. }
  apply subseteq_size in Hsub. rewrite size_list_to_set in Hsub by apply NoDup_seqZ.
  rewrite length_seqZ in Hsub. lia.
Qed.
End Range.
#[global] Arguments mrel {_ _ _ _ _} R m M.
#[global] Arguments trel {_ _ _ _ _ _ _} key dm hash cmp R h M L.
#[global] Arguments wp_rcreat {_ _ _ _ _ _ _ _} key dm hash cmp R {_} n s _.
