(* ===== verification/TreeRel.v ===== *)
(** A search tree read as a finite map: [tmap t m] says that the tree [t] holds
    the data of [m], by their keys.  The operations of the interface of [Table] in
    these terms, for the clients that keep a tree of records ([rtmq_comm.c],
    [rtmq_recv.c], ...). *)
From stdpp Require Import fin_maps gmap sets.
From S2P Require Import Prelude Table.
Open Scope Z_scope.

(** The data a callback orders: a class, found from the callback. *)
Class TreeOk {D K : Type} (key : D → K) (dm : D → Prop) (cmp : D → D → Z) : Prop :=
  tree_law : cmp_law key dm cmp.

Section Rel.
Context {T : Type → Type} `{TreeLaws T} {D K : Type} `{Countable K}.
Context {key : D → K} {dm : D → Prop} {cmp : D → D → Z} `{!TreeOk key dm cmp}.

Record tmap (t : T D) (m : gmap K D) : Prop := {
  tm_list : ∃ l, tr_wf t l ∧ sorted cmp l ∧ Forall dm l ∧ ∀ k d, m !! k = Some d ↔ d ∈ l ∧ key d = k;
}.

Lemma tmap_key t m k d : tmap t m → m !! k = Some d → key d = k ∧ dm d.
Proof.
  intros [(l & _ & _ & Hl & Hm)] Hk. apply Hm in Hk as [Hin Hk]. split; [done|]. by rewrite Forall_forall in Hl; apply Hl.
Qed.

Lemma tmap_cut (m : gmap K D) l d l1 o l2 :
  Forall dm l → (∀ k d, m !! k = Some d ↔ d ∈ l ∧ key d = k) → dm d → cut cmp d l l1 o l2 → o = m !! key d.
Proof.
  intros Hl Hm Hd Hc. destruct o as [x|].
  - symmetry. apply Hm. assert (x ∈ l) as Hx by (rewrite (cut_eq _ _ _ _ _ _ Hc); set_solver).
    split; [done|]. rewrite Forall_forall in Hl.
    pose proof (cut_hit _ _ _ _ _ _ Hc x eq_refl) as Hz. symmetry. apply (cmp_zero _ _ _ tree_law) in Hz; auto.
  - symmetry. destruct (m !! key d) as [x|] eqn:Hx; [|done]. apply Hm in Hx as [Hx Hk].
    exfalso. apply (cut_miss _ _ _ _ _ _ Hc Hx). rewrite Forall_forall in Hl.
    apply (cmp_zero _ _ _ tree_law); auto.
Qed.

Lemma cut_nodup l d l1 o l2 : Forall dm l → dm d → cut cmp d l l1 o l2 → Forall (λ z, key z ≠ key d) (l1 ++ l2).
Proof.
  intros Hl Hd Hc. rewrite (cut_eq _ _ _ _ _ _ Hc), !Forall_app in Hl. destruct Hl as (Hl1 & _ & Hl2).
  rewrite Forall_forall in Hl1, Hl2. apply Forall_app. split; apply Forall_forall; intros z Hz Hk;
    assert (cmp d z = 0) by (apply (cmp_zero _ _ _ tree_law); auto).
  - pose proof (cut_lt _ _ _ _ _ _ Hc) as Hlt. rewrite Forall_forall in Hlt. specialize (Hlt _ Hz). lia.
  - pose proof (cut_gt _ _ _ _ _ _ Hc) as Hgt. rewrite Forall_forall in Hgt. specialize (Hgt _ Hz). lia.
Qed.

Lemma wp_tquery {t m d} {Q : option D → T D → mem → Prop} {ms} :
  tmap t m → dm d → Q (m !! key d) t ms → wp (tr_query cmp d) Q t ms.
Proof.
  intros [(l & Hwf & Hs & Hl & Hm)] Hd HQ.
  eapply wp_mono; [apply law_query; [done|by apply (sorted_sep key dm)]|].
  intros r t' ms' (-> & -> & l1 & l2 & Hc). by rewrite (tmap_cut _ _ _ _ _ _ Hl Hm Hd Hc).
Qed.

Lemma wp_tinsert {t m d ms} :
  tmap t m → dm d →
  wp (tr_insert cmp d) (λ r t' ms',
    match m !! key d with
    | Some _ => r = TREE_NODE_EXIST ∧ t' = t ∧ ms' = ms
    | None => ms' = tail ms ∧ if decide (head ms = Some false) then r = TREE_ERR ∧ tmap t' m
                              else r = TREE_OK ∧ tmap t' (<[key d := d]> m)
    end) t ms.
Proof.
  intros [(l & Hwf & Hs & Hl & Hm)] Hd.
  eapply wp_mono; [apply law_insert; [done|by apply (sorted_sep key dm)]|].
  intros r t' ms' [(l1 & x & l2 & Hc & -> & -> & ->)|(l1 & l2 & Hc & -> & Hr)];
    rewrite <-(tmap_cut _ _ _ _ _ _ Hl Hm Hd Hc); [done|]. split; [done|]. case_decide; destruct Hr as [-> Hwf'].
  - split; [done|]. constructor. by exists l.
  - split; [done|]. constructor. exists (l1 ++ d :: l2). pose proof (cut_sorted key dm cmp tree_law _ _ _ _ Hd Hl Hs Hc) as Hs'.
    pose proof (cut_nodup _ _ _ _ _ Hl Hd Hc) as Hnd. rewrite Forall_forall in Hnd.
    rewrite (cut_eq _ _ _ _ _ _ Hc) in Hl, Hm. simpl in *. split_and!; [done|done| |].
    + rewrite Forall_app, Forall_cons. rewrite Forall_app in Hl. tauto.
    + intros k x. pose proof (Hm k x) as Hk.
      assert (x ∈ l1 ++ d :: l2 ↔ x = d ∨ x ∈ l1 ++ l2) as -> by set_solver.
      destruct (decide (key d = k)) as [<-|Hne].
      * rewrite lookup_insert_eq. split; [intros [= ->]; auto|]. intros [[->|Hx] Hkx]; [done|].
        by destruct (Hnd _ Hx).
      * rewrite lookup_insert_ne by done. rewrite Hk. split; [tauto|]. intros [[->|Hx] Hkx]; [done|auto].
Qed.

Lemma wp_tstore {t m d x f} {Q : unit → T D → mem → Prop} {ms} :
  tmap t m → dm d → m !! key d = Some x → key (f x) = key d → dm (f x) →
  (∀ t', tmap t' (<[key d := f x]> m) → Q tt t' ms) → wp (tr_store cmp d f) Q t ms.
Proof.
  intros [(l & Hwf & Hs & Hl & Hm)] Hd Hx Hfx Hdf HQ.
  eapply wp_mono; [apply law_store; [done|by apply (sorted_sep key dm)]|].
  intros [] t' ms' (-> & l1 & o & l2 & Hc & Hwf').
  pose proof (tmap_cut _ _ _ _ _ _ Hl Hm Hd Hc) as Ho. rewrite Hx in Ho. subst o. simpl in *.
  pose proof (cut_nodup _ _ _ _ _ Hl Hd Hc) as Hnd. rewrite Forall_forall in Hnd.
  apply HQ. constructor. exists (l1 ++ f x :: l2). pose proof (cut_eq _ _ _ _ _ _ Hc) as Heq. simpl in Heq. subst l.
  pose proof Hl as Hl'. rewrite Forall_app, Forall_cons in Hl'. destruct Hl' as (Hl1 & _ & Hl2).
  assert (Forall dm (l1 ++ l2)) as Hl12 by (by rewrite Forall_app).
  split_and!; [done| |by rewrite Forall_app, Forall_cons|].
  - eapply (cut_sorted key dm _ tree_law (f x)); [done|exact Hl12|by apply sorted_delete with x|].
    eapply (cut_same_key key dm cmp tree_law d); [done|done|done|done|done|apply Hc|apply Hc|done].
  - intros k y. assert (y ∈ l1 ++ f x :: l2 ↔ y = f x ∨ y ∈ l1 ++ l2) as -> by set_solver.
    destruct (decide (key d = k)) as [<-|Hne].
    + rewrite lookup_insert_eq. split; [intros [= <-]; auto|]. intros [[->|Hy] Hky]; [done|].
      by destruct (Hnd _ Hy).
    + rewrite lookup_insert_ne by done. rewrite Hm.
      assert (y ∈ l1 ++ x :: l2 ↔ y = x ∨ y ∈ l1 ++ l2) as -> by set_solver.
      assert (key x = key d) as Hkx by (by apply Hm). split; intros [[->|Hy] Hky]; [congruence|auto|congruence|auto].
Qed.

Lemma wp_tdelete {t m d} {Q : Z * option D → T D → mem → Prop} {ms} :
  tmap t m → dm d → (∀ t', tmap t' (delete (key d) m) → Q (TREE_OK, m !! key d) t' ms) →
  wp (tr_delete cmp d) Q t ms.
Proof.
  intros [(l & Hwf & Hs & Hl & Hm)] Hd HQ.
  eapply wp_mono; [apply law_delete; [done|by apply (sorted_sep key dm)]|].
  intros [c o] t' ms' (-> & Hc0 & l1 & l2 & Hc & Hwf'). simpl in *. subst c.
  pose proof (tmap_cut _ _ _ _ _ _ Hl Hm Hd Hc) as Ho. rewrite Ho. apply HQ. constructor. exists (l1 ++ l2).
  pose proof (cut_nodup _ _ _ _ _ Hl Hd Hc) as Hnd.
  pose proof (cut_eq _ _ _ _ _ _ Hc) as Heq. subst l. rewrite !Forall_app in Hl.
  split_and!; [done| |rewrite Forall_app; tauto|].
  - destruct o as [x|]; simpl in *; [by eapply sorted_delete|done].
  - intros k y. rewrite lookup_delete_Some, Hm. rewrite Forall_forall in Hnd. split.
    + intros (Hk & Hy & <-). split; [|done]. destruct o as [x|]; [|done].
      assert (y ≠ x); [|set_solver]. intros ->. apply Hk. symmetry. apply (Hm _ x). done.
    + intros [Hy <-]. split_and!; [|set_solver|done]. intros Hk. by apply (Hnd y).
Qed.

Lemma wp_tcreat {Σ} (Q : option (T D) → Σ → mem → Prop) (s : Σ) :
  (∀ t, tmap t ∅ → Q (Some t) s []) → wp tr_creat Q s [].
Proof.
  intros HQ. eapply wp_mono; [apply law_creat|]. intros r s' ms' (-> & -> & t & -> & Hwf).
  apply HQ. constructor. exists []. split_and!; [done|constructor|constructor|].
  intros k d. rewrite lookup_empty. split; [done|by intros [?%elem_of_nil _]].
Qed.

Lemma tmap_perm (m : gmap K D) l : sorted cmp l → Forall dm l → (∀ k d, m !! k = Some d ↔ d ∈ l ∧ key d = k) →
  l ≡ₚ (map_to_list m).*2.
Proof.
  intros Hs Hl Hm. pose proof (sorted_keys key dm cmp tree_law l Hl Hs) as Hnd. apply NoDup_Permutation.
  - by eapply NoDup_fmap_1.
  - apply (NoDup_fmap_2_strong snd); [|apply NoDup_map_to_list].
    intros [k x] [k' x'] Hx%elem_of_map_to_list Hx'%elem_of_map_to_list. simpl. intros ->.
    apply Hm in Hx as [_ <-]. by apply Hm in Hx' as [_ <-].
  - intros x. rewrite list_elem_of_fmap. split.
    + intros Hx. exists (key x, x). split; [done|]. apply elem_of_map_to_list, Hm. done.
    + intros ([k y] & -> & Hy%elem_of_map_to_list). simpl. by apply Hm in Hy as [? _].
Qed.

Lemma tmap_num t m : tmap t m → Z.of_nat (size m) < 2 ^ 64 → tr_num t = Z.of_nat (size m).
Proof.
  intros [(l & Hwf & Hs & Hl & Hm)] Hsz. rewrite (law_num _ _ Hwf).
  pose proof (tmap_perm _ _ Hs Hl Hm) as Hp. apply Permutation_length in Hp. rewrite length_fmap, length_map_to_list in Hp.
  rewrite Hp. apply u64_small. lia.
Qed.
End Rel.
Arguments tmap {_ _} {D K _ _} key dm cmp _ _.
