(* ===== verification/Avl.v ===== *)
(** The AVL tree of [lib/core/avl_tree.c], on a heap of nodes linked to their
    children and to their parent.  The flags [*taller] and [*lower] and the datum
    [*data] the C functions write for their caller are part of their results. *)
From S2P Require Import Prelude Heap Table.
Open Scope Z_scope.

Definition AVL_RH : Z := -1.
Definition AVL_EH : Z := 0.
Definition AVL_LH : Z := 1.

Definition AVL_OK : Z := 0.
Definition AVL_ERR : Z := - 2 ^ 31.
Definition AVL_NODE_EXIST : Z := AVL_ERR + 1.

Record avl_node_t (D : Type) := ANode { bf : Z; aparent : ptr; alchild : ptr; archild : ptr; adata : D }.
Arguments ANode {_} _ _ _ _ _.
Arguments bf {_} _.
Arguments aparent {_} _.
Arguments alchild {_} _.
Arguments archild {_} _.
Arguments adata {_} _.

Record avl_tree_t (D : Type) := Avl { anum : Z; aroot : ptr; aheap : heap (avl_node_t D) }.
Arguments Avl {_} _ _ _.
Arguments anum {_} _.
Arguments aroot {_} _.
Arguments aheap {_} _.

Section Ops.
Context {D : Type}.
Abbreviation node_t := (avl_node_t D).
Abbreviation AM := (SM (avl_tree_t D)).

Definition set_bf b (n : node_t) : node_t := ANode b (aparent n) (alchild n) (archild n) (adata n).
Definition set_aparent p (n : node_t) : node_t := ANode (bf n) p (alchild n) (archild n) (adata n).
Definition set_alchild p (n : node_t) : node_t := ANode (bf n) (aparent n) p (archild n) (adata n).
Definition set_archild p (n : node_t) : node_t := ANode (bf n) (aparent n) (alchild n) p (adata n).
Definition set_adata d (n : node_t) : node_t := ANode (bf n) (aparent n) (alchild n) (archild n) d.

Definition set_anum n (t : avl_tree_t D) : avl_tree_t D := Avl n (aroot t) (aheap t).
Definition set_aroot p (t : avl_tree_t D) : avl_tree_t D := Avl (anum t) p (aheap t).
Definition set_aheap h (t : avl_tree_t D) : avl_tree_t D := Avl (anum t) (aroot t) h.
Definition on_aheap {A} : SM (heap node_t) A → AM A := zoom aheap set_aheap.

Definition rd (p : ptr) : AM node_t := on_aheap (hrd p).
Definition wr (p : ptr) (f : node_t → node_t) : AM unit := on_aheap (hwr p f).

Definition avl_set_lchild (node lchild : ptr) : AM unit :=
  wr node (set_alchild lchild);;
  if negb (NULL =? lchild) then wr lchild (set_aparent node) else mret tt.
Definition avl_set_rchild (node rchild : ptr) : AM unit :=
  wr node (set_archild rchild);;
  if negb (NULL =? rchild) then wr rchild (set_aparent node) else mret tt.

Definition avl_replace_child (parent old new : ptr) : AM unit :=
  if NULL =? parent then
    modify (set_aroot new);;
    if negb (NULL =? new) then wr new (set_aparent NULL) else mret tt
  else
    p ← rd parent;
    if alchild p =? old then avl_set_lchild parent new
    else if archild p =? old then avl_set_rchild parent new
    else mret tt.

Definition avl_creat {Σ} : SM Σ (option (avl_tree_t D)) :=
  ok ← malloc;
  mret (if ok : bool then Some (Avl 0 NULL empty_heap) else None).

(** *** Rotations *)

Definition avl_rr_balance (node : ptr) : AM Z :=
  n ← rd node;
  let rchild := archild n in
  let parent := aparent n in
  r ← rd rchild;
  avl_set_rchild node (alchild r);;
  wr node (set_bf AVL_EH);;
  avl_set_lchild rchild node;;
  wr rchild (set_bf AVL_EH);;
  avl_replace_child parent node rchild;;
  mret AVL_OK.

(** The factors after a double rotation, by that of the node in the middle. *)
Definition rl_factors (node rchild rlchild : ptr) : AM unit :=
  m ← rd rlchild;
  let set a b c := wr node (set_bf a);; wr rchild (set_bf b);; wr rlchild (set_bf c) in
  if bf m =? AVL_LH then set AVL_EH AVL_RH AVL_EH
  else if bf m =? AVL_EH then set AVL_EH AVL_EH AVL_EH
  else if bf m =? AVL_RH then set AVL_LH AVL_EH AVL_EH
  else mret tt.

Definition avl_rl_balance (node : ptr) : AM Z :=
  n ← rd node;
  let rchild := archild n in
  let parent := aparent n in
  r ← rd rchild;
  let rlchild := alchild r in
  rl_factors node rchild rlchild;;
  m ← rd rlchild;
  avl_set_lchild rchild (archild m);;
  avl_set_rchild rlchild rchild;;
  m ← rd rlchild;
  avl_set_rchild node (alchild m);;
  avl_set_lchild rlchild node;;
  avl_replace_child parent node rlchild;;
  mret AVL_OK.

Definition avl_right_balance (node : ptr) : AM Z :=
  n ← rd node;
  r ← rd (archild n);
  if bf r =? AVL_RH then avl_rr_balance node
  else if bf r =? AVL_LH then avl_rl_balance node
  else mret AVL_ERR.

Definition avl_ll_balance (node : ptr) : AM Z :=
  n ← rd node;
  let lchild := alchild n in
  let parent := aparent n in
  l ← rd lchild;
  avl_set_lchild node (archild l);;
  wr node (set_bf AVL_EH);;
  avl_set_rchild lchild node;;
  wr lchild (set_bf AVL_EH);;
  avl_replace_child parent node lchild;;
  mret AVL_OK.

Definition lr_factors (node lchild lrchild : ptr) : AM unit :=
  m ← rd lrchild;
  let set a b c := wr node (set_bf a);; wr lchild (set_bf b);; wr lrchild (set_bf c) in
  if bf m =? AVL_LH then set AVL_RH AVL_EH AVL_EH
  else if bf m =? AVL_EH then set AVL_EH AVL_EH AVL_EH
  else if bf m =? AVL_RH then set AVL_EH AVL_LH AVL_EH
  else mret tt.

Definition avl_lr_balance (node : ptr) : AM Z :=
  n ← rd node;
  let lchild := alchild n in
  let parent := aparent n in
  l ← rd lchild;
  let lrchild := archild l in
  lr_factors node lchild lrchild;;
  m ← rd lrchild;
  avl_set_rchild lchild (alchild m);;
  avl_set_lchild lrchild lchild;;
  m ← rd lrchild;
  avl_set_lchild node (archild m);;
  avl_set_rchild lrchild node;;
  avl_replace_child parent node lrchild;;
  mret AVL_OK.

Definition avl_left_balance (node : ptr) : AM Z :=
  n ← rd node;
  l ← rd (alchild n);
  if bf l =? AVL_LH then avl_ll_balance node
  else if bf l =? AVL_RH then avl_lr_balance node
  else mret AVL_ERR.

(** *** Insertion *)

(** A child added below [node]. *)
Definition avl_add (node : ptr) (link : ptr → node_t → node_t) (data : D) : AM (option ptr) :=
  add ← on_aheap (halloc (ANode AVL_EH node NULL NULL data));
  match add with
  | None => mret None
  | Some add => wr node (link add);; mret (Some add)
  end.

(** The result and [*taller]; [rec] is [_avl_insert] on the child. *)
Definition avl_insert_right (rec : ptr → AM (Z * bool)) (node : ptr) (data : D) : AM (Z * bool) :=
  n ← rd node;
  x ← (if NULL =? archild n then
         add ← avl_add node set_archild data;
         mret (match add with None => (AVL_ERR, false) | Some _ => (AVL_OK, true) end)
       else rec (archild n));
  let '(ret, taller) := x in
  if negb (ret =? AVL_OK) then mret (ret, taller) else
  if negb taller then mret (AVL_OK, taller) else
  n ← rd node;
  if bf n =? AVL_LH then wr node (set_bf AVL_EH);; mret (AVL_OK, false)
  else if bf n =? AVL_EH then wr node (set_bf AVL_RH);; mret (AVL_OK, true)
  else if bf n =? AVL_RH then avl_right_balance node;; mret (AVL_OK, false)
  else mret (AVL_ERR, taller).

Definition avl_insert_left (rec : ptr → AM (Z * bool)) (node : ptr) (data : D) : AM (Z * bool) :=
  n ← rd node;
  x ← (if NULL =? alchild n then
         add ← avl_add node set_alchild data;
         mret (match add with None => (AVL_ERR, false) | Some _ => (AVL_OK, true) end)
       else rec (alchild n));
  let '(ret, taller) := x in
  if negb (ret =? AVL_OK) then mret (ret, taller) else
  if negb taller then mret (AVL_OK, taller) else
  n ← rd node;
  if bf n =? AVL_RH then wr node (set_bf AVL_EH);; mret (AVL_OK, false)
  else if bf n =? AVL_EH then wr node (set_bf AVL_LH);; mret (AVL_OK, true)
  else if bf n =? AVL_LH then avl_left_balance node;; mret (AVL_OK, false)
  else mret (AVL_ERR, taller).

Section Cmp.
Context (cmp_cb : D → D → Z).

Fixpoint _avl_insert (fuel : nat) (data : D) (node : ptr) : AM (Z * bool) :=
  match fuel with
  | O => nofuel
  | S fuel =>
      n ← rd node;
      let ret := cmp_cb data (adata n) in
      if ret =? 0 then mret (AVL_NODE_EXIST, false)
      else if ret <? 0 then avl_insert_left (_avl_insert fuel data) node data
      else avl_insert_right (_avl_insert fuel data) node data
  end.

(** A path of the tree visits a node once: the fuel is the number of nodes. *)
Definition avl_fuel (t : avl_tree_t D) : nat := S (size (cell (aheap t))).

Definition avl_insert (data : D) : AM Z :=
  t ← get;
  if NULL =? aroot t then
    root ← on_aheap (halloc (ANode AVL_EH NULL NULL NULL data));
    match root with
    | None => mret AVL_ERR
    | Some root => modify (set_anum 1);; modify (set_aroot root);; mret AVL_OK
    end
  else
    x ← _avl_insert (avl_fuel t) data (aroot t);
    let ret := fst x in
    (if ret =? AVL_OK then modify (λ t, set_anum (u64 (anum t + 1)) t) else mret tt);;
    mret ret.

(** *** Search *)

Definition avl_locate (key : D) : AM (option ptr) :=
  t ← get;
  loop (avl_fuel t) (λ node,
    if NULL =? node then mret (inr None) else
    n ← rd node;
    let ret := cmp_cb key (adata n) in
    if ret =? 0 then mret (inr (Some node))
    else if ret <? 0 then mret (inl (alchild n))
    else mret (inl (archild n))) (aroot t).

Definition avl_query (key : D) : AM (option D) :=
  p ← avl_locate key;
  match p with Some p => n ← rd p; mret (Some (adata n)) | None => mret None end.

(** The writes made through the pointer a query returned. *)
Definition avl_store (key : D) (f : D → D) : AM unit :=
  p ← avl_locate key;
  match p with Some p => wr p (λ n, set_adata (f (adata n)) n) | None => mret tt end.

(** *** Deletion *)

Definition avl_assert (node : ptr) : AM unit :=
  if NULL =? node then mret tt else
  n ← rd node;
  if NULL =? aparent n then mret tt else
  p ← rd (aparent n);
  cassert ((alchild p =? node) || (archild p =? node));;
  cassert (negb ((aparent n =? alchild n) || (aparent n =? archild n))).

(** [lower] is the flag on entry; the result is the flag on return. *)
Definition avl_delete_left_balance (node : ptr) (lower : bool) : AM bool :=
  n ← rd node;
  let parent := aparent n in
  if bf n =? AVL_LH then wr node (set_bf AVL_EH);; mret true
  else if bf n =? AVL_EH then wr node (set_bf AVL_RH);; mret false
  else if bf n =? AVL_RH then
    let rchild := archild n in
    r ← rd rchild;
    if (bf r =? AVL_EH) || (bf r =? AVL_RH) then
      lower ← (if bf r =? AVL_EH
               then wr rchild (set_bf AVL_LH);; wr node (set_bf AVL_RH);; mret false
               else wr rchild (set_bf AVL_EH);; wr node (set_bf AVL_EH);; mret true);
      r ← rd rchild;
      avl_set_rchild node (alchild r);;
      avl_set_lchild rchild node;;
      avl_replace_child parent node rchild;;
      avl_assert node;; avl_assert rchild;;
      mret lower
    else if bf r =? AVL_LH then
      let rlchild := alchild r in
      rl_factors node rchild rlchild;;
      m ← rd rlchild;
      avl_set_rchild node (alchild m);;
      avl_set_lchild rchild (archild m);;
      avl_set_lchild rlchild node;;
      avl_set_rchild rlchild rchild;;
      avl_replace_child parent node rlchild;;
      avl_assert parent;; avl_assert node;; avl_assert rchild;; avl_assert rlchild;;
      mret true
    else mret lower
  else mret lower.

Definition avl_delete_right_balance (node : ptr) (lower : bool) : AM bool :=
  n ← rd node;
  let parent := aparent n in
  if bf n =? AVL_LH then
    let lchild := alchild n in
    l ← rd lchild;
    if (bf l =? AVL_EH) || (bf l =? AVL_LH) then
      lower ← (if bf l =? AVL_EH
               then wr lchild (set_bf AVL_RH);; wr node (set_bf AVL_LH);; mret false
               else wr lchild (set_bf AVL_EH);; wr node (set_bf AVL_EH);; mret true);
      l ← rd lchild;
      avl_set_lchild node (archild l);;
      avl_set_rchild lchild node;;
      avl_replace_child parent node lchild;;
      avl_assert parent;; avl_assert node;; avl_assert lchild;;
      mret lower
    else if bf l =? AVL_RH then
      let lrchild := archild l in
      lr_factors node lchild lrchild;;
      m ← rd lrchild;
      avl_set_lchild node (archild m);;
      avl_set_rchild lchild (alchild m);;
      avl_set_rchild lrchild node;;
      avl_set_lchild lrchild lchild;;
      avl_replace_child parent node lrchild;;
      avl_assert parent;; avl_assert node;; avl_assert lchild;; avl_assert lrchild;;
      mret true
    else mret lower
  else if bf n =? AVL_EH then wr node (set_bf AVL_LH);; mret false
  else if bf n =? AVL_RH then wr node (set_bf AVL_EH);; mret true
  else mret lower.

Fixpoint avl_replace_and_delete (fuel : nat) (node prev : ptr) (lower : bool) : AM bool :=
  match fuel with
  | O => nofuel
  | S fuel =>
      p ← rd prev;
      if NULL =? archild p then
        wr node (set_adata (adata p));;
        n ← rd node;
        (if prev =? alchild n then avl_set_lchild node (alchild p)
         else avl_set_rchild (aparent p) (alchild p));;
        avl_assert node;; avl_assert (aparent p);; avl_assert (alchild p);;
        on_aheap (hfree prev);;
        mret true
      else
        lower ← avl_replace_and_delete fuel node (archild p) lower;
        if lower : bool then
          avl_assert node;; avl_assert prev;;
          avl_delete_right_balance prev lower
        else mret lower
  end.

(** [*lower] and [*data]; every return is [AVL_OK]. *)
Fixpoint _avl_delete (fuel : nat) (node : ptr) (key : D) (lower : bool) : AM (bool * option D) :=
  match fuel with
  | O => nofuel
  | S fuel =>
      n ← rd node;
      let parent := aparent n in
      let ret := cmp_cb key (adata n) in
      if ret <? 0 then
        if NULL =? alchild n then mret (lower, None) else
        '(lower, data) ← _avl_delete fuel (alchild n) key lower;
        avl_assert node;;
        n ← rd node;
        avl_assert (alchild n);;
        if lower : bool then
          lower ← avl_delete_left_balance node lower; mret (lower, data)
        else mret (lower, data)
      else if ret >? 0 then
        if NULL =? archild n then mret (lower, None) else
        '(lower, data) ← _avl_delete fuel (archild n) key lower;
        avl_assert node;;
        n ← rd node;
        avl_assert (archild n);;
        if lower : bool then
          lower ← avl_delete_right_balance node lower; mret (lower, data)
        else mret (lower, data)
      else
        modify (λ t, set_anum (u64 (anum t - 1)) t);;
        let data := Some (adata n) in
        if NULL =? archild n then
          avl_replace_child parent node (alchild n);;
          avl_assert parent;; avl_assert (alchild n);;
          on_aheap (hfree node);;
          mret (true, data)
        else if NULL =? alchild n then
          avl_replace_child parent node (archild n);;
          avl_assert parent;; avl_assert (archild n);;
          on_aheap (hfree node);;
          mret (true, data)
        else
          lower ← avl_replace_and_delete fuel node (alchild n) lower;
          if lower : bool then
            avl_assert node;;
            lower ← avl_delete_left_balance node lower; mret (lower, data)
          else mret (lower, data)
  end.

Definition avl_delete (key : D) : AM (Z * option D) :=
  t ← get;
  if NULL =? aroot t then mret (AVL_OK, None) else
  '(_, data) ← _avl_delete (avl_fuel t) (aroot t) key false;
  mret (AVL_OK, data).
End Cmp.

(** *** Traversals *)

Section Trav.
Context {Σ : Type}.

Definition rd_of (t : avl_tree_t D) (p : ptr) : SM Σ node_t := deref (cell (aheap t) !! p).

Fixpoint _avl_trav (fuel : nat) (t : avl_tree_t D) (node : ptr) (proc : D → SM Σ unit) : SM Σ unit :=
  match fuel with
  | O => nofuel
  | S fuel =>
      n ← rd_of t node;
      (if negb (NULL =? alchild n) then _avl_trav fuel t (alchild n) proc else mret tt);;
      proc (adata n);;
      if negb (NULL =? archild n) then _avl_trav fuel t (archild n) proc else mret tt
  end.

Definition avl_trav (t : avl_tree_t D) (proc : D → SM Σ unit) : SM Σ unit :=
  if NULL =? aroot t then mret tt else _avl_trav (avl_fuel t) t (aroot t) proc.

Fixpoint _avl_find (fuel : nat) (t : avl_tree_t D) (node : ptr) (find : D → SM Σ bool) : SM Σ (option D) :=
  match fuel with
  | O => nofuel
  | S fuel =>
      n ← rd_of t node;
      data ← (if negb (NULL =? alchild n) then _avl_find fuel t (alchild n) find else mret None);
      match data with
      | Some data => mret (Some data)
      | None =>
          found ← find (adata n);
          if found : bool then mret (Some (adata n)) else
          if negb (NULL =? archild n) then _avl_find fuel t (archild n) find else mret None
      end
  end.

Definition avl_find (t : avl_tree_t D) (find : D → SM Σ bool) : SM Σ (option D) :=
  if NULL =? aroot t then mret None else _avl_find (avl_fuel t) t (aroot t) find.

Abbreviation DM := (SM (avl_tree_t D * Σ)).

Fixpoint _avl_destroy (fuel : nat) (node : ptr) (dealloc : D → SM Σ unit) : DM unit :=
  match fuel with
  | O => nofuel
  | S fuel =>
      n ← on_fst (rd node);
      (if negb (NULL =? alchild n) then _avl_destroy fuel (alchild n) dealloc else mret tt);;
      n ← on_fst (rd node);
      (if negb (NULL =? archild n) then _avl_destroy fuel (archild n) dealloc else mret tt);;
      n ← on_fst (rd node);
      on_snd (dealloc (adata n));;
      on_fst (on_aheap (hfree node))
  end.

(** The tree itself is released: the model ends with an empty one. *)
Definition avl_destroy (dealloc : D → SM Σ unit) : DM unit :=
  s ← get;
  if NULL =? aroot (fst s) then mret tt else
  _avl_destroy (avl_fuel (fst s)) (aroot (fst s)) dealloc;;
  on_fst (modify (set_aroot NULL)).
End Trav.
End Ops.
