(* ===== verification/AvlSpec.v ===== *)
(** The heap of [Avl] read as a binary tree under focus: [Rep st t k] says that
    the nodes of the heap are those of the subtree [t] hanging in the context
    [k], with their links to children and parents.  The rotations of the C code
    are the rotations of the trees. *)
From S2P Require Import Prelude Heap Table Avl.
Open Scope Z_scope.

Section Spec.
Context {D : Type}.
Abbreviation node_t := (avl_node_t D).
Abbreviation avl := (avl_tree_t D).

(** ** Trees *)

Inductive tree := L | N (p : ptr) (b : Z) (l : tree) (d : D) (r : tree).

Definition tptr (t : tree) : ptr := match t with L => NULL | N p _ _ _ _ => p end.
Fixpoint flat (t : tree) : list D := match t with L => [] | N _ _ l d r => flat l ++ d :: flat r end.
Fixpoint height (t : tree) : Z := match t with L => 0 | N _ _ l _ r => 1 + Z.max (height l) (height r) end.
Definition factor (t : tree) : Z := match t with L => 0 | N _ b _ _ _ => b end.

(** The factors are the differences of the heights, at most one. *)
Fixpoint balanced (t : tree) : Prop :=
  match t with
  | L => True
  | N _ b l _ r => balanced l ∧ balanced r ∧ b = height l - height r ∧ -1 ≤ b ≤ 1
  end.

#[export] Instance tree_leaf_dec t : Decision (t = L).
Proof. destruct t; [by left|by right]. Defined.

Lemma height_pos t : 0 ≤ height t.
Proof. induction t; simpl; lia. Qed.

Fixpoint cells (t : tree) (par : ptr) : list (ptr * node_t) :=
  match t with
  | L => []
  | N p b l d r => (p, ANode b par (tptr l) (tptr r) d) :: cells l p ++ cells r p
  end.

Lemma avl_length_cells t par : length (cells t par) = length (flat t).
Proof.
  revert par. induction t as [|p b l IHl d r IHr]; intros par; [done|].
  cbn [cells flat length]. rewrite !length_app, IHl, IHr. simpl. lia.
Qed.

(** ** Contexts *)

(** The node above, seen from its left ([FL]) or right ([FR]) child. *)
Inductive frame := FL (p : ptr) (b : Z) (d : D) (r : tree) | FR (p : ptr) (b : Z) (l : tree) (d : D).
Abbreviation context := (list frame).

Definition fptr (f : frame) : ptr := match f with FL p _ _ _ | FR p _ _ _ => p end.
Definition kptr (k : context) : ptr := match k with [] => NULL | f :: _ => fptr f end.
Definition fill (f : frame) (t : tree) : tree :=
  match f with FL p b d r => N p b t d r | FR p b l d => N p b l d t end.
Definition fnode (f : frame) (par c : ptr) : node_t :=
  match f with FL _ b d r => ANode b par c (tptr r) d | FR _ b l d => ANode b par (tptr l) c d end.
Definition fside (f : frame) : tree := match f with FL _ _ _ r => r | FR _ _ l _ => l end.

Fixpoint kcells (k : context) (c : ptr) : list (ptr * node_t) :=
  match k with
  | [] => []
  | f :: k => (fptr f, fnode f (kptr k) c) :: cells (fside f) (fptr f) ++ kcells k (fptr f)
  end.

Fixpoint kroot (k : context) (c : ptr) : ptr :=
  match k with [] => c | f :: k => kroot k (fptr f) end.

Lemma tptr_fill f t : tptr (fill f t) = fptr f.
Proof. by destruct f. Qed.

(** Moving the focus. *)
Lemma cells_fill f t k :
  cells (fill f t) (kptr k) ++ kcells k (fptr f) ≡ₚ cells t (fptr f) ++ kcells (f :: k) (tptr t).
Proof. destruct f; simpl; solve_Permutation. Qed.

(** Detached shapes: [C] are cells whose owner is under construction. *)
Definition Own (st : avl) (C : list (ptr * node_t)) : Prop := hp (aheap st) C.

Record Rep (st : avl) (t : tree) (k : context) (C : list (ptr * node_t)) : Prop := {
  rep_hp : Own st (cells t (kptr k) ++ kcells k (tptr t) ++ C);
  rep_root : aroot st = kroot k (tptr t);
}.

Lemma own_perm st C C' : C ≡ₚ C' → Own st C → Own st C'.
Proof. apply hp_perm. Qed.

Lemma rep_down st f t k C : Rep st (fill f t) k C ↔ Rep st t (f :: k) C.
Proof.
  pose proof (cells_fill f t k) as Hp. split; intros [Hh Hr]; constructor; rewrite ?tptr_fill in *; try exact Hr.
  - eapply own_perm; [|exact Hh]. by rewrite !app_assoc, Hp.
  - eapply own_perm; [|exact Hh]. by rewrite !app_assoc, Hp.
Qed.

Lemma avl_rep_left st p b l d r k C : Rep st (N p b l d r) k C ↔ Rep st l (FL p b d r :: k) C.
Proof. apply (rep_down st (FL p b d r) l k). Qed.
Lemma avl_rep_right st p b l d r k C : Rep st (N p b l d r) k C ↔ Rep st r (FR p b l d :: k) C.
Proof. apply (rep_down st (FR p b l d) r k). Qed.

(** The whole tree. *)
Fixpoint plug (k : context) (t : tree) : tree := match k with [] => t | f :: k => plug k (fill f t) end.
Fixpoint kleft (k : context) : list D :=
  match k with [] => [] | FL _ _ _ _ :: k => kleft k | FR _ _ l d :: k => kleft k ++ flat l ++ [d] end.
Fixpoint kright (k : context) : list D :=
  match k with [] => [] | FL _ _ d r :: k => d :: flat r ++ kright k | FR _ _ _ _ :: k => kright k end.

Lemma avl_rep_plug st t k C : Rep st (plug k t) [] C ↔ Rep st t k C.
Proof. revert t. induction k as [|f k IH]; intros t; simpl; [done|]. by rewrite IH, rep_down. Qed.

Lemma flat_plug k t : flat (plug k t) = kleft k ++ flat t ++ kright k.
Proof.
  revert t. induction k as [|[p b d r|p b l d] k IH]; intros t; simpl; [by rewrite app_nil_r|..]; rewrite IH; simpl;
    by rewrite <-?app_assoc.
Qed.

(** Another subtree of the same height. *)
Lemma plug_swap k t t' : height t' = height t → (balanced t → balanced t') →
  height (plug k t') = height (plug k t) ∧ (balanced (plug k t) → balanced (plug k t')).
Proof.
  revert t t'. induction k as [|[p b d r|p b l d] k IH]; intros t t' Hh Hb; simpl; [done|apply IH..]; simpl;
    rewrite ?Hh; try done; tauto.
Qed.

(** ** Cells *)

Lemma wp_rd_h p n C (Q : node_t → avl → mem → Prop) st ms :
  Own st ((p, n) :: C) → Q n st ms → wp (rd p) Q st ms.
Proof.
  intros Hh HQ. unfold rd, on_aheap. apply wp_zoom. eapply wp_hrd; [exact Hh|]. destruct st; exact HQ.
Qed.

Lemma wp_wr_h p n f C (Q : unit → avl → mem → Prop) st ms :
  Own st ((p, n) :: C) →
  (∀ st', Own st' ((p, f n) :: C) → aroot st' = aroot st → anum st' = anum st → Q tt st' ms) →
  wp (wr p f) Q st ms.
Proof.
  intros Hh HQ. unfold wr, on_aheap. apply wp_zoom. eapply wp_hwr; [exact Hh|]. intros h' Hh'. by apply HQ.
Qed.

Lemma own_pos st C p n : Own st ((p, n) :: C) → NULL < p.
Proof. intros Hh. apply (hp_pos _ _ _ Hh). left. Qed.

Lemma tptr_pos st t par C : Own st (cells t par ++ C) → t ≠ L → NULL < tptr t.
Proof. destruct t; [done|]. intros Hh _. exact (own_pos _ _ _ _ Hh). Qed.

Lemma tptr_null st t par C : Own st (cells t par ++ C) → (NULL =? tptr t) = match t with L => true | _ => false end.
Proof.
  intros Hh. destruct t as [|p b l d r]; [done|]. apply Z.eqb_neq. pose proof (own_pos _ _ _ _ Hh). unfold NULL in *. simpl. lia.
Qed.

(** The root of a subtree gets another parent. *)
Lemma wp_reparent t par par' C (Q : unit → avl → mem → Prop) st ms :
  Own st (cells t par ++ C) →
  (∀ st', Own st' (cells t par' ++ C) → aroot st' = aroot st → anum st' = anum st → Q tt st' ms) →
  wp (if negb (NULL =? tptr t) then wr (tptr t) (set_aparent par') else mret tt) Q st ms.
Proof.
  intros Hh HQ. rewrite (tptr_null _ _ _ _ Hh). destruct t as [|p b l d r]; cbn [negb].
  - apply wp_ret. by apply HQ.
  - eapply wp_wr_h; [exact Hh|]. exact HQ.
Qed.

Lemma avl_wp_set_lchild p n t par C (Q : unit → avl → mem → Prop) st ms :
  Own st ((p, n) :: cells t par ++ C) →
  (∀ st', Own st' ((p, set_alchild (tptr t) n) :: cells t p ++ C) → aroot st' = aroot st → anum st' = anum st → Q tt st' ms) →
  wp (avl_set_lchild p (tptr t)) Q st ms.
Proof.
  intros Hh HQ. unfold avl_set_lchild. apply wp_bind. eapply wp_wr_h; [exact Hh|]. intros st1 H1 Hr1 Hn1.
  apply (wp_reparent t par p ((p, set_alchild (tptr t) n) :: C)); [eapply own_perm; [|exact H1]; solve_Permutation|].
  intros st2 H2 Hr2 Hn2. apply HQ; [|congruence..]. eapply own_perm; [|exact H2]. solve_Permutation.
Qed.

Lemma avl_wp_set_rchild p n t par C (Q : unit → avl → mem → Prop) st ms :
  Own st ((p, n) :: cells t par ++ C) →
  (∀ st', Own st' ((p, set_archild (tptr t) n) :: cells t p ++ C) → aroot st' = aroot st → anum st' = anum st → Q tt st' ms) →
  wp (avl_set_rchild p (tptr t)) Q st ms.
Proof.
  intros Hh HQ. unfold avl_set_rchild. apply wp_bind. eapply wp_wr_h; [exact Hh|]. intros st1 H1 Hr1 Hn1.
  apply (wp_reparent t par p ((p, set_archild (tptr t) n) :: C)); [eapply own_perm; [|exact H1]; solve_Permutation|].
  intros st2 H2 Hr2 Hn2. apply HQ; [|congruence..]. eapply own_perm; [|exact H2]. solve_Permutation.
Qed.

(** ** The link from above *)

Lemma own_nodup st C : Own st C → NoDup C.*1.
Proof. apply hp_nodup. Qed.

Lemma own_fresh st p n C : Own st ((p, n) :: C) → p ∉ C.*1.
Proof. intros Hh%own_nodup. by apply NoDup_cons in Hh as [? _]. Qed.

Lemma tptr_in t par : t ≠ L → tptr t ∈ (cells t par).*1.
Proof. destruct t; [done|]. intros _. left. Qed.

(** The child pointer of another subtree is not [p]. *)
Lemma tptr_other st p n t par C : Own st ((p, n) :: cells t par ++ C) → tptr t ≠ p.
Proof.
  intros Hh Heq. pose proof (own_fresh _ _ _ _ Hh) as Hp. pose proof (own_pos _ _ _ _ Hh).
  destruct t as [|q b l d r]; [simpl in Heq; unfold NULL in *; lia|]. apply Hp. rewrite <-Heq, fmap_app, elem_of_app.
  left. by apply tptr_in.
Qed.

Lemma wp_replace_child k old t q C (Q : unit → avl → mem → Prop) st ms :
  Own st (cells t q ++ kcells k old ++ C) → aroot st = kroot k old → old ∈ (cells t q ++ C).*1 →
  (∀ st', Rep st' t k C → anum st' = anum st → Q tt st' ms) →
  wp (avl_replace_child (kptr k) old (tptr t)) Q st ms.
Proof.
  intros Hh Hr Hold HQ. unfold avl_replace_child. destruct k as [|f k].
  - cbn [kptr kcells kroot app] in *. change (NULL =? NULL) with true. apply wp_bind. unfold modify, wp at 1.
    eapply wp_reparent; [exact Hh|]. intros st' Hh' Hr' Hn'. by apply HQ.
  - assert (Own st ((fptr f, fnode f (kptr k) old) :: cells t q ++ cells (fside f) (fptr f) ++ kcells k (fptr f) ++ C)) as H1.
    { eapply own_perm; [|exact Hh]. simpl. solve_Permutation. }
    pose proof (own_pos _ _ _ _ H1) as Hpos. change (kptr (f :: k)) with (fptr f).
    rewrite (proj2 (Z.eqb_neq _ _)) by (unfold NULL in *; lia). apply wp_bind. eapply wp_rd_h; [exact H1|].
    assert (∀ st', Own st' ((fptr f, fnode f (kptr k) (tptr t)) :: cells t (fptr f) ++ cells (fside f) (fptr f) ++ kcells k (fptr f) ++ C) →
      aroot st' = aroot st → anum st' = anum st → Q tt st' ms) as HQ'.
    { intros st' Hh' Hr' Hn'. apply HQ; [|done]. constructor; [|by rewrite Hr', Hr]. eapply own_perm; [|exact Hh']. simpl. solve_Permutation. }
    destruct f as [p b d r|p b l d]; cbn [fnode fptr fside alchild archild] in *.
    + rewrite Z.eqb_refl. eapply avl_wp_set_lchild; [exact H1|]. exact HQ'.
    + assert (tptr l ≠ old) as Hne.
      { apply list_elem_of_fmap in Hold as ([old' n] & -> & Hold). cbn [fst] in *.
        destruct (elem_of_Permutation (cells t q ++ C) (old', n)) as [[l' Hl'] _]; [done|].
        apply (tptr_other st old' n l p (l' ++ (p, ANode b (kptr k) (tptr l) old' d) :: kcells k p)).
        eapply own_perm; [|exact H1].
        transitivity ((p, ANode b (kptr k) (tptr l) old' d) :: (cells t q ++ C) ++ cells l p ++ kcells k p); [solve_Permutation|].
        rewrite Hl'. solve_Permutation. }
      rewrite (proj2 (Z.eqb_neq _ _) Hne), Z.eqb_refl. eapply avl_wp_set_rchild; [exact H1|]. exact HQ'.
Qed.

(** ** Assertions *)

Lemma avl_wp_assert_null (Q : unit → avl → mem → Prop) st ms : Q tt st ms → wp (avl_assert NULL) Q st ms.
Proof. done. Qed.

Lemma wp_assert t k C (Q : unit → avl → mem → Prop) st ms :
  Rep st t k C → Q tt st ms → wp (avl_assert (tptr t)) Q st ms.
Proof.
  intros [Hh _] HQ. destruct t as [|p b l d r]; [by apply avl_wp_assert_null|]. unfold avl_assert. cbn [tptr cells] in *.
  pose proof (own_pos _ _ _ _ Hh) as Hp. rewrite (proj2 (Z.eqb_neq _ _)) by (unfold NULL in *; lia).
  apply wp_bind. eapply wp_rd_h; [exact Hh|]. cbn [aparent alchild archild]. destruct k as [|f k]; [done|].
  assert (Own st ((fptr f, fnode f (kptr k) p) :: cells l p ++ cells r p ++ (p, ANode b (fptr f) (tptr l) (tptr r) d) ::
    cells (fside f) (fptr f) ++ kcells k (fptr f) ++ C)) as H1.
  { eapply own_perm; [|exact Hh]. simpl. solve_Permutation. }
  pose proof (own_pos _ _ _ _ H1) as Hf. change (kptr (f :: k)) with (fptr f).
  rewrite (proj2 (Z.eqb_neq _ _)) by (unfold NULL in *; lia). apply wp_bind. eapply wp_rd_h; [exact H1|].
  pose proof (tptr_other _ _ _ _ _ _ H1) as Hl.
  assert (tptr r ≠ fptr f) as Hr.
  { apply (tptr_other st (fptr f) (fnode f (kptr k) p) r p (cells l p ++ (p, ANode b (fptr f) (tptr l) (tptr r) d) ::
      cells (fside f) (fptr f) ++ kcells k (fptr f) ++ C)). eapply own_perm; [|exact H1]. solve_Permutation. }
  assert ((alchild (fnode f (kptr k) p) =? p) || (archild (fnode f (kptr k) p) =? p) = true) as ->.
  { destruct f; simpl; rewrite Z.eqb_refl; by rewrite ?orb_true_r. }
  rewrite (proj2 (Z.eqb_neq (fptr f) (tptr l))), (proj2 (Z.eqb_neq (fptr f) (tptr r))) by congruence. done.
Qed.

(** ** Steps *)

Lemma wp_set_lchild_node q n p m C (Q : unit → avl → mem → Prop) st ms :
  Own st ((q, n) :: (p, m) :: C) →
  (∀ st', Own st' ((q, set_alchild p n) :: (p, set_aparent q m) :: C) → aroot st' = aroot st → anum st' = anum st → Q tt st' ms) →
  wp (avl_set_lchild q p) Q st ms.
Proof.
  intros Hh HQ. unfold avl_set_lchild. apply wp_bind. eapply wp_wr_h; [exact Hh|]. intros st1 H1 Hr1 Hn1.
  assert (Own st1 ((p, m) :: (q, set_alchild p n) :: C)) as H2 by (eapply own_perm; [|exact H1]; solve_Permutation).
  pose proof (own_pos _ _ _ _ H2). rewrite (proj2 (Z.eqb_neq _ _)) by (unfold NULL in *; lia). cbn [negb].
  eapply wp_wr_h; [exact H2|]. intros st2 H3 Hr2 Hn2. apply HQ; [|congruence..]. eapply own_perm; [|exact H3]. solve_Permutation.
Qed.

Lemma wp_set_rchild_node q n p m C (Q : unit → avl → mem → Prop) st ms :
  Own st ((q, n) :: (p, m) :: C) →
  (∀ st', Own st' ((q, set_archild p n) :: (p, set_aparent q m) :: C) → aroot st' = aroot st → anum st' = anum st → Q tt st' ms) →
  wp (avl_set_rchild q p) Q st ms.
Proof.
  intros Hh HQ. unfold avl_set_rchild. apply wp_bind. eapply wp_wr_h; [exact Hh|]. intros st1 H1 Hr1 Hn1.
  assert (Own st1 ((p, m) :: (q, set_archild p n) :: C)) as H2 by (eapply own_perm; [|exact H1]; solve_Permutation).
  pose proof (own_pos _ _ _ _ H2). rewrite (proj2 (Z.eqb_neq _ _)) by (unfold NULL in *; lia). cbn [negb].
  eapply wp_wr_h; [exact H2|]. intros st2 H3 Hr2 Hn2. apply HQ; [|congruence..]. eapply own_perm; [|exact H3]. solve_Permutation.
Qed.
End Spec.
Arguments tree : clear implicits.
Arguments frame : clear implicits.

(** Bring the cell of [p], or the subtree [t], to the front of the owned cells. *)
Ltac pull_cell p C :=
  lazymatch C with
  | (p, ?n) :: ?C' => constr:((n, C'))
  | ?x :: ?C' => let r := pull_cell p C' in lazymatch r with (?n, ?R) => constr:((n, x :: R)) end
  | ?A ++ ?B => let r := pull_cell p B in lazymatch r with (?n, ?R) => constr:((n, A ++ R)) end
  end.
Ltac pull_tree t C :=
  lazymatch C with
  | cells t ?q ++ ?C' => constr:((q, C'))
  | ?x :: ?C' => let r := pull_tree t C' in lazymatch r with (?n, ?R) => constr:((n, x :: R)) end
  | ?A ++ ?B => let r := pull_tree t B in lazymatch r with (?n, ?R) => constr:((n, A ++ R)) end
  end.
Ltac own_solve Hh := eapply own_perm; [|exact Hh]; simpl; solve_Permutation.
Ltac own_cell p Hh :=
  lazymatch type of Hh with Own ?st ?C =>
    let r := pull_cell p C in
    lazymatch r with (?n, ?R) => let H' := fresh in assert (Own st ((p, n) :: R)) as H' by own_solve Hh; clear Hh; rename H' into Hh end
  end.
Ltac own_tree t Hh :=
  lazymatch type of Hh with Own ?st ((?p, ?n) :: ?C) =>
    let r := pull_tree t C in
    lazymatch r with (?q, ?R) => let H' := fresh in assert (Own st ((p, n) :: cells t q ++ R)) as H' by own_solve Hh; clear Hh; rename H' into Hh end
  end.
Ltac own_cell2 q p Hh :=
  own_cell q Hh;
  lazymatch type of Hh with Own ?st (?x :: ?C) =>
    let r := pull_cell p C in
    lazymatch r with (?m, ?R) => let H' := fresh in assert (Own st (x :: (p, m) :: R)) as H' by own_solve Hh; clear Hh; rename H' into Hh end
  end.
Ltac own_cell3 q p r Hh :=
  own_cell2 q p Hh;
  lazymatch type of Hh with Own ?st (?x :: ?y :: ?C) =>
    let c := pull_cell r C in
    lazymatch c with (?m, ?R) => let H' := fresh in assert (Own st (x :: y :: (r, m) :: R)) as H' by own_solve Hh; clear Hh; rename H' into Hh end
  end.
