(* ===== verification/AvlRot.v ===== *)
(** The rotations of [Avl] are those of the trees. *)
From S2P Require Import Prelude Heap Table Avl AvlSpec.
Open Scope Z_scope.

(** Steps of the code on the hypotheses [Hh], [Hr] and [Hn] on the cells, the
    root and the number of the current state. *)
Ltac a_next Hh Hr Hn :=
  clear Hh; let st' := fresh "st" in let Hh' := fresh in let Hr' := fresh in let Hn' := fresh in
  intros st' Hh' Hr' Hn'; rewrite Hr in Hr'; rewrite Hn in Hn'; clear Hr Hn;
  rename Hh' into Hh; rename Hr' into Hr; rename Hn' into Hn;
  simpl in Hh; rewrite <-?app_assoc in Hh.
Ltac a_rd p Hh := apply wp_bind; own_cell p Hh; eapply wp_rd_h; [exact Hh|]; cbn [bf aparent alchild archild adata].
Ltac a_wr p Hh Hr Hn := apply wp_bind; own_cell p Hh; eapply wp_wr_h; [exact Hh|a_next Hh Hr Hn].
Ltac a_tree q t Hh Hr Hn :=
  apply wp_bind; own_cell q Hh; own_tree t Hh;
  first [eapply avl_wp_set_lchild; [exact Hh|a_next Hh Hr Hn] | eapply avl_wp_set_rchild; [exact Hh|a_next Hh Hr Hn]].
Ltac a_node q p Hh Hr Hn :=
  apply wp_bind; own_cell2 q p Hh;
  first [eapply wp_set_lchild_node; [exact Hh|a_next Hh Hr Hn] | eapply wp_set_rchild_node; [exact Hh|a_next Hh Hr Hn]].

Ltac a_start st Hh Hr Hn :=
  let m := fresh "m" in remember (anum st) as m eqn:Hn; symmetry in Hn; do 4 (simpl in Hh; rewrite <-?app_assoc in Hh).

Ltac key_solve := simpl; rewrite ?fmap_app; simpl; rewrite ?elem_of_cons, ?elem_of_app; simpl; rewrite ?elem_of_cons; tauto.
Ltac a_replace k p t q C Hh Hr Hn :=
  eapply (wp_replace_child k p t q C); [own_solve Hh|exact Hr|key_solve|];
  clear Hh; let st' := fresh "st" in let Hh' := fresh in let Hn' := fresh in
  intros st' Hh' Hn'; rewrite Hn in Hn'; clear Hr Hn; rename Hh' into Hh; rename Hn' into Hn.

(** The factors of the outer nodes after a double rotation. *)
Definition rl_node (bm : Z) : Z := if bm =? AVL_RH then AVL_LH else AVL_EH.
Definition rl_child (bm : Z) : Z := if bm =? AVL_LH then AVL_RH else AVL_EH.

Definition lr_node (bm : Z) : Z := if bm =? AVL_LH then AVL_RH else AVL_EH.
Definition lr_child (bm : Z) : Z := if bm =? AVL_RH then AVL_LH else AVL_EH.

Ltac flat_solve := do 3 (simpl; rewrite <-?app_assoc); done.
Ltac tree_facts := cbn [balanced height factor] in *; unfold rl_node, rl_child, lr_node, lr_child, AVL_LH, AVL_EH, AVL_RH in *.
Ltac tree_solve :=
  tree_facts; repeat case_match; rewrite ?Z.eqb_eq, ?Z.eqb_neq in *; split_and?; try done; try lia.

Section Rot.
Context {D : Type}.
Abbreviation avl := (avl_tree_t D).
Implicit Types (a x y e c : tree D).

Lemma wp_rr p b a d q bq x dq y k C (Q : Z → avl → mem → Prop) st ms :
  Rep st (N p b a d (N q bq x dq y)) k C →
  (∀ st', Rep st' (N q 0 (N p 0 a d x) dq y) k C → anum st' = anum st → Q AVL_OK st' ms) →
  wp (avl_rr_balance p) Q st ms.
Proof.
  intros [Hh Hr] HQ. a_start st Hh Hr Hn.
  unfold avl_rr_balance. a_rd p Hh. a_rd q Hh. a_tree p x Hh Hr Hn. a_wr p Hh Hr Hn. a_node q p Hh Hr Hn. a_wr q Hh Hr Hn.
  apply wp_bind. a_replace k p (N q 0 (N p 0 a d x) dq y) p C Hh Hr Hn. apply wp_ret. by apply HQ.
Qed.

Lemma wp_ll p b q bq x dq y d a k C (Q : Z → avl → mem → Prop) st ms :
  Rep st (N p b (N q bq x dq y) d a) k C →
  (∀ st', Rep st' (N q 0 x dq (N p 0 y d a)) k C → anum st' = anum st → Q AVL_OK st' ms) →
  wp (avl_ll_balance p) Q st ms.
Proof.
  intros [Hh Hr] HQ. a_start st Hh Hr Hn.
  unfold avl_ll_balance. a_rd p Hh. a_rd q Hh. a_tree p y Hh Hr Hn. a_wr p Hh Hr Hn. a_node q p Hh Hr Hn. a_wr q Hh Hr Hn.
  apply wp_bind. a_replace k p (N q 0 x dq (N p 0 y d a)) p C Hh Hr Hn. apply wp_ret. by apply HQ.
Qed.

Lemma wp_rl_factors p n q nq m nm C (Q : unit → avl → mem → Prop) st ms :
  Own st ((p, n) :: (q, nq) :: (m, nm) :: C) → -1 ≤ bf nm ≤ 1 →
  (∀ st', Own st' ((p, set_bf (rl_node (bf nm)) n) :: (q, set_bf (rl_child (bf nm)) nq) :: (m, set_bf AVL_EH nm) :: C) →
     aroot st' = aroot st → anum st' = anum st → Q tt st' ms) →
  wp (rl_factors p q m) Q st ms.
Proof.
  intros Hh Hb HQ. unfold rl_factors. apply wp_bind. own_cell m Hh. eapply wp_rd_h; [exact Hh|].
  assert (∀ b1 b2, b1 = rl_node (bf nm) → b2 = rl_child (bf nm) →
    wp (wr p (set_bf b1);; wr q (set_bf b2);; wr m (set_bf AVL_EH)) Q st ms) as Hset.
  { intros b1 b2 -> ->. apply wp_bind. own_cell p Hh. eapply wp_wr_h; [exact Hh|]. intros st1 H1 Hr1 Hn1.
    apply wp_bind. own_cell q H1. eapply wp_wr_h; [exact H1|]. intros st2 H2 Hr2 Hn2.
    own_cell m H2. eapply wp_wr_h; [exact H2|]. intros st3 H3 Hr3 Hn3. apply HQ; [own_solve H3|congruence..]. }
  cbv zeta. unfold rl_node, rl_child in Hset.
  destruct (Z.eqb_spec (bf nm) AVL_LH) as [E|]; [apply Hset; by rewrite ?E|].
  destruct (Z.eqb_spec (bf nm) AVL_EH) as [E|]; [apply Hset; by rewrite ?E|].
  destruct (Z.eqb_spec (bf nm) AVL_RH) as [E|]; [apply Hset; by rewrite ?E|]. unfold AVL_LH, AVL_EH, AVL_RH in *. lia.
Qed.

Lemma wp_lr_factors p n q nq m nm C (Q : unit → avl → mem → Prop) st ms :
  Own st ((p, n) :: (q, nq) :: (m, nm) :: C) → -1 ≤ bf nm ≤ 1 →
  (∀ st', Own st' ((p, set_bf (lr_node (bf nm)) n) :: (q, set_bf (lr_child (bf nm)) nq) :: (m, set_bf AVL_EH nm) :: C) →
     aroot st' = aroot st → anum st' = anum st → Q tt st' ms) →
  wp (lr_factors p q m) Q st ms.
Proof.
  intros Hh Hb HQ. unfold lr_factors. apply wp_bind. own_cell m Hh. eapply wp_rd_h; [exact Hh|].
  assert (∀ b1 b2, b1 = lr_node (bf nm) → b2 = lr_child (bf nm) →
    wp (wr p (set_bf b1);; wr q (set_bf b2);; wr m (set_bf AVL_EH)) Q st ms) as Hset.
  { intros b1 b2 -> ->. apply wp_bind. own_cell p Hh. eapply wp_wr_h; [exact Hh|]. intros st1 H1 Hr1 Hn1.
    apply wp_bind. own_cell q H1. eapply wp_wr_h; [exact H1|]. intros st2 H2 Hr2 Hn2.
    own_cell m H2. eapply wp_wr_h; [exact H2|]. intros st3 H3 Hr3 Hn3. apply HQ; [own_solve H3|congruence..]. }
  cbv zeta. unfold lr_node, lr_child in Hset.
  destruct (Z.eqb_spec (bf nm) AVL_LH) as [E|]; [apply Hset; by rewrite ?E|].
  destruct (Z.eqb_spec (bf nm) AVL_EH) as [E|]; [apply Hset; by rewrite ?E|].
  destruct (Z.eqb_spec (bf nm) AVL_RH) as [E|]; [apply Hset; by rewrite ?E|]. unfold AVL_LH, AVL_EH, AVL_RH in *. lia.
Qed.

Lemma wp_rl p b a d q bq m bm x dm y dq c k C (Q : Z → avl → mem → Prop) st ms :
  Rep st (N p b a d (N q bq (N m bm x dm y) dq c)) k C → -1 ≤ bm ≤ 1 →
  (∀ st', Rep st' (N m 0 (N p (rl_node bm) a d x) dm (N q (rl_child bm) y dq c)) k C → anum st' = anum st → Q AVL_OK st' ms) →
  wp (avl_rl_balance p) Q st ms.
Proof.
  intros [Hh Hr] Hb HQ. a_start st Hh Hr Hn.
  unfold avl_rl_balance. a_rd p Hh. a_rd q Hh. cbv zeta. apply wp_bind. own_cell3 p q m Hh.
  eapply wp_rl_factors; [exact Hh|exact Hb|a_next Hh Hr Hn].
  a_rd m Hh. a_tree q y Hh Hr Hn. a_node m q Hh Hr Hn. a_rd m Hh. a_tree p x Hh Hr Hn. a_node m p Hh Hr Hn.
  apply wp_bind. a_replace k p (N m 0 (N p (rl_node bm) a d x) dm (N q (rl_child bm) y dq c)) q C Hh Hr Hn.
  apply wp_ret. by apply HQ.
Qed.

Lemma wp_lr p b q bq x dq m bm y dm c d a k C (Q : Z → avl → mem → Prop) st ms :
  Rep st (N p b (N q bq x dq (N m bm y dm c)) d a) k C → -1 ≤ bm ≤ 1 →
  (∀ st', Rep st' (N m 0 (N q (lr_child bm) x dq y) dm (N p (lr_node bm) c d a)) k C → anum st' = anum st → Q AVL_OK st' ms) →
  wp (avl_lr_balance p) Q st ms.
Proof.
  intros [Hh Hr] Hb HQ. a_start st Hh Hr Hn.
  unfold avl_lr_balance. a_rd p Hh. a_rd q Hh. cbv zeta. apply wp_bind. own_cell3 p q m Hh.
  eapply wp_lr_factors; [exact Hh|exact Hb|a_next Hh Hr Hn].
  a_rd m Hh. a_tree q y Hh Hr Hn. a_node m q Hh Hr Hn. a_rd m Hh. a_tree p c Hh Hr Hn. a_node m p Hh Hr Hn.
  apply wp_bind. a_replace k p (N m 0 (N q (lr_child bm) x dq y) dm (N p (lr_node bm) c d a)) q C Hh Hr Hn.
  apply wp_ret. by apply HQ.
Qed.

(** Factors, read and written at the focus. *)
Lemma wp_rd_rep p b l d r k C (Q : avl_node_t D → avl → mem → Prop) st ms :
  Rep st (N p b l d r) k C → Q (ANode b (kptr k) (tptr l) (tptr r) d) st ms → wp (rd p) Q st ms.
Proof. intros [Hh _] HQ. eapply wp_rd_h; [exact Hh|exact HQ]. Qed.

Lemma wp_bf_rep p b b' l d r k C (Q : unit → avl → mem → Prop) st ms :
  Rep st (N p b l d r) k C →
  (∀ st', Rep st' (N p b' l d r) k C → anum st' = anum st → Q tt st' ms) → wp (wr p (set_bf b')) Q st ms.
Proof.
  intros [Hh Hr] HQ. eapply wp_wr_h; [exact Hh|]. intros st' Hh' Hr' Hn'. apply HQ; [|done].
  constructor; [exact Hh'|by rewrite Hr', Hr].
Qed.

(** The balancing of an insertion on the right and on the left. *)
Definition grown (t : tree D) : Prop := t ≠ L ∧ factor t ≠ 0.

Lemma wp_right_balance p l d r k C (Q : Z → avl → mem → Prop) st ms :
  Rep st (N p AVL_RH l d r) k C → balanced l → balanced r → height r = height l + 2 → grown r →
  (∀ z st' t', Rep st' t' k C → anum st' = anum st → balanced t' → flat t' = flat l ++ d :: flat r →
     height t' = height l + 2 → t' ≠ L → Q z st' ms) →
  wp (avl_right_balance p) Q st ms.
Proof.
  intros Hrep Hl Hr Hh [Hne Hf] HQ. destruct r as [|q bq x dq y]; [done|]. cbn [factor] in Hf.
  unfold avl_right_balance. apply wp_bind. eapply wp_rd_rep; [exact Hrep|]. cbn [archild tptr].
  apply wp_bind. eapply wp_rd_rep; [exact (proj1 (avl_rep_right _ _ _ _ _ _ _ _) Hrep)|]. cbn [bf].
  destruct Hr as (Hx & Hy & Hbq & Hbq'). destruct (Z.eqb_spec bq AVL_RH) as [E|Hn1].
  - eapply wp_rr; [exact Hrep|]. intros st' Hrep' Hn'. eapply HQ; [exact Hrep'|exact Hn'|..].
    + tree_solve.
    + flat_solve.
    + tree_solve.
    + done.
  - rewrite (proj2 (Z.eqb_eq bq AVL_LH)) by (unfold AVL_LH, AVL_RH in *; lia).
    destruct x as [|m bm x dm y1]; [exfalso; pose proof (height_pos y); cbn [height] in *; unfold AVL_RH in *; lia|].
    destruct Hx as (Hx1 & Hx2 & Hbm & Hbm').
    eapply wp_rl; [exact Hrep|done|]. intros st' Hrep' Hn'. eapply HQ; [exact Hrep'|exact Hn'|..].
    + tree_solve.
    + flat_solve.
    + tree_solve.
    + done.
Qed.

Lemma wp_left_balance p l d r k C (Q : Z → avl → mem → Prop) st ms :
  Rep st (N p AVL_LH l d r) k C → balanced l → balanced r → height l = height r + 2 → grown l →
  (∀ z st' t', Rep st' t' k C → anum st' = anum st → balanced t' → flat t' = flat l ++ d :: flat r →
     height t' = height r + 2 → t' ≠ L → Q z st' ms) →
  wp (avl_left_balance p) Q st ms.
Proof.
  intros Hrep Hl Hr Hh [Hne Hf] HQ. destruct l as [|q bq x dq y]; [done|]. cbn [factor] in Hf.
  unfold avl_left_balance. apply wp_bind. eapply wp_rd_rep; [exact Hrep|]. cbn [alchild tptr].
  apply wp_bind. eapply wp_rd_rep; [exact (proj1 (avl_rep_left _ _ _ _ _ _ _ _) Hrep)|]. cbn [bf].
  destruct Hl as (Hx & Hy & Hbq & Hbq'). destruct (Z.eqb_spec bq AVL_LH) as [E|Hn1].
  - eapply wp_ll; [exact Hrep|]. intros st' Hrep' Hn'. eapply HQ; [exact Hrep'|exact Hn'|..].
    + tree_solve.
    + flat_solve.
    + tree_solve.
    + done.
  - rewrite (proj2 (Z.eqb_eq bq AVL_RH)) by (unfold AVL_LH, AVL_RH in *; lia).
    destruct y as [|m bm y1 dm c]; [exfalso; pose proof (height_pos x); cbn [height] in *; unfold AVL_LH in *; lia|].
    destruct Hy as (Hy1 & Hy2 & Hbm & Hbm').
    eapply wp_lr; [exact Hrep|done|]. intros st' Hrep' Hn'. eapply HQ; [exact Hrep'|exact Hn'|..].
    + tree_solve.
    + flat_solve.
    + tree_solve.
    + done.
Qed.
End Rot.
