(* ===== verification/AvlInsert.v ===== *)
(** Searching, storing and inserting in the AVL tree. *)
From S2P Require Import Prelude Heap Table Avl AvlSpec AvlRot.
Open Scope Z_scope.

Section Insert.
Context {D : Type} (cmp : D → D → Z).
Abbreviation avl := (avl_tree_t D).

Fixpoint depth (t : tree D) : nat := match t with L => O | N _ _ l _ r => S (Nat.max (depth l) (depth r)) end.

Lemma depth_length t : (depth t ≤ length (flat t))%nat.
Proof. induction t as [|p b l IHl d r IHr]; simpl; [done|]. rewrite length_app. simpl. lia. Qed.

Lemma avl_fuel_depth st t : Rep st t [] [] → (depth t < avl_fuel st)%nat.
Proof.
  intros [Hh _]. unfold avl_fuel. rewrite (hp_size _ _ Hh). simpl. rewrite app_nil_r, avl_length_cells. pose proof (depth_length t). lia.
Qed.

(** ** The rest of an insertion above the child that got the datum *)

(** The child [t] became [t']. *)
Definition ins_child (t t' : tree D) (taller : bool) : Prop :=
  balanced t' ∧ t' ≠ L ∧ height t' = height t + (if taller then 1 else 0) ∧ (taller = true → factor t' ≠ 0 ∨ t = L).
(** The node itself. *)
Definition ins_node (t t' : tree D) (taller : bool) : Prop :=
  balanced t' ∧ t' ≠ L ∧ height t' = height t + (if taller then 1 else 0) ∧ (taller = true → factor t' ≠ 0).

Lemma wp_grown_left p b l l' d r k C taller (Q : Z * bool → avl → mem → Prop) st ms :
  Rep st (N p b l' d r) k C → balanced (N p b l d r) → ins_child l l' taller →
  (∀ taller' st' t', Rep st' t' k C → anum st' = anum st → flat t' = flat l' ++ d :: flat r →
     ins_node (N p b l d r) t' taller' → Q (AVL_OK, taller') st' ms) →
  wp (if negb taller then mret (AVL_OK, taller) else
      n ← rd p;
      if bf n =? AVL_RH then wr p (set_bf AVL_EH);; mret (AVL_OK, false)
      else if bf n =? AVL_EH then wr p (set_bf AVL_LH);; mret (AVL_OK, true)
      else if bf n =? AVL_LH then avl_left_balance p;; mret (AVL_OK, false)
      else mret (AVL_ERR, taller)) Q st ms.
Proof.
  intros Hrep (Hl & Hr & Hb & Hb') (Hl' & Hne & Hh & Hf) HQ. destruct taller; cbn [negb].
  2: { apply wp_ret. eapply HQ; [exact Hrep|done|done|]. repeat split; tree_solve. }
  apply wp_bind. eapply wp_rd_rep; [exact Hrep|]. cbn [bf].
  destruct (Z.eqb_spec b AVL_RH) as [E|Hn1]; [|destruct (Z.eqb_spec b AVL_EH) as [E|Hn2]; [|destruct (Z.eqb_spec b AVL_LH) as [E|Hn3]]].
  - apply wp_bind. eapply wp_bf_rep; [exact Hrep|]. intros st' Hrep' Hn'. apply wp_ret.
    eapply HQ; [exact Hrep'|exact Hn'|done|]. repeat split; tree_solve.
  - apply wp_bind. eapply wp_bf_rep; [exact Hrep|]. intros st' Hrep' Hn'. apply wp_ret.
    eapply HQ; [exact Hrep'|exact Hn'|done|]. repeat split; tree_solve.
  - rewrite E in Hrep. apply wp_bind. pose proof (height_pos r). eapply wp_left_balance; [exact Hrep|done|done|unfold AVL_LH in *; lia| |].
    + split; [done|]. destruct Hf as [?| ->]; [done|done|]. exfalso. cbn [height] in *. unfold AVL_LH in *. lia.
    + intros z st' t' Hrep' Hn' Hbt Hft Hht Hnt. apply wp_ret. eapply HQ; [exact Hrep'|exact Hn'|exact Hft|].
      repeat split; tree_solve.
  - exfalso. unfold AVL_LH, AVL_EH, AVL_RH in *. lia.
Qed.

Lemma wp_grown_right p b l d r r' k C taller (Q : Z * bool → avl → mem → Prop) st ms :
  Rep st (N p b l d r') k C → balanced (N p b l d r) → ins_child r r' taller →
  (∀ taller' st' t', Rep st' t' k C → anum st' = anum st → flat t' = flat l ++ d :: flat r' →
     ins_node (N p b l d r) t' taller' → Q (AVL_OK, taller') st' ms) →
  wp (if negb taller then mret (AVL_OK, taller) else
      n ← rd p;
      if bf n =? AVL_LH then wr p (set_bf AVL_EH);; mret (AVL_OK, false)
      else if bf n =? AVL_EH then wr p (set_bf AVL_RH);; mret (AVL_OK, true)
      else if bf n =? AVL_RH then avl_right_balance p;; mret (AVL_OK, false)
      else mret (AVL_ERR, taller)) Q st ms.
Proof.
  intros Hrep (Hl & Hr & Hb & Hb') (Hr' & Hne & Hh & Hf) HQ. destruct taller; cbn [negb].
  2: { apply wp_ret. eapply HQ; [exact Hrep|done|done|]. repeat split; tree_solve. }
  apply wp_bind. eapply wp_rd_rep; [exact Hrep|]. cbn [bf].
  destruct (Z.eqb_spec b AVL_LH) as [E|Hn1]; [|destruct (Z.eqb_spec b AVL_EH) as [E|Hn2]; [|destruct (Z.eqb_spec b AVL_RH) as [E|Hn3]]].
  - apply wp_bind. eapply wp_bf_rep; [exact Hrep|]. intros st' Hrep' Hn'. apply wp_ret.
    eapply HQ; [exact Hrep'|exact Hn'|done|]. repeat split; tree_solve.
  - apply wp_bind. eapply wp_bf_rep; [exact Hrep|]. intros st' Hrep' Hn'. apply wp_ret.
    eapply HQ; [exact Hrep'|exact Hn'|done|]. repeat split; tree_solve.
  - rewrite E in Hrep. apply wp_bind. pose proof (height_pos l). eapply wp_right_balance; [exact Hrep|done|done|unfold AVL_RH in *; lia| |].
    + split; [done|]. destruct Hf as [?| ->]; [done|done|]. exfalso. cbn [height] in *. unfold AVL_RH in *. lia.
    + intros z st' t' Hrep' Hn' Hbt Hft Hht Hnt. apply wp_ret. eapply HQ; [exact Hrep'|exact Hn'|exact Hft|].
      repeat split; tree_solve.
  - exfalso. unfold AVL_LH, AVL_EH, AVL_RH in *. lia.
Qed.

(** ** The recursion *)

Definition ins_post (P : tree D → tree D → bool → Prop) (d : D) (t : tree D) k C (st : avl) (os : mem) (x : Z * bool) (st' : avl) (os' : mem) : Prop :=
  (∃ l1 y l2, cut cmp d (flat t) l1 (Some y) l2 ∧ x = (AVL_NODE_EXIST, false) ∧ st' = st ∧ os' = os) ∨
  (∃ l1 l2, cut cmp d (flat t) l1 None l2 ∧ os' = tail os ∧
     if decide (head os = Some false) then x = (AVL_ERR, false) ∧ st' = st
     else ∃ t' taller, x = (AVL_OK, taller) ∧ Rep st' t' k C ∧ anum st' = anum st ∧ flat t' = l1 ++ d :: l2 ∧ P t t' taller).

Lemma ins_node_child t t' taller : ins_node t t' taller → ins_child t t' taller.
Proof. intros (? & ? & ? & Hf). split_and!; [done..|]. auto. Qed.

Lemma ins_post_child d t k C st os x st' os' : ins_post ins_node d t k C st os x st' os' → ins_post ins_child d t k C st os x st' os'.
Proof.
  intros [?|(l1 & l2 & ? & ? & Hd)]; [by left|right]. exists l1, l2. split_and!; [done..|]. case_decide; [done|].
  destruct Hd as (t' & taller & ? & ? & ? & ? & ?). exists t', taller. split_and!; [done..|]. by apply ins_node_child.
Qed.

(** A leaf is added. *)
Lemma wp_add p n link C d (Q : option ptr → avl → mem → Prop) st os :
  Own st ((p, n) :: C) →
  (if decide (head os = Some false) then Q None st (tail os)
   else ∀ q st', Own st' ((p, link q n) :: (q, ANode AVL_EH p NULL NULL d) :: C) → aroot st' = aroot st → anum st' = anum st →
     Q (Some q) st' (tail os)) →
  wp (avl_add p link d) Q st os.
Proof.
  intros Hh HQ. unfold avl_add. apply wp_bind. unfold on_aheap. apply wp_zoom. eapply wp_halloc; [exact Hh|].
  case_decide.
  - apply wp_ret. by destruct st.
  - intros h' q Hq Hh'. apply wp_bind. eapply (wp_wr_h p n (link q) ((q, ANode AVL_EH p NULL NULL d) :: C)).
    + eapply own_perm; [|exact Hh']. solve_Permutation.
    + intros st' Hst' Hr Hn. apply wp_ret. by apply HQ.
Qed.

Lemma ins_leaf (q : ptr) (d : D) : ins_child L (N q AVL_EH L d L) true.
Proof. repeat split; tree_solve; auto. Qed.

(** The two branches, above what happened to the child. *)
Lemma wp_insert_left rec p b l d0 r d k C st os :
  Rep st (N p b l d0 r) k C → balanced (N p b l d0 r) → sep cmp d (flat (N p b l d0 r)) → cmp d d0 < 0 →
  (l ≠ L → wp (rec (tptr l)) (ins_post ins_node d l (FL p b d0 r :: k) C st os) st os) →
  wp (avl_insert_left rec p d) (ins_post ins_node d (N p b l d0 r) k C st os) st os.
Proof.
  intros Hrep Hbal Hsep Hlt Hrec. unfold avl_insert_left. apply wp_bind. eapply wp_rd_rep; [exact Hrep|]. cbn [alchild].
  assert (∀ x st1 os1, ins_post ins_child d l (FL p b d0 r :: k) C st os x st1 os1 →
    wp (let '(ret, taller) := x in
      if negb (ret =? AVL_OK) then mret (ret, taller) else
      if negb taller then mret (AVL_OK, taller) else
      n ← rd p;
      if bf n =? AVL_RH then wr p (set_bf AVL_EH);; mret (AVL_OK, false)
      else if bf n =? AVL_EH then wr p (set_bf AVL_LH);; mret (AVL_OK, true)
      else if bf n =? AVL_LH then avl_left_balance p;; mret (AVL_OK, false)
      else mret (AVL_ERR, taller)) (ins_post ins_node d (N p b l d0 r) k C st os) st1 os1) as Hcont.
  { intros x st1 os1 [(l1 & y & l2 & Hcut & -> & -> & ->)|(l1 & l2 & Hcut & -> & Hd)].
    - apply wp_ret. left. eexists _, _, _. split; [by eapply cut_left|done].
    - case_decide as Hos.
      + destruct Hd as [-> ->]. apply wp_ret. right. eexists _, _. split; [by eapply cut_left|]. split; [done|].
        by rewrite decide_True.
      + destruct Hd as (l' & taller & -> & Hrep' & Hn & Hfl & Hch). change (AVL_OK =? AVL_OK) with true. cbn [negb].
        eapply wp_grown_left; [by apply avl_rep_left|exact Hbal|exact Hch|]. intros taller' st' t' Hrep2 Hn2 Hft Hnode.
        right. eexists _, _. split; [by eapply cut_left|]. split; [done|]. rewrite decide_False by done.
        exists t', taller'. split_and!; [done|done|congruence| |done]. rewrite Hft, Hfl. by rewrite <-app_assoc. }
  apply wp_bind. destruct Hrep as [Hh Hr]. cbn [cells app] in Hh. destruct l as [|pl bl ll dl rl].
  - change (NULL =? tptr L) with true. cbn iota. apply wp_bind. eapply wp_add; [exact Hh|]. case_decide as Hos.
    + apply wp_ret, (Hcont (AVL_ERR, false)). right. exists [], []. split; [apply cut_nil|]. split; [done|]. by rewrite decide_True.
    + intros q st' Hh' Hr' Hn'. apply wp_ret, (Hcont (AVL_OK, true)). right. exists [], []. split; [apply cut_nil|]. split; [done|].
      rewrite decide_False by done. exists (N q AVL_EH L d L), true. split_and!; [done| |done|done|apply ins_leaf].
      apply avl_rep_left. constructor; [|by rewrite Hr', Hr]. own_solve Hh'.
  - assert ((NULL =? tptr (N pl bl ll dl rl)) = false) as ->.
    { pose proof (tptr_null st (N pl bl ll dl rl) p ((p, ANode b (kptr k) pl (tptr r) d0) :: cells r p ++ kcells k p ++ C)) as Hn.
      apply Hn. own_solve Hh. }
    eapply wp_mono; [by apply Hrec|]. intros x st1 os1 Hx. by apply Hcont, ins_post_child.
Qed.
Lemma wp_insert_right rec p b l d0 r d k C st os :
  Rep st (N p b l d0 r) k C → balanced (N p b l d0 r) → sep cmp d (flat (N p b l d0 r)) → 0 < cmp d d0 →
  (r ≠ L → wp (rec (tptr r)) (ins_post ins_node d r (FR p b l d0 :: k) C st os) st os) →
  wp (avl_insert_right rec p d) (ins_post ins_node d (N p b l d0 r) k C st os) st os.
Proof.
  intros Hrep Hbal Hsep Hlt Hrec. unfold avl_insert_right. apply wp_bind. eapply wp_rd_rep; [exact Hrep|]. cbn [archild].
  assert (∀ x st1 os1, ins_post ins_child d r (FR p b l d0 :: k) C st os x st1 os1 →
    wp (let '(ret, taller) := x in
      if negb (ret =? AVL_OK) then mret (ret, taller) else
      if negb taller then mret (AVL_OK, taller) else
      n ← rd p;
      if bf n =? AVL_LH then wr p (set_bf AVL_EH);; mret (AVL_OK, false)
      else if bf n =? AVL_EH then wr p (set_bf AVL_RH);; mret (AVL_OK, true)
      else if bf n =? AVL_RH then avl_right_balance p;; mret (AVL_OK, false)
      else mret (AVL_ERR, taller)) (ins_post ins_node d (N p b l d0 r) k C st os) st1 os1) as Hcont.
  { intros x st1 os1 [(l1 & y & l2 & Hcut & -> & -> & ->)|(l1 & l2 & Hcut & -> & Hd)].
    - apply wp_ret. left. eexists _, _, _. split; [by eapply cut_right|done].
    - case_decide as Hos.
      + destruct Hd as [-> ->]. apply wp_ret. right. eexists _, _. split; [by eapply cut_right|]. split; [done|].
        by rewrite decide_True.
      + destruct Hd as (r' & taller & -> & Hrep' & Hn & Hfl & Hch). change (AVL_OK =? AVL_OK) with true. cbn [negb].
        eapply wp_grown_right; [by apply avl_rep_right|exact Hbal|exact Hch|]. intros taller' st' t' Hrep2 Hn2 Hft Hnode.
        right. eexists _, _. split; [by eapply cut_right|]. split; [done|]. rewrite decide_False by done.
        exists t', taller'. split_and!; [done|done|congruence| |done]. rewrite Hft, Hfl. by rewrite <-app_assoc. }
  apply wp_bind. destruct Hrep as [Hh Hr]. cbn [cells app] in Hh. destruct r as [|pr br lr dr rr].
  - change (NULL =? tptr L) with true. cbn iota. apply wp_bind. eapply wp_add; [exact Hh|]. case_decide as Hos.
    + apply wp_ret, (Hcont (AVL_ERR, false)). right. exists [], []. split; [apply cut_nil|]. split; [done|]. by rewrite decide_True.
    + intros q st' Hh' Hr' Hn'. apply wp_ret, (Hcont (AVL_OK, true)). right. exists [], []. split; [apply cut_nil|]. split; [done|].
      rewrite decide_False by done. exists (N q AVL_EH L d L), true. split_and!; [done| |done|done|apply ins_leaf].
      apply avl_rep_right. constructor; [|by rewrite Hr', Hr]. own_solve Hh'.
  - assert ((NULL =? tptr (N pr br lr dr rr)) = false) as ->.
    { pose proof (tptr_null st (N pr br lr dr rr) p ((p, ANode b (kptr k) (tptr l) pr d0) :: cells l p ++ kcells k p ++ C)) as Hn.
      apply Hn. own_solve Hh. }
    eapply wp_mono; [by apply Hrec|]. intros x st1 os1 Hx. by apply Hcont, ins_post_child.
Qed.

Lemma wp_avl_insert_rec d t : ∀ n k C st os, (depth t < n)%nat → t ≠ L → Rep st t k C → balanced t → sep cmp d (flat t) →
  wp (_avl_insert cmp n d (tptr t)) (ins_post ins_node d t k C st os) st os.
Proof.
  induction t as [|p b l IHl d0 r IHr]; intros n k C st os Hn Hne Hrep Hbal Hsep; [done|]. clear Hne.
  destruct n as [|n]; [lia|]. cbn [_avl_insert tptr depth] in *. destruct (sep_node _ _ _ _ _ Hsep) as [Hsl Hsr].
  pose proof Hbal as (Hbl & Hbr & _ & _).
  apply wp_bind. eapply wp_rd_rep; [exact Hrep|]. cbn [adata]. cbv zeta.
  destruct (Z.eqb_spec (cmp d d0) 0) as [E|Hn0].
  { apply wp_ret. left. eexists _, _, _. split; [by apply cut_here|done]. }
  destruct (Z.ltb_spec (cmp d d0) 0) as [Hlt|Hge].
  - apply wp_insert_left; [done..|]. intros Hl. apply IHl; [lia|done|by apply avl_rep_left|done|done].
  - apply wp_insert_right; [done|done|done|lia|]. intros Hr. apply IHr; [lia|done|by apply avl_rep_right|done|done].
Qed.

(** ** The tree as an ordered list *)

Definition avl_wf (st : avl) (l : list D) : Prop :=
  ∃ t, Rep st t [] [] ∧ balanced t ∧ flat t = l ∧ anum st = u64 (Z.of_nat (length l)).

Lemma rep_null (st : avl) t k C : Rep st t k C → (NULL =? tptr t) = match t with L => true | _ => false end.
Proof. intros [Hh _]. by eapply tptr_null. Qed.

Lemma rep_set_num (st : avl) t k C n : Rep st t k C → Rep (set_anum n st) t k C.
Proof. by intros [? ?]. Qed.

Lemma cut_length d l l1 l2 : cut cmp d l l1 None l2 → length (l1 ++ d :: l2) = S (length l).
Proof. intros [-> _ _ _]. simpl. rewrite !length_app. simpl. lia. Qed.

Lemma wp_avl_insert d st l os : avl_wf st l → sep cmp d l →
  wp (avl_insert cmp d) (λ r st' os',
    (∃ l1 x l2, cut cmp d l l1 (Some x) l2 ∧ r = AVL_NODE_EXIST ∧ st' = st ∧ os' = os) ∨
    (∃ l1 l2, cut cmp d l l1 None l2 ∧ os' = tail os ∧
       if decide (head os = Some false) then r = AVL_ERR ∧ avl_wf st' l
       else r = AVL_OK ∧ avl_wf st' (l1 ++ d :: l2))) st os.
Proof.
  intros (t & Hrep & Hbal & <- & Hnum) Hsep. unfold avl_insert. apply wp_bind. unfold get, wp at 1.
  pose proof (rep_root _ _ _ _ Hrep) as Hroot. cbn [kroot] in Hroot. rewrite Hroot, (rep_null _ _ _ _ Hrep).
  destruct t as [|p b lt d0 rt].
  - pose proof Hrep as [Hh _]. apply wp_bind. unfold on_aheap. apply wp_zoom. eapply wp_halloc; [exact Hh|]. case_decide as Hos.
    + apply wp_ret. right. exists [], []. split; [apply cut_nil|]. split; [done|]. split; [done|].
      exists L. split_and!; [|done|done|exact Hnum]. by destruct st.
    + intros h' q Hq Hh'. apply wp_bind. unfold modify at 1, wp at 1. apply wp_bind. unfold modify at 1, wp at 1. apply wp_ret.
      right. exists [], []. split; [apply cut_nil|]. split; [done|]. split; [done|].
      exists (N q AVL_EH L d L). split_and!; [constructor; [exact Hh'|done]|by repeat split|done|done].
  - apply wp_bind. eapply wp_mono; [apply wp_avl_insert_rec; [by apply avl_fuel_depth|done|exact Hrep|exact Hbal|exact Hsep]|].
    intros x st' os' [(l1 & y & l2 & Hcut & -> & -> & ->)|(l1 & l2 & Hcut & -> & Hd)].
    + change (fst (AVL_NODE_EXIST, false) =? AVL_OK) with false. apply wp_bind, wp_ret, wp_ret. left. by exists l1, y, l2.
    + destruct (decide (head os = Some false)) as [Hos|Hos].
      * destruct Hd as [-> ->]. change (fst (AVL_ERR, false) =? AVL_OK) with false. apply wp_bind, wp_ret, wp_ret.
        right. exists l1, l2. split_and!; [done|done|done|]. by eexists.
      * destruct Hd as (t' & taller & -> & Hrep' & Hn & Hfl & Hb' & _ & _). change (fst (AVL_OK, taller) =? AVL_OK) with true.
        apply wp_bind. unfold modify at 1, wp at 1. apply wp_ret. right. exists l1, l2. split_and!; [done|done|done|]. exists t'.
        split_and!; [by apply rep_set_num|done|done|]. cbn. rewrite Hn, Hnum, u64_add, (cut_length _ _ _ _ Hcut). f_equal. lia.
Qed.

(** *** Searching *)

Lemma wp_avl_locate key t st (Q : option ptr → avl → mem → Prop) os :
  Rep st t [] [] → sep cmp key (flat t) →
  (∀ l1 l2, cut cmp key (flat t) l1 None l2 → Q None st os) →
  (∀ p b l d r k, plug k (N p b l d r) = t → cmp key d = 0 → Q (Some p) st os) →
  wp (avl_locate cmp key) Q st os.
Proof.
  intros Hrep Hsep HN HS. unfold avl_locate. apply wp_bind. unfold get, wp at 1. rewrite (rep_root _ _ _ _ Hrep). cbn [kroot].
  pose proof (avl_fuel_depth _ _ Hrep) as Hfuel. revert Hfuel. generalize (avl_fuel st). intros n Hn.
  assert (∀ t0 k n, plug k t0 = t → (depth t0 < n)%nat → sep cmp key (flat t0) →
    (∀ l1 l2, cut cmp key (flat t0) l1 None l2 → Q None st os) →
    wp (loop n (λ node, if NULL =? node then mret (inr None) else
      n ← rd node;
      let ret := cmp key (adata n) in
      if ret =? 0 then mret (inr (Some node))
      else if ret <? 0 then mret (inl (alchild n))
      else mret (inl (archild n))) (tptr t0)) Q st os) as Hloop; [|by apply (Hloop t [])].
  intros t0. induction t0 as [|p b l IHl d r IHr]; intros k m Hk Hm Hs Hno; (destruct m as [|m]; [simpl in Hm; lia|]);
    assert (Rep st _ k []) as Hr by (apply avl_rep_plug; rewrite Hk; exact Hrep); apply wp_loop_step; rewrite (rep_null _ _ _ _ Hr).
  - apply wp_ret. by eapply Hno, cut_nil.
  - apply wp_bind. eapply wp_rd_rep; [exact Hr|]. cbn [adata alchild archild flat depth] in *. cbv zeta.
    destruct (sep_node _ _ _ _ _ Hs) as [Hsl Hsr].
    destruct (Z.eqb_spec (cmp key d) 0) as [E|Hne]; [apply wp_ret; by eapply HS|].
    destruct (Z.ltb_spec (cmp key d) 0) as [Hlt|Hge]; apply wp_ret.
    + apply (IHl (FL p b d r :: k)); [exact Hk|lia|done|]. intros l1 l2 Hc. by eapply Hno, cut_left.
    + apply (IHr (FR p b l d :: k)); [exact Hk|lia|done|]. intros l1 l2 Hc. eapply Hno, cut_right; [done|lia|done].
Qed.

Lemma cut_plug k p b l d r key : sep cmp key (flat (plug k (N p b l d r))) → cmp key d = 0 →
  cut cmp key (flat (plug k (N p b l d r))) (kleft k ++ flat l) (Some d) (flat r ++ kright k).
Proof.
  rewrite flat_plug. simpl. intros Hs Hd. rewrite <-app_assoc, (app_assoc (kleft k)) in *. simpl in *. by apply cut_here.
Qed.

Lemma wp_avl_query key st l os : avl_wf st l → sep cmp key l →
  wp (avl_query cmp key) (λ r st' os', st' = st ∧ os' = os ∧ ∃ l1 l2, cut cmp key l l1 r l2) st os.
Proof.
  intros (t & Hrep & _ & <- & _) Hs. unfold avl_query. apply wp_bind. eapply wp_avl_locate; [exact Hrep|exact Hs|..].
  - intros l1 l2 Hc. apply wp_ret. eauto.
  - intros p b l d r k <- Hd. apply wp_bind. eapply wp_rd_rep; [by apply avl_rep_plug|]. apply wp_ret.
    split_and!; [done|done|]. eexists _, _. by apply cut_plug.
Qed.

Lemma wp_avl_store key f st l os : avl_wf st l → sep cmp key l →
  wp (avl_store cmp key f) (λ _ st' os', os' = os ∧ ∃ l1 o l2, cut cmp key l l1 o l2 ∧
    avl_wf st' (l1 ++ option_list (f <$> o) ++ l2)) st os.
Proof.
  intros (t & Hrep & Hbal & <- & Hnum) Hs. unfold avl_store. apply wp_bind. eapply wp_avl_locate; [exact Hrep|exact Hs|..].
  - intros l1 l2 Hc. apply wp_ret. split; [done|]. exists l1, None, l2. split; [done|]. simpl.
    pose proof (cut_eq _ _ _ _ _ _ Hc) as He. simpl in He. rewrite <-He. by exists t.
  - intros p b l d r k <- Hd. pose proof (proj1 (avl_rep_plug _ _ _ _) Hrep) as [Hh Hr]. cbn [cells app] in Hh.
    eapply wp_wr_h; [exact Hh|]. intros st' Hh' Hr' Hn'. split; [done|].
    eexists _, _, _. split; [by apply cut_plug|]. exists (plug k (N p b l (f d) r)). split_and!.
    + apply avl_rep_plug. constructor; [exact Hh'|by rewrite Hr', Hr].
    + by apply (plug_swap k (N p b l d r)).
    + rewrite flat_plug. simpl. by rewrite <-!app_assoc.
    + rewrite Hn', Hnum, flat_plug. simpl. rewrite !length_app. simpl. rewrite !length_app. simpl. do 2 f_equal. lia.
Qed.
End Insert.
