(* ===== verification/AvlDelete.v ===== *)
(** Deleting from the AVL tree: the factors and the heights on the way up, the
    replacement of a node by its predecessor, and the assertions of the C code,
    none of which fails. *)
From S2P Require Import Prelude Heap Table Avl AvlSpec AvlRot AvlInsert.
Open Scope Z_scope.

Section Assert.
Context {D : Type}.
Abbreviation avl := (avl_tree_t D).
Implicit Types (t l r : tree D) (k : list (frame D)).

(** The assertions at the focus, above it and on its children. *)
Lemma wp_assert_parent t k C (Q : unit → avl → mem → Prop) st ms :
  Rep st t k C → Q tt st ms → wp (avl_assert (kptr k)) Q st ms.
Proof.
  intros Hrep HQ. destruct k as [|f k]; [done|]. apply rep_down in Hrep.
  change (kptr (f :: k)) with (fptr f). rewrite <-(tptr_fill f t). by eapply wp_assert.
Qed.

Lemma wp_assert_left p b l d r k C (Q : unit → avl → mem → Prop) st ms :
  Rep st (N p b l d r) k C → Q tt st ms → wp (avl_assert (tptr l)) Q st ms.
Proof. intros Hrep%avl_rep_left HQ. by eapply wp_assert. Qed.

Lemma wp_assert_right p b l d r k C (Q : unit → avl → mem → Prop) st ms :
  Rep st (N p b l d r) k C → Q tt st ms → wp (avl_assert (tptr r)) Q st ms.
Proof. intros Hrep%avl_rep_right HQ. by eapply wp_assert. Qed.

Lemma wp_assert_node p b l d r k C (Q : unit → avl → mem → Prop) st ms :
  Rep st (N p b l d r) k C → Q tt st ms → wp (avl_assert p) Q st ms.
Proof. intros Hrep HQ. by eapply (wp_assert (N p b l d r)). Qed.
End Assert.

(** One of the assertions after a rotation. *)
Ltac a_assert Hrep :=
  try apply wp_bind;
  first [ eapply wp_assert_node; [exact Hrep|]
        | eapply wp_assert_parent; [exact Hrep|]
        | eapply (wp_assert_left _ _ (N _ _ _ _ _)); [exact Hrep|]
        | eapply (wp_assert_right _ _ _ _ (N _ _ _ _ _)); [exact Hrep|] ].

Section Delete.
Context {D : Type} (cmp : D → D → Z).
Abbreviation avl := (avl_tree_t D).
Implicit Types (t l r : tree D) (k : list (frame D)).

(** A subtree of height [h] became [t'], lower by one if [lower]. *)
Definition shrunk (h : Z) (t' : tree D) (lower : bool) : Prop :=
  balanced t' ∧ height t' = h - (if lower then 1 else 0).

(** ** Balancing *)

Lemma wp_delete_rr p a d q bq x dq y k C b1 b2 (lower : bool) (Q : bool → avl → mem → Prop) st ms :
  Rep st (N p AVL_RH a d (N q bq x dq y)) k C →
  (∀ st', Rep st' (N q b2 (N p b1 a d x) dq y) k C → anum st' = anum st → Q lower st' ms) →
  wp (lower ← (wr q (set_bf b2);; wr p (set_bf b1);; mret lower);
      r ← rd q;
      avl_set_rchild p (alchild r);; avl_set_lchild q p;; avl_replace_child (kptr k) p q;;
      avl_assert p;; avl_assert q;; mret lower) Q st ms.
Proof.
  intros [Hh Hr] HQ. a_start st Hh Hr Hn. apply wp_bind.
  a_wr q Hh Hr Hn. a_wr p Hh Hr Hn. apply wp_ret. a_rd q Hh. a_tree p x Hh Hr Hn. a_node q p Hh Hr Hn.
  apply wp_bind. a_replace k p (N q b2 (N p b1 a d x) dq y) p C Hh Hr Hn.
  a_assert Hh. a_assert Hh. apply wp_ret. by apply HQ.
Qed.

Lemma wp_delete_ll p a d q bq x dq y k C b1 b2 (lower : bool) (Q : bool → avl → mem → Prop) st ms :
  Rep st (N p AVL_LH (N q bq x dq y) d a) k C →
  (∀ st', Rep st' (N q b2 x dq (N p b1 y d a)) k C → anum st' = anum st → Q lower st' ms) →
  wp (lower ← (wr q (set_bf b2);; wr p (set_bf b1);; mret lower);
      l ← rd q;
      avl_set_lchild p (archild l);; avl_set_rchild q p;; avl_replace_child (kptr k) p q;;
      avl_assert (kptr k);; avl_assert p;; avl_assert q;; mret lower) Q st ms.
Proof.
  intros [Hh Hr] HQ. a_start st Hh Hr Hn. apply wp_bind.
  a_wr q Hh Hr Hn. a_wr p Hh Hr Hn. apply wp_ret. a_rd q Hh. a_tree p y Hh Hr Hn. a_node q p Hh Hr Hn.
  apply wp_bind. a_replace k p (N q b2 x dq (N p b1 y d a)) p C Hh Hr Hn.
  a_assert Hh. a_assert Hh. a_assert Hh. apply wp_ret. by apply HQ.
Qed.

Lemma wp_delete_rl p b a d q bq m bm x dm y dq c k C (Q : bool → avl → mem → Prop) st ms :
  Rep st (N p b a d (N q bq (N m bm x dm y) dq c)) k C → -1 ≤ bm ≤ 1 →
  (∀ st', Rep st' (N m 0 (N p (rl_node bm) a d x) dm (N q (rl_child bm) y dq c)) k C → anum st' = anum st → Q true st' ms) →
  wp (rl_factors p q m;;
      n ← rd m;
      avl_set_rchild p (alchild n);; avl_set_lchild q (archild n);; avl_set_lchild m p;; avl_set_rchild m q;;
      avl_replace_child (kptr k) p m;;
      avl_assert (kptr k);; avl_assert p;; avl_assert q;; avl_assert m;; mret true) Q st ms.
Proof.
  intros [Hh Hr] Hb HQ. a_start st Hh Hr Hn. apply wp_bind. own_cell3 p q m Hh.
  eapply wp_rl_factors; [exact Hh|exact Hb|a_next Hh Hr Hn].
  a_rd m Hh. a_tree p x Hh Hr Hn. a_tree q y Hh Hr Hn. a_node m p Hh Hr Hn. a_node m q Hh Hr Hn.
  apply wp_bind. a_replace k p (N m 0 (N p (rl_node bm) a d x) dm (N q (rl_child bm) y dq c)) q C Hh Hr Hn.
  a_assert Hh. a_assert Hh. a_assert Hh. a_assert Hh. apply wp_ret. by apply HQ.
Qed.

Lemma wp_delete_lr p b q bq x dq m bm y dm c d a k C (Q : bool → avl → mem → Prop) st ms :
  Rep st (N p b (N q bq x dq (N m bm y dm c)) d a) k C → -1 ≤ bm ≤ 1 →
  (∀ st', Rep st' (N m 0 (N q (lr_child bm) x dq y) dm (N p (lr_node bm) c d a)) k C → anum st' = anum st → Q true st' ms) →
  wp (lr_factors p q m;;
      n ← rd m;
      avl_set_lchild p (archild n);; avl_set_rchild q (alchild n);; avl_set_rchild m p;; avl_set_lchild m q;;
      avl_replace_child (kptr k) p m;;
      avl_assert (kptr k);; avl_assert p;; avl_assert q;; avl_assert m;; mret true) Q st ms.
Proof.
  intros [Hh Hr] Hb HQ. a_start st Hh Hr Hn. apply wp_bind. own_cell3 p q m Hh.
  eapply wp_lr_factors; [exact Hh|exact Hb|a_next Hh Hr Hn].
  a_rd m Hh. a_tree p c Hh Hr Hn. a_tree q y Hh Hr Hn. a_node m p Hh Hr Hn. a_node m q Hh Hr Hn.
  apply wp_bind. a_replace k p (N m 0 (N q (lr_child bm) x dq y) dm (N p (lr_node bm) c d a)) q C Hh Hr Hn.
  a_assert Hh. a_assert Hh. a_assert Hh. a_assert Hh. apply wp_ret. by apply HQ.
Qed.

(** A subtree is one lower than the factor says: balanced again, and lower or not. *)
Lemma wp_delete_left_balance p b l d r k C (lower : bool) (Q : bool → avl → mem → Prop) st ms :
  Rep st (N p b l d r) k C → balanced l → balanced r → b = height l + 1 - height r → -1 ≤ b ≤ 1 →
  (∀ lower' st' t', Rep st' t' k C → anum st' = anum st → flat t' = flat l ++ d :: flat r →
     shrunk (1 + Z.max (height l + 1) (height r)) t' lower' → Q lower' st' ms) →
  wp (avl_delete_left_balance p lower) Q st ms.
Proof.
  intros Hrep Hl Hr Hb Hb1 HQ. unfold avl_delete_left_balance. apply wp_bind. eapply wp_rd_rep; [exact Hrep|].
  cbn [bf aparent archild]. cbv zeta.
  destruct (Z.eqb_spec b AVL_LH) as [E|Hn1]; [|destruct (Z.eqb_spec b AVL_EH) as [E|Hn2]].
  1, 2: apply wp_bind; eapply wp_bf_rep; [exact Hrep|]; intros st' Hrep' Hn'; apply wp_ret;
    eapply HQ; [exact Hrep'|exact Hn'|done|]; split; tree_solve.
  rewrite (proj2 (Z.eqb_eq b AVL_RH)) by (unfold AVL_LH, AVL_EH, AVL_RH in *; lia). pose proof (height_pos l).
  assert (b = AVL_RH) as E by (unfold AVL_LH, AVL_EH, AVL_RH in *; lia). rewrite E in *. clear Hn1 Hn2 Hb1.
  destruct r as [|q bq x dq y]; [exfalso; cbn [height] in *; unfold AVL_RH in *; lia|].
  apply wp_bind. eapply wp_rd_rep; [exact (proj1 (avl_rep_right _ _ _ _ _ _ _ _) Hrep)|]. cbn [bf alchild].
  destruct Hr as (Hx & Hy & Hbq & Hbq'). cbn [height] in *.
  destruct (Z.eqb_spec bq AVL_EH) as [Eq|Hn1]; [|destruct (Z.eqb_spec bq AVL_RH) as [Eq|Hn2]]; cbn [orb].
  - eapply wp_delete_rr; [exact Hrep|]. intros st' Hrep' Hn'.
    eapply HQ; [exact Hrep'|exact Hn'|flat_solve|]. split; tree_solve.
  - eapply wp_delete_rr; [exact Hrep|]. intros st' Hrep' Hn'.
    eapply HQ; [exact Hrep'|exact Hn'|flat_solve|]. split; tree_solve.
  - rewrite (proj2 (Z.eqb_eq bq AVL_LH)) by (unfold AVL_LH, AVL_EH, AVL_RH in *; lia).
    destruct x as [|m bm x dm y1]; [exfalso; pose proof (height_pos y); cbn [height] in *; unfold AVL_EH, AVL_RH in *; lia|].
    destruct Hx as (Hx1 & Hx2 & Hbm & Hbm').
    eapply wp_delete_rl; [exact Hrep|done|]. intros st' Hrep' Hn'.
    eapply HQ; [exact Hrep'|exact Hn'|flat_solve|]. split; tree_solve.
Qed.

Lemma wp_delete_right_balance p b l d r k C (lower : bool) (Q : bool → avl → mem → Prop) st ms :
  Rep st (N p b l d r) k C → balanced l → balanced r → b = height l - (height r + 1) → -1 ≤ b ≤ 1 →
  (∀ lower' st' t', Rep st' t' k C → anum st' = anum st → flat t' = flat l ++ d :: flat r →
     shrunk (1 + Z.max (height l) (height r + 1)) t' lower' → Q lower' st' ms) →
  wp (avl_delete_right_balance p lower) Q st ms.
Proof.
  intros Hrep Hl Hr Hb Hb1 HQ. unfold avl_delete_right_balance. apply wp_bind. eapply wp_rd_rep; [exact Hrep|].
  cbn [bf aparent alchild]. cbv zeta. pose proof (height_pos r).
  destruct (Z.eqb_spec b AVL_LH) as [E|Hn1]; [|destruct (Z.eqb_spec b AVL_EH) as [E|Hn2]].
  2: { apply wp_bind; eapply wp_bf_rep; [exact Hrep|]; intros st' Hrep' Hn'; apply wp_ret;
    eapply HQ; [exact Hrep'|exact Hn'|done|]; split; tree_solve. }
  2: { rewrite (proj2 (Z.eqb_eq b AVL_RH)) by (unfold AVL_LH, AVL_EH, AVL_RH in *; lia).
    apply wp_bind; eapply wp_bf_rep; [exact Hrep|]; intros st' Hrep' Hn'; apply wp_ret;
    eapply HQ; [exact Hrep'|exact Hn'|done|]; split; tree_solve. }
  rewrite E in *. clear Hb1. destruct l as [|q bq x dq y]; [exfalso; cbn [height] in *; unfold AVL_LH in *; lia|].
  apply wp_bind. eapply wp_rd_rep; [exact (proj1 (avl_rep_left _ _ _ _ _ _ _ _) Hrep)|]. cbn [bf archild].
  destruct Hl as (Hx & Hy & Hbq & Hbq'). cbn [height] in *.
  destruct (Z.eqb_spec bq AVL_EH) as [Eq|Hn1]; [|destruct (Z.eqb_spec bq AVL_LH) as [Eq|Hn2]]; cbn [orb].
  - eapply wp_delete_ll; [exact Hrep|]. intros st' Hrep' Hn'.
    eapply HQ; [exact Hrep'|exact Hn'|flat_solve|]. split; tree_solve.
  - eapply wp_delete_ll; [exact Hrep|]. intros st' Hrep' Hn'.
    eapply HQ; [exact Hrep'|exact Hn'|flat_solve|]. split; tree_solve.
  - rewrite (proj2 (Z.eqb_eq bq AVL_RH)) by (unfold AVL_LH, AVL_EH, AVL_RH in *; lia).
    destruct y as [|m bm y1 dm c]; [exfalso; pose proof (height_pos x); cbn [height] in *; unfold AVL_EH, AVL_LH in *; lia|].
    destruct Hy as (Hy1 & Hy2 & Hbm & Hbm').
    eapply wp_delete_lr; [exact Hrep|done|]. intros st' Hrep' Hn'.
    eapply HQ; [exact Hrep'|exact Hn'|flat_solve|]. split; tree_solve.
Qed.

(** ** Taking a node out *)

Lemma wp_free (st : avl) t k C p n (Q : unit → avl → mem → Prop) ms :
  Rep st t k ((p, n) :: C) →
  (∀ st', Rep st' t k C → anum st' = anum st → Q tt st' ms) → wp (on_aheap (hfree p)) Q st ms.
Proof.
  intros [Hh Hr] HQ. unfold on_aheap. apply wp_zoom. eapply wp_hfree.
  - eapply own_perm; [|exact Hh]. instantiate (1 := cells t (kptr k) ++ kcells k (tptr t) ++ C). instantiate (1 := n). solve_Permutation.
  - intros h' Hh'. by apply HQ.
Qed.

(** A node with at most one child [c] is replaced by it. *)
Lemma wp_replace_one {A} (x : A) p n c k C (Q : A → avl → mem → Prop) st ms :
  Own st ((p, n) :: cells c p ++ kcells k p ++ C) → aroot st = kroot k p →
  (∀ st', Rep st' c k C → anum st' = anum st → Q x st' ms) →
  wp (avl_replace_child (kptr k) p (tptr c);;
      avl_assert (kptr k);; avl_assert (tptr c);; on_aheap (hfree p);; mret x) Q st ms.
Proof.
  intros Hh Hr HQ. apply wp_bind. eapply (wp_replace_child k p c p ((p, n) :: C)); [own_solve Hh|exact Hr|key_solve|].
  intros st' Hrep Hn. apply wp_bind. eapply wp_assert_parent; [exact Hrep|].
  apply wp_bind. eapply wp_assert; [exact Hrep|]. apply wp_bind.
  eapply wp_free; [exact Hrep|]. intros st2 Hrep2 Hn2. apply wp_ret, HQ; [done|congruence].
Qed.

(** ** The predecessor *)

Definition is_FR (f : frame D) : bool := match f with FR _ _ _ _ => true | _ => false end.

Lemma rep_plug_app st ks k t C : Rep st (plug ks t) k C ↔ Rep st t (ks ++ k) C.
Proof. revert t. induction ks as [|f ks IH]; intros t; simpl; [done|]. by rewrite IH, rep_down. Qed.

Lemma tptr_plug ks t : ks ≠ [] → tptr (plug ks t) ∈ fptr <$> ks.
Proof.
  destruct ks as [|f ks]; [done|]. intros _. revert f t. induction ks as [|f' ks IH]; intros f t.
  - cbn [plug]. rewrite tptr_fill. left.
  - right. apply (IH f' (fill f t)).
Qed.

Lemma kcells_fptr ks k c : fptr <$> ks ⊆ (kcells (ks ++ k) c).*1.
Proof.
  revert c. induction ks as [|f ks IH]; intros c; [by intros ? ?%elem_of_nil|]. intros q Hq.
  cbn [app kcells]. rewrite fmap_cons, fmap_app, elem_of_cons, elem_of_app. apply elem_of_cons in Hq as [->|Hq]; [by left|].
  right. right. by apply IH.
Qed.

(** The child of the node is [prev] exactly when no frame is between them. *)
Lemma tptr_plug_eq st p b l d r ks k C : Rep st (N p b l d r) (ks ++ k) C →
  (p =? tptr (plug ks (N p b l d r))) = bool_decide (ks = []).
Proof.
  intros [Hh _]. destruct (decide (ks = [])) as [->|Hks].
  - rewrite bool_decide_true by done. apply Z.eqb_refl.
  - rewrite bool_decide_false by done. apply Z.eqb_neq. intros E. pose proof (tptr_plug ks (N p b l d r) Hks) as Hin.
    rewrite <-E in Hin. cbn [cells app] in Hh. apply (own_fresh _ _ _ _ Hh). rewrite !fmap_app, !elem_of_app.
    right. left. by eapply kcells_fptr.
Qed.

(** The unlinking of [prev], whose cell is left on its own. *)
Lemma wp_unlink_left q b d r p n t k C (Q : unit → avl → mem → Prop) st ms :
  Own st ((p, n) :: cells t p ++ kcells (FL q b d r :: k) p ++ C) → aroot st = kroot k q →
  (∀ st', Rep st' t (FL q b d r :: k) ((p, n) :: C) → anum st' = anum st → Q tt st' ms) →
  wp (avl_set_lchild q (tptr t)) Q st ms.
Proof.
  intros Hh Hr HQ. eapply (avl_wp_set_lchild q (ANode b (kptr k) p (tptr r) d) t p ((p, n) :: cells r q ++ kcells k q ++ C)); [own_solve Hh|]. intros st' Hh' Hr' Hn'. apply HQ; [|done].
  constructor; [own_solve Hh'|by rewrite Hr']. 
Qed.

Lemma wp_unlink_right q b l d p n t k C (Q : unit → avl → mem → Prop) st ms :
  Own st ((p, n) :: cells t p ++ kcells (FR q b l d :: k) p ++ C) → aroot st = kroot k q →
  (∀ st', Rep st' t (FR q b l d :: k) ((p, n) :: C) → anum st' = anum st → Q tt st' ms) →
  wp (avl_set_rchild q (tptr t)) Q st ms.
Proof.
  intros Hh Hr HQ. eapply (avl_wp_set_rchild q (ANode b (kptr k) (tptr l) p d) t p ((p, n) :: cells l q ++ kcells k q ++ C)); [own_solve Hh|]. intros st' Hh' Hr' Hn'. apply HQ; [|done].
  constructor; [own_solve Hh'|by rewrite Hr'].
Qed.

Lemma wp_replace_and_delete t : ∀ n ks pn b d r k C st ms,
  (depth t < n)%nat → t ≠ L → Forall is_FR ks → Rep st t (ks ++ FL pn b d r :: k) C → balanced t →
  wp (avl_replace_and_delete n pn (tptr t) false) (λ lower st' ms',
    ms' = ms ∧ anum st' = anum st ∧ ∃ t' x, Rep st' t' (ks ++ FL pn b x r :: k) C ∧ flat t = flat t' ++ [x] ∧
      shrunk (height t) t' lower) st ms.
Proof.
  induction t as [|p bt l IHl dp rt IHr]; intros n ks pn b d r k C st ms Hn Hne HFR Hrep Hbal; [done|]. clear IHl Hne.
  destruct n as [|n]; [lia|]. cbn [avl_replace_and_delete tptr depth] in *.
  apply wp_bind. eapply wp_rd_rep; [exact Hrep|]. cbn [archild adata alchild aparent].
  destruct Hbal as (Hl & Hr & Hb & Hb'). destruct rt as [|pr br lr dr rr].
  - change (NULL =? tptr L) with true. cbn iota.
    assert (Rep st (N pn b (plug ks (N p bt l dp L)) d r) k C) as [Hup Hroot] by (by apply avl_rep_left, rep_plug_app).
    apply wp_bind. eapply wp_wr_h; [exact Hup|]. intros st1 Hh1 Hr1 Hn1.
    assert (Rep st1 (N pn b (plug ks (N p bt l dp L)) dp r) k C) as Hrep1 by (constructor; [exact Hh1|by rewrite Hr1, Hroot]).
    apply wp_bind. eapply wp_rd_rep; [exact Hrep1|]. cbn [alchild].
    apply avl_rep_left, rep_plug_app in Hrep1. rewrite (tptr_plug_eq _ _ _ _ _ _ _ _ _ Hrep1).
    assert (∀ st2, Rep st2 l (ks ++ FL pn b dp r :: k) ((p, ANode bt (kptr (ks ++ FL pn b d r :: k)) (tptr l) NULL dp) :: C) →
      anum st2 = anum st1 →
      wp (avl_assert pn;; avl_assert (kptr (ks ++ FL pn b d r :: k));; avl_assert (tptr l);; on_aheap (hfree p);; mret true)
        (λ lower st' ms', ms' = ms ∧ anum st' = anum st ∧ ∃ t' x, Rep st' t' (ks ++ FL pn b x r :: k) C ∧
          flat (N p bt l dp L) = flat t' ++ [x] ∧ shrunk (height (N p bt l dp L)) t' lower) st2 ms) as Hend.
    { intros st2 Hrep2 Hn2. apply wp_bind. eapply wp_assert_node; [by apply avl_rep_left, rep_plug_app|].
      apply wp_bind. replace (kptr (ks ++ FL pn b d r :: k)) with (kptr (ks ++ FL pn b dp r :: k)) by (by destruct ks).
      eapply wp_assert_parent; [exact Hrep2|]. apply wp_bind. eapply wp_assert; [exact Hrep2|]. apply wp_bind.
      eapply wp_free; [exact Hrep2|]. intros st3 Hrep3 Hn3. apply wp_ret. split_and!; [done|congruence|].
      eexists l, dp. split_and!; [exact Hrep3|done|]. pose proof (height_pos l). split; tree_solve. }
    apply wp_bind. destruct Hrep1 as [Hh2 Hr2]. destruct ks as [|f ks].
    + rewrite bool_decide_true by done. eapply (wp_unlink_left pn b dp r p (ANode bt pn (tptr l) NULL dp) l k C); [own_solve Hh2|exact Hr2|exact Hend].
    + rewrite bool_decide_false by done. apply Forall_cons in HFR as [Hf _]. destruct f as [|q bq lq dq]; [done|].
      eapply (wp_unlink_right q bq lq dq p (ANode bt q (tptr l) NULL dp) l (ks ++ FL pn b dp r :: k) C); [own_solve Hh2|exact Hr2|exact Hend].
  - rewrite (rep_null _ _ _ _ (proj1 (avl_rep_right _ _ _ _ _ _ _ _) Hrep)). cbn iota. apply wp_bind.
    eapply wp_mono; [apply (IHr n (FR p bt l dp :: ks) pn b d r k C); [lia|done|by constructor|exact (proj1 (avl_rep_right _ _ _ _ _ _ _ _) Hrep)|done]|].
    intros lower st' ms' (-> & Hn' & t' & x & Hrep' & Hfl & Hbt' & Hht'). apply (avl_rep_right _ p bt l dp) in Hrep'. destruct lower.
    + apply wp_bind. eapply wp_assert_node; [by apply avl_rep_left, rep_plug_app|]. apply wp_bind. eapply wp_assert_node; [exact Hrep'|].
      eapply wp_delete_right_balance; [exact Hrep'|done|done|lia|done|].
      intros lower' st2 t2 Hrep2 Hn2 Hf2 [Hb2 Hh2]. split_and!; [done|congruence|]. exists t2, x. split_and!; [exact Hrep2| |].
      * rewrite Hf2. cbn [flat] in *. rewrite Hfl. by rewrite <-app_assoc.
      * split; [done|]. rewrite Hh2, Hht'. cbn [height]. f_equal. lia.
    + apply wp_ret. split_and!; [done|done|]. exists (N p bt l dp t'), x. split_and!; [exact Hrep'| |].
      * cbn [flat] in *. rewrite Hfl. by rewrite <-app_assoc.
      * split; tree_solve.
Qed.

(** ** Deletion *)

Definition del_num (o : option D) (n : Z) : Z := match o with Some _ => u64 (n - 1) | None => n end.

(** The subtree [t] lost the datum [o] found, if any, and is lower or not. *)
Definition del_post (key : D) t k C (st : avl) (ms : mem) (x : bool * option D) (st' : avl) (ms' : mem) : Prop :=
  ms' = ms ∧ anum st' = del_num x.2 (anum st) ∧ ∃ t' (l1 l2 : list D), cut cmp key (flat t) l1 x.2 l2 ∧ flat t' = l1 ++ l2 ∧
    Rep st' t' k C ∧ shrunk (height t) t' x.1.

Lemma shrunk_same t : balanced t → shrunk (height t) t false.
Proof. intros ?. split; [done|lia]. Qed.

(** The rest of a deletion above the child that lost the datum. *)
Lemma wp_del_left key p b l d r k C st ms x st1 ms1 :
  balanced (N p b l d r) → sep cmp key (flat (N p b l d r)) → cmp key d < 0 →
  del_post key l (FL p b d r :: k) C st ms x st1 ms1 →
  wp (let '(lower, data) := x in
      avl_assert p;; n ← rd p; avl_assert (alchild n);;
      if lower : bool then lower ← avl_delete_left_balance p lower; mret (lower, data) else mret (lower, data))
    (del_post key (N p b l d r) k C st ms) st1 ms1.
Proof.
  intros (Hl & Hr & Hb & Hb') Hsep Hlt (-> & Hn & l' & l1 & l2 & Hcut & Hfl & Hrep & Hbl & Hhl). destruct x as [lower o]. cbn [fst snd] in *.
  apply avl_rep_left in Hrep. pose proof (cut_left _ _ _ _ _ _ _ _ Hsep Hlt Hcut) as Hcut'.
  apply wp_bind. eapply wp_assert_node; [exact Hrep|]. apply wp_bind. eapply wp_rd_rep; [exact Hrep|]. cbn [alchild].
  apply wp_bind. eapply wp_assert_left; [exact Hrep|]. destruct lower.
  - apply wp_bind. eapply wp_delete_left_balance; [exact Hrep|done|done|lia|done|].
    intros lower' st' t' Hrep' Hn' Hf' [Hb2 Hh2]. apply wp_ret. split; [done|]. split; [cbn [snd]; congruence|].
    eexists t', _, _. split; [exact Hcut'|]. split; [rewrite Hf', Hfl; by rewrite <-app_assoc|]. split; [done|].
    split; [done|]. rewrite Hh2, Hhl. cbn [height fst]. f_equal. lia.
  - apply wp_ret. split; [done|]. split; [done|]. eexists _, _, _. split; [exact Hcut'|]. split; [|split; [exact Hrep|split; tree_solve]].
    cbn [flat]. rewrite Hfl. by rewrite <-app_assoc.
Qed.

Lemma wp_del_right key p b l d r k C st ms x st1 ms1 :
  balanced (N p b l d r) → sep cmp key (flat (N p b l d r)) → 0 < cmp key d →
  del_post key r (FR p b l d :: k) C st ms x st1 ms1 →
  wp (let '(lower, data) := x in
      avl_assert p;; n ← rd p; avl_assert (archild n);;
      if lower : bool then lower ← avl_delete_right_balance p lower; mret (lower, data) else mret (lower, data))
    (del_post key (N p b l d r) k C st ms) st1 ms1.
Proof.
  intros (Hl & Hr & Hb & Hb') Hsep Hlt (-> & Hn & r' & l1 & l2 & Hcut & Hfl & Hrep & Hbr & Hhr). destruct x as [lower o]. cbn [fst snd] in *.
  apply avl_rep_right in Hrep. pose proof (cut_right _ _ _ _ _ _ _ _ Hsep Hlt Hcut) as Hcut'.
  apply wp_bind. eapply wp_assert_node; [exact Hrep|]. apply wp_bind. eapply wp_rd_rep; [exact Hrep|]. cbn [archild].
  apply wp_bind. eapply wp_assert_right; [exact Hrep|]. destruct lower.
  - apply wp_bind. eapply wp_delete_right_balance; [exact Hrep|done|done|lia|done|].
    intros lower' st' t' Hrep' Hn' Hf' [Hb2 Hh2]. apply wp_ret. split; [done|]. split; [cbn [snd]; congruence|].
    eexists t', _, _. split; [exact Hcut'|]. split; [rewrite Hf', Hfl; by rewrite <-app_assoc|]. split; [done|].
    split; [done|]. rewrite Hh2, Hhr. cbn [height fst]. f_equal. lia.
  - apply wp_ret. split; [done|]. split; [done|]. eexists _, _, _. split; [exact Hcut'|]. split; [|split; [exact Hrep|split; tree_solve]].
    cbn [flat]. rewrite Hfl. by rewrite <-app_assoc.
Qed.

Lemma wp_avl_delete_rec key t : ∀ n k C st ms,
  (depth t < n)%nat → t ≠ L → Rep st t k C → balanced t → sep cmp key (flat t) →
  wp (_avl_delete cmp n (tptr t) key false) (del_post key t k C st ms) st ms.
Proof.
  induction t as [|p b l IHl d r IHr]; intros n k C st ms Hn Hne Hrep Hbal Hsep; [done|]. clear Hne.
  destruct n as [|n]; [lia|]. cbn [_avl_delete tptr depth] in *. destruct (sep_node _ _ _ _ _ Hsep) as [Hsl Hsr].
  pose proof Hbal as (Hl & Hr & Hb & Hb'). pose proof (rep_null _ _ _ _ (proj1 (avl_rep_left _ _ _ _ _ _ _ _) Hrep)) as Enl.
  pose proof (rep_null _ _ _ _ (proj1 (avl_rep_right _ _ _ _ _ _ _ _) Hrep)) as Enr.
  apply wp_bind. eapply wp_rd_rep; [exact Hrep|]. cbn [adata aparent alchild archild]. cbv zeta. rewrite Enl, Enr. clear Enl Enr.
  destruct (Z.ltb_spec (cmp key d) 0) as [Hlt|Hge].
  { destruct (decide (l = L)) as [->|Hne].
    - apply wp_ret. split; [done|]. split; [done|]. exists (N p b L d r). eexists _, _. split; [by eapply cut_left, cut_nil|].
      split; [done|]. split; [done|]. by apply shrunk_same.
    - replace (match l with L => true | _ => false end) with false by (by destruct l). apply wp_bind.
      eapply wp_mono; [apply IHl; [lia|done|exact (proj1 (avl_rep_left _ _ _ _ _ _ _ _) Hrep)|done|done]|].
      intros x st1 ms1. by apply wp_del_left. }
  destruct (Z.gtb_spec (cmp key d) 0) as [Hgt|Hle].
  { destruct (decide (r = L)) as [->|Hne].
    - apply wp_ret. split; [done|]. split; [done|]. exists (N p b l d L). eexists _, _. split; [by eapply cut_right, cut_nil|].
      split; [cbn [snd fst]; by rewrite app_nil_r|]. split; [done|]. by apply shrunk_same.
    - replace (match r with L => true | _ => false end) with false by (by destruct r). apply wp_bind.
      eapply wp_mono; [apply IHr; [lia|done|exact (proj1 (avl_rep_right _ _ _ _ _ _ _ _) Hrep)|done|done]|].
      intros x st1 ms1. by apply wp_del_right. }
  assert (cut cmp key (flat (N p b l d r)) (flat l) (Some d) (flat r)) as Hcut by (apply cut_here; [done|lia]).
  apply wp_bind. unfold modify at 1, wp at 1. pose proof (height_pos l) as Hpl. pose proof (height_pos r) as Hpr.
  assert (Rep (set_anum (u64 (anum st - 1)) st) (N p b l d r) k C) as Hrep1 by (by apply rep_set_num).
  set (st1 := set_anum (u64 (anum st - 1)) st) in *. assert (anum st1 = u64 (anum st - 1)) as Hn1 by done. clearbody st1.
  assert (∀ c, Own st1 ((p, ANode b (kptr k) (tptr l) (tptr r) d) :: cells c p ++ kcells k p ++ C) → balanced c →
    flat c = flat l ++ flat r → height c = height (N p b l d r) - 1 →
    wp (avl_replace_child (kptr k) p (tptr c);; avl_assert (kptr k);; avl_assert (tptr c);; on_aheap (hfree p);; mret (true, Some d))
      (del_post key (N p b l d r) k C st ms) st1 ms) as Hone.
  { intros c Hc Hbc Hfc Hhc. eapply wp_replace_one; [exact Hc|by destruct Hrep1|]. intros st2 Hrep2 Hn2.
    split; [done|]. split; [cbn [snd del_num]; congruence|]. exists c, (flat l), (flat r). split_and!; [done|done|done|].
    split; [done|]. cbn [fst]. lia. }
  destruct (decide (r = L)) as [->|Hner]; [|replace (match r with L => true | _ => false end) with false by (by destruct r);
    destruct (decide (l = L)) as [->|Hnel]; [|replace (match l with L => true | _ => false end) with false by (by destruct l)]].
  - apply (Hone l); [destruct Hrep1 as [Hh1 _]; own_solve Hh1|done|by rewrite app_nil_r|]. cbn [height] in *. lia.
  - apply (Hone r); [destruct Hrep1 as [Hh1 _]; own_solve Hh1|done|done|]. cbn [height] in *. lia.
  - apply wp_bind. eapply wp_mono; [apply (wp_replace_and_delete l n [] p b d r k C); [lia|done|done|by apply avl_rep_left|done]|].
    intros lower st2 ms2 (-> & Hn2 & l' & x & Hrep2 & Hf2 & Hb2 & Hh2). apply (avl_rep_left _ p b l' x r k C) in Hrep2.
    assert (flat l' ++ x :: flat r = flat l ++ flat r) as Hfl by (rewrite Hf2; by rewrite <-app_assoc). destruct lower.
    + apply wp_bind. eapply wp_assert_node; [exact Hrep2|]. apply wp_bind.
      eapply wp_delete_left_balance; [exact Hrep2|done|done|lia|done|]. intros lower' st3 t' Hrep3 Hn3 Hf3 [Hb3 Hh3]. apply wp_ret.
      split; [done|]. split; [cbn [snd del_num]; congruence|]. exists t', (flat l), (flat r).
      split_and!; [done|by rewrite Hf3|done|]. split; [done|]. rewrite Hh3, Hh2. cbn [height fst]. f_equal. lia.
    + apply wp_ret. split; [done|]. split; [cbn [snd del_num]; congruence|]. exists (N p b l' x r), (flat l), (flat r).
      split_and!; [done|done|done|]. split; tree_solve.
Qed.

Lemma del_post_wf key (st : avl) t ms x st' ms' : anum st = u64 (Z.of_nat (length (flat t))) →
  del_post key t [] [] st ms x st' ms' →
  ms' = ms ∧ ∃ (l1 l2 : list D), cut cmp key (flat t) l1 x.2 l2 ∧ avl_wf st' (l1 ++ l2).
Proof.
  intros Hnum (-> & Hn & t' & l1 & l2 & Hcut & Hfl & Hrep' & Hb' & _). destruct x as [lower o]. cbn [fst snd] in *.
  split; [done|]. exists l1, l2. split; [exact Hcut|]. exists t'. split_and!; [done|done|done|].
  rewrite Hn, Hnum. destruct o as [x|]; cbn [del_num].
  - unfold u64. rewrite Zminus_mod_idemp_l. f_equal. rewrite (cut_eq _ _ _ _ _ _ Hcut). simpl. rewrite !length_app. simpl. lia.
  - do 2 f_equal. by rewrite (cut_eq _ _ _ _ _ _ Hcut).
Qed.

Lemma wp_avl_delete key st (l : list D) ms : avl_wf st l → sep cmp key l →
  wp (avl_delete cmp key) (λ x st' ms', ms' = ms ∧ x.1 = AVL_OK ∧ ∃ (l1 l2 : list D), cut cmp key l l1 x.2 l2 ∧ avl_wf st' (l1 ++ l2)) st ms.
Proof.
  intros (t & Hrep & Hbal & <- & Hnum) Hsep. unfold avl_delete. apply wp_bind. unfold get, wp at 1.
  rewrite (rep_root _ _ _ _ Hrep). cbn [kroot]. rewrite (rep_null _ _ _ _ Hrep). destruct (decide (t = L)) as [->|Hne].
  - apply wp_ret. split; [done|]. split; [done|]. exists [], []. split; [apply cut_nil|]. by exists L.
  - replace (match t with L => true | _ => false end) with false by (by destruct t). apply wp_bind.
    eapply wp_mono; [apply wp_avl_delete_rec; [by apply avl_fuel_depth|done|exact Hrep|done|done]|].
    intros x st' ms' Hpost. destruct (del_post_wf _ _ _ _ _ _ _ Hnum Hpost) as (-> & l1 & l2 & Hc & Hwf). destruct x as [lower o].
    apply wp_ret. split; [done|]. split; [done|]. by exists l1, l2.
Qed.
End Delete.
