(* ===== verification/AvlTrav.v ===== *)
(** The traversals of the AVL tree visit its data in order, its destruction
    releases every node once, children first, and the module implements the
    interface of the search trees. *)
From S2P Require Import Prelude Heap Table Avl AvlSpec AvlRot AvlInsert AvlDelete.
Open Scope Z_scope.

(** The first datum of a list a callback accepts. *)
Fixpoint for_first {D S} (find : D → SM S bool) (l : list D) : SM S (option D) :=
  match l with
  | [] => mret None
  | d :: l => found ← find d; if found : bool then mret (Some d) else for_first find l
  end.

Lemma wp_for_first_app {D S} (find : D → SM S bool) l1 l2 (Q : option D → S → mem → Prop) s ms :
  wp (for_first find (l1 ++ l2)) Q s ms →
  wp (for_first find l1) (λ o s ms, match o with Some d => Q (Some d) s ms | None => wp (for_first find l2) Q s ms end) s ms.
Proof.
  revert s ms. induction l1 as [|d l1 IH]; intros s ms HQ; [exact HQ|]. cbn [for_first app] in *.
  apply wp_bind_inv in HQ. apply wp_bind. eapply wp_mono; [exact HQ|]. cbn beta. intros [] s' ms' HQ'; [exact HQ'|by apply IH].
Qed.

Section Trav.
Context {D Σ : Type} (a : avl_tree_t D).
Implicit Types (t : tree D) (k : list (frame D)).

Lemma wp_rd_of p b l d r k C (Q : avl_node_t D → Σ → mem → Prop) s ms :
  Rep a (N p b l d r) k C → Q (ANode b (kptr k) (tptr l) (tptr r) d) s ms → wp (rd_of a p) Q s ms.
Proof.
  intros [Hh _] HQ. unfold rd_of. rewrite (proj2 (hp_get _ _ Hh p (ANode b (kptr k) (tptr l) (tptr r) d))) by left. exact HQ.
Qed.

Lemma wp_trav_rec proc t : ∀ n k C (Q : unit → Σ → mem → Prop) s ms, (depth t < n)%nat → Rep a t k C →
  wp (for_each proc (flat t)) Q s ms →
  wp (if negb (NULL =? tptr t) then _avl_trav n a (tptr t) proc else mret tt) Q s ms.
Proof.
  induction t as [|p b l IHl d r IHr]; intros n k C Q s ms Hn Hrep HQ; [exact HQ|]. rewrite (rep_null _ _ _ _ Hrep). cbn [negb].
  destruct n as [|n]; [lia|]. cbn [_avl_trav tptr depth flat] in *. apply wp_bind. eapply wp_rd_of; [exact Hrep|].
  cbn [alchild archild adata]. apply wp_for_each_app_inv in HQ.
  apply wp_bind. eapply IHl; [lia|exact (proj1 (avl_rep_left _ _ _ _ _ _ _ _) Hrep)|]. eapply wp_mono; [exact HQ|]. cbn beta.
  intros [] s' ms' HQ'. apply wp_bind_inv in HQ'. apply wp_bind. eapply wp_mono; [exact HQ'|]. cbn beta.
  intros [] s2 ms2 HQ2. eapply IHr; [lia|exact (proj1 (avl_rep_right _ _ _ _ _ _ _ _) Hrep)|exact HQ2].
Qed.

Lemma wp_find_rec find t : ∀ n k C (Q : option D → Σ → mem → Prop) s ms, (depth t < n)%nat → Rep a t k C →
  wp (for_first find (flat t)) Q s ms →
  wp (if negb (NULL =? tptr t) then _avl_find n a (tptr t) find else mret None) Q s ms.
Proof.
  induction t as [|p b l IHl d r IHr]; intros n k C Q s ms Hn Hrep HQ; [exact HQ|]. rewrite (rep_null _ _ _ _ Hrep). cbn [negb].
  destruct n as [|n]; [lia|]. cbn [_avl_find tptr depth flat] in *. apply wp_bind. eapply wp_rd_of; [exact Hrep|].
  cbn [alchild archild adata]. apply wp_for_first_app in HQ.
  apply wp_bind. eapply IHl; [lia|exact (proj1 (avl_rep_left _ _ _ _ _ _ _ _) Hrep)|]. eapply wp_mono; [exact HQ|]. cbn beta.
  intros [x|] s' ms' HQ'; [exact HQ'|]. cbn [for_first] in HQ'. apply wp_bind_inv in HQ'. apply wp_bind. eapply wp_mono; [exact HQ'|].
  cbn beta. intros [] s2 ms2 HQ2; [exact HQ2|]. eapply IHr; [lia|exact (proj1 (avl_rep_right _ _ _ _ _ _ _ _) Hrep)|exact HQ2].
Qed.

Lemma wp_avl_trav l proc (Q : unit → Σ → mem → Prop) s ms :
  avl_wf a l → wp (for_each proc l) Q s ms → wp (avl_trav a proc) Q s ms.
Proof.
  intros (t & Hrep & _ & <- & _) HQ. unfold avl_trav. rewrite (rep_root _ _ _ _ Hrep). cbn [kroot].
  pose proof (wp_trav_rec proc t (avl_fuel a) [] [] Q s ms (avl_fuel_depth _ _ Hrep) Hrep HQ) as Hw. by destruct (NULL =? tptr t).
Qed.

Lemma wp_avl_find l find (Q : option D → Σ → mem → Prop) s ms :
  avl_wf a l → wp (for_first find l) Q s ms → wp (avl_find a find) Q s ms.
Proof.
  intros (t & Hrep & _ & <- & _) HQ. unfold avl_find. rewrite (rep_root _ _ _ _ Hrep). cbn [kroot].
  pose proof (wp_find_rec find t (avl_fuel a) [] [] Q s ms (avl_fuel_depth _ _ Hrep) Hrep HQ) as Hw. by destruct (NULL =? tptr t).
Qed.
End Trav.

Section Destroy.
Context {D Σ : Type} (dealloc : D → SM Σ unit).
Abbreviation avl := (avl_tree_t D).
Implicit Types (t : tree D).

Fixpoint post_order t : list D := match t with L => [] | N _ _ l d r => post_order l ++ post_order r ++ [d] end.

Lemma post_order_perm t : post_order t ≡ₚ flat t.
Proof. induction t as [|p b l IHl d r IHr]; simpl; [done|]. rewrite IHl, IHr. by rewrite (Permutation_app_comm (flat r)). Qed.

Lemma wp_destroy_rec t : ∀ n par C (Q : unit → avl * Σ → mem → Prop) (a : avl) u ms,
  (depth t < n)%nat → Own a (cells t par ++ C) →
  wp (for_each dealloc (post_order t)) (λ _ u' ms', ∀ a' : avl, Own a' C → Q tt (a', u') ms') u ms →
  wp (if negb (NULL =? tptr t) then _avl_destroy n (tptr t) dealloc else mret tt) Q (a, u) ms.
Proof.
  induction t as [|p b l IHl d r IHr]; intros n par C Q a u ms Hn Hh HQ; [by apply HQ|].
  rewrite (tptr_null _ _ _ _ Hh). cbn [negb]. destruct n as [|n]; [lia|]. cbn [_avl_destroy tptr depth post_order cells app] in *.
  assert (∀ a' u' ms' C' (R : avl_node_t D → avl * Σ → mem → Prop),
    Own a' ((p, ANode b par (tptr l) (tptr r) d) :: C') → R (ANode b par (tptr l) (tptr r) d) (a', u') ms' →
    wp (on_fst (rd p)) R (a', u') ms') as Hrd.
  { intros a' u' ms' C' R Ha HR. unfold on_fst. apply wp_zoom. eapply wp_rd_h; [exact Ha|exact HR]. }
  apply wp_bind. eapply Hrd; [exact Hh|]. cbn [alchild]. apply wp_for_each_app_inv in HQ. apply wp_bind.
  apply (IHl n p ((p, ANode b par (tptr l) (tptr r) d) :: cells r p ++ C)); [lia|eapply own_perm; [|exact Hh]; solve_Permutation|].
  eapply wp_mono; [exact HQ|]. cbn beta. intros [] u1 ms1 HQ1 a1 Hh1. apply wp_for_each_app_inv in HQ1.
  apply wp_bind. eapply Hrd; [exact Hh1|]. cbn [archild]. apply wp_bind.
  apply (IHr n p ((p, ANode b par (tptr l) (tptr r) d) :: C)); [lia|eapply own_perm; [|exact Hh1]; solve_Permutation|].
  eapply wp_mono; [exact HQ1|]. cbn beta. intros [] u2 ms2 HQ2 a2 Hh2. apply wp_bind_inv in HQ2.
  apply wp_bind. eapply Hrd; [exact Hh2|]. cbn [adata]. apply wp_bind. unfold on_snd. apply wp_zoom.
  eapply wp_mono; [exact HQ2|]. cbn beta. intros [] u3 ms3 HQ3. unfold on_fst at 1. apply wp_zoom. unfold on_aheap. apply wp_zoom.
  eapply wp_hfree; [exact Hh2|]. intros h' Hh'. by apply HQ3.
Qed.

Lemma wp_avl_destroy (a : avl) l : avl_wf a l → ∃ ds, ds ≡ₚ l ∧ ∀ (Q : unit → avl * Σ → mem → Prop) u ms,
  wp (for_each dealloc ds) (λ _ u' ms', ∀ a' : avl, cell (aheap a') = ∅ → aroot a' = NULL → Q tt (a', u') ms') u ms →
  wp (avl_destroy dealloc) Q (a, u) ms.
Proof.
  intros (t & Hrep & _ & <- & _). exists (post_order t). split; [apply post_order_perm|]. intros Q u ms HQ.
  unfold avl_destroy. apply wp_bind. unfold get, wp at 1. cbn [fst]. pose proof (rep_root _ _ _ _ Hrep) as Hroot. cbn [kroot] in Hroot.
  pose proof (avl_fuel_depth _ _ Hrep) as Hfuel. rewrite Hroot. destruct Hrep as [Hh _].
  pose proof (λ R, wp_destroy_rec t (avl_fuel a) NULL [] R a u ms Hfuel Hh) as Hw. rewrite (tptr_null _ _ _ _ Hh) in *.
  destruct t as [|p b l d r]; cbn [negb] in Hw.
  - apply wp_ret. apply HQ; [|done]. by apply hp_nil.
  - apply wp_bind. apply Hw. eapply wp_mono; [exact HQ|]. cbn beta. intros [] u' ms' HQ' a' Ha'.
    unfold on_fst. apply wp_zoom. unfold modify, wp. apply HQ'; [|done]. by apply hp_nil.
Qed.
End Destroy.

(** ** The interface of the search trees *)

(** [avl_destroy] seen from its caller, whose tree is gone afterwards. *)
Definition avl_destroy_with {D Σ} (t : avl_tree_t D) (dealloc : D → SM Σ unit) : SM Σ unit :=
  zoom (λ u, (t, u)) (λ s _, s.2) (avl_destroy dealloc).

#[export] Instance avl_ops : TreeOps avl_tree_t := {
  tr_creat D Σ := avl_creat;
  tr_insert D := avl_insert;
  tr_query D := avl_query;
  tr_store D := avl_store;
  tr_delete D := avl_delete;
  tr_trav D Σ := avl_trav;
  tr_destroy D Σ := avl_destroy_with;
  tr_num D := anum;
  tr_wf D := avl_wf;
}.

Lemma avl_wf_creat {D} : avl_wf (D := D) (Avl 0 NULL empty_heap) [].
Proof. exists L. split_and!; [|done|done|done]. constructor; [apply hp_empty|done]. Qed.

#[export] Instance avl_laws : TreeLaws avl_tree_t.
Proof.
  split.
  - intros D Σ s. unfold tr_creat. simpl. unfold avl_creat, wp. simpl. split_and!; [done|done|]. eexists. split; [done|]. apply avl_wf_creat.
  - intros. by apply wp_avl_insert.
  - intros. by apply wp_avl_query.
  - intros. by apply wp_avl_store.
  - intros. by apply wp_avl_delete.
  - by intros D t l (? & _ & _ & _ & ?).
  - intros. by eapply wp_avl_trav.
  - intros D Σ t l dealloc Hwf _. destruct (wp_avl_destroy dealloc t l Hwf) as (ds & Hds & H).
    exists ds. split; [done|]. intros Q u ms HQ. unfold tr_destroy. simpl. unfold avl_destroy_with.
    apply wp_zoom. apply H. eapply wp_mono; [exact HQ|]. by intros [].
Qed.
