(* ===== verification/AvlProps.v ===== *)
(** What [lib/core/avl_tree.c] promises: insertion and deletion at a depth
    logarithmic in the number of the data, and, call by call, the results of the
    red-black tree. *)
From stdpp Require Import fin_maps gmap.
From S2P Require Import Prelude Heap Table RbTree RbTable RbProps TreeRel Avl AvlSpec AvlRot AvlInsert AvlDelete AvlTrav.
Open Scope Z_scope.

(** ** Depth *)

Lemma depth_height {D} (t : tree D) : height t = Z.of_nat (depth t).
Proof. induction t as [|p b l IHl d r IHr]; simpl; [done|]. rewrite IHl, IHr. lia. Qed.

(** A balanced tree of height [h] has at least [2 ^ (h / 2) - 1] data. *)
Lemma balanced_size {D} (t : tree D) : balanced t → 2 ^ height t ≤ (Z.of_nat (length (flat t)) + 1) ^ 2.
Proof.
  induction t as [|p b l IHl d r IHr]; [done|]. intros (Hl & Hr & Hb & Hb1). specialize (IHl Hl). specialize (IHr Hr).
  cbn [height flat]. rewrite length_app. cbn [length].
  set (m := Z.of_nat (length (flat l)) + 1) in *. set (n := Z.of_nat (length (flat r)) + 1) in *.
  replace (Z.of_nat (length (flat l) + S (length (flat r))) + 1) with (m + n) by (unfold m, n; lia).
  assert (1 ≤ m ∧ 1 ≤ n) as [Hm Hn] by (unfold m, n; lia). clearbody m n. pose proof (height_pos l). pose proof (height_pos r).
  set (h := Z.max (height l) (height r)). destruct (Z.eq_dec h 0) as [->|Hh]; [change (2 ^ (1 + 0)) with 2; nia|].
  assert (2 ^ (h - 1) ≤ m ^ 2 ∧ 2 ^ (h - 1) ≤ n ^ 2) as [H1 H2].
  { split; etrans; [|exact IHl| |exact IHr]; apply Z.pow_le_mono_r; lia. }
  replace (2 ^ (1 + h)) with (4 * 2 ^ (h - 1)) by (change 4 with (2 ^ 2); rewrite <-Z.pow_add_r by lia; f_equal; lia).
  generalize dependent (2 ^ (h - 1)). intros e H1 H2. destruct (Z.le_ge_cases m n); nia.
Qed.

Lemma balanced_log {D} (t : tree D) : balanced t → height t ≤ 2 * Z.log2 (Z.of_nat (length (flat t)) + 1) + 1.
Proof.
  intros Hb%balanced_size. set (n := Z.of_nat (length (flat t)) + 1) in *. assert (0 < n) as Hn by (unfold n; lia). clearbody n.
  apply Z.lt_succ_r. apply (Z.pow_lt_mono_r_iff 2); [lia| |].
  - pose proof (Z.log2_nonneg n). lia.
  - eapply Z.le_lt_trans; [exact Hb|]. replace (Z.succ (2 * Z.log2 n + 1)) with (Z.succ (Z.log2 n) * 2) by lia.
    pose proof (Z.log2_nonneg n). rewrite Z.pow_mul_r by lia. apply Z.pow_lt_mono_l; [lia|]. split; [lia|]. apply Z.log2_spec. lia.
Qed.

(** A number of calls that is enough for a path in a tree of the data [l]. *)
Definition path_fuel {D} (l : list D) : nat := Z.to_nat (2 * Z.log2 (Z.of_nat (length l) + 1) + 2).

Lemma depth_path {D} (t : tree D) : balanced t → (depth t < path_fuel (flat t))%nat.
Proof. intros Hb%balanced_log. rewrite depth_height in Hb. unfold path_fuel. lia. Qed.

Lemma rep_root_ne {D} (st : avl_tree_t D) t : Rep st t [] [] → aroot st ≠ NULL → t ≠ L.
Proof. intros Hrep Hr ->. apply Hr. apply (rep_root _ _ _ _ Hrep). Qed.

Section Props.
Context {D K : Type} (key : D → K) (dom : D → Prop) (cmp : D → D → Z).
Context (law : cmp_law key dom cmp).

(** An insertion below the root returns after at most [2 log2 (n + 1) + 2]
    nested calls, [n] the number of the data.  A datum of the same key refuses the
    new one and nothing changes; a failed allocation leaves the tree as it is; else
    the tree is balanced again and holds the datum besides the others, in order. *)
Theorem avl_insert_log d (st : avl_tree_t D) l n ms :
  avl_wf st l → sorted cmp l → Forall dom l → dom d → aroot st ≠ NULL → (path_fuel l ≤ n)%nat →
  wp (_avl_insert cmp n d (aroot st)) (λ x st' ms',
    (x.1 = AVL_NODE_EXIST ∧ st' = st ∧ ms' = ms ∧ Exists (λ y, key y = key d) l) ∨
    (Forall (λ y, key y ≠ key d) l ∧ ms' = tail ms ∧
      if decide (head ms = Some false) then x.1 = AVL_ERR ∧ st' = st
      else x.1 = AVL_OK ∧ ∃ t, Rep st' t [] [] ∧ balanced t ∧ sorted cmp (flat t) ∧ flat t ≡ₚ d :: l)) st ms.
Proof.
  intros (t & Hrep & Hbal & <- & _) Hs Hl Hd Hr Hn. rewrite (rep_root _ _ _ _ Hrep) in *. cbn [kroot] in *.
  assert (t ≠ L) as Ht by (by intros ->). pose proof (depth_path t Hbal).
  eapply wp_mono; [apply wp_avl_insert_rec; [lia|done|exact Hrep|done|by apply (sorted_sep key dom)]|].
  intros x st' ms' [(l1 & y & l2 & Hc & -> & -> & ->)|(l1 & l2 & Hc & -> & Hx)]; [left|right].
  - split_and!; [done..|]. apply Exists_exists. exists y. by eapply (cut_some_key key dom).
  - split_and!; [by eapply (cut_none_keys key dom)|done|]. case_decide; [by destruct Hx as [-> ->]|].
    destruct Hx as (t' & taller & -> & Hrep' & _ & Hfl & Hb' & _). split; [done|]. exists t'. rewrite Hfl.
    split_and!; [done|done|by eapply (cut_sorted key dom)|]. rewrite (cut_eq _ _ _ _ _ _ Hc). simpl. by rewrite Permutation_middle.
Qed.

(** C25: a deletion returns after at most [2 log2 (n + 1) + 2] nested calls, [n] the
    number of the data, and none of the assertions of the code fails on the way.  It
    takes out the datum of the key and returns it, or changes nothing when there is
    none; the tree is balanced again and counts its data. *)
Theorem avl_delete_log d (st : avl_tree_t D) l n ms :
  avl_wf st l → sorted cmp l → Forall dom l → dom d → aroot st ≠ NULL → (path_fuel l ≤ n)%nat →
  wp (_avl_delete cmp n (aroot st) d false) (λ x st' ms', ms' = ms ∧ ∃ l', avl_wf st' l' ∧ sorted cmp l' ∧
    match x.2 with
    | Some y => key y = key d ∧ l ≡ₚ y :: l'
    | None => l' = l ∧ Forall (λ y, key y ≠ key d) l
    end) st ms.
Proof.
  intros (t & Hrep & Hbal & <- & Hnum) Hs Hl Hd Hr Hn. rewrite (rep_root _ _ _ _ Hrep) in *. cbn [kroot] in *.
  assert (t ≠ L) as Ht by (by intros ->). pose proof (depth_path t Hbal).
  eapply wp_mono; [apply wp_avl_delete_rec; [lia|done|exact Hrep|done|by apply (sorted_sep key dom)]|].
  intros x st' ms' Hpost. destruct (del_post_wf _ _ _ _ _ _ _ _ Hnum Hpost) as (-> & l1 & l2 & Hc & Hwf). split; [done|].
  exists (l1 ++ l2). pose proof (cut_eq _ _ _ _ _ _ Hc) as Heq. destruct x as [lower [y|]]; cbn [fst snd] in *; simpl in Heq.
  - split_and!; [done|rewrite Heq in Hs; by eapply sorted_delete|by eapply (cut_some_key key dom)|]. by rewrite Heq, Permutation_middle.
  - rewrite <-Heq in *. split_and!; [done|done|done|]. by eapply (cut_none_keys key dom).
Qed.
End Props.

(** ** The two implementations of the search trees *)

Inductive tree_call (D : Type) := CInsert (d : D) | CQuery (d : D) | CDelete (d : D).
Arguments CInsert {_} _.
Arguments CQuery {_} _.
Arguments CDelete {_} _.
Definition tree_datum {D} (k : tree_call D) : D := match k with CInsert d | CQuery d | CDelete d => d end.

Section Calls.
Context {D : Type} (cmp : D → D → Z).

(** A call on a tree: the code of an insertion, the datum of the others. *)
Definition tree_call_run (T : Type → Type) `{TreeOps T} (k : tree_call D) : SM (T D) (Z + option D) :=
  match k with
  | CInsert d => r ← tr_insert cmp d; mret (inl r)
  | CQuery d => o ← tr_query cmp d; mret (inr o)
  | CDelete d => x ← tr_delete cmp d; mret (inr (snd x))
  end.

Fixpoint tree_calls_run (T : Type → Type) `{TreeOps T} (ks : list (tree_call D)) : SM (T D) (list (Z + option D)) :=
  match ks with
  | [] => mret []
  | k :: ks => r ← tree_call_run T k; rs ← tree_calls_run T ks; mret (r :: rs)
  end.

(** The calls on a new tree, with the allocations [ms] after its own: their
    results, the number in the tree and the allocations left. *)
Definition tree_run (T : Type → Type) `{TreeOps T} (ks : list (tree_call D)) (ms : mem) : outcome (list (Z + option D) * Z * mem) :=
  match tr_creat (T := T) (D := D) tt [] with
  | Ok (Some t, _, _) =>
      match tree_calls_run T ks t ms with
      | Ok (rs, t', ms') => Ok (rs, tr_num t', ms')
      | Blocked => Blocked
      | Crash => Crash
      | NoFuel => NoFuel
      end
  | _ => Crash
  end.

Context {K : Type} `{Countable K} (key : D → K).

(** The same calls on a finite map. *)
Definition map_call (k : tree_call D) (m : gmap K D) (ms : mem) : (Z + option D) * gmap K D * mem :=
  match k with
  | CInsert d =>
      match m !! key d with
      | Some _ => (inl TREE_NODE_EXIST, m, ms)
      | None => if decide (head ms = Some false) then (inl TREE_ERR, m, tail ms) else (inl TREE_OK, <[key d := d]> m, tail ms)
      end
  | CQuery d => (inr (m !! key d), m, ms)
  | CDelete d => (inr (m !! key d), delete (key d) m, ms)
  end.

Fixpoint map_calls (ks : list (tree_call D)) (m : gmap K D) (ms : mem) : list (Z + option D) * gmap K D * mem :=
  match ks with
  | [] => ([], m, ms)
  | k :: ks =>
      let '(r, m, ms) := map_call k m ms in
      let '(rs, m, ms) := map_calls ks m ms in (r :: rs, m, ms)
  end.

Definition map_run (ks : list (tree_call D)) (ms : mem) : list (Z + option D) * Z * mem :=
  let '(rs, m, ms) := map_calls ks ∅ ms in (rs, Z.of_nat (size m), ms).

Context (dm : D → Prop) (law : cmp_law key dm cmp).
#[local] Instance calls_ok : TreeOk key dm cmp := law.

Lemma wp_tree_call {T} `{TreeLaws T} (t : T D) m k ms : tmap key dm cmp t m → dm (tree_datum k) →
  wp (tree_call_run T k) (λ r t' ms', ∃ m', map_call k m ms = (r, m', ms') ∧ tmap key dm cmp t' m') t ms.
Proof.
  intros Ht Hd. destruct k as [d|d|d]; cbn [tree_datum tree_call_run map_call] in *; apply wp_bind.
  - eapply wp_mono; [exact (wp_tinsert Ht Hd)|]. intros r t' ms' Hr. apply wp_ret. destruct (m !! key d).
    + destruct Hr as (-> & -> & ->). eauto.
    + destruct Hr as [-> Hr]. case_decide; destruct Hr as [-> Hr]; eauto.
  - eapply wp_tquery; [exact Ht|done|]. apply wp_ret. eauto.
  - eapply wp_tdelete; [exact Ht|done|]. intros t' Ht'. apply wp_ret. eauto.
Qed.

Lemma wp_tree_calls {T} `{TreeLaws T} ks : ∀ (t : T D) m ms, tmap key dm cmp t m → Forall (λ k, dm (tree_datum k)) ks →
  wp (tree_calls_run T ks) (λ rs t' ms', ∃ m', map_calls ks m ms = (rs, m', ms') ∧ tmap key dm cmp t' m') t ms.
Proof.
  induction ks as [|k ks IH]; intros t m ms Ht Hd; cbn [tree_calls_run map_calls].
  - apply wp_ret. eauto.
  - apply Forall_cons in Hd as [Hk Hd]. apply wp_bind. eapply wp_mono; [by eapply wp_tree_call|].
    intros r t' ms' (m' & -> & Ht'). apply wp_bind. eapply wp_mono; [by eapply IH|].
    intros rs t2 ms2 (m2 & -> & Ht2). apply wp_ret. eauto.
Qed.

Lemma map_call_size k m ms r m' ms' : map_call k m ms = (r, m', ms') → (size m' ≤ S (size m))%nat.
Proof.
  destruct k as [d|d|d]; cbn [map_call]; [|intros; simplify_eq; lia|].
  - destruct (m !! key d); [intros; simplify_eq; lia|]. case_decide; intros; simplify_eq; [lia|]. rewrite map_size_insert. case_match; simpl; lia.
  - intros [= _ <- _]. rewrite map_size_delete. case_match; simpl; lia.
Qed.

Lemma map_calls_size ks : ∀ m ms rs m' ms', map_calls ks m ms = (rs, m', ms') → (size m' ≤ length ks + size m)%nat.
Proof.
  induction ks as [|k ks IH]; cbn [map_calls length]; intros m ms rs m' ms' Hm; [by simplify_eq|].
  destruct (map_call k m ms) as [[r m1] ms1] eqn:E1. destruct (map_calls ks m1 ms1) as [[rs2 m2] ms2] eqn:E2. simplify_eq.
  apply map_call_size in E1. apply IH in E2. lia.
Qed.

Lemma tree_run_map {T} `{TreeLaws T} ks ms : Forall (λ k, dm (tree_datum k)) ks → Z.of_nat (length ks) < 2 ^ 64 →
  tree_run T ks ms = Ok (map_run ks ms).
Proof.
  intros Hd Hlen. unfold tree_run, map_run. pose proof (law_creat (T := T) (D := D) tt) as Hc. unfold wp in Hc.
  destruct (tr_creat (T := T) (D := D) tt []) as [[[o u] ms0]| | |]; [|done..]. destruct Hc as (-> & -> & t & -> & Hwf).
  assert (tmap key dm cmp t ∅) as Ht.
  { constructor. exists []. split_and!; [done|constructor|constructor|].
    intros k d. rewrite lookup_empty. split; [done|by intros [?%elem_of_nil _]]. }
  pose proof (wp_tree_calls ks t ∅ ms Ht Hd) as Hw. unfold wp in Hw. destruct (tree_calls_run T ks t ms) as [[[rs t'] ms']| | |]; [|done..].
  destruct Hw as (m & E & Ht'). rewrite E. pose proof (map_calls_size _ _ _ _ _ _ E) as Hsz. rewrite map_size_empty in Hsz.
  by rewrite (tmap_num _ _ Ht') by lia.
Qed.

(** C24: the red-black tree and the AVL tree cannot be told apart.  Any sequence of
    less than 2^64 insertions, queries and deletions of data that the callback
    orders has the same results on both, ends with the same number of data and
    asks for the same allocations, whatever of them fails; they are those of a
    finite map from keys to data. *)
Theorem trees_agree ks ms : Forall (λ k, dm (tree_datum k)) ks → Z.of_nat (length ks) < 2 ^ 64 →
  tree_run avl_tree_t ks ms = Ok (map_run ks ms) ∧ tree_run rbt_tree_t ks ms = tree_run avl_tree_t ks ms.
Proof. intros Hd Hlen. by rewrite !tree_run_map. Qed.
End Calls.

(** ** Witnesses *)

(** The tree of these numbers, by the calls of the code. *)
Definition avl_demo : avl_tree_t Z :=
  match for_each (λ d, avl_insert zcmp d;; mret tt) demo (Avl 0 NULL empty_heap) [] with
  | Ok (_, t, _) => t
  | _ => Avl 0 NULL empty_heap
  end.

Lemma wp_inserts ds : ∀ (st : avl_tree_t Z) l, avl_wf st l → sorted zcmp l → NoDup (ds ++ l) →
  wp (for_each (λ d, avl_insert zcmp d;; mret tt) ds) (λ _ st' _, ∃ l', avl_wf st' l' ∧ sorted zcmp l' ∧ l' ≡ₚ ds ++ l) st [].
Proof.
  induction ds as [|d ds IH]; intros st l Hwf Hs Hnd; cbn [for_each app] in *; [apply wp_ret; by exists l|].
  apply NoDup_cons in Hnd as [Hd Hnd]. assert (Hall : Forall (λ _ : Z, True) l) by by apply Forall_true.
  apply wp_bind, wp_bind. eapply wp_mono; [apply wp_avl_insert; [exact Hwf|by apply (sorted_sep id (λ _, True) zcmp zcmp_law)]|].
  intros r st' ms' [(l1 & x & l2 & Hc & _)|(l1 & l2 & Hc & -> & Hr)].
  { destruct (cut_some_key _ _ _ zcmp_law _ _ _ _ _ I Hall Hc) as [Hx Hk]. unfold id in Hk. subst x. destruct Hd. set_solver. }
  rewrite decide_False in Hr by done. destruct Hr as [_ Hwf']. pose proof (cut_eq _ _ _ _ _ _ Hc) as Heq. simpl in Heq.
  apply wp_ret. assert (l1 ++ d :: l2 ≡ₚ d :: l) as Hp by (rewrite Heq; by rewrite Permutation_middle).
  eapply wp_mono; [apply (IH st' (l1 ++ d :: l2)); [exact Hwf'|by eapply cut_sorted; [exact zcmp_law|..]|]|].
  - rewrite Hp, <-Permutation_middle. by constructor.
  - cbn beta. intros [] st2 ms2 (l' & Hwf2 & Hs2 & Hp2). exists l'. split_and!; [done..|]. rewrite Hp2, Hp. by rewrite Permutation_middle.
Qed.

Lemma avl_demo_wf : ∃ l, avl_wf avl_demo l ∧ sorted zcmp l ∧ l ≡ₚ demo.
Proof.
  pose proof (wp_inserts demo (Avl 0 NULL empty_heap) [] avl_wf_creat) as H. unfold wp in H. unfold avl_demo.
  destruct (for_each _ demo _ []) as [[[u st] ms]| | |]; [|exfalso..]; apply H; try by constructor.
  all: rewrite app_nil_r; apply (bool_decide_unpack _); by vm_compute.
Qed.

Lemma avl_demo_root : aroot avl_demo = 1 ∧ anum avl_demo = 7 ∧ path_fuel demo = 8%nat.
Proof. by vm_compute. Qed.

Lemma path_fuel_perm {D} (l l' : list D) : l ≡ₚ l' → path_fuel l = path_fuel l'.
Proof. intros H. unfold path_fuel. by rewrite H. Qed.

Lemma avl_insert_log_witness : ∃ l, l ≡ₚ demo ∧
  wp (_avl_insert zcmp 8 6 (aroot avl_demo)) (λ x st' ms',
    (x.1 = AVL_NODE_EXIST ∧ st' = avl_demo ∧ ms' = [] ∧ Exists (λ y, id y = id 6) l) ∨
    (Forall (λ y, id y ≠ id 6) l ∧ ms' = tail [] ∧
      if decide (head (A := bool) [] = Some false) then x.1 = AVL_ERR ∧ st' = avl_demo
      else x.1 = AVL_OK ∧ ∃ t, Rep st' t [] [] ∧ balanced t ∧ sorted zcmp (flat t) ∧ flat t ≡ₚ 6 :: l)) avl_demo [].
Proof.
  destruct avl_demo_wf as (l & Hwf & Hs & Hl). exists l. split; [exact Hl|].
  apply (avl_insert_log id (λ _, True) zcmp zcmp_law 6 avl_demo l 8); [exact Hwf|exact Hs|by apply Forall_true|done|..].
  - by vm_compute.
  - rewrite (path_fuel_perm _ _ Hl). apply Nat.leb_le. by vm_compute.
Defined.

Lemma avl_delete_log_witness : ∃ l, l ≡ₚ demo ∧
  wp (_avl_delete zcmp 8 (aroot avl_demo) 5 false) (λ x st' ms', ms' = [] ∧ ∃ l', avl_wf st' l' ∧ sorted zcmp l' ∧
    match x.2 with
    | Some y => id y = id 5 ∧ l ≡ₚ y :: l'
    | None => l' = l ∧ Forall (λ y, id y ≠ id 5) l
    end) avl_demo [].
Proof.
  destruct avl_demo_wf as (l & Hwf & Hs & Hl). exists l. split; [exact Hl|].
  apply (avl_delete_log id (λ _, True) zcmp zcmp_law 5 avl_demo l 8); [exact Hwf|exact Hs|by apply Forall_true|done|..].
  - by vm_compute.
  - rewrite (path_fuel_perm _ _ Hl). apply Nat.leb_le. by vm_compute.
Defined.

Definition demo_tree_calls : list (tree_call Z) := (CInsert <$> demo) ++ [CInsert 4; CInsert 6; CQuery 4; CDelete 5; CQuery 5; CDelete 11].

Lemma trees_agree_witness :
  tree_run zcmp avl_tree_t demo_tree_calls [true; true; false] =
    Ok ([inl 0; inl 0; inl TREE_ERR; inl 0; inl 0; inl 0; inl 0; inl TREE_NODE_EXIST; inl 0; inr (Some 4); inr (Some 5); inr None; inr None], 6, []).
Proof.
  destruct (trees_agree zcmp id (λ _, True) zcmp_law demo_tree_calls [true; true; false]) as [H _]; [by apply Forall_true|by vm_compute|].
  rewrite H. by vm_compute.
Defined.
