(* ===== verification/Trees.v ===== *)
(** The trees the code works with: [hash_tab.c] makes its slots of red-black trees,
    and the tables of RTMQ are AVL trees.  Their clients see the interface of
    [Table] only. *)
From stdpp Require Import gmap.
From S2P Require Import Prelude Heap Table RbTree RbTable HashTab TreeRel Avl AvlTrav.
Open Scope Z_scope.

Definition htree : Type → Type := rbt_tree_t.
#[export] Instance htree_ops : TreeOps htree := rbt_ops.
#[export] Instance htree_laws : TreeLaws htree := rbt_laws.

Definition atree : Type → Type := avl_tree_t.
#[export] Instance atree_ops : TreeOps atree := avl_ops.
#[export] Instance atree_laws : TreeLaws atree := avl_laws.

(** New trees, and a new table of [n] slots. *)
Definition empty_htree {D} : htree D :=
  {| num := 0; root := 1; sentinel := 1;
     heap := {[ 1 := {| color_ := BLACK; parent := NULL; lchild := NULL; rchild := NULL; data := None |} ]};
     brk := 2 |}.
Definition empty_htab {D} (n : nat) : hash_tab_t htree D :=
  HashTab (Z.of_nat n) 0 (replicate n empty_htree) (replicate n idle).
Definition empty_atree {D} : atree D := Avl 0 NULL empty_heap.

Lemma tmap_empty {D K} `{Countable K} (key : D → K) dm cmp : tmap (T := atree) key dm cmp empty_atree ∅.
Proof.
  constructor. exists []. split_and!; [apply avl_wf_creat|constructor|constructor|].
  intros k d. rewrite lookup_empty. split; [done|by intros [?%elem_of_nil _]].
Qed.
