(* ===== verification/HashProps.v ===== *)
(** What [lib/core/hash_tab.c] promises: a table is a finite map from keys to
    data, whatever trees it is made of, and its locks are balanced except where a
    query hands one to the caller. *)
From stdpp Require Import fin_maps gmap.
From S2P Require Import Prelude Table RbTree RbTable HashTab TabRel.
Open Scope Z_scope.

(** Calls of a client that releases what it was given. *)
Inductive tab_call (D : Type) := TInsert (d : D) | TLookup (d : D) | TDelete (d : D).
Arguments TInsert {_} _.
Arguments TLookup {_} _.
Arguments TDelete {_} _.

Definition call_datum {D} (k : tab_call D) : D := match k with TInsert d | TLookup d | TDelete d => d end.

Section Calls.
Context {T : Type → Type} `{TreeOps T} {D K : Type} `{Countable K}.
Context (key : D → K) (hash : D → Z) (cmp : D → D → Z).

Definition run_tab_call (k : tab_call D) : SM (hash_tab_t T D) (Z + option D) :=
  match k with
  | TInsert d => r ← hash_tab_insert hash cmp d WRLOCK; mret (inl r)
  | TLookup d =>
      r ← hash_tab_query hash cmp d RDLOCK;
      match r with
      | None => mret (inr None)
      | Some x => hash_tab_unlock hash d RDLOCK;; mret (inr (Some x))
      end
  | TDelete d => r ← hash_tab_delete hash cmp d WRLOCK; mret (inr r)
  end.

Fixpoint run_tab_calls (ks : list (tab_call D)) : SM (hash_tab_t T D) (list (Z + option D)) :=
  match ks with
  | [] => mret []
  | k :: ks' => r ← run_tab_call k; rs ← run_tab_calls ks'; mret (r :: rs)
  end.

Definition abs_tab_call (k : tab_call D) (m : gmap K D) : (Z + option D) * gmap K D :=
  match k with
  | TInsert d =>
      match m !! key d with
      | Some _ => (inl TREE_NODE_EXIST, m)
      | None => (inl TREE_OK, <[key d := d]> m)
      end
  | TLookup d => (inr (m !! key d), m)
  | TDelete d => (inr (m !! key d), delete (key d) m)
  end.

Fixpoint abs_tab_calls (ks : list (tab_call D)) (m : gmap K D) : list (Z + option D) * gmap K D :=
  match ks with
  | [] => ([], m)
  | k :: ks' =>
      let s := abs_tab_calls ks' (abs_tab_call k m).2 in ((abs_tab_call k m).1 :: s.1, s.2)
  end.

(** [hash_tab_creat], then the calls. *)
Definition tab_run (n : Z) (ks : list (tab_call D)) :
    SM unit (option (list (Z + option D) * hash_tab_t T D)) := λ s ms,
  match hash_tab_creat (T := T) n s ms with
  | Ok (Some h, s', ms') =>
      match run_tab_calls ks h ms' with
      | Ok (rs, h', ms'') => Ok (Some (rs, h'), s', ms'')
      | Blocked => Blocked
      | Crash => Crash
      | NoFuel => NoFuel
      end
  | Ok (None, s', ms') => Ok (None, s', ms')
  | Blocked => Blocked
  | Crash => Crash
  | NoFuel => NoFuel
  end.
End Calls.

Section Props.
Context {T : Type → Type} `{TreeLaws T} {D K : Type} `{Countable K}.
Context (key : D → K) (dm : D → Prop) (hash : D → Z) (cmp : D → D → Z).
Context `{!HashOk key dm hash cmp}.
Abbreviation tab := (hash_tab_t T D).
Abbreviation hrep := (hrep key dm hash cmp).

Lemma wp_tab_call k (h : tab) m :
  hrep h m (idles (len h)) → dm (call_datum k) →
  wp (run_tab_call hash cmp k) (λ r h' ms', ms' = [] ∧ len h' = len h ∧
    r = (abs_tab_call key k m).1 ∧ hrep h' (abs_tab_call key k m).2 (idles (len h'))) h [].
Proof.
  intros Hr Hd. assert (Hf : ∀ lk, free_at (idles (len h)) (slot hash (len h) (call_datum k)) lk).
  { intros lk. apply free_replicate. by eapply slot_lt. }
  destruct k as [d|d|d]; cbn [call_datum run_tab_call abs_tab_call] in *; wp_step.
  - eapply wp_mono; [by apply (wp_hash_tab_insert key dm hash cmp h m (idles (len h)) d)|]. intros r h' ms' [Hl HQ]. wp_step.
    destruct (m !! key d); simpl in HQ; cbn [fst snd]; rewrite Hl.
    + destruct HQ as (-> & -> & HQ). by split_and!.
    + destruct HQ as (-> & -> & HQ). by split_and!.
  - eapply wp_mono; [by apply (wp_hash_tab_query key dm hash cmp h m (idles (len h)) d)|]. intros r h' ms' (Hl & -> & -> & HQ).
    cbn [fst snd]. destruct (m !! key d); wp_step.
    + rewrite <-Hl in *. apply (wp_hash_tab_unlock key dm hash cmp h' m (idles (len h'))); [done|done|done|].
      intros h2 Hr2 Hl2. wp_step. rewrite Hl2. by split_and!.
    + rewrite Hl. by split_and!.
  - eapply wp_mono; [by apply (wp_hash_tab_delete key dm hash cmp h m (idles (len h)) d)|]. intros r h' ms' (Hl & -> & -> & HQ).
    wp_step. cbn [fst snd]. rewrite Hl. by split_and!.
Qed.

Lemma wp_tab_calls ks : ∀ (h : tab) m,
  hrep h m (idles (len h)) → Forall (λ k, dm (call_datum k)) ks →
  wp (run_tab_calls hash cmp ks) (λ rs h' ms', ms' = [] ∧ rs = (abs_tab_calls key ks m).1 ∧
    hrep h' (abs_tab_calls key ks m).2 (idles (len h'))) h [].
Proof.
  induction ks as [|k ks IH]; intros h m Hr Hks; cbn [run_tab_calls abs_tab_calls]; [by wp_step|].
  apply Forall_cons in Hks as [Hk Hks]. wp_step. eapply wp_mono; [by apply wp_tab_call|].
  intros r h1 ms1 (-> & _ & -> & Hr1). wp_step. eapply wp_mono; [by apply IH|].
  intros rs h2 ms2 (-> & -> & Hr2). wp_step. by split_and!.
Qed.

(** C20: from [hash_tab_creat] on, every sequence of insertions, queries and
    deletions answers as a finite map from keys to data does, and leaves a table that
    represents that map, all locks free. *)
Theorem hash_tab_refines n ks :
  0 < n < 2 ^ 31 → Forall (λ k, dm (call_datum k)) ks →
  wp (tab_run (T := T) hash cmp n ks) (λ r _ ms', ms' = [] ∧ ∃ h,
    r = Some ((abs_tab_calls key ks ∅).1, h) ∧ hrep h (abs_tab_calls key ks ∅).2 (idles (len h))) tt [].
Proof.
  intros Hn Hks. unfold wp, tab_run.
  destruct (wp_elim _ _ _ _ (wp_hash_tab_creat key dm hash cmp (T := T) n tt Hn)) as (r & s & ms & -> & -> & -> & h & -> & Hl & Hr).
  rewrite <-Hl in Hr. destruct (wp_elim _ _ _ _ (wp_tab_calls ks h ∅ Hr Hks)) as (rs & h' & ms' & -> & -> & -> & Hr').
  split; [done|]. by exists h'.
Qed.

(** A query for writing that finds its key hands the lock of the slot to the
    caller: a second query of the key blocks, and the unlock frees the lock. *)
Theorem hash_tab_query_locks (h : tab) m d ms :
  hrep h m (idles (len h)) → dm d → is_Some (m !! key d) →
  (hash_tab_query hash cmp d WRLOCK;; hash_tab_query hash cmp d WRLOCK) h ms = Blocked ∧
  wp (hash_tab_query hash cmp d WRLOCK;; hash_tab_unlock hash d WRLOCK) (λ _ h' ms', ms' = ms ∧
    hrep h' m (idles (len h'))) h ms.
Proof.
  intros Hr Hd [x Hx].
  assert (Hf : ∀ lk, free_at (idles (len h)) (slot hash (len h) d) lk).
  { intros lk. apply free_replicate. by eapply slot_lt. }
  pose proof (wp_hash_tab_query key dm hash cmp h m _ d WRLOCK ms Hr Hd (Hf _)) as Hq. split.
  - unfold mbind, SM_bind. destruct (wp_elim _ _ _ _ Hq) as (r & h1 & ms1 & -> & Hl & -> & -> & Hr1).
    rewrite Hx in Hr1. unfold hash_tab_query.
    pose proof (wp_slot_idx key dm hash cmp h1 m _ d (λ i h2 ms', i = slot hash (len h1) d ∧ h2 = h1 ∧ ms' = ms) ms Hr1 Hd) as Hi.
    specialize (Hi ltac:(done)). destruct (wp_elim _ _ _ _ Hi) as (i & h2 & ms2 & Hrun & -> & -> & ->).
    unfold mbind, SM_bind. rewrite Hrun. unfold _hash_tab_lock, lock_op, mbind, SM_bind, get.
    rewrite (hr_lock _ _ _ _ _ _ _ Hr1), Hl. unfold locked. rewrite list_lookup_alter_eq.
    destruct (Hf WRLOCK) as (l & -> & Hg). done.
  - wp_step. eapply wp_mono; [exact Hq|]. intros r h1 ms1 (Hl & -> & -> & Hr1). rewrite Hx in Hr1.
    rewrite <-Hl in *. apply (wp_hash_tab_unlock key dm hash cmp h1 m (idles (len h1))); [done|done|apply Hf|].
    intros h2 Hr2 Hl2. rewrite Hl2. by split.
Qed.

(** A traversal calls the callback once on each datum of the map, and leaves
    the table as it is. *)
Theorem hash_tab_trav_spec (h : tab) m lk (log : list D) ms :
  hrep h m (idles (len h)) → Z.of_nat (size m) < 2 ^ 64 →
  wp (hash_tab_trav fst (λ h s, (h, s.2)) (λ d, modify (λ s, (s.1, s.2 ++ [d]))) lk)
    (λ _ s ms', ms' = ms ∧ hrep s.1 m (idles (len s.1)) ∧ ∃ ds, s.2 = log ++ ds ∧ ds ≡ₚ (map_to_list m).*2) (h, log) ms.
Proof.
  intros Hr Hsz. eapply wp_mono.
  { apply (wp_hash_tab_trav key dm hash cmp fst (λ h s, (h, s.2)) ltac:(done) (λ d, modify (λ s, (s.1, s.2 ++ [d]))) lk
      (idles (len h)) (λ ks m' s ms', m' = m ∧ ms' = ms ∧ ∃ ds, s.2 = log ++ ds ∧ key <$> ds = ks ∧
        Forall (λ d, m !! key d = Some d) ds)) with (m := m); [done| |exact Hr| |exact Hsz|].
    - intros ks m' d L' s ms' Hr' Hd Hk (-> & -> & ds & Hs & Hks & Hall). wp_step. exists d.
      rewrite insert_id by done. split_and!; [done..|]. exists (ds ++ [d]). cbn [fst snd].
      rewrite Hs, <-app_assoc, fmap_app, Hks. split_and!; [done..|]. apply Forall_app. split; [done|by constructor].
    - intros i Hi. by apply free_replicate.
    - split_and!; [done..|]. exists []. by rewrite app_nil_r. }
  intros [] s ms' (ks & m' & Hl & Hr' & Hks & (-> & -> & ds & Hs & Hdk & Hall) & _). cbn [fst] in *.
  split_and!; [done|by rewrite Hl|]. exists ds. split; [done|].
  assert (map_to_list m ≡ₚ (λ d, (key d, d)) <$> ds) as ->.
  - apply NoDup_Permutation; [apply NoDup_map_to_list| |].
    + apply (NoDup_fmap_1 fst). rewrite <-list_fmap_compose. simpl.
      assert (fst ∘ (λ d : D, (key d, d)) <$> ds = key <$> ds) as -> by by apply list_fmap_ext.
      rewrite Hdk, Hks. apply NoDup_fst_map_to_list.
    + intros [k d]. rewrite elem_of_map_to_list, list_elem_of_fmap. split.
      * intros Hkd. assert (k ∈ key <$> ds) as (d' & -> & Hd')%list_elem_of_fmap.
        { rewrite Hdk, Hks. apply (list_elem_of_fmap_2' _ _ (k, d)); [by apply elem_of_map_to_list|done]. }
        exists d'. rewrite Forall_forall in Hall. specialize (Hall _ Hd'). split; [congruence|done].
      * intros (d' & [= -> ->] & Hd'). rewrite Forall_forall in Hall. by apply Hall.
  - rewrite <-list_fmap_compose. simpl. by rewrite list_fmap_id.
Qed.

(** C28: a key whose hash has the top bit set, read as a negative [int64_t], leads
    outside of the arrays unless the length of the table divides it. *)
Theorem hash_tab_negative (h : tab) m d lk ms :
  hrep h m (idles (len h)) → 2 ^ 63 ≤ hash d < 2 ^ 64 → Z.rem (hash d - 2 ^ 64) (len h) ≠ 0 →
  hash_tab_query hash cmp d lk h ms = Crash.
Proof.
  intros Hr Hh Hrem. pose proof (hr_len _ _ _ _ _ _ _ Hr) as Hlen. unfold hash_tab_query, slot_idx, mbind, SM_bind, get.
  rewrite (proj2 (Z.eqb_neq (len h) 0)) by lia. cbn [negb cassert]. unfold mret, SM_ret.
  set (i := Z.to_nat _).
  assert (Hi : (Z.to_nat (len h) ≤ i)%nat).
  { unfold i. apply Z2Nat.inj_le; [lia|unfold u32; apply Z.mod_pos_bound; lia|].
    assert (i64 (hash d) = hash d - 2 ^ 64) as ->.
    { unfold i64. replace (hash d + 2 ^ 63) with (hash d - 2 ^ 63 + 1 * 2 ^ 64) by lia.
      rewrite Z_mod_plus_full, Z.mod_small; lia. }
    pose proof (Z.rem_bound_pos_neg (hash d - 2 ^ 64) (len h) ltac:(lia) ltac:(lia)) as Hb.
    set (q := Z.rem (hash d - 2 ^ 64) (len h)) in *.
    unfold u32. replace q with (q + 2 ^ 32 + (-1) * 2 ^ 32) by lia. rewrite Z_mod_plus_full, Z.mod_small; lia. }
  assert (Hnone : lock h !! i = None).
  { rewrite (hr_lock _ _ _ _ _ _ _ Hr). apply lookup_ge_None_2. unfold idles. by rewrite length_replicate. }
  assert (Htree : tree h !! i = None).
  { apply lookup_ge_None_2. by rewrite (hr_tree _ _ _ _ _ _ _ Hr). }
  destruct lk; unfold _hash_tab_lock, lock_op, mbind, SM_bind, get; rewrite ?Hnone; [|done|done].
  unfold mret, SM_ret, on_slot. by rewrite Htree.
Qed.
End Props.

(** The destruction of a table gives each datum to [dealloc] once. *)
Theorem hash_tab_destroy_spec {T : Type → Type} `{TreeLaws T} {D K : Type} `{Countable K}
    (key : D → K) (dm : D → Prop) (hash : D → Z) (cmp : D → D → Z) `{!HashOk key dm hash cmp}
    (h : hash_tab_t T D) m (log : list D) ms :
  hrep key dm hash cmp h m (idles (len h)) → Z.of_nat (size m) < 2 ^ 64 →
  wp (hash_tab_destroy fst (λ h s, (h, s.2)) (λ d, modify (λ s, (s.1, s.2 ++ [d]))))
    (λ _ s ms', ms' = ms ∧ ∃ ds, s.2 = log ++ ds ∧ ds ≡ₚ (map_to_list m).*2) (h, log) ms.
Proof.
  intros Hr Hsz. eapply wp_mono.
  { apply (wp_hash_tab_destroy key dm hash cmp fst (λ h s, (h, s.2)) ltac:(done) (λ d, modify (λ s, (s.1, s.2 ++ [d])))
      (idles (len h)) m (λ ds s ms', ms' = ms ∧ s.2 = log ++ ds)); [done| |done|done|done|].
    - intros ds d s ms' Hd [-> Hs]. wp_step. cbn [fst snd]. by rewrite Hs, <-app_assoc.
    - by rewrite app_nil_r. }
  intros [] s ms' (ds & Hds & -> & Hs). split; [done|]. by exists ds.
Qed.

(** ** Witnesses *)

(** Numbers, hashed by themselves. *)
Definition num_dm (z : Z) : Prop := 0 ≤ z < 2 ^ 63.

#[export] Instance num_ok : HashOk id num_dm (id : Z → Z) Z.sub.
Proof.
  constructor; [done|done|]. constructor; unfold id; intros; lia.
Qed.

Definition demo_calls : list (tab_call Z) :=
  [TInsert 3; TInsert 8; TInsert 13; TInsert 3; TLookup 13; TDelete 8; TLookup 8; TInsert 4].

Lemma demo_dm : Forall (λ k, num_dm (call_datum k)) demo_calls.
Proof. unfold num_dm. repeat constructor; simpl; lia. Qed.

Definition demo_map : gmap Z Z := (abs_tab_calls id demo_calls ∅).2.

Lemma demo_tab : ∃ h : hash_tab_t rbt_tree_t Z, hrep id num_dm id Z.sub h demo_map (idles (len h)) ∧ len h = 5.
Proof.
  destruct (wp_elim _ _ _ _ (wp_hash_tab_creat id num_dm id Z.sub (T := rbt_tree_t) 5 tt ltac:(done)))
    as (r & s & ms & _ & _ & _ & h & _ & Hl & Hr). rewrite <-Hl in Hr.
  assert (Hgen : ∀ ks (h : hash_tab_t rbt_tree_t Z) m, hrep id num_dm id Z.sub h m (idles (len h)) →
    Forall (λ k, num_dm (call_datum k)) ks →
    ∃ h', hrep id num_dm id Z.sub h' (abs_tab_calls id ks m).2 (idles (len h')) ∧ len h' = len h).
  { clear. induction ks as [|k ks IH]; intros h m Hr Hks; [by exists h|].
    apply Forall_cons in Hks as [Hk Hks].
    destruct (wp_elim _ _ _ _ (wp_tab_call id num_dm id Z.sub k h m Hr Hk)) as (r & h1 & ms1 & _ & _ & Hl & _ & Hr1).
    destruct (IH _ _ Hr1 Hks) as (h2 & Hr2 & Hl2). exists h2. split; [exact Hr2|congruence]. }
  destruct (Hgen demo_calls h ∅ Hr demo_dm) as (h' & Hr' & Hl'). exists h'. split; [exact Hr'|congruence].
Qed.

Lemma hash_tab_refines_witness :
  wp (tab_run (T := rbt_tree_t) id Z.sub 5 demo_calls) (λ r _ ms', ms' = [] ∧ ∃ h,
      r = Some ((abs_tab_calls id demo_calls ∅).1, h) ∧
      hrep id num_dm id Z.sub h (abs_tab_calls id demo_calls ∅).2 (idles (len h))) tt [].
Proof. apply (hash_tab_refines id num_dm id Z.sub); [done|exact demo_dm]. Defined.

Lemma hash_tab_query_locks_witness : ∃ h : hash_tab_t rbt_tree_t Z,
  (hash_tab_query id Z.sub 13 WRLOCK;; hash_tab_query id Z.sub 13 WRLOCK) h [] = Blocked ∧
  wp (hash_tab_query id Z.sub 13 WRLOCK;; hash_tab_unlock id 13 WRLOCK) (λ _ h' ms', ms' = [] ∧
      hrep id num_dm id Z.sub h' demo_map (idles (len h'))) h [].
Proof.
  destruct demo_tab as (h & Hr & _). exists h.
  apply (hash_tab_query_locks id num_dm id Z.sub h demo_map 13); [exact Hr|done|]. vm_compute. by eexists.
Defined.

Lemma hash_tab_trav_spec_witness : ∃ h : hash_tab_t rbt_tree_t Z,
  wp (hash_tab_trav fst (λ h s, (h, s.2)) (λ d, modify (λ s, (s.1, s.2 ++ [d]))) RDLOCK)
      (λ _ s ms', ms' = [] ∧ hrep id num_dm id Z.sub s.1 demo_map (idles (len s.1)) ∧
        ∃ ds, s.2 = [] ++ ds ∧ ds ≡ₚ (map_to_list demo_map).*2) (h, []) [].
Proof.
  destruct demo_tab as (h & Hr & _). exists h.
  apply (hash_tab_trav_spec id num_dm id Z.sub h demo_map); [exact Hr|]. vm_compute. reflexivity.
Defined.

Lemma hash_tab_negative_witness : ∃ h : hash_tab_t rbt_tree_t Z,
  len h = 5 ∧ hash_tab_query id Z.sub (2 ^ 63) WRLOCK h [] = Crash.
Proof.
  destruct demo_tab as (h & Hr & Hl). exists h. split; [exact Hl|].
  apply (hash_tab_negative id num_dm id Z.sub h demo_map); [exact Hr|done|]. rewrite Hl. vm_compute. discriminate.
Defined.

Lemma hash_tab_destroy_spec_witness : ∃ h : hash_tab_t rbt_tree_t Z,
  wp (hash_tab_destroy fst (λ h s, (h, s.2)) (λ d, modify (λ s, (s.1, s.2 ++ [d]))))
    (λ _ s ms', ms' = [] ∧ ∃ ds, s.2 = [] ++ ds ∧ ds ≡ₚ (map_to_list demo_map).*2) (h, []) [].
Proof.
  destruct demo_tab as (h & Hr & _). exists h.
  apply (hash_tab_destroy_spec id num_dm id Z.sub h demo_map); [exact Hr|]. vm_compute. reflexivity.
Defined.
