(* ===== verification/List.v ===== *)
(** The singly linked list of [lib/core/list.c], on a heap of nodes, and its
    refinement of the lists of data. *)
From S2P Require Import Prelude Heap.
Open Scope Z_scope.

Section Data.
Context {D : Type}.

Record list_node_t := LNode { ldata : D; lnext : ptr }.

(** [list_t], with the heap of its nodes. *)
Record list_t := MkList { lnum : Z; lhead : ptr; ltail : ptr; nodes : heap list_node_t }.

Definition set_next (p : ptr) (n : list_node_t) : list_node_t := LNode (ldata n) p.

Definition set_num (n : Z) (l : list_t) : list_t := MkList n (lhead l) (ltail l) (nodes l).
Definition set_head (p : ptr) (l : list_t) : list_t := MkList (lnum l) p (ltail l) (nodes l).
Definition set_tail (p : ptr) (l : list_t) : list_t := MkList (lnum l) (lhead l) p (nodes l).
Definition set_nodes (h : heap list_node_t) (l : list_t) : list_t := MkList (lnum l) (lhead l) (ltail l) h.
End Data.
Arguments list_node_t : clear implicits.
Arguments list_t : clear implicits.

Section Ops.
Context {D : Type}.
Abbreviation LM := (SM (list_t D)).

Definition on_nodes {A} : SM (heap (list_node_t D)) A → LM A := zoom nodes set_nodes.
Definition lrd (p : ptr) : LM (list_node_t D) := on_nodes (hrd p).
Definition lwr (p : ptr) (f : list_node_t D → list_node_t D) : LM unit := on_nodes (hwr p f).

(** [++list->num], [--list->num] on an [int]. *)
Definition incr_num : LM unit := modify (λ l, set_num (i32 (lnum l + 1)) l).
Definition decr_num : LM unit := modify (λ l, set_num (i32 (lnum l - 1)) l).

(** A loop over the nodes visits each at most once. *)
Definition list_fuel (l : list_t D) : nat := S (size (cell (nodes l))).

Definition list_creat {Σ} : SM Σ (option (list_t D)) :=
  ok ← malloc;
  mret (if ok : bool then Some (MkList 0 NULL NULL empty_heap) else None).

Definition list_lpush (d : D) : LM Z :=
  node ← on_nodes (halloc (LNode d NULL));
  match node with
  | None => mret (-1)
  | Some node =>
      l ← get;
      if lhead l =? NULL then
        modify (set_head node);; modify (set_tail node);;
        lwr node (set_next NULL);;
        modify (set_num 1);;
        mret 0
      else
        lwr node (set_next (lhead l));;
        modify (set_head node);;
        incr_num;;
        mret 0
  end.

Definition list_rpush (d : D) : LM Z :=
  node ← on_nodes (halloc (LNode d NULL));
  match node with
  | None => mret (-1)
  | Some node =>
      l ← get;
      if ltail l =? NULL then
        modify (set_head node);; modify (set_tail node);;
        lwr node (set_next NULL);;
        modify (set_num 1);;
        mret 0
      else
        lwr (ltail l) (set_next node);;
        modify (set_tail node);;
        lwr node (set_next NULL);;
        incr_num;;
        mret 0
  end.

Definition list_insert (prev : ptr) (d : D) : LM Z :=
  l ← get;
  if prev =? NULL then list_lpush d
  else if ltail l =? prev then list_rpush d
  else
    node ← on_nodes (halloc (LNode d NULL));
    match node with
    | None => mret (-1)
    | Some node =>
        p ← lrd prev;
        lwr node (set_next (lnext p));;
        lwr prev (set_next node);;
        incr_num;;
        mret 0
    end.

Definition list_lpop : LM (option D) :=
  l ← get;
  if lhead l =? NULL then mret None
  else if lhead l =? ltail l then
    modify (set_tail NULL);; modify (set_head NULL);; modify (set_num 0);;
    n ← lrd (lhead l);
    on_nodes (hfree (lhead l));;
    mret (Some (ldata n))
  else
    n ← lrd (lhead l);
    modify (set_head (lnext n));;
    decr_num;;
    on_nodes (hfree (lhead l));;
    mret (Some (ldata n)).

Definition list_rpop : LM (option D) :=
  l ← get;
  if lhead l =? NULL then mret None
  else if lhead l =? ltail l then
    modify (set_tail NULL);; modify (set_head NULL);; modify (set_num 0);;
    n ← lrd (lhead l);
    on_nodes (hfree (lhead l));;
    mret (Some (ldata n))
  else
    prev ← loop (list_fuel l) (λ prev,
      n ← lrd prev;
      if negb (lnext n =? ltail l) then mret (inl (lnext n)) else mret (inr prev)) (lhead l);
    lwr prev (set_next NULL);;
    modify (set_tail prev);;
    decr_num;;
    n ← lrd (ltail l);
    on_nodes (hfree (ltail l));;
    mret (Some (ldata n)).

Definition list_remove `{EqDecision D} (d : D) : LM Z :=
  l ← get;
  loop (list_fuel l) (λ '(prev, curr),
    if curr =? NULL then mret (inr (-1)) else
    n ← lrd curr;
    if decide (ldata n = d) then
      if lhead l =? curr then
        if lhead l =? ltail l then
          modify (set_head NULL);; modify (set_tail NULL);; modify (set_num 0);;
          on_nodes (hfree curr);; mret (inr 0)
        else
          modify (set_head (lnext n));; decr_num;;
          on_nodes (hfree curr);; mret (inr 0)
      else if curr =? ltail l then
        lwr prev (set_next (lnext n));; modify (set_tail prev);; decr_num;;
        on_nodes (hfree curr);; mret (inr 0)
      else
        lwr prev (set_next (lnext n));; decr_num;;
        on_nodes (hfree curr);; mret (inr 0)
    else mret (inl (curr, lnext n))) (lhead l, lhead l).

(** [idx] is an [int]; a negative one reads the head. *)
Definition list_fetch (idx : Z) : LM (option D) :=
  l ← get;
  if lnum l <=? idx then mret None else
  node ← loop (S (Z.to_nat idx)) (λ '(i, node),
    if i <? idx then n ← lrd node; mret (inl (i + 1, lnext n)) else mret (inr node)) (0, lhead l);
  n ← lrd node;
  mret (Some (ldata n)).

(** Insertion in descending order. *)
Definition list_sort (cmp : D → D → Z) (d : D) : LM Z :=
  l ← get;
  if lhead l =? NULL then list_lpush d else
  loop (list_fuel l) (λ '(prev, curr),
    if curr =? NULL then r ← list_insert prev d; mret (inr r) else
    n ← lrd curr;
    let ret := cmp d (ldata n) in
    if (ret =? 0) || (0 <? ret) then r ← list_insert prev d; mret (inr r)
    else mret (inl (curr, lnext n))) (NULL, lhead l).

Definition list_find (cb : D → bool) : LM (option D) :=
  l ← get;
  loop (list_fuel l) (λ node,
    if node =? NULL then mret (inr None) else
    n ← lrd node;
    if cb (ldata n) then mret (inr (Some (ldata n))) else mret (inl (lnext n))) (lhead l).

Definition list_find_and_del (cb : D → bool) : LM (option D) :=
  l ← get;
  loop (list_fuel l) (λ '(prev, node),
    if node =? NULL then mret (inr None) else
    n ← lrd node;
    if cb (ldata n) then
      decr_num;;
      l ← get;
      (if lnum l =? 0 then modify (set_head NULL)
       else
         (if negb (prev =? NULL) then lwr prev (set_next (lnext n)) else mret tt);;
         (if node =? lhead l then modify (set_head (lnext n)) else mret tt));;
      on_nodes (hfree node);;
      mret (inr (Some (ldata n)))
    else mret (inl (node, lnext n))) (NULL, lhead l).

(** [list_assert]: the chain has [num] nodes. *)
Definition list_assert : LM unit :=
  l ← get;
  num ← loop (list_fuel l) (λ '(num, curr),
    if curr =? NULL then mret (inr num) else
    n ← lrd curr; mret (inl (i32 (num + 1), lnext n))) (0, lhead l);
  cassert (num =? lnum l).
End Ops.

Section Trav.
Context {D Σ : Type}.

(** [proc] runs on the caller's state and stops the traversal by a result other
    than 0. *)
Definition list_trav (l : list_t D) (proc : D → SM Σ Z) : SM Σ Z :=
  loop (list_fuel l) (λ node,
    if node =? NULL then mret (inr 0) else
    n ← deref (cell (nodes l) !! node);
    ret ← proc (ldata n);
    if negb (ret =? 0) then mret (inr (-1)) else mret (inl (lnext n))) (lhead l).

(** [dealloc] runs on the data, then each node is freed. *)
Definition list_destroy (dealloc : D → SM Σ unit) : SM (list_t D * Σ) unit :=
  l ← get;
  loop (list_fuel l.1) (λ curr,
    if curr =? NULL then mret (inr tt) else
    n ← zoom fst (λ l s, (l, s.2)) (lrd curr);
    zoom snd (λ u s, (s.1, u)) (dealloc (ldata n));;
    zoom fst (λ l s, (l, s.2)) (on_nodes (hfree curr));;
    mret (inl (lnext n))) (lhead l.1).
End Trav.

(** ** Refinement of lists *)

Section Rep.
Context {D : Type}.
Implicit Types (ps : list (ptr * D)) (l : list_t D).

(** The first address of a segment that ends at [q]. *)
Definition first ps (q : ptr) : ptr := match ps with [] => q | (p, _) :: _ => p end.

(** The cells of a segment of nodes that ends at [q]. *)
Fixpoint seg ps (q : ptr) : list (ptr * list_node_t D) :=
  match ps with [] => [] | (p, d) :: ps' => (p, LNode d (first ps' q)) :: seg ps' q end.

(** The address of the last node. *)
Definition lastp ps : ptr := match last ps with None => NULL | Some (p, _) => p end.

Record lrep_at l ps : Prop := {
  lr_hp : hp (nodes l) (seg ps NULL);
  lr_head : lhead l = first ps NULL;
  lr_tail : ltail l = lastp ps;
  lr_num : lnum l = i32 (Z.of_nat (length ps));
}.

(** The list [l] holds the data [xs]. *)
Definition lrep l (xs : list D) : Prop := ∃ ps, lrep_at l ps ∧ ps.*2 = xs.

Lemma first_app ps1 ps2 q : first (ps1 ++ ps2) q = first ps1 (first ps2 q).
Proof. by destruct ps1 as [|[]]. Qed.

Lemma seg_app ps1 ps2 q : seg (ps1 ++ ps2) q = seg ps1 (first ps2 q) ++ seg ps2 q.
Proof. induction ps1 as [|[p d] ps1 IH]; simpl; [done|]. by rewrite IH, first_app. Qed.

Lemma seg_fst ps q : (seg ps q).*1 = ps.*1.
Proof. induction ps as [|[p d] ps IH]; csimpl; [done|]. by rewrite IH. Qed.

Lemma seg_length ps q : length (seg ps q) = length ps.
Proof. induction ps as [|[p d] ps IH]; simpl; [done|]. by rewrite IH. Qed.

Lemma lastp_snoc ps p d : lastp (ps ++ [(p, d)]) = p.
Proof. unfold lastp. by rewrite last_snoc. Qed.

Lemma lastp_cons x y ps : lastp (x :: y :: ps) = lastp (y :: ps).
Proof. done. Qed.

Lemma rep_pos l ps p : lrep_at l ps → p ∈ ps.*1 → NULL < p.
Proof.
  intros Hr Hp. rewrite <-(seg_fst ps NULL) in Hp.
  by destruct (hp_pos _ _ _ (lr_hp _ _ Hr) Hp).
Qed.

Lemma rep_nodup l ps : lrep_at l ps → NoDup ps.*1.
Proof. intros Hr. rewrite <-(seg_fst ps NULL). apply (hp_nodup _ _ (lr_hp _ _ Hr)). Qed.

Lemma rep_fuel l ps : lrep_at l ps → list_fuel l = S (length ps).
Proof.
  intros Hr. unfold list_fuel. by rewrite (hp_size _ _ (lr_hp _ _ Hr)), seg_length.
Qed.

Lemma wp_on_nodes {A} (m : SM (heap (list_node_t D)) A) (Q : A → list_t D → mem → Prop) l ms :
  wp m (λ a h, Q a (set_nodes h l)) (nodes l) ms → wp (on_nodes m) Q l ms.
Proof. intros H. by apply wp_zoom. Qed.

Lemma wp_lrd p n C (Q : list_node_t D → list_t D → mem → Prop) l ms :
  hp (nodes l) ((p, n) :: C) → Q n l ms → wp (lrd p) Q l ms.
Proof. intros H HQ. apply wp_on_nodes. eapply wp_hrd; [done|]. by destruct l. Qed.

Lemma wp_lwr p n f C (Q : unit → list_t D → mem → Prop) l ms :
  hp (nodes l) ((p, n) :: C) →
  (∀ h, hp h ((p, f n) :: C) → Q tt (set_nodes h l) ms) → wp (lwr p f) Q l ms.
Proof. intros H HQ. apply wp_on_nodes. by eapply wp_hwr. Qed.

Lemma wp_lfree p n C (Q : unit → list_t D → mem → Prop) l ms :
  hp (nodes l) ((p, n) :: C) →
  (∀ h, hp h C → Q tt (set_nodes h l) ms) → wp (on_nodes (hfree p)) Q l ms.
Proof. intros H HQ. apply wp_on_nodes. by eapply wp_hfree. Qed.

Lemma wp_lalloc n C (Q : option ptr → list_t D → mem → Prop) l ms :
  hp (nodes l) C →
  (if decide (hd_error ms = Some false) then Q None l (tl ms)
   else ∀ h p, NULL < p → hp h ((p, n) :: C) → Q (Some p) (set_nodes h l) (tl ms)) →
  wp (on_nodes (halloc n)) Q l ms.
Proof.
  intros H HQ. apply wp_on_nodes. eapply wp_halloc; [exact H|]. change (head ms) with (hd_error ms).
  case_decide; [by destruct l|done].
Qed.

Lemma first_null ps l : lrep_at l ps → (first ps NULL =? NULL) = bool_decide (ps = []).
Proof.
  intros Hr. destruct ps as [|[p d] ps]; [done|]. rewrite bool_decide_false by done.
  apply Z.eqb_neq. simpl. pose proof (rep_pos _ _ p Hr). assert (NULL < p) by (apply H; left). lia.
Qed.

(** *** Pushes *)

Lemma wp_lpush d l ps (Q : Z → list_t D → mem → Prop) ms :
  lrep_at l ps →
  (if decide (hd_error ms = Some false) then Q (-1) l (tl ms)
   else ∀ l' p, lrep_at l' ((p, d) :: ps) → Q 0 l' (tl ms)) →
  wp (list_lpush d) Q l ms.
Proof.
  intros Hr HQ. unfold list_lpush. wp_steps. eapply wp_lalloc; [apply (lr_hp _ _ Hr)|].
  case_decide; wp_steps; [done|]. intros h p Hp Hh. wp_steps. cbn [lhead set_nodes].
  rewrite (lr_head _ _ Hr), (first_null _ _ Hr). destruct ps as [|[q e] ps].
  - rewrite bool_decide_true by done. wp_steps. eapply wp_lwr; [exact Hh|]. intros h' Hh'. wp_steps.
    apply (HQ _ p). by constructor.
  - rewrite bool_decide_false by done. wp_steps. eapply wp_lwr; [exact Hh|]. intros h' Hh'.
    unfold incr_num. wp_steps. apply (HQ _ p). destruct Hr as [R1 R2 R3 R4].
    constructor; simpl; [exact Hh'|done|by rewrite R3|by rewrite R4, i32_add, Z.add_1_r, <-Nat2Z.inj_succ].
Qed.

Lemma wp_rpush d l ps (Q : Z → list_t D → mem → Prop) ms :
  lrep_at l ps →
  (if decide (hd_error ms = Some false) then Q (-1) l (tl ms)
   else ∀ l' p, lrep_at l' (ps ++ [(p, d)]) → Q 0 l' (tl ms)) →
  wp (list_rpush d) Q l ms.
Proof.
  intros Hr HQ. unfold list_rpush. wp_steps. eapply wp_lalloc; [apply (lr_hp _ _ Hr)|].
  case_decide; wp_steps; [done|]. intros h p Hp Hh. wp_steps. cbn [ltail set_nodes].
  rewrite (lr_tail _ _ Hr). destruct ps as [|[q e] ps0 _] using rev_ind.
  - simpl. wp_steps. eapply wp_lwr; [exact Hh|]. intros h' Hh'. wp_steps.
    apply (HQ _ p). by constructor.
  - assert (Hq : NULL < q) by (eapply rep_pos; [done|]; rewrite fmap_app; set_solver).
    rewrite lastp_snoc, (proj2 (Z.eqb_neq _ _)) by lia. wp_steps.
    rewrite seg_app in Hh. simpl in Hh.
    eapply (wp_lwr q (LNode e NULL) _ ((p, LNode d NULL) :: seg ps0 q)); [heap_solve Hh|].
    intros h' Hh'. wp_steps.
    eapply (wp_lwr p (LNode d NULL) _ ((q, LNode e p) :: seg ps0 q)); [heap_solve Hh'|].
    intros h2 Hh2. unfold incr_num. wp_steps. apply (HQ _ p). destruct Hr as [R1 R2 R3 R4].
    constructor; simpl.
    + rewrite <-app_assoc. simpl. rewrite seg_app. simpl. heap_solve Hh2.
    + rewrite <-app_assoc, first_app, R2, first_app. done.
    + by rewrite lastp_snoc.
    + rewrite R4, i32_add. f_equal. rewrite !length_app. simpl. lia.
Qed.

Lemma lastp_app ps1 ps2 : ps2 ≠ [] → lastp (ps1 ++ ps2) = lastp ps2.
Proof. intros. destruct ps2 as [|x ps2 _] using rev_ind; [done|]. rewrite app_assoc. unfold lastp. by rewrite !last_snoc. Qed.

Lemma lastp_in ps : ps ≠ [] → lastp ps ∈ ps.*1.
Proof. destruct ps as [|[p d] ps _] using rev_ind; [done|]. intros _. rewrite lastp_snoc, fmap_app. set_solver. Qed.

(** The last node is not one that has a successor. *)
Lemma lastp_ne l ps1 p d x ps2 : lrep_at l (ps1 ++ (p, d) :: x :: ps2) → lastp (ps1 ++ (p, d) :: x :: ps2) ≠ p.
Proof.
  intros Hr Heq. apply rep_nodup in Hr. rewrite lastp_app, lastp_cons in Heq by done.
  pose proof (lastp_in (x :: ps2) ltac:(done)) as Hin. rewrite Heq in Hin.
  rewrite fmap_app in Hr. apply NoDup_app in Hr as (_ & _ & Hr). simpl in Hr. apply NoDup_cons in Hr as [Hr _].
  done.
Qed.

Lemma wp_insert_after d l ps1 q e ps2 (Q : Z → list_t D → mem → Prop) ms :
  lrep_at l (ps1 ++ (q, e) :: ps2) →
  (if decide (hd_error ms = Some false) then Q (-1) l (tl ms)
   else ∀ l' p, lrep_at l' (ps1 ++ (q, e) :: (p, d) :: ps2) → Q 0 l' (tl ms)) →
  wp (list_insert q d) Q l ms.
Proof.
  intros Hr HQ. unfold list_insert. wp_steps.
  assert (Hq : NULL < q) by (eapply rep_pos; [done|]; rewrite fmap_app; set_solver).
  rewrite (proj2 (Z.eqb_neq q NULL)) by lia. rewrite (lr_tail _ _ Hr). destruct ps2 as [|x ps2].
  - rewrite lastp_snoc, Z.eqb_refl. eapply wp_rpush; [exact Hr|]. case_decide; [done|].
    intros l' p. rewrite <-app_assoc. apply HQ.
  - pose proof (lastp_ne _ _ _ _ _ _ Hr) as Hne. rewrite (proj2 (Z.eqb_neq _ _)) by done. wp_steps.
    eapply wp_lalloc; [apply (lr_hp _ _ Hr)|]. case_decide; wp_steps; [done|]. intros h p Hp Hh. wp_steps.
    rewrite seg_app in Hh. simpl in Hh.
    set (C := seg ps1 q ++ seg (x :: ps2) NULL).
    eapply (wp_lrd q _ ((p, LNode d NULL) :: C)); [heap_solve Hh|]. wp_steps. cbn [lnext].
    eapply (wp_lwr p _ _ ((q, LNode e (first (x :: ps2) NULL)) :: C)); [heap_solve Hh|].
    intros h2 Hh2. wp_steps.
    eapply (wp_lwr q _ _ ((p, LNode d (first (x :: ps2) NULL)) :: C)); [heap_solve Hh2|].
    intros h3 Hh3. unfold incr_num. wp_steps. apply (HQ _ p). destruct Hr as [R1 R2 R3 R4].
    constructor.
    + simpl. rewrite seg_app. heap_solve Hh3.
    + simpl. rewrite R2, !first_app. done.
    + simpl. rewrite R3, !lastp_app by done. by rewrite !lastp_cons.
    + simpl. rewrite R4, i32_add. f_equal. rewrite !length_app. simpl. lia.
Qed.

(** *** Pops *)

Lemma i32_pred n : i32 (i32 (Z.of_nat (S n)) - 1) = i32 (Z.of_nat n).
Proof. rewrite <-Z.add_opp_r, i32_add. f_equal. lia. Qed.

Lemma wp_lpop l ps (Q : option D → list_t D → mem → Prop) ms :
  lrep_at l ps →
  match ps with [] => Q None l ms | (_, d) :: ps' => ∀ l', lrep_at l' ps' → Q (Some d) l' ms end →
  wp list_lpop Q l ms.
Proof.
  intros Hr HQ. unfold list_lpop. wp_steps. rewrite (lr_head _ _ Hr), (first_null _ _ Hr).
  destruct ps as [|[p d] ps]; [by rewrite bool_decide_true|]. rewrite bool_decide_false by done.
  pose proof (lr_hp _ _ Hr) as Hh. simpl in Hh. rewrite (lr_tail _ _ Hr). destruct ps as [|x ps].
  - simpl. rewrite Z.eqb_refl. wp_steps. eapply wp_lrd; [exact Hh|]. wp_steps.
    eapply wp_lfree; [exact Hh|]. intros h Hh'. wp_steps. apply HQ. by constructor.
  - pose proof (lastp_ne l [] p d x ps Hr) as Hne. simpl in Hne.
    simpl. rewrite (proj2 (Z.eqb_neq _ _)) by (apply not_eq_sym; done). wp_steps.
    eapply wp_lrd; [exact Hh|]. unfold decr_num. wp_steps. cbn [ldata].
    eapply wp_lfree; [exact Hh|]. intros h Hh'. wp_steps. apply HQ. destruct Hr as [R1 R2 R3 R4].
    constructor; [exact Hh'|done|exact R3|cbn; rewrite R4; apply i32_pred].
Qed.

(** The walk to the node before the last. *)
Lemma wp_before_last ps2 : ∀ ps1 p d l fuel q e (Q : ptr → list_t D → mem → Prop) ms,
  lrep_at l (ps1 ++ (p, d) :: ps2 ++ [(q, e)]) → (length ps2 < fuel)%nat →
  (∀ ps0 p' d', ps1 ++ (p, d) :: ps2 = ps0 ++ [(p', d')] → Q p' l ms) →
  wp (loop fuel (λ prev,
      n ← lrd prev;
      if negb (lnext n =? q) then mret (inl (lnext n)) else mret (inr prev)) p) Q l ms.
Proof.
  induction ps2 as [|[p2 d2] ps2 IH]; intros ps1 p d l fuel q e Q ms Hr Hf HQ;
    (destruct fuel as [|fuel]; [simpl in Hf; lia|]); apply wp_loop_step; wp_steps;
    pose proof (lr_hp _ _ Hr) as Hh; rewrite seg_app in Hh; simpl in Hh.
  - eapply (wp_lrd p (LNode d q) (seg ps1 p ++ [(q, LNode e NULL)])); [heap_solve Hh|].
    cbn [lnext]. rewrite Z.eqb_refl. cbn [negb]. wp_steps. by apply (HQ ps1 p d).
  - eapply (wp_lrd p (LNode d p2) (seg ps1 p ++ seg ((p2, d2) :: ps2 ++ [(q, e)]) NULL)); [heap_solve Hh|].
    cbn [lnext]. assert (p2 ≠ q).
    { intros ->. pose proof (rep_nodup _ _ Hr) as Hn. rewrite fmap_app in Hn.
      apply NoDup_app in Hn as (_ & _ & Hn). simpl in Hn. apply NoDup_cons in Hn as [_ Hn].
      apply NoDup_cons in Hn as [Hn _]. apply Hn. rewrite fmap_app. set_solver. }
    rewrite (proj2 (Z.eqb_neq _ _)) by done. cbn [negb]. wp_steps.
    apply (IH (ps1 ++ [(p, d)]) p2 d2 l fuel q e).
    + rewrite <-app_assoc. exact Hr.
    + simpl in Hf. lia.
    + intros ps0 p' d' He. rewrite <-app_assoc in He. by apply (HQ ps0 p' d').
Qed.

Lemma wp_rpop l ps (Q : option D → list_t D → mem → Prop) ms :
  lrep_at l ps →
  (ps = [] → Q None l ms) →
  (∀ ps' p d l', ps = ps' ++ [(p, d)] → lrep_at l' ps' → Q (Some d) l' ms) →
  wp list_rpop Q l ms.
Proof.
  intros Hr HQ0 HQ. unfold list_rpop. wp_steps. rewrite (lr_head _ _ Hr), (first_null _ _ Hr).
  destruct ps as [|[q e] ps0 _] using rev_ind; [rewrite bool_decide_true by done; by apply HQ0|].
  rewrite bool_decide_false by (by destruct ps0).
  rewrite (lr_tail _ _ Hr), lastp_snoc. destruct ps0 as [|[p d] ps0].
  - simpl. rewrite Z.eqb_refl. wp_steps. pose proof (lr_hp _ _ Hr) as Hh. simpl in Hh.
    eapply wp_lrd; [exact Hh|]. wp_steps. eapply wp_lfree; [exact Hh|]. intros h Hh'. wp_steps.
    apply (HQ [] q e); [done|]. by constructor.
  - cbn [first app]. assert (p ≠ q).
    { intros ->. pose proof (rep_nodup _ _ Hr) as Hn. simpl in Hn. apply NoDup_cons in Hn as [Hn _].
      apply Hn. rewrite fmap_app. set_solver. }
    rewrite (proj2 (Z.eqb_neq _ _)) by done. wp_steps.
    eapply (wp_before_last ps0 [] p d l _ q e); [exact Hr| |].
    { rewrite (rep_fuel _ _ Hr). simpl. rewrite length_app. simpl. lia. }
    intros ps1 p' d' He. cbn [app] in He. wp_steps. pose proof (lr_hp _ _ Hr) as Hh.
    rewrite He in Hr, Hh. rewrite !seg_app in Hh. simpl in Hh.
    eapply (wp_lwr p' (LNode d' q) _ (seg ps1 p' ++ [(q, LNode e NULL)])); [heap_solve Hh|].
    intros h2 Hh2. unfold decr_num. wp_steps.
    eapply (wp_lrd q (LNode e NULL) ((p', LNode d' NULL) :: seg ps1 p')); [heap_solve Hh2|]. wp_steps.
    eapply (wp_lfree q (LNode e NULL) ((p', LNode d' NULL) :: seg ps1 p')); [heap_solve Hh2|].
    intros h3 Hh3. wp_steps. eapply (HQ (ps1 ++ [(p', d')]) q e); [by rewrite <-He|].
    destruct Hr as [R1 R2 R3 R4]. constructor; simpl.
    + rewrite seg_app. simpl. heap_solve Hh3.
    + rewrite R2, !first_app. done.
    + by rewrite lastp_snoc.
    + rewrite R4, length_app, Nat.add_1_r. apply i32_pred.
Qed.

(** *** Searches *)

Lemma wp_lrd_at l ps1 p d ps2 (Q : list_node_t D → list_t D → mem → Prop) ms :
  lrep_at l (ps1 ++ (p, d) :: ps2) → Q (LNode d (first ps2 NULL)) l ms → wp (lrd p) Q l ms.
Proof.
  intros Hr HQ. pose proof (lr_hp _ _ Hr) as Hh. rewrite seg_app in Hh. simpl in Hh.
  eapply (wp_lrd p _ (seg ps1 p ++ seg ps2 NULL)); [heap_solve Hh|done].
Qed.

Lemma rep_neq_null l ps1 p d ps2 : lrep_at l (ps1 ++ (p, d) :: ps2) → (p =? NULL) = false.
Proof.
  intros Hr. apply Z.eqb_neq. assert (NULL < p); [|lia]. eapply rep_pos; [exact Hr|].
  rewrite fmap_app. set_solver.
Qed.

Lemma rep_not_in l ps1 p d ps2 :
  lrep_at l (ps1 ++ (p, d) :: ps2) → p ∉ ps1.*1 ∧ p ∉ ps2.*1.
Proof.
  intros Hr. apply rep_nodup in Hr. rewrite fmap_app in Hr. apply NoDup_app in Hr as (_ & Hd & Hn).
  simpl in *. apply NoDup_cons in Hn as [Hn _]. split; [|done]. intros Hp. apply (Hd p Hp). left.
Qed.

(** The node [p] taken out of the chain behind [q], then released. *)
Lemma wp_unlink l ps0 q e p d ps2 (Q : unit → list_t D → mem → Prop) ms :
  hp (nodes l) (seg (ps0 ++ (q, e) :: (p, d) :: ps2) NULL) →
  (∀ h, hp h ((p, LNode d (first ps2 NULL)) :: seg (ps0 ++ (q, e) :: ps2) NULL) →
     Q tt (set_nodes h l) ms) →
  wp (lwr q (set_next (first ps2 NULL))) Q l ms.
Proof.
  intros Hh HQ. rewrite seg_app in Hh. simpl in Hh.
  eapply (wp_lwr q _ _ ((p, LNode d (first ps2 NULL)) :: seg ps0 q ++ seg ps2 NULL)); [heap_solve Hh|].
  intros h Hh'. apply HQ. rewrite seg_app. simpl. heap_solve Hh'.
Qed.

Lemma num_pred l ps1 x ps2 : lrep_at l (ps1 ++ x :: ps2) → i32 (lnum l - 1) = i32 (Z.of_nat (length (ps1 ++ ps2))).
Proof. intros Hr. rewrite (lr_num _ _ Hr), !length_app. simpl. rewrite Nat.add_succ_r. apply i32_pred. Qed.

Lemma wp_remove_loop `{EqDecision D} d0 ps2 : ∀ ps1 l fuel prev (Q : Z → list_t D → mem → Prop) ms,
  lrep_at l (ps1 ++ ps2) → (length ps2 < fuel)%nat → (ps1 ≠ [] → prev = lastp ps1) →
  (d0 ∉ ps2.*2 → Q (-1) l ms) →
  (∀ pa p pb l', ps2 = pa ++ (p, d0) :: pb → d0 ∉ pa.*2 → lrep_at l' (ps1 ++ pa ++ pb) → Q 0 l' ms) →
  wp (loop fuel (λ '(prev, curr),
    if curr =? NULL then mret (inr (-1)) else
    n ← lrd curr;
    if decide (ldata n = d0) then
      if lhead l =? curr then
        if lhead l =? ltail l then
          modify (set_head NULL);; modify (set_tail NULL);; modify (set_num 0);;
          on_nodes (hfree curr);; mret (inr 0)
        else
          modify (set_head (lnext n));; decr_num;;
          on_nodes (hfree curr);; mret (inr 0)
      else if curr =? ltail l then
        lwr prev (set_next (lnext n));; modify (set_tail prev);; decr_num;;
        on_nodes (hfree curr);; mret (inr 0)
      else
        lwr prev (set_next (lnext n));; decr_num;;
        on_nodes (hfree curr);; mret (inr 0)
    else mret (inl (curr, lnext n))) (prev, first ps2 NULL)) Q l ms.
Proof.
  induction ps2 as [|[p d] ps2 IH]; intros ps1 l fuel prev Q ms Hr Hf Hprev HQ1 HQ2;
    (destruct fuel as [|fuel]; [simpl in Hf; lia|]); apply wp_loop_step; cbn [first].
  { wp_steps. apply HQ1. by apply not_elem_of_nil. }
  rewrite (rep_neq_null _ _ _ _ _ Hr). wp_steps. eapply wp_lrd_at; [exact Hr|]. cbn [ldata lnext].
  pose proof (rep_not_in _ _ _ _ _ Hr) as [Hp1 Hp2].
  case_decide as Hd.
  2: { wp_steps. apply (IH (ps1 ++ [(p, d)])); [by rewrite <-app_assoc|simpl in Hf; lia| | |].
       - intros _. by rewrite lastp_snoc.
       - intros Hni. apply HQ1. simpl. by apply not_elem_of_cons.
       - intros pa p' pb l' -> Hni Hr'. rewrite <-app_assoc in Hr'. apply (HQ2 ((p, d) :: pa) p' pb l'); [done| |done].
         simpl. by apply not_elem_of_cons. }
  subst d. pose proof (lr_head _ _ Hr) as Hhd. pose proof (lr_tail _ _ Hr) as Htl.
  specialize (HQ2 [] p ps2). cbn [app] in HQ2.
  assert (HQ3 : ∀ l', lrep_at l' (ps1 ++ ps2) → Q 0 l' ms) by (intros; apply HQ2; [done|by apply not_elem_of_nil|done]).
  clear HQ1 HQ2 IH. pose proof (lr_hp _ _ Hr) as Hh. rewrite Hhd, Htl, first_app. cbn [first].
  destruct ps1 as [|[q0 e0] ps0 _] using rev_ind.
  - cbn [first app] in *. rewrite Z.eqb_refl. simpl in Hh. destruct ps2 as [|x ps2].
    + simpl. rewrite Z.eqb_refl. wp_steps. eapply wp_lfree; [exact Hh|]. intros h Hh'. wp_steps.
      apply HQ3. by constructor.
    + pose proof (lastp_ne l [] p d0 x ps2 Hr) as Hne. cbn [app] in Hne.
      rewrite (proj2 (Z.eqb_neq p _)) by (apply not_eq_sym; done). unfold decr_num. wp_steps.
      eapply wp_lfree; [exact Hh|]. intros h Hh'. wp_steps. apply HQ3.
      constructor; [exact Hh'|done|cbn; by rewrite Htl|]. exact (num_pred l [] (p, d0) (x :: ps2) Hr).
  - rewrite Hprev by (by destruct ps0). rewrite lastp_snoc.
    assert (Hne : first (ps0 ++ [(q0, e0)]) p ≠ p).
    { intros He. apply Hp1. destruct ps0 as [|[a b] ps0]; simpl in He; subst; rewrite ?fmap_app; set_solver. }
    rewrite (proj2 (Z.eqb_neq _ p)) by done. rewrite <-app_assoc in Hr. cbn [app] in Hr. destruct ps2 as [|x ps2].
    + rewrite lastp_snoc, Z.eqb_refl. wp_steps. eapply wp_unlink; [exact (lr_hp _ _ Hr)|]. intros h Hh2. unfold decr_num.
      wp_steps. eapply wp_lfree; [exact Hh2|]. intros h' Hh3. wp_steps. apply HQ3. rewrite app_nil_r.
      constructor; [exact Hh3|cbn; by rewrite Hhd, !first_app|cbn; by rewrite lastp_snoc|cbn].
      rewrite (lr_num _ _ Hr), !length_app. simpl. rewrite !Nat.add_succ_r. apply i32_pred.
    + pose proof (lastp_ne l (ps0 ++ [(q0, e0)]) p d0 x ps2) as Hne2.
      rewrite <-app_assoc in Hne2. specialize (Hne2 Hr). rewrite app_assoc in Hne2. cbn [app] in Hne2.
      rewrite (proj2 (Z.eqb_neq p _)) by (rewrite <-app_assoc in Hne2; cbn [app] in Hne2; rewrite <-app_assoc; by apply not_eq_sym).
      wp_steps. eapply wp_unlink; [exact (lr_hp _ _ Hr)|]. intros h Hh2. unfold decr_num.
      wp_steps. eapply wp_lfree; [exact Hh2|]. intros h' Hh3. wp_steps. apply HQ3. rewrite <-app_assoc.
      constructor; [exact Hh3|cbn; by rewrite Hhd, !first_app| |cbn].
      * cbn. rewrite Htl, <-app_assoc, !lastp_app by done. by rewrite !lastp_cons.
      * rewrite (lr_num _ _ Hr), !length_app. simpl. rewrite !Nat.add_succ_r. apply i32_pred.
Qed.

Lemma wp_remove `{EqDecision D} d0 l ps (Q : Z → list_t D → mem → Prop) ms :
  lrep_at l ps →
  (d0 ∉ ps.*2 → Q (-1) l ms) →
  (∀ pa p pb l', ps = pa ++ (p, d0) :: pb → d0 ∉ pa.*2 → lrep_at l' (pa ++ pb) → Q 0 l' ms) →
  wp (list_remove d0) Q l ms.
Proof.
  intros Hr HQ1 HQ2. unfold list_remove. wp_steps. pose proof (lr_head _ _ Hr) as Hhd.
  pose proof (wp_remove_loop d0 ps [] l (list_fuel l) (lhead l) Q ms Hr) as HL. rewrite <-Hhd in HL.
  apply HL; [rewrite (rep_fuel _ _ Hr); lia|done|done|done].
Qed.

Lemma wp_find cb l ps ms :
  lrep_at l ps →
  wp (list_find cb) (λ r l' ms', l' = l ∧ ms' = ms ∧ r = first_match cb ps.*2) l ms.
Proof.
  intros Hr. unfold list_find. wp_steps.
  assert (Hgen : ∀ ps2 ps1 fuel, lrep_at l (ps1 ++ ps2) → (length ps2 < fuel)%nat →
    wp (loop fuel (λ node,
      if node =? NULL then mret (inr None) else
      n ← lrd node;
      if cb (ldata n) then mret (inr (Some (ldata n))) else mret (inl (lnext n))) (first ps2 NULL))
      (λ r l' ms', l' = l ∧ ms' = ms ∧ r = first_match cb ps2.*2) l ms).
  { clear Hr. induction ps2 as [|[p d] ps2 IH]; intros ps1 fuel Hr Hf;
      (destruct fuel as [|fuel]; [simpl in Hf; lia|]); apply wp_loop_step; cbn [first].
    - by wp_steps.
    - rewrite (rep_neq_null _ _ _ _ _ Hr). wp_steps. eapply wp_lrd_at; [exact Hr|]. cbn [ldata lnext].
      csimpl. destruct (cb d); wp_steps; [done|].
      apply (IH (ps1 ++ [(p, d)])); [by rewrite <-app_assoc|simpl in Hf; lia]. }
  rewrite (lr_head _ _ Hr). apply (Hgen ps []); [done|]. rewrite (rep_fuel _ _ Hr). lia.
Qed.

Lemma wp_fetch idx l ps ms :
  lrep_at l ps → Z.of_nat (length ps) < 2 ^ 31 → 0 ≤ idx →
  wp (list_fetch idx) (λ r l' ms', l' = l ∧ ms' = ms ∧ r = ps.*2 !! Z.to_nat idx) l ms.
Proof.
  intros Hr Hlen Hidx. unfold list_fetch. wp_steps. rewrite (lr_num _ _ Hr), i32_small by lia.
  destruct (Z.leb_spec (Z.of_nat (length ps)) idx) as [Hle|Hlt].
  { wp_steps. split_and!; [done|done|]. symmetry. apply lookup_ge_None_2. rewrite length_fmap. lia. }
  wp_steps. rewrite (lr_head _ _ Hr).
  assert (Hgen : ∀ ps2 ps1 i fuel (Q : ptr → list_t D → mem → Prop),
    lrep_at l (ps1 ++ ps2) → i = Z.of_nat (length ps1) →
    i ≤ idx < i + Z.of_nat (length ps2) → idx - i < Z.of_nat fuel →
    (∀ pa p d pb, ps1 ++ ps2 = pa ++ (p, d) :: pb → length pa = Z.to_nat idx → Q p l ms) →
    wp (loop fuel (λ '(i, node),
      if i <? idx then n ← lrd node; mret (inl (i + 1, lnext n)) else mret (inr node))
      (i, first ps2 NULL)) Q l ms).
  { clear. induction ps2 as [|[p d] ps2 IH]; intros ps1 i fuel Q Hr Hi Hidx Hf HQ; [simpl in *; lia|].
    destruct fuel as [|fuel]; [lia|]. apply wp_loop_step. cbn [first].
    destruct (Z.ltb_spec i idx).
    - wp_steps. eapply wp_lrd_at; [exact Hr|]. wp_steps. cbn [lnext].
      apply (IH (ps1 ++ [(p, d)])); [by rewrite <-app_assoc|rewrite length_app; simpl; lia|simpl in *; lia|lia|].
      intros pa p' d' pb. rewrite <-app_assoc. apply HQ.
    - wp_steps. apply (HQ ps1 p d ps2); [done|lia]. }
  apply (Hgen ps [] 0); [done|done|simpl; lia|lia|].
  intros pa p d pb He Hpa. cbn [app] in He. wp_steps. rewrite He in Hr. eapply wp_lrd_at; [exact Hr|]. wp_steps.
  split_and!; [done|done|]. rewrite He, fmap_app. symmetry. cbn [ldata].
  apply list_lookup_middle. by rewrite length_fmap.
Qed.

(** *** Sorted insertion *)

Definition before (cmp : D → D → Z) (d x : D) : bool := 0 <=? cmp d x.

(** [d] is put in front of the first element it is not smaller than. *)
Fixpoint sort_insert (cmp : D → D → Z) (d : D) (xs : list D) : list D :=
  match xs with
  | [] => [d]
  | x :: xs' => if before cmp d x then d :: xs else x :: sort_insert cmp d xs'
  end.

Lemma wp_sort cmp d l ps (Q : Z → list_t D → mem → Prop) ms :
  lrep_at l ps →
  (if decide (hd_error ms = Some false) then Q (-1) l (tl ms)
   else ∀ l' ps', lrep_at l' ps' → ps'.*2 = sort_insert cmp d ps.*2 → Q 0 l' (tl ms)) →
  wp (list_sort cmp d) Q l ms.
Proof.
  intros Hr HQ. unfold list_sort. wp_steps. rewrite (lr_head _ _ Hr), (first_null _ _ Hr).
  destruct (decide (ps = [])) as [->|Hne].
  { rewrite bool_decide_true by done. eapply wp_lpush; [exact Hr|]. case_decide; [done|].
    intros l' p Hr'. by apply (HQ l' [(p, d)]). }
  rewrite bool_decide_false by done.
  assert (Hins : ∀ ps1 ps2, ps = ps1 ++ ps2 →
    sort_insert cmp d ps.*2 = ps1.*2 ++ d :: ps2.*2 →
    wp (list_insert (lastp ps1) d) (λ r, Q r) l ms).
  { intros ps1 ps2 -> Hs. destruct ps1 as [|[q e] ps1 _] using rev_ind.
    - unfold list_insert. wp_steps. change (lastp []) with NULL. rewrite Z.eqb_refl.
      eapply wp_lpush; [exact Hr|]. case_decide; [done|]. intros l' p Hr'. by apply (HQ l' ((p, d) :: ps2)).
    - rewrite lastp_snoc. rewrite <-app_assoc in Hr. cbn [app] in Hr. eapply wp_insert_after; [exact Hr|].
      case_decide; [done|]. intros l' p Hr'. apply (HQ l' (ps1 ++ (q, e) :: (p, d) :: ps2)); [done|].
      rewrite Hs, !fmap_app, <-app_assoc. done. }
  assert (Hgen : ∀ ps2 ps1 fuel, ps = ps1 ++ ps2 → (length ps2 < fuel)%nat →
    sort_insert cmp d ps.*2 = ps1.*2 ++ sort_insert cmp d ps2.*2 →
    wp (loop fuel (λ '(prev, curr),
      if curr =? NULL then r ← list_insert prev d; mret (inr r) else
      n ← lrd curr;
      let ret := cmp d (ldata n) in
      if (ret =? 0) || (0 <? ret) then r ← list_insert prev d; mret (inr r)
      else mret (inl (curr, lnext n))) (lastp ps1, first ps2 NULL)) Q l ms).
  { induction ps2 as [|[p x] ps2 IH]; intros ps1 fuel He Hf Hs;
      (destruct fuel as [|fuel]; [simpl in Hf; lia|]); apply wp_loop_step; cbn [first].
    - change (NULL =? NULL) with true. cbn beta iota. wp_steps. eapply wp_mono; [by apply (Hins ps1 [])|].
      intros r l' ms' HQr. by wp_steps.
    - rewrite He in Hr. rewrite (rep_neq_null _ _ _ _ _ Hr). wp_steps. eapply wp_lrd_at; [exact Hr|].
      cbn [ldata lnext]. cbv zeta.
      assert (((cmp d x =? 0) || (0 <? cmp d x)) = before cmp d x) as ->.
      { unfold before. destruct (Z.eqb_spec (cmp d x) 0), (Z.ltb_spec 0 (cmp d x)), (Z.leb_spec 0 (cmp d x)); done || lia. }
      csimpl in Hs. simpl in Hs. destruct (before cmp d x) eqn:Hb; wp_steps.
      + eapply wp_mono; [by apply (Hins ps1 ((p, x) :: ps2))|]. intros r l' ms' HQr. by wp_steps.
      + pose proof (IH (ps1 ++ [(p, x)]) fuel) as IH'. rewrite lastp_snoc in IH'. apply IH'.
        * by rewrite <-app_assoc.
        * simpl in Hf. lia.
        * rewrite Hs, fmap_app, <-app_assoc. done. }
  apply (Hgen ps []); [done| |done]. rewrite (rep_fuel _ _ Hr). lia.
Qed.

(** *** [list_find_and_del]: right unless the node taken out is the last *)

Lemma wp_find_and_del cb l ps (Q : option D → list_t D → mem → Prop) ms :
  lrep_at l ps → Z.of_nat (length ps) < 2 ^ 31 →
  (Forall (λ d, cb d = false) ps.*2 → Q None l ms) →
  (∀ pa p d pb, ps = pa ++ (p, d) :: pb → Forall (λ d, cb d = false) pa.*2 → cb d = true →
     pb ≠ [] ∧ ∀ l', lrep_at l' (pa ++ pb) → Q (Some d) l' ms) →
  wp (list_find_and_del cb) Q l ms.
Proof.
  intros Hr Hlen HQ0 HQ. unfold list_find_and_del. wp_steps.
  assert (Hgen : ∀ ps2 ps1 fuel, ps = ps1 ++ ps2 → Forall (λ d, cb d = false) ps1.*2 → (length ps2 < fuel)%nat →
    wp (loop fuel (λ '(prev, node),
      if node =? NULL then mret (inr None) else
      n ← lrd node;
      if cb (ldata n) then
        decr_num;;
        l ← get;
        (if lnum l =? 0 then modify (set_head NULL)
         else
           (if negb (prev =? NULL) then lwr prev (set_next (lnext n)) else mret tt);;
           (if node =? lhead l then modify (set_head (lnext n)) else mret tt));;
        on_nodes (hfree node);;
        mret (inr (Some (ldata n)))
      else mret (inl (node, lnext n))) (lastp ps1, first ps2 NULL)) Q l ms).
  { induction ps2 as [|[p d] ps2 IH]; intros ps1 fuel He Hno Hf;
      (destruct fuel as [|fuel]; [simpl in Hf; lia|]); apply wp_loop_step; cbn [first].
    { change (NULL =? NULL) with true. cbn beta iota. wp_steps. apply HQ0. rewrite He, app_nil_r. done. }
    rewrite He in Hr, Hlen. rewrite (rep_neq_null _ _ _ _ _ Hr). wp_steps. eapply wp_lrd_at; [exact Hr|]. cbn [ldata lnext].
    destruct (cb d) eqn:Hcb.
    2: { wp_steps. pose proof (IH (ps1 ++ [(p, d)]) fuel) as IH'. rewrite lastp_snoc in IH'. apply IH'.
         - by rewrite <-app_assoc.
         - rewrite fmap_app. apply Forall_app. split; [done|]. by constructor.
         - simpl in Hf. lia. }
    destruct (HQ ps1 p d ps2 He Hno Hcb) as [Hne HQ']. clear HQ HQ0 IH. unfold decr_num. wp_steps.
    cbn [lnum lhead set_num]. pose proof (num_pred _ _ _ _ Hr) as Hnum. rewrite Hnum.
    assert (Hlen2 : (0 < length (ps1 ++ ps2))%nat) by (rewrite length_app; destruct ps2; [done|]; simpl; lia).
    rewrite length_app in Hlen. simpl in Hlen.
    rewrite i32_small by (rewrite length_app in *; lia). rewrite (proj2 (Z.eqb_neq _ _)) by lia.
    destruct ps1 as [|[q e] ps1 _] using rev_ind.
    - change (lastp [] =? NULL) with true. cbn [negb]. wp_steps. rewrite (lr_head _ _ Hr). cbn [first app].
      rewrite Z.eqb_refl. wp_steps. pose proof (lr_hp _ _ Hr) as Hh. simpl in Hh.
      eapply wp_lfree; [exact Hh|]. intros h Hh'. wp_steps. apply HQ'. constructor; [exact Hh'|done| |].
      + cbn. rewrite (lr_tail _ _ Hr). destruct ps2; done.
      + symmetry. apply i32_small. cbn in *. lia.
    - rewrite lastp_snoc. rewrite <-app_assoc in Hr. cbn [app] in Hr.
      rewrite (rep_neq_null _ _ _ _ _ Hr). cbn [negb]. wp_steps.
      eapply wp_unlink; [exact (lr_hp _ _ Hr)|]. intros h Hh. wp_steps.
      assert ((p =? lhead l) = false) as Hpl.
      { apply Z.eqb_neq. rewrite (lr_head _ _ Hr), first_app. cbn [first]. intros Heq.
        destruct (rep_not_in l (ps1 ++ [(q, e)]) p d ps2) as [Hni _]; [by rewrite <-app_assoc|].
        apply Hni. rewrite Heq, fmap_app. destruct ps1 as [|[a b] ps1]; cbn; set_solver. }
      rewrite Hpl. wp_steps. eapply wp_lfree; [exact Hh|]. intros h' Hh'. wp_steps. apply HQ'.
      rewrite <-app_assoc. cbn [app]. constructor.
      + exact Hh'.
      + cbn. rewrite (lr_head _ _ Hr), !first_app. done.
      + cbn. rewrite (lr_tail _ _ Hr), !lastp_app by done. by destruct ps2.
      + symmetry. rewrite i32_small; [done|]. rewrite !length_app in *. simpl in *. lia. }
  rewrite (lr_head _ _ Hr). apply (Hgen ps []); [done|constructor|]. rewrite (rep_fuel _ _ Hr). lia.
Qed.
End Rep.

Section TravRep.
Context {D Σ : Type}.
Implicit Types (ps : list (ptr * D)) (l : list_t D).

(** [proc] on the elements in order, until one refuses. *)
Fixpoint trav_until (proc : D → SM Σ Z) (xs : list D) : SM Σ Z :=
  match xs with
  | [] => mret 0
  | x :: xs' => ret ← proc x; if negb (ret =? 0) then mret (-1) else trav_until proc xs'
  end.

Lemma cell_at l ps1 p d ps2 :
  lrep_at l (ps1 ++ (p, d) :: ps2) → cell (nodes l) !! p = Some (LNode d (first ps2 NULL)).
Proof.
  intros Hr. apply (hp_get _ _ (lr_hp _ _ Hr)). rewrite seg_app. simpl. apply elem_of_app. right. left.
Qed.

Lemma list_trav_spec l ps (proc : D → SM Σ Z) s ms :
  lrep_at l ps → list_trav l proc s ms = trav_until proc ps.*2 s ms.
Proof.
  intros Hr. unfold list_trav. rewrite (rep_fuel _ _ Hr), (lr_head _ _ Hr).
  assert (Hgen : ∀ ps2 ps1 s ms, lrep_at l (ps1 ++ ps2) →
    loop (S (length ps2)) (λ node,
      if node =? NULL then mret (inr 0) else
      n ← deref (cell (nodes l) !! node);
      ret ← proc (ldata n);
      if negb (ret =? 0) then mret (inr (-1)) else mret (inl (lnext n))) (first ps2 NULL) s ms
    = trav_until proc ps2.*2 s ms); [|by apply (Hgen ps [])].
  clear Hr s ms. induction ps2 as [|[p d] ps2 IH]; intros ps1 s ms Hr; [done|].
  cbn [length]. rewrite loop_S. cbn [first]. rewrite (rep_neq_null _ _ _ _ _ Hr), (cell_at _ _ _ _ _ Hr).
  csimpl. simpl trav_until. unfold deref, mbind, SM_bind, mret, SM_ret. cbn beta iota. cbn [ldata lnext].
  destruct (proc d s ms) as [[[r s'] ms']| | |]; [|done..].
  destruct (r =? 0); cbn beta iota; [|done]. apply (IH (ps1 ++ [(p, d)])). by rewrite <-app_assoc.
Qed.

Lemma wp_list_destroy (dealloc : D → SM Σ unit) (Q : unit → Σ → mem → Prop) l ps u ms :
  lrep_at l ps → wp (for_each dealloc ps.*2) Q u ms →
  wp (list_destroy dealloc) (λ _ s ms', Q tt s.2 ms' ∧ cell (nodes s.1) = ∅) (l, u) ms.
Proof.
  intros Hr HQ. unfold list_destroy. wp_steps. cbn [fst]. rewrite (rep_fuel _ _ Hr), (lr_head _ _ Hr).
  pose proof (lr_hp _ _ Hr) as Hh. clear Hr. revert l u ms Hh HQ.
  induction ps as [|[p d] ps IH]; intros l u ms Hh HQ; apply wp_loop_step; cbn [first].
  { change (NULL =? NULL) with true. cbn beta iota. wp_steps. split; [done|]. by apply hp_nil. }
  simpl in Hh. assert (NULL < p) by (destruct (hp_pos _ _ p Hh); [left|done]).
  rewrite (proj2 (Z.eqb_neq p NULL)) by lia. wp_steps. apply wp_zoom. eapply wp_lrd; [exact Hh|]. wp_steps.
  apply wp_zoom. csimpl in HQ. simpl in HQ. apply wp_bind_inv in HQ. eapply wp_mono; [exact HQ|].
  intros [] u' ms' HQ'. wp_steps. apply wp_zoom. eapply wp_lfree; [exact Hh|]. intros h Hh'. wp_steps.
  by apply IH.
Qed.
End TravRep.

Section Sorted.
Context {D K : Type} (key : D → K) (dom : D → Prop) (cmp : D → D → Z).
Context (anti : ∀ x y, dom x → dom y → cmp x y < 0 → 0 <= cmp y x).
Context (trans : ∀ x y z, dom x → dom y → dom z → 0 <= cmp x y → 0 <= cmp y z → 0 <= cmp x z).

(** Descending: no element is smaller than one behind it. *)
Definition descending : list D → Prop := StronglySorted (λ x y, 0 <= cmp x y).

Lemma sort_insert_perm d xs : sort_insert cmp d xs ≡ₚ d :: xs.
Proof.
  induction xs as [|x xs IH]; simpl; [done|]. destruct (before cmp d x); [done|].
  rewrite IH. apply perm_swap.
Qed.

Lemma sort_insert_descending d xs :
  dom d → Forall dom xs → descending xs → descending (sort_insert cmp d xs).
Proof.
  unfold descending. intros Hd Hdom Hs. induction Hs as [|x xs Hs IH Hx]; simpl.
  { by repeat constructor. }
  apply Forall_cons in Hdom as [Hdx Hdom]. unfold before. destruct (Z.leb_spec 0 (cmp d x)).
  - constructor; [by constructor|]. constructor; [done|]. rewrite Forall_forall in Hx, Hdom |- *.
    intros y Hy. apply (trans d x y); auto.
  - constructor; [by apply IH|]. rewrite sort_insert_perm. constructor; [|done]. by apply anti.
Qed.
End Sorted.
