(* ===== verification/ListProps.v ===== *)
(** What [lib/core/list.c] promises: the linked list is the list of its data. *)
From S2P Require Import Prelude Heap List.
Open Scope Z_scope.

(** ** Calls on a list of numbers *)

Inductive list_call :=
  | LLpush (d : Z) | LRpush (d : Z) | LSort (d : Z)
  | LLpop | LRpop | LRemove (d : Z) | LFetch (idx : Z) | LFind (d : Z).

(** The code of an insertion or of a removal, or the datum found. *)
Definition run_list_call (k : list_call) : SM (list_t Z) (Z + option Z) :=
  match k with
  | LLpush d => r ← list_lpush d; mret (inl r)
  | LRpush d => r ← list_rpush d; mret (inl r)
  | LSort d => r ← list_sort Z.sub d; mret (inl r)
  | LLpop => r ← list_lpop; mret (inr r)
  | LRpop => r ← list_rpop; mret (inr r)
  | LRemove d => r ← list_remove d; mret (inl r)
  | LFetch i => r ← list_fetch i; mret (inr r)
  | LFind d => r ← list_find (λ x, x =? d); mret (inr r)
  end.

Fixpoint run_list_calls (ks : list list_call) : SM (list_t Z) (list (Z + option Z)) :=
  match ks with
  | [] => mret []
  | k :: ks' => r ← run_list_call k; rs ← run_list_calls ks'; mret (r :: rs)
  end.

Fixpoint remove_first (d : Z) (xs : list Z) : list Z :=
  match xs with [] => [] | x :: xs' => if decide (x = d) then xs' else x :: remove_first d xs' end.

Definition abs_list_call (k : list_call) (xs : list Z) : (Z + option Z) * list Z :=
  match k with
  | LLpush d => (inl 0, d :: xs)
  | LRpush d => (inl 0, xs ++ [d])
  | LSort d => (inl 0, sort_insert Z.sub d xs)
  | LLpop => (inr (head xs), tail xs)
  | LRpop => (inr (last xs), removelast xs)
  | LRemove d => (inl (if decide (d ∈ xs) then 0 else -1), remove_first d xs)
  | LFetch i => (inr (xs !! Z.to_nat i), xs)
  | LFind d => (inr (if decide (d ∈ xs) then Some d else None), xs)
  end.

Fixpoint abs_list_calls (ks : list list_call) (xs : list Z) : list (Z + option Z) * list Z :=
  match ks with
  | [] => ([], xs)
  | k :: ks' => let s := abs_list_calls ks' (abs_list_call k xs).2 in ((abs_list_call k xs).1 :: s.1, s.2)
  end.

(** The fetches are by indices that are not negative. *)
Definition list_call_ok (k : list_call) : Prop := match k with LFetch i => 0 ≤ i | _ => True end.

Lemma remove_first_notin d xs : d ∉ xs → remove_first d xs = xs.
Proof.
  induction xs as [|x xs IH]; simpl; intros Hd; [done|]. apply not_elem_of_cons in Hd as [Hne Hd].
  rewrite decide_False by congruence. by rewrite IH.
Qed.

Lemma remove_first_app d xs ys : d ∉ xs → remove_first d (xs ++ d :: ys) = xs ++ ys.
Proof.
  induction xs as [|x xs IH]; simpl; intros Hd; [by rewrite decide_True|].
  apply not_elem_of_cons in Hd as [Hne Hd]. rewrite decide_False by congruence. by rewrite IH.
Qed.

Lemma first_match_eq d xs : first_match (λ x, x =? d) xs = if decide (d ∈ xs) then Some d else None.
Proof.
  induction xs as [|x xs IH]; simpl; [done|]. destruct (Z.eqb_spec x d) as [->|Hne].
  - by rewrite decide_True by set_solver.
  - rewrite IH. apply decide_ext. set_solver.
Qed.

Lemma length_call k xs : (length (abs_list_call k xs).2 ≤ S (length xs))%nat.
Proof.
  destruct k; cbn [abs_list_call snd]; try (simpl; lia).
  - rewrite length_app. simpl. lia.
  - rewrite (sort_insert_perm Z.sub). simpl. lia.
  - destruct xs; simpl; lia.
  - destruct xs as [|x xs _] using rev_ind; [simpl; lia|]. rewrite removelast_last, length_app. simpl. lia.
  - induction xs as [|x xs IH]; simpl in *; [lia|]. case_decide; simpl; lia.
Qed.

Lemma wp_list_call k l xs :
  lrep l xs → list_call_ok k → Z.of_nat (length xs) < 2 ^ 31 →
  wp (run_list_call k) (λ r l' ms', ms' = [] ∧ r = (abs_list_call k xs).1 ∧ lrep l' (abs_list_call k xs).2) l [].
Proof.
  intros (ps & Hr & <-) Hk Hlen. rewrite length_fmap in Hlen.
  destruct k; cbn [run_list_call abs_list_call fst snd]; apply wp_bind.
  - eapply wp_lpush; [exact Hr|]. simpl. intros l' p Hl'. wp_step. split_and!; [done..|]. by exists ((p, d) :: ps).
  - eapply wp_rpush; [exact Hr|]. simpl. intros l' p Hl'. wp_step. split_and!; [done..|]. exists (ps ++ [(p, d)]).
    split; [done|]. by rewrite fmap_app.
  - eapply wp_sort; [exact Hr|]. simpl. intros l' ps' Hl' Hps. wp_step. split_and!; [done..|]. by exists ps'.
  - eapply wp_lpop; [exact Hr|]. destruct ps as [|[p d] ps]; csimpl.
    + wp_step. split_and!; [done..|]. by exists [].
    + intros l' Hl'. wp_step. split_and!; [done..|]. by exists ps.
  - eapply wp_rpop; [exact Hr| |].
    + intros ->. wp_step. split_and!; [done..|]. by exists [].
    + intros ps' p d l' -> Hl'. wp_step. rewrite fmap_app. csimpl. rewrite last_snoc, removelast_last.
      split_and!; [done..|]. by exists ps'.
  - eapply wp_remove; [exact Hr| |].
    + intros Hd. wp_step. rewrite decide_False, remove_first_notin by done. split_and!; [done..|]. by exists ps.
    + intros pa p pb l' -> Hd Hl'. wp_step. rewrite fmap_app. csimpl. rewrite decide_True by set_solver.
      rewrite remove_first_app by done. split_and!; [done..|]. exists (pa ++ pb). by rewrite fmap_app.
  - eapply wp_mono; [by apply (wp_fetch idx l ps)|]. intros r l' ms' (-> & -> & ->). wp_step.
    split_and!; [done..|]. by exists ps.
  - eapply wp_mono; [by apply (wp_find _ l ps)|]. intros r l' ms' (-> & -> & ->). wp_step.
    split_and!; [done|by rewrite first_match_eq|]. by exists ps.
Qed.

Lemma wp_list_calls ks : ∀ l xs,
  lrep l xs → Forall list_call_ok ks → Z.of_nat (length xs + length ks) < 2 ^ 31 →
  wp (run_list_calls ks) (λ rs l' ms', ms' = [] ∧ rs = (abs_list_calls ks xs).1 ∧
    lrep l' (abs_list_calls ks xs).2) l [].
Proof.
  induction ks as [|k ks IH]; intros l xs Hr Hks Hlen; cbn [run_list_calls abs_list_calls]; [by wp_step|].
  apply Forall_cons in Hks as [Hk Hks]. simpl in Hlen. wp_step.
  eapply wp_mono; [apply wp_list_call; [done|done|lia]|]. intros r l1 ms1 (-> & -> & Hr1). wp_step.
  eapply wp_mono; [apply (IH l1 (abs_list_call k xs).2); [done|done|pose proof (length_call k xs); lia]|].
  intros rs l2 ms2 (-> & -> & Hr2). wp_step. by split_and!.
Qed.

(** [list_creat], then the calls. *)
Definition list_run (ks : list list_call) : SM unit (option (list (Z + option Z) * list_t Z)) := λ s ms,
  match list_creat (D := Z) s ms with
  | Ok (Some l, s', ms') =>
      match run_list_calls ks l ms' with
      | Ok (rs, l', ms'') => Ok (Some (rs, l'), s', ms'')
      | Blocked => Blocked
      | Crash => Crash
      | NoFuel => NoFuel
      end
  | Ok (None, s', ms') => Ok (None, s', ms')
  | Blocked => Blocked
  | Crash => Crash
  | NoFuel => NoFuel
  end.

(** C29: from [list_creat] on, sequences of less than 2^31 pushes and pops at both
    ends, insertions in order, removals, fetches and searches answer as the same
    operations on a list of values do, and never touch a freed node. *)
Theorem list_refines ks :
  Forall list_call_ok ks → Z.of_nat (length ks) < 2 ^ 31 →
  wp (list_run ks) (λ r _ ms', ms' = [] ∧ ∃ l,
    r = Some ((abs_list_calls ks []).1, l) ∧ lrep l (abs_list_calls ks []).2) tt [].
Proof.
  intros Hks Hlen. unfold wp, list_run.
  change (list_creat tt []) with (Ok (Some (MkList 0 NULL NULL empty_heap : list_t Z), tt, [] : mem)). cbv beta iota zeta.
  assert (Hr : lrep (MkList 0 NULL NULL empty_heap) ([] : list Z)).
  { exists []. split; [|done]. constructor; simpl; try done. apply hp_empty. }
  destruct (wp_elim _ _ _ _ (wp_list_calls ks _ [] Hr Hks Hlen)) as (rs & l' & ms' & -> & -> & -> & Hr').
  split; [done|]. by exists l'.
Qed.

(** an insertion with [list_sort] into a list in descending order keeps the
    order and adds the datum, or changes nothing when the allocation fails. *)
Theorem list_sort_spec {D} (cmp : D → D → Z) (dom : D → Prop) d l xs ms :
  (∀ x y, dom x → dom y → cmp x y < 0 → 0 <= cmp y x) →
  (∀ x y z, dom x → dom y → dom z → 0 <= cmp x y → 0 <= cmp y z → 0 <= cmp x z) →
  lrep l xs → descending cmp xs → dom d → Forall dom xs →
  wp (list_sort cmp d) (λ r l' ms', ms' = tail ms ∧
    if decide (head ms = Some false) then r = -1 ∧ lrep l' xs
    else r = 0 ∧ ∃ ys, lrep l' ys ∧ descending cmp ys ∧ ys ≡ₚ d :: xs) l ms.
Proof.
  intros Hanti Htrans (ps & Hr & <-) Hdesc Hd Hdom. eapply wp_sort; [exact Hr|].
  change (hd_error ms) with (head ms). case_decide.
  - split_and!; [done..|]. by exists ps.
  - intros l' ps' Hl' Hps. split_and!; [done..|]. exists ps'.*2. split_and!.
    + by exists ps'.
    + rewrite Hps. by eapply sort_insert_descending.
    + rewrite Hps. apply sort_insert_perm.
Qed.

(** [list_find_and_del] takes out the first datum that is accepted, provided it
    is not the last one of the list. *)
Theorem list_find_and_del_spec {D} (cb : D → bool) l (xs : list D) ms :
  lrep l xs → Z.of_nat (length xs) < 2 ^ 31 →
  (∀ pa d, xs = pa ++ [d] → Forall (λ x, cb x = false) pa → cb d = false) →
  wp (list_find_and_del cb) (λ r l' ms', ms' = ms ∧ r = first_match cb xs ∧ ∃ ys, lrep l' ys ∧
    match r with
    | None => ys = xs
    | Some d => ∃ pa pb, xs = pa ++ d :: pb ∧ ys = pa ++ pb ∧ cb d = true
    end) l ms.
Proof.
  intros (ps & Hr & <-) Hlen Hlast. rewrite length_fmap in Hlen.
  assert (Hnone : ∀ xs, Forall (λ d, cb d = false) xs → first_match cb xs = None).
  { induction 1 as [|x xs Hx _ IH]; simpl; [done|]. by rewrite Hx. }
  assert (Hsome : ∀ pa d pb, Forall (λ d, cb d = false) pa → cb d = true → first_match cb (pa ++ d :: pb) = Some d).
  { induction 1 as [|x xs Hx _ IH]; simpl; intros Hd; [by rewrite Hd|]. by rewrite Hx, IH. }
  eapply wp_find_and_del; [exact Hr|done| |].
  - intros Hall. split_and!; [done|by rewrite Hnone|]. exists ps.*2. split; [by exists ps|done].
  - intros pa p d pb -> Hpa Hd. rewrite fmap_app in *. csimpl. split.
    + intros ->. csimpl in Hlast. by rewrite (Hlast _ _ eq_refl Hpa) in Hd.
    + intros l' Hl'. split_and!; [done|by rewrite Hsome|]. exists (pa ++ pb).*2. split; [by exists (pa ++ pb)|].
      exists pa.*2, pb.*2. by rewrite fmap_app.
Qed.


(** The destruction gives each datum to [dealloc] once, in order, and frees
    every node. *)
Theorem list_destroy_spec {D} l (xs log : list D) ms :
  lrep l xs →
  wp (list_destroy (λ d, modify (λ log, log ++ [d]))) (λ _ s ms', ms' = ms ∧ s.2 = log ++ xs ∧
    cell (nodes s.1) = ∅) (l, log) ms.
Proof.
  intros (ps & Hr & <-).
  eapply wp_mono; [apply (wp_list_destroy _ (λ _ log' ms', ms' = ms ∧ log' = log ++ ps.*2) l ps); [exact Hr|]|].
  - generalize (ps.*2). clear. intros xs. revert log. induction xs as [|d xs IH]; intros log; simpl.
    + wp_step. by rewrite app_nil_r.
    + wp_steps. eapply wp_mono; [apply IH|]. intros [] s ms'. by rewrite <-app_assoc.
  - intros [] s ms' [[-> ->] Hh]. by split_and!.
Qed.

(** A traversal calls the callback on the data in order, until it answers
    something else than 0. *)
Theorem list_trav_until {D Σ} l (xs : list D) (proc : D → SM Σ Z) s ms :
  lrep l xs → list_trav l proc s ms = trav_until proc xs s ms.
Proof. intros (ps & Hr & <-). by apply list_trav_spec. Qed.

(** ** Witnesses *)

Definition demo_calls : list list_call :=
  [LRpush 1; LRpush 2; LLpush 3; LFetch 1; LRemove 1; LFind 2; LRpop; LLpop; LLpop; LSort 5; LSort 7].

Lemma list_refines_witness :
  wp (list_run demo_calls) (λ r _ ms', ms' = [] ∧ ∃ l,
    r = Some ((abs_list_calls demo_calls []).1, l) ∧ lrep l (abs_list_calls demo_calls []).2) tt [].
Proof. apply list_refines; [repeat constructor; simpl; lia|done]. Defined.

Lemma demo_list : ∃ l, lrep l [9; 6; 2].
Proof.
  assert (Hr : lrep (MkList 0 NULL NULL empty_heap) ([] : list Z)).
  { exists []. split; [|done]. constructor; simpl; try done. apply hp_empty. }
  destruct (wp_elim _ _ _ _ (wp_list_calls [LSort 6; LSort 2; LSort 9] _ [] Hr ltac:(by repeat constructor) ltac:(done)))
    as (rs & l & ms & _ & _ & _ & Hl). by exists l.
Qed.

Lemma list_sort_spec_witness : ∃ l, lrep l [9; 6; 2] ∧
  wp (list_sort Z.sub 7) (λ r l' ms', ms' = tail [true] ∧
    if decide (head [true] = Some false) then r = -1 ∧ lrep l' [9; 6; 2]
    else r = 0 ∧ ∃ ys, lrep l' ys ∧ descending Z.sub ys ∧ ys ≡ₚ 7 :: [9; 6; 2]) l [true].
Proof.
  destruct demo_list as [l Hl]. exists l. split; [exact Hl|].
  apply (list_sort_spec Z.sub (λ _, True)); [lia|lia|exact Hl| |done|by apply Forall_true].
  unfold descending. repeat constructor; lia.
Defined.

Lemma list_find_and_del_spec_witness : ∃ l, lrep l [9; 6; 2] ∧
  wp (list_find_and_del (λ x, x =? 6)) (λ r l' ms', ms' = [] ∧ r = first_match (λ x, x =? 6) [9; 6; 2] ∧
    ∃ ys, lrep l' ys ∧
    match r with
    | None => ys = [9; 6; 2]
    | Some d => ∃ pa pb, [9; 6; 2] = pa ++ d :: pb ∧ ys = pa ++ pb ∧ (d =? 6) = true
    end) l [].
Proof.
  destruct demo_list as [l Hl]. exists l. split; [exact Hl|].
  apply (list_find_and_del_spec (λ x, x =? 6)); [exact Hl|done|].
  intros pa d Hpa Hall. destruct pa as [|a [|b [|c [|? ?]]]]; simplify_eq/=; done.
Defined.

Lemma list_destroy_spec_witness : ∃ l, lrep l [9; 6; 2] ∧
  wp (list_destroy (λ d, modify (λ log, log ++ [d]))) (λ _ s ms', ms' = [] ∧ s.2 = [4] ++ [9; 6; 2] ∧
    cell (nodes s.1) = ∅) (l, [4]) [].
Proof.
  destruct demo_list as [l Hl]. exists l. split; [exact Hl|]. apply (list_destroy_spec l); exact Hl.
Defined.

Lemma list_trav_until_witness : ∃ l, lrep l [9; 6; 2] ∧
  list_trav l (λ d, modify (λ n, n + d);; mret (if d =? 6 then 1 else 0)) 0 [] = Ok (-1, 15, []).
Proof.
  destruct demo_list as [l Hl]. exists l. split; [exact Hl|].
  rewrite (list_trav_until l [9; 6; 2]); [reflexivity|exact Hl].
Defined.
