(* ===== verification/List2.v ===== *)
(** The doubly linked circular list of [lib/core/list2.c], on a heap of nodes,
    and its refinement of the lists of data. *)
From S2P Require Import Prelude Heap List ListProps.
Open Scope Z_scope.

Section Data.
Context {D : Type}.

Record list2_node_t := Node2 { data2 : D; prev2 : ptr; next2 : ptr }.

(** [list2_t], with the heap of its nodes. *)
Record list2_t := MkList2 { num2 : Z; head2 : ptr; nodes2 : heap list2_node_t }.

Definition set_prev2 (p : ptr) (n : list2_node_t) : list2_node_t := Node2 (data2 n) p (next2 n).
Definition set_next2 (p : ptr) (n : list2_node_t) : list2_node_t := Node2 (data2 n) (prev2 n) p.

Definition set_num2 (n : Z) (l : list2_t) : list2_t := MkList2 n (head2 l) (nodes2 l).
Definition set_head2 (p : ptr) (l : list2_t) : list2_t := MkList2 (num2 l) p (nodes2 l).
Definition set_nodes2 (h : heap list2_node_t) (l : list2_t) : list2_t := MkList2 (num2 l) (head2 l) h.
End Data.
Arguments list2_node_t : clear implicits.
Arguments list2_t : clear implicits.

Section Ops.
Context {D : Type}.
Abbreviation LM := (SM (list2_t D)).

Definition on_nodes2 {A} : SM (heap (list2_node_t D)) A → LM A := zoom nodes2 set_nodes2.
Definition lrd2 (p : ptr) : LM (list2_node_t D) := on_nodes2 (hrd p).
Definition lwr2 (p : ptr) (f : list2_node_t D → list2_node_t D) : LM unit := on_nodes2 (hwr p f).
Definition incr_num2 : LM unit := modify (λ l, set_num2 (i32 (num2 l + 1)) l).
Definition decr_num2 : LM unit := modify (λ l, set_num2 (i32 (num2 l - 1)) l).

(** A loop over the nodes visits each at most once. *)
Definition list2_fuel (l : list2_t D) : nat := S (size (cell (nodes2 l))).

(** [abort()] is a crash. *)
Definition list2_assert : LM unit :=
  l ← get;
  if head2 l =? NULL then cassert (num2 l =? 0) else
  num ← loop (list2_fuel l) (λ '(num, curr),
    n ← lrd2 curr;
    c ← lrd2 (next2 n);
    cassert (negb ((prev2 c =? NULL) || (next2 c =? NULL)));;
    mret (if negb (next2 n =? head2 l) then inl (i32 (num + 1), next2 n) else inr (i32 (num + 1)))) (0, head2 l);
  cassert (num =? num2 l).

Definition list2_creat {Σ} : SM Σ (option (list2_t D)) :=
  ok ← malloc;
  mret (if ok : bool then Some (MkList2 0 NULL empty_heap) else None).

Definition list2_lpush (d : D) : LM Z :=
  node ← on_nodes2 (halloc (Node2 d NULL NULL));
  match node with
  | None => mret (-1)
  | Some node =>
      l ← get;
      if head2 l =? NULL then
        modify (set_head2 node);;
        lwr2 node (set_prev2 node);; lwr2 node (set_next2 node);;
        modify (set_num2 1);;
        mret 0
      else
        h ← lrd2 (head2 l);
        let tail := prev2 h in
        lwr2 node (set_next2 (head2 l));;
        lwr2 (head2 l) (set_prev2 node);;
        lwr2 node (set_prev2 tail);;
        lwr2 tail (set_next2 node);;
        modify (set_head2 node);;
        incr_num2;;
        mret 0
  end.

Definition list2_lpop : LM (option D) :=
  l ← get;
  if head2 l =? NULL then mret None else
  h ← lrd2 (head2 l);
  let tail := prev2 h in
  if head2 l =? tail then
    modify (set_head2 NULL);; modify (set_num2 0);;
    t ← lrd2 tail;
    on_nodes2 (hfree tail);;
    mret (Some (data2 t))
  else
    let curr := head2 l in
    c ← lrd2 curr;
    modify (set_head2 (next2 c));;
    l ← get;
    lwr2 tail (set_next2 (head2 l));;
    lwr2 (head2 l) (set_prev2 tail);;
    decr_num2;;
    c ← lrd2 curr;
    on_nodes2 (hfree curr);;
    mret (Some (data2 c)).

Definition list2_delete (node : ptr) : LM D :=
  n ← lrd2 node;
  if node =? prev2 n then
    modify (set_num2 0);; modify (set_head2 NULL);;
    on_nodes2 (hfree node);;
    mret (data2 n)
  else
    l ← get;
    (if node =? head2 l then modify (set_head2 (next2 n)) else mret tt);;
    lwr2 (prev2 n) (set_next2 (next2 n));;
    n' ← lrd2 node;
    lwr2 (next2 n') (set_prev2 (prev2 n'));;
    decr_num2;;
    on_nodes2 (hfree node);;
    mret (data2 n).

Definition list2_rpush (d : D) : LM Z :=
  node ← on_nodes2 (halloc (Node2 d NULL NULL));
  match node with
  | None => mret (-1)
  | Some node =>
      l ← get;
      if head2 l =? NULL then
        modify (set_head2 node);;
        lwr2 node (set_prev2 node);; lwr2 node (set_next2 node);;
        modify (set_num2 1);;
        mret 0
      else
        h ← lrd2 (head2 l);
        let tail := prev2 h in
        lwr2 tail (set_next2 node);;
        lwr2 node (set_prev2 tail);;
        lwr2 node (set_next2 (head2 l));;
        lwr2 (head2 l) (set_prev2 node);;
        incr_num2;;
        mret 0
  end.

Definition list2_rpop : LM (option D) :=
  l ← get;
  if head2 l =? NULL then mret None else
  h ← lrd2 (head2 l);
  if head2 l =? prev2 h then
    let tail := head2 l in
    modify (set_head2 NULL);; modify (set_num2 0);;
    t ← lrd2 tail;
    on_nodes2 (hfree tail);;
    mret (Some (data2 t))
  else
    let tail := prev2 h in
    t ← lrd2 tail;
    let prev := prev2 t in
    lwr2 prev (set_next2 (head2 l));;
    lwr2 (head2 l) (set_prev2 prev);;
    decr_num2;;
    t ← lrd2 tail;
    on_nodes2 (hfree tail);;
    mret (Some (data2 t)).

Definition list2_find (cb : D → bool) : LM (option D) :=
  l ← get;
  if head2 l =? NULL then mret None else
  h ← lrd2 (head2 l);
  let tail := prev2 h in
  loop (list2_fuel l) (λ node,
    n ← lrd2 node;
    if cb (data2 n) then mret (inr (Some (data2 n)))
    else if node =? tail then mret (inr None) else mret (inl (next2 n))) (head2 l).

Definition list2_find_and_del (cb : D → bool) : LM (option D) :=
  l ← get;
  if head2 l =? NULL then mret None else
  h ← lrd2 (head2 l);
  let tail := prev2 h in
  loop (list2_fuel l) (λ node,
    n ← lrd2 node;
    if cb (data2 n) then
      decr_num2;;
      l ← get;
      (if num2 l =? 0 then modify (set_head2 NULL)
       else
         lwr2 (prev2 n) (set_next2 (next2 n));;
         n' ← lrd2 node;
         lwr2 (next2 n') (set_prev2 (prev2 n'));;
         (if node =? head2 l then n'' ← lrd2 node; modify (set_head2 (next2 n'')) else mret tt));;
      on_nodes2 (hfree node);;
      mret (inr (Some (data2 n)))
    else if node =? tail then mret (inr None) else mret (inl (next2 n))) (head2 l).

Definition list2_roll : LM (option D) :=
  l ← get;
  if head2 l =? NULL then mret None else
  h ← lrd2 (head2 l);
  modify (set_head2 (next2 h));;
  mret (Some (data2 h)).
End Ops.

Section Trav.
Context {D Σ : Type}.

(** The callback runs on the caller's state; its result is ignored. *)
Definition list2_trav (l : list2_t D) (cb : D → SM Σ unit) : SM Σ Z :=
  if head2 l =? NULL then mret 0 else
  h ← deref (cell (nodes2 l) !! head2 l);
  let tail := prev2 h in
  loop (list2_fuel l) (λ node,
    n ← deref (cell (nodes2 l) !! node);
    cb (data2 n);;
    mret (if node =? tail then inr 0 else inl (next2 n))) (head2 l).

(** [dealloc] runs on the data; each node is freed after it. *)
Definition list2_destroy (dealloc : D → SM Σ unit) : SM (list2_t D * Σ) unit :=
  l ← get;
  if head2 l.1 =? NULL then mret tt else
  h ← on_fst (lrd2 (head2 l.1));
  let tail := prev2 h in
  loop (list2_fuel l.1) (λ curr,
    n ← on_fst (lrd2 curr);
    on_snd (dealloc (data2 n));;
    on_fst (on_nodes2 (hfree curr));;
    mret (if curr =? tail then inr tt else inl (next2 n))) (head2 l.1).
End Trav.

(** ** Refinement of lists *)

Section Rep.
Context {D : Type}.
Implicit Types (ps : list (ptr * D)) (l : list2_t D).

Definition first2 ps (q : ptr) : ptr := match ps with [] => q | (p, _) :: _ => p end.
Definition last2 ps (q : ptr) : ptr := match last ps with None => q | Some (p, _) => p end.

(** The cells of a segment after the node [pv] and before the node [nx]. *)
Fixpoint dseg (pv : ptr) ps (nx : ptr) : list (ptr * list2_node_t D) :=
  match ps with [] => [] | (p, d) :: ps' => (p, Node2 d pv (first2 ps' nx)) :: dseg p ps' nx end.

Definition ring_of ps : list (ptr * list2_node_t D) := dseg (last2 ps NULL) ps (first2 ps NULL).

Record l2rep_at l ps : Prop := {
  l2_hp : hp (nodes2 l) (ring_of ps);
  l2_head : head2 l = first2 ps NULL;
  l2_num : num2 l = i32 (Z.of_nat (length ps));
}.

(** The list [l] holds the data [xs]. *)
Definition l2rep l (xs : list D) : Prop := ∃ ps, l2rep_at l ps ∧ ps.*2 = xs.

Lemma first2_app ps1 ps2 q : first2 (ps1 ++ ps2) q = first2 ps1 (first2 ps2 q).
Proof. by destruct ps1 as [|[]]. Qed.

Lemma last2_snoc ps p d q : last2 (ps ++ [(p, d)]) q = p.
Proof. unfold last2. by rewrite last_snoc. Qed.

Lemma last2_app ps1 ps2 q : last2 (ps1 ++ ps2) q = last2 ps2 (last2 ps1 q).
Proof.
  destruct ps2 as [|[p d] ps2 _] using rev_ind; [by rewrite app_nil_r|]. by rewrite app_assoc, !last2_snoc.
Qed.

Lemma last2_cons p d ps q : last2 ((p, d) :: ps) q = last2 ps p.
Proof. apply (last2_app [(p, d)] ps q). Qed.

Lemma dseg_app pv ps1 ps2 nx :
  dseg pv (ps1 ++ ps2) nx = dseg pv ps1 (first2 ps2 nx) ++ dseg (last2 ps1 pv) ps2 nx.
Proof.
  revert pv. induction ps1 as [|[p d] ps1 IH]; intros pv; [done|]. cbn [dseg app]. by rewrite IH, first2_app, last2_cons.
Qed.

Lemma dseg_fst pv ps nx : (dseg pv ps nx).*1 = ps.*1.
Proof. revert pv. induction ps as [|[p d] ps IH]; intros pv; [done|]. csimpl. by rewrite IH. Qed.

Lemma dseg_length pv ps nx : length (dseg pv ps nx) = length ps.
Proof. rewrite <-(length_fmap fst), dseg_fst. apply length_fmap. Qed.

(** The circle may be read from any of its nodes. *)
Lemma ring_rotate ps1 ps2 : ring_of (ps1 ++ ps2) ≡ₚ ring_of (ps2 ++ ps1).
Proof.
  destruct ps1 as [|[p1 d1] ps1]; [by rewrite app_nil_r|]. destruct ps2 as [|[p2 d2] ps2]; [by rewrite app_nil_r|].
  unfold ring_of. rewrite !last2_app, !first2_app, !dseg_app, !last2_cons. cbn [first2]. apply Permutation_app_comm.
Qed.

Lemma ring_node p d ps : ring_of ((p, d) :: ps) = (p, Node2 d (last2 ps p) (first2 ps p)) :: dseg p ps p.
Proof. unfold ring_of. by rewrite last2_cons. Qed.

Lemma rep2_pos l ps p : l2rep_at l ps → p ∈ ps.*1 → NULL < p.
Proof.
  intros Hr Hp. rewrite <-(dseg_fst (last2 ps NULL) ps (first2 ps NULL)) in Hp. by destruct (hp_pos _ _ _ (l2_hp _ _ Hr) Hp).
Qed.

Lemma rep2_nodup l ps : l2rep_at l ps → NoDup ps.*1.
Proof.
  intros Hr. rewrite <-(dseg_fst (last2 ps NULL) ps (first2 ps NULL)). apply (hp_nodup _ _ (l2_hp _ _ Hr)).
Qed.

Lemma rep2_fuel l ps : l2rep_at l ps → list2_fuel l = S (length ps).
Proof.
  intros Hr. unfold list2_fuel. rewrite (hp_size _ _ (l2_hp _ _ Hr)). unfold ring_of. by rewrite dseg_length.
Qed.

Lemma first2_in ps q : ps ≠ [] → first2 ps q ∈ ps.*1.
Proof. destruct ps as [|[p d] ps]; [done|]. intros _. left. Qed.
Lemma last2_in ps q : ps ≠ [] → last2 ps q ∈ ps.*1.
Proof. destruct ps as [|[p d] ps _] using rev_ind; [done|]. intros _. rewrite last2_snoc, fmap_app. set_solver. Qed.

Lemma head2_null l ps : l2rep_at l ps → (head2 l =? NULL) = bool_decide (ps = []).
Proof.
  intros Hr. rewrite (l2_head _ _ Hr). destruct ps as [|[p d] ps]; [done|]. rewrite bool_decide_false by done.
  apply Z.eqb_neq. pose proof (rep2_pos _ _ p Hr ltac:(left)). simpl. lia.
Qed.

(** *** Steps on the nodes *)

Lemma wp_on_nodes2 {A} (m : SM (heap (list2_node_t D)) A) (Q : A → list2_t D → mem → Prop) l ms :
  wp m (λ a h, Q a (set_nodes2 h l)) (nodes2 l) ms → wp (on_nodes2 m) Q l ms.
Proof. intros H. by apply wp_zoom. Qed.

Lemma wp_lrd2 p n C (Q : list2_node_t D → list2_t D → mem → Prop) l ms :
  hp (nodes2 l) ((p, n) :: C) → Q n l ms → wp (lrd2 p) Q l ms.
Proof. intros H HQ. apply wp_on_nodes2. eapply wp_hrd; [done|]. by destruct l. Qed.

Lemma wp_lwr2 p n f C (Q : unit → list2_t D → mem → Prop) l ms :
  hp (nodes2 l) ((p, n) :: C) →
  (∀ h, hp h ((p, f n) :: C) → Q tt (set_nodes2 h l) ms) → wp (lwr2 p f) Q l ms.
Proof. intros H HQ. apply wp_on_nodes2. by eapply wp_hwr. Qed.

Lemma wp_lfree2 p n C (Q : unit → list2_t D → mem → Prop) l ms :
  hp (nodes2 l) ((p, n) :: C) →
  (∀ h, hp h C → Q tt (set_nodes2 h l) ms) → wp (on_nodes2 (hfree p)) Q l ms.
Proof. intros H HQ. apply wp_on_nodes2. by eapply wp_hfree. Qed.

(** The last node of a segment gets another successor, the first one another
    predecessor. *)
Lemma wp_set_last qs a b c X (Q : unit → list2_t D → mem → Prop) l ms :
  qs ≠ [] → hp (nodes2 l) (X ++ dseg a qs b) →
  (∀ h, hp h (X ++ dseg a qs c) → Q tt (set_nodes2 h l) ms) → wp (lwr2 (last2 qs NULL) (set_next2 c)) Q l ms.
Proof.
  intros Hne Hh HQ. destruct qs as [|[q e] qs _] using rev_ind; [done|]. rewrite last2_snoc.
  rewrite dseg_app in Hh. simpl in Hh.
  eapply (wp_lwr2 q _ _ (X ++ dseg a qs q)); [heap_solve Hh|]. intros h Hh'. apply HQ. rewrite dseg_app. simpl. heap_solve Hh'.
Qed.

Lemma wp_set_first qs a b c X (Q : unit → list2_t D → mem → Prop) l ms :
  qs ≠ [] → hp (nodes2 l) (X ++ dseg a qs b) →
  (∀ h, hp h (X ++ dseg c qs b) → Q tt (set_nodes2 h l) ms) → wp (lwr2 (first2 qs NULL) (set_prev2 c)) Q l ms.
Proof.
  intros Hne Hh HQ. destruct qs as [|[q e] qs]; [done|]. simpl in Hh |- *.
  eapply (wp_lwr2 q _ _ (X ++ dseg q qs b)); [heap_solve Hh|]. intros h Hh'. apply HQ. heap_solve Hh'.
Qed.

Lemma first2_ne ps q q' : ps ≠ [] → first2 ps q = first2 ps q'.
Proof. by destruct ps as [|[]]. Qed.
Lemma last2_ne ps q q' : ps ≠ [] → last2 ps q = last2 ps q'.
Proof. destruct ps as [|[p d] ps _] using rev_ind; [done|]. intros _. by rewrite !last2_snoc. Qed.

(** Reading the node [p] of the list. *)
Lemma wp_lrd2_at l ps1 p d ps2 (Q : list2_node_t D → list2_t D → mem → Prop) ms :
  hp (nodes2 l) (ring_of (ps1 ++ (p, d) :: ps2)) →
  Q (Node2 d (last2 (ps2 ++ ps1) p) (first2 (ps2 ++ ps1) p)) l ms → wp (lrd2 p) Q l ms.
Proof.
  intros Hh HQ. eapply wp_lrd2; [|exact HQ]. eapply hp_perm; [|exact Hh].
  rewrite ring_rotate. cbn [app]. by rewrite ring_node.
Qed.

Lemma wp_lrd2_head l X p d ps (Q : list2_node_t D → list2_t D → mem → Prop) ms :
  hp (nodes2 l) (X ++ ring_of ((p, d) :: ps)) →
  Q (Node2 d (last2 ps p) (first2 ps p)) l ms → wp (lrd2 p) Q l ms.
Proof.
  intros Hh HQ. eapply wp_lrd2; [|exact HQ]. eapply hp_perm; [|exact Hh].
  rewrite ring_node. symmetry. apply Permutation_middle.
Qed.

(** *** Pushes *)

Lemma ring_link p d ps : ps ≠ [] →
  (p, Node2 d (last2 ps NULL) (first2 ps NULL)) :: dseg p ps p = ring_of ((p, d) :: ps).
Proof. intros Hne. by rewrite ring_node, (last2_ne ps p NULL), (first2_ne ps p NULL). Qed.

Lemma ring_snoc ps p d : ring_of ((p, d) :: ps) ≡ₚ ring_of (ps ++ [(p, d)]).
Proof. apply (ring_rotate [(p, d)] ps). Qed.

Lemma wp_lalloc2 d C (Q : option ptr → list2_t D → mem → Prop) l ms :
  hp (nodes2 l) C →
  (if decide (hd_error ms = Some false) then Q None l (tl ms)
   else ∀ h p, NULL < p → hp h ((p, Node2 d NULL NULL) :: C) → Q (Some p) (set_nodes2 h l) (tl ms)) →
  wp (on_nodes2 (halloc (Node2 d NULL NULL))) Q l ms.
Proof.
  intros H HQ. apply wp_on_nodes2. eapply wp_halloc; [exact H|]. change (head ms) with (hd_error ms).
  case_decide; [by destruct l|done].
Qed.

Lemma num2_succ l ps (x : ptr * D) : l2rep_at l ps → i32 (num2 l + 1) = i32 (Z.of_nat (length (x :: ps))).
Proof. intros Hr. rewrite (l2_num _ _ Hr), i32_add. f_equal. simpl. lia. Qed.

Lemma wp_lpush2 d l ps (Q : Z → list2_t D → mem → Prop) ms :
  l2rep_at l ps →
  (if decide (hd_error ms = Some false) then Q (-1) l (tl ms)
   else ∀ l' p, l2rep_at l' ((p, d) :: ps) → Q 0 l' (tl ms)) →
  wp (list2_lpush d) Q l ms.
Proof.
  intros Hr HQ. unfold list2_lpush. wp_steps. eapply wp_lalloc2; [apply (l2_hp _ _ Hr)|].
  case_decide; wp_steps; [done|]. intros h p Hp Hh. wp_steps. cbn [head2 set_nodes2].
  rewrite (head2_null _ _ Hr). destruct (decide (ps = [])) as [->|Hne].
  - rewrite bool_decide_true by done. wp_steps. eapply wp_lwr2; [exact Hh|]. intros h1 Hh1. wp_steps.
    eapply wp_lwr2; [exact Hh1|]. intros h2 Hh2. wp_steps. apply (HQ _ p). by constructor.
  - rewrite bool_decide_false by done. rewrite (l2_head _ _ Hr). wp_steps.
    destruct ps as [|[q e] ps]; [done|]. cbn [first2].
    eapply (wp_lrd2_head _ [_]); [exact Hh|]. wp_steps. cbn [prev2].
    eapply wp_lwr2; [exact Hh|]. intros h1 Hh1. wp_steps.
    eapply (wp_set_first ((q, e) :: ps) _ _ p [_]); [done|exact Hh1|]. intros h2 Hh2. wp_steps.
    eapply wp_lwr2; [exact Hh2|]. intros h3 Hh3. wp_steps.
    rewrite <-(last2_cons q e ps NULL). eapply (wp_set_last ((q, e) :: ps) _ _ p [_]); [done|exact Hh3|]. intros h4 Hh4. wp_steps.
    unfold incr_num2. wp_steps. apply (HQ _ p). constructor; [|done|by apply (num2_succ l)].
    rewrite <-ring_link, last2_cons by done. exact Hh4.
Qed.

Lemma wp_rpush2 d l ps (Q : Z → list2_t D → mem → Prop) ms :
  l2rep_at l ps →
  (if decide (hd_error ms = Some false) then Q (-1) l (tl ms)
   else ∀ l' p, l2rep_at l' (ps ++ [(p, d)]) → Q 0 l' (tl ms)) →
  wp (list2_rpush d) Q l ms.
Proof.
  intros Hr HQ. unfold list2_rpush. wp_steps. eapply wp_lalloc2; [apply (l2_hp _ _ Hr)|].
  case_decide; wp_steps; [done|]. intros h p Hp Hh. wp_steps. cbn [head2 set_nodes2].
  rewrite (head2_null _ _ Hr). destruct (decide (ps = [])) as [->|Hne].
  - rewrite bool_decide_true by done. wp_steps. eapply wp_lwr2; [exact Hh|]. intros h1 Hh1. wp_steps.
    eapply wp_lwr2; [exact Hh1|]. intros h2 Hh2. wp_steps. apply (HQ _ p). by constructor.
  - rewrite bool_decide_false by done. rewrite (l2_head _ _ Hr). wp_steps.
    destruct ps as [|[q e] ps]; [done|]. cbn [first2].
    eapply (wp_lrd2_head _ [_]); [exact Hh|]. wp_steps. cbn [prev2].
    rewrite <-(last2_cons q e ps NULL). eapply (wp_set_last ((q, e) :: ps) _ _ p [_]); [done|exact Hh|]. intros h1 Hh1. wp_steps.
    eapply wp_lwr2; [exact Hh1|]. intros h2 Hh2. wp_steps. eapply wp_lwr2; [exact Hh2|]. intros h3 Hh3. wp_steps.
    eapply (wp_set_first ((q, e) :: ps) _ _ p [_]); [done|exact Hh3|]. intros h4 Hh4. wp_steps.
    unfold incr_num2. wp_steps. apply (HQ _ p). constructor; [|by rewrite first2_app; apply Hr|].
    + rewrite <-ring_snoc, <-ring_link by done. exact Hh4.
    + cbn [num2 set_num2 set_nodes2 nodes2]. rewrite length_app, Nat.add_1_r. by apply (num2_succ l _ (p, d)).
Qed.

(** *** Removals *)

Lemma num2_pred l ps1 x ps2 : l2rep_at l (ps1 ++ x :: ps2) → i32 (num2 l - 1) = i32 (Z.of_nat (length (ps1 ++ ps2))).
Proof.
  intros Hr. rewrite (l2_num _ _ Hr), <-Z.add_opp_r, i32_add. f_equal. rewrite !length_app. simpl. lia.
Qed.

(** The node [p] alone is its own neighbour. *)
Lemma single2 l ps1 p d ps2 : l2rep_at l (ps1 ++ (p, d) :: ps2) →
  (p =? last2 (ps2 ++ ps1) p) = bool_decide (ps2 ++ ps1 = []).
Proof.
  intros Hr. case_bool_decide as He; [by rewrite He, Z.eqb_refl|]. apply Z.eqb_neq. intros Heq.
  pose proof (rep2_nodup _ _ Hr) as Hn. pose proof (last2_in (ps2 ++ ps1) p He) as Hin. rewrite <-Heq in Hin.
  rewrite fmap_app in Hn. apply NoDup_app in Hn as (_ & Hd & Hn). csimpl in *. apply NoDup_cons in Hn as [Hn _].
  rewrite fmap_app, elem_of_app in Hin. destruct Hin as [Hin|Hin]; [done|]. apply (Hd p Hin). left.
Qed.

(** The neighbours of [p] joined, whatever the order of the two writes. *)
Lemma ring_unlink p d qs : qs ≠ [] →
  ring_of ((p, d) :: qs) = [(p, Node2 d (last2 qs NULL) (first2 qs NULL))] ++ dseg p qs p.
Proof. intros Hne. by rewrite <-ring_link. Qed.

Lemma wp_unlink2 l p d qs (Q : unit → list2_t D → mem → Prop) ms :
  qs ≠ [] → hp (nodes2 l) (ring_of ((p, d) :: qs)) →
  (∀ h, hp h ((p, Node2 d (last2 qs NULL) (first2 qs NULL)) :: ring_of qs) → Q tt (set_nodes2 h l) ms) →
  wp (lwr2 (last2 qs NULL) (set_next2 (first2 qs NULL));; lwr2 (first2 qs NULL) (set_prev2 (last2 qs NULL))) Q l ms.
Proof.
  intros Hne Hh HQ. rewrite ring_unlink in Hh by done. wp_steps.
  eapply wp_set_last; [done|exact Hh|]. intros h1 Hh1. eapply wp_set_first; [done|exact Hh1|]. intros h2 Hh2. by apply HQ.
Qed.

(** What is left once [p] is freed. *)
Lemma rep2_removed l ps1 p d ps2 n h hd :
  l2rep_at l (ps1 ++ (p, d) :: ps2) → n = i32 (Z.of_nat (length (ps1 ++ ps2))) →
  hp h (ring_of (ps2 ++ ps1)) → hd = first2 (ps1 ++ ps2) NULL → l2rep_at (MkList2 n hd h) (ps1 ++ ps2).
Proof. intros Hr -> Hh ->. constructor; [|done|done]. by rewrite ring_rotate. Qed.

Lemma wp_delete2 l ps1 p d ps2 (Q : D → list2_t D → mem → Prop) ms :
  l2rep_at l (ps1 ++ (p, d) :: ps2) →
  (∀ l', l2rep_at l' (ps1 ++ ps2) → Q d l' ms) → wp (list2_delete p) Q l ms.
Proof.
  intros Hr HQ. unfold list2_delete. wp_steps. eapply wp_lrd2_at; [exact (l2_hp _ _ Hr)|].
  cbn [prev2 next2 data2]. rewrite (single2 _ _ _ _ _ Hr).
  pose proof (l2_hp _ _ Hr) as Hh. rewrite ring_rotate in Hh. cbn [app] in Hh.
  case_bool_decide as He.
  - wp_steps. rewrite He in Hh. eapply wp_lfree2; [exact Hh|]. intros h Hh'. wp_steps. apply HQ.
    apply app_eq_nil in He as [-> ->]. by constructor.
  - rewrite (last2_ne _ p NULL), (first2_ne _ p NULL) by done. wp_steps.
    assert (∀ l1, nodes2 l1 = nodes2 l → num2 l1 = num2 l → head2 l1 = first2 (ps1 ++ ps2) NULL →
      wp (lwr2 (last2 (ps2 ++ ps1) NULL) (set_next2 (first2 (ps2 ++ ps1) NULL));;
          n' ← lrd2 p;
          lwr2 (next2 n') (set_prev2 (prev2 n'));;
          decr_num2;;
          on_nodes2 (hfree p);;
          mret d) Q l1 ms) as Hrest.
    { intros l1 Hn1 Hm1 Hd1. rewrite <-Hn1 in Hh. pose proof Hh as Hh0. rewrite ring_unlink in Hh by done. wp_steps.
      eapply wp_set_last; [done|exact Hh|]. intros h1 Hh1. wp_steps. eapply wp_lrd2; [exact Hh1|]. cbn [next2 prev2]. wp_steps.
      eapply wp_set_first; [done|exact Hh1|]. intros h2 Hh2. unfold decr_num2. wp_steps.
      eapply wp_lfree2; [exact Hh2|]. intros h3 Hh3. wp_steps. apply HQ. simpl.
      eapply rep2_removed; [exact Hr| |exact Hh3|exact Hd1]. rewrite Hm1. by eapply num2_pred. }
    destruct (Z.eqb_spec p (head2 l)) as [Hph|Hph]; wp_step; cbn beta; apply Hrest; try done.
    + simpl. destruct ps1 as [|[q e] ps1]; [by rewrite app_nil_r|]. exfalso.
      rewrite (l2_head _ _ Hr) in Hph. simpl in Hph. subst q. pose proof (rep2_nodup _ _ Hr) as Hn. csimpl in Hn.
      apply NoDup_cons in Hn as [Hn _]. apply Hn. rewrite fmap_app. set_solver.
    + rewrite (l2_head _ _ Hr) in Hph |- *. rewrite !first2_app in *. destruct ps1 as [|[q e] ps1]; [done|done].
Qed.

Lemma wp_lpop2 l ps (Q : option D → list2_t D → mem → Prop) ms :
  l2rep_at l ps →
  match ps with [] => Q None l ms | (_, d) :: ps' => ∀ l', l2rep_at l' ps' → Q (Some d) l' ms end →
  wp list2_lpop Q l ms.
Proof.
  intros Hr HQ. unfold list2_lpop. wp_steps. rewrite (head2_null _ _ Hr).
  destruct ps as [|[p d] ps]; [by rewrite bool_decide_true|]. rewrite bool_decide_false by done.
  rewrite (l2_head _ _ Hr). cbn [first2]. wp_steps.
  pose proof (l2_hp _ _ Hr) as Hh. eapply (wp_lrd2_at l []); [exact Hh|]. rewrite app_nil_r. cbn [prev2].
  pose proof (single2 l [] p d ps Hr) as Hs. rewrite app_nil_r in Hs. rewrite Hs. case_bool_decide as He.
  - subst ps. wp_steps. eapply wp_lrd2; [exact Hh|]. wp_steps. eapply wp_lfree2; [exact Hh|]. intros h Hh'. wp_steps.
    apply HQ. by constructor.
  - wp_steps. eapply (wp_lrd2_at l []); [exact Hh|]. rewrite app_nil_r. cbn [next2]. wp_steps. cbn [head2 set_head2].
    rewrite (last2_ne ps p NULL), (first2_ne ps p NULL) by done.
    rewrite ring_unlink in Hh by done.
    eapply wp_set_last; [done|exact Hh|]. intros h1 Hh1. wp_steps.
    eapply wp_set_first; [done|exact Hh1|]. intros h2 Hh2. unfold decr_num2. wp_steps.
    eapply wp_lrd2; [exact Hh2|]. wp_steps. eapply wp_lfree2; [exact Hh2|]. intros h3 Hh3. wp_steps. apply HQ. simpl.
    constructor; [exact Hh3|done|]. by apply (num2_pred l [] (p, d)).
Qed.

Lemma wp_rpop2 l ps (Q : option D → list2_t D → mem → Prop) ms :
  l2rep_at l ps →
  (ps = [] → Q None l ms) →
  (∀ ps' p d l', ps = ps' ++ [(p, d)] → l2rep_at l' ps' → Q (Some d) l' ms) →
  wp list2_rpop Q l ms.
Proof.
  intros Hr HQ0 HQ. unfold list2_rpop. wp_steps. rewrite (head2_null _ _ Hr).
  destruct ps as [|[p d] ps _] using rev_ind; [rewrite bool_decide_true by done; by apply HQ0|].
  rewrite bool_decide_false by (by destruct ps). wp_steps.
  pose proof (l2_hp _ _ Hr) as Hh. pose proof (single2 l ps p d [] Hr) as Hs. cbn [app] in Hs.
  destruct ps as [|[q e] ps].
  - rewrite (l2_head _ _ Hr). cbn [first2 app]. eapply wp_lrd2; [exact Hh|]. simpl. rewrite Z.eqb_refl. wp_steps.
    eapply wp_lrd2; [exact Hh|]. wp_steps. eapply wp_lfree2; [exact Hh|]. intros h Hh'. wp_steps.
    apply (HQ [] p d); [done|]. by constructor.
  - rewrite (l2_head _ _ Hr). cbn [first2 app].
    eapply (wp_lrd2_at l []); [exact Hh|]. rewrite app_nil_r, last2_snoc. cbn [prev2].
    assert (q ≠ p) as Hqp.
    { intros ->. pose proof (rep2_nodup _ _ Hr) as Hn. csimpl in Hn. apply NoDup_cons in Hn as [Hn _].
      apply Hn. rewrite fmap_app. set_solver. }
    rewrite (proj2 (Z.eqb_neq _ _)) by done. wp_steps.
    eapply (wp_lrd2_at l ((q, e) :: ps)); [exact Hh|]. cbn [prev2 app]. wp_steps.
    rewrite ring_rotate in Hh. cbn [app] in Hh. rewrite ring_unlink in Hh by done.
    rewrite (last2_ne _ p NULL) by done.
    eapply (wp_set_last ((q, e) :: ps)); [done|exact Hh|]. intros h1 Hh1. wp_steps.
    eapply (wp_set_first ((q, e) :: ps)); [done|exact Hh1|]. intros h2 Hh2. unfold decr_num2. wp_steps.
    eapply wp_lrd2; [exact Hh2|]. wp_steps. eapply wp_lfree2; [exact Hh2|]. intros h3 Hh3. wp_steps.
    apply (HQ ((q, e) :: ps) p d); [done|]. constructor; [exact Hh3| |].
    + simpl. by rewrite (l2_head _ _ Hr).
    + simpl. rewrite (num2_pred l ((q, e) :: ps) (p, d) [] Hr). by rewrite app_nil_r.
Qed.

Lemma wp_roll2 l ps (Q : option D → list2_t D → mem → Prop) ms :
  l2rep_at l ps →
  match ps with [] => Q None l ms | (p, d) :: ps' => ∀ l', l2rep_at l' (ps' ++ [(p, d)]) → Q (Some d) l' ms end →
  wp list2_roll Q l ms.
Proof.
  intros Hr HQ. unfold list2_roll. wp_steps. rewrite (head2_null _ _ Hr).
  destruct ps as [|[p d] ps]; [by rewrite bool_decide_true|]. rewrite bool_decide_false by done.
  rewrite (l2_head _ _ Hr). wp_steps. eapply (wp_lrd2_at l []); [apply (l2_hp _ _ Hr)|]. wp_steps.
  apply HQ. constructor; simpl.
  - eapply hp_perm; [apply (ring_rotate [(p, d)] ps)|]. apply (l2_hp _ _ Hr).
  - rewrite app_nil_r. by destruct ps as [|[]].
  - rewrite (l2_num _ _ Hr), length_app. simpl. do 2 f_equal. lia.
Qed.

(** *** Searches *)

(** The loops from the head to the tail stop at the last node. *)
Lemma tail_eq_nodup ps1 p d ps2 : NoDup (ps1 ++ (p, d) :: ps2).*1 →
  (p =? last2 (ps1 ++ (p, d) :: ps2) NULL) = bool_decide (ps2 = []).
Proof.
  intros Hn. rewrite last2_app, last2_cons. case_bool_decide as He; [by subst; rewrite Z.eqb_refl|].
  apply Z.eqb_neq. intros Heq. rewrite fmap_app in Hn.
  apply NoDup_app in Hn as (_ & _ & Hn). csimpl in Hn. apply NoDup_cons in Hn as [Hn _]. apply Hn.
  rewrite Heq. by apply last2_in.
Qed.

Lemma tail_eq l ps1 p d ps2 : l2rep_at l (ps1 ++ (p, d) :: ps2) →
  (p =? last2 (ps1 ++ (p, d) :: ps2) NULL) = bool_decide (ps2 = []).
Proof. intros Hr. by eapply tail_eq_nodup, rep2_nodup. Qed.

Lemma head_prev2 l p d ps (Q : list2_node_t D → list2_t D → mem → Prop) ms :
  l2rep_at l ((p, d) :: ps) → Q (Node2 d (last2 ((p, d) :: ps) NULL) (first2 ps p)) l ms → wp (lrd2 p) Q l ms.
Proof.
  intros Hr HQ. eapply (wp_lrd2_at l []); [apply (l2_hp _ _ Hr)|]. rewrite app_nil_r. by rewrite last2_cons in HQ.
Qed.

Lemma wp_find2 cb l ps ms :
  l2rep_at l ps →
  wp (list2_find cb) (λ r l' ms', l' = l ∧ ms' = ms ∧ r = first_match cb ps.*2) l ms.
Proof.
  intros Hr. unfold list2_find. wp_steps. rewrite (head2_null _ _ Hr), (l2_head _ _ Hr).
  destruct ps as [|[p d] ps]; [by rewrite bool_decide_true|]. rewrite bool_decide_false by done.
  cbn [first2]. wp_steps. eapply head_prev2; [exact Hr|]. cbn [prev2]. rewrite (rep2_fuel _ _ Hr).
  assert (Hgen : ∀ ps2 ps1 q e fuel, l2rep_at l (ps1 ++ (q, e) :: ps2) → (length ps2 < fuel)%nat →
    wp (loop fuel (λ node,
      n ← lrd2 node;
      if cb (data2 n) then mret (inr (Some (data2 n)))
      else if node =? last2 (ps1 ++ (q, e) :: ps2) NULL then mret (inr None) else mret (inl (next2 n))) q)
      (λ r l' ms', l' = l ∧ ms' = ms ∧ r = first_match cb ((q, e) :: ps2).*2) l ms).
  { clear Hr. induction ps2 as [|[p2 d2] ps2 IH]; intros ps1 q e fuel Hr Hf;
      (destruct fuel as [|fuel]; [simpl in Hf; lia|]); apply wp_loop_step; wp_steps;
      (eapply wp_lrd2_at; [apply (l2_hp _ _ Hr)|]); cbn [data2 next2]; csimpl; (destruct (cb e); wp_steps; [done|]);
      rewrite (tail_eq _ _ _ _ _ Hr); [by rewrite bool_decide_true|rewrite bool_decide_false by done].
    wp_steps. cbn [first2 app]. specialize (IH (ps1 ++ [(q, e)]) p2 d2 fuel).
    rewrite <-app_assoc in IH. apply IH; [exact Hr|simpl in Hf; lia]. }
  apply (Hgen ps [] p d); [exact Hr|simpl; lia].
Qed.

(** The removal of the node a search found. *)
Lemma wp_del_found {A} (k : SM (list2_t D) A) l ps1 p d ps2 (Q : A → list2_t D → mem → Prop) ms :
  l2rep_at l (ps1 ++ (p, d) :: ps2) → Z.of_nat (length (ps1 ++ (p, d) :: ps2)) < 2 ^ 31 →
  (∀ l', l2rep_at l' (ps1 ++ ps2) → wp k Q l' ms) →
  wp (decr_num2;;
      l ← get;
      (if num2 l =? 0 then modify (set_head2 NULL)
       else
         lwr2 (last2 (ps2 ++ ps1) p) (set_next2 (first2 (ps2 ++ ps1) p));;
         n' ← lrd2 p;
         lwr2 (next2 n') (set_prev2 (prev2 n'));;
         (if p =? head2 l then n'' ← lrd2 p; modify (set_head2 (next2 n'')) else mret tt));;
      on_nodes2 (hfree p);; k) Q l ms.
Proof.
  intros Hr Hlen HQ. unfold decr_num2. wp_steps. cbn [num2 head2 set_num2]. rewrite (num2_pred _ _ _ _ Hr).
  rewrite !length_app in *. simpl in Hlen. rewrite i32_small by lia.
  pose proof (l2_hp _ _ Hr) as Hh. rewrite ring_rotate in Hh. cbn [app] in Hh.
  destruct (decide (ps2 ++ ps1 = [])) as [He|He].
  - apply app_eq_nil in He as [-> ->]. wp_steps. apply wp_bind. eapply wp_lfree2; [exact Hh|]. intros h Hh'. apply HQ. by constructor.
  - assert (0 < length ps1 + length ps2)%nat as Hpos.
    { destruct ps1, ps2; simpl; try lia. done. }
    rewrite (proj2 (Z.eqb_neq _ _)) by lia. rewrite (last2_ne _ p NULL), (first2_ne _ p NULL) by done. wp_steps.
    rewrite ring_unlink in Hh by done.
    eapply wp_set_last; [done|exact Hh|]. intros h1 Hh1. wp_steps. eapply wp_lrd2; [exact Hh1|]. cbn [next2 prev2]. wp_steps.
    eapply wp_set_first; [done|exact Hh1|]. intros h2 Hh2.
    assert (∀ l1, nodes2 l1 = h2 → num2 l1 = Z.of_nat (length ps1 + length ps2) → head2 l1 = first2 (ps1 ++ ps2) NULL →
      wp (on_nodes2 (hfree p);; k) Q l1 ms) as Hend.
    { intros l1 H1 H2 H3. apply wp_bind. eapply wp_lfree2; [rewrite H1; exact Hh2|]. intros h3 Hh3. apply HQ.
      eapply rep2_removed; [exact Hr| |exact Hh3|exact H3]. rewrite H2, length_app, i32_small by lia. done. }
    destruct (Z.eqb_spec p (head2 l)) as [Hph|Hph]; wp_step; cbn beta.
    + eapply wp_lrd2; [exact Hh2|]. cbn [next2]. wp_step. cbn beta. apply Hend; [done|done|]. simpl.
      destruct ps1 as [|[q e] ps1]; [by rewrite app_nil_r|]. exfalso.
      rewrite (l2_head _ _ Hr) in Hph. simpl in Hph. subst q. pose proof (rep2_nodup _ _ Hr) as Hn. csimpl in Hn.
      apply NoDup_cons in Hn as [Hn _]. apply Hn. rewrite fmap_app. set_solver.
    + apply Hend; [done|done|]. simpl. rewrite (l2_head _ _ Hr) in Hph |- *. rewrite !first2_app in *. by destruct ps1 as [|[q e] ps1].
Qed.

Lemma wp_find_and_del2 cb l ps (Q : option D → list2_t D → mem → Prop) ms :
  l2rep_at l ps → Z.of_nat (length ps) < 2 ^ 31 →
  (Forall (λ d, cb d = false) ps.*2 → Q None l ms) →
  (∀ pa p d pb l', ps = pa ++ (p, d) :: pb → Forall (λ d, cb d = false) pa.*2 → cb d = true →
     l2rep_at l' (pa ++ pb) → Q (Some d) l' ms) →
  wp (list2_find_and_del cb) Q l ms.
Proof.
  intros Hr Hlen HQ0 HQ. unfold list2_find_and_del. wp_steps. rewrite (head2_null _ _ Hr), (l2_head _ _ Hr).
  destruct ps as [|[p d] ps]; [rewrite bool_decide_true by done; by apply HQ0|]. rewrite bool_decide_false by done.
  cbn [first2]. wp_steps. eapply head_prev2; [exact Hr|]. cbn [prev2]. rewrite (rep2_fuel _ _ Hr).
  assert (Hgen : ∀ ps2 ps1 q e fuel, (p, d) :: ps = ps1 ++ (q, e) :: ps2 → Forall (λ d, cb d = false) ps1.*2 →
    (length ps2 < fuel)%nat →
    wp (loop fuel (λ node,
      n ← lrd2 node;
      if cb (data2 n) then
        decr_num2;;
        l ← get;
        (if num2 l =? 0 then modify (set_head2 NULL)
         else
           lwr2 (prev2 n) (set_next2 (next2 n));;
           n' ← lrd2 node;
           lwr2 (next2 n') (set_prev2 (prev2 n'));;
           (if node =? head2 l then n'' ← lrd2 node; modify (set_head2 (next2 n'')) else mret tt));;
        on_nodes2 (hfree node);;
        mret (inr (Some (data2 n)))
      else if node =? last2 ((p, d) :: ps) NULL then mret (inr None) else mret (inl (next2 n))) q) Q l ms).
  { induction ps2 as [|[p2 d2] ps2 IH]; intros ps1 q e fuel Hps Hpre Hf;
      (destruct fuel as [|fuel]; [simpl in Hf; lia|]); apply wp_loop_step; apply wp_bind;
      rewrite Hps in Hr, Hlen; (eapply wp_lrd2_at; [apply (l2_hp _ _ Hr)|]); cbn [data2 next2 prev2];
      (destruct (cb e) eqn:He;
        [ eapply wp_del_found; [exact Hr|done|]; intros l' Hl'; wp_steps;
          by eapply HQ | ]);
      rewrite Hps, (tail_eq _ _ _ _ _ Hr); [rewrite bool_decide_true by done|rewrite bool_decide_false by done]; wp_steps.
    - apply HQ0. rewrite Hps, fmap_app. apply Forall_app. split; [done|]. by repeat constructor.
    - cbn [first2 app]. rewrite <-Hps in Hr, Hlen |- *.
      apply (IH (ps1 ++ [(q, e)]) p2 d2 fuel); [by rewrite <-app_assoc|rewrite fmap_app; apply Forall_app; split; [done|by repeat constructor]|simpl in Hf; lia]. }
  apply (Hgen ps [] p d); [done|constructor|simpl; lia].
Qed.

(** *** Traversals *)

Lemma lookup_ring l ps1 p d ps2 :
  l2rep_at l (ps1 ++ (p, d) :: ps2) →
  cell (nodes2 l) !! p = Some (Node2 d (last2 (ps2 ++ ps1) p) (first2 (ps2 ++ ps1) p)).
Proof.
  intros Hr. pose proof (l2_hp _ _ Hr) as Hh. rewrite ring_rotate in Hh. cbn [app] in Hh. rewrite ring_node in Hh.
  apply (hp_get _ _ Hh). left.
Qed.

Lemma wp_trav2 {Σ} l ps (cb : D → SM Σ unit) (Q : Z → Σ → mem → Prop) s ms :
  l2rep_at l ps → wp (for_each cb ps.*2) (λ _, Q 0) s ms → wp (list2_trav l cb) Q s ms.
Proof.
  intros Hr HQ. unfold list2_trav. rewrite (head2_null _ _ Hr), (l2_head _ _ Hr).
  destruct ps as [|[p d] ps]; [by rewrite bool_decide_true|]. rewrite bool_decide_false by done. cbn [first2].
  rewrite (lookup_ring l [] p d ps Hr), app_nil_r. cbn [deref]. wp_steps. cbn [prev2].
  rewrite <-(last2_cons p d ps NULL), (rep2_fuel _ _ Hr).
  assert (Hgen : ∀ ps2 ps1 q e fuel s ms, (p, d) :: ps = ps1 ++ (q, e) :: ps2 → (length ps2 < fuel)%nat →
    wp (for_each cb ((q, e) :: ps2).*2) (λ _, Q 0) s ms →
    wp (loop fuel (λ node,
      n ← deref (cell (nodes2 l) !! node);
      cb (data2 n);;
      mret (if node =? last2 ((p, d) :: ps) NULL then inr 0 else inl (next2 n))) q) Q s ms).
  { clear HQ s ms. induction ps2 as [|[p2 d2] ps2 IH]; intros ps1 q e fuel s ms Hps Hf HQ;
      (destruct fuel as [|fuel]; [simpl in Hf; lia|]); apply wp_loop_step; rewrite Hps in Hr |- *;
      rewrite (lookup_ring _ _ _ _ _ Hr); cbn [deref]; wp_steps; cbn [data2 next2]; csimpl in HQ; cbn [for_each] in HQ;
      apply wp_bind_inv in HQ; (eapply wp_mono; [exact HQ|]); intros [] s' ms' HQ'; wp_steps;
      rewrite (tail_eq _ _ _ _ _ Hr); [by rewrite bool_decide_true|rewrite bool_decide_false by done].
    cbn [first2 app]. rewrite <-Hps in Hr |- *.
    apply (IH (ps1 ++ [(q, e)]) p2 d2 fuel); [by rewrite <-app_assoc|simpl in Hf; lia|done]. }
  apply (Hgen ps [] p d); [done|simpl; lia|done].
Qed.

Lemma wp_destroy2 {Σ} l ps (dealloc : D → SM Σ unit) (Q : unit → list2_t D * Σ → mem → Prop) s ms :
  l2rep_at l ps →
  wp (for_each dealloc ps.*2) (λ _ s' ms', ∀ l', hp (nodes2 l') [] → Q tt (l', s') ms') s ms →
  wp (list2_destroy dealloc) Q (l, s) ms.
Proof.
  intros Hr HQ. unfold list2_destroy. wp_steps. cbn [fst]. rewrite (head2_null _ _ Hr), (l2_head _ _ Hr).
  pose proof (l2_hp _ _ Hr) as Hh.
  destruct ps as [|[p d] ps]; [rewrite bool_decide_true by done; wp_steps; by apply HQ|]. rewrite bool_decide_false by done.
  cbn [first2]. wp_steps. unfold on_fst at 1. apply wp_zoom. cbn [fst]. eapply head_prev2; [exact Hr|]. cbn [prev2 snd].
  rewrite (rep2_fuel _ _ Hr).
  assert (Hgen : ∀ ps2 ps1 pv q e fuel l s ms, (p, d) :: ps = ps1 ++ (q, e) :: ps2 → (length ps2 < fuel)%nat →
    hp (nodes2 l) (dseg pv ((q, e) :: ps2) p) →
    wp (for_each dealloc ((q, e) :: ps2).*2) (λ _ s' ms', ∀ l', hp (nodes2 l') [] → Q tt (l', s') ms') s ms →
    wp (loop fuel (λ curr,
      n ← on_fst (lrd2 curr);
      on_snd (dealloc (data2 n));;
      on_fst (on_nodes2 (hfree curr));;
      mret (if curr =? last2 ((p, d) :: ps) NULL then inr tt else inl (next2 n))) q) Q (l, s) ms).
  { pose proof (rep2_nodup _ _ Hr) as Hnd. clear HQ Hr Hh s ms l.
    induction ps2 as [|[p2 d2] ps2 IH]; intros ps1 pv q e fuel l s ms Hps Hf Hh HQ;
      (destruct fuel as [|fuel]; [simpl in Hf; lia|]); apply wp_loop_step; rewrite Hps in Hnd |- *;
      cbn [dseg] in Hh; wp_steps; unfold on_fst at 1; apply wp_zoom; cbn [fst snd]; (eapply wp_lrd2; [exact Hh|]);
      wp_steps; unfold on_snd; apply wp_zoom; cbn [fst snd data2]; csimpl in HQ; cbn [for_each] in HQ; apply wp_bind_inv in HQ;
      (eapply wp_mono; [exact HQ|]); intros [] s' ms' HQ'; wp_steps; unfold on_fst at 1; apply wp_zoom; cbn [fst snd];
      (eapply wp_lfree2; [exact Hh|]); intros h Hh'; wp_steps; cbn [next2]; rewrite (tail_eq_nodup _ _ _ _ Hnd);
      [rewrite bool_decide_true by done|rewrite bool_decide_false by done].
    - by apply HQ'.
    - cbn [first2]. rewrite <-Hps in Hnd |- *. apply (IH (ps1 ++ [(q, e)]) q p2 d2 fuel); [by rewrite <-app_assoc|simpl in Hf; lia|exact Hh'|done]. }
  apply (Hgen ps [] (last2 ps p) p d); [done|simpl; lia| |done].
  unfold ring_of in Hh. by rewrite last2_cons in Hh.
Qed.
End Rep.

(** * Properties *)

Inductive list2_call :=
  | L2Lpush (d : Z) | L2Rpush (d : Z) | L2Lpop | L2Rpop | L2Roll | L2Find (d : Z) | L2Del (d : Z).

(** The code of an insertion, or the datum found. *)
Definition run_list2_call (k : list2_call) : SM (list2_t Z) (Z + option Z) :=
  match k with
  | L2Lpush d => r ← list2_lpush d; mret (inl r)
  | L2Rpush d => r ← list2_rpush d; mret (inl r)
  | L2Lpop => r ← list2_lpop; mret (inr r)
  | L2Rpop => r ← list2_rpop; mret (inr r)
  | L2Roll => r ← list2_roll; mret (inr r)
  | L2Find d => r ← list2_find (λ x, x =? d); mret (inr r)
  | L2Del d => r ← list2_find_and_del (λ x, x =? d); mret (inr r)
  end.

Definition abs_list2_call (k : list2_call) (xs : list Z) : (Z + option Z) * list Z :=
  match k with
  | L2Lpush d => (inl 0, d :: xs)
  | L2Rpush d => (inl 0, xs ++ [d])
  | L2Lpop => (inr (head xs), tail xs)
  | L2Rpop => (inr (last xs), removelast xs)
  | L2Roll => (inr (head xs), tail xs ++ option_list (head xs))
  | L2Find d => (inr (if decide (d ∈ xs) then Some d else None), xs)
  | L2Del d => (inr (if decide (d ∈ xs) then Some d else None), remove_first d xs)
  end.

(** The count of the nodes is an [int]. *)
Definition list2_call_ok (k : list2_call) (xs : list Z) : Prop := Z.of_nat (length xs) < 2 ^ 31.

Lemma none_notin d (xs : list Z) : Forall (λ x, (x =? d) = false) xs → d ∉ xs.
Proof. rewrite Forall_forall. intros H Hd. specialize (H _ Hd). by rewrite Z.eqb_refl in H. Qed.

Lemma wp_list2_call k l xs :
  l2rep l xs → list2_call_ok k xs →
  wp (run_list2_call k) (λ r l' ms', ms' = [] ∧ r = (abs_list2_call k xs).1 ∧ l2rep l' (abs_list2_call k xs).2) l [].
Proof.
  intros (ps & Hr & <-) Hlen. unfold list2_call_ok in Hlen. rewrite length_fmap in Hlen.
  destruct k; cbn [run_list2_call abs_list2_call fst snd]; apply wp_bind.
  - eapply wp_lpush2; [exact Hr|]. simpl. intros l' p Hl'. wp_step. split_and!; [done..|]. by exists ((p, d) :: ps).
  - eapply wp_rpush2; [exact Hr|]. simpl. intros l' p Hl'. wp_step. split_and!; [done..|]. exists (ps ++ [(p, d)]).
    split; [done|]. by rewrite fmap_app.
  - eapply wp_lpop2; [exact Hr|]. destruct ps as [|[p d] ps]; csimpl.
    + wp_step. split_and!; [done..|]. by exists [].
    + intros l' Hl'. wp_step. split_and!; [done..|]. by exists ps.
  - eapply wp_rpop2; [exact Hr| |].
    + intros ->. wp_step. split_and!; [done..|]. by exists [].
    + intros ps' p d l' -> Hl'. wp_step. rewrite fmap_app. csimpl. rewrite last_snoc, removelast_last.
      split_and!; [done..|]. by exists ps'.
  - eapply wp_roll2; [exact Hr|]. destruct ps as [|[p d] ps]; csimpl.
    + wp_step. split_and!; [done..|]. by exists [].
    + intros l' Hl'. wp_step. split_and!; [done..|]. exists (ps ++ [(p, d)]). by rewrite fmap_app.
  - eapply wp_mono; [by apply (wp_find2 _ l ps)|]. intros r l' ms' (-> & -> & ->). wp_step.
    split_and!; [done|by rewrite first_match_eq|]. by exists ps.
  - eapply wp_find_and_del2; [exact Hr|done| |].
    + intros Hn%none_notin. wp_step. rewrite decide_False, remove_first_notin by done. split_and!; [done..|]. by exists ps.
    + intros pa p e pb l' -> Hn%none_notin He Hl'. apply Z.eqb_eq in He as ->. wp_step. rewrite fmap_app. csimpl.
      rewrite decide_True by set_solver. rewrite remove_first_app by done. split_and!; [done..|].
      exists (pa ++ pb). by rewrite fmap_app.
Qed.

(** Under any sequence of pushes, pops, rotations, searches and removals the
    circular doubly linked list behaves as the list of its data: the links of
    every node stay consistent in both directions, and the nodes of the heap are
    exactly those of the list, none leaked and none used after it is freed. *)
Theorem list2_refines l xs ks :
  l2rep l xs → ok_seq abs_list2_call list2_call_ok ks xs →
  wp (run_seq run_list2_call ks) (λ rs l' ms', ms' = [] ∧ rs = (abs_seq abs_list2_call ks xs).1 ∧
    l2rep l' (abs_seq abs_list2_call ks xs).2) l [].
Proof. intros Hr Hok. by apply (wp_run_seq_nil _ _ _ list2_call_ok wp_list2_call). Qed.

(** A list created, then used. *)
Lemma list2_refines_witness :
  wp (list2_creat (D := Z)) (λ o _ ms, ∃ l, o = Some l ∧
    wp (run_seq run_list2_call [L2Rpush 1; L2Rpush 2; L2Lpush 0; L2Roll; L2Del 1; L2Find 7; L2Rpop; L2Lpop; L2Lpop])
      (λ rs l' ms', ms' = [] ∧ rs = [inl 0; inl 0; inl 0; inr (Some 0); inr (Some 1); inr None; inr (Some 0);
         inr (Some 2); inr None] ∧ l2rep l' []) l ms) tt [].
Proof.
  eexists. split; [reflexivity|].
  apply (list2_refines (MkList2 0 NULL empty_heap) []); [|repeat split; reflexivity].
  exists []. split; [|done]. constructor; [apply hp_empty|done|done].
Defined.
