(* ===== verification/Vector.v ===== *)
(** The growing array of pointers of [lib/core/vector.c], and its reading as a
    list. *)
From S2P Require Import Prelude.
Open Scope Z_scope.

(** [arr] lists the slots of the array; [None] is the NULL of an unused slot. *)
Record vector_t (A : Type) := Vector { incr : Z; cap : Z; len : Z; arr : list (option A) }.
Arguments Vector {_} _ _ _ _.
Arguments incr {_} _.
Arguments cap {_} _.
Arguments len {_} _.
Arguments arr {_} _.

Section Ops.
Context {A : Type}.
Abbreviation VM := (SM (vector_t A)).

Definition set_len (n : Z) (v : vector_t A) : vector_t A := Vector (incr v) (cap v) n (arr v).
Definition set_cap (n : Z) (v : vector_t A) : vector_t A := Vector (incr v) n (len v) (arr v).
Definition set_arr (a : list (option A)) (v : vector_t A) : vector_t A := Vector (incr v) (cap v) (len v) a.

(** [vec->arr[i]], out of the array a crash. *)
Definition arr_get (i : Z) : VM (option A) :=
  v ← get; if decide (0 ≤ i) then deref (arr v !! Z.to_nat i) else crash.
Definition arr_set (i : Z) (x : option A) : VM unit :=
  v ← get;
  if decide (0 ≤ i < Z.of_nat (length (arr v))) then put (set_arr (<[Z.to_nat i := x]> (arr v)) v) else crash.

Definition vector_creat {Σ} (c i : Z) : SM Σ (option (vector_t A)) :=
  ok ← malloc;
  if negb ok then mret None else
  ok ← malloc;
  if negb ok then mret None else
  mret (Some (Vector i c 0 (replicate (Z.to_nat c) None))).

(** [realloc(vec->arr, n)], [n] in bytes, eight to a slot: the allocator says
    whether the memory is obtained, and then whether the block moves. *)
Definition arr_realloc (n : Z) : VM bool :=
  ok ← malloc;
  if negb ok then modify (set_arr []);; mret true else
  moved ← malloc;
  modify (λ v, set_arr (resize (Z.to_nat (n / 8)) None (arr v)) v);;
  mret moved.

Definition vector_append (addr : A) : VM Z :=
  v ← get;
  full ← (if len v =? cap v then
            moved ← arr_realloc (i32 (cap v + incr v));
            if negb moved then mret true else modify (set_cap (i32 (cap v + incr v)));; mret false
          else mret false);
  if full : bool then mret (-1) else
  arr_set (len v) (Some addr);;
  modify (λ v, set_len (i32 (len v + 1)) v);;
  mret 0.

Definition vector_get (idx : Z) : VM (option A) :=
  v ← get; if idx >=? len v then mret None else arr_get idx.

(** The loops over the slots, with their first index satisfying [find]. *)
Definition find_idx (find : option A → VM bool) : VM (option Z) :=
  v ← get;
  loop (S (Z.to_nat (len v))) (λ idx,
    if idx <? len v then
      x ← arr_get idx;
      b ← find x;
      mret (if b : bool then inr (Some idx) else inl (idx + 1))
    else mret (inr None)) 0.

(** The callback reads the object: NULL is a crash. *)
Definition find_obj (find : A → bool) (x : option A) : VM bool := a ← deref x; mret (find a).

Definition vector_find (find : A → bool) : VM (option A) :=
  i ← find_idx (find_obj find);
  match i with Some idx => arr_get idx | None => mret None end.

(** The last object takes the place of the removed one. *)
Definition del_slot (idx : Z) : VM (option A) :=
  addr ← arr_get idx;
  v ← get;
  (if negb (idx =? len v - 1) then x ← arr_get (len v - 1); arr_set idx x else mret tt);;
  arr_set (len v - 1) None;;
  modify (set_len (len v - 1));;
  mret addr.

Definition vector_find_and_del (find : A → bool) : VM (option A) :=
  i ← find_idx (find_obj find);
  match i with Some idx => del_slot idx | None => mret None end.

Definition vector_del_by_idx (idx : Z) : VM (option A) :=
  v ← get;
  if (idx <? 0) || (idx >=? len v) then mret None else del_slot idx.

Definition vector_index `{EqDecision A} (addr : A) : VM Z :=
  i ← find_idx (λ x, mret (bool_decide (x = Some addr)));
  mret (default (-1) i).

Definition vector_delete `{EqDecision A} (addr : A) : VM Z :=
  idx ← vector_index addr;
  if -1 =? idx then mret (-1) else vector_del_by_idx idx;; mret 0.

(** [for (idx=0; idx<vec->len; ++idx) dealloc(pool, vec->arr[idx]);] *)
Definition vector_destroy {Σ} (v : vector_t A) (dealloc : option A → SM Σ unit) : SM Σ unit :=
  for_each (λ idx, x ← deref (arr v !! idx); dealloc x) (seq 0 (Z.to_nat (len v))).
End Ops.

(** ** The vector as a list *)

Section Spec.
Context {A : Type}.

Record vrep (v : vector_t A) (l : list A) : Prop := {
  vr_len : len v = Z.of_nat (length l);
  vr_cap : cap v = Z.of_nat (length (arr v)) ∧ cap v < 2 ^ 31;
  vr_arr : ∃ n, arr v = (Some <$> l) ++ replicate n None;
}.

(** The list without its element [i], which the last one replaces. *)
Definition swap_remove (i : nat) (l : list A) : list A :=
  match last l with
  | Some x => if decide (i = length l - 1)%nat then removelast l else <[i := x]> (removelast l)
  | None => l
  end.

Lemma length_swap_remove i l : length (swap_remove i l) = pred (length l).
Proof.
  destruct l as [|x l _] using rev_ind; [done|]. unfold swap_remove.
  rewrite last_snoc, removelast_last, length_app. case_decide; rewrite ?length_insert; simpl; lia.
Qed.

Lemma vrep_arr v l i : vrep v l → (i < length l)%nat → arr v !! i = Some <$> (l !! i).
Proof.
  intros [_ _ [n Hn]] Hi. rewrite Hn, lookup_app_l by (by rewrite length_fmap). by rewrite list_lookup_fmap.
Qed.

Lemma wp_arr_get v i x (Q : option A → vector_t A → mem → Prop) ms :
  arr v !! i = Some x → Q x v ms → wp (arr_get (Z.of_nat i)) Q v ms.
Proof. intros Hi HQ. unfold arr_get. wp_steps. rewrite decide_True, Nat2Z.id, Hi by lia. done. Qed.

Lemma wp_arr_set v i x (Q : unit → vector_t A → mem → Prop) ms :
  (i < length (arr v))%nat → Q tt (set_arr (<[i := x]> (arr v)) v) ms → wp (arr_set (Z.of_nat i) x) Q v ms.
Proof. intros Hi HQ. unfold arr_set. wp_steps. rewrite decide_True, Nat2Z.id by lia. done. Qed.

Lemma wp_vector_creat {Σ} c i (Q : option (vector_t A) → Σ → mem → Prop) s :
  0 ≤ c < 2 ^ 31 → (∀ v, vrep v [] → cap v = c → incr v = i → Q (Some v) s []) → wp (vector_creat c i) Q s [].
Proof.
  intros Hc HQ. unfold vector_creat. 
  do 2 (apply wp_bind, wp_malloc_nil; cbn [negb]). wp_steps.
  apply HQ; [|done|done]. constructor; simpl; [done| |by exists (Z.to_nat c)]. rewrite length_replicate. lia.
Qed.

Lemma wp_vector_append v l x (Q : Z → vector_t A → mem → Prop) ms :
  vrep v l → Z.of_nat (length l) < cap v →
  (∀ v', vrep v' (l ++ [x]) → cap v' = cap v → incr v' = incr v → Q 0 v' ms) → wp (vector_append x) Q v ms.
Proof.
  intros [Hl [Hc Hc'] [n Hn]] Hroom HQ. unfold vector_append. wp_steps. rewrite Hl.
  rewrite (proj2 (Z.eqb_neq _ _)) by lia. wp_steps.
  destruct n as [|n].
  { exfalso. rewrite Hn, length_app, length_fmap in Hc. simpl in Hc. lia. }
  apply wp_arr_set; [lia|]. wp_steps. apply HQ; [|done|done]. constructor; simpl.
  - rewrite Hl, length_app, i32_small by lia. simpl. lia.
  - by rewrite length_insert.
  - exists n. rewrite Hn, fmap_app, <-app_assoc. simpl. rewrite insert_app_r_alt by (by rewrite length_fmap).
    by rewrite length_fmap, Nat.sub_diag.
Qed.

(** The first element satisfying [P] and its index. *)
Fixpoint list_index (P : A → bool) (l : list A) : option nat :=
  match l with
  | [] => None
  | x :: l => if P x then Some O else S <$> list_index P l
  end.

Lemma list_index_lt P l i : list_index P l = Some i → (i < length l)%nat.
Proof.
  revert i. induction l as [|x l IH]; intros i; simpl; [done|]. destruct (P x); [intros [= <-]; lia|].
  destruct (list_index P l) as [j|]; [|done]. intros [= <-]. specialize (IH j eq_refl). lia.
Qed.

Lemma wp_find_idx v l (P : A → bool) (find : option A → SM (vector_t A) bool) (Q : option Z → vector_t A → mem → Prop) ms :
  vrep v l → (∀ x R, R (P x) v ms → wp (find (Some x)) R v ms) →
  Q (Z.of_nat <$> list_index P l) v ms → wp (find_idx find) Q v ms.
Proof.
  intros Hv Hf HQ. unfold find_idx. wp_steps. pose proof (vr_len _ _ Hv) as Hl. rewrite Hl, Nat2Z.id.
  assert (∀ n i l', drop i l = l' → (length l' < n)%nat → (i ≤ length l)%nat →
    Q ((λ j, Z.of_nat (i + j)) <$> list_index P l') v ms →
    wp (loop n (λ idx, if idx <? Z.of_nat (length l) then
      x ← arr_get idx; b ← find x; mret (if b : bool then inr (Some idx) else inl (idx + 1))
      else mret (inr None)) (Z.of_nat i)) Q v ms) as Hloop.
  { intros n. induction n as [|n IH]; intros i l' Hd Hn Hi HQ'; [lia|]. apply wp_loop_step. destruct l' as [|x l'].
    - apply (f_equal length) in Hd. rewrite length_drop in Hd. simpl in Hd.
      rewrite (proj2 (Z.ltb_ge _ _)) by lia. by wp_steps.
    - assert (l !! i = Some x) as Hx by (by rewrite <-(Nat.add_0_r i), <-lookup_drop, Hd).
      pose proof (lookup_lt_Some _ _ _ Hx). rewrite (proj2 (Z.ltb_lt _ _)) by lia.
      apply wp_bind. eapply wp_arr_get; [rewrite (vrep_arr _ _ _ Hv), Hx by done; done|].
      apply wp_bind. apply Hf. wp_steps. cbn [list_index] in HQ'. destruct (P x).
      + simpl in HQ'. by rewrite Nat.add_0_r in HQ'.
      + replace (Z.of_nat i + 1) with (Z.of_nat (S i)) by lia. apply (IH _ l'); [|simpl in Hn; lia|lia|].
        * rewrite <-Nat.add_1_r, <-drop_drop, Hd. done.
        * destruct (list_index P l') as [j|]; simpl in HQ' |- *; [|done]. by rewrite Nat.add_succ_r in HQ'. }
  apply (Hloop _ O l); [done|lia|lia|]. exact HQ.
Qed.

Lemma wp_find_obj v P x (R : bool → vector_t A → mem → Prop) ms :
  R (P x) v ms → wp (find_obj P (Some x)) R v ms.
Proof. done. Qed.

Lemma wp_vector_find v l P (Q : option A → vector_t A → mem → Prop) ms :
  vrep v l → Q (list_index P l ≫= (l !!.)) v ms → wp (vector_find P) Q v ms.
Proof.
  intros Hv HQ. unfold vector_find. apply wp_bind. eapply (wp_find_idx v l P); [done|intros; by apply wp_find_obj|].
  destruct (list_index P l) as [i|] eqn:Hi; simpl in *; [|done]. pose proof (list_index_lt _ _ _ Hi) as Hlt.
  destruct (lookup_lt_is_Some_2 l i Hlt) as [x Hx]. rewrite Hx in HQ.
  eapply wp_arr_get; [by rewrite (vrep_arr _ _ _ Hv), Hx|done].
Qed.

Lemma wp_del_slot v l i x (Q : option A → vector_t A → mem → Prop) ms :
  vrep v l → l !! i = Some x →
  (∀ v', vrep v' (swap_remove i l) → cap v' = cap v → incr v' = incr v → Q (Some x) v' ms) →
  wp (del_slot (Z.of_nat i)) Q v ms.
Proof.
  intros Hv Hx HQ. pose proof (lookup_lt_Some _ _ _ Hx) as Hi. pose proof Hv as [Hl [Hc Hc'] [n Hn]].
  destruct l as [|y l' _] using rev_ind; [done|]. rewrite length_app in *. simpl in Hi, Hl.
  unfold del_slot. apply wp_bind. eapply wp_arr_get; [by rewrite (vrep_arr _ _ _ Hv), Hx by (rewrite length_app; simpl; lia)|].
  apply wp_bind. unfold get at 1, wp at 1. replace (len v - 1) with (Z.of_nat (length l')) by lia.
  unfold swap_remove in HQ. rewrite last_snoc, removelast_last, length_app in HQ. cbn [length] in HQ.
  replace (length l' + 1 - 1)%nat with (length l') in HQ by lia.
  assert (length (arr v) = length l' + 1 + n)%nat as Hla.
  { rewrite Hn, length_app, length_fmap, length_app, length_replicate. done. }
  apply wp_bind. destruct (Z.eqb_spec (Z.of_nat i) (Z.of_nat (length l'))) as [Heq|Hne]; cbn [negb].
  - wp_steps. apply Nat2Z.inj in Heq. subst i. apply wp_arr_set; [lia|]. wp_steps. rewrite lookup_app_r in Hx by done.
    apply HQ; [|done|done]. rewrite decide_True by done. constructor; simpl; [done|by rewrite length_insert|].
    exists (S n). rewrite Hn, fmap_app, <-app_assoc, insert_app_r_alt by (by rewrite length_fmap). by rewrite length_fmap, Nat.sub_diag.
  - wp_steps. eapply wp_arr_get; [rewrite (vrep_arr _ _ _ Hv) by (rewrite length_app; simpl; lia); by rewrite lookup_app_r, Nat.sub_diag|].
    apply wp_arr_set; [lia|]. wp_steps. apply wp_arr_set; [simpl; rewrite length_insert; lia|]. wp_steps.
    apply HQ; [|done|done]. rewrite decide_False by lia. constructor; simpl; [by rewrite length_insert|by rewrite !length_insert|].
    exists (S n). rewrite Hn, fmap_app, <-app_assoc. assert (i < length l')%nat by lia.
    rewrite insert_app_l by (by rewrite length_fmap). rewrite insert_app_r_alt by (by rewrite length_insert, length_fmap).
    rewrite length_insert, length_fmap, Nat.sub_diag. by rewrite list_fmap_insert.
Qed.

Lemma wp_vector_find_and_del v l P (Q : option A → vector_t A → mem → Prop) ms :
  vrep v l →
  (∀ v', vrep v' (if list_index P l is Some i then swap_remove i l else l) → cap v' = cap v → incr v' = incr v →
     Q (list_index P l ≫= (l !!.)) v' ms) →
  wp (vector_find_and_del P) Q v ms.
Proof.
  intros Hv HQ. unfold vector_find_and_del. apply wp_bind. eapply (wp_find_idx v l P); [done|intros; by apply wp_find_obj|].
  destruct (list_index P l) as [i|] eqn:Hi; simpl in *; [|by apply HQ]. pose proof (list_index_lt _ _ _ Hi) as Hlt.
  destruct (lookup_lt_is_Some_2 l i Hlt) as [x Hx]. rewrite Hx in HQ. by eapply wp_del_slot.
Qed.
End Spec.

(** * Properties *)

Inductive vec_call := VAppend (x : Z) | VGet (i : Z) | VFind (x : Z) | VTake (x : Z).

Definition run_vec_call (k : vec_call) : SM (vector_t Z) (option Z) :=
  match k with
  | VAppend x => r ← vector_append x; mret (Some r)
  | VGet i => vector_get i
  | VFind x => vector_find (λ y, y =? x)
  | VTake x => vector_find_and_del (λ y, y =? x)
  end.

Definition abs_vec_call (k : vec_call) (l : list Z) : option Z * list Z :=
  match k with
  | VAppend x => (Some 0, l ++ [x])
  | VGet i => (l !! Z.to_nat i, l)
  | VFind x => (list_index (λ y, y =? x) l ≫= (l !!.), l)
  | VTake x => (list_index (λ y, y =? x) l ≫= (l !!.), if list_index (λ y, y =? x) l is Some i then swap_remove i l else l)
  end.

(** The vector does not grow beyond the capacity [c] it is created with. *)
Definition vec_call_ok (c : Z) (k : vec_call) (l : list Z) : Prop :=
  match k with VAppend _ => Z.of_nat (length l) < c | VGet i => 0 ≤ i | _ => True end.

Lemma wp_vec_call c k v l : vrep v l ∧ cap v = c → vec_call_ok c k l →
  wp (run_vec_call k) (λ r v' ms', ms' = [] ∧ r = (abs_vec_call k l).1 ∧ vrep v' (abs_vec_call k l).2 ∧ cap v' = c) v [].
Proof.
  intros [Hv Hc] Hok. destruct k; cbn [run_vec_call abs_vec_call vec_call_ok fst snd] in *.
  - apply wp_bind. eapply wp_vector_append; [exact Hv|lia|]. intros v' Hv' Hc' _. apply wp_ret. split_and!; [done|done|done|lia].
  - unfold vector_get. wp_steps. pose proof (vr_len _ _ Hv) as Hl. rewrite Hl.
    destruct (Z.geb_spec i (Z.of_nat (length l))).
    + wp_steps. by rewrite lookup_ge_None_2 by lia.
    + destruct (lookup_lt_is_Some_2 l (Z.to_nat i)) as [x Hx]; [lia|]. rewrite <-(Z2Nat.id i) by done.
      eapply wp_arr_get; [by rewrite (vrep_arr _ _ _ Hv), Hx by lia|]. by rewrite Z2Nat.id, Hx.
  - eapply wp_vector_find; [exact Hv|]. done.
  - eapply wp_vector_find_and_del; [exact Hv|]. intros v' Hv' Hc' _. split_and!; [done|done|done|lia].
Qed.

(** Within its first capacity the vector is the list of its objects, a
    removed object being replaced by the last one. *)
Theorem vector_refines c v l ks : vrep v l → cap v = c → ok_seq abs_vec_call (vec_call_ok c) ks l →
  wp (run_seq run_vec_call ks) (λ rs v' ms', ms' = [] ∧ rs = (abs_seq abs_vec_call ks l).1 ∧
    vrep v' (abs_seq abs_vec_call ks l).2 ∧ cap v' = c) v [].
Proof.
  intros Hv Hc Hok.
  apply (wp_run_seq_nil run_vec_call abs_vec_call (λ v l, vrep v l ∧ cap v = c) (vec_call_ok c)); [|done|done].
  intros k v' l'. apply wp_vec_call.
Qed.

(** C40: a full vector does not grow: [vector_append] asks [realloc] for
    [cap + incr] bytes instead of as many slots, so that it writes beyond the
    memory obtained when the block moves, and returns -1, the objects behind the
    new end being lost, when it does not. *)
Theorem vector_append_full {A} (v : vector_t A) l x :
  vrep v l → Z.of_nat (length l) = cap v → 0 < incr v → cap v + incr v < 2 ^ 31 → (cap v + incr v) / 8 ≤ cap v →
  vector_append x v [] = Crash ∧
  ∃ v', vector_append x v [true; false] = Ok (-1, v', []) ∧ Z.of_nat (length (arr v')) = (cap v + incr v) / 8.
Proof.
  intros [Hl [Hc Hc'] _] Hfull Hi Hb Hg. unfold vector_append, arr_realloc, arr_set, mbind, SM_bind, get, malloc, modify, mret, SM_ret.
  cbn -[Z.eqb i32 resize]. rewrite Hl, Hfull, Z.eqb_refl. rewrite i32_small by lia. cbn -[resize].
  assert (0 ≤ (cap v + incr v) / 8) as Hpos by (apply Z.div_pos; lia).
  rewrite decide_False by (rewrite length_resize; lia). split; [done|]. eexists. split; [reflexivity|].
  cbn -[resize]. rewrite length_resize. lia.
Qed.

Lemma vector_refines_witness :
  wp (vector_creat (A := Z) 4 4) (λ o _ ms, ∃ v, o = Some v ∧
    wp (run_seq run_vec_call [VAppend 5; VAppend 6; VAppend 7; VGet 1; VGet 9; VTake 5; VFind 5; VGet 0])
      (λ rs v' ms', rs = [Some 0; Some 0; Some 0; Some 6; None; Some 5; None; Some 7] ∧ vrep v' [7; 6]) v ms) tt [].
Proof.
  apply wp_vector_creat; [lia|]. intros v Hv Hc _. exists v. split; [done|].
  eapply wp_mono; [apply (vector_refines 4 v [] _ Hv Hc)|].
  - cbn. lia.
  - by intros rs v' ms' (_ & -> & ? & _).
Defined.

Lemma vector_append_full_witness :
  vector_append 3 (Vector 2 2 2 [Some 1; Some 2]) [] = Crash.
Proof.
  apply (vector_append_full (Vector 2 2 2 [Some 1; Some 2]) [1; 2] 3); try done. constructor; simpl; [done|done|by exists O].
Defined.
