(* ===== verification/Chat.v ===== *)
(** The chat-room tables of [lib/chat/chat_tab.c] and [lib/chat/chat.c]: rooms,
    their groups and the members of each, sessions with the rooms they joined and
    the commands they subscribed to, and the map from session to connection.  The
    tables are hash tables nested by value; a pointer that a query returned is
    followed with [with_data].  This file holds the data and the operations. *)
From stdpp Require Import fin_maps gmap.
From S2P Require Import Prelude Heap Table HashTab List.
Open Scope Z_scope.

(** ** Data *)

Record chat_sub_item_t := SubItem { cmd : Z }.
Record chat_room_item_t := RoomItem { ri_rid : Z; ri_gid : Z }.
Record chat_sid2cid_item_t := CidItem { it_sid : Z; it_cid : Z }.

Record chat_session_t (T : Type → Type) := Session {
  s_sid : Z; s_cid : Z;
  s_room : hash_tab_t T chat_room_item_t;
  s_sub : hash_tab_t T chat_sub_item_t }.
Arguments Session {_} _ _ _ _.
Arguments s_sid {_} _.
Arguments s_cid {_} _.
Arguments s_room {_} _.
Arguments s_sub {_} _.

(** [gid] is a [uint16_t]: the 32-bit group numbers of the interface are cut. *)
Record chat_group_t (T : Type → Type) := Group {
  g_gid : Z; g_sid_num : Z; sid_set : hash_tab_t T chat_sid2cid_item_t }.
Arguments Group {_} _ _ _.
Arguments g_gid {_} _.
Arguments g_sid_num {_} _.
Arguments sid_set {_} _.

Record chat_room_t (T : Type → Type) := Room {
  r_rid : Z; r_sid_num : Z; grp_num : Z; create_tm : Z;
  groups : hash_tab_t T (chat_group_t T) }.
Arguments Room {_} _ _ _ _ _.
Arguments r_rid {_} _.
Arguments r_sid_num {_} _.
Arguments grp_num {_} _.
Arguments create_tm {_} _.
Arguments groups {_} _.

Record chat_tab_t (T : Type → Type) := ChatTab {
  rooms : hash_tab_t T (chat_room_t T);
  sessions : hash_tab_t T (chat_session_t T);
  sid2cids : hash_tab_t T chat_sid2cid_item_t }.
Arguments ChatTab {_} _ _ _.
Arguments rooms {_} _.
Arguments sessions {_} _.
Arguments sid2cids {_} _.

Definition CHAT_GROUP_SLOT_LEN : Z := 99.
Definition CHAT_SID_SLOT_LEN : Z := 999.
Definition CHAT_SUB_SLOT_LEN : Z := 5.
Definition CHAT_SESSION_SLOT_LEN : Z := 5.

(** ** Hash and comparison callbacks *)

Section Callbacks.
Context {T : Type → Type}.

(** chat.c *)
Definition chat_room_hash_cb (r : chat_room_t T) : Z := r_rid r.
Definition chat_room_cmp_cb (r1 r2 : chat_room_t T) : Z := cmp_u64 (r_rid r1) (r_rid r2).
Definition chat_session_hash_cb (s : chat_session_t T) : Z := s_sid s.
Definition chat_session_cmp_cb (s1 s2 : chat_session_t T) : Z :=
  let diff := cmp_u64 (s_sid s1) (s_sid s2) in
  if diff =? 0 then cmp_u64 (s_cid s1) (s_cid s2) else diff.
Definition chat_sid2cid_hash_cb (i : chat_sid2cid_item_t) : Z := it_sid i.
Definition chat_sid2cid_cmp_cb (i1 i2 : chat_sid2cid_item_t) : Z := cmp_u64 (it_sid i1) (it_sid i2).

(** chat_tab.c; the 16-bit keys are promoted to [int]. *)
Definition chat_group_hash_cb (g : chat_group_t T) : Z := g_gid g.
Definition chat_group_cmp_cb (g1 g2 : chat_group_t T) : Z := g_gid g1 - g_gid g2.
Definition chat_sid_hash_cb (i : chat_sid2cid_item_t) : Z := it_sid i.
Definition chat_sid_cmp_cb (i1 i2 : chat_sid2cid_item_t) : Z :=
  let diff := cmp_u64 (it_sid i1) (it_sid i2) in
  if negb (diff =? 0) then diff else cmp_u64 (it_cid i1) (it_cid i2).
(** The table of the rooms of a session is hashed by the callback written for the
    subscriptions, which reads the 16-bit [cmd] at the offset of [rid]. *)
Definition room_item_hash_cb (i : chat_room_item_t) : Z := u16 (ri_rid i).
Definition room_item_cmp_cb (i1 i2 : chat_room_item_t) : Z := cmp_u64 (ri_rid i1) (ri_rid i2).
Definition chat_sub_hash_cb (i : chat_sub_item_t) : Z := cmd i.
Definition chat_sub_cmp_cb (i1 i2 : chat_sub_item_t) : Z := cmd i1 - cmd i2.
End Callbacks.

(** ** Access *)

Section Access.
Context {T : Type → Type} `{TreeOps T}.
Abbreviation chat_tab_t := (chat_tab_t T).
Abbreviation chat_room_t := (chat_room_t T).
Abbreviation chat_group_t := (chat_group_t T).
Abbreviation chat_session_t := (chat_session_t T).

Definition set_rooms h (c : chat_tab_t) : chat_tab_t := ChatTab h (sessions c) (sid2cids c).
Definition set_sessions h (c : chat_tab_t) : chat_tab_t := ChatTab (rooms c) h (sid2cids c).
Definition set_sid2cids h (c : chat_tab_t) : chat_tab_t := ChatTab (rooms c) (sessions c) h.
Definition set_groups h (r : chat_room_t) : chat_room_t :=
  Room (r_rid r) (r_sid_num r) (grp_num r) (create_tm r) h.
Definition set_r_sid_num n (r : chat_room_t) : chat_room_t :=
  Room (r_rid r) n (grp_num r) (create_tm r) (groups r).
Definition set_grp_num n (r : chat_room_t) : chat_room_t :=
  Room (r_rid r) (r_sid_num r) n (create_tm r) (groups r).
Definition set_g_sid_num n (g : chat_group_t) : chat_group_t := Group (g_gid g) n (sid_set g).
Definition set_sid_set h (g : chat_group_t) : chat_group_t := Group (g_gid g) (g_sid_num g) h.
Definition set_s_room h (s : chat_session_t) : chat_session_t := Session (s_sid s) (s_cid s) h (s_sub s).
Definition set_s_sub h (s : chat_session_t) : chat_session_t := Session (s_sid s) (s_cid s) (s_room s) h.

Definition on_rooms {A} : SM _ A → SM chat_tab_t A := zoom rooms set_rooms.
Definition on_sessions {A} : SM _ A → SM chat_tab_t A := zoom sessions set_sessions.
Definition on_sid2cids {A} : SM _ A → SM chat_tab_t A := zoom sid2cids set_sid2cids.
Definition on_groups {A} : SM _ A → SM chat_room_t A := zoom groups set_groups.

(** A local object next to the state: its last value is returned. *)
Definition with_local {Σ V A} (v : V) (m : SM (V * Σ) A) : SM Σ (A * V) := λ s ms,
  match m (v, s) ms with
  | Ok (a, (v', s'), ms') => Ok ((a, v'), s', ms')
  | Blocked => Blocked
  | Crash => Crash
  | NoFuel => NoFuel
  end.

(** Keys: only the fields the callbacks read are set. *)
Definition no_tab {D} : hash_tab_t T D := HashTab 0 0 [] [].
Definition room_key (rid : Z) : chat_room_t := Room rid 0 0 0 no_tab.
Definition group_key (gid : Z) : chat_group_t := Group (u16 gid) 0 no_tab.
Definition session_key (sid cid : Z) : chat_session_t := Session sid cid no_tab no_tab.

(** [free], [mem_dealloc] on plain data; [mem_dummy_dealloc]. *)
Definition mem_dealloc {Σ D} (d : D) : SM Σ unit := mret tt.
End Access.

(** ** chat_tab.c *)

Section ChatTab.
Context {T : Type → Type} `{TreeOps T}.
Abbreviation chat_tab_t := (chat_tab_t T).
Abbreviation chat_room_t := (chat_room_t T).
Abbreviation chat_group_t := (chat_group_t T).
Abbreviation chat_session_t := (chat_session_t T).
(** The time of the call. *)
Context (now : Z).

(** *** Groups of a room *)

Definition query_group (gid : Z) (lk : lock_e) : SM chat_room_t (option chat_group_t) :=
  on_groups (hash_tab_query chat_group_hash_cb chat_group_cmp_cb (group_key gid) lk).
Definition unlock_group (gid : Z) (lk : lock_e) : SM chat_room_t unit :=
  on_groups (hash_tab_unlock chat_group_hash_cb (group_key gid) lk).
(** Through the pointer to the group [gid]. *)
Definition with_group {A Σ} (gid : Z) : SM (chat_group_t * (chat_room_t * Σ)) A → SM (chat_room_t * Σ) A :=
  with_data (λ s, groups s.1) (λ h s, (set_groups h s.1, s.2))
    chat_group_hash_cb chat_group_cmp_cb (group_key gid).

Definition _chat_group_add_session {Σ} (sid cid : Z) : SM (chat_group_t * (chat_room_t * Σ)) Z :=
  ok ← malloc;
  if negb ok then mret (-1) else
  ret ← on_fst (zoom sid_set set_sid_set
          (hash_tab_insert chat_sid_hash_cb chat_sid_cmp_cb (CidItem sid cid) WRLOCK));
  if negb (ret =? TREE_OK) then mret (if ret =? TREE_NODE_EXIST then 0 else -1) else
  on_fst (modify (λ g, set_g_sid_num (u64 (g_sid_num g + 1)) g));;
  on_snd (on_fst (modify (λ r, set_r_sid_num (u64 (r_sid_num r + 1)) r)));;
  mret 0.

Definition _chat_group_del_session {Σ} (sid cid : Z) : SM (chat_group_t * (chat_room_t * Σ)) Z :=
  item ← on_fst (zoom sid_set set_sid_set
           (hash_tab_delete chat_sid_hash_cb chat_sid_cmp_cb (CidItem sid cid) WRLOCK));
  match item with
  | None => mret 0
  | Some _ =>
      on_fst (modify (λ g, set_g_sid_num (u64 (g_sid_num g - 1)) g));;
      on_snd (on_fst (modify (λ r, set_r_sid_num (u64 (r_sid_num r - 1)) r)));;
      mret 0
  end.

Definition chat_group_destroy {Σ} (grp : chat_group_t) : SM Σ unit :=
  run_on grp (hash_tab_destroy sid_set set_sid_set mem_dealloc);; mret tt.

Definition chat_group_add_by_gid (gid : Z) : SM chat_room_t Z :=
  ok ← malloc;
  if negb ok then mret (-1) else
  set ← hash_tab_creat CHAT_SID_SLOT_LEN;
  match set with
  | None => mret (-1)
  | Some set =>
      ret ← on_groups (hash_tab_insert chat_group_hash_cb chat_group_cmp_cb (Group (u16 gid) 0 set) WRLOCK);
      if negb (ret =? 0) then
        run_on set (hash_tab_destroy (λ h, h) (λ h _, h) mem_dealloc);;
        mret (-1)
      else
        modify (λ r, set_grp_num (u32 (grp_num r + 1)) r);;
        mret 0
  end.

(** The group is created when it is missing, however often that takes. *)
Definition chat_group_add_session {Σ} (gid sid cid : Z) : SM (chat_room_t * Σ) Z :=
  retry (
    grp ← on_fst (query_group gid RDLOCK);
    match grp with
    | None => on_fst (chat_group_add_by_gid gid);; mret (inl tt)
    | Some _ =>
        ret ← with_group gid (_chat_group_add_session sid cid);
        on_fst (unlock_group gid RDLOCK);;
        mret (inr ret)
    end).

Definition chat_group_del_session {Σ} (gid sid cid : Z) : SM (chat_room_t * Σ) Z :=
  grp ← on_fst (query_group gid RDLOCK);
  match grp with
  | None => mret (-1)
  | Some _ =>
      with_group gid (_chat_group_del_session sid cid);;
      on_fst (unlock_group gid RDLOCK);;
      mret 0
  end.

(** [grp] is a group of the room, as it is there. *)
Definition chat_del_group (grp : chat_group_t) : SM chat_room_t Z :=
  if negb (g_sid_num grp =? 0) then mret 0 else
  item ← on_groups (hash_tab_delete chat_group_hash_cb chat_group_cmp_cb (group_key (g_gid grp)) WRLOCK);
  match item with
  | None => crash
  | Some item =>
      cassert (g_gid grp =? g_gid item);;
      chat_group_destroy grp;;
      modify (λ r, set_grp_num (u32 (grp_num r - 1)) r);;
      mret 0
  end.

(** *** Rooms *)

Definition query_room (rid : Z) (lk : lock_e) : SM chat_tab_t (option chat_room_t) :=
  on_rooms (hash_tab_query chat_room_hash_cb chat_room_cmp_cb (room_key rid) lk).
Definition unlock_room (rid : Z) (lk : lock_e) : SM chat_tab_t unit :=
  on_rooms (hash_tab_unlock chat_room_hash_cb (room_key rid) lk).
Definition with_room {A} (rid : Z) : SM (chat_room_t * chat_tab_t) A → SM chat_tab_t A :=
  with_data rooms set_rooms chat_room_hash_cb chat_room_cmp_cb (room_key rid).

Definition chat_add_room (rid : Z) : SM chat_tab_t Z :=
  ok ← malloc;
  if negb ok then mret (-1) else
  grps ← hash_tab_creat CHAT_GROUP_SLOT_LEN;
  match grps with
  | None => mret (-1)
  | Some grps =>
      ret ← on_rooms (hash_tab_insert chat_room_hash_cb chat_room_cmp_cb (Room rid 0 0 now grps) WRLOCK);
      if negb (ret =? 0) then
        run_on grps (hash_tab_destroy (λ h, h) (λ h _, h) mem_dealloc);;
        mret (-1)
      else mret 0
  end.

Definition chat_room_destroy {Σ} (room : chat_room_t) : SM Σ Z :=
  run_on (set_r_sid_num 0 (set_grp_num 0 room))
    (hash_tab_destroy groups set_groups chat_group_destroy);;
  mret 0.

Definition chat_del_room (rid : Z) : SM chat_tab_t Z :=
  room ← query_room rid WRLOCK;
  match room with
  | None => mret 0
  | Some room =>
      if negb (r_sid_num room =? 0) then unlock_room rid WRLOCK;; mret 0
      else
        on_rooms (hash_tab_delete chat_room_hash_cb chat_room_cmp_cb (room_key rid) NONLOCK);;
        unlock_room rid WRLOCK;;
        chat_room_destroy room
  end.

Definition _chat_room_add_session (rid gid sid cid : Z) : SM chat_tab_t Z :=
  retry (
    room ← query_room rid RDLOCK;
    match room with
    | None => chat_add_room rid;; mret (inl tt)
    | Some _ =>
        ret ← with_room rid (chat_group_add_session gid sid cid);
        unlock_room rid RDLOCK;;
        mret (inr ret)
    end).

Definition _chat_room_del_session (rid gid sid cid : Z) : SM chat_tab_t Z :=
  room ← query_room rid RDLOCK;
  match room with
  | None => mret 0
  | Some _ =>
      with_room rid (chat_group_del_session gid sid cid);;
      unlock_room rid RDLOCK;;
      mret 0
  end.

(** *** Sessions *)

Definition query_session (sid cid : Z) (lk : lock_e) : SM chat_tab_t (option chat_session_t) :=
  on_sessions (hash_tab_query chat_session_hash_cb chat_session_cmp_cb (session_key sid cid) lk).
Definition unlock_session (sid cid : Z) (lk : lock_e) : SM chat_tab_t unit :=
  on_sessions (hash_tab_unlock chat_session_hash_cb (session_key sid cid) lk).
Definition with_session {A} (sid cid : Z) (m : SM chat_session_t A) : SM chat_tab_t A :=
  with_data sessions set_sessions chat_session_hash_cb chat_session_cmp_cb (session_key sid cid) (on_fst m).

Definition session_destroy {Σ} (s : chat_session_t) : SM Σ unit :=
  run_on s (hash_tab_destroy s_room set_s_room mem_dealloc;;
            hash_tab_destroy s_sub set_s_sub mem_dealloc);; mret tt.

(** The check after the allocation of the room item tests [session] again: a
    failure is a write through NULL. *)
Definition chat_session_tab_add (rid gid sid cid : Z) : SM chat_tab_t Z :=
  ok ← malloc;
  if negb ok then mret (-1) else
  ok ← malloc;
  if negb ok then crash else
  room ← hash_tab_creat CHAT_SESSION_SLOT_LEN;
  match room with
  | None => mret (-1)
  | Some room =>
      '(_, room) ← run_on room (hash_tab_insert room_item_hash_cb room_item_cmp_cb (RoomItem rid gid) WRLOCK);
      sub ← hash_tab_creat CHAT_SUB_SLOT_LEN;
      match sub with
      | None =>
          run_on room (hash_tab_destroy (λ h, h) (λ h _, h) mem_dealloc);; mret (-1)
      | Some sub =>
          let session := Session sid cid room sub in
          ret ← on_sessions (hash_tab_insert chat_session_hash_cb chat_session_cmp_cb session WRLOCK);
          if negb (ret =? 0) then session_destroy session;; mret (-1) else mret 0
      end
  end.

(** *** Traversals: the callback runs on the tables and a state of the caller *)

Definition _chat_room_trav_all_group {Σ} (proc : chat_sid2cid_item_t → SM Σ unit) (grp : chat_group_t) :
    SM (chat_room_t * Σ) unit :=
  with_group (g_gid grp)
    (hash_tab_trav (λ s, sid_set s.1) (λ h s, (set_sid_set h s.1, s.2)) (λ i, on_snd (on_snd (proc i))) RDLOCK).

Definition chat_room_trav_all_group {Σ} (proc : chat_sid2cid_item_t → SM Σ unit) (lk : lock_e) :
    SM (chat_room_t * Σ) unit :=
  hash_tab_trav (λ s, groups s.1) (λ h s, (set_groups h s.1, s.2)) (_chat_room_trav_all_group proc) lk.

(** The group 0 stands for all. *)
Definition chat_group_trav {Σ} (gid : Z) (proc : chat_sid2cid_item_t → SM Σ unit) : SM (chat_room_t * Σ) Z :=
  if u16 gid =? 0 then chat_room_trav_all_group proc RDLOCK;; mret 0 else
  grp ← on_fst (query_group gid RDLOCK);
  match grp with
  | None => mret 0
  | Some _ =>
      with_group gid
        (hash_tab_trav (λ s, sid_set s.1) (λ h s, (set_sid_set h s.1, s.2)) (λ i, on_snd (on_snd (proc i))) RDLOCK);;
      on_fst (unlock_group gid RDLOCK);;
      mret 0
  end.
End ChatTab.

(** ** chat.c *)

Section Chat.
Context {T : Type → Type} `{TreeOps T}.
Abbreviation chat_tab_t := (chat_tab_t T).
Abbreviation chat_room_t := (chat_room_t T).
Abbreviation chat_group_t := (chat_group_t T).
Abbreviation chat_session_t := (chat_session_t T).
Context (now : Z).

(** On failure the tables created so far are destroyed, and so are those that
    are still NULL. *)
Definition chat_tab_init {Σ} (len : Z) : SM Σ (option chat_tab_t) :=
  ok ← malloc;
  if negb ok then mret None else
  rms ← hash_tab_creat len;
  match rms with
  | None => crash
  | Some rms =>
      ses ← hash_tab_creat len;
      match ses with
      | None => crash
      | Some ses =>
          cids ← hash_tab_creat len;
          match cids with
          | None => crash
          | Some cids => mret (Some (ChatTab rms ses cids))
          end
      end
  end.

(** The part of [chat_room_add_session] for a session that exists, from the label
    QUERY on; only the session's own list of rooms is updated. *)
Definition session_add_room (rid gid sid cid : Z) : SM chat_tab_t Z :=
  retry (
    let rkey := RoomItem rid 0 in
    room ← with_session sid cid (zoom s_room set_s_room
             (hash_tab_query room_item_hash_cb room_item_cmp_cb rkey RDLOCK));
    match room with
    | Some room =>
        with_session sid cid (zoom s_room set_s_room (hash_tab_unlock room_item_hash_cb rkey RDLOCK));;
        unlock_session sid cid RDLOCK;;
        mret (inr (ri_gid room))
    | None =>
        ok ← malloc;
        if negb ok then unlock_session sid cid RDLOCK;; mret (inr (u32 (-1))) else
        ret ← with_session sid cid (zoom s_room set_s_room
                (hash_tab_insert room_item_hash_cb room_item_cmp_cb (RoomItem rid gid) WRLOCK));
        if ret =? TREE_NODE_EXIST then unlock_session sid cid RDLOCK;; mret (inl tt)
        else if negb (ret =? 0) then unlock_session sid cid RDLOCK;; mret (inr (u32 (-1)))
        else unlock_session sid cid RDLOCK;; mret (inr gid)
    end).

Definition chat_room_add_session (rid gid sid cid : Z) : SM chat_tab_t Z :=
  session ← query_session sid cid RDLOCK;
  match session with
  | Some _ => session_add_room rid gid sid cid
  | None =>
      ret ← _chat_room_add_session now rid gid sid cid;
      if negb (ret =? 0) then mret (u32 (-1)) else
      ret ← chat_session_tab_add rid gid sid cid;
      if negb (ret =? 0) then
        _chat_room_del_session rid gid sid cid;; mret (u32 (-1))
      else mret 0
  end.

(** The read lock taken by the query of the session is not given back. *)
Definition chat_room_del_session (rid sid cid : Z) : SM chat_tab_t Z :=
  session ← query_session sid cid RDLOCK;
  match session with
  | None => mret 0
  | Some _ =>
      room ← with_session sid cid (zoom s_room set_s_room
               (hash_tab_delete room_item_hash_cb room_item_cmp_cb (RoomItem rid 0) WRLOCK));
      match room with
      | None => mret 0
      | Some room =>
          _chat_room_del_session (ri_rid room) (ri_gid room) sid cid;;
          mret 0
      end
  end.

Definition chat_get_cid_by_sid (sid : Z) : SM chat_tab_t Z :=
  item ← on_sid2cids (hash_tab_query chat_sid2cid_hash_cb chat_sid2cid_cmp_cb (CidItem sid 0) RDLOCK);
  match item with
  | None => mret 0
  | Some item =>
      on_sid2cids (hash_tab_unlock chat_sid2cid_hash_cb (CidItem sid 0) RDLOCK);;
      mret (it_cid item)
  end.

(** When the second allocation fails the entry is gone and the write lock is
    kept. *)
Definition chat_set_sid_to_cid (sid cid : Z) : SM chat_tab_t Z :=
  retry (
    let key := CidItem sid 0 in
    item ← on_sid2cids (hash_tab_query chat_sid2cid_hash_cb chat_sid2cid_cmp_cb key WRLOCK);
    match item with
    | Some item =>
        if it_cid item =? cid then
          on_sid2cids (hash_tab_unlock chat_sid2cid_hash_cb key WRLOCK);; mret (inr 0)
        else
          on_sid2cids (hash_tab_delete chat_sid2cid_hash_cb chat_sid2cid_cmp_cb key NONLOCK);;
          ok ← malloc;
          if negb ok then mret (inr (-1)) else
          ret ← on_sid2cids (hash_tab_insert chat_sid2cid_hash_cb chat_sid2cid_cmp_cb (CidItem sid cid) NONLOCK);
          if negb (ret =? 0) then
            on_sid2cids (hash_tab_unlock chat_sid2cid_hash_cb key WRLOCK);; mret (inr (-1))
          else
            on_sid2cids (hash_tab_unlock chat_sid2cid_hash_cb key WRLOCK);; mret (inr 0)
    | None =>
        ok ← malloc;
        if negb ok then mret (inr (-1)) else
        ret ← on_sid2cids (hash_tab_insert chat_sid2cid_hash_cb chat_sid2cid_cmp_cb (CidItem sid cid) WRLOCK);
        if negb (ret =? 0) then mret (inl tt) else mret (inr 0)
    end).

Definition chat_del_sid_to_cid (sid cid : Z) : SM chat_tab_t Z :=
  let key := CidItem sid 0 in
  item ← on_sid2cids (hash_tab_query chat_sid2cid_hash_cb chat_sid2cid_cmp_cb key WRLOCK);
  match item with
  | None => mret 0
  | Some item =>
      if it_cid item =? cid then
        on_sid2cids (hash_tab_delete chat_sid2cid_hash_cb chat_sid2cid_cmp_cb key NONLOCK);;
        on_sid2cids (hash_tab_unlock chat_sid2cid_hash_cb key WRLOCK);;
        mret 0
      else on_sid2cids (hash_tab_unlock chat_sid2cid_hash_cb key WRLOCK);; mret 0
  end.

Definition _chat_room_trav_del_session (session : chat_session_t) (room : chat_room_item_t) :
    SM (chat_session_t * chat_tab_t) unit :=
  on_snd (_chat_room_del_session (ri_rid room) (ri_gid room) (s_sid session) (s_cid session));; mret tt.

(** The session is taken out of the table, then out of its rooms. *)
Definition chat_del_session (sid cid : Z) : SM chat_tab_t Z :=
  chat_del_sid_to_cid sid cid;;
  session ← on_sessions (hash_tab_delete chat_session_hash_cb chat_session_cmp_cb (session_key sid cid) WRLOCK);
  match session with
  | None => mret 0
  | Some session =>
      '(_, session) ← with_local session
        (hash_tab_trav (λ s, s_room s.1) (λ h s, (set_s_room h s.1, s.2))
           (_chat_room_trav_del_session session) RDLOCK);
      session_destroy session;;
      mret 0
  end.

Definition chat_room_trav_session {Σ} (rid gid : Z) (proc : chat_sid2cid_item_t → SM Σ unit) : SM (chat_tab_t * Σ) Z :=
  room ← on_fst (query_room rid RDLOCK);
  match room with
  | None => mret 0
  | Some _ =>
      with_data (λ s, rooms s.1) (λ h s, (set_rooms h s.1, s.2)) chat_room_hash_cb chat_room_cmp_cb (room_key rid)
        (chat_group_trav gid (λ i, on_snd (proc i)));;
      on_fst (unlock_room rid RDLOCK);;
      mret 0
  end.

Definition chat_room_trav {Σ} (proc : chat_room_t → SM Σ unit) : SM (chat_tab_t * Σ) unit :=
  hash_tab_trav (λ s, rooms s.1) (λ h s, (set_rooms h s.1, s.2)) (λ r, on_snd (proc r)) RDLOCK.

(** *** Subscriptions *)

Definition chat_add_sub (sid cmd : Z) : SM chat_tab_t Z :=
  ok ← malloc;
  if negb ok then mret (-1) else
  cid ← chat_get_cid_by_sid sid;
  if cid =? 0 then mret (-1) else
  session ← query_session sid cid RDLOCK;
  match session with
  | None => mret (-1)
  | Some _ =>
      ret ← with_session sid cid (zoom s_sub set_s_sub
              (hash_tab_insert chat_sub_hash_cb chat_sub_cmp_cb (SubItem (u16 cmd)) WRLOCK));
      unlock_session sid cid RDLOCK;;
      if negb (ret =? TREE_OK) then mret (if ret =? TREE_NODE_EXIST then 0 else -1)
      else mret 0
  end.

Definition chat_del_sub (sid cmd : Z) : SM chat_tab_t Z :=
  cid ← chat_get_cid_by_sid sid;
  if cid =? 0 then mret (-1) else
  session ← query_session sid cid RDLOCK;
  match session with
  | None => mret (-1)
  | Some _ =>
      with_session sid cid (zoom s_sub set_s_sub
        (hash_tab_delete chat_sub_hash_cb chat_sub_cmp_cb (SubItem (u16 cmd)) WRLOCK));;
      unlock_session sid cid RDLOCK;;
      mret 0
  end.

(** When the command is not found the query has released its lock already, and
    it is released once more. *)
Definition _chat_has_sub (cmd : Z) : SM chat_session_t bool :=
  let key := SubItem (u16 cmd) in
  item ← zoom s_sub set_s_sub (hash_tab_query chat_sub_hash_cb chat_sub_cmp_cb key RDLOCK);
  zoom s_sub set_s_sub (hash_tab_unlock chat_sub_hash_cb key RDLOCK);;
  match item with None => mret false | Some _ => mret true end.

(** [junk] is the content of [key.cid], which is not initialised. *)
Definition chat_has_sub (junk sid cmd : Z) : SM chat_tab_t bool :=
  session ← query_session sid junk RDLOCK;
  match session with
  | None => mret false
  | Some _ =>
      has_sub ← with_session sid junk (_chat_has_sub cmd);
      unlock_session sid junk RDLOCK;;
      mret has_sub
  end.

(** *** Removal of the empty rooms *)

Definition chat_room_clean_list_cb (room : chat_room_t) : SM (list_t Z * chat_tab_t) unit :=
  if r_sid_num room =? 0 then on_fst (list_rpush (r_rid room));; mret tt else mret tt.

Definition chat_room_clean_loop : SM (list_t Z * chat_tab_t) unit :=
  s ← get;
  loop (list_fuel s.1) (λ _,
    rid ← on_fst list_lpop;
    match rid with
    | None => mret (inr tt)
    | Some rid =>
        if rid =? NULL then mret (inr tt) else
        on_snd (chat_del_room rid);; mret (inl tt)
    end) tt.

(** The identifiers are the data of the list: a room 0 is popped as a NULL, and
    ends the loop; [list_destroy] then frees the data that is left, which are no
    addresses of blocks. *)
Definition chat_room_clean_hdl : SM chat_tab_t Z :=
  clean_list ← list_creat;
  match clean_list with
  | None => mret 0
  | Some clean_list =>
      '(_, clean_list) ← with_local clean_list
        (hash_tab_trav (λ s, rooms s.2) (λ h s, (s.1, set_rooms h s.2)) chat_room_clean_list_cb RDLOCK;;
         chat_room_clean_loop);
      with_local (clean_list : list_t Z) (list_destroy (λ rid, cassert (rid =? NULL)));;
      mret 0
  end.
End Chat.
