(* ===== verification/ChatSpec.v ===== *)
(** The chat tables refine an abstract state: rooms with the members of their
    groups, sessions with their rooms and subscriptions, and a map from sessions
    to connections. *)
From stdpp Require Import fin_maps gmap.
From S2P Require Import Prelude Heap Table HashTab TabRel List Chat.
Open Scope Z_scope.

(** ** The abstract state *)

Record aroom := ARoom { a_groups : gmap Z (gset (Z * Z)); a_tm : Z }.
Record asession := ASession { a_rooms : gmap Z Z; a_subs : gset Z }.
Record achat := AChat {
  ac_rooms : gmap Z aroom;
  ac_sessions : gmap (Z * Z) asession;
  ac_cids : gmap Z Z }.

(** The members of a room, with multiplicity over its groups. *)
Definition count (gs : gmap Z (gset (Z * Z))) : nat := map_fold (λ _ X n, (size X + n)%nat) 0%nat gs.

Lemma count_insert gs g X : gs !! g = None → count (<[g := X]> gs) = (size X + count gs)%nat.
Proof. intros. unfold count. rewrite map_fold_insert_L; [done| |done]. lia. Qed.

Lemma count_delete gs g X : gs !! g = Some X → count gs = (size X + count (delete g gs))%nat.
Proof. intros Hg. rewrite <-(insert_delete_id gs g X) at 1 by done. apply count_insert, lookup_delete_eq. Qed.

Lemma count_update gs g X Y :
  gs !! g = Some X → (count (<[g := Y]> gs) + size X = count gs + size Y)%nat.
Proof.
  intros Hg. rewrite (count_delete gs g X), <-insert_delete_eq, count_insert; [lia|apply lookup_delete_eq|done].
Qed.

(** ** The callbacks order the keys *)

Section Orders.
Context {T : Type → Type}.

Definition room_dom (r : chat_room_t T) : Prop := is_id (r_rid r).
Definition session_key_of (s : chat_session_t T) : Z * Z := (s_sid s, s_cid s).
Definition session_dom (s : chat_session_t T) : Prop := is_id (s_sid s) ∧ is_id (s_cid s).
Definition cid_dom (i : chat_sid2cid_item_t) : Prop := is_id (it_sid i).
Definition group_dom (g : chat_group_t T) : Prop := 0 ≤ g_gid g < 2 ^ 16.
Definition item_key (i : chat_sid2cid_item_t) : Z * Z := (it_sid i, it_cid i).
Definition item_dom (i : chat_sid2cid_item_t) : Prop := is_id (it_sid i) ∧ is_id (it_cid i).
Definition room_item_dom (i : chat_room_item_t) : Prop := is_id (ri_rid i).
Definition sub_dom (i : chat_sub_item_t) : Prop := 0 ≤ cmd i < 2 ^ 16.

#[export] Instance rooms_ok : HashOk (r_rid (T := T)) room_dom chat_room_hash_cb chat_room_cmp_cb.
Proof.
  constructor; [by intros d [? ?]|done|]. apply cmp_law_diff.
  intros x y ??. by apply cmp_u64_small.
Qed.

#[export] Instance sessions_ok : HashOk session_key_of session_dom chat_session_hash_cb chat_session_cmp_cb.
Proof.
  constructor; [by intros d [[? ?] _]|by intros x y _ _ [= ? ?]|]. apply cmp_law_lex.
  intros x y [? ?] [? ?]. unfold chat_session_cmp_cb. by rewrite !cmp_u64_small.
Qed.

#[export] Instance cids_ok : HashOk it_sid cid_dom chat_sid2cid_hash_cb chat_sid2cid_cmp_cb.
Proof.
  constructor; [by intros d [? ?]|done|]. apply cmp_law_diff.
  intros x y ??. by apply cmp_u64_small.
Qed.

#[export] Instance groups_ok : HashOk (g_gid (T := T)) group_dom chat_group_hash_cb chat_group_cmp_cb.
Proof.
  constructor; [|done|by apply cmp_law_diff].
  intros d. unfold group_dom, chat_group_hash_cb. lia.
Qed.

#[export] Instance items_ok : HashOk item_key item_dom chat_sid_hash_cb chat_sid_cmp_cb.
Proof.
  constructor; [by intros d [[? ?] _]|by intros x y _ _ [= ? ?]|]. apply cmp_law_lex.
  intros x y [? ?] [? ?]. unfold chat_sid_cmp_cb. rewrite !cmp_u64_small by done.
  by destruct (it_sid x - it_sid y =? 0).
Qed.

#[export] Instance room_items_ok : HashOk ri_rid room_item_dom room_item_hash_cb room_item_cmp_cb.
Proof.
  constructor; [|by intros x y _ _ ; unfold room_item_hash_cb; intros ->|].
  - intros d _. unfold room_item_hash_cb, u16. pose proof (Z.mod_pos_bound (ri_rid d) (2 ^ 16)). lia.
  - apply cmp_law_diff. intros x y ??. by apply cmp_u64_small.
Qed.

#[export] Instance subs_ok : HashOk cmd sub_dom chat_sub_hash_cb chat_sub_cmp_cb.
Proof.
  constructor; [|done|by apply cmp_law_diff].
  intros d. unfold sub_dom, chat_sub_hash_cb. lia.
Qed.
End Orders.

(** ** Abstract operations *)

Definition aroom_add (gid : Z) (k : Z * Z) (a : aroom) : aroom :=
  ARoom (<[u16 gid := {[k]} ∪ default ∅ (a_groups a !! u16 gid)]> (a_groups a)) (a_tm a).

Definition aroom_del (gid : Z) (k : Z * Z) (a : aroom) : aroom :=
  ARoom (alter (λ X, X ∖ {[k]}) (u16 gid) (a_groups a)) (a_tm a).

(** The members of the group [gid] of a room, of all its groups when [gid] is 0. *)
Definition aroom_members (gid : Z) (a : aroom) : gset (Z * Z) :=
  if u16 gid =? 0 then map_fold (λ _ X Y, X ∪ Y) ∅ (a_groups a) else default ∅ (a_groups a !! u16 gid).

Definition on_ac_rooms (f : gmap Z aroom → gmap Z aroom) (a : achat) : achat :=
  AChat (f (ac_rooms a)) (ac_sessions a) (ac_cids a).
Definition on_ac_sessions (f : gmap (Z * Z) asession → gmap (Z * Z) asession) (a : achat) : achat :=
  AChat (ac_rooms a) (f (ac_sessions a)) (ac_cids a).
Definition on_ac_cids (f : gmap Z Z → gmap Z Z) (a : achat) : achat :=
  AChat (ac_rooms a) (ac_sessions a) (f (ac_cids a)).

(** A member enters a room, which is created at [now] when it is missing. *)
Definition achat_enter (now rid gid : Z) (k : Z * Z) : achat → achat :=
  on_ac_rooms (λ m, <[rid := aroom_add gid k (default (ARoom ∅ now) (m !! rid))]> m).
Definition achat_leave (rid gid : Z) (k : Z * Z) : achat → achat :=
  on_ac_rooms (alter (aroom_del gid k) rid).

(** The counter of the members of a room does not wrap around. *)
Definition room_fits (a : aroom) : Prop := Z.of_nat (count (a_groups a)) < 2 ^ 64.

(** The empty room [rid] is removed. *)
Definition aroom_empty (a : aroom) : bool := bool_decide (count (a_groups a) = 0%nat).
Definition achat_del_room (rid : Z) : achat → achat :=
  on_ac_rooms (λ m, match m !! rid with
                    | Some a => if aroom_empty a then delete rid m else m
                    | None => m
                    end).

(** ** Representation *)

Section Rep.
Context {T : Type → Type} `{TreeLaws T}.

Definition set_rep (h : hash_tab_t T chat_sid2cid_item_t) (X : gset (Z * Z)) (L : list rwlock) : Prop :=
  trel item_key item_dom chat_sid_hash_cb chat_sid_cmp_cb (λ _ (_ : unit), True) h (gset_to_gmap tt X) L.

Record group_rep (g : chat_group_t T) (X : gset (Z * Z)) : Prop := {
  gr_num : g_sid_num g = u64 (Z.of_nat (size X));
  gr_set : set_rep (sid_set g) X (idles (len (sid_set g)));
}.

Definition groups_rep (h : hash_tab_t T (chat_group_t T)) (gs : gmap Z (gset (Z * Z))) (L : list rwlock) : Prop :=
  trel g_gid group_dom chat_group_hash_cb chat_group_cmp_cb group_rep h gs L.

(** The counters of a room, and its groups, whose locks are in the states [L]. *)
Record room_repL (L : list rwlock) (r : chat_room_t T) (a : aroom) : Prop := {
  rr_num : r_sid_num r = u64 (Z.of_nat (count (a_groups a)));
  rr_grp : grp_num r = u32 (Z.of_nat (size (a_groups a)));
  rr_tm : create_tm r = a_tm a;
  rr_groups : groups_rep (groups r) (a_groups a) L;
}.
Definition room_rep (r : chat_room_t T) : aroom → Prop := room_repL (idles (len (groups r))) r.

Definition rooms_rep (h : hash_tab_t T (chat_room_t T)) (m : gmap Z aroom) (L : list rwlock) : Prop :=
  trel r_rid room_dom chat_room_hash_cb chat_room_cmp_cb room_rep h m L.

Definition room_list_rep (h : hash_tab_t T chat_room_item_t) (m : gmap Z Z) (L : list rwlock) : Prop :=
  trel ri_rid room_item_dom room_item_hash_cb room_item_cmp_cb (λ i g, ri_gid i = g) h m L.
Definition sub_rep (h : hash_tab_t T chat_sub_item_t) (X : gset Z) (L : list rwlock) : Prop :=
  trel cmd sub_dom chat_sub_hash_cb chat_sub_cmp_cb (λ _ (_ : unit), True) h (gset_to_gmap tt X) L.

Record session_rep (s : chat_session_t T) (a : asession) : Prop := {
  sr_room : room_list_rep (s_room s) (a_rooms a) (idles (len (s_room s)));
  sr_sub : sub_rep (s_sub s) (a_subs a) (idles (len (s_sub s)));
}.

Definition sessions_rep (h : hash_tab_t T (chat_session_t T)) (m : gmap (Z * Z) asession) (L : list rwlock) : Prop :=
  trel session_key_of session_dom chat_session_hash_cb chat_session_cmp_cb session_rep h m L.
Definition cids_rep (h : hash_tab_t T chat_sid2cid_item_t) (m : gmap Z Z) (L : list rwlock) : Prop :=
  trel it_sid cid_dom chat_sid2cid_hash_cb chat_sid2cid_cmp_cb (λ i c, it_cid i = c) h m L.

(** The tables represent [a]; the locks of the sessions are in the states [L],
    all others are free. *)
Record chat_repL (L : list rwlock) (c : chat_tab_t T) (a : achat) : Prop := {
  cr_rooms : rooms_rep (rooms c) (ac_rooms a) (idles (len (rooms c)));
  cr_sessions : sessions_rep (sessions c) (ac_sessions a) L;
  cr_cids : cids_rep (sid2cids c) (ac_cids a) (idles (len (sid2cids c)));
}.
Definition chat_rep (c : chat_tab_t T) : achat → Prop := chat_repL (idles (len (sessions c))) c.

(** *** Sets as maps to the unit *)

Lemma gset_to_gmap_insert {K} `{Countable K} (k : K) (X : gset K) :
  gset_to_gmap tt ({[k]} ∪ X) = <[k := tt]> (gset_to_gmap tt X).
Proof. apply gset_to_gmap_union_singleton. Qed.

Lemma gset_to_gmap_lookup {K} `{Countable K} (k : K) (X : gset K) :
  gset_to_gmap tt X !! k = if decide (k ∈ X) then Some tt else None.
Proof.
  case_decide; [by apply lookup_gset_to_gmap_Some|by apply lookup_gset_to_gmap_None].
Qed.

Lemma gset_to_gmap_delete {K} `{Countable K} (k : K) (X : gset K) :
  gset_to_gmap tt (X ∖ {[k]}) = delete k (gset_to_gmap tt X).
Proof.
  apply map_eq. intros j. rewrite lookup_delete, !gset_to_gmap_lookup.
  destruct (decide (k = j)) as [->|Hj].
  - by rewrite decide_False by set_solver.
  - apply decide_ext. set_solver.
Qed.

Lemma size_gset_to_gmap {K} `{Countable K} (X : gset K) : size (gset_to_gmap tt X) = size X.
Proof. by rewrite <-size_dom, dom_gset_to_gmap. Qed.

End Rep.
