(* ===== verification/ChatRooms.v ===== *)
(** Groups and rooms: the operations of [lib/chat/chat_tab.c] on a room refine
    those of the abstract rooms. *)
From stdpp Require Import fin_maps gmap.
From S2P Require Import Prelude Heap Table HashTab TabRel List Chat ChatSpec.
Open Scope Z_scope.

(** Enter the part of the state a lens selects. *)
Ltac enter_step :=
  match goal with
  | |- wp (zoom _ _ _) _ _ _ => apply wp_zoom
  | |- wp (on_fst _) _ _ _ => unfold on_fst at 1; apply wp_zoom
  | |- wp (on_snd _) _ _ _ => unfold on_snd at 1; apply wp_zoom
  | |- wp (on_groups _) _ _ _ => unfold on_groups at 1; apply wp_zoom
  | |- wp (on_rooms _) _ _ _ => unfold on_rooms at 1; apply wp_zoom
  | |- wp (on_sessions _) _ _ _ => unfold on_sessions at 1; apply wp_zoom
  | |- wp (on_sid2cids _) _ _ _ => unfold on_sid2cids at 1; apply wp_zoom
  end.
Ltac enter := repeat first [wp_step; cbn beta iota | enter_step; cbn [fst snd]].

Section Rooms.
Context {T : Type → Type} `{TreeLaws T}.
Abbreviation chat_tab_t := (chat_tab_t T).
Abbreviation chat_room_t := (chat_room_t T).
Abbreviation chat_group_t := (chat_group_t T).

Lemma id_u16 gid : group_dom (T := T) (group_key gid).
Proof. unfold group_dom, group_key, u16. simpl. apply Z.mod_pos_bound. lia. Qed.

(** *** Members of a group *)

Lemma wp_group_add {Σ} (grp : chat_group_t) (room : chat_room_t) (σ : Σ) X sid cid :
  group_rep grp X → is_id sid → is_id cid →
  wp (_chat_group_add_session sid cid) (λ ret s' ms', ret = 0 ∧ ms' = [] ∧
    g_gid s'.1 = g_gid grp ∧ group_rep s'.1 ({[(sid, cid)]} ∪ X) ∧
    s'.2 = (if decide ((sid, cid) ∈ X) then room else set_r_sid_num (u64 (r_sid_num room + 1)) room, σ))
    (grp, (room, σ)) [].
Proof.
  intros [Hn Hs] Hsid Hcid. unfold _chat_group_add_session. wp_steps. apply wp_malloc_nil. cbn [negb].
  enter.
  eapply wp_mono; [apply (wp_rinsert Hs tt); [done|done|apply (free_idles Hs)]|].
  intros r h' ms' (Hl & -> & HQ). rewrite gset_to_gmap_lookup in HQ. simpl in HQ.
  change (item_key (CidItem sid cid)) with (sid, cid) in *. revert HQ. case_decide as Hk; intros HQ.
  - destruct HQ as [-> Hs']. change (TREE_NODE_EXIST =? TREE_OK) with false. cbn [negb].
    change (TREE_NODE_EXIST =? TREE_NODE_EXIST) with true. wp_steps. split_and!; [done..| |done].
    assert ({[(sid, cid)]} ∪ X = X) as -> by set_solver. constructor; simpl; [done|]. by rewrite Hl.
  - destruct HQ as [-> Hs']. change (TREE_OK =? TREE_OK) with true. cbn [negb]. enter.
    split_and!; [done..| |done]. constructor; simpl.
    + rewrite Hn, size_union by set_solver. rewrite size_singleton.
      unfold u64. rewrite Zplus_mod_idemp_l. f_equal. lia.
    + rewrite Hl. unfold set_rep. by rewrite gset_to_gmap_insert.
Qed.

Lemma wp_group_del {Σ} (grp : chat_group_t) (room : chat_room_t) (σ : Σ) X sid cid ms :
  group_rep grp X → is_id sid → is_id cid →
  wp (_chat_group_del_session sid cid) (λ ret s' ms', ret = 0 ∧ ms' = ms ∧
    g_gid s'.1 = g_gid grp ∧ group_rep s'.1 (X ∖ {[(sid, cid)]}) ∧
    s'.2 = (if decide ((sid, cid) ∈ X) then set_r_sid_num (u64 (r_sid_num room - 1)) room else room, σ))
    (grp, (room, σ)) ms.
Proof.
  intros [Hn Hs] Hsid Hcid. unfold _chat_group_del_session. enter.
  eapply wp_mono; [apply (wp_rdelete Hs); [done|apply (free_idles Hs)]|].
  intros r h' ms' (Hl & -> & Hr & _ & Hs'). rewrite gset_to_gmap_lookup in Hr. simpl in Hr.
  change (item_key (CidItem sid cid)) with (sid, cid) in *.
  rewrite <-gset_to_gmap_delete in Hs'.
  revert Hr. case_decide as Hk; intros Hr; destruct r as [i|]; inversion Hr; subst; enter; (split_and!; [done..| |done]); constructor; simpl.
  - rewrite Hn, size_difference, size_singleton by set_solver.
    assert (size X ≠ 0)%nat by (apply size_non_empty_iff; set_solver).
    unfold u64. rewrite Zminus_mod_idemp_l. f_equal. lia.
  - by rewrite Hl.
  - assert (X ∖ {[(sid, cid)]} = X) as -> by set_solver. done.
  - by rewrite Hl.
Qed.

(** *** Groups of a room *)

Lemma wp_query_group L r a gid lk (Q : option chat_group_t → chat_room_t → mem → Prop) ms :
  room_repL L r a → free_at L (slot (chat_group_hash_cb (T := T)) (len (groups r)) (group_key gid)) lk →
  (∀ o h', option_Forall2 group_rep o (a_groups a !! u16 gid) → len h' = len (groups r) →
    room_repL (match o with
               | Some _ => locked (slot (chat_group_hash_cb (T := T)) (len (groups r)) (group_key gid)) lk L
               | None => L
               end) (set_groups h' r) a → Q o (set_groups h' r) ms) →
  wp (query_group gid lk) Q r ms.
Proof.
  intros [R1 R2 R3 R4] Hf HQ. unfold query_group, on_groups. apply wp_zoom.
  eapply wp_mono; [apply (wp_rquery R4); [apply id_u16|done]|].
  intros o h' ms' (Hl & -> & Ho & Hr'). apply HQ; [done|done|]. by constructor.
Qed.

Lemma wp_unlock_group L r a gid lk (Q : unit → chat_room_t → mem → Prop) ms :
  room_repL (locked (slot (chat_group_hash_cb (T := T)) (len (groups r)) (group_key gid)) lk L) r a →
  free_at L (slot (chat_group_hash_cb (T := T)) (len (groups r)) (group_key gid)) lk →
  (∀ h', len h' = len (groups r) → room_repL L (set_groups h' r) a → Q tt (set_groups h' r) ms) →
  wp (unlock_group gid lk) Q r ms.
Proof.
  intros [R1 R2 R3 R4] Hf HQ. unfold unlock_group, on_groups. apply wp_zoom.
  apply (wp_runlock R4); [apply id_u16|done|].
  intros h' Hr' Hl. apply HQ; [done|]. by constructor.
Qed.

Lemma room_free L r a gid lk : room_repL L r a → L = idles (len (groups r)) →
  free_at L (slot (chat_group_hash_cb (T := T)) (len (groups r)) (group_key gid)) lk.
Proof. intros Hr ->. destruct Hr as [_ _ _ Hr]. apply (free_idles Hr). Qed.

Lemma wp_add_by_gid r a gid :
  room_rep r a → a_groups a !! u16 gid = None →
  wp (chat_group_add_by_gid gid) (λ ret r' ms', ret = 0 ∧ ms' = [] ∧ r_rid r' = r_rid r ∧
    len (groups r') = len (groups r) ∧
    room_rep r' (ARoom (<[u16 gid := ∅]> (a_groups a)) (a_tm a))) r [].
Proof.
  intros Hr Hg. pose proof Hr as [R1 R2 R3 R4]. unfold chat_group_add_by_gid. wp_steps. apply wp_malloc_nil.
  cbn [negb]. wp_steps. eapply wp_mono.
  { apply (wp_rcreat item_key item_dom chat_sid_hash_cb chat_sid_cmp_cb (λ _ (_ : unit), True)). done. }
  intros o r' ms' (-> & -> & set & -> & Hlen & Hset). enter.
  eapply wp_mono; [apply (wp_rinsert R4 ∅); [apply id_u16| |apply (free_idles R4)]|].
  { constructor; [done|]. unfold set_rep. simpl. by rewrite gset_to_gmap_empty, Hlen. }
  intros ret h' ms' (Hl & -> & HQ). simpl in HQ. rewrite Hg in HQ. destruct HQ as [-> Hr'].
  change (TREE_OK =? 0) with true. cbn [negb]. enter. split_and!; [done..|].
  constructor; simpl.
  - rewrite R1, count_insert, size_empty by done. done.
  - rewrite R2, map_size_insert_None by done. unfold u32. rewrite Zplus_mod_idemp_l. f_equal. lia.
  - done.
  - by rewrite Hl.
Qed.

Lemma aroom_add_new gid k a :
  a_groups a !! u16 gid = None →
  aroom_add gid k (ARoom (<[u16 gid := ∅]> (a_groups a)) (a_tm a)) = aroom_add gid k a.
Proof. intros Hg. unfold aroom_add. simpl. by rewrite lookup_insert_eq, Hg, insert_insert_eq. Qed.

(** A member is added to a group that is there. *)
Lemma wp_group_add_found {Σ} (σ : Σ) L r a X gid sid cid :
  room_repL L r a → a_groups a !! u16 gid = Some X → is_id sid → is_id cid →
  wp (with_group gid (_chat_group_add_session sid cid)) (λ ret s' ms', ret = 0 ∧ ms' = [] ∧
    r_rid s'.1 = r_rid r ∧ len (groups s'.1) = len (groups r) ∧ s'.2 = σ ∧
    room_repL L s'.1 (aroom_add gid (sid, cid) a)) (r, σ) [].
Proof.
  intros [R1 R2 R3 R4] Hg Hsid Hcid. unfold with_group.
  eapply (wp_rwith (g := λ s, groups s.1) (s := (r, σ)) R4); [apply id_u16|exact Hg|].
  intros x Hx Hkx Hdx. eapply wp_mono; [by apply (wp_group_add x r σ X)|].
  intros ret [x' s2] ms' (-> & -> & Hgid & Hx' & Hs2). cbn [fst snd] in *. subst s2.
  assert (Hgr : groups (if decide ((sid, cid) ∈ X) then r else set_r_sid_num (u64 (r_sid_num r + 1)) r) = groups r)
    by by case_decide.
  split_and!; [congruence|unfold group_dom in *; by rewrite Hgid|]. cbn [fst snd]. rewrite Hgr.
  eexists _, L. split_and!; [exact Hx'|exact R4|].
  intros h' Hh' Hl'. split_and!; [done|done|by case_decide|done|done|].
  assert (Hcnt : (count (<[u16 gid:={[(sid, cid)]} ∪ X]> (a_groups a)) + size X
                  = count (a_groups a) + size ({[(sid, cid)]} ∪ X))%nat) by by apply count_update.
  constructor; simpl; rewrite ?Hg; simpl.
  - case_decide as Hk; simpl; rewrite R1.
    + assert ({[(sid, cid)]} ∪ X = X) as Heq by set_solver. rewrite Heq in *. do 2 f_equal. lia.
    + rewrite size_union, size_singleton in Hcnt by set_solver. unfold u64. rewrite Zplus_mod_idemp_l. f_equal. lia.
  - rewrite map_size_insert, Hg. by case_decide.
  - by case_decide.
  - done.
Qed.

Lemma wp_chat_group_add_session {Σ} (σ : Σ) r a gid sid cid :
  room_rep r a → is_id sid → is_id cid →
  wp (chat_group_add_session gid sid cid) (λ ret s' ms', ret = 0 ∧ ms' = [] ∧
    r_rid s'.1 = r_rid r ∧ s'.2 = σ ∧ room_rep s'.1 (aroom_add gid (sid, cid) a)) (r, σ) [].
Proof.
  intros Hr Hsid Hcid. unfold chat_group_add_session. apply wp_retry.
  (* the round that finds the group *)
  assert (Hfound : ∀ r a X s (Q : unit + Z → chat_room_t * Σ → mem → Prop),
    room_rep r a → a_groups a !! u16 gid = Some X → s = (r, σ) →
    (∀ s', r_rid s'.1 = r_rid r → s'.2 = σ → room_rep s'.1 (aroom_add gid (sid, cid) a) → Q (inr 0) s' []) →
    wp (grp ← on_fst (query_group gid RDLOCK);
        match grp with
        | None => on_fst (chat_group_add_by_gid gid);; mret (inl tt)
        | Some _ =>
            ret ← with_group gid (_chat_group_add_session sid cid);
            on_fst (unlock_group gid RDLOCK);;
            mret (inr ret)
        end) Q s []).
  { clear r a Hr. intros r a X s Q Hr Hg -> HQ. enter.
    pose proof (room_free _ _ _ gid RDLOCK Hr eq_refl) as Hf.
    eapply wp_query_group; [exact Hr|exact Hf|]. intros o h' Ho Hl' Hr'. rewrite Hg in Ho.
    destruct o as [x|]; inversion Ho; subst. wp_step.
    eapply wp_mono; [eapply (wp_group_add_found σ); [exact Hr'|exact Hg|done|done]|].
    intros ret [r2 σ2] ms2 (-> & -> & Hrid & Hl2 & Hσ & Hr2). cbn [fst snd] in *. simpl in Hrid, Hl2. subst σ2.
    enter.
    assert (Hlen : len (groups r2) = len (groups r)) by congruence.
    eapply (wp_unlock_group (idles (len (groups r)))); [by rewrite Hlen|by rewrite Hlen|].
    intros h3 Hl3 Hr3. wp_steps. apply HQ; [done|done|]. unfold room_rep. simpl. by rewrite Hl3, Hlen. }
  destruct (a_groups a !! u16 gid) as [X|] eqn:Hg.
  - eapply (Hfound r a X); [done|done|done|]. intros s' ? ? ?. by split_and!.
  - enter. eapply wp_query_group; [exact Hr|by apply (room_free _ _ a)|].
    intros o h' Ho Hl' Hr'. rewrite Hg in Ho. destruct o; inversion Ho. enter.
    eapply wp_mono; [apply (wp_add_by_gid _ a); [unfold room_rep; simpl; by rewrite Hl'|done]|].
    intros ret r2 ms2 (-> & -> & Hrid & Hl2 & Hr2). wp_step. simpl in Hrid.
    eapply (Hfound r2 _ ∅); [exact Hr2|by cbn [a_groups]; rewrite lookup_insert_eq|done|].
    intros s' Hrid' Hσ Hs'. rewrite aroom_add_new in Hs' by done. split_and!; [done|done|congruence|done|done].
Qed.

Lemma wp_chat_group_del_session {Σ} (σ : Σ) r a gid sid cid ms :
  room_rep r a → is_id sid → is_id cid →
  wp (chat_group_del_session gid sid cid) (λ ret s' ms', ms' = ms ∧
    ret = (match a_groups a !! u16 gid with Some _ => 0 | None => -1 end) ∧
    r_rid s'.1 = r_rid r ∧ s'.2 = σ ∧ room_rep s'.1 (aroom_del gid (sid, cid) a)) (r, σ) ms.
Proof.
  intros Hr Hsid Hcid. unfold chat_group_del_session. enter.
  pose proof (room_free _ _ _ gid RDLOCK Hr eq_refl) as Hf.
  eapply wp_query_group; [exact Hr|exact Hf|]. intros o h' Ho Hl' Hr'.
  destruct (a_groups a !! u16 gid) as [X|] eqn:Hg; inversion Ho as [x ? Hx|]; subst.
  2: { wp_steps. split_and!; [done..|]. unfold room_rep. simpl. rewrite Hl'.
       assert (aroom_del gid (sid, cid) a = a) as ->; [|done].
       unfold aroom_del. destruct a as [gs tm]. simpl in *. f_equal. apply map_eq. intros j.
       rewrite lookup_alter. case_decide; [by subst; rewrite Hg|done]. }
  wp_step. pose proof Hr' as [R1 R2 R3 R4]. unfold with_group.
  eapply (wp_rwith (g := λ s, groups s.1) (s := (set_groups h' r, σ)) R4); [apply id_u16|exact Hg|].
  intros y Hy Hky Hdy. eapply wp_mono; [by apply (wp_group_del y _ σ X)|].
  intros ret [y' s2] ms' (-> & -> & Hgid & Hy' & Hs2). cbn [fst snd] in *. subst s2.
  set (r1 := if decide ((sid, cid) ∈ X) then _ else _).
  assert (Hgr : groups r1 = h') by (unfold r1; by case_decide).
  assert (Hrid : r_rid r1 = r_rid r) by (unfold r1; by case_decide).
  split_and!; [congruence|unfold group_dom in *; by rewrite Hgid|]. cbn [fst snd]. rewrite Hgr.
  eexists _, _. split_and!; [exact Hy'|exact R4|].
  intros h2 Hh2 Hl2. simpl. enter.
  assert (Hlen : len h2 = len (groups r)) by congruence.
  eapply (wp_unlock_group (idles (len (groups r)))); simpl; rewrite ?Hlen; [|exact Hf|].
  2: { intros h3 Hl3 Hr3. wp_steps. split_and!; [done|done|done|done|]. unfold room_rep. simpl. by rewrite Hl3. }
  assert (Hal : alter (λ X, X ∖ {[(sid, cid)]}) (u16 gid) (a_groups a) = <[u16 gid := X ∖ {[(sid, cid)]}]> (a_groups a)).
  { apply map_eq. intros j. rewrite lookup_alter, lookup_insert. case_decide as Hj; [by rewrite Hg|done]. }
  assert (Hcnt : (count (<[u16 gid:=X ∖ {[(sid, cid)]}]> (a_groups a)) + size X
                  = count (a_groups a) + size (X ∖ {[(sid, cid)]}))%nat) by by apply count_update.
  constructor; simpl; rewrite ?Hal.
  - unfold r1. case_decide as Hk; simpl in *; rewrite R1.
    + rewrite size_difference, size_singleton in Hcnt by set_solver.
      assert (size X ≠ 0)%nat by (apply size_non_empty_iff; set_solver).
      unfold u64. rewrite Zminus_mod_idemp_l. f_equal. lia.
    + assert (X ∖ {[(sid, cid)]} = X) as Heq by set_solver. rewrite Heq in *. do 2 f_equal. lia.
  - rewrite map_size_insert, Hg. unfold r1. by case_decide.
  - unfold r1. by case_decide.
  - done.
Qed.
End Rooms.
