(* ===== verification/ChatOps.v ===== *)
(** The table of the rooms: creation and removal of rooms, entering and leaving
    them, and the release of a room. *)
From stdpp Require Import fin_maps gmap.
From S2P Require Import Prelude Heap Table HashTab TabRel List Chat ChatSpec ChatRooms.
Open Scope Z_scope.

Section RoomTab.
Context {T : Type → Type} `{TreeLaws T}.
Abbreviation chat_tab_t := (chat_tab_t T).
Abbreviation chat_room_t := (chat_room_t T).
Abbreviation chat_group_t := (chat_group_t T).
Abbreviation rslot n rid := (slot (chat_room_hash_cb (T := T)) n (room_key rid)).

Lemma wp_with_local {Σ V A} (v : V) (m : SM (V * Σ) A) (Q : A * V → Σ → mem → Prop) s ms :
  wp m (λ a s' ms', Q (a, s'.1) s'.2 ms') (v, s) ms → wp (with_local v m) Q s ms.
Proof. unfold wp, with_local. by destruct (m (v, s) ms) as [[[? []]?]| | |]. Qed.

(** *** Release *)

(** A table of plain data is given back whatever it holds. *)
Lemma wp_destroy_plain {D K A} `{Countable K} {key : D → K} {dm hash cmp} `{!HashOk key dm hash cmp}
    {R : D → A → Prop} {Σ V} (g : V → hash_tab_t T D) p v M (s : Σ) (Q : unit * V → Σ → mem → Prop) ms :
  (∀ h v, g (p h v) = h) →
  trel key dm hash cmp R (g v) M (idles (len (g v))) → Z.of_nat (size M) < 2 ^ 64 →
  (∀ v', Q (tt, v') s ms) →
  wp (run_on v (hash_tab_destroy g p mem_dealloc)) Q s ms.
Proof.
  intros gp Hr Hsz HQ. apply wp_run_on.
  eapply wp_mono; [apply (wp_rdestroy Hr (λ _ ms', ms' = ms))|]; try done.
  intros [] v' ms' ->. apply HQ.
Qed.

Lemma wp_group_destroy {Σ} (grp : chat_group_t) X (s : Σ) (Q : unit → Σ → mem → Prop) ms :
  group_rep grp X → Z.of_nat (size X) < 2 ^ 64 → Q tt s ms → wp (chat_group_destroy grp) Q s ms.
Proof.
  intros [_ Hs] Hsz HQ. unfold chat_group_destroy. wp_step.
  eapply wp_destroy_plain; [done|exact Hs|by rewrite size_gset_to_gmap|]. intros v'. by wp_step.
Qed.

Lemma count_lookup gs g X : gs !! g = Some X → (size X ≤ count gs)%nat.
Proof. intros Hg. rewrite (count_delete gs g X) by done. lia. Qed.

Lemma groups_size h gs L : groups_rep h gs L → Z.of_nat (size gs) < 2 ^ 64.
Proof.
  intros Hr. assert (Z.of_nat (size gs) ≤ 2 ^ 16); [|lia].
  eapply (trel_size (T := T)); [exact Hr|done|done].
Qed.

Lemma wp_room_destroy {Σ} (r : chat_room_t) a (s : Σ) (Q : Z → Σ → mem → Prop) ms :
  room_rep r a → room_fits a → Q 0 s ms → wp (chat_room_destroy r) Q s ms.
Proof.
  intros [_ _ _ Hg] Hfit HQ. unfold chat_room_destroy. wp_step. apply wp_run_on.
  eapply wp_mono.
  { apply (wp_rdestroy (g := groups) (s := set_r_sid_num 0 (set_grp_num 0 r)) Hg (λ _ ms', ms' = ms));
      [done|done| |by eapply groups_size|done].
    intros d X v ms' HX Hd ->. apply count_lookup in HX. unfold room_fits in Hfit.
    eapply wp_group_destroy; [exact Hd|lia|done]. }
  intros [] v' ms' ->. by wp_step.
Qed.

(** *** Query *)

Lemma wp_query_room c m L rid lk (Q : option chat_room_t → chat_tab_t → mem → Prop) ms :
  rooms_rep (rooms c) m L → is_id rid → free_at L (rslot (len (rooms c)) rid) lk →
  (∀ o h', option_Forall2 room_rep o (m !! rid) → len h' = len (rooms c) →
    rooms_rep h' m (match o with Some _ => locked (rslot (len (rooms c)) rid) lk L | None => L end) →
    Q o (set_rooms h' c) ms) →
  wp (query_room rid lk) Q c ms.
Proof.
  intros Hr Hid Hf HQ. unfold query_room. enter.
  eapply wp_mono; [apply (wp_rquery Hr); [done|done]|].
  intros o h' ms' (Hl & -> & Ho & Hr'). by apply HQ.
Qed.

Lemma wp_unlock_room c m L rid lk (Q : unit → chat_tab_t → mem → Prop) ms :
  rooms_rep (rooms c) m (locked (rslot (len (rooms c)) rid) lk L) → is_id rid →
  free_at L (rslot (len (rooms c)) rid) lk →
  (∀ h', len h' = len (rooms c) → rooms_rep h' m L → Q tt (set_rooms h' c) ms) →
  wp (unlock_room rid lk) Q c ms.
Proof.
  intros Hr Hid Hf HQ. unfold unlock_room. enter.
  apply (wp_runlock Hr); [done|done|]. intros h' Hr' Hl. by apply HQ.
Qed.

(** [c'] is [c] but for its rooms, which are now [m]. *)
Definition rooms_now (c c' : chat_tab_t) (m : gmap Z aroom) : Prop :=
  ∃ h', c' = set_rooms h' c ∧ len h' = len (rooms c) ∧ rooms_rep h' m (idles (len h')).

Lemma rooms_now_trans c c1 c2 m1 m2 : rooms_now c c1 m1 → rooms_now c1 c2 m2 → rooms_now c c2 m2.
Proof. intros (h1 & -> & Hl1 & _) (h2 & -> & Hl2 & Hr2). exists h2. simpl in *. split_and!; [done|congruence|done]. Qed.

(** *** Creation *)

Lemma wp_add_room c m now rid :
  rooms_rep (rooms c) m (idles (len (rooms c))) → is_id rid → m !! rid = None →
  wp (chat_add_room now rid) (λ ret c' ms', ret = 0 ∧ ms' = [] ∧
    rooms_now c c' (<[rid := ARoom ∅ now]> m)) c [].
Proof.
  intros Hr Hid Hm. unfold chat_add_room. wp_step. apply wp_malloc_nil. cbn [negb]. wp_step.
  eapply wp_mono; [by apply (wp_rcreat g_gid group_dom chat_group_hash_cb chat_group_cmp_cb group_rep)|].
  intros o s' ms' (-> & -> & grps & -> & Hlen & Hg). enter.
  eapply wp_mono; [apply (wp_rinsert Hr (ARoom ∅ now)); [done| |apply (free_idles Hr)]|].
  { constructor; simpl; try done. by rewrite Hlen. }
  intros r h' ms' (Hl & -> & HQ). simpl in HQ. rewrite Hm in HQ. destruct HQ as [-> Hr'].
  change (TREE_OK =? 0) with true. cbn [negb]. wp_step. split_and!; [done..|].
  exists h'. split_and!; [done..|]. by rewrite Hl.
Qed.

(** *** Entering *)

(** The round that finds the room. *)
Lemma wp_enter_found c m now a rid gid sid cid (Q : unit + Z → chat_tab_t → mem → Prop) :
  rooms_rep (rooms c) m (idles (len (rooms c))) → is_id rid → is_id sid → is_id cid → m !! rid = Some a →
  (∀ c', rooms_now c c' (<[rid := aroom_add gid (sid, cid) a]> m) → Q (inr 0) c' []) →
  wp (room ← query_room rid RDLOCK;
      match room with
      | None => chat_add_room now rid;; mret (inl tt)
      | Some _ =>
          ret ← with_room rid (chat_group_add_session gid sid cid);
          unlock_room rid RDLOCK;;
          mret (inr ret)
      end) Q c [].
Proof.
  intros Hr Hid Hsid Hcid Hm HQ. wp_step.
  eapply wp_query_room; [exact Hr|done|apply (free_idles Hr)|]. intros o h1 Ho Hl1 Hr1. rewrite Hm in Ho.
  inversion Ho as [x ? Hx|]; subst. wp_step. unfold with_room.
  eapply (wp_rwith (g := rooms) (s := set_rooms h1 c) Hr1); [done|exact Hm|].
  intros y Hy Hky Hdy. eapply wp_mono; [by apply (wp_chat_group_add_session _ y a)|].
  intros ret [y' c'] ms' (-> & -> & Hrid & Hc & Hy'). cbn [fst snd] in *. subst c'.
  split_and!; [congruence|unfold room_dom in *; by rewrite Hrid|].
  eexists _, _. split_and!; [exact Hy'|exact Hr1|]. intros h2 Hr2 Hl2. wp_step. simpl in Hl2.
  assert (Hlen : len h2 = len (rooms c)) by congruence.
  eapply (wp_unlock_room _ _ (idles (len (rooms c)))); simpl; rewrite ?Hlen;
    [exact Hr2|done|apply (free_idles Hr)|].
  intros h3 Hl3 Hr3. wp_step. apply HQ. exists h3. split_and!; [done|done|]. by rewrite Hl3.
Qed.

Definition enter_rooms (now rid gid : Z) (k : Z * Z) (m : gmap Z aroom) : gmap Z aroom :=
  <[rid := aroom_add gid k (default (ARoom ∅ now) (m !! rid))]> m.

Lemma wp_enter c m now rid gid sid cid :
  rooms_rep (rooms c) m (idles (len (rooms c))) → is_id rid → is_id sid → is_id cid →
  wp (_chat_room_add_session now rid gid sid cid) (λ ret c' ms', ret = 0 ∧ ms' = [] ∧
    rooms_now c c' (enter_rooms now rid gid (sid, cid) m)) c [].
Proof.
  intros Hr Hid Hsid Hcid. unfold _chat_room_add_session, enter_rooms. apply wp_retry.
  destruct (m !! rid) as [a|] eqn:Hm; simpl.
  - eapply wp_enter_found; [done..|]. intros c' Hc'. by split_and!.
  - wp_step. eapply wp_query_room; [exact Hr|done|apply (free_idles Hr)|].
    intros o h1 Ho Hl1 Hr1. rewrite Hm in Ho. inversion Ho; subst. wp_step.
    eapply wp_mono; [apply (wp_add_room _ m); [simpl; by rewrite Hl1|done|done]|].
    intros ret c2 ms2 (-> & -> & Hc2). wp_step.
    assert (Hc2' : rooms_now c c2 (<[rid:=ARoom ∅ now]> m)).
    { eapply rooms_now_trans; [|exact Hc2]. exists h1. split_and!; [done..|by rewrite Hl1]. }
    destruct Hc2 as (h2 & -> & Hl2 & Hr2).
    eapply (wp_enter_found _ (<[rid:=ARoom ∅ now]> m)); [exact Hr2|done..|by rewrite lookup_insert_eq|].
    intros c3 Hc3. split_and!; [done..|]. rewrite insert_insert_eq in Hc3.
    by eapply rooms_now_trans.
Qed.

(** *** Leaving *)

Lemma wp_leave c m rid gid sid cid ms :
  rooms_rep (rooms c) m (idles (len (rooms c))) → is_id rid → is_id sid → is_id cid →
  wp (_chat_room_del_session rid gid sid cid) (λ ret c' ms', ret = 0 ∧ ms' = ms ∧
    rooms_now c c' (alter (aroom_del gid (sid, cid)) rid m)) c ms.
Proof.
  intros Hr Hid Hsid Hcid. unfold _chat_room_del_session. wp_step.
  eapply wp_query_room; [exact Hr|done|apply (free_idles Hr)|]. intros o h1 Ho Hl1 Hr1.
  destruct (m !! rid) as [a|] eqn:Hm; inversion Ho as [x ? Hx|]; subst.
  2: { wp_step. split_and!; [done..|]. exists h1. split_and!; [done..|].
       assert (alter (aroom_del gid (sid, cid)) rid m = m) as ->; [|by rewrite Hl1].
       apply map_eq. intros j. rewrite lookup_alter. case_decide as Hj; [by rewrite <-Hj, Hm|done]. }
  wp_step. unfold with_room.
  eapply (wp_rwith (g := rooms) (s := set_rooms h1 c) Hr1); [done|exact Hm|].
  intros y Hy Hky Hdy. eapply wp_mono; [by apply (wp_chat_group_del_session _ y a)|].
  intros ret [y' c'] ms' (-> & _ & Hrid & Hc & Hy'). cbn [fst snd] in *. subst c'.
  split_and!; [congruence|unfold room_dom in *; by rewrite Hrid|].
  eexists _, _. split_and!; [exact Hy'|exact Hr1|]. intros h2 Hr2 Hl2. wp_step. simpl in Hl2.
  assert (Hlen : len h2 = len (rooms c)) by congruence.
  eapply (wp_unlock_room _ _ (idles (len (rooms c)))); simpl; rewrite ?Hlen;
    [exact Hr2|done|apply (free_idles Hr)|].
  intros h3 Hl3 Hr3. wp_step. split_and!; [done..|]. exists h3. split_and!; [done|done|].
  assert (alter (aroom_del gid (sid, cid)) rid m = <[rid := aroom_del gid (sid, cid) a]> m) as ->.
  { apply map_eq. intros j. rewrite lookup_alter, lookup_insert. case_decide; [by rewrite Hm|done]. }
  by rewrite Hl3.
Qed.

(** *** Removal *)

Definition drop_room (rid : Z) (m : gmap Z aroom) : gmap Z aroom :=
  match m !! rid with
  | Some a => if aroom_empty a then delete rid m else m
  | None => m
  end.

Lemma wp_del_room c m rid ms :
  rooms_rep (rooms c) m (idles (len (rooms c))) → is_id rid → (∀ a, m !! rid = Some a → room_fits a) →
  wp (chat_del_room rid) (λ ret c' ms', ret = 0 ∧ ms' = ms ∧ rooms_now c c' (drop_room rid m)) c ms.
Proof.
  intros Hr Hid Hfit. unfold chat_del_room, drop_room. wp_step.
  eapply wp_query_room; [exact Hr|done|apply (free_idles Hr)|]. intros o h1 Ho Hl1 Hr1.
  destruct (m !! rid) as [a|] eqn:Hm; inversion Ho as [x ? Hx|]; subst.
  2: { wp_step. split_and!; [done..|]. exists h1. split_and!; [done..|by rewrite Hl1]. }
  specialize (Hfit _ eq_refl). rewrite (rr_num _ _ _ Hx), u64_small by (unfold room_fits in Hfit; lia).
  unfold aroom_empty. case_bool_decide as Hz.
  - rewrite Hz. change (Z.of_nat 0 =? 0) with true. cbn [negb]. enter. simpl.
    eapply wp_mono; [apply (wp_rdelete Hr1); [done|apply (free_nonlock Hr1)]|].
    intros ret h2 ms2 (Hl2 & -> & _ & _ & Hr2). wp_step.
    assert (Hlen : len h2 = len (rooms c)) by congruence.
    eapply (wp_unlock_room _ _ (idles (len (rooms c)))); simpl; rewrite ?Hlen;
      [exact Hr2|done|apply (free_idles Hr)|].
    intros h3 Hl3 Hr3. eapply wp_room_destroy; [exact Hx|done|]. split_and!; [done..|].
    exists h3. split_and!; [done..|by rewrite Hl3].
  - rewrite (proj2 (Z.eqb_neq _ _)) by lia. cbn [negb]. wp_step.
    eapply (wp_unlock_room _ _ (idles (len (rooms c)))); simpl; rewrite ?Hl1;
      [exact Hr1|done|apply (free_idles Hr)|].
    intros h3 Hl3 Hr3. wp_step. split_and!; [done..|]. exists h3. split_and!; [done..|by rewrite Hl3].
Qed.
End RoomTab.

(** * Sessions: the table that maps a session to the rooms it joined and to its
    subscriptions, and the map from sessions to connections *)

Section SessionTab.
Context {T : Type → Type} `{TreeLaws T}.
Abbreviation chat_tab_t := (chat_tab_t T).
Abbreviation chat_session_t := (chat_session_t T).
Abbreviation sslot n sid cid := (slot (chat_session_hash_cb (T := T)) n (session_key sid cid)).
Abbreviation session_map := (hrep session_key_of session_dom chat_session_hash_cb chat_session_cmp_cb).

(** [c'] is [c] but for its sessions, which are now [m] under the locks [L]. *)
Definition sessions_now (c c' : chat_tab_t) (m : gmap (Z * Z) asession) (L : list rwlock) : Prop :=
  ∃ h', c' = set_sessions h' c ∧ len h' = len (sessions c) ∧ sessions_rep h' m L.

Lemma wp_query_session c m L sid cid lk (Q : option chat_session_t → chat_tab_t → mem → Prop) ms :
  sessions_rep (sessions c) m L → is_id sid → is_id cid → free_at L (sslot (len (sessions c)) sid cid) lk →
  (∀ o h', option_Forall2 session_rep o (m !! (sid, cid)) → len h' = len (sessions c) →
    sessions_rep h' m (match o with Some _ => locked (sslot (len (sessions c)) sid cid) lk L | None => L end) →
    Q o (set_sessions h' c) ms) →
  wp (query_session sid cid lk) Q c ms.
Proof.
  intros Hr Hsid Hcid Hf HQ. unfold query_session. enter.
  eapply wp_mono; [apply (wp_rquery Hr); [done|done]|].
  intros o h' ms' (Hl & -> & Ho & Hr'). by apply HQ.
Qed.

Lemma wp_unlock_session c m L sid cid lk (Q : unit → chat_tab_t → mem → Prop) ms :
  sessions_rep (sessions c) m (locked (sslot (len (sessions c)) sid cid) lk L) → is_id sid → is_id cid →
  free_at L (sslot (len (sessions c)) sid cid) lk →
  (∀ h', len h' = len (sessions c) → sessions_rep h' m L → Q tt (set_sessions h' c) ms) →
  wp (unlock_session sid cid lk) Q c ms.
Proof.
  intros Hr Hsid Hcid Hf HQ. unfold unlock_session. enter.
  apply (wp_runlock Hr); [done|done|]. intros h' Hr' Hl. by apply HQ.
Qed.

(** Work on a session that is there; its representation may be broken on the way. *)
Lemma wp_with_session {A} c m L sid cid x (op : SM chat_session_t A) (Q : A → chat_tab_t → mem → Prop) ms :
  session_map (sessions c) m L → is_id sid → is_id cid → m !! (sid, cid) = Some x →
  wp op (λ r x' ms', session_key_of x' = (sid, cid) ∧
    ∀ h', session_map h' (<[(sid, cid) := x']> m) L → len h' = len (sessions c) →
      Q r (set_sessions h' c) ms') x ms →
  wp (with_session sid cid op) Q c ms.
Proof.
  intros Hr Hsid Hcid Hx HQ. unfold with_session.
  apply (wp_with_data session_key_of session_dom _ _ sessions set_sessions m L _ x); [done|done|done|].
  enter. eapply wp_mono; [exact HQ|]. intros r x' ms' [Hk HQ']. cbn [fst snd]. split_and!.
  - done.
  - unfold session_dom. by injection Hk as -> ->.
  - exists m, L, x. split_and!; [done|done|]. intros h' Hr' Hl'. by apply HQ'.
Qed.

(** *** Operations on the lists of one session *)

Lemma room_list_size h m L : room_list_rep (T := T) h m L → Z.of_nat (size m) < 2 ^ 64.
Proof.
  intros Hr. assert (Z.of_nat (size m) ≤ 2 ^ 63); [|lia]. eapply (trel_size (T := T)); [exact Hr|done|].
  intros d Hd. exact Hd.
Qed.

Lemma sub_size h X L : sub_rep (T := T) h X L → Z.of_nat (size X) < 2 ^ 64.
Proof.
  intros Hr. assert (Z.of_nat (size X) ≤ 2 ^ 16); [|lia]. rewrite <-size_gset_to_gmap.
  eapply (trel_size (T := T)); [exact Hr|done|]. intros d Hd. exact Hd.
Qed.

Lemma wp_session_destroy {Σ} (x : chat_session_t) b (s : Σ) (Q : unit → Σ → mem → Prop) ms :
  session_rep x b → Q tt s ms → wp (session_destroy x) Q s ms.
Proof.
  intros [Hr Hs] HQ. unfold session_destroy. wp_step. apply wp_run_on. wp_step.
  eapply wp_mono.
  { apply (wp_rdestroy (g := s_room) (s := x) Hr (λ v ms', ms' = ms ∧ s_sub v = s_sub x)); try done.
    by eapply room_list_size. }
  intros [] v ms' [-> Hv].
  eapply wp_mono.
  { apply (wp_rdestroy (g := s_sub) (s := v) (M := gset_to_gmap tt (a_subs b))
            (key := cmd) (dm := sub_dom) (hash := chat_sub_hash_cb) (cmp := chat_sub_cmp_cb) (R := λ _ _, True))
      with (I := λ _ ms', ms' = ms); try done.
    - rewrite Hv. exact Hs.
    - rewrite size_gset_to_gmap. by eapply sub_size. }
  intros [] v2 ms2 ->. by wp_step.
Qed.

(** *** Creation of a session *)

Lemma wp_tab_add c m rid gid sid cid :
  sessions_rep (sessions c) m (idles (len (sessions c))) → is_id rid → is_id sid → is_id cid →
  m !! (sid, cid) = None →
  wp (chat_session_tab_add rid gid sid cid) (λ ret c' ms', ret = 0 ∧ ms' = [] ∧
    sessions_now c c' (<[(sid, cid) := ASession {[rid := gid]} ∅]> m) (idles (len (sessions c)))) c [].
Proof.
  intros Hr Hrid Hsid Hcid Hm. unfold chat_session_tab_add.
  do 2 (wp_step; apply wp_malloc_nil; cbn [negb]). wp_step.
  eapply wp_mono.
  { by apply (wp_rcreat ri_rid room_item_dom room_item_hash_cb room_item_cmp_cb (λ i g, ri_gid i = g)). }
  intros o s' ms' (-> & -> & room & -> & Hlen & Hroom). wp_step. apply wp_run_on.
  rewrite <-Hlen in Hroom.
  eapply wp_mono; [apply (wp_rinsert Hroom gid); [done|done|apply (free_idles Hroom)]|].
  intros r room' ms' (Hlr & -> & HQ). rewrite lookup_empty in HQ. destruct HQ as [-> Hroom']. wp_step.
  eapply wp_mono.
  { by apply (wp_rcreat cmd sub_dom chat_sub_hash_cb chat_sub_cmp_cb (λ _ (_ : unit), True)). }
  intros o s' ms' (-> & -> & sub & -> & Hlen' & Hsub). enter.
  eapply wp_mono; [apply (wp_rinsert Hr (ASession {[rid := gid]} ∅)); [done| |apply (free_idles Hr)]|].
  { constructor; simpl.
    - by rewrite Hlr.
    - unfold sub_rep. by rewrite gset_to_gmap_empty, Hlen'. }
  intros r h' ms' (Hl & -> & HQ). change (session_key_of (Session sid cid room' sub)) with (sid, cid) in HQ.
  rewrite Hm in HQ. destruct HQ as [-> Hr']. change (TREE_OK =? 0) with true. cbn [negb]. wp_step.
  split_and!; [done..|]. by exists h'.
Qed.

(** *** A room joined by a session that exists *)

Definition session_join (rid gid : Z) (b : asession) : Z * asession :=
  match a_rooms b !! rid with
  | Some g => (g, b)
  | None => (gid, ASession (<[rid := gid]> (a_rooms b)) (a_subs b))
  end.

Lemma mrel_insert_id {D K A} `{Countable K} (R : D → A → Prop) (m : gmap K D) M k d a :
  mrel R m M → M !! k = Some a → R d a → mrel R (<[k := d]> m) M.
Proof. intros Hm Ha Hd. rewrite <-(insert_id M k a) by done. by apply mrel_insert. Qed.

Lemma wp_session_add_room c m b rid gid sid cid :
  let L := idles (len (sessions c)) in
  sessions_rep (sessions c) m (locked (sslot (len (sessions c)) sid cid) RDLOCK L) →
  is_id rid → is_id sid → is_id cid → m !! (sid, cid) = Some b →
  wp (session_add_room rid gid sid cid) (λ ret c' ms', ret = (session_join rid gid b).1 ∧ ms' = [] ∧
    sessions_now c c' (<[(sid, cid) := (session_join rid gid b).2]> m) L) c [].
Proof.
  intros L Hr Hrid Hsid Hcid Hm. unfold session_add_room. apply wp_retry. unfold session_join. wp_step.
  destruct Hr as (mc & Hr & Hmc). destruct (mrel_Some _ _ _ _ Hmc Hm) as (x & Hx & [Hxr Hxs]).
  destruct (hr_key _ _ _ _ _ _ _ _ _ Hr Hx) as [Hkx Hdx].
  assert (Hfree : free_at L (sslot (len (sessions c)) sid cid) RDLOCK).
  { unfold L. apply free_replicate. by eapply slot_lt. }
  (* the last step, from a session that represents [b'] *)
  assert (Hend : ∀ h1 mc1 x1 b' ret (Q : unit + Z → chat_tab_t → mem → Prop),
    session_map h1 mc1 (locked (sslot (len (sessions c)) sid cid) RDLOCK L) → len h1 = len (sessions c) →
    mc1 = <[(sid, cid) := x1]> mc → session_rep x1 b' →
    (∀ c', sessions_now c c' (<[(sid, cid) := b']> m) L → Q (inr ret) c' []) →
    wp (unlock_session sid cid RDLOCK;; mret (inr ret)) Q (set_sessions h1 c) []).
  { intros h1 mc1 x1 b' ret Q Hr1 Hl1 -> Hx1 HQ. wp_step.
    eapply (wp_unlock_session _ (<[(sid, cid) := b']> m) L); simpl; rewrite ?Hl1; [|done|done|done|].
    - eexists. split; [exact Hr1|]. by apply mrel_insert.
    - intros h2 Hl2 Hr2. wp_step. apply HQ. by exists h2. }
  eapply wp_with_session; [exact Hr|done|done|exact Hx|]. enter.
  eapply wp_mono; [apply (wp_rquery Hxr); [done|apply (free_idles Hxr)]|].
  intros o h1 ms1 (Hl1 & -> & Ho & Hxr1). split; [done|]. intros hs Hrs Hls.
  destruct (a_rooms b !! rid) as [g|] eqn:Hg; simpl in Ho; rewrite Hg in Ho;
    inversion Ho as [i ? Hi|]; subst; cbn [fst snd].
  - wp_step.
    eapply wp_with_session; [exact Hrs|done|done|by rewrite lookup_insert_eq|]. enter.
    rewrite <-Hl1 in Hxr1. apply (wp_runlock (h := h1) Hxr1); [done|rewrite Hl1; apply (free_idles Hxr)|].
    intros h2 Hxr2 Hl2. cbn [fst snd]. split; [done|]. intros hs2 Hrs2 Hls2. simpl in Hls2.
    eapply Hend; [exact Hrs2|congruence|by rewrite insert_insert_eq| |].
    + constructor; simpl; [|exact Hxs]. by rewrite Hl2.
    + intros c' Hc'. by split_and!.
  - wp_step. apply wp_malloc_nil. cbn [negb]. wp_step.
    eapply wp_with_session; [exact Hrs|done|done|by rewrite lookup_insert_eq|]. enter. simpl.
    rewrite <-Hl1 in Hxr1. eapply wp_mono; [apply (wp_rinsert Hxr1 gid); [done|done|apply (free_idles Hxr1)]|].
    intros r h2 ms2 (Hl2 & -> & HQ). simpl in HQ. rewrite Hg in HQ. destruct HQ as [-> Hxr2].
    split; [done|]. intros hs2 Hrs2 Hls2. simpl in Hls2.
    change (TREE_OK =? TREE_NODE_EXIST) with false. change (TREE_OK =? 0) with true. cbn [negb].
    eapply (Hend _ _ _ (ASession (<[rid := gid]> (a_rooms b)) (a_subs b))); [exact Hrs2|congruence|by rewrite insert_insert_eq| |].
    + constructor; simpl; [|exact Hxs]. by rewrite Hl2.
    + intros c' Hc'. by split_and!.
Qed.
End SessionTab.
