(* ===== verification/ChatRefine.v ===== *)
(** Each operation of [lib/chat/chat.c] refines an operation on the abstract
    state. *)
From stdpp Require Import fin_maps gmap.
From S2P Require Import Prelude Heap Table HashTab TabRel List Chat ChatSpec ChatRooms ChatOps.
Open Scope Z_scope.

(** ** The abstract operations *)

(** [chat_room_add_session]: the answer, and the state. *)
Definition achat_join (now rid gid : Z) (k : Z * Z) (a : achat) : Z * achat :=
  match ac_sessions a !! k with
  | Some b =>
      ((session_join rid gid b).1, on_ac_sessions (<[k := (session_join rid gid b).2]>) a)
  | None =>
      (0, AChat (enter_rooms now rid gid k (ac_rooms a))
            (<[k := ASession {[rid := gid]} ∅]> (ac_sessions a)) (ac_cids a))
  end.

(** [chat_room_del_session]. *)
Definition achat_part (rid : Z) (k : Z * Z) (a : achat) : achat :=
  match ac_sessions a !! k with
  | Some b =>
      match a_rooms b !! rid with
      | Some gid =>
          AChat (alter (aroom_del gid k) rid (ac_rooms a))
            (<[k := ASession (delete rid (a_rooms b)) (a_subs b)]> (ac_sessions a)) (ac_cids a)
      | None => a
      end
  | None => a
  end.

(** A session leaves the rooms [rs]. *)
Definition leave_rooms (k : Z * Z) (rs : gmap Z Z) (m : gmap Z aroom) : gmap Z aroom :=
  map_imap (λ rid r, Some (match rs !! rid with Some gid => aroom_del gid k r | None => r end)) m.

Definition achat_del_cid (sid cid : Z) : achat → achat :=
  on_ac_cids (λ m, if decide (m !! sid = Some cid) then delete sid m else m).

(** [chat_del_session]. *)
Definition achat_del_session (k : Z * Z) (a : achat) : achat :=
  let a := achat_del_cid k.1 k.2 a in
  match ac_sessions a !! k with
  | Some b => AChat (leave_rooms k (a_rooms b) (ac_rooms a)) (delete k (ac_sessions a)) (ac_cids a)
  | None => a
  end.

Definition set_subs (f : gset Z → gset Z) (b : asession) : asession := ASession (a_rooms b) (f (a_subs b)).

(** [chat_add_sub] and [chat_del_sub], [f] being the change of the subscriptions. *)
Definition achat_sub (f : gset Z → gset Z) (sid : Z) (a : achat) : Z * achat :=
  let cid := default 0 (ac_cids a !! sid) in
  if cid =? 0 then (-1, a) else
  match ac_sessions a !! (sid, cid) with
  | Some b => (0, on_ac_sessions (<[(sid, cid) := set_subs f b]>) a)
  | None => (-1, a)
  end.

Section Refine.
Context {T : Type → Type} `{TreeLaws T}.
Abbreviation chat_tab_t := (chat_tab_t T).
Abbreviation chat_session_t := (chat_session_t T).
Abbreviation sslot n sid cid := (slot (chat_session_hash_cb (T := T)) n (session_key sid cid)).

(** *** The parts of the state *)

Lemma chat_rep_rooms c c' a m : chat_rep c a → rooms_now c c' m → chat_rep c' (on_ac_rooms (λ _, m) a).
Proof. intros [R1 R2 R3] (h' & -> & Hl & Hr). by constructor. Qed.

Lemma chat_repL_sessions L L' c c' a m :
  chat_repL L c a → sessions_now c c' m L' → chat_repL L' c' (on_ac_sessions (λ _, m) a).
Proof. intros [R1 R2 R3] (h' & -> & Hl & Hr). by constructor. Qed.

Lemma sessions_now_len c c' m L : sessions_now c c' m L → len (sessions c') = len (sessions c).
Proof. by intros (h' & -> & Hl & _). Qed.

Lemma chat_rep_sessions c c' a m :
  chat_rep c a → sessions_now c c' m (idles (len (sessions c))) → chat_rep c' (on_ac_sessions (λ _, m) a).
Proof.
  intros Hr Hs. unfold chat_rep. rewrite (sessions_now_len _ _ _ _ Hs). by eapply chat_repL_sessions.
Qed.

Lemma achat_eta a : AChat (ac_rooms a) (ac_sessions a) (ac_cids a) = a.
Proof. by destruct a. Qed.

(** *** From sessions to connections *)

Lemma cid_free c m L sid lk : cids_rep (T := T) c m L → L = idles (len c) →
  free_at L (slot chat_sid2cid_hash_cb (len c) (CidItem sid 0)) lk.
Proof. intros Hr ->. apply (free_idles Hr). Qed.

Lemma wp_get_cid L c a sid ms :
  chat_repL L c a → is_id sid →
  wp (chat_get_cid_by_sid sid) (λ ret c' ms', ret = default 0 (ac_cids a !! sid) ∧ ms' = ms ∧
    chat_repL L c' a ∧ len (sessions c') = len (sessions c)) c ms.
Proof.
  intros [R1 R2 R3] Hid. unfold chat_get_cid_by_sid. enter.
  eapply wp_mono; [apply (wp_rquery R3); [done|apply (free_idles R3)]|].
  intros o h1 ms1 (Hl1 & -> & Ho & Hr1). simpl in Ho.
  destruct (ac_cids a !! sid) as [cid|]; inversion Ho as [i ? Hi|]; subst; enter.
  - simpl. rewrite <-Hl1 in Hr1. apply (wp_runlock (h := h1) Hr1); [done|apply (free_idles Hr1)|].
    intros h2 Hr2 Hl2. wp_step. split_and!; [done..| |done]. constructor; simpl; [done..|]. by rewrite Hl2.
  - split_and!; [done..| |done]. constructor; simpl; [done..|]. by rewrite Hl1.
Qed.

Lemma wp_set_cid c a sid cid :
  chat_rep c a → is_id sid →
  wp (chat_set_sid_to_cid sid cid) (λ ret c' ms', ret = 0 ∧ ms' = [] ∧
    chat_rep c' (on_ac_cids (<[sid := cid]>) a)) c [].
Proof.
  intros [R1 R2 R3] Hid. unfold chat_set_sid_to_cid. apply wp_retry. enter.
  eapply wp_mono; [apply (wp_rquery R3); [done|apply (free_idles R3)]|].
  intros o h1 ms1 (Hl1 & -> & Ho & Hr1). simpl in Ho.
  destruct (ac_cids a !! sid) as [cid'|] eqn:Hm; inversion Ho as [i ? Hi|]; subst.
  - destruct (Z.eqb_spec (it_cid i) cid) as [Hc|Hc]; enter; simpl.
    + rewrite <-Hl1 in Hr1. apply (wp_runlock (h := h1) Hr1); [done|apply (free_idles Hr1)|].
      intros h2 Hr2 Hl2. wp_step. split_and!; [done..|]. constructor; simpl; [done..|].
      rewrite Hl2, insert_id by congruence. done.
    + rewrite <-Hl1 in Hr1. eapply wp_mono; [apply (wp_rdelete Hr1); [done|apply (free_nonlock Hr1)]|].
      intros r h2 ms2 (Hl2 & -> & _ & _ & Hr2). wp_step. apply wp_malloc_nil. cbn [negb]. enter. simpl.
      rewrite <-Hl2 in Hr2.
      eapply wp_mono; [apply (wp_rinsert Hr2 cid); [done|done|apply (free_nonlock Hr2)]|].
      intros r3 h3 ms3 (Hl3 & -> & HQ). simpl in HQ. rewrite lookup_delete_eq in HQ. destruct HQ as [-> Hr3].
      change (TREE_OK =? 0) with true. cbn [negb]. enter. simpl.
      rewrite <-Hl3 in Hr3. apply (wp_runlock (h := h3) Hr3); [done|apply (free_idles Hr3)|].
      intros h4 Hr4 Hl4. wp_step. split_and!; [done..|]. constructor; simpl; [done..|].
      rewrite insert_delete_eq in Hr4. by rewrite Hl4.
  - wp_step. apply wp_malloc_nil. cbn [negb]. enter. simpl. rewrite <-Hl1 in Hr1.
    eapply wp_mono; [apply (wp_rinsert Hr1 cid); [done|done|apply (free_idles Hr1)]|].
    intros r3 h3 ms3 (Hl3 & -> & HQ). simpl in HQ. rewrite Hm in HQ. destruct HQ as [-> Hr3].
    change (TREE_OK =? 0) with true. cbn [negb]. wp_step. split_and!; [done..|].
    constructor; simpl; [done..|]. by rewrite Hl3.
Qed.

Lemma wp_del_cid L c a sid cid ms :
  chat_repL L c a → is_id sid →
  wp (chat_del_sid_to_cid sid cid) (λ ret c' ms', ret = 0 ∧ ms' = ms ∧
    chat_repL L c' (achat_del_cid sid cid a) ∧ sessions c' = sessions c ∧ rooms c' = rooms c) c ms.
Proof.
  intros [R1 R2 R3] Hid. unfold chat_del_sid_to_cid. enter.
  eapply wp_mono; [apply (wp_rquery R3); [done|apply (free_idles R3)]|].
  intros o h1 ms1 (Hl1 & -> & Ho & Hr1). simpl in Ho.
  unfold achat_del_cid, on_ac_cids.
  destruct (ac_cids a !! sid) as [cid'|] eqn:Hm; inversion Ho as [i ? Hi|]; subst.
  2: { rewrite decide_False by done. enter. split_and!; [done..| |done|done]. constructor; simpl; [done..|].
       by rewrite Hl1. }
  rewrite <-Hl1 in Hr1. destruct (Z.eqb_spec (it_cid i) cid) as [Hc|Hc].
  - rewrite decide_True by congruence. enter. simpl.
    eapply wp_mono; [apply (wp_rdelete Hr1); [done|apply (free_nonlock Hr1)]|].
    intros r h2 ms2 (Hl2 & -> & _ & _ & Hr2). enter. simpl. rewrite <-Hl2 in Hr2.
    apply (wp_runlock (h := h2) Hr2); [done|apply (free_idles Hr2)|].
    intros h4 Hr4 Hl4. wp_step. split_and!; [done..| |done|done]. constructor; simpl; [done..|].
    by rewrite Hl4.
  - rewrite decide_False by congruence. enter. simpl.
    apply (wp_runlock (h := h1) Hr1); [done|apply (free_idles Hr1)|].
    intros h4 Hr4 Hl4. wp_step. split_and!; [done..| |done|done]. constructor; simpl; [done..|].
    by rewrite Hl4.
Qed.

(** *** Joining *)

Lemma wp_join c a now rid gid sid cid :
  chat_rep c a → is_id rid → is_id sid → is_id cid →
  wp (chat_room_add_session now rid gid sid cid) (λ ret c' ms', ms' = [] ∧
    ret = (achat_join now rid gid (sid, cid) a).1 ∧
    chat_rep c' (achat_join now rid gid (sid, cid) a).2) c [].
Proof.
  intros Hrep Hrid Hsid Hcid. pose proof Hrep as [R1 R2 R3].
  unfold chat_room_add_session, achat_join. wp_step.
  eapply wp_query_session; [exact R2|done|done|apply (free_idles R2)|]. intros o h1 Ho Hl1 Hr1.
  destruct (ac_sessions a !! (sid, cid)) as [b|] eqn:Hb; inversion Ho as [x ? Hx|]; subst.
  - eapply wp_mono; [apply (wp_session_add_room _ (ac_sessions a) b); simpl; rewrite ?Hl1; done|].
    intros ret c' ms' (-> & -> & h2 & -> & Hl2 & Hr2). cbn [fst snd]. split_and!; [done..|].
    constructor; simpl in *; [done| |done]. by rewrite Hl2.
  - wp_step. eapply wp_mono; [apply (wp_enter _ (ac_rooms a)); done|].
    intros ret c1 ms1 (-> & -> & Hc1). change (0 =? 0) with true. cbn [negb]. wp_step.
    assert (Hrep1 : chat_rep c1 (on_ac_rooms (λ _, enter_rooms now rid gid (sid, cid) (ac_rooms a)) a)).
    { eapply (chat_rep_rooms (set_sessions h1 c)); [|exact Hc1].
      constructor; simpl; [done|by rewrite Hl1|done]. }
    pose proof Hrep1 as [_ R2' _].
    eapply wp_mono; [apply (wp_tab_add _ (ac_sessions a)); done|].
    intros ret c2 ms2 (-> & -> & Hs). change (0 =? 0) with true. cbn [negb]. wp_step.
    split_and!; [done..|]. exact (chat_rep_sessions _ _ _ _ Hrep1 Hs).
Qed.

(** *** Leaving *)

(** The lock of the slot stays read-locked when the session is known. *)
Lemma wp_part c a rid sid cid ms :
  chat_rep c a → is_id rid → is_id sid → is_id cid →
  wp (chat_room_del_session rid sid cid) (λ ret c' ms', ret = 0 ∧ ms' = ms ∧
    len (sessions c') = len (sessions c) ∧
    chat_repL (match ac_sessions a !! (sid, cid) with
               | Some _ => locked (sslot (len (sessions c)) sid cid) RDLOCK (idles (len (sessions c)))
               | None => idles (len (sessions c))
               end) c' (achat_part rid (sid, cid) a)) c ms.
Proof.
  intros [R1 R2 R3] Hrid Hsid Hcid. unfold chat_room_del_session, achat_part. wp_step.
  eapply wp_query_session; [exact R2|done|done|apply (free_idles R2)|]. intros o h1 Ho Hl1 Hr1.
  destruct (ac_sessions a !! (sid, cid)) as [b|] eqn:Hb; inversion Ho as [x ? Hx|]; subst.
  2: { wp_step. split_and!; [done..|]. by constructor. }
  wp_step. destruct Hr1 as (mc & Hr1 & Hmc). destruct (mrel_Some _ _ _ _ Hmc Hb) as (y & Hy & [Hyr Hys]).
  destruct (hr_key _ _ _ _ _ _ _ _ _ Hr1 Hy) as [Hky _].
  eapply (wp_with_session (set_sessions h1 c)); [exact Hr1|done|done|exact Hy|]. enter.
  eapply wp_mono; [apply (wp_rdelete Hyr); [done|apply (free_idles Hyr)]|].
  intros o2 h2 ms2 (Hl2 & -> & Ho2 & Hk2 & Hyr2). split; [done|]. intros hs Hrs Hls. simpl in Hls.
  change (ri_rid (RoomItem rid 0)) with rid in *.
  assert (Hs' : sessions_rep hs (<[(sid, cid) := ASession (delete rid (a_rooms b)) (a_subs b)]> (ac_sessions a))
     (locked (sslot (len (sessions c)) sid cid) RDLOCK (idles (len (sessions c))))).
  { eexists. split; [exact Hrs|]. apply mrel_insert; [done|]. constructor; simpl; [by rewrite Hl2|done]. }
  destruct (a_rooms b !! rid) as [gid|] eqn:Hg; inversion Ho2 as [i ? Hi|]; subst.
  - destruct (Hk2 _ eq_refl) as [Hik _]. wp_step.
    eapply wp_mono; [apply (wp_leave _ (ac_rooms a)); rewrite ?Hik; done|].
    intros ret c' ms' (_ & -> & h3 & -> & Hl3 & Hr3). wp_step. rewrite Hik in Hr3.
    split_and!; [done|done|simpl; congruence|]. by constructor.
  - wp_step. split_and!; [done|done|simpl; congruence|]. constructor; simpl; [done| |done].
    rewrite delete_id in Hs' by done. rewrite insert_id in Hs' by (rewrite Hb; by destruct b). done.
Qed.

Lemma leave_rooms_ext k rs1 rs2 m : (∀ rid, rs1 !! rid = rs2 !! rid) → leave_rooms k rs1 m = leave_rooms k rs2 m.
Proof. intros Hrs. unfold leave_rooms. apply map_eq. intros j. by rewrite !map_lookup_imap, Hrs. Qed.

(** Leaving one more room. *)
Lemma leave_rooms_step k rs rid gid m :
  rs !! rid = None → alter (aroom_del gid k) rid (leave_rooms k rs m) = leave_rooms k (<[rid := gid]> rs) m.
Proof.
  intros Hrs. apply map_eq. intros j. unfold leave_rooms.
  rewrite lookup_alter, !map_lookup_imap, lookup_insert.
  destruct (decide (rid = j)) as [<-|Hj]; [|done]. rewrite Hrs. by destruct (m !! rid).
Qed.

(** The entries of a map under the keys [ks]. *)
Definition those {A} (ks : list Z) (m : gmap Z A) : gmap Z A := filter (λ p, p.1 ∈ ks) m.

Lemma lookup_those {A} ks (m : gmap Z A) j : those ks m !! j = if decide (j ∈ ks) then m !! j else None.
Proof.
  unfold those. destruct (decide (j ∈ ks)) as [Hj|Hj].
  - destruct (m !! j) as [x|] eqn:Hm; [by apply map_lookup_filter_Some_2|].
    apply map_lookup_filter_None_2. by left.
  - apply map_lookup_filter_None_2. right. intros x _. done.
Qed.

Lemma wp_del_session c a sid cid ms :
  chat_rep c a → is_id sid → is_id cid →
  wp (chat_del_session sid cid) (λ ret c' ms', ret = 0 ∧ ms' = ms ∧
    chat_rep c' (achat_del_session (sid, cid) a)) c ms.
Proof.
  intros Hrep Hsid Hcid. unfold chat_del_session, achat_del_session. wp_step.
  eapply wp_mono; [by apply (wp_del_cid (idles (len (sessions c))))|]. cbn [fst snd].
  intros ret c1 ms1 (-> & -> & [R1 R2 R3] & Hs1 & _). enter.
  set (a1 := achat_del_cid sid cid a) in *. rewrite <-Hs1 in R2.
  eapply wp_mono; [apply (wp_rdelete R2); [done|apply (free_idles R2)]|].
  intros o h1 ms1 (Hl1 & -> & Ho & Hko & Hr1). change (session_key_of (session_key (T := T) sid cid)) with (sid, cid) in *.
  destruct (ac_sessions a1 !! (sid, cid)) as [b|] eqn:Hb; inversion Ho as [x ? Hx|]; subst.
  2: { wp_step. split_and!; [done..|]. constructor; simpl; [done| |done].
       rewrite delete_id in Hr1 by done. by rewrite Hl1. }
  destruct (Hko _ eq_refl) as [Hkx Hdx]. injection Hkx as Hsx Hcx.
  wp_step. apply wp_with_local. pose proof Hx as [Hxr Hxs].
  set (c2 := set_sessions h1 c1) in *.
  eapply wp_mono.
  { eapply (wp_rtrav_ro (g := λ s, s_room s.1) (s := (x, c2)) (lk := RDLOCK) Hxr)
      with (I := λ ks s ms', ms' = ms ∧ (∃ h, s.1 = set_s_room h x) ∧
        rooms_now c2 s.2 (leave_rooms (sid, cid) (those ks (a_rooms b)) (ac_rooms a1))).
    - done.
    - intros ks h [s1 s2] ms' (-> & [h0 Hh0] & Hs2). cbn [fst snd] in *. split_and!; [done| |done].
      exists h. by rewrite Hh0.
    - intros ks d gid s ms' Hgid Hd Hdd Hks (-> & Hs & Hnow). unfold _chat_room_trav_del_session. enter.
      rewrite Hsx, Hcx. destruct Hnow as (h2 & Hc2 & Hl2 & Hr2).
      eapply wp_mono; [eapply (wp_leave s.2 _ (ri_rid d) (ri_gid d) sid cid); rewrite ?Hc2; [exact Hr2|done|done|done]|].
      intros ret c3 ms3 (_ & -> & Hc3). wp_step. split_and!; [done|done|done|]. cbn [fst snd].
      eapply rooms_now_trans; [by exists h2|]. rewrite Hd, leave_rooms_step in Hc3.
      + assert (<[ri_rid d:=gid]> (those ks (a_rooms b))
                = those (ks ++ [ri_rid d]) (a_rooms b)) as <-; [|exact Hc3].
        apply map_eq. intros j. rewrite lookup_insert, !lookup_those.
        destruct (decide (ri_rid d = j)) as [<-|Hj].
        * rewrite decide_True by set_solver. by rewrite Hgid.
        * apply decide_ext. set_solver.
      + by rewrite lookup_those, decide_False.
    - intros i Hi. apply free_replicate. exact Hi.
    - by eapply room_list_size.
    - split_and!; [done|exists (s_room x); by destruct x|]. exists (rooms c2). cbn [snd]. split_and!; [by destruct c1|done|].
      assert (leave_rooms (sid, cid) (those [] (a_rooms b)) (ac_rooms a1) = ac_rooms a1) as ->.
      { apply map_eq. intros j. unfold leave_rooms. rewrite map_lookup_imap, lookup_those. by destruct (ac_rooms a1 !! j). }
      exact R1. }
  intros [] s' ms' (ks & Hls & Htr & Hks & -> & [h2 Hh2] & Hnow). wp_step.
  eapply (wp_session_destroy s'.1 b).
  { cbn [fst snd] in Hls, Htr. constructor; [rewrite Hls; exact Htr|]. rewrite Hh2. exact Hxs. }
  wp_step. split_and!; [done..|]. destruct Hnow as (h3 & -> & Hl3 & Hr3). constructor; simpl.
  - change (rooms_rep h3 (leave_rooms (sid, cid) (a_rooms b) (ac_rooms a1)) (idles (len h3))).
    assert (leave_rooms (sid, cid) (a_rooms b) (ac_rooms a1) = leave_rooms (sid, cid) (those ks (a_rooms b)) (ac_rooms a1)) as ->; [|done].
    apply leave_rooms_ext. intros j. rewrite lookup_those. case_decide as Hj; [done|].
    destruct (a_rooms b !! j) as [g|] eqn:Hg; [|done]. exfalso. apply Hj. rewrite Hks.
    apply (list_elem_of_fmap_2' _ _ (j, g)); [by apply elem_of_map_to_list|done].
  - by rewrite Hl1.
  - done.
Qed.
End Refine.
