(* ===== verification/ChatTrav.v ===== *)
(** Subscriptions, the traversal of the members of a room, and the removal of the
    rooms that are empty. *)
From stdpp Require Import fin_maps gmap.
From S2P Require Import Prelude Heap Table HashTab TabRel List Chat ChatSpec ChatRooms ChatOps ChatRefine.
Open Scope Z_scope.

Section Trav.
Context {T : Type → Type} `{TreeLaws T}.
Abbreviation chat_tab_t := (chat_tab_t T).
Abbreviation chat_room_t := (chat_room_t T).
Abbreviation chat_group_t := (chat_group_t T).
Abbreviation chat_session_t := (chat_session_t T).

(** *** Subscriptions *)

(** Work on a session between its query and the release of its lock. *)
Lemma wp_on_session {A B} c m b b' sid cid (op : SM chat_session_t A)
    (k : A → SM chat_tab_t B) (z : SM chat_tab_t B) (Q : B → chat_tab_t → mem → Prop) ms :
  let L := idles (len (sessions c)) in
  sessions_rep (sessions c) m L → is_id sid → is_id cid → m !! (sid, cid) = Some b →
  (∀ x, session_rep x b →
    wp op (λ r x' ms', session_key_of x' = session_key_of x ∧ session_rep x' b' ∧
      (∀ c', sessions_now c c' (<[(sid, cid) := b']> m) L → wp (k r) Q c' ms')) x ms) →
  wp (session ← query_session sid cid RDLOCK;
      match session with
      | None => z
      | Some _ =>
          ret ← with_session sid cid op;
          unlock_session sid cid RDLOCK;;
          k ret
      end) Q c ms.
Proof.
  intros L Hr Hsid Hcid Hb Hop. wp_step.
  eapply wp_query_session; [exact Hr|done|done|apply (free_idles Hr)|]. intros o h1 Ho Hl1 Hr1.
  rewrite Hb in Ho. inversion Ho as [x ? Hx|]; subst.
  destruct Hr1 as (mc & Hr1 & Hmc). destruct (mrel_Some _ _ _ _ Hmc Hb) as (y & Hy & Hyb).
  destruct (hr_key _ _ _ _ _ _ _ _ _ Hr1 Hy) as [Hky _]. wp_step.
  eapply (wp_with_session (set_sessions h1 c)); [exact Hr1|done|done|exact Hy|].
  eapply wp_mono; [by apply Hop|]. intros r y' ms2 (Hk & Hy' & HQ). split; [by rewrite Hk|].
  intros hs Hrs Hls. wp_step.
  assert (Hlen : len hs = len (sessions c)) by (simpl in Hls; congruence).
  eapply (wp_unlock_session _ (<[(sid, cid) := b']> m) L); simpl; rewrite ?Hlen;
    [|done|done|apply (free_idles Hr)|].
  - eexists. split; [exact Hrs|]. by apply mrel_insert.
  - intros h3 Hl3 Hr3. apply HQ. by exists h3.
Qed.

Lemma subs_add h X d :
  sub_rep (T := T) h X (idles (len h)) → sub_dom d →
  wp (hash_tab_insert chat_sub_hash_cb chat_sub_cmp_cb d WRLOCK) (λ r h' ms', ms' = [] ∧
    r = (if decide (cmd d ∈ X) then TREE_NODE_EXIST else TREE_OK) ∧
    sub_rep h' ({[cmd d]} ∪ X) (idles (len h'))) h [].
Proof.
  intros Hr Hd. eapply wp_mono; [apply (wp_rinsert Hr tt); [done|done|apply (free_idles Hr)]|].
  intros r h' ms' (Hl & -> & HQ). rewrite gset_to_gmap_lookup in HQ.
  revert HQ. case_decide as Hc; intros [-> Hr']; (split_and!; [done..|]); rewrite Hl; [|].
  - by assert ({[cmd d]} ∪ X = X) as -> by set_solver.
  - unfold sub_rep. by rewrite gset_to_gmap_insert.
Qed.

Lemma subs_del h X d ms :
  sub_rep (T := T) h X (idles (len h)) → sub_dom d →
  wp (hash_tab_delete chat_sub_hash_cb chat_sub_cmp_cb d WRLOCK) (λ r h' ms', ms' = ms ∧
    sub_rep h' (X ∖ {[cmd d]}) (idles (len h'))) h ms.
Proof.
  intros Hr Hd. eapply wp_mono; [apply (wp_rdelete Hr); [done|apply (free_idles Hr)]|].
  intros r h' ms' (Hl & -> & _ & _ & Hr'). split; [done|]. unfold sub_rep. by rewrite gset_to_gmap_delete, Hl.
Qed.

Lemma sub_dom_u16 cmd : sub_dom (SubItem (u16 cmd)).
Proof. unfold sub_dom, u16. simpl. apply Z.mod_pos_bound. lia. Qed.

Lemma chat_rep_idles L c a : chat_repL L c a → L = idles (len (sessions c)) → chat_rep c a.
Proof. by intros ? ->. Qed.

Lemma wp_add_sub c a sid cmd :
  chat_rep c a → is_id sid → is_id (default 0 (ac_cids a !! sid)) →
  wp (chat_add_sub sid cmd) (λ ret c' ms', ms' = [] ∧
    ret = (achat_sub (λ X, {[u16 cmd]} ∪ X) sid a).1 ∧
    chat_rep c' (achat_sub (λ X, {[u16 cmd]} ∪ X) sid a).2) c [].
Proof.
  intros Hrep Hsid Hcid. unfold chat_add_sub, achat_sub. wp_step. apply wp_malloc_nil. cbn [negb]. wp_step.
  eapply wp_mono; [by apply (wp_get_cid (idles (len (sessions c))))|].
  intros cid c1 ms1 (-> & -> & Hrep1 & Hl1). apply chat_rep_idles in Hrep1; [|congruence].
  set (cid := default 0 (ac_cids a !! sid)) in *.
  case_match; [by wp_step|].
  pose proof Hrep1 as [R1 R2 R3].
  destruct (ac_sessions a !! (sid, cid)) as [b|] eqn:Hb.
  - eapply (wp_on_session _ _ b (set_subs (λ X, {[u16 cmd]} ∪ X) b)); [exact R2|done|done|exact Hb|]. intros x [Hxr Hxs]. enter.
    eapply wp_mono; [apply subs_add; [exact Hxs|apply sub_dom_u16]|].
    intros r h' ms' (-> & -> & Hh'). split; [done|]. split; [by constructor; [exact Hxr|exact Hh']|]. intros c' Hc'.
    pose proof (chat_rep_sessions _ _ _ _ Hrep1 Hc') as Hrep'. by case_decide.
  - wp_step. eapply wp_query_session; [exact R2|done|done|apply (free_idles R2)|].
    intros o h2 Ho Hl2 Hr2. rewrite Hb in Ho. inversion Ho; subst. wp_step. split_and!; [done..|].
    constructor; simpl; [done| |done]. by rewrite Hl2.
Qed.

Lemma wp_del_sub c a sid cmd ms :
  chat_rep c a → is_id sid → is_id (default 0 (ac_cids a !! sid)) →
  wp (chat_del_sub sid cmd) (λ ret c' ms', ms' = ms ∧
    ret = (achat_sub (λ X, X ∖ {[u16 cmd]}) sid a).1 ∧
    chat_rep c' (achat_sub (λ X, X ∖ {[u16 cmd]}) sid a).2) c ms.
Proof.
  intros Hrep Hsid Hcid. unfold chat_del_sub, achat_sub. wp_step.
  eapply wp_mono; [by apply (wp_get_cid (idles (len (sessions c))))|].
  intros cid c1 ms1 (-> & -> & Hrep1 & Hl1). apply chat_rep_idles in Hrep1; [|congruence].
  set (cid := default 0 (ac_cids a !! sid)) in *. case_match; [by wp_step|].
  pose proof Hrep1 as [R1 R2 R3].
  destruct (ac_sessions a !! (sid, cid)) as [b|] eqn:Hb.
  - eapply (wp_on_session _ _ b (set_subs (λ X, X ∖ {[u16 cmd]}) b)); [exact R2|done|done|exact Hb|]. intros x [Hxr Hxs]. enter.
    eapply wp_mono; [apply subs_del; [exact Hxs|apply sub_dom_u16]|].
    intros r h' ms' (-> & Hh'). split; [done|]. split; [by constructor; [exact Hxr|exact Hh']|]. intros c' Hc'. wp_step. split_and!; [done..|].
    exact (chat_rep_sessions _ _ _ _ Hrep1 Hc').
  - wp_step. eapply wp_query_session; [exact R2|done|done|apply (free_idles R2)|].
    intros o h2 Ho Hl2 Hr2. rewrite Hb in Ho. inversion Ho; subst. wp_step. split_and!; [done..|].
    constructor; simpl; [done| |done]. by rewrite Hl2.
Qed.

(** [chat_has_sub] finds a session whose connection is the content of the
    uninitialised field, and answers for a command that is there. *)
Lemma wp_has_sub c a junk sid cmd ms :
  chat_rep c a → is_id sid → is_id junk →
  (∀ b, ac_sessions a !! (sid, junk) = Some b → u16 cmd ∈ a_subs b) →
  wp (chat_has_sub junk sid cmd) (λ ret c' ms', ms' = ms ∧
    ret = bool_decide (is_Some (ac_sessions a !! (sid, junk))) ∧ chat_rep c' a) c ms.
Proof.
  intros Hrep Hsid Hcid Hsub. pose proof Hrep as [R1 R2 R3]. unfold chat_has_sub.
  destruct (ac_sessions a !! (sid, junk)) as [b|] eqn:Hb.
  - specialize (Hsub _ eq_refl). eapply (wp_on_session _ _ b b); [exact R2|done|done|exact Hb|].
    intros x [Hxr Hxs]. unfold _chat_has_sub. enter.
    eapply wp_mono; [apply (wp_rquery Hxs); [apply sub_dom_u16|apply (free_idles Hxs)]|].
    intros o h1 ms1 (Hl1 & -> & Ho & Hr1). rewrite gset_to_gmap_lookup, decide_True in Ho by exact Hsub.
    inversion Ho as [d ? _|]; subst. enter. rewrite <-Hl1 in Hr1. simpl.
    apply (wp_runlock (h := h1) Hr1); [apply sub_dom_u16|apply (free_idles Hr1)|].
    intros h2 Hr2 Hl2. wp_step. split; [done|]. split; [constructor; simpl; [done|by rewrite Hl2]|].
    intros c' Hc'. wp_step. split_and!; [done|done|]. rewrite insert_id in Hc' by done.
    pose proof (chat_rep_sessions _ _ _ _ Hrep Hc') as Hrep'. by destruct a.
  - wp_step. eapply wp_query_session; [exact R2|done|done|apply (free_idles R2)|].
    intros o h2 Ho Hl2 Hr2. rewrite Hb in Ho. inversion Ho; subst. wp_step. split_and!; [done..|].
    constructor; simpl; [done| |done]. by rewrite Hl2.
Qed.

(** *** Traversal *)

(** The members a traversal of the group [gid] visits. *)
Definition visits (gid : Z) (a : aroom) : list (Z * Z) :=
  if u16 gid =? 0 then concat ((λ p, elements p.2) <$> map_to_list (a_groups a))
  else elements (default ∅ (a_groups a !! u16 gid)).

Section Visit.
Context {Σ : Type} (proc : chat_sid2cid_item_t → SM Σ unit) (I : list (Z * Z) → Σ → mem → Prop).
Hypothesis Hproc : ∀ ks i σ ms, I ks σ ms → wp (proc i) (λ _, I (ks ++ [item_key i])) σ ms.

Lemma keys_elements (X : gset (Z * Z)) : (map_to_list (gset_to_gmap tt X)).*1 ≡ₚ elements X.
Proof.
  apply NoDup_Permutation; [apply NoDup_fst_map_to_list|apply NoDup_elements|].
  intros k. rewrite elem_of_elements, list_elem_of_fmap. split.
  - intros ([k' []] & -> & Hk). apply elem_of_map_to_list, lookup_gset_to_gmap_Some in Hk as [? _]. done.
  - intros Hk. exists (k, tt). split; [done|]. by apply elem_of_map_to_list, lookup_gset_to_gmap_Some.
Qed.

(** One group. *)
Lemma wp_visit_set grp X ks0 (s : chat_room_t * Σ) ms :
  group_rep grp X → Z.of_nat (size X) < 2 ^ 64 → I ks0 s.2 ms →
  wp (hash_tab_trav (λ s, sid_set s.1) (λ h s, (set_sid_set h s.1, s.2)) (λ i, on_snd (on_snd (proc i))) RDLOCK)
    (λ _ s' ms', g_gid s'.1 = g_gid grp ∧ group_rep s'.1 X ∧ s'.2.1 = s.1 ∧
      ∃ ks, ks ≡ₚ elements X ∧ I (ks0 ++ ks) s'.2.2 ms') (grp, s) ms.
Proof.
  intros [Hn Hs] Hsz HI. eapply wp_mono.
  { eapply (wp_rtrav_ro (g := λ s, sid_set s.1) (s := (grp, s)) (lk := RDLOCK) Hs)
      with (I := λ ks s' ms', (∃ h, s'.1 = set_sid_set h grp) ∧ s'.2.1 = s.1 ∧ I (ks0 ++ ks) s'.2.2 ms').
    - done.
    - intros ks h [s1 s2] ms' ([h0 Hh0] & Hs2 & HI'). cbn [fst snd] in *. split_and!; [|done|done].
      exists h. by rewrite Hh0.
    - intros ks d [] s' ms' _ _ _ _ (Hh & Hs' & HI'). enter. eapply wp_mono; [by apply Hproc|].
      intros [] σ' ms2 HI2. cbn [fst snd]. rewrite <-app_assoc in HI2. done.
    - intros i Hi. by apply free_replicate.
    - by rewrite size_gset_to_gmap.
    - cbn [fst snd]. rewrite app_nil_r. split_and!; [|done|done]. exists (sid_set grp). by destruct grp. }
  intros [] s' ms' (ks & Hl & Htr & Hks & [h Hh] & Hs' & HI'). cbn [fst snd] in *.
  split_and!; [by rewrite Hh| |done|].
  - constructor; [by rewrite Hh|]. rewrite Hl. exact Htr.
  - exists ks. split; [|done]. by rewrite Hks, keys_elements.
Qed.

(** All groups of a room. *)
Lemma wp_visit_all r a (σ : Σ) ms :
  room_rep r a → room_fits a → I [] σ ms →
  wp (chat_room_trav_all_group proc RDLOCK) (λ _ s' ms', r_rid s'.1 = r_rid r ∧ room_rep s'.1 a ∧
    ∃ ks, ks ≡ₚ concat ((λ p, elements p.2) <$> map_to_list (a_groups a)) ∧ I ks s'.2 ms') (r, σ) ms.
Proof.
  intros [R1 R2 R3 R4] Hfit HI. unfold chat_room_trav_all_group.
  pose (els := λ g, elements (default (∅ : gset (Z * Z)) (a_groups a !! g))).
  eapply wp_mono.
  { eapply (wp_rtrav (g := λ s, groups s.1) (s := (r, σ)) (lk := RDLOCK) R4)
      with (I := λ gs s ms', (∃ h, s.1 = set_groups h r) ∧ ∃ ks, ks ≡ₚ concat (els <$> gs) ∧ I ks s.2 ms').
    - done.
    - intros gs h [s1 s2] ms' ([h0 Hh0] & Hks). cbn [fst snd] in *. split; [|done].
      exists h. by rewrite Hh0.
    - intros gs m d X L' [r1 σ1] ms' Hr1 Hm Hd HX HdX Hgs ([h0 Hh0] & ks & Hks & HI1). cbn [fst snd] in *.
      destruct (hr_key _ _ _ _ _ _ _ _ _ Hr1 Hd) as [_ Hdd].
      assert (Hkey : group_key (g_gid d) = Group (g_gid d) 0 no_tab :> chat_group_t).
      { unfold group_key. f_equal. unfold u16. apply Z.mod_small. exact Hdd. }
      unfold _chat_room_trav_all_group, with_group.
      apply (wp_with_data g_gid group_dom _ _ (λ s, groups s.1) (λ h s, (set_groups h s.1, s.2)) m L' _ d);
        [done|by rewrite Hkey|by rewrite Hkey|].
      pose proof (count_lookup _ _ _ HX) as Hcnt. unfold room_fits in Hfit.
      eapply wp_mono; [apply (wp_visit_set d X ks); [done|lia|done]|].
      intros [] [d' [r2 σ2]] ms2 (Hgid & Hd' & Hr2 & js & Hjs & HI2). cbn [fst snd] in *. subst r2.
      split_and!; [by rewrite Hkey|unfold group_dom in *; by rewrite Hgid|].
      exists m, L', d. split_and!; [done|by rewrite Hkey|]. intros h' Hh' Hl'. exists d'. cbn [fst snd].
      split_and!; [done|done|done| | |].
      + rewrite Hkey in Hh'. simpl in Hh'. exact Hh'.
      + exists h'. by rewrite Hh0.
      + exists (ks ++ js). split; [|done]. rewrite fmap_app, concat_app, Hks, Hjs. simpl. unfold els.
        by rewrite HX, app_nil_r.
    - intros i Hi. by apply free_replicate.
    - by eapply groups_size.
    - split; [by exists (groups r); destruct r|]. by exists []. }
  intros [] s' ms' (gs & Hl & Htr & Hgs & [h Hh] & ks & Hks & HI'). rewrite Hh in *. cbn [fst snd] in *.
  split_and!; [done| |].
  - constructor; simpl in *; try done. rewrite Hl. exact Htr.
  - exists ks. split; [|done]. rewrite Hks, Hgs. apply Permutation_refl'. rewrite <-list_fmap_compose. f_equal.
    apply list_fmap_ext. intros i [g X] Hi. apply list_elem_of_lookup_2, elem_of_map_to_list in Hi.
    unfold els. simpl. by rewrite Hi.
Qed.

Lemma wp_group_trav r a gid (σ : Σ) ms :
  room_rep r a → room_fits a → I [] σ ms →
  wp (chat_group_trav gid proc) (λ ret s' ms', ret = 0 ∧ r_rid s'.1 = r_rid r ∧ room_rep s'.1 a ∧
    ∃ ks, ks ≡ₚ visits gid a ∧ I ks s'.2 ms') (r, σ) ms.
Proof.
  intros Hr Hfit HI. unfold chat_group_trav, visits. destruct (u16 gid =? 0).
  { wp_step. eapply wp_mono; [by apply wp_visit_all|]. intros [] s' ms' HQ. wp_step. by split. }
  enter. pose proof (room_free _ _ _ gid RDLOCK Hr eq_refl) as Hf.
  eapply wp_query_group; [exact Hr|exact Hf|]. intros o h1 Ho Hl1 Hr1.
  destruct (a_groups a !! u16 gid) as [X|] eqn:Hg; inversion Ho as [x ? Hx|]; subst.
  2: { wp_step. split_and!; [done|done|unfold room_rep; simpl; by rewrite Hl1|]. by exists []. }
  wp_step. unfold with_group. pose proof Hr1 as [R1 R2 R3 R4].
  eapply (wp_rwith (g := λ s, groups s.1) (s := (set_groups h1 r, σ)) R4); [apply id_u16|exact Hg|].
  intros y Hy Hky Hdy. pose proof (count_lookup _ _ _ Hg) as Hcnt. unfold room_fits in Hfit.
  eapply wp_mono; [apply (wp_visit_set y X []); [done|lia|done]|].
  intros [] [y' [r2 σ2]] ms2 (Hgid & Hy' & Hr2 & js & Hjs & HI2). cbn [fst snd] in *. subst r2.
  split_and!; [by rewrite Hgid|unfold group_dom in *; by rewrite Hgid|].
  eexists _, _. split_and!; [exact Hy'|exact R4|]. intros h2 Hh2 Hl2. enter.
  rewrite insert_id in Hh2 by done. simpl in Hl2.
  assert (Hlen : len h2 = len (groups r)) by congruence.
  eapply (wp_unlock_group (idles (len (groups r))) _ a); simpl; rewrite ?Hlen; [|exact Hf|].
  - constructor; simpl; done.
  - intros h3 Hl3 Hr3. wp_step. split_and!; [done|done| |by exists js].
    unfold room_rep. simpl. by rewrite Hl3.
Qed.

End Visit.

Lemma wp_room_trav {Σ} (proc : chat_sid2cid_item_t → SM Σ unit) (I : list (Z * Z) → Σ → mem → Prop)
    c a rid gid (σ : Σ) ms :
  (∀ ks i σ ms, I ks σ ms → wp (proc i) (λ _, I (ks ++ [item_key i])) σ ms) →
  chat_rep c a → is_id rid → (∀ r, ac_rooms a !! rid = Some r → room_fits r) → I [] σ ms →
  wp (chat_room_trav_session rid gid proc) (λ ret s' ms', ret = 0 ∧ chat_rep s'.1 a ∧
    ∃ ks, ks ≡ₚ match ac_rooms a !! rid with Some r => visits gid r | None => [] end ∧ I ks s'.2 ms')
    (c, σ) ms.
Proof.
  intros Hproc Hrep Hid Hfit HI. pose proof Hrep as [R1 R2 R3]. unfold chat_room_trav_session. enter.
  eapply wp_query_room; [exact R1|done|apply (free_idles R1)|]. intros o h1 Ho Hl1 Hr1.
  destruct (ac_rooms a !! rid) as [r|] eqn:Hr; inversion Ho as [x ? Hx|]; subst.
  2: { wp_step. split_and!; [done| |by exists []]. constructor; simpl; [by rewrite Hl1|done|done]. }
  wp_step. eapply (wp_rwith (g := λ s, rooms s.1) (s := (set_rooms h1 c, σ)) Hr1); [done|exact Hr|].
  intros y Hy Hky Hdy. specialize (Hfit _ eq_refl).
  eapply wp_mono.
  { apply (wp_group_trav (λ i, on_snd (proc i)) (λ ks (s : chat_tab_t * Σ) ms, s.1 = set_rooms h1 c ∧ I ks s.2 ms))
      with (r := y) (a := r); [|done|done|done].
    intros ks i s ms0 [Hs HI0]. enter. eapply wp_mono; [by apply Hproc|]. intros [] σ' ms1 HI1. by split. }
  intros ret [y' [c' σ']] ms1 (-> & Hrid & Hy' & ks & Hks & Hc' & HI'). cbn [fst snd] in *. subst c'.
  split_and!; [by rewrite Hrid|unfold room_dom in *; by rewrite Hrid|].
  eexists _, _. split_and!; [exact Hy'|exact Hr1|]. intros h2 Hh2 Hl2. enter.
  rewrite insert_id in Hh2 by done. simpl in Hl2.
  assert (Hlen : len h2 = len (rooms c)) by congruence.
  eapply (wp_unlock_room _ (ac_rooms a) (idles (len (rooms c)))); simpl; rewrite ?Hlen;
    [exact Hh2|done|apply (free_idles R1)|].
  intros h3 Hl3 Hr3. wp_step. split_and!; [done| |by exists ks]. constructor; simpl; [by rewrite Hl3|done|done].
Qed.

(** *** Removal of the empty rooms *)

Definition clean_rooms (m : gmap Z aroom) : gmap Z aroom := filter (λ p, aroom_empty p.2 = false) m.

Definition drop_rooms (rids : list Z) (m : gmap Z aroom) : gmap Z aroom := foldl (λ m rid, drop_room rid m) m rids.

(** What remains of a room that is asked to go. *)
Definition kept (o : option aroom) : option aroom :=
  match o with Some a => if aroom_empty a then None else Some a | None => None end.

Lemma kept_kept o : kept (kept o) = kept o.
Proof. destruct o as [a|]; simpl; [|done]. destruct (aroom_empty a) eqn:He; simpl; by rewrite ?He. Qed.

Lemma lookup_drop_room rid m j :
  drop_room rid m !! j = if decide (rid = j) then kept (m !! j) else m !! j.
Proof.
  unfold drop_room, kept. destruct (m !! rid) as [a|] eqn:Hm.
  - destruct (aroom_empty a) eqn:He; rewrite ?lookup_delete; case_decide as Hj; subst; by rewrite ?Hm, ?He.
  - case_decide; subst; by rewrite ?Hm.
Qed.

Lemma lookup_drop_rooms rids m j :
  drop_rooms rids m !! j = if decide (j ∈ rids) then kept (m !! j) else m !! j.
Proof.
  revert m. induction rids as [|rid rids IH]; intros m; [done|]. unfold drop_rooms. simpl.
  fold (drop_rooms rids (drop_room rid m)). rewrite IH, lookup_drop_room.
  destruct (decide (rid = j)) as [->|Hj].
  - rewrite (decide_True (P := j ∈ j :: rids)) by set_solver. case_decide; [apply kept_kept|done].
  - destruct (decide (j ∈ rids)).
    + by rewrite decide_True by set_solver.
    + by rewrite decide_False by set_solver.
Qed.

Lemma wp_clean_loop_list ps : ∀ l c m fuel (Q : unit → list_t Z * chat_tab_t → mem → Prop) ms,
  lrep_at l ps → rooms_rep (rooms c) m (idles (len (rooms c))) → (length ps < fuel)%nat →
  Forall (λ rid, is_id rid ∧ rid ≠ 0) ps.*2 → map_Forall (λ _ a, room_fits a) m →
  (∀ l' c', lrep_at l' [] → rooms_now c c' (drop_rooms ps.*2 m) → Q tt (l', c') ms) →
  wp (loop fuel (λ _,
    rid ← on_fst list_lpop;
    match rid with
    | None => mret (inr tt)
    | Some rid =>
        if rid =? NULL then mret (inr tt) else
        on_snd (chat_del_room rid);; mret (inl tt)
    end) tt) Q (l, c) ms.
Proof.
  induction ps as [|[p rid] ps IH]; intros l c m fuel Q ms Hl Hr Hfuel Hids Hfit HQ;
    (destruct fuel as [|fuel]; [simpl in Hfuel; lia|]); apply wp_loop_step; enter.
  - eapply wp_lpop; [exact Hl|]. cbn beta iota. wp_step. apply HQ; [done|]. exists (rooms c). by destruct c.
  - eapply wp_lpop; [exact Hl|]. intros l' Hl'. csimpl in Hids. apply Forall_cons in Hids as [[Hid Hnz] Hids].
    rewrite (proj2 (Z.eqb_neq rid NULL)) by done. enter.
    eapply wp_mono; [apply (wp_del_room _ m); [done|done|]|].
    { intros a Ha. by apply (Hfit rid). }
    intros ret c2 ms2 (-> & -> & Hc2). wp_step. destruct Hc2 as (h2 & -> & Hl2 & Hr2). cbn [fst snd].
    apply (IH _ _ (drop_room rid m)); [done|exact Hr2|simpl in Hfuel; lia|done| |].
    + intros j a Ha. rewrite lookup_drop_room in Ha. case_decide; [|by apply (Hfit j)].
      destruct (m !! j) as [a'|] eqn:Hj; simpl in Ha; [|done].
      destruct (aroom_empty a'); [done|]. injection Ha as <-. by apply (Hfit j).
    + intros l3 c3 Hl3 Hc3. apply HQ; [done|]. eapply rooms_now_trans; [|exact Hc3]. by exists h2.
Qed.

Lemma rooms_size h m L : rooms_rep (T := T) h m L → Z.of_nat (size m) < 2 ^ 64.
Proof.
  intros Hr. assert (Z.of_nat (size m) ≤ 2 ^ 63); [|lia]. eapply (trel_size (T := T)); [exact Hr|done|].
  intros d Hd. exact Hd.
Qed.

Definition empty_at (m : gmap Z aroom) (rid : Z) : bool :=
  match m !! rid with Some a => aroom_empty a | None => false end.

(** The traversal gathers the empty rooms. *)
Lemma wp_gather c m (s : list_t Z * chat_tab_t) :
  rooms_rep (rooms c) m (idles (len (rooms c))) → map_Forall (λ _ a, room_fits a) m → lrep_at s.1 [] → s.2 = c →
  wp (hash_tab_trav (λ s, rooms s.2) (λ h s, (s.1, set_rooms h s.2)) chat_room_clean_list_cb RDLOCK)
    (λ _ s' ms', ms' = [] ∧ rooms_now c s'.2 m ∧ ∃ ps ks, lrep_at s'.1 ps ∧
      ps.*2 = filter (λ k, empty_at m k = true) ks ∧ ks ≡ₚ (map_to_list m).*1) s [].
Proof.
  intros R1 Hfit Hl Hs. destruct s as [l0 c0]. cbn [fst snd] in *. subst c0. eapply wp_mono.
  { eapply (wp_rtrav_ro (g := λ s, rooms s.2) (s := (l0, c)) (lk := RDLOCK) R1)
      with (I := λ ks (s : list_t Z * chat_tab_t) ms', ms' = [] ∧ (∃ h, s.2 = set_rooms h c) ∧
        ∃ ps, lrep_at s.1 ps ∧ ps.*2 = filter (λ k, empty_at m k = true) ks).
    - done.
    - intros ks h [s1 s2] ms' (-> & [h0 Hh0] & HI). cbn [fst snd] in *. split_and!; [done| |done].
      exists h. by rewrite Hh0.
    - intros ks d a [l1 c1] ms' Ha Hd Hdd Hks (-> & Hc & ps & Hps & Hpk). cbn [fst snd] in *.
      assert (He : empty_at m (r_rid d) = (r_sid_num d =? 0)).
      { unfold empty_at, aroom_empty. rewrite Ha, (rr_num _ _ _ Hd). specialize (Hfit _ _ Ha).
        unfold room_fits in Hfit. rewrite u64_small by lia.
        case_bool_decide; [|rewrite (proj2 (Z.eqb_neq _ _)) by lia; done]. by apply eq_sym, Z.eqb_eq; lia. }
      unfold chat_room_clean_list_cb. rewrite <-He. destruct (empty_at m (r_rid d)) eqn:Hemp.
      + enter. eapply wp_rpush; [exact Hps|]. simpl. intros l2 p Hl2. wp_step. cbn [fst snd].
        split_and!; [done..|]. eexists. split; [exact Hl2|].
        rewrite fmap_app, filter_app, Hpk. csimpl. by rewrite filter_cons_True.
      + wp_step. split_and!; [done..|]. exists ps. split; [done|].
        rewrite filter_app, filter_cons_False by congruence. by rewrite filter_nil, app_nil_r.
    - intros i Hi. by apply free_replicate.
    - by eapply rooms_size.
    - split_and!; [done|by exists (rooms c); destruct c|]. by exists []. }
  intros [] s' ms' (ks & Hlen & Htr & Hks & -> & [h Hh] & ps & Hps & Hpk). cbn [fst snd] in *.
  rewrite Hh in *. simpl in *. split_and!; [done| |by exists ps, ks]. exists h. split_and!; [done..|by rewrite Hlen].
Qed.

Lemma wp_clean c a :
  chat_rep c a → map_Forall (λ rid r, rid ≠ 0 ∧ room_fits r) (ac_rooms a) →
  wp chat_room_clean_hdl (λ ret c' ms', ret = 0 ∧ ms' = [] ∧ chat_rep c' (on_ac_rooms clean_rooms a)) c [].
Proof.
  intros Hrep Hfit. pose proof Hrep as [R1 R2 R3]. unfold chat_room_clean_hdl. wp_step.
  unfold list_creat. wp_step. apply wp_malloc_nil. wp_step. wp_step. apply wp_with_local. wp_step.
  eapply wp_mono.
  { apply (wp_gather c (ac_rooms a)); [done| | |done].
    - intros k r Hr. by apply (Hfit k).
    - constructor; simpl; [apply hp_empty|done..]. }
  intros [] [l1 c1] ms1 (-> & Hc1 & ps & ks & Hps & Hpk & Hks). cbn [fst snd] in *.
  destruct Hc1 as (h1 & -> & Hl1 & Hr1). unfold chat_room_clean_loop. wp_step. wp_step. cbn [fst snd].
  rewrite (rep_fuel _ _ Hps).
  assert (Hin : ∀ k, k ∈ ks ↔ is_Some (ac_rooms a !! k)).
  { intros k. rewrite Hks, list_elem_of_fmap. split.
    - intros ([k' r] & -> & Hr%elem_of_map_to_list). by exists r.
    - intros [r Hr]. exists (k, r). split; [done|]. by apply elem_of_map_to_list. }
  apply (wp_clean_loop_list ps _ _ (ac_rooms a)); [done|exact Hr1|lia| | |].
  { rewrite Hpk. apply Forall_forall. intros k [_ Hk]%list_elem_of_filter. apply Hin in Hk as [r Hr].
    split; [|by apply (Hfit k r)]. destruct Hr1 as (mc & Hrc & Hmc).
    destruct (mrel_Some _ _ _ _ Hmc Hr) as (x & Hx & _). by destruct (hr_key _ _ _ _ _ _ _ _ _ Hrc Hx) as [<- ?]. }
  { intros k r Hr. by apply (Hfit k). }
  intros l2 c2 Hl2 Hc2. wp_step. apply wp_with_local. cbn [fst snd].
  eapply wp_mono; [eapply (wp_list_destroy _ (λ _ s ms', s = c2 ∧ ms' = [])); [exact Hl2|done]|].
  intros [] s' ms' [[-> ->] _]. wp_step. split_and!; [done..|].
  assert (drop_rooms ps.*2 (ac_rooms a) = clean_rooms (ac_rooms a)) as Heq.
  { apply map_eq. intros k. rewrite lookup_drop_rooms, Hpk. unfold clean_rooms, kept.
    destruct (ac_rooms a !! k) as [r|] eqn:Hr.
    - destruct (aroom_empty r) eqn:He.
      + rewrite decide_True; [|].
        * symmetry. apply map_lookup_filter_None_2. right. intros r' Hr'. simpl. congruence.
        * apply list_elem_of_filter. split; [unfold empty_at; by rewrite Hr|]. apply Hin. eauto.
      + symmetry. case_decide; by apply map_lookup_filter_Some_2.
    - symmetry. case_decide; apply map_lookup_filter_None_2; by left. }
  rewrite Heq in Hc2. eapply chat_rep_rooms; [|exact Hc2]. constructor; simpl; [exact Hr1|done|done].
Qed.
End Trav.
