(* ===== verification/ChatProps.v ===== *)
(** What the chat-room tables promise: each call refines an operation of the
    abstract state, sequences of calls too, and a member of a room is always a
    session that knows it. *)
From stdpp Require Import fin_maps gmap.
From S2P Require Import Prelude Heap Table RbTree RbTable HashTab TabRel List Chat ChatSpec ChatRooms ChatOps ChatRefine ChatTrav.
Open Scope Z_scope.

(** ** Calls *)

(** The calls of a client; [chat_room_del_session] is left out, as a lock stays
    held after it (see [part_blocks]). *)
Inductive chat_call :=
  | CJoin (now rid gid sid cid : Z)
  | CSetCid (sid cid : Z)
  | CDelCid (sid cid : Z)
  | CDelSession (sid cid : Z)
  | CAddSub (sid cmd : Z)
  | CDelSub (sid cmd : Z)
  | CDelRoom (rid : Z)
  | CClean.

Section Calls.
Context {T : Type → Type} `{TreeOps T}.

Definition run_call (k : chat_call) : SM (chat_tab_t T) Z :=
  match k with
  | CJoin now rid gid sid cid => chat_room_add_session now rid gid sid cid
  | CSetCid sid cid => chat_set_sid_to_cid sid cid
  | CDelCid sid cid => chat_del_sid_to_cid sid cid
  | CDelSession sid cid => chat_del_session sid cid
  | CAddSub sid cmd => chat_add_sub sid cmd
  | CDelSub sid cmd => chat_del_sub sid cmd
  | CDelRoom rid => chat_del_room rid
  | CClean => chat_room_clean_hdl
  end.

Fixpoint run_calls (ks : list chat_call) : SM (chat_tab_t T) (list Z) :=
  match ks with
  | [] => mret []
  | k :: ks' => r ← run_call k; rs ← run_calls ks'; mret (r :: rs)
  end.
End Calls.

Definition abs_call (k : chat_call) (a : achat) : Z * achat :=
  match k with
  | CJoin now rid gid sid cid => achat_join now rid gid (sid, cid) a
  | CSetCid sid cid => (0, on_ac_cids (<[sid := cid]>) a)
  | CDelCid sid cid => (0, achat_del_cid sid cid a)
  | CDelSession sid cid => (0, achat_del_session (sid, cid) a)
  | CAddSub sid cmd => achat_sub (λ X, {[u16 cmd]} ∪ X) sid a
  | CDelSub sid cmd => achat_sub (λ X, X ∖ {[u16 cmd]}) sid a
  | CDelRoom rid => (0, on_ac_rooms (drop_room rid) a)
  | CClean => (0, on_ac_rooms clean_rooms a)
  end.

(** What a call requires: identifiers of 63 bits, no room 0 when the rooms are
    cleaned, and member counters that do not wrap around. *)
Definition call_ok (k : chat_call) (a : achat) : Prop :=
  match k with
  | CJoin _ rid _ sid cid => is_id rid ∧ is_id sid ∧ is_id cid
  | CSetCid sid cid | CDelCid sid cid | CDelSession sid cid => is_id sid ∧ is_id cid
  | CAddSub sid _ | CDelSub sid _ => is_id sid
  | CDelRoom rid => is_id rid ∧ map_Forall (λ _ r, room_fits r) (ac_rooms a)
  | CClean => map_Forall (λ rid r, rid ≠ 0 ∧ room_fits r) (ac_rooms a)
  end.

Fixpoint abs_calls (ks : list chat_call) (a : achat) : list Z * achat :=
  match ks with
  | [] => ([], a)
  | k :: ks' => let s := abs_calls ks' (abs_call k a).2 in ((abs_call k a).1 :: s.1, s.2)
  end.

Fixpoint calls_ok (ks : list chat_call) (a : achat) : Prop :=
  match ks with
  | [] => True
  | k :: ks' => call_ok k a ∧ calls_ok ks' (abs_call k a).2
  end.

Definition achat_empty : achat := AChat ∅ ∅ ∅.

(** ** Invariants of the abstract state *)

(** The connections are identifiers. *)
Definition cids_ids (a : achat) : Prop := map_Forall (λ _ cid, is_id cid) (ac_cids a).

(** The session [k] is a member of the group [g] of the room [rid]. *)
Definition member (a : achat) (rid g : Z) (k : Z * Z) : Prop :=
  ∃ r X, ac_rooms a !! rid = Some r ∧ a_groups r !! g = Some X ∧ k ∈ X.

(** A member is a session that lists the room and the group. *)
Definition known (a : achat) : Prop :=
  ∀ rid g k, member a rid g k →
    ∃ b gid, ac_sessions a !! k = Some b ∧ a_rooms b !! rid = Some gid ∧ u16 gid = g.

Lemma cids_ids_call k a : call_ok k a → cids_ids a → cids_ids (abs_call k a).2.
Proof.
  intros Hk Ha. destruct k; simpl in *; try done.
  - unfold achat_join. by destruct (ac_sessions a !! (sid, cid)).
  - unfold cids_ids, on_ac_cids. simpl. apply map_Forall_insert_2; [apply Hk|done].
  - unfold cids_ids, achat_del_cid, on_ac_cids. simpl. case_decide; [by apply map_Forall_delete|done].
  - unfold achat_del_session. assert (cids_ids (achat_del_cid sid cid a)) as Hd.
    { unfold cids_ids, achat_del_cid, on_ac_cids. simpl. case_decide; [by apply map_Forall_delete|done]. }
    by case_match.
  - unfold achat_sub. case_match; [done|]. by case_match.
  - unfold achat_sub. case_match; [done|]. by case_match.
Qed.

(** Entering adds one member. *)
Lemma member_enter now rid gid k a rid' g k' S C :
  member (AChat (enter_rooms now rid gid k (ac_rooms a)) S C) rid' g k' →
  (rid' = rid ∧ g = u16 gid ∧ k' = k) ∨ member a rid' g k'.
Proof.
  intros (r & X & Hr & HX & Hk). cbn [ac_rooms] in Hr. unfold enter_rooms in Hr.
  apply lookup_insert_Some in Hr as [[<- <-]|[Hne Hr]]; [|right; by exists r, X].
  unfold aroom_add in HX. cbn [a_groups] in HX.
  apply lookup_insert_Some in HX as [[<- <-]|[Hg HX]].
  - apply elem_of_union in Hk as [->%elem_of_singleton|Hk]; [by left|right].
    destruct (ac_rooms a !! rid) as [r0|] eqn:Hr0; simpl in Hk; [|by rewrite lookup_empty in Hk].
    destruct (a_groups r0 !! u16 gid) as [X0|] eqn:HX0; simpl in Hk; [|done]. by exists r0, X0.
  - right. destruct (ac_rooms a !! rid) as [r0|] eqn:Hr0; simpl in HX; [|done]. by exists r0, X.
Qed.

(** Leaving every room of the list removes the session from them. *)
Lemma member_leave k rs a rid g k' S C :
  member (AChat (leave_rooms k rs (ac_rooms a)) S C) rid g k' →
  member a rid g k' ∧ (k' = k → ∀ gid, rs !! rid = Some gid → u16 gid ≠ g).
Proof.
  intros (r & X & Hr & HX & Hk). cbn [ac_rooms] in Hr. unfold leave_rooms in Hr. rewrite map_lookup_imap in Hr.
  destruct (ac_rooms a !! rid) as [r0|] eqn:Hr0; simpl in Hr; [|done]. injection Hr as <-.
  destruct (rs !! rid) as [gid|] eqn:Hrs.
  - unfold aroom_del in HX. cbn [a_groups] in HX. apply lookup_alter_Some in HX as [(<- & X0 & HX0 & ->)|[Hg HX]].
    + apply elem_of_difference in Hk as [Hk Hne]. split; [by exists r0, X0|]. intros ->. set_solver.
    + split; [by exists r0, X|]. intros _ gid' [= <-]. done.
  - split; [by exists r0, X|]. intros _ gid' [=].
Qed.

Lemma member_sub a rooms S C : (∀ rid r, rooms !! rid = Some r → ac_rooms a !! rid = Some r) →
  ∀ rid g k, member (AChat rooms S C) rid g k → member a rid g k.
Proof. intros Hs rid g k (r & X & Hr & HX & Hk). exists r, X. split_and!; [by apply Hs|done..]. Qed.

Lemma known_session a k b b' :
  known a → ac_sessions a !! k = Some b → (∀ rid gid, a_rooms b !! rid = Some gid → a_rooms b' !! rid = Some gid) →
  known (on_ac_sessions (<[k := b']>) a).
Proof.
  intros Ha Hb Hsub rid g k' Hm. assert (member a rid g k') as (b0 & gid & Hb0 & Hg & Hu)%Ha.
  { destruct Hm as (r & X & ?). by exists r, X. }
  unfold on_ac_sessions. cbn [ac_sessions]. destruct (decide (k = k')) as [->|Hne].
  - exists b', gid. rewrite lookup_insert_eq. split_and!; [done| |done]. apply Hsub. congruence.
  - exists b0, gid. by rewrite lookup_insert_ne.
Qed.

Lemma known_sub f sid a : known a → known (achat_sub f sid a).2.
Proof.
  intros Ha. unfold achat_sub. case_match; [done|]. destruct (ac_sessions a !! _) as [b|] eqn:Hb; [|done].
  cbn [snd]. by eapply known_session.
Qed.

Lemma known_call k a : known a → known (abs_call k a).2.
Proof.
  intros Ha. destruct k; cbn [abs_call snd].
  - unfold achat_join. destruct (ac_sessions a !! (sid, cid)) as [b|] eqn:Hb; cbn [snd].
    + eapply known_session; [done|exact Hb|]. intros rid' gid' Hg. unfold session_join.
      destruct (a_rooms b !! rid) as [g|] eqn:Hr; cbn [snd a_rooms]; [done|].
      rewrite lookup_insert_ne; [done|]. congruence.
    + intros rid' g k' [(-> & -> & ->)|Hm]%member_enter; cbn [ac_sessions].
      * exists (ASession {[rid := gid]} ∅), gid. rewrite lookup_insert_eq. cbn [a_rooms].
        by rewrite lookup_singleton_eq.
      * apply Ha in Hm as (b & gid' & Hb' & Hg & Hu). exists b, gid'. rewrite lookup_insert_ne by congruence. done.
  - exact Ha.
  - exact Ha.
  - unfold achat_del_session. cbn [fst snd]. set (a1 := achat_del_cid sid cid a).
    assert (Ha1 : known a1) by exact Ha.
    destruct (ac_sessions a1 !! (sid, cid)) as [b|] eqn:Hb; [|done].
    intros rid g k' [Hm Hout]%member_leave. cbn [ac_sessions].
    apply Ha1 in Hm as (b' & gid & Hb' & Hg & Hu). destruct (decide (k' = (sid, cid))) as [->|Hne].
    + exfalso. assert (b' = b) as -> by congruence. by apply (Hout eq_refl gid).
    + exists b', gid. by rewrite lookup_delete_ne.
  - by apply known_sub.
  - by apply known_sub.
  - intros rid' g k' Hm. apply Ha. revert Hm. apply member_sub. intros j r. rewrite lookup_drop_room.
    case_decide; [|done]. destruct (ac_rooms a !! j) as [r0|]; simpl; [|done]. by destruct (aroom_empty r0).
  - intros rid' g k' Hm. apply Ha. revert Hm. apply member_sub. intros j r [Hr _]%map_lookup_filter_Some. done.
Qed.

(** ** Every call refines its abstract operation *)

Section Refinement.
Context {T : Type → Type} `{TreeLaws T}.
Abbreviation chat_tab_t := (chat_tab_t T).

Lemma wp_init n {Σ} (s : Σ) :
  0 < n < 2 ^ 31 →
  wp (chat_tab_init n) (λ r s' ms', s' = s ∧ ms' = [] ∧ ∃ c : chat_tab_t, r = Some c ∧ chat_rep c achat_empty) s [].
Proof.
  intros Hn. unfold chat_tab_init. wp_step. apply wp_malloc_nil. cbn [negb]. wp_step.
  eapply wp_mono; [by apply (wp_rcreat r_rid room_dom chat_room_hash_cb chat_room_cmp_cb room_rep)|].
  intros o s1 ms1 (-> & -> & h1 & -> & Hl1 & Hr1). wp_step.
  eapply wp_mono; [by apply (wp_rcreat session_key_of session_dom chat_session_hash_cb chat_session_cmp_cb session_rep)|].
  intros o s1 ms1 (-> & -> & h2 & -> & Hl2 & Hr2). wp_step.
  eapply wp_mono; [by apply (wp_rcreat it_sid cid_dom chat_sid2cid_hash_cb chat_sid2cid_cmp_cb (λ i c, it_cid i = c))|].
  intros o s1 ms1 (-> & -> & h3 & -> & Hl3 & Hr3). wp_step. split_and!; [done..|]. eexists. split; [done|].
  constructor; simpl; [by rewrite Hl1|by rewrite Hl2|by rewrite Hl3].
Qed.

Lemma cids_id a sid : cids_ids a → is_id (default 0 (ac_cids a !! sid)).
Proof. intros Ha. destruct (ac_cids a !! sid) eqn:Hc; simpl; [by apply (Ha sid)|done]. Qed.

Lemma wp_call k (c : chat_tab_t) a :
  chat_rep c a → call_ok k a → cids_ids a →
  wp (run_call k) (λ r c' ms', ms' = [] ∧ r = (abs_call k a).1 ∧ chat_rep c' (abs_call k a).2) c [].
Proof.
  intros Hr Hk Hc. destruct k; simpl in Hk; cbn [run_call abs_call fst snd].
  - destruct Hk as (? & ? & ?). by apply wp_join.
  - eapply wp_mono; [by apply (wp_set_cid c a); [|apply Hk]|]. by intros r c' ms' (-> & -> & ?).
  - eapply wp_mono; [eapply (wp_del_cid _ c a); [exact Hr|apply Hk]|].
    intros r c' ms' (-> & -> & Hr' & Hs & _). split_and!; [done..|]. unfold chat_rep. by rewrite Hs.
  - eapply wp_mono; [by apply (wp_del_session c a); [|apply Hk..]|]. by intros r c' ms' (-> & -> & ?).
  - apply wp_add_sub; [done|done|by apply cids_id].
  - apply wp_del_sub; [done|done|by apply cids_id].
  - destruct Hk as [Hid Hfit]. pose proof Hr as [R1 R2 R3].
    eapply wp_mono; [apply (wp_del_room c (ac_rooms a)); [done|done|intros r Hrm; by apply (Hfit rid)]|].
    intros r c' ms' (-> & -> & Hn). split_and!; [done..|]. by eapply chat_rep_rooms.
  - eapply wp_mono; [by apply (wp_clean c a)|]. by intros r c' ms' (-> & -> & ?).
Qed.

Lemma wp_calls ks : ∀ (c : chat_tab_t) a,
  chat_rep c a → calls_ok ks a → cids_ids a →
  wp (run_calls ks) (λ rs c' ms', ms' = [] ∧ rs = (abs_calls ks a).1 ∧ chat_rep c' (abs_calls ks a).2) c [].
Proof.
  induction ks as [|k ks IH]; intros c a Hr Hk Hc; simpl in *; [by wp_step|]. destruct Hk as [Hk Hks]. wp_step.
  eapply wp_mono; [by apply wp_call|]. intros r c1 ms1 (-> & -> & Hr1). wp_step.
  eapply wp_mono; [apply (IH _ _ Hr1 Hks); by apply cids_ids_call|].
  intros rs c2 ms2 (-> & -> & Hr2). wp_step. by split_and!.
Qed.

(** [chat_tab_init], then the calls. *)
Definition session_run (n : Z) (ks : list chat_call) : SM unit (option (list Z * chat_tab_t)) :=
  c ← chat_tab_init n;
  match c with
  | None => mret None
  | Some c => r ← run_on c (run_calls ks); mret (Some r)
  end.

(** Blocking. *)
Lemma wrlock_blocked {D} (h : hash_tab_t T D) i l ms :
  lock h !! i = Some l → readers l ≠ 0%nat → lock_op rwlock_wrlock i h ms = Blocked.
Proof.
  intros Hl Hn. unfold lock_op, mbind, SM_bind, get. rewrite Hl. cbn. unfold rwlock_wrlock.
  destruct (writer l); [done|]. by destruct (readers l).
Qed.

Lemma del_blocked (c : chat_tab_t) a sid cid ms :
  chat_repL (locked (slot (chat_session_hash_cb (T := T)) (len (sessions c)) (session_key sid cid)) RDLOCK
               (idles (len (sessions c)))) c a →
  is_id sid → is_id cid → chat_del_session sid cid c ms = Blocked.
Proof.
  intros Hr Hsid Hcid. unfold chat_del_session, mbind at 1, SM_bind at 1.
  destruct (wp_elim _ _ _ _ (wp_del_cid _ c a sid cid ms Hr Hsid)) as (r & c1 & ms1 & -> & -> & -> & [R1 R2 R3] & Hs & _).
  rewrite Hs in R2. unfold mbind at 1, SM_bind at 1, on_sessions, zoom, hash_tab_delete. rewrite Hs.
  unfold mbind at 1, SM_bind at 1. destruct R2 as (m & Hm & _).
  pose proof (wp_slot_idx _ _ _ _ _ _ _ (session_key sid cid) (λ i h ms', i = slot (chat_session_hash_cb (T := T)) (len (sessions c)) (session_key sid cid) ∧ h = sessions c ∧ ms' = ms) ms Hm) as Hidx.
  specialize (Hidx ltac:(done) ltac:(done)).
  destruct (wp_elim _ _ _ _ Hidx) as (i & h & ms2 & -> & -> & -> & ->).
  unfold mbind at 1, SM_bind at 1, _hash_tab_lock.
  rewrite (wrlock_blocked _ _ {| readers := 1; writer := false |}); [done| |done].
  rewrite (hr_lock _ _ _ _ _ _ _ Hm). unfold locked. rewrite list_lookup_alter_eq.
  unfold idles. rewrite lookup_replicate_2; [done|]. by eapply slot_lt.
Qed.
End Refinement.

(** ** Properties *)

Section Properties.
Context {T : Type → Type} `{TreeLaws T}.
Abbreviation chat_tab_t := (chat_tab_t T).


(** After every sequence of calls, each member of a group of a room is a
    session of the table that lists the room, with this group: a session that was
    deleted is a member of nothing. *)
Theorem chat_members_known n ks :
  0 < n < 2 ^ 31 → calls_ok ks achat_empty →
  wp (session_run (T := T) n ks) (λ r _ _, ∃ rs c a, r = Some (rs, c) ∧ chat_rep c a ∧ known a) tt [].
Proof.
  intros Hn Hks. unfold session_run. wp_step. eapply wp_mono; [by apply wp_init|].
  intros r s ms (-> & -> & c & -> & Hc). wp_step. apply wp_run_on.
  eapply wp_mono; [by apply (wp_calls ks c achat_empty)|]. intros rs c' ms' (-> & -> & Hc').
  wp_step. eexists _, c', _. split_and!; [done|done|].
  assert (Hgen : ∀ ks a, known a → known (abs_calls ks a).2).
  { clear. induction ks as [|k ks IH]; intros a Ha; simpl; [done|]. by apply IH, known_call. }
  apply Hgen. intros rid g k (r & X & Hr & _). change (ac_rooms achat_empty) with (∅ : gmap Z aroom) in Hr. by rewrite lookup_empty in Hr.
Qed.

(** A session that is not in the table joins a room: the answer is 0, the
    session is entered with that room alone and no subscription, and it is the one
    new member, in the given group of the room, which is created when it is
    missing. *)
Theorem chat_join_new c a now rid gid sid cid :
  chat_rep c a → is_id rid → is_id sid → is_id cid → ac_sessions a !! (sid, cid) = None →
  wp (chat_room_add_session (T := T) now rid gid sid cid) (λ ret c' _, ret = 0 ∧ ∃ a', chat_rep c' a' ∧
    ac_sessions a' = <[(sid, cid) := ASession {[rid := gid]} ∅]> (ac_sessions a) ∧ ac_cids a' = ac_cids a ∧
    (∀ rid' g k, member a' rid' g k ↔ member a rid' g k ∨ (rid' = rid ∧ g = u16 gid ∧ k = (sid, cid)))) c [].
Proof.
  intros Hr Hrid Hsid Hcid Hnew. eapply wp_mono; [by apply (wp_join c a)|].
  intros ret c' ms' (-> & -> & Hr'). unfold achat_join in *. rewrite Hnew in *. cbn [fst snd] in *.
  split; [done|]. eexists. split; [exact Hr'|]. split_and!; [done..|]. intros rid' g k. split.
  - intros [Hm|Hm]%member_enter; [by right|by left].
  - unfold member, enter_rooms. cbn [ac_rooms]. intros [(r & X & Hrm & HX & Hk)|(-> & -> & ->)].
    + rewrite lookup_insert. case_decide as Hj; [subst rid'|by exists r, X].
      rewrite Hrm. cbn [default]. unfold id, aroom_add.
      destruct (decide (u16 gid = g)) as [Hg|Hg].
      * eexists _, ({[(sid, cid)]} ∪ X). split; [done|]. cbn [a_groups].
        rewrite lookup_insert, Hg, HX, decide_True by done. split; [done|set_solver].
      * eexists _, X. split; [done|]. cbn [a_groups]. by rewrite lookup_insert, decide_False.
    + rewrite lookup_insert_eq. eexists _, _. split; [done|]. cbn [aroom_add a_groups].
      rewrite lookup_insert_eq. split; [done|]. set_solver.
Qed.

(** C26: a session of the table asks for a room it has not joined: the answer is
    the group, and the session lists the room, but no room changes: it does not
    become a member. *)
Theorem chat_join_second c a b now rid gid sid cid :
  chat_rep c a → is_id rid → is_id sid → is_id cid →
  ac_sessions a !! (sid, cid) = Some b → a_rooms b !! rid = None →
  wp (chat_room_add_session (T := T) now rid gid sid cid) (λ ret c' _, ret = gid ∧ ∃ a', chat_rep c' a' ∧
    ac_rooms a' = ac_rooms a ∧
    ac_sessions a' = <[(sid, cid) := ASession (<[rid := gid]> (a_rooms b)) (a_subs b)]> (ac_sessions a)) c [].
Proof.
  intros Hr Hrid Hsid Hcid Hb Hnew. eapply wp_mono; [by apply (wp_join c a)|].
  intros ret c' ms' (-> & -> & Hr'). unfold achat_join, session_join in *. rewrite Hb, Hnew in *.
  split; [done|]. by eexists.
Qed.

(** What the removal of a session leaves. *)
Lemma member_del_session a k rid g k' : known a →
  member (achat_del_session k a) rid g k' ↔ member a rid g k' ∧ k' ≠ k.
Proof.
  intros Ha. destruct k as [sid cid]. unfold achat_del_session. cbn [fst snd].
  change (ac_sessions (achat_del_cid sid cid a)) with (ac_sessions a).
  destruct (ac_sessions a !! (sid, cid)) as [b|] eqn:Hb; split.
  - intros [Hm Hout]%member_leave. split; [exact Hm|]. intros ->.
    destruct (Ha _ _ _ Hm) as (b' & gid & Hb' & Hg & Hu). assert (b' = b) as -> by congruence.
    by apply (Hout eq_refl gid).
  - intros [(r & X & Hrm & HX & Hk) Hne]. unfold member, leave_rooms. cbn [ac_rooms].
    rewrite map_lookup_imap. change (ac_rooms (achat_del_cid sid cid a)) with (ac_rooms a). rewrite Hrm.
    cbn [mbind option_bind]. destruct (a_rooms b !! rid) as [gid|]; [|by exists r, X].
    unfold aroom_del. destruct (decide (u16 gid = g)) as [Hg|Hg].
    + eexists _, (X ∖ {[(sid, cid)]}). split; [done|]. cbn [a_groups].
      rewrite lookup_alter, decide_True, Hg, HX by done. split; [done|set_solver].
    + eexists _, X. split; [done|]. cbn [a_groups]. rewrite lookup_alter. by rewrite decide_False.
  - intros Hm. split; [exact Hm|]. intros ->. destruct (Ha _ _ _ Hm) as (b & gid & Hb' & _). congruence.
  - by intros [Hm _].
Qed.

Lemma cids_del_session a sid cid s :
  ac_cids (achat_del_session (sid, cid) a) !! s = if decide (s = sid ∧ ac_cids a !! s = Some cid) then None else ac_cids a !! s.
Proof.
  assert (ac_cids (achat_del_session (sid, cid) a) = ac_cids (achat_del_cid sid cid a)) as ->.
  { unfold achat_del_session. cbn [fst snd]. by destruct (ac_sessions _ !! _). }
  unfold achat_del_cid, on_ac_cids. cbn [ac_cids]. case_decide as Hc; case_decide as Hs; try done.
  - destruct Hs as [-> _]. apply lookup_delete_eq.
  - destruct (decide (s = sid)) as [->|]; [by destruct Hs|by rewrite lookup_delete_ne].
  - by destruct Hs as [-> ?].
Qed.

(** C21: when every member is known, [chat_del_session] removes the session from
    the table and from all rooms, and nobody else from anywhere; a connection
    registered for it is forgotten. *)
Theorem chat_del_session_spec c a sid cid ms :
  chat_rep c a → known a → is_id sid → is_id cid → is_Some (ac_sessions a !! (sid, cid)) →
  wp (chat_del_session (T := T) sid cid) (λ ret c' ms', ret = 0 ∧ ms' = ms ∧ ∃ a', chat_rep c' a' ∧
    ac_sessions a' = delete (sid, cid) (ac_sessions a) ∧
    (∀ rid g k, member a' rid g k ↔ member a rid g k ∧ k ≠ (sid, cid)) ∧
    (∀ s, ac_cids a' !! s = if decide (s = sid ∧ ac_cids a !! s = Some cid) then None else ac_cids a !! s)) c ms.
Proof.
  intros Hr Ha Hsid Hcid [b Hb]. eapply wp_mono; [by apply (wp_del_session c a)|].
  intros ret c' ms' (-> & -> & Hr'). split_and!; [done..|]. eexists. split; [exact Hr'|]. split_and!.
  - unfold achat_del_session. cbn [fst snd]. change (ac_sessions (achat_del_cid sid cid a)) with (ac_sessions a). by rewrite Hb.
  - intros rid g k. by apply member_del_session.
  - intros s. apply cids_del_session.
Qed.

(** C27: [chat_room_del_session] on a session of the table keeps a read lock: the
    deletion of the session, by the same thread, then blocks for ever. *)
Theorem chat_part_blocks c a rid sid cid ms :
  chat_rep c a → is_id rid → is_id sid → is_id cid → is_Some (ac_sessions a !! (sid, cid)) →
  (chat_room_del_session (T := T) rid sid cid;; chat_del_session sid cid) c ms = Blocked.
Proof.
  intros Hr Hrid Hsid Hcid [b Hb]. unfold mbind at 1, SM_bind at 1.
  destruct (wp_elim _ _ _ _ (wp_part c a rid sid cid ms Hr Hrid Hsid Hcid)) as (r & c1 & ms1 & -> & _ & -> & Hl & Hr1).
  rewrite Hb, <-Hl in Hr1. by eapply del_blocked.
Qed.

(** A connection that was set for a session is found, whatever was set
    before, and is not found any more once it was deleted. *)
Theorem chat_cid_roundtrip c a sid cid :
  chat_rep c a → is_id sid →
  wp (chat_set_sid_to_cid (T := T) sid cid;;
      r ← chat_get_cid_by_sid sid;
      chat_del_sid_to_cid sid cid;;
      r' ← chat_get_cid_by_sid sid;
      mret (r, r'))
    (λ r c' _, r = (cid, 0) ∧ chat_rep c' (on_ac_cids (delete sid) a)) c [].
Proof.
  intros Hr Hsid. wp_step. eapply wp_mono; [by apply (wp_set_cid c a)|]. intros _ c1 ms1 (_ & -> & Hr1).
  wp_step. eapply wp_mono; [eapply (wp_get_cid _ c1); [exact Hr1|done]|]. cbn [on_ac_cids ac_cids].
  rewrite lookup_insert_eq. intros r c2 ms2 (-> & -> & Hr2 & Hl2). wp_step. rewrite <-Hl2 in Hr2.
  eapply wp_mono; [eapply (wp_del_cid _ c2); [exact Hr2|done]|].
  unfold achat_del_cid, on_ac_cids. cbn [ac_cids ac_rooms ac_sessions]. rewrite lookup_insert_eq, decide_True by done.
  rewrite delete_insert_eq. intros _ c3 ms3 (_ & -> & Hr3 & Hs3 & _). wp_step. rewrite <-Hs3 in Hr3.
  eapply wp_mono; [eapply (wp_get_cid _ c3); [exact Hr3|done]|]. cbn [ac_cids]. rewrite lookup_delete_eq.
  intros r' c4 ms4 (-> & -> & Hr4 & Hl4). wp_step. split; [done|]. by rewrite <-Hl4 in Hr4.
Qed.

(** A traversal of a group of a room, or of all groups when the group is 0,
    calls the callback once on each member; the tables are as before. *)
Theorem chat_trav_members {Σ} (proc : chat_sid2cid_item_t → SM Σ unit) (I : list (Z * Z) → Σ → mem → Prop)
    c a rid gid (σ : Σ) ms :
  (∀ ks i σ ms, I ks σ ms → wp (proc i) (λ _, I (ks ++ [item_key i])) σ ms) →
  chat_rep c a → is_id rid → map_Forall (λ _ r, room_fits r) (ac_rooms a) → I [] σ ms →
  wp (chat_room_trav_session (T := T) rid gid proc) (λ ret s' ms', ret = 0 ∧ chat_rep s'.1 a ∧
    ∃ ks, I ks s'.2 ms' ∧ ks ≡ₚ match ac_rooms a !! rid with Some r => visits gid r | None => [] end)
    (c, σ) ms.
Proof.
  intros Hproc Hr Hid Hfit HI. eapply wp_mono; [apply (wp_room_trav proc I); try done|].
  - intros r Hrm. by apply (Hfit rid).
  - intros ret s' ms' (-> & Hr' & ks & Hks & HI'). split_and!; [done..|]. by exists ks.
Qed.

(** The cleaning of the rooms removes those without members, and no other;
    the temporary list is released. *)
Theorem chat_clean_spec c a :
  chat_rep c a → map_Forall (λ rid r, rid ≠ 0 ∧ room_fits r) (ac_rooms a) →
  wp (chat_room_clean_hdl (T := T)) (λ ret c' _, ret = 0 ∧ ∃ a', chat_rep c' a' ∧
    ac_sessions a' = ac_sessions a ∧ ac_cids a' = ac_cids a ∧
    ∀ rid r, ac_rooms a' !! rid = Some r ↔ ac_rooms a !! rid = Some r ∧ count (a_groups r) ≠ 0%nat) c [].
Proof.
  intros Hr Hfit. eapply wp_mono; [by apply wp_clean|]. intros ret c' ms' (-> & -> & Hr'). split; [done|].
  eexists. split; [exact Hr'|]. split_and!; [done..|]. intros rid r. cbn [on_ac_rooms ac_rooms]. unfold clean_rooms.
  rewrite map_lookup_filter_Some. cbn [snd]. unfold aroom_empty. by rewrite bool_decide_eq_false.
Qed.

(** A session subscribes to a command and [chat_has_sub] finds it, provided
    the field it leaves uninitialised holds the connection of the session. *)
Theorem chat_sub_roundtrip c a b sid cid cmd :
  chat_rep c a → is_id sid → is_id cid → cid ≠ 0 → ac_cids a !! sid = Some cid →
  ac_sessions a !! (sid, cid) = Some b →
  wp (r ← chat_add_sub (T := T) sid cmd; r' ← chat_has_sub cid sid cmd; mret (r, r'))
    (λ r c' _, r = (0, true) ∧ ∃ a', chat_rep c' a' ∧
      ac_sessions a' = <[(sid, cid) := ASession (a_rooms b) ({[u16 cmd]} ∪ a_subs b)]> (ac_sessions a)) c [].
Proof.
  intros Hr Hsid Hcid Hz Hc Hb. wp_step. eapply wp_mono; [apply (wp_add_sub c a); [done|done|by rewrite Hc]|].
  intros r c1 ms1 (-> & -> & Hr1). unfold achat_sub in *. rewrite Hc in *. cbn [default] in *.
  unfold id in *. rewrite (proj2 (Z.eqb_neq cid 0)), Hb in * by done. cbn [fst snd] in *. wp_step.
  eapply wp_mono; [eapply (wp_has_sub c1 _ cid sid cmd); [exact Hr1|done|done|]|].
  - intros b'. cbn [on_ac_sessions ac_sessions]. rewrite lookup_insert_eq. intros [= <-]. cbn. set_solver.
  - intros r' c2 ms2 (-> & -> & Hr2). wp_step. cbn [on_ac_sessions ac_sessions]. rewrite lookup_insert_eq.
    split; [done|]. by eexists.
Qed.
End Properties.

(** ** Witnesses, over the red-black trees *)

#[global] Instance is_id_dec z : Decision (is_id z).
Proof. unfold is_id. apply _. Defined.
#[global] Instance room_fits_dec a : Decision (room_fits a).
Proof. unfold room_fits. apply _. Defined.
#[global] Instance call_ok_dec k a : Decision (call_ok k a).
Proof. destruct k; cbn [call_ok]; apply _. Defined.
#[global] Instance calls_ok_dec ks : ∀ a, Decision (calls_ok ks a).
Proof. induction ks as [|k ks IH]; intros a; cbn [calls_ok]; apply _. Defined.

(** Tables in the state that some calls lead to. *)
Lemma reached ks : calls_ok ks achat_empty → ∃ c : chat_tab_t rbt_tree_t, chat_rep c (abs_calls ks achat_empty).2.
Proof.
  intros Hks. destruct (wp_elim _ _ _ _ (wp_init (T := rbt_tree_t) 5 tt ltac:(done))) as (r & s & ms & _ & _ & _ & c & _ & Hc).
  destruct (wp_elim _ _ _ _ (wp_calls ks c achat_empty Hc Hks ltac:(done))) as (rs & c' & ms' & _ & _ & _ & Hc').
  by exists c'.
Qed.

Definition demo_calls : list chat_call :=
  [CJoin 7 10 1 100 1000; CJoin 8 10 2 101 1001; CJoin 9 11 1 102 1002; CSetCid 100 1000; CAddSub 100 5;
   CDelSession 102 1002; CDelSession 101 1001].

Ltac decided := apply (bool_decide_unpack _); vm_compute; exact I.


Lemma chat_members_known_witness :
  calls_ok demo_calls achat_empty ∧
  wp (session_run (T := rbt_tree_t) 5 demo_calls) (λ r _ _, ∃ rs c a, r = Some (rs, c) ∧ chat_rep c a ∧ known a) tt [].
Proof.
  assert (calls_ok demo_calls achat_empty) as Hok by decided.
  split; [exact Hok|]. apply chat_members_known; [done|exact Hok].
Defined.

(** The abstract state after the calls. *)
Definition demo : achat := (abs_calls demo_calls achat_empty).2.

Lemma demo_reached : ∃ c : chat_tab_t rbt_tree_t, chat_rep c demo.
Proof. apply reached. decided. Qed.

Lemma chat_join_new_witness : ∃ c : chat_tab_t rbt_tree_t,
  wp (chat_room_add_session 12 11 3 103 1003) (λ ret c' _, ret = 0 ∧ ∃ a', chat_rep c' a' ∧
      ac_sessions a' = <[(103, 1003) := ASession {[11 := 3]} ∅]> (ac_sessions demo) ∧ ac_cids a' = ac_cids demo ∧
      (∀ rid' g k, member a' rid' g k ↔ member demo rid' g k ∨ (rid' = 11 ∧ g = u16 3 ∧ k = (103, 1003)))) c [].
Proof.
  destruct demo_reached as [c Hc]. exists c. apply (chat_join_new c demo); [exact Hc|done|done|done|].
  vm_compute. reflexivity.
Defined.

Lemma chat_join_second_witness : ∃ (c : chat_tab_t rbt_tree_t) b,
  ac_sessions demo !! (100, 1000) = Some b ∧
  wp (chat_room_add_session 12 11 3 100 1000) (λ ret c' _, ret = 3 ∧ ∃ a', chat_rep c' a' ∧
      ac_rooms a' = ac_rooms demo ∧
      ac_sessions a' = <[(100, 1000) := ASession (<[11 := 3]> (a_rooms b)) (a_subs b)]> (ac_sessions demo)) c [].
Proof.
  destruct demo_reached as [c Hc]. exists c, (ASession {[10 := 1]} {[5]}).
  assert (ac_sessions demo !! (100, 1000) = Some (ASession {[10 := 1]} {[5]})) as Hb by (vm_compute; reflexivity).
  split; [exact Hb|]. apply (chat_join_second c demo); [exact Hc|done|done|done|exact Hb|]. vm_compute. reflexivity.
Defined.

Lemma known_demo : known demo.
Proof.
  assert (Hgen : ∀ ks a, known a → known (abs_calls ks a).2).
  { induction ks as [|k ks IH]; intros a Ha; simpl; [done|]. by apply IH, known_call. }
  apply Hgen. intros rid g k (r & X & Hr & _). change (ac_rooms achat_empty) with (∅ : gmap Z aroom) in Hr.
  by rewrite lookup_empty in Hr.
Qed.

Lemma chat_del_session_spec_witness : ∃ c : chat_tab_t rbt_tree_t,
  wp (chat_del_session 100 1000) (λ ret c' ms', ret = 0 ∧ ms' = [] ∧ ∃ a', chat_rep c' a' ∧
      ac_sessions a' = delete (100, 1000) (ac_sessions demo) ∧
      (∀ rid g k, member a' rid g k ↔ member demo rid g k ∧ k ≠ (100, 1000)) ∧
      (∀ s, ac_cids a' !! s = if decide (s = 100 ∧ ac_cids demo !! s = Some 1000) then None else ac_cids demo !! s)) c [].
Proof.
  destruct demo_reached as [c Hc]. exists c.
  apply (chat_del_session_spec c demo); [exact Hc|exact known_demo|done|done|]. vm_compute. by eexists.
Defined.

Lemma chat_part_blocks_witness : ∃ c : chat_tab_t rbt_tree_t,
  (chat_room_del_session 10 100 1000;; chat_del_session 100 1000) c [] = Blocked.
Proof.
  destruct demo_reached as [c Hc]. exists c. apply (chat_part_blocks c demo); [exact Hc|done|done|done|].
  vm_compute. by eexists.
Defined.

Lemma chat_cid_roundtrip_witness : ∃ c : chat_tab_t rbt_tree_t,
  wp (chat_set_sid_to_cid 100 2000;; r ← chat_get_cid_by_sid 100; chat_del_sid_to_cid 100 2000;;
      r' ← chat_get_cid_by_sid 100; mret (r, r'))
    (λ r c' _, r = (2000, 0) ∧ chat_rep c' (on_ac_cids (delete 100) demo)) c [].
Proof.
  destruct demo_reached as [c Hc]. exists c. apply (chat_cid_roundtrip c demo); [exact Hc|done].
Defined.

(** The callback that gathers the members. *)
Definition gather (i : chat_sid2cid_item_t) : SM (list (Z * Z)) unit := modify (λ l, l ++ [item_key i]).

Lemma chat_trav_members_witness : ∃ c : chat_tab_t rbt_tree_t,
  wp (chat_room_trav_session 10 0 gather) (λ ret s' ms', ret = 0 ∧ chat_rep s'.1 demo ∧
      ∃ ks, s'.2 = ks ∧ ks ≡ₚ match ac_rooms demo !! 10 with Some r => visits 0 r | None => [] end)
      (c, []) [].
Proof.
  destruct demo_reached as [c Hc]. exists c.
  apply (chat_trav_members gather (λ ks σ _, σ = ks) c demo); [|exact Hc|done|decided|done].
  intros ks i σ ms ->. done.
Defined.

Lemma chat_clean_spec_witness : ∃ c : chat_tab_t rbt_tree_t,
  wp chat_room_clean_hdl (λ ret c' _, ret = 0 ∧ ∃ a', chat_rep c' a' ∧
      ac_sessions a' = ac_sessions demo ∧ ac_cids a' = ac_cids demo ∧
      ∀ rid r, ac_rooms a' !! rid = Some r ↔ ac_rooms demo !! rid = Some r ∧ count (a_groups r) ≠ 0%nat) c [].
Proof.
  destruct demo_reached as [c Hc]. exists c. apply (chat_clean_spec c demo); [exact Hc|decided].
Defined.

Lemma chat_sub_roundtrip_witness : ∃ (c : chat_tab_t rbt_tree_t) b,
  wp (r ← chat_add_sub 100 9; r' ← chat_has_sub 1000 100 9; mret (r, r'))
      (λ r c' _, r = (0, true) ∧ ∃ a', chat_rep c' a' ∧
        ac_sessions a' = <[(100, 1000) := ASession (a_rooms b) ({[u16 9]} ∪ a_subs b)]> (ac_sessions demo)) c [].
Proof.
  destruct demo_reached as [c Hc]. exists c, (ASession {[10 := 1]} {[5]}).
  apply (chat_sub_roundtrip c demo); [exact Hc|done|done|done|vm_compute; reflexivity|vm_compute; reflexivity].
Defined.
