(* ===== verification/Ring.v ===== *)
(** The lock-free ring of [lib/core/ring.c] as one thread runs it, with its
    32-bit counters that wrap, and its refinement of a bounded queue. *)
From S2P Require Import Prelude.
Open Scope Z_scope.

(** [ISPOWEROF2] of [comm.h]. *)
Definition ISPOWEROF2 (x : Z) : bool := 0 =? Z.land (i32 (x - 1)) x.

(** The index of the last bit found by the loop of [power2]. *)
Definition power2_idx (v : Z) (n : nat) : Z :=
  foldl (λ idx i, if Z.testbit v (Z.of_nat i) then Z.of_nat i else idx) 0 (seq 0 n).

(** [power2] of [comm.c]: [None] for the shift of an [int] by its width, which
    a negative argument reaches. *)
Definition power2 (v : Z) : option Z :=
  if ISPOWEROF2 v then Some v
  else
    let idx := power2_idx v 32 in
    if idx + 1 <? 32 then Some (i32 (Z.shiftl 1 (idx + 1))) else None.

(** [ring_t]: the counters are [unsigned int]s that only grow, modulo [2^32]. *)
Record ring_t := Ring {
  rmax : Z; rmask : Z; rnum : Z;
  rdata : list ptr;
  prod_head : Z; prod_tail : Z;
  cons_head : Z; cons_tail : Z;
}.

Definition set_prod_head (x : Z) (r : ring_t) : ring_t :=
  Ring (rmax r) (rmask r) (rnum r) (rdata r) x (prod_tail r) (cons_head r) (cons_tail r).
Definition set_prod_tail (x : Z) (r : ring_t) : ring_t :=
  Ring (rmax r) (rmask r) (rnum r) (rdata r) (prod_head r) x (cons_head r) (cons_tail r).
Definition set_cons_head (x : Z) (r : ring_t) : ring_t :=
  Ring (rmax r) (rmask r) (rnum r) (rdata r) (prod_head r) (prod_tail r) x (cons_tail r).
Definition set_cons_tail (x : Z) (r : ring_t) : ring_t :=
  Ring (rmax r) (rmask r) (rnum r) (rdata r) (prod_head r) (prod_tail r) (cons_head r) x.
Definition set_rnum (x : Z) (r : ring_t) : ring_t :=
  Ring (rmax r) (rmask r) x (rdata r) (prod_head r) (prod_tail r) (cons_head r) (cons_tail r).
Definition set_rdata (d : list ptr) (r : ring_t) : ring_t :=
  Ring (rmax r) (rmask r) (rnum r) d (prod_head r) (prod_tail r) (cons_head r) (cons_tail r).

Section Ops.
Abbreviation RM := (SM ring_t).

(** [atomic32_cmp_and_set] on the two reservation counters. *)
Definition cas_prod_head (old new : Z) : RM bool :=
  r ← get;
  if prod_head r =? old then put (set_prod_head new r);; mret true else mret false.
Definition cas_cons_head (old new : Z) : RM bool :=
  r ← get;
  if cons_head r =? old then put (set_cons_head new r);; mret true else mret false.

(** [rq->data[(base + i) & rq->mask]], read and written; out of the array it is
  undefined. *)
Definition slot_of (r : ring_t) (base i : Z) : nat := Z.to_nat (Z.land (u32 (base + i)) (rmask r)).
Definition data_set (base i : Z) (v : ptr) : RM unit :=
  r ← get;
  if decide (slot_of r base i < length (rdata r))%nat
  then put (set_rdata (<[slot_of r base i := v]> (rdata r)) r)
  else crash.
Definition data_get (base i : Z) : RM ptr := r ← get; deref (rdata r !! slot_of r base i).

(** [while (tail != head) { NULL; }]: a thread alone spins for ever. *)
Definition spin (tail : ring_t → Z) (head : Z) : RM unit :=
  t ← gets tail; if t =? head then mret tt else blocked.

(** The loop of the reservation: alone, a thread wins its first exchange. *)
Definition CAS_FUEL : nat := 2.

Definition ring_creat {Σ} (max : Z) : SM Σ (option ring_t) :=
  match power2 max with
  | None => crash
  | Some max =>
      ok ← malloc;
      if negb ok then mret None else
      if max <? 0 then mret None else
      ok ← malloc;
      if negb ok then mret None else
      mret (Some (Ring max (u32 (max - 1)) 0 (replicate (Z.to_nat max) NULL) 0 0 0 0))
  end.

Fixpoint data_set_all (base i : Z) (addr : list ptr) : RM unit :=
  match addr with
  | [] => mret tt
  | v :: addr' => data_set base i v;; data_set_all base (i + 1) addr'
  end.

Fixpoint data_get_all (base i : Z) (n : nat) : RM (list ptr) :=
  match n with
  | O => mret []
  | S n' => v ← data_get base i; l ← data_get_all base (i + 1) n'; mret (v :: l)
  end.

Definition ring_mpush (addr : list ptr) : RM Z :=
  let num := Z.of_nat (length addr) in
  head ← loop CAS_FUEL (λ _ : unit,
    prod_head ← gets prod_head;
    cons_tail ← gets cons_tail;
    max ← gets rmax;
    if num >? u32 (max + cons_tail - prod_head) then mret (inr None) else
    succ ← cas_prod_head prod_head (u32 (prod_head + num));
    mret (if succ : bool then inr (Some prod_head) else inl tt)) tt;
  match head with
  | None => mret (-1)
  | Some prod_head =>
      data_set_all prod_head 0 addr;;
      spin prod_tail prod_head;;
      modify (set_prod_tail (u32 (prod_head + num)));;
      modify (λ r, set_rnum (u32 (rnum r + num)) r);;
      mret 0
  end.

(** The values popped, in the array of the caller. *)
Definition ring_mpop (num : nat) : RM (list ptr) :=
  head ← loop CAS_FUEL (λ _ : unit,
    cons_head ← gets cons_head;
    prod_tail ← gets prod_tail;
    if Z.of_nat num >? u32 (prod_tail - cons_head) then mret (inr None) else
    succ ← cas_cons_head cons_head (u32 (cons_head + Z.of_nat num));
    mret (if succ : bool then inr (Some cons_head) else inl tt)) tt;
  match head with
  | None => mret []
  | Some cons_head =>
      addr ← data_get_all cons_head 0 num;
      spin cons_tail cons_head;;
      modify (set_cons_tail (u32 (cons_head + Z.of_nat num)));;
      modify (λ r, set_rnum (u32 (rnum r - Z.of_nat num)) r);;
      mret addr
  end.

Definition ring_push (addr : ptr) : RM Z := ring_mpush [addr].

Definition ring_pop : RM ptr :=
  addr ← ring_mpop 1;
  match addr with
  | [] => mret NULL
  | v :: _ => mret v
  end.

(** The array is freed: any later access to it is a use after free.  The ring
  itself is not freed. *)
Definition ring_destroy : RM unit :=
  modify (λ r, set_rnum 0 (set_rdata [] (Ring 0 (rmask r) (rnum r) [] (prod_head r) (prod_tail r) (cons_head r) (cons_tail r)))).

Definition ring_max (r : ring_t) : Z := rmax r.
Definition ring_used (r : ring_t) : Z := rnum r.
End Ops.

(** ** The size of a ring *)

Lemma power2_idx_log2 v n : 0 < v < 2 ^ Z.of_nat n → power2_idx v n = Z.log2 v.
Proof.
  assert (∀ m, power2_idx v (S m) = if Z.testbit v (Z.of_nat m) then Z.of_nat m else power2_idx v m) as Hstep.
  { intros m. unfold power2_idx. by rewrite seq_S, foldl_app. }
  induction n as [|n IH]; intros Hv; [simpl in *; lia|].
  rewrite Hstep. destruct (Z.testbit v (Z.of_nat n)) eqn:Hb.
  - symmetry. apply Z.log2_unique; [lia|]. rewrite Nat2Z.inj_succ in Hv. split; [|apply Hv].
    apply Z.nlt_ge. intros Hlt.
    rewrite Z.bits_above_log2 in Hb; [done|lia|]. apply Z.log2_lt_pow2; lia.
  - apply IH. split; [lia|]. apply Z.nle_gt. intros Hle.
    assert (Z.log2 v = Z.of_nat n) as Hl
      by (rewrite Nat2Z.inj_succ in Hv; apply Z.log2_unique; lia).
    rewrite <-Hl, Z.bit_log2 in Hb; [done|lia].
Qed.

Lemma land_pred_log2 v : 0 < v → Z.land (v - 1) v = 0 → v = 2 ^ Z.log2 v.
Proof.
  intros Hv Hl. destruct (Z.log2_spec v Hv) as [Hle Hlt].
  destruct (decide (v = 2 ^ Z.log2 v)) as [?|Hne]; [done|]. exfalso.
  assert (0 ≤ Z.log2 v) by apply Z.log2_nonneg.
  assert (Z.log2 (v - 1) = Z.log2 v) as Hlog by (apply Z.log2_unique; lia).
  assert (0 < 2 ^ Z.log2 v) by (apply Z.pow_pos_nonneg; lia).
  assert (Z.testbit (Z.land (v - 1) v) (Z.log2 v) = true) as Hb.
  { rewrite Z.land_spec, Z.bit_log2 by lia. rewrite <-Hlog, Z.bit_log2; [done|lia]. }
  rewrite Hl, Z.bits_0 in Hb. done.
Qed.

(** The least power of two that is not below the argument. *)
Lemma power2_least v :
  0 < v ≤ 2 ^ 30 → ∃ k, 0 ≤ k ≤ 30 ∧ power2 v = Some (2 ^ k) ∧ v ≤ 2 ^ k < 2 * v.
Proof.
  intros Hv. unfold power2, ISPOWEROF2. rewrite i32_small by lia.
  assert (0 ≤ Z.log2 v) by apply Z.log2_nonneg.
  assert (Z.log2 v ≤ 30) by (change 30 with (Z.log2 (2 ^ 30)); apply Z.log2_le_mono; lia).
  destruct (Z.log2_spec v ltac:(lia)) as [Hle Hlt].
  destruct (Z.eqb_spec 0 (Z.land (v - 1) v)) as [Hl|Hl].
  - exists (Z.log2 v). rewrite <-(land_pred_log2 v) by (done || lia). repeat split; lia || done.
  - rewrite power2_idx_log2 by (simpl; lia). cbn zeta.
    assert (v ≠ 2 ^ Z.log2 v) as Hne.
    { intros Heq. apply Hl. rewrite Heq at 1 2.
      rewrite Z.sub_1_r, <-Z.ones_equiv. rewrite Z.land_comm, Z.land_ones by lia.
      symmetry. apply Z.mod_same. apply Z.pow_nonzero; lia. }
    assert (Z.log2 v < 30).
    { apply Z.log2_lt_pow2; [lia|]. destruct (decide (v = 2 ^ 30)) as [->|]; [|lia].
      exfalso. by apply Hne. }
    assert (Z.log2 v + 1 <? 32 = true) as -> by (apply Z.ltb_lt; lia).
    exists (Z.log2 v + 1). rewrite Z.shiftl_1_l. rewrite Z.add_1_r in *.
    assert (2 ^ Z.succ (Z.log2 v) ≤ 2 ^ 30) by (apply Z.pow_le_mono_r; lia).
    rewrite i32_small by (split; [|lia]; assert (0 ≤ 2 ^ Z.succ (Z.log2 v)) by (apply Z.pow_nonneg; lia); lia).
    rewrite Z.pow_succ_r in * by lia. repeat split; lia || done.
Qed.
