(* ===== verification/RingSpec.v ===== *)
(** The ring refines a bounded queue: the representation relation and the
    specification of each operation, wrap-around of the counters included. *)
From S2P Require Import Prelude Ring.
Open Scope Z_scope.

(** A ring of [2^k] places that holds the queue [q], no operation in progress. *)
Record ring_rep (k : Z) (r : ring_t) (q : list ptr) : Prop := {
  rr_k : 0 ≤ k ≤ 30;
  rr_max : rmax r = 2 ^ k;
  rr_mask : rmask r = 2 ^ k - 1;
  rr_len : length (rdata r) = Z.to_nat (2 ^ k);
  rr_num : rnum r = Z.of_nat (length q);
  rr_cap : Z.of_nat (length q) ≤ 2 ^ k;
  rr_cons : cons_head r = cons_tail r;
  rr_range : 0 ≤ cons_tail r < 2 ^ 32;
  rr_prod : prod_head r = u32 (cons_tail r + Z.of_nat (length q));
  rr_ptail : prod_tail r = prod_head r;
  rr_data : ∀ i v, q !! i = Some v →
    rdata r !! Z.to_nat ((cons_tail r + Z.of_nat i) mod 2 ^ k) = Some v;
}.

Lemma u32_mod_pow2 k x : 0 ≤ k ≤ 30 → u32 x mod 2 ^ k = x mod 2 ^ k.
Proof.
  intros Hk. unfold u32. replace 32 with (k + (32 - k)) by lia.
  rewrite Z.pow_add_r by lia. apply Z.mod_mod_divide. exists (2 ^ (32 - k)). lia.
Qed.

Lemma u32_plus a b : u32 (u32 a + b) = u32 (a + b).
Proof. unfold u32. by rewrite Zplus_mod_idemp_l. Qed.

Lemma u32_minus a b : u32 (u32 a - b) = u32 (a - b).
Proof. unfold u32. by rewrite Zminus_mod_idemp_l. Qed.

Lemma u32_range x : 0 ≤ u32 x < 2 ^ 32.
Proof. apply Z.mod_pos_bound. lia. Qed.

Lemma slot_of_mod k r base i :
  0 ≤ k ≤ 30 → rmask r = 2 ^ k - 1 → slot_of r base i = Z.to_nat ((base + i) mod 2 ^ k).
Proof.
  intros Hk Hm. unfold slot_of. rewrite Hm, Z.sub_1_r, <-Z.ones_equiv, Z.land_ones by lia.
  by rewrite u32_mod_pow2.
Qed.

Lemma pow2_bound k : 0 ≤ k ≤ 30 → 0 < 2 ^ k ≤ 2 ^ 30.
Proof. intros. split; [apply Z.pow_pos_nonneg; lia|apply Z.pow_le_mono_r; lia]. Qed.

(** Two positions of a window of [2^k] counters have distinct places. *)
Lemma window_inj k a b :
  0 ≤ k ≤ 30 → Z.abs (a - b) < 2 ^ k → Z.to_nat (a mod 2 ^ k) = Z.to_nat (b mod 2 ^ k) → a = b.
Proof.
  intros Hk Hab Heq. pose proof (pow2_bound k Hk).
  assert (a mod 2 ^ k = b mod 2 ^ k) as Hm.
  { apply Z2Nat.inj; [apply Z.mod_pos_bound; lia..|done]. }
  rewrite (Z.mod_eq a), (Z.mod_eq b) in Hm by lia.
  assert (a - b = 2 ^ k * (a / 2 ^ k - b / 2 ^ k)) as Heq' by lia.
  assert (a / 2 ^ k - b / 2 ^ k = 0) as Hz; [|lia].
  rewrite Heq', Z.abs_mul, (Z.abs_eq (2 ^ k)) in Hab by lia. nia.
Qed.

(** ** The array *)

Lemma wp_data_get k r base i v (Q : ptr → _ → _ → Prop) ms :
  0 ≤ k ≤ 30 → rmask r = 2 ^ k - 1 → rdata r !! Z.to_nat ((base + i) mod 2 ^ k) = Some v →
  Q v r ms → wp (data_get base i) Q r ms.
Proof.
  intros Hk Hm Hd HQ. unfold data_get. wp_steps. by rewrite (slot_of_mod k), Hd.
Qed.

Lemma wp_data_get_all k r base n l (Q : list ptr → _ → _ → Prop) ms :
  0 ≤ k ≤ 30 → rmask r = 2 ^ k - 1 → length l = n →
  ∀ i, (∀ j v, l !! j = Some v → rdata r !! Z.to_nat ((base + (i + Z.of_nat j)) mod 2 ^ k) = Some v) →
  Q l r ms → wp (data_get_all base i n) Q r ms.
Proof.
  intros Hk Hm. revert l Q. induction n as [|n IH]; intros [|v l] Q Hl i Hd HQ; simplify_eq/=.
  - by wp_steps.
  - wp_steps. eapply (wp_data_get k); [done|done| |].
    { specialize (Hd 0%nat v eq_refl). by rewrite Z.add_0_r in Hd. }
    wp_steps. eapply (IH l); [done| |by wp_steps].
    intros j w Hj. specialize (Hd (S j) w Hj). rewrite Nat2Z.inj_succ in Hd.
    by replace (i + 1 + Z.of_nat j) with (i + Z.succ (Z.of_nat j)) by lia.
Qed.

(** The writes of a push: the places of the window are overwritten, the others
    and the counters are kept. *)
Definition written (k base i : Z) (addr : list ptr) (d d' : list ptr) : Prop :=
  length d' = length d ∧
  (∀ j v, addr !! j = Some v → d' !! Z.to_nat ((base + (i + Z.of_nat j)) mod 2 ^ k) = Some v) ∧
  (∀ p, (∀ j, (j < length addr)%nat → p ≠ Z.to_nat ((base + (i + Z.of_nat j)) mod 2 ^ k)) → d' !! p = d !! p).

Lemma wp_data_set_all k addr base (Q : unit → _ → _ → Prop) ms :
  0 ≤ k ≤ 30 →
  ∀ i r, rmask r = 2 ^ k - 1 → length (rdata r) = Z.to_nat (2 ^ k) → Z.of_nat (length addr) ≤ 2 ^ k →
  (∀ d', written k base i addr (rdata r) d' → Q tt (set_rdata d' r) ms) →
  wp (data_set_all base i addr) Q r ms.
Proof.
  intros Hk. pose proof (pow2_bound k Hk) as Hb.
  induction addr as [|v addr IH]; intros i r Hm Hlen Hcap HQ; cbn [data_set_all].
  - wp_steps. destruct r; apply (HQ _). split_and!; [done|by intros [] ? ?|done].
  - cbn [length] in Hcap. wp_steps. unfold data_set. wp_steps.
    rewrite (slot_of_mod k) by done.
    assert (Z.to_nat ((base + i) mod 2 ^ k) < length (rdata r))%nat as Hin.
    { rewrite Hlen. apply Z2Nat.inj_lt; [apply Z.mod_pos_bound; lia|lia|apply Z.mod_pos_bound; lia]. }
    rewrite decide_True by done. wp_steps. apply IH; simpl; [done|by rewrite length_insert|lia|].
    intros d' (Hl & Hw & Ho). apply (HQ d'). split_and!.
    + by rewrite Hl, length_insert.
    + intros [|j] w Hj.
      * simplify_eq/=. rewrite Z.add_0_r, Ho; [by apply list_lookup_insert_eq|].
        intros j Hj Heq. apply (window_inj k) in Heq; lia.
      * replace (i + Z.of_nat (S j)) with (i + 1 + Z.of_nat j) by lia. by apply Hw.
    + intros p Hp. rewrite Ho.
      * apply list_lookup_insert_ne. intros <-. apply (Hp 0%nat); [simpl; lia|]. by rewrite Z.add_0_r.
      * intros j Hj ->. apply (Hp (S j)); [simpl; lia|]. do 3 f_equal. lia.
Qed.

(** ** The operations *)

(** What a push and a pop do to the bounded queue. *)
Definition aring_push (k : Z) (addr q : list ptr) : Z * list ptr :=
  if decide (Z.of_nat (length q + length addr) ≤ 2 ^ k) then (0, q ++ addr) else (-1, q).
Definition aring_pop (n : nat) (q : list ptr) : list ptr * list ptr :=
  if decide (n ≤ length q)%nat then (take n q, drop n q) else ([], q).

Lemma wp_ring_creat {Σ} max (Q : option ring_t → Σ → mem → Prop) s ms :
  0 < max ≤ 2 ^ 30 →
  (false ∈ ms → ∀ ms', Q None s ms') →
  (∀ r k ms', (false ∈ ms' → false ∈ ms) → max ≤ 2 ^ k < 2 * max → ring_rep k r [] → Q (Some r) s ms') →
  wp (ring_creat max) Q s ms.
Proof.
  intros Hmax HN HS. destruct (power2_least max Hmax) as (k & Hk & Hp & Hle).
  unfold ring_creat. rewrite Hp. pose proof (pow2_bound k Hk).
  assert (2 ^ k <? 0 = false) as Hneg by (apply Z.ltb_ge; lia).
  assert (∀ l : mem, head l = Some false → false ∈ l) as Hh by (intros [|[] ?] ?; simplify_eq/=; left).
  assert (∀ l : mem, false ∈ tail l → false ∈ l) as Ht by (intros [|[] ?] ?; [done|by right..]).
  wp_steps. apply wp_malloc. case_decide; cbn [negb]; [wp_steps; by auto|]. rewrite Hneg.
  wp_steps. apply wp_malloc. case_decide; cbn [negb]; wp_steps; [by auto|].
  apply (HS _ k); [by auto|done|]. constructor; simpl; try done; try lia.
  - by apply u32_small; lia.
  - by rewrite length_replicate.
Qed.

Section Rep.
Context {k : Z}.

Lemma ring_push_frame r q addr d :
  ring_rep k r q → Z.of_nat (length q + length addr) ≤ 2 ^ k →
  written k (prod_head r) 0 addr (rdata r) d →
  ring_rep k
    (set_rnum (u32 (rnum r + Z.of_nat (length addr)))
       (set_prod_tail (u32 (prod_head r + Z.of_nat (length addr)))
          (set_rdata d (set_prod_head (u32 (prod_head r + Z.of_nat (length addr))) r))))
    (q ++ addr).
Proof.
  intros [Hk ?? Hlen Hnum Hcap Hcons ? Hprod ? Hdata] Hfit (Hl & Hw & Ho).
  pose proof (pow2_bound k Hk).
  assert (prod_head r mod 2 ^ k = (cons_tail r + Z.of_nat (length q)) mod 2 ^ k) as Hph
    by (by rewrite Hprod, u32_mod_pow2).
  assert (∀ x, (prod_head r + x) mod 2 ^ k = (cons_tail r + Z.of_nat (length q) + x) mod 2 ^ k) as Hpx.
  { intros x. by rewrite <-Zplus_mod_idemp_l, Hph, Zplus_mod_idemp_l. }
  constructor; simpl; try done; rewrite ?length_app; try lia.
  - rewrite Hnum, u32_small; lia.
  - rewrite Hprod, u32_plus. f_equal. lia.
  - intros i v [Hi|[Hi Hv]]%lookup_app_Some.
    + rewrite Ho; [by apply Hdata|]. intros j Hj Heq. rewrite Hpx in Heq.
      apply lookup_lt_Some in Hi. apply (window_inj k) in Heq; lia.
    + specialize (Hw _ _ Hv). rewrite Hpx in Hw. rewrite <-Hw. do 3 f_equal. lia.
Qed.

Lemma wp_ring_mpush r q addr (Q : Z → _ → _ → Prop) ms :
  ring_rep k r q → Z.of_nat (length addr) < 2 ^ 32 →
  (∀ r', ring_rep k r' (aring_push k addr q).2 → Q (aring_push k addr q).1 r' ms) →
  wp (ring_mpush addr) Q r ms.
Proof.
  intros Hr Hna HQ. pose proof (pow2_bound k (rr_k _ _ _ Hr)).
  assert (u32 (rmax r + cons_tail r - prod_head r) = 2 ^ k - Z.of_nat (length q)) as Hspace.
  { rewrite (rr_max _ _ _ Hr), (rr_prod _ _ _ Hr). unfold u32. rewrite Zminus_mod_idemp_r.
    replace (2 ^ k + cons_tail r - (cons_tail r + Z.of_nat (length q)))
      with (2 ^ k - Z.of_nat (length q)) by lia.
    apply Z.mod_small. pose proof (rr_cap _ _ _ Hr). lia. }
  unfold ring_mpush, CAS_FUEL. wp_steps. apply wp_loop_step. wp_steps. rewrite Hspace.
  unfold aring_push in HQ.
  destruct (decide (Z.of_nat (length q + length addr) ≤ 2 ^ k)) as [Hfit|Hfull]; cbn [fst snd] in HQ.
  - assert (Z.of_nat (length addr) >? 2 ^ k - Z.of_nat (length q) = false) as -> by lia.
    wp_steps. unfold cas_prod_head. wp_steps. rewrite Z.eqb_refl. wp_steps.
    apply (wp_data_set_all k); simpl; try apply Hr; [lia|].
    intros d Hd. wp_steps. unfold spin. wp_steps. simpl. rewrite (rr_ptail _ _ _ Hr), Z.eqb_refl.
    wp_steps. apply HQ. by apply (ring_push_frame r q addr d).
  - assert (Z.of_nat (length addr) >? 2 ^ k - Z.of_nat (length q) = true) as -> by lia.
    wp_steps. by apply HQ.
Qed.

Lemma wp_ring_mpop r q n (Q : list ptr → _ → _ → Prop) ms :
  ring_rep k r q → Z.of_nat n < 2 ^ 32 →
  (∀ r', ring_rep k r' (aring_pop n q).2 → Q (aring_pop n q).1 r' ms) →
  wp (ring_mpop n) Q r ms.
Proof.
  intros Hr Hn HQ. pose proof (pow2_bound k (rr_k _ _ _ Hr)).
  pose proof (rr_cap _ _ _ Hr) as Hcap.
  assert (u32 (prod_tail r - cons_head r) = Z.of_nat (length q)) as Hused.
  { rewrite (rr_ptail _ _ _ Hr), (rr_prod _ _ _ Hr), (rr_cons _ _ _ Hr), u32_minus.
    replace (cons_tail r + Z.of_nat (length q) - cons_tail r) with (Z.of_nat (length q)) by lia.
    apply u32_small. lia. }
  unfold ring_mpop, CAS_FUEL. wp_steps. apply wp_loop_step. wp_steps. rewrite Hused.
  unfold aring_pop in HQ. destruct (decide (n ≤ length q)%nat) as [Hle|Hgt]; cbn [fst snd] in HQ.
  - assert (Z.of_nat n >? Z.of_nat (length q) = false) as -> by lia.
    wp_steps. unfold cas_cons_head. wp_steps. rewrite Z.eqb_refl. wp_steps.
    assert (∀ j v, q !! j = Some v → rdata r !! Z.to_nat ((cons_head r + Z.of_nat j) mod 2 ^ k) = Some v) as Hd.
    { rewrite (rr_cons _ _ _ Hr). apply Hr. }
    apply (wp_data_get_all k _ _ _ (take n q)); simpl; try apply Hr.
    { rewrite length_take. lia. }
    { intros j v [Hj _]%lookup_take_Some. by apply Hd. }
    wp_steps. unfold spin. wp_steps. simpl. rewrite (rr_cons _ _ _ Hr), Z.eqb_refl. wp_steps.
    apply HQ. destruct Hr. constructor; simpl; try done; rewrite ?length_drop; try lia.
    + rewrite rr_num0, u32_small; lia.
    + apply u32_range.
    + rewrite rr_prod0, u32_plus. f_equal. lia.
    + intros i v Hi. rewrite lookup_drop in Hi. rewrite <-(rr_data0 _ _ Hi). do 2 f_equal.
      rewrite <-Zplus_mod_idemp_l, u32_mod_pow2, Zplus_mod_idemp_l by done. f_equal. lia.
  - assert (Z.of_nat n >? Z.of_nat (length q) = true) as -> by lia.
    wp_steps. by apply HQ.
Qed.

Lemma wp_ring_push r q v (Q : Z → _ → _ → Prop) ms :
  ring_rep k r q →
  (∀ r', ring_rep k r' (aring_push k [v] q).2 → Q (aring_push k [v] q).1 r' ms) →
  wp (ring_push v) Q r ms.
Proof. intros Hr HQ. by apply (wp_ring_mpush r q). Qed.

Lemma wp_ring_pop r q (Q : ptr → _ → _ → Prop) ms :
  ring_rep k r q →
  (∀ r', ring_rep k r' (tail q) → Q (default NULL (head q)) r' ms) →
  wp ring_pop Q r ms.
Proof.
  intros Hr HQ. unfold ring_pop. wp_steps. eapply (wp_ring_mpop r q); [done|done|].
  intros r' Hr'. unfold aring_pop in *. destruct q as [|v q]; simpl in *; wp_steps; by apply HQ.
Qed.
End Rep.
