(* ===== verification/Slot.v ===== *)
(** The pool of fixed blocks of [lib/core/slot.c] and the message queue of
    [lib/core/queue.c], both built on the ring. *)
From S2P Require Import Prelude Ring.
Open Scope Z_scope.

(** ** The pool *)

Record slot_t := Slot { smax : Z; ssize : Z; saddr : ptr; sring : ring_t }.
Definition set_sring (r : ring_t) (s : slot_t) : slot_t := Slot (smax s) (ssize s) (saddr s) r.
Definition on_sring {A} : SM ring_t A → SM slot_t A := zoom sring set_sring.

(** [for (i=0; i<num; ++i, ptr += size)]: [false] once a push fails. *)
Fixpoint slot_fill (ptr size : Z) (num : nat) : SM ring_t bool :=
  match num with
  | O => mret true
  | S n =>
      ret ← ring_push ptr;
      if negb (ret =? 0) then mret false else slot_fill (ptr + size) size n
  end.

(** [area] is the address of the memory obtained from the allocator. *)
Definition slot_creat {Σ} (num size : Z) (area : ptr) : SM Σ (option slot_t) :=
  ok ← malloc;
  if negb ok then mret None else
  ring ← ring_creat num;
  match ring with
  | None => mret None
  | Some ring =>
      ok ← malloc;
      if negb ok then mret None else
      x ← run_on ring (slot_fill area size (Z.to_nat num));
      if fst x : bool then mret (Some (Slot num (i32 size) NULL (snd x))) else mret None
  end.

Definition slot_alloc (size : Z) : SM slot_t ptr :=
  slot ← get;
  if size >? ssize slot then mret NULL else on_sring ring_pop.

Definition slot_dealloc (p : ptr) : SM slot_t unit := on_sring (ring_push p);; mret tt.

(** The address given to [free] is returned. *)
Definition slot_destroy : SM slot_t ptr :=
  on_sring ring_destroy;;
  gets saddr.

(** ** The queue *)

Record queue_t := Queue { qslot : slot_t; qring : ring_t }.
Definition set_qslot (s : slot_t) (q : queue_t) : queue_t := Queue s (qring q).
Definition set_qring (r : ring_t) (q : queue_t) : queue_t := Queue (qslot q) r.
Definition on_qslot {A} : SM slot_t A → SM queue_t A := zoom qslot set_qslot.
Definition on_qring {A} : SM ring_t A → SM queue_t A := zoom qring set_qring.

Definition queue_creat {Σ} (max size : Z) (area : ptr) : SM Σ (option queue_t) :=
  if (0 =? max) || (0 =? size) then mret None else
  ok ← malloc;
  if negb ok then mret None else
  ring ← ring_creat max;
  match ring with
  | None => mret None
  | Some ring =>
      slot ← slot_creat max size area;
      match slot with
      | None => mret None
      | Some slot => mret (Some (Queue slot ring))
      end
  end.

Definition queue_malloc (size : Z) : SM queue_t ptr := on_qslot (slot_alloc size).
Definition queue_dealloc (p : ptr) : SM queue_t unit := on_qslot (slot_dealloc p).
Definition queue_push (addr : ptr) : SM queue_t Z := on_qring (ring_push addr).
Definition queue_mpush (addr : list ptr) : SM queue_t Z := on_qring (ring_mpush addr).
Definition queue_pop : SM queue_t ptr := on_qring ring_pop.
Definition queue_mpop (num : nat) : SM queue_t (list ptr) := on_qring (ring_mpop num).
Definition queue_space (q : queue_t) : Z := u32 (ring_max (qring q) - ring_used (qring q)).
Definition queue_used (q : queue_t) : Z := ring_used (qring q).
Definition queue_empty (q : queue_t) : bool := ring_used (qring q) =? 0.
Definition queue_destroy : SM queue_t ptr :=
  on_qring ring_destroy;;
  on_qslot slot_destroy.
