(* ===== verification/QueueSpec.v ===== *)
(** The pool of blocks and the message queue of [Slot] read as lists of blocks:
    those that are free, queued or held by the clients. *)
From S2P Require Import Prelude Ring RingSpec Slot.
Open Scope Z_scope.

(** ** The pool *)

(** The addresses of the blocks of a pool. *)
Definition blocks (area size : Z) (n : nat) : list ptr := (λ i, area + Z.of_nat i * size) <$> seq 0 n.

Lemma blocks_S area size n : blocks area size (S n) = area :: blocks (area + size) size n.
Proof.
  unfold blocks. cbn [seq fmap list_fmap]. f_equal; [lia|]. rewrite <-fmap_S_seq, <-list_fmap_compose.
  apply list_fmap_ext. intros ? i _. simpl. lia.
Qed.

Lemma blocks_nodup area size n : 0 < size → NoDup (blocks area size n).
Proof.
  intros Hs. apply NoDup_fmap_2_strong; [|apply NoDup_seq].
  intros i j _ _ Heq. apply Nat2Z.inj, (Z.mul_reg_r _ _ size); lia.
Qed.

Lemma blocks_pos area size n p : 0 < area → 0 < size → p ∈ blocks area size n → NULL < p.
Proof. intros ?? (i & -> & _)%list_elem_of_fmap. unfold NULL. nia. Qed.

Lemma wp_slot_fill k n : ∀ area size r q (Q : bool → _ → _ → Prop) ms,
  ring_rep k r q → Z.of_nat (length q + n) ≤ 2 ^ k →
  (∀ r', ring_rep k r' (q ++ blocks area size n) → Q true r' ms) →
  wp (slot_fill area size n) Q r ms.
Proof.
  induction n as [|n IH]; intros area size r q Q ms Hr Hn HQ; cbn [slot_fill].
  - wp_steps. apply HQ. by rewrite app_nil_r.
  - wp_steps. apply (wp_ring_push (k := k) r q); [done|]. intros r1. unfold aring_push.
    rewrite decide_True by (simpl; lia). cbn [fst snd]. intros Hr1. rewrite Z.eqb_refl. cbn [negb].
    apply (IH _ _ _ (q ++ [area])); [done|rewrite length_app; simpl; lia|].
    intros r2. rewrite <-app_assoc. cbn [app]. rewrite <-blocks_S. apply HQ.
Qed.

(** A pool of blocks of [size] bytes with the free blocks [F]. *)
Definition slot_rep (size : Z) (k : Z) (s : slot_t) (F : list ptr) : Prop :=
  ssize s = size ∧ ring_rep k (sring s) F.

Lemma wp_slot_creat {Σ} num size area (Q : option slot_t → Σ → mem → Prop) st ms :
  0 < num ≤ 2 ^ 30 → 0 < size < 2 ^ 31 →
  (false ∈ ms → ∀ ms', Q None st ms') →
  (∀ k s ms', num ≤ 2 ^ k → slot_rep size k s (blocks area size (Z.to_nat num)) → Q (Some s) st ms') →
  wp (slot_creat num size area) Q st ms.
Proof.
  intros Hn Hs HN HS. unfold slot_creat.
  assert (∀ l : mem, head l = Some false → false ∈ l) as Hh by (intros [|[] ?] ?; simplify_eq/=; left).
  assert (∀ l : mem, false ∈ tail l → false ∈ l) as Ht by (intros [|[] ?] ?; [done|by right..]).
  wp_steps. apply wp_malloc. case_decide; cbn [negb]; wp_steps; [by auto|].
  apply wp_ring_creat; [done|intros; wp_steps; by auto|]. intros r k ms1 Hms Hk Hr. wp_steps.
  apply wp_malloc. case_decide; cbn [negb]; wp_steps; [by auto|].
  apply wp_run_on. apply (wp_slot_fill k _ _ _ _ []); [done|simpl; lia|].
  intros r' Hr'. cbn [fst snd]. wp_steps. apply (HS k); [lia|]. split; [simpl; apply i32_small; lia|done].
Qed.

Lemma wp_slot_alloc size k s F n (Q : ptr → _ → _ → Prop) ms :
  slot_rep size k s F →
  (∀ s', slot_rep size k s' (if n >? size then F else tail F) →
     Q (if n >? size then NULL else default NULL (head F)) s' ms) →
  wp (slot_alloc n) Q s ms.
Proof.
  intros [Hs Hr] HQ. unfold slot_alloc. wp_steps. rewrite Hs. destruct (n >? size).
  - wp_steps. by apply HQ.
  - apply wp_zoom. apply (wp_ring_pop (k := k) _ F); [done|]. intros r' Hr'. by apply HQ.
Qed.

Lemma wp_slot_dealloc size k s F p (Q : unit → _ → _ → Prop) ms :
  slot_rep size k s F → Z.of_nat (length F) < 2 ^ k →
  (∀ s', slot_rep size k s' (F ++ [p]) → Q tt s' ms) → wp (slot_dealloc p) Q s ms.
Proof.
  intros [Hs Hr] Hn HQ. unfold slot_dealloc. wp_steps. apply wp_zoom.
  apply (wp_ring_push (k := k) _ F); [done|]. unfold aring_push. rewrite decide_True by (simpl; lia).
  intros r' Hr'. wp_steps. by apply HQ.
Qed.

(** ** The message queue *)

(** The free blocks, the queued ones, and those the clients hold. *)
Record aqueue := AQueue { afree : list ptr; aqueued : list ptr; aheld : list ptr }.

Inductive queue_call := QMalloc (size : Z) | QDealloc (p : ptr) | QPush (p : ptr) | QPop.

Definition run_queue_call (c : queue_call) : SM queue_t ptr :=
  match c with
  | QMalloc size => queue_malloc size
  | QDealloc p => queue_dealloc p;; mret NULL
  | QPush p => queue_push p
  | QPop => queue_pop
  end.

Definition drop_block (p : ptr) (l : list ptr) : list ptr := filter (λ x, x ≠ p) l.

Definition abs_queue_call (size : Z) (c : queue_call) (a : aqueue) : ptr * aqueue :=
  match c with
  | QMalloc n =>
      if n >? size then (NULL, a)
      else match afree a with
           | [] => (NULL, a)
           | p :: F => (p, AQueue F (aqueued a) (p :: aheld a))
           end
  | QDealloc p => (NULL, AQueue (afree a ++ [p]) (aqueued a) (drop_block p (aheld a)))
  | QPush p => (0, AQueue (afree a) (aqueued a ++ [p]) (drop_block p (aheld a)))
  | QPop =>
      match aqueued a with
      | [] => (NULL, a)
      | p :: Q => (p, AQueue (afree a) Q (p :: aheld a))
      end
  end.

(** A client gives up only a block it holds. *)
Definition queue_call_ok (c : queue_call) (a : aqueue) : Prop :=
  match c with QDealloc p | QPush p => p ∈ aheld a | _ => True end.

(** Every block of the pool is free, queued or held, exactly once. *)
Record queue_rep (size : Z) (B : list ptr) (q : queue_t) (a : aqueue) : Prop := {
  qr_slot : ∃ k, Z.of_nat (length B) ≤ 2 ^ k ∧ slot_rep size k (qslot q) (afree a);
  qr_ring : ∃ k, Z.of_nat (length B) ≤ 2 ^ k ∧ ring_rep k (qring q) (aqueued a);
  qr_blocks : afree a ++ aqueued a ++ aheld a ≡ₚ B;
  qr_nodup : NoDup B;
}.

Lemma drop_block_notin p l : p ∉ l → drop_block p l = l.
Proof.
  unfold drop_block. induction l as [|x l IH]; intros Hp; [done|].
  apply not_elem_of_cons in Hp as [? ?]. rewrite filter_cons_True by done. by rewrite IH.
Qed.

Lemma drop_block_perm p l : NoDup l → p ∈ l → p :: drop_block p l ≡ₚ l.
Proof.
  unfold drop_block. induction l as [|x l IH]; intros Hnd Hp; [by apply elem_of_nil in Hp|apply NoDup_cons in Hnd as [Hx Hl]].
  rewrite filter_cons. case_decide as Hxp.
  - apply elem_of_cons in Hp as [->|Hp]; [done|]. by rewrite Permutation_swap, IH.
  - assert (x = p) as -> by (by destruct (decide (x = p))). f_equiv.
    fold (drop_block p l). by rewrite (drop_block_notin p l).
Qed.

Section Queue.
Context {size : Z} {B : list ptr}.

Lemma queue_rep_held q a : queue_rep size B q a → NoDup (aheld a).
Proof.
  intros H. pose proof (qr_nodup _ _ _ _ H) as Hn. rewrite <-(qr_blocks _ _ _ _ H) in Hn.
  by apply NoDup_app in Hn as (_ & _ & (_ & _ & ?)%NoDup_app).
Qed.

Lemma queue_rep_room q a p :
  queue_rep size B q a → p ∈ aheld a →
  (length (afree a) < length B)%nat ∧ (length (aqueued a) < length B)%nat.
Proof.
  intros H Hp. rewrite <-(qr_blocks _ _ _ _ H), !length_app. destruct (aheld a) as [|x l]; simpl; [|lia].
  by apply elem_of_nil in Hp.
Qed.

Lemma wp_run_queue_call c q a ms :
  queue_rep size B q a → queue_call_ok c a →
  wp (run_queue_call c)
    (λ x q' ms', x = (abs_queue_call size c a).1 ∧ queue_rep size B q' (abs_queue_call size c a).2 ∧ ms' = ms) q ms.
Proof.
  intros H Hok. pose proof (queue_rep_held _ _ H) as Hnd.
  destruct H as [(k1 & Hk1 & Hs) (k2 & Hk2 & Hr) Hb Hn]. destruct a as [F Qs U]; simpl in *.
  destruct c as [n|p|p|]; simpl.
  - unfold queue_malloc. apply wp_zoom. eapply wp_slot_alloc; [done|]. intros s' Hs'.
    destruct (n >? size); [|destruct F as [|p F]]; simpl in *; (split; [done|]); (split; [|done]); constructor; simpl; eauto.
    rewrite <-Hb. solve_Permutation.
  - destruct (queue_rep_room q (AQueue F Qs U) p) as [Hf _]; [by constructor; eauto|done|]. simpl in Hf.
    unfold queue_dealloc. wp_steps. apply wp_zoom. eapply wp_slot_dealloc; [done|lia|].
    intros s' Hs'. wp_steps. split; [done|]. split; [|done]. constructor; simpl; eauto.
    rewrite <-Hb. transitivity (F ++ Qs ++ p :: drop_block p U); [solve_Permutation|].
    by rewrite (drop_block_perm p U).
  - destruct (queue_rep_room q (AQueue F Qs U) p) as [_ Hq]; [by constructor; eauto|done|]. simpl in Hq.
    unfold queue_push. apply wp_zoom. eapply wp_ring_push; [done|]. unfold aring_push.
    rewrite decide_True by (simpl; lia). intros r' Hr'. split; [done|]. split; [|done]. constructor; simpl; eauto.
    rewrite <-Hb. transitivity (F ++ Qs ++ p :: drop_block p U); [solve_Permutation|].
    by rewrite (drop_block_perm p U).
  - unfold queue_pop. apply wp_zoom. eapply wp_ring_pop; [done|]. intros r' Hr'.
    destruct Qs as [|p Qs]; simpl in *; (split; [done|]); (split; [|done]); constructor; simpl; eauto.
    rewrite <-Hb. solve_Permutation.
Qed.

(** The calls one by one. *)
Lemma wp_queue_malloc n q a (Q : ptr → queue_t → mem → Prop) ms :
  queue_rep size B q a → n ≤ size →
  (∀ q', queue_rep size B q' (abs_queue_call size (QMalloc n) a).2 → Q (default NULL (head (afree a))) q' ms) →
  wp (queue_malloc n) Q q ms.
Proof.
  intros Hq Hn HQ. eapply wp_mono; [apply (wp_run_queue_call (QMalloc n) q a); done|].
  intros x q' ms' (-> & Hq' & ->). specialize (HQ q' Hq'). simpl. destruct (Z.gtb_spec n size); [lia|].
  by destruct (afree a).
Qed.

Lemma wp_queue_push p q a (Q : Z → queue_t → mem → Prop) ms :
  queue_rep size B q a → p ∈ aheld a →
  (∀ q', queue_rep size B q' (abs_queue_call size (QPush p) a).2 → Q 0 q' ms) → wp (queue_push p) Q q ms.
Proof.
  intros Hq Hp HQ. eapply wp_mono; [apply (wp_run_queue_call (QPush p) q a); done|].
  intros x q' ms' (-> & Hq' & ->). by apply HQ.
Qed.

Lemma wp_queue_dealloc p q a (Q : unit → queue_t → mem → Prop) ms :
  queue_rep size B q a → p ∈ aheld a →
  (∀ q', queue_rep size B q' (abs_queue_call size (QDealloc p) a).2 → Q tt q' ms) → wp (queue_dealloc p) Q q ms.
Proof.
  intros Hq Hp HQ. pose proof (wp_run_queue_call (QDealloc p) q a ms Hq Hp) as H. cbn [run_queue_call] in H.
  apply wp_bind_inv in H. eapply wp_mono; [exact H|]. intros [] q' ms' H'. unfold wp in H'. simpl in H'.
  destruct H' as (_ & Hq' & ->). by apply HQ.
Qed.

Lemma queue_rep_used q a : queue_rep size B q a → queue_used q = Z.of_nat (length (aqueued a)).
Proof.
  intros H. destruct (qr_ring _ _ _ _ H) as (k & _ & Hr). apply (rr_num _ _ _ Hr).
Qed.

Lemma wp_queue_mpop n q a (Q : list ptr → queue_t → mem → Prop) ms :
  queue_rep size B q a → (n ≤ length (aqueued a))%nat → Z.of_nat n < 2 ^ 32 →
  (∀ q', queue_rep size B q' (AQueue (afree a) (drop n (aqueued a)) (take n (aqueued a) ++ aheld a)) →
     Q (take n (aqueued a)) q' ms) →
  wp (queue_mpop n) Q q ms.
Proof.
  intros [Hs (k & Hk & Hr) Hb Hn] Hle Hn32 HQ. unfold queue_mpop, on_qring. apply wp_zoom.
  eapply wp_ring_mpop; [exact Hr|done|]. unfold aring_pop. rewrite decide_True by done. cbn [fst snd].
  intros r' Hr'. apply HQ. constructor; simpl; eauto. rewrite <-Hb.
  rewrite <-(take_drop n (aqueued a)) at 3. solve_Permutation.
Qed.
End Queue.
