(* ===== verification/QueueProps.v ===== *)
(** Properties of the ring, of the pool of blocks and of the message queue. *)
From S2P Require Import Prelude Ring RingSpec Slot QueueSpec.
Open Scope Z_scope.

(** ** Call sequences on a ring *)

Inductive ring_call := RPush (addr : list ptr) | RPop (n : nat).

(** A call and what it returned: the status of a push, the values of a pop. *)
Definition run_ring_call (c : ring_call) : SM ring_t (Z + list ptr) :=
  match c with
  | RPush addr => x ← ring_mpush addr; mret (inl x)
  | RPop n => x ← ring_mpop n; mret (inr x)
  end.
Definition aring_call (k : Z) (c : ring_call) (q : list ptr) : (Z + list ptr) * list ptr :=
  match c with
  | RPush addr => let x := aring_push k addr q in (inl x.1, x.2)
  | RPop n => let x := aring_pop n q in (inr x.1, x.2)
  end.

Definition ring_call_ok (c : ring_call) : Prop :=
  match c with RPush addr => Z.of_nat (length addr) < 2 ^ 32 | RPop n => Z.of_nat n < 2 ^ 32 end.

Lemma wp_run_ring_call k c r q ms :
  ring_rep k r q → ring_call_ok c →
  wp (run_ring_call c) (λ x r' _, x = (aring_call k c q).1 ∧ ring_rep k r' (aring_call k c q).2) r ms.
Proof.
  intros Hr Hok. destruct c; simpl; wp_steps.
  - apply (wp_ring_mpush (k := k) r q); [done..|]. intros r' Hr'. by wp_steps.
  - apply (wp_ring_mpop (k := k) r q); [done..|]. intros r' Hr'. by wp_steps.
Qed.

(** C31: whatever the values of its 32-bit counters, which wrap around, a ring of
    [2^k] places behaves under any sequence of multi-element pushes and pops as
    a bounded FIFO queue: a push is refused exactly when its values do not all
    fit and then stores none of them, a pop returns the oldest values in order
    or nothing when fewer are present, and no access leaves the array. *)
Theorem ring_refines k r q cs ms :
  ring_rep k r q → Forall ring_call_ok cs →
  wp (run_seq run_ring_call cs)
    (λ l r' _, l = (abs_seq (aring_call k) cs q).1 ∧ ring_rep k r' (abs_seq (aring_call k) cs q).2) r ms.
Proof.
  intros Hr Hok. apply (wp_run_seq _ _ (ring_rep k) (λ c _, ring_call_ok c)).
  - intros c s a ms' Hs Hc. by apply wp_run_ring_call.
  - done.
  - clear Hr. revert q. induction Hok; intros q; simpl; [done|]. split; [done|apply IHHok].
Qed.

(** A ring of four places whose counters are about to wrap. *)
Definition ring_wrapping : ring_t :=
  Ring 4 3 1 [0; 0; 0; 7] 0 0 (2 ^ 32 - 1) (2 ^ 32 - 1).

Lemma ring_refines_witness :
  ring_rep 2 ring_wrapping [7] ∧
  wp (run_seq run_ring_call [RPush [8; 9]; RPush [1; 2]; RPop 2; RPop 2; RPop 1])
    (λ l r' _, l = [inl 0; inl (-1); inr [7; 8]; inr []; inr [9]] ∧ ring_rep 2 r' []) ring_wrapping [].
Proof.
  assert (ring_rep 2 ring_wrapping [7]) as Hr.
  { constructor; try done; try (simpl; lia).
    intros [|[|i]] v Hv; simplify_eq/=; reflexivity. }
  split; [exact Hr|]. apply (ring_refines 2 ring_wrapping [7]); [exact Hr|].
  repeat constructor; vm_compute; reflexivity.
Defined.

(** [ring_creat] asked for [max] places returns an empty ring whose capacity is
    the least power of two that is not below [max], or NULL, and that only when
    an allocation failed. *)
Theorem ring_creat_spec {Σ} max (s : Σ) ms :
  0 < max ≤ 2 ^ 30 →
  wp (ring_creat max) (λ o s' _, s' = s ∧
    match o with
    | None => false ∈ ms
    | Some r => ∃ k, max ≤ 2 ^ k < 2 * max ∧ ring_rep k r []
    end) s ms.
Proof. intros Hm. apply wp_ring_creat; [done|done|]. intros r k ms' _ Hk Hr. by eauto. Qed.

Lemma ring_creat_spec_witness :
  wp (ring_creat 100) (λ o s' _, s' = tt ∧
    match o with
    | None => false ∈ @nil bool
    | Some r => ∃ k, 100 ≤ 2 ^ k < 2 * 100 ∧ ring_rep k r []
    end) tt [].
Proof. apply (ring_creat_spec 100 tt []). lia. Defined.

(** ** The message queue *)

(** C32: in any use of a message queue where a client pushes or frees only blocks
    it holds, an allocation returns a block nobody holds and that is not queued
    (NULL exactly when no block is free or the request is larger than a block),
    a push never fails, pops return the queued blocks in order, and every block
    of the pool stays free, queued or held exactly once. *)
Theorem queue_refines size B q a cs ms :
  queue_rep size B q a → ok_seq (abs_queue_call size) queue_call_ok cs a →
  wp (run_seq run_queue_call cs)
    (λ l q' _, l = (abs_seq (abs_queue_call size) cs a).1 ∧
               queue_rep size B q' (abs_seq (abs_queue_call size) cs a).2) q ms.
Proof.
  intros Hr Hok. apply (wp_run_seq _ _ (queue_rep size B) queue_call_ok); [|done|done].
  intros c s a' ms' Hs Hc. eapply wp_mono; [exact (wp_run_queue_call c s a' ms' Hs Hc)|]. by intros x q' ms2 (? & ? & _).
Qed.

Definition queue_example : queue_t :=
  Queue (Slot 2 16 NULL (Ring 2 1 2 [4096; 4112] 2 2 0 0)) (Ring 2 1 0 [NULL; NULL] 0 0 0 0).

Lemma ring_rep_empty : ring_rep 1 (Ring 2 1 0 [NULL; NULL] 0 0 0 0) [].
Proof. constructor; try done; simpl; lia. Qed.

Lemma queue_example_rep : queue_rep 16 [4096; 4112] queue_example (AQueue [4096; 4112] [] []).
Proof.
  constructor; simpl.
  - exists 1. split; [done|]. split; [done|]. constructor; try done; try (simpl; lia).
    intros [|[|i]] v Hv; simplify_eq/=; reflexivity.
  - exists 1. split; [done|]. apply ring_rep_empty.
  - done.
  - repeat constructor; set_solver.
Qed.

Lemma queue_refines_witness :
  wp (run_seq run_queue_call [QMalloc 8; QMalloc 8; QMalloc 8; QPush 4112; QPush 4096; QPop; QDealloc 4112; QMalloc 99])
    (λ l q' _, l = [4096; 4112; NULL; 0; 0; 4112; NULL; NULL] ∧
               queue_rep 16 [4096; 4112] q' (AQueue [4112] [4096] [])) queue_example [].
Proof.
  apply (queue_refines 16 [4096; 4112] queue_example (AQueue [4096; 4112] [] [])); [apply queue_example_rep|].
  repeat split; vm_compute; repeat (left || right).
Defined.

(** [queue_creat] returns a queue whose blocks, [max] disjoint blocks of
    [size] bytes in the memory obtained, are all free, or NULL when an
    allocation failed. *)
Theorem queue_creat_spec {Σ} max size area (s : Σ) ms :
  0 < max ≤ 2 ^ 30 → 0 < size < 2 ^ 31 → 0 < area →
  wp (queue_creat max size area) (λ o s' _, s' = s ∧
    match o with
    | None => false ∈ ms
    | Some q => queue_rep size (blocks area size (Z.to_nat max)) q
                  (AQueue (blocks area size (Z.to_nat max)) [] [])
    end) s ms.
Proof.
  intros Hm Hs Ha. unfold queue_creat.
  assert (((0 =? max) || (0 =? size)) = false) as -> by lia.
  assert (∀ l : mem, head l = Some false → false ∈ l) as Hh by (intros [|[] ?] ?; simplify_eq/=; left).
  assert (∀ l : mem, false ∈ tail l → false ∈ l) as Ht by (intros [|[] ?] ?; [done|by right..]).
  wp_steps. apply wp_malloc. case_decide; cbn [negb]; wp_steps; [by auto|].
  apply wp_ring_creat; [done|intros; wp_steps; by auto|]. intros r k ms1 Hms Hk Hr. wp_steps.
  apply wp_slot_creat; [done|done|intros; wp_steps; by auto|].
  intros k' sl ms2 Hk' Hsl. wp_steps. split; [done|].
  assert (Z.of_nat (length (blocks area size (Z.to_nat max))) = max) as Hlen.
  { unfold blocks. rewrite length_fmap, length_seq. lia. }
  constructor; simpl.
  - exists k'. rewrite Hlen. done.
  - exists k. rewrite Hlen. split; [lia|done].
  - by rewrite !app_nil_r.
  - apply blocks_nodup. lia.
Qed.

Lemma queue_creat_spec_witness :
  wp (queue_creat 3 16 4096) (λ o s' _, s' = tt ∧
    match o with
    | None => false ∈ @nil bool
    | Some q => queue_rep 16 (blocks 4096 16 (Z.to_nat 3)) q (AQueue [4096; 4112; 4128] [] [])
    end) tt [].
Proof. apply (queue_creat_spec 3 16 4096 tt []); lia. Defined.
