(* ===== verification/RingConc.v ===== *)
(** The ring of [lib/core/ring.c] used by several threads at once: one step per
    access to shared memory, in a sequentially consistent interleaving, and
    the atomic bounded queue it implements. *)
From S2P Require Import Prelude Ring.
Open Scope Z_scope.

(** Where a thread is in [ring_mpush] or [ring_mpop], with its local variables. *)
Inductive pc :=
  | Idle
  | PReadHead (vs : list ptr)
  | PReadTail (vs : list ptr) (head : Z)
  | PCas (vs : list ptr) (head : Z)
  | PWrite (vs : list ptr) (head : Z) (i : nat)
  | PSpin (vs : list ptr) (head : Z)
  | PTail (vs : list ptr) (head : Z)
  | PNum (vs : list ptr)
  | PRet (ret : Z)
  | CReadHead (num : nat)
  | CReadTail (num : nat) (head : Z)
  | CCas (num : nat) (head : Z)
  | CRead (num : nat) (head : Z) (vs : list ptr)
  | CSpin (num : nat) (head : Z) (vs : list ptr)
  | CTail (num : nat) (head : Z) (vs : list ptr)
  | CNum (num : nat) (vs : list ptr)
  | CRet (vs : list ptr).

#[export] Instance pc_eq_dec : EqDecision pc.
Proof. solve_decision. Defined.

(** One access of [ring_mpush]; [None] is an access out of the array. *)
Definition push_step (r : ring_t) (p : pc) : option (ring_t * pc) :=
  match p with
  | PReadHead vs => Some (r, PReadTail vs (prod_head r))
  | PReadTail vs head =>
      if Z.of_nat (length vs) >? u32 (rmax r + cons_tail r - head)
      then Some (r, PRet (-1)) else Some (r, PCas vs head)
  | PCas vs head =>
      if prod_head r =? head
      then Some (set_prod_head (u32 (head + Z.of_nat (length vs))) r, PWrite vs head 0)
      else Some (r, PReadHead vs)
  | PWrite vs head i =>
      match vs !! i with
      | None => Some (r, PSpin vs head)
      | Some v =>
          let p := slot_of r head (Z.of_nat i) in
          if decide (p < length (rdata r))%nat
          then Some (set_rdata (<[p := v]> (rdata r)) r, PWrite vs head (S i)) else None
      end
  | PSpin vs head => Some (r, if prod_tail r =? head then PTail vs head else PSpin vs head)
  | PTail vs head => Some (set_prod_tail (u32 (head + Z.of_nat (length vs))) r, PNum vs)
  | PNum vs => Some (set_rnum (u32 (rnum r + Z.of_nat (length vs))) r, PRet 0)
  | _ => None
  end.

(** One access of [ring_mpop]. *)
Definition pop_step (r : ring_t) (p : pc) : option (ring_t * pc) :=
  match p with
  | CReadHead num => Some (r, CReadTail num (cons_head r))
  | CReadTail num head =>
      if Z.of_nat num >? u32 (prod_tail r - head)
      then Some (r, CRet []) else Some (r, CCas num head)
  | CCas num head =>
      if cons_head r =? head
      then Some (set_cons_head (u32 (head + Z.of_nat num)) r, CRead num head [])
      else Some (r, CReadHead num)
  | CRead num head vs =>
      if decide (length vs < num)%nat
      then v ← rdata r !! slot_of r head (Z.of_nat (length vs)); Some (r, CRead num head (vs ++ [v]))
      else Some (r, CSpin num head vs)
  | CSpin num head vs => Some (r, if cons_tail r =? head then CTail num head vs else CSpin num head vs)
  | CTail num head vs => Some (set_cons_tail (u32 (head + Z.of_nat num)) r, CNum num vs)
  | CNum num vs => Some (set_rnum (u32 (rnum r - Z.of_nat num)) r, CRet vs)
  | _ => None
  end.

Definition is_push (p : pc) : bool :=
  match p with
  | PReadHead _ | PReadTail _ _ | PCas _ _ | PWrite _ _ _ | PSpin _ _ | PTail _ _ | PNum _ => true
  | _ => false
  end.

Definition tstep (r : ring_t) (p : pc) : option (ring_t * pc) :=
  if is_push p then push_step r p else pop_step r p.

(** ** The system *)

Inductive op := OPush (vs : list ptr) | OPop (num : nat).
Inductive res := RStatus (ret : Z) | RVals (vs : list ptr).
Inductive event := Call (t : nat) (o : op) | Ret (t : nat) (x : res).

Definition start (o : op) : pc :=
  match o with OPush vs => PReadHead vs | OPop num => CReadHead num end.
Definition result (p : pc) : option res :=
  match p with PRet x => Some (RStatus x) | CRet vs => Some (RVals vs) | _ => None end.
(** The length of a call is a positive [unsigned int]. *)
Definition op_size (o : op) : Z :=
  match o with OPush vs => Z.of_nat (length vs) | OPop num => Z.of_nat num end.
Definition op_ok (o : op) : Prop := 0 < op_size o < 2 ^ 32.

Record sys := Sys { shared : ring_t; threads : list pc }.

Inductive cstep : sys → option event → sys → Prop :=
  | cs_call s t o :
      threads s !! t = Some Idle → op_ok o →
      cstep s (Some (Call t o)) (Sys (shared s) (<[t := start o]> (threads s)))
  | cs_int s t p r' p' :
      threads s !! t = Some p → tstep (shared s) p = Some (r', p') →
      cstep s None (Sys r' (<[t := p']> (threads s)))
  | cs_ret s t p x :
      threads s !! t = Some p → result p = Some x →
      cstep s (Some (Ret t x)) (Sys (shared s) (<[t := Idle]> (threads s))).

(** ** The atomic bounded queue *)

Inductive astatus := AIdle | ACalled (o : op) | ADone (x : res).
Record aring := ARing { aq : list ptr; athr : list astatus }.

(** A call takes effect at one instant between its call and its return.  A push
    fails when its values do not fit or when a pop by another thread has taken
    effect and not returned; a pop likewise. *)
Inductive astep (cap : Z) : aring → option event → aring → Prop :=
  | as_call a t o :
      athr a !! t = Some AIdle →
      astep cap a (Some (Call t o)) (ARing (aq a) (<[t := ACalled o]> (athr a)))
  | as_push a t vs :
      athr a !! t = Some (ACalled (OPush vs)) →
      Z.of_nat (length (aq a) + length vs) ≤ cap →
      astep cap a None (ARing (aq a ++ vs) (<[t := ADone (RStatus 0)]> (athr a)))
  | as_push_fail a t vs :
      athr a !! t = Some (ACalled (OPush vs)) →
      cap < Z.of_nat (length (aq a) + length vs) ∨
      (∃ t' ws, t' ≠ t ∧ athr a !! t' = Some (ADone (RVals ws)) ∧ ws ≠ []) →
      astep cap a None (ARing (aq a) (<[t := ADone (RStatus (-1))]> (athr a)))
  | as_pop a t num :
      athr a !! t = Some (ACalled (OPop num)) →
      (num ≤ length (aq a))%nat →
      astep cap a None (ARing (drop num (aq a)) (<[t := ADone (RVals (take num (aq a)))]> (athr a)))
  | as_pop_fail a t num :
      athr a !! t = Some (ACalled (OPop num)) →
      (length (aq a) < num)%nat ∨
      (∃ t', t' ≠ t ∧ athr a !! t' = Some (ADone (RStatus 0))) →
      astep cap a None (ARing (aq a) (<[t := ADone (RVals [])]> (athr a)))
  | as_ret a t x :
      athr a !! t = Some (ADone x) →
      astep cap a (Some (Ret t x)) (ARing (aq a) (<[t := AIdle]> (athr a))).

(** ** Runs *)

Inductive run {S : Type} (step : S → option event → S → Prop) : S → list event → S → Prop :=
  | run_nil s : run step s [] s
  | run_snoc s tr s1 e s2 :
      run step s tr s1 → step s1 e s2 → run step s (tr ++ option_list e) s2.

(** The values a trace asks to push. *)
Definition ev_size (e : event) : Z := match e with Call _ (OPush vs) => Z.of_nat (length vs) | _ => 0 end.
Fixpoint called (tr : list event) : Z := match tr with [] => 0 | e :: tr' => ev_size e + called tr' end.

Lemma called_app tr tr' : called (tr ++ tr') = called tr + called tr'.
Proof. induction tr as [|e tr IH]; simpl; lia. Qed.

Lemma called_nonneg tr : 0 ≤ called tr.
Proof. induction tr as [|[? [?|?]|] tr]; simpl; lia. Qed.

(** A schedule, for running the system. *)
Inductive action := DoCall (t : nat) (o : op) | DoStep (t : nat) | DoRet (t : nat).

Definition do_action (a : action) (s : sys) : option (option event * sys) :=
  match a with
  | DoCall t o =>
      match threads s !! t with
      | Some Idle =>
          if (0 <? op_size o) && (op_size o <? 2 ^ 32)
          then Some (Some (Call t o), Sys (shared s) (<[t := start o]> (threads s))) else None
      | _ => None
      end
  | DoStep t =>
      p ← threads s !! t; x ← tstep (shared s) p;
      Some (None, Sys x.1 (<[t := x.2]> (threads s)))
  | DoRet t =>
      p ← threads s !! t; x ← result p;
      Some (Some (Ret t x), Sys (shared s) (<[t := Idle]> (threads s)))
  end.

Lemma do_action_step a s e s' : do_action a s = Some (e, s') → cstep s e s'.
Proof.
  destruct a as [t o|t|t]; simpl; intros H.
  - destruct (threads s !! t) as [[]|] eqn:Ht; try done. case_match eqn:Hb; simplify_eq.
    constructor; [done|]. unfold op_ok. lia.
  - destruct (threads s !! t) as [p|] eqn:Ht; simplify_eq/=.
    destruct (tstep (shared s) p) as [[r' p']|] eqn:Hs; simplify_eq/=. by econstructor.
  - destruct (threads s !! t) as [p|] eqn:Ht; simplify_eq/=.
    destruct (result p) as [x|] eqn:Hx; simplify_eq/=. by econstructor.
Qed.

Fixpoint do_sched (l : list action) (s : sys) : option (list event * sys) :=
  match l with
  | [] => Some ([], s)
  | a :: l' => x ← do_action a s; y ← do_sched l' x.2; Some (option_list x.1 ++ y.1, y.2)
  end.

Lemma do_sched_run l s0 : ∀ tr s tr' s',
  run cstep s0 tr s → do_sched l s = Some (tr', s') → run cstep s0 (tr ++ tr') s'.
Proof.
  induction l as [|a l IH]; intros tr s tr' s' Hr H; simplify_eq/=; [by rewrite app_nil_r|].
  destruct (do_action a s) as [[e s1]|] eqn:Ha; simplify_eq/=.
  destruct (do_sched l s1) as [[tr1 s2]|] eqn:Hl; simplify_eq/=.
  rewrite app_assoc. eapply IH; [|done]. eapply run_snoc; [done|]. by eapply do_action_step.
Qed.
