(* ===== verification/RingLin.v ===== *)
(** The concurrent ring is linearizable: the invariant that ties the counters,
    the reservations of the threads and the array to the atomic queue. *)
From S2P Require Import Prelude Ring RingSpec RingConc.
Open Scope Z_scope.

(** ** Reservations *)

(** The interval of counters a thread has reserved and not released. *)
Definition pint (p : pc) : option (Z * Z) :=
  match p with
  | PWrite vs h _ | PSpin vs h | PTail vs h => Some (h, Z.of_nat (length vs))
  | _ => None
  end.
Definition cint (p : pc) : option (Z * Z) :=
  match p with
  | CRead n h _ | CSpin n h _ | CTail n h _ => Some (h, Z.of_nat n)
  | _ => None
  end.

(** The reserved intervals tile the counters from [T] to [H]. *)
Record resv (int : pc → option (Z * Z)) (ths : list pc) (T H : Z) : Prop := {
  rv_le : T ≤ H;
  rv_in : ∀ t p h n, ths !! t = Some p → int p = Some (h, n) → T ≤ h ∧ h + n ≤ H ∧ 0 < n;
  rv_disj : ∀ t t' p p' h n h' n', ths !! t = Some p → ths !! t' = Some p' → t ≠ t' →
    int p = Some (h, n) → int p' = Some (h', n') → h + n ≤ h' ∨ h' + n' ≤ h;
  rv_tile : ∀ j, T ≤ j < H → ∃ t p h n, ths !! t = Some p ∧ int p = Some (h, n) ∧ h ≤ j < h + n;
}.

Section Resv.
Context {int : pc → option (Z * Z)} {ths : list pc} {T H : Z}.

Lemma upd_cases {A} (l : list A) t (x y : A) t' z :
  l !! t = Some x → <[t := y]> l !! t' = Some z → (t' = t ∧ z = y) ∨ (t' ≠ t ∧ l !! t' = Some z).
Proof.
  intros Ht Hz. apply list_lookup_insert_Some in Hz as [(-> & -> & _)|[? ?]]; [by left|by right].
Qed.

Lemma resv_same t p p' :
  ths !! t = Some p → int p' = int p → resv int ths T H → resv int (<[t := p']> ths) T H.
Proof.
  intros Ht Hi [Hle Hin Hd Htile]. constructor; [done|..].
  - intros t1 p1 h n H1 H2. destruct (upd_cases _ _ _ _ _ _ Ht H1) as [[-> ->]|[? ?]].
    + rewrite Hi in H2. by apply (Hin t p).
    + by apply (Hin t1 p1).
  - intros t1 t2 p1 p2 h n h' n' H1 H2 Hne H3 H4.
    destruct (upd_cases _ _ _ _ _ _ Ht H1) as [[-> ->]|[_ H5]];
      destruct (upd_cases _ _ _ _ _ _ Ht H2) as [[-> ->]|[_ H6]]; rewrite ?Hi in *; [done|..].
    + by apply (Hd t t2 p p2).
    + by apply (Hd t1 t p1 p).
    + by apply (Hd t1 t2 p1 p2).
  - intros j Hj. destruct (Htile j Hj) as (t1 & p1 & h & n & H1 & H2 & H3).
    destruct (decide (t1 = t)) as [->|Hne].
    + exists t, p', h, n. rewrite list_lookup_insert_eq by (by eapply lookup_lt_Some).
      simplify_eq. by rewrite Hi.
    + exists t1, p1, h, n. by rewrite list_lookup_insert_ne.
Qed.

Lemma resv_new t p p' n :
  ths !! t = Some p → int p = None → int p' = Some (H, n) → 0 < n →
  resv int ths T H → resv int (<[t := p']> ths) T (H + n).
Proof.
  intros Ht Hp Hp' Hn [Hle Hin Hd Htile]. constructor; [lia|..].
  - intros t1 p1 h m H1 H2. destruct (upd_cases _ _ _ _ _ _ Ht H1) as [[-> ->]|[_ Ht1]].
    + simplify_eq. lia.
    + destruct (Hin _ _ _ _ Ht1 H2). lia.
  - intros t1 t2 p1 p2 h m h' m' H1 H2 Hne H3 H4.
    destruct (upd_cases _ _ _ _ _ _ Ht H1) as [[-> ->]|[_ H5]];
      destruct (upd_cases _ _ _ _ _ _ Ht H2) as [[-> ->]|[_ H6]]; [done|..].
    + simplify_eq. destruct (Hin _ _ _ _ H6 H4). lia.
    + simplify_eq. destruct (Hin _ _ _ _ H5 H3). lia.
    + by apply (Hd t1 t2 p1 p2).
  - intros j Hj. destruct (decide (j < H)) as [Hlt|Hge].
    + destruct (Htile j) as (t1 & p1 & h & m & H1 & H2 & H3); [lia|].
      assert (t1 ≠ t) by (intros ->; congruence).
      exists t1, p1, h, m. by rewrite list_lookup_insert_ne.
    + exists t, p', H, n. rewrite list_lookup_insert_eq by (by eapply lookup_lt_Some). split_and!; try done; lia.
Qed.

Lemma resv_done t p p' n :
  ths !! t = Some p → int p = Some (T, n) → int p' = None →
  resv int ths T H → resv int (<[t := p']> ths) (T + n) H.
Proof.
  intros Ht Hp Hp' [Hle Hin Hd Htile]. destruct (Hin _ _ _ _ Ht Hp) as (_ & HTn & Hn0). constructor; [lia|..].
  - intros t1 p1 h m H1 H2. destruct (upd_cases _ _ _ _ _ _ Ht H1) as [[-> ->]|[Hne Ht1]]; [congruence|].
    destruct (Hin _ _ _ _ Ht1 H2) as (? & ? & ?). destruct (Hd _ _ _ _ _ _ _ _ Ht Ht1 (not_eq_sym Hne) Hp H2); lia.
  - intros t1 t2 p1 p2 h m h' m' H1 H2 Hne H3 H4.
    destruct (upd_cases _ _ _ _ _ _ Ht H1) as [[-> ->]|[_ H5]]; [congruence|].
    destruct (upd_cases _ _ _ _ _ _ Ht H2) as [[-> ->]|[_ H6]]; [congruence|].
    by apply (Hd t1 t2 p1 p2).
  - intros j Hj. destruct (Htile j) as (t1 & p1 & h & m & H1 & H2 & H3); [lia|].
    assert (t1 ≠ t) by (intros ->; simplify_eq; lia).
    exists t1, p1, h, m. by rewrite list_lookup_insert_ne.
Qed.

(** Some thread holds the oldest reservation. *)
Lemma resv_head : resv int ths T H → T < H → ∃ t p n, ths !! t = Some p ∧ int p = Some (T, n).
Proof.
  intros [Hle Hin Hd Htile] Hlt. destruct (Htile T) as (t & p & h & n & H1 & H2 & H3); [lia|].
  destruct (Hin _ _ _ _ H1 H2) as (? & ? & ?). assert (h = T) as -> by lia. eauto.
Qed.
End Resv.

(** ** The invariant *)

(** The values pushed so far and the four counters, without wrap-around. *)
Record abs := Abs { aL : list ptr; aPT : Z; aC : Z; aCT : Z }.
Definition aP (A : abs) : Z := Z.of_nat (length (aL A)).

(** [vs] are values of the stream [L] from position [h]. *)
Definition slice (L : list ptr) (h : Z) (vs : list ptr) : Prop :=
  0 ≤ h ∧ ∀ j v, vs !! j = Some v → L !! (Z.to_nat h + j)%nat = Some v.

Definition tinv (k : Z) (A : abs) (p : pc) : Prop :=
  match p with
  | PReadHead vs => op_ok (OPush vs)
  | PReadTail vs h => op_ok (OPush vs) ∧ 0 ≤ h ≤ aP A ∧ h ≤ aCT A + 2 ^ k
  | PCas vs h =>
      op_ok (OPush vs) ∧ 0 ≤ h ≤ aP A ∧ (h = aP A → h + Z.of_nat (length vs) ≤ aCT A + 2 ^ k)
  | PWrite vs h i => slice (aL A) h vs ∧ (i ≤ length vs)%nat
  | PTail vs h => h = aPT A
  | CReadHead n => op_ok (OPop n)
  | CReadTail n h => op_ok (OPop n) ∧ 0 ≤ h ≤ aC A
  | CCas n h => op_ok (OPop n) ∧ 0 ≤ h ≤ aC A ∧ (h = aC A → h + Z.of_nat n ≤ aPT A)
  | CRead n h vs => slice (aL A) h vs ∧ (length vs ≤ n)%nat
  | CSpin n h vs => slice (aL A) h vs ∧ length vs = n
  | CTail n h vs => slice (aL A) h vs ∧ length vs = n ∧ h = aCT A
  | _ => True
  end.

(** A producer has reserved the counter [j] and not yet written its place. *)
Definition unwritten (p : pc) (j : Z) : Prop :=
  match p with PWrite vs h i => h + Z.of_nat i ≤ j < h + Z.of_nat (length vs) | _ => False end.

Record inv (k : Z) (A : abs) (s : sys) : Prop := {
  in_k : 0 ≤ k ≤ 30;
  in_max : rmax (shared s) = 2 ^ k;
  in_mask : rmask (shared s) = 2 ^ k - 1;
  in_len : length (rdata (shared s)) = Z.to_nat (2 ^ k);
  in_phead : prod_head (shared s) = aP A;
  in_ptail : prod_tail (shared s) = aPT A;
  in_chead : cons_head (shared s) = aC A;
  in_ctail : cons_tail (shared s) = aCT A;
  in_order : 0 ≤ aCT A ∧ aC A ≤ aPT A;
  in_room : aP A ≤ aCT A + 2 ^ k;
  in_bound : aP A + 2 ^ k < 2 ^ 32;
  in_prod : resv pint (threads s) (aPT A) (aP A);
  in_cons : resv cint (threads s) (aCT A) (aC A);
  in_thr : ∀ t p, threads s !! t = Some p → tinv k A p;
  in_data : ∀ j, aCT A ≤ j < aP A → (∀ t p, threads s !! t = Some p → ¬ unwritten p j) →
    rdata (shared s) !! Z.to_nat (j mod 2 ^ k) = aL A !! Z.to_nat j;
}.

(** What a thread is in the atomic queue. *)
Definition tabs (L : list ptr) (p : pc) (a : astatus) : Prop :=
  match p with
  | Idle => a = AIdle
  | PReadHead vs | PReadTail vs _ | PCas vs _ => a = ACalled (OPush vs)
  | PWrite _ _ _ | PSpin _ _ | PTail _ _ | PNum _ => a = ADone (RStatus 0)
  | PRet x => a = ADone (RStatus x)
  | CReadHead n | CReadTail n _ | CCas n _ => a = ACalled (OPop n)
  | CRead n h _ | CSpin n h _ | CTail n h _ =>
      ∃ ws, a = ADone (RVals ws) ∧ length ws = n ∧ slice L h ws
  | CNum _ vs | CRet vs => a = ADone (RVals vs)
  end.

Record sim (A : abs) (s : sys) (a : aring) : Prop := {
  sm_q : aq a = drop (Z.to_nat (aC A)) (aL A);
  sm_thr : Forall2 (tabs (aL A)) (threads s) (athr a);
}.

(** ** Monotonicity *)

Lemma slice_mono L L' h vs : L `prefix_of` L' → slice L h vs → slice L' h vs.
Proof.
  intros [l ->] [H0 H]. split; [done|]. intros j v Hj. apply lookup_app_l_Some. by apply H.
Qed.

Lemma slice_eq L h vs ws : slice L h vs → slice L h ws → length ws = length vs → ws = vs.
Proof.
  intros [_ Hv] [_ Hw] Hl. apply list_eq_same_length with (length vs); [done|done|].
  intros j v w Hj H1 H2. apply Hw in H1. apply Hv in H2. congruence.
Qed.

Lemma tabs_mono L L' p a : L `prefix_of` L' → tabs L p a → tabs L' p a.
Proof.
  intros HL. destruct p; simpl; try done; intros (ws & ? & ? & ?); eauto using slice_mono.
Qed.

Lemma tinv_mono k A A' p :
  aL A `prefix_of` aL A' → aPT A ≤ aPT A' → aC A ≤ aC A' → aCT A ≤ aCT A' →
  (∀ vs h, p = PTail vs h → aPT A' = aPT A) →
  (∀ n h vs, p = CTail n h vs → aCT A' = aCT A) →
  tinv k A p → tinv k A' p.
Proof.
  intros HL H1 H2 H3 H4 H5. assert (aP A ≤ aP A') as HP.
  { apply prefix_length in HL. unfold aP. lia. }
  destruct p; simpl; try done; intros; destruct_and?; split_and?; try done; try lia;
    eauto using slice_mono.
  - rewrite (H4 _ _ eq_refl). done.
  - rewrite (H5 _ _ _ eq_refl). done.
Qed.

(** ** Steps that leave the counters and the array alone *)

Lemma set_rnum_id r : set_rnum (rnum r) r = r.
Proof. by destruct r. Qed.

Section Steps.
Context {k : Z} {A : abs} {s : sys} {t : nat} {p : pc}.
Hypothesis (Hinv : inv k A s) (Ht : threads s !! t = Some p).

Lemma tinv_upd A' p' :
  (∀ t1 p1, t1 ≠ t → threads s !! t1 = Some p1 → tinv k A' p1) → tinv k A' p' →
  ∀ t1 p1, <[t := p']> (threads s) !! t1 = Some p1 → tinv k A' p1.
Proof.
  intros Ho Hp' t1 p1 H1. destruct (upd_cases _ _ _ _ _ _ Ht H1) as [[-> ->]|[Hne Ht1]]; [done|exact (Ho t1 p1 Hne Ht1)].
Qed.

(** No producer has [j] unwritten after a step of [t] that writes nothing. *)
Lemma unwritten_upd p' j :
  (unwritten p j → unwritten p' j) →
  (∀ t1 p1, <[t := p']> (threads s) !! t1 = Some p1 → ¬ unwritten p1 j) →
  ∀ t1 p1, threads s !! t1 = Some p1 → ¬ unwritten p1 j.
Proof.
  intros Hu H t1 p1 H1 Hj. destruct (decide (t1 = t)) as [->|Hne].
  - simplify_eq. apply (H t p'); [|by apply Hu].
    apply list_lookup_insert_eq. by eapply lookup_lt_Some.
  - apply (H t1 p1); [by rewrite list_lookup_insert_ne|done].
Qed.

Lemma inv_local x p' :
  pint p' = pint p → cint p' = cint p → tinv k A p' → (∀ j, unwritten p j → unwritten p' j) →
  inv k A (Sys (set_rnum x (shared s)) (<[t := p']> (threads s))).
Proof.
  intros Hp Hc Hti Hu. destruct Hinv. constructor; try done.
  - by eapply resv_same.
  - by eapply resv_same.
  - apply tinv_upd; [|done]. intros t1 p1 _. apply in_thr0.
  - intros j Hj Hn. apply in_data0; [done|]. apply (unwritten_upd p'); [apply Hu|exact Hn].
Qed.

Lemma inv_same p' :
  pint p' = pint p → cint p' = cint p → tinv k A p' → (∀ j, unwritten p j → unwritten p' j) →
  inv k A (Sys (shared s) (<[t := p']> (threads s))).
Proof. intros. rewrite <-(set_rnum_id (shared s)). by apply inv_local. Qed.

Lemma inv_orders : aCT A ≤ aC A ≤ aPT A ∧ aPT A ≤ aP A.
Proof. destruct Hinv. pose proof (rv_le _ _ _ _ in_prod0). pose proof (rv_le _ _ _ _ in_cons0). lia. Qed.
End Steps.

Section Sim.
Context {A : abs} {s : sys} {a : aring} {t : nat} {p : pc}.
Hypothesis (Hsim : sim A s a) (Ht : threads s !! t = Some p).

Lemma sim_lookup t' p' : threads s !! t' = Some p' → ∃ x, athr a !! t' = Some x ∧ tabs (aL A) p' x.
Proof. intros H. eapply Forall2_lookup_l; [apply Hsim|done]. Qed.

(** The abstract thread does not move. *)
Lemma sim_same r' p' x :
  athr a !! t = Some x → tabs (aL A) p' x → sim A (Sys r' (<[t := p']> (threads s))) a.
Proof.
  intros Hx Hp'. destruct Hsim as [Hq Hth]. constructor; [done|]. simpl.
  rewrite <-(list_insert_id (athr a) t x) by done. by apply Forall2_insert.
Qed.

(** It moves. *)
Lemma sim_move A' r' q' p' x' :
  aL A `prefix_of` aL A' → q' = drop (Z.to_nat (aC A')) (aL A') → tabs (aL A') p' x' →
  sim A' (Sys r' (<[t := p']> (threads s))) (ARing q' (<[t := x']> (athr a))).
Proof.
  intros HL Hq' Hp'. destruct Hsim as [Hq Hth]. constructor; [done|]. simpl.
  apply Forall2_insert; [|done]. eapply Forall2_impl; [exact Hth|]. intros. by eapply tabs_mono.
Qed.
End Sim.

(** ** One access of a thread *)

(** The values a thread may still push in its current call. *)
Definition pend (p : pc) : Z :=
  match p with PReadHead vs | PReadTail vs _ | PCas vs _ => Z.of_nat (length vs) | _ => 0 end.

Definition advances (k : Z) (A : abs) (s : sys) (a : aring) (t : nat) (p : pc) (r' : ring_t) (p' : pc) : Prop :=
  ∃ A' a', inv k A' (Sys r' (<[t := p']> (threads s))) ∧
    sim A' (Sys r' (<[t := p']> (threads s))) a' ∧
    (a' = a ∨ astep (2 ^ k) a None a') ∧ aP A' + pend p' ≤ aP A + pend p.

Section Access.
Context {k : Z} {A : abs} {s : sys} {a : aring} {t : nat} {p : pc}.
Hypothesis (Hinv : inv k A s) (Hsim : sim A s a) (Ht : threads s !! t = Some p).

(** An access the atomic queue does not see. *)
Lemma adv_silent r' p' A' :
  inv k A' (Sys r' (<[t := p']> (threads s))) → aL A' = aL A → aC A' = aC A →
  (∀ x, tabs (aL A) p x → tabs (aL A) p' x) → pend p' ≤ pend p →
  advances k A s a t p r' p'.
Proof.
  intros Hi HL HC Hp' Hpend. destruct (sim_lookup Hsim _ _ Ht) as (x & Hx & Htx).
  exists A', a. split_and!; [done| |by left|unfold aP; rewrite HL; lia].
  destruct (sim_same Hsim r' p' x Hx (Hp' _ Htx)) as [Hq Hth]. constructor; [by rewrite HL, HC|by rewrite HL].
Qed.

(** The same for an access that also leaves the ring alone. *)
Lemma adv_local p' :
  pint p' = pint p → cint p' = cint p → tinv k A p' → (∀ j, unwritten p j → unwritten p' j) →
  (∀ x, tabs (aL A) p x → tabs (aL A) p' x) → pend p' ≤ pend p →
  advances k A s a t p (shared s) p'.
Proof. intros. apply (adv_silent _ _ A); try done. by apply (inv_same (p := p)). Qed.

(** An access at which the call takes effect or fails. *)
Lemma adv_move A' r' p' q' x' :
  inv k A' (Sys r' (<[t := p']> (threads s))) →
  aL A `prefix_of` aL A' → q' = drop (Z.to_nat (aC A')) (aL A') → tabs (aL A') p' x' →
  astep (2 ^ k) a None (ARing q' (<[t := x']> (athr a))) →
  aP A' + pend p' ≤ aP A + pend p →
  advances k A s a t p r' p'.
Proof.
  intros Hi HL Hq' Hx' Hstep Hpend. eexists A', _. split_and!; [done| |by right|done].
  by apply (sim_move Hsim).
Qed.

Lemma sim_length : Z.of_nat (length (aq a)) = aP A - aC A.
Proof.
  destruct Hsim as [-> _]. rewrite length_drop. pose proof (inv_orders Hinv).
  destruct (in_order _ _ _ Hinv). unfold aP in *. lia.
Qed.

Lemma u32_id x : 0 ≤ x → x ≤ aP A + 2 ^ k → u32 x = x.
Proof. intros. apply u32_small. pose proof (in_bound _ _ _ Hinv). lia. Qed.

End Access.

(** *** Producers *)

Section Producer.
Context {k : Z} {A : abs} {s : sys} {a : aring} {t : nat}.
Hypothesis (Hinv : inv k A s) (Hsim : sim A s a).

Lemma push_read_tail vs h :
  threads s !! t = Some (PReadTail vs h) →
  advances k A s a t (PReadTail vs h) (shared s)
    (if Z.of_nat (length vs) >? u32 (rmax (shared s) + cons_tail (shared s) - h) then PRet (-1) else PCas vs h).
Proof.
  intros Ht. pose proof (in_thr _ _ _ Hinv _ _ Ht) as (Hok & Hh & Hct). pose proof (inv_orders Hinv) as Ho.
  destruct (in_order _ _ _ Hinv) as [Ho1 Ho2].
  rewrite (in_max _ _ _ Hinv), (in_ctail _ _ _ Hinv), (u32_id Hinv) by lia.
  destruct (Z.gtb_spec (Z.of_nat (length vs)) (2 ^ k + aCT A - h)) as [Hgt|Hle].
  - destruct (sim_lookup Hsim _ _ Ht) as (x & Hx & ->).
    apply (adv_move Hsim A _ _ (aq a) (ADone (RStatus (-1)))); try done; [|apply Hsim| |simpl; lia].
    { by apply (inv_same Hinv Ht). }
    apply as_push_fail with vs; [done|]. pose proof (sim_length Hinv Hsim) as Hlen.
    destruct (decide (aCT A < aC A)) as [Hlt|Hge]; [right|left; lia].
    destruct (resv_head (in_cons _ _ _ Hinv) Hlt) as (t' & p' & n & Ht' & Hp').
    destruct (rv_in _ _ _ _ (in_cons _ _ _ Hinv) _ _ _ _ Ht' Hp') as (_ & _ & Hn).
    destruct (sim_lookup Hsim _ _ Ht') as (x & Hx' & Htx).
    exists t'. destruct p'; simplify_eq/=; destruct Htx as (ws & -> & Hw & _); exists ws;
      (split_and!; [intros ->; congruence|done|intros ->; simpl in *; lia]).
  - apply (adv_local Hinv Hsim Ht); simpl; try done. split_and!; try done; lia.
Qed.

Lemma push_cas vs h :
  threads s !! t = Some (PCas vs h) → aP A + Z.of_nat (length vs) + 2 ^ k < 2 ^ 32 → prod_head (shared s) = h →
  advances k A s a t (PCas vs h) (set_prod_head (u32 (h + Z.of_nat (length vs))) (shared s)) (PWrite vs h 0).
Proof.
  intros Ht Hb Hph. pose proof (in_thr _ _ _ Hinv _ _ Ht) as (Hok & Hh & Hroom).
  pose proof (inv_orders Hinv) as Ho. destruct (in_order _ _ _ Hinv) as [Ho1 Ho2].
  pose proof (pow2_bound k (in_k _ _ _ Hinv)) as Hpow.
  rewrite (in_phead _ _ _ Hinv) in Hph. subst h. specialize (Hroom eq_refl). unfold op_ok in Hok. simpl in Hok.
  assert (aP (Abs (aL A ++ vs) (aPT A) (aC A) (aCT A)) = aP A + Z.of_nat (length vs)) as HP'.
  { unfold aP. simpl. rewrite length_app. lia. }
  assert (aL A `prefix_of` aL A ++ vs) as HL by by exists vs.
  assert (slice (aL A ++ vs) (aP A) vs) as Hsl.
  { split; [lia|]. intros j v Hj. unfold aP. rewrite Nat2Z.id, lookup_app_r by lia. by rewrite Nat.add_comm, Nat.add_sub. }
  destruct (sim_lookup Hsim _ _ Ht) as (x & Hx & ->).
  apply (adv_move Hsim (Abs (aL A ++ vs) (aPT A) (aC A) (aCT A)) _ _ (aq a ++ vs) (ADone (RStatus 0))); try done;
    [| | |rewrite HP'; simpl; lia].
  - pose proof Hinv as []. constructor; rewrite ?HP'; simpl; try done.
    + rewrite u32_small; lia.
    + eapply resv_new; [done|done|done|lia|done].
    + by eapply resv_same.
    + apply (tinv_upd Ht); [|split; [done|lia]].
      intros t1 p1 _ H1. apply (tinv_mono _ A); simpl; try done. by eapply in_thr.
    + intros j Hj Hn. destruct (decide (j < aP A)) as [Hlt|Hge].
      * rewrite lookup_app_l by (unfold aP in *; lia). apply in_data0; [lia|].
        eapply (unwritten_upd Ht); [|exact Hn]. done.
      * exfalso. apply (Hn t (PWrite vs (aP A) 0)); [|simpl; lia].
        apply list_lookup_insert_eq. by eapply lookup_lt_Some.
  - simpl. rewrite (sm_q _ _ _ Hsim), drop_app_le; [done|]. unfold aP in *. lia.
  - apply as_push; [done|]. pose proof (sim_length Hinv Hsim). lia.
Qed.

Lemma push_write vs h i v :
  threads s !! t = Some (PWrite vs h i) → vs !! i = Some v →
  let q := slot_of (shared s) h (Z.of_nat i) in
  (q < length (rdata (shared s)))%nat ∧
  advances k A s a t (PWrite vs h i) (set_rdata (<[q := v]> (rdata (shared s))) (shared s)) (PWrite vs h (S i)).
Proof.
  intros Ht Hv q. pose proof (in_thr _ _ _ Hinv _ _ Ht) as (Hsl & Hi).
  pose proof (inv_orders Hinv) as Ho. destruct (in_order _ _ _ Hinv) as [Ho1 Ho2].
  destruct (rv_in _ _ _ _ (in_prod _ _ _ Hinv) t _ h _ Ht eq_refl) as (Hr1 & Hr2 & Hr3).
  apply lookup_lt_Some in Hv as Hlt.
  pose proof (pow2_bound k (in_k _ _ _ Hinv)) as Hpow. pose proof (in_room _ _ _ Hinv) as Hroom.
  assert (q = Z.to_nat ((h + Z.of_nat i) mod 2 ^ k)) as Hq by (apply slot_of_mod; apply Hinv).
  assert (q < length (rdata (shared s)))%nat as Hql.
  { rewrite Hq, (in_len _ _ _ Hinv).
    pose proof (Z.mod_pos_bound (h + Z.of_nat i) (2 ^ k)). lia. }
  split; [done|]. apply (adv_silent Hsim Ht _ _ A); try done.
  pose proof Hinv as []. constructor; simpl; try done.
  - by rewrite length_insert.
  - by eapply resv_same.
  - by eapply resv_same.
  - apply (tinv_upd Ht); [|split; [done|lia]]. intros t1 p1 _. apply in_thr0.
  - intros j Hj Hn. destruct (decide (j = h + Z.of_nat i)) as [->|Hne].
    + rewrite <-Hq, list_lookup_insert_eq by done. destruct Hsl as [Hh0 Hsl].
      rewrite Z2Nat.inj_add, Nat2Z.id by lia. symmetry. by apply Hsl.
    + rewrite list_lookup_insert_ne; [|rewrite Hq; intros Heq; apply (window_inj k) in Heq; lia].
      apply in_data0; [done|]. eapply (unwritten_upd Ht); [|exact Hn]. simpl. lia.
Qed.

Lemma push_tail vs h :
  threads s !! t = Some (PTail vs h) →
  advances k A s a t (PTail vs h) (set_prod_tail (u32 (h + Z.of_nat (length vs))) (shared s)) (PNum vs).
Proof.
  intros Ht. pose proof (in_thr _ _ _ Hinv _ _ Ht) as Hh. simpl in Hh. subst h.
  pose proof (inv_orders Hinv) as Ho. destruct (in_order _ _ _ Hinv) as [Ho1 Ho2].
  destruct (rv_in _ _ _ _ (in_prod _ _ _ Hinv) t _ _ _ Ht eq_refl) as (_ & Hr2 & Hr3).
  pose proof (pow2_bound k (in_k _ _ _ Hinv)) as Hpow.
  rewrite (u32_id Hinv) by lia.
  apply (adv_silent Hsim Ht _ _ (Abs (aL A) (aPT A + Z.of_nat (length vs)) (aC A) (aCT A))); try done.
  pose proof Hinv as []. constructor; simpl; try done.
  - lia.
  - by eapply resv_done.
  - by eapply resv_same.
  - apply (tinv_upd Ht); [|done].
    intros t1 p1 Hne H1. apply (tinv_mono _ A); simpl; try done; [lia| |by eapply in_thr].
    intros vs' h' ->. pose proof (in_thr0 _ _ H1) as Hh'. simpl in Hh'. subst h'.
    destruct (rv_in _ _ _ _ in_prod0 t1 _ _ _ H1 eq_refl) as (_ & ? & ?).
    destruct (rv_disj _ _ _ _ in_prod0 t1 t _ _ _ _ _ _ H1 Ht Hne eq_refl eq_refl); lia.
  - intros j Hj Hn. apply in_data0; [done|]. eapply (unwritten_upd Ht); [|exact Hn]. done.
Qed.
End Producer.

(** *** Consumers *)

Section Consumer.
Context {k : Z} {A : abs} {s : sys} {a : aring} {t : nat}.
Hypothesis (Hinv : inv k A s) (Hsim : sim A s a).

Lemma pop_read_tail n h :
  threads s !! t = Some (CReadTail n h) →
  advances k A s a t (CReadTail n h) (shared s)
    (if Z.of_nat n >? u32 (prod_tail (shared s) - h) then CRet [] else CCas n h).
Proof.
  intros Ht. pose proof (in_thr _ _ _ Hinv _ _ Ht) as (Hok & Hh). pose proof (inv_orders Hinv) as Ho.
  destruct (in_order _ _ _ Hinv) as [Ho1 Ho2].
  pose proof (pow2_bound k (in_k _ _ _ Hinv)) as Hpow.
  rewrite (in_ptail _ _ _ Hinv), (u32_id Hinv) by lia.
  destruct (Z.gtb_spec (Z.of_nat n) (aPT A - h)) as [Hgt|Hle].
  - destruct (sim_lookup Hsim _ _ Ht) as (x & Hx & ->).
    apply (adv_move Hsim A _ _ (aq a) (ADone (RVals []))); try done; [|apply Hsim|].
    { by apply (inv_same Hinv Ht). }
    apply as_pop_fail with n; [done|]. pose proof (sim_length Hinv Hsim) as Hlen.
    destruct (decide (aPT A < aP A)) as [Hlt|Hge]; [right|left; lia].
    destruct (resv_head (in_prod _ _ _ Hinv) Hlt) as (t' & p' & m & Ht' & Hp').
    destruct (sim_lookup Hsim _ _ Ht') as (x & Hx' & Htx).
    exists t'. destruct p'; simplify_eq/=; (split; [intros ->; congruence|done]).
  - apply (adv_local Hinv Hsim Ht); simpl; try done. split_and!; try done; lia.
Qed.

Lemma pop_cas n h :
  threads s !! t = Some (CCas n h) → cons_head (shared s) = h →
  advances k A s a t (CCas n h) (set_cons_head (u32 (h + Z.of_nat n)) (shared s)) (CRead n h []).
Proof.
  intros Ht Hch. pose proof (in_thr _ _ _ Hinv _ _ Ht) as (Hok & Hh & Hroom).
  pose proof (inv_orders Hinv) as Ho. destruct (in_order _ _ _ Hinv) as [Ho1 Ho2].
  pose proof (pow2_bound k (in_k _ _ _ Hinv)) as Hpow. pose proof (sim_length Hinv Hsim) as Hlen.
  rewrite (in_chead _ _ _ Hinv) in Hch. subst h. specialize (Hroom eq_refl). unfold op_ok in Hok. simpl in Hok.
  rewrite (u32_id Hinv) by lia.
  set (A' := Abs (aL A) (aPT A) (aC A + Z.of_nat n) (aCT A)).
  destruct (sim_lookup Hsim _ _ Ht) as (x & Hx & ->).
  apply (adv_move Hsim A' _ _ (drop n (aq a)) (ADone (RVals (take n (aq a))))); try done.
  - pose proof Hinv as []. constructor; simpl; try done; try lia.
    + by eapply resv_same.
    + eapply resv_new; [done|done|done|lia|done].
    + apply (tinv_upd Ht); [|split; [split; [lia|done]|simpl; lia]].
      intros t1 p1 _ H1. apply (tinv_mono _ A); simpl; try done; [lia|by eapply in_thr].
    + intros j Hj Hn. apply in_data0; [done|]. eapply (unwritten_upd Ht); [|exact Hn]. done.
  - simpl. rewrite (sm_q _ _ _ Hsim), drop_drop. f_equal. lia.
  - exists (take n (aq a)). split; [done|]. split; [rewrite length_take; lia|].
    split; [lia|]. intros j v [Hj _]%lookup_take_Some.
    by rewrite (sm_q _ _ _ Hsim), lookup_drop in Hj.
  - apply as_pop; [done|]. lia.
Qed.

Lemma pop_read n h vs :
  threads s !! t = Some (CRead n h vs) → (length vs < n)%nat →
  ∃ v, rdata (shared s) !! slot_of (shared s) h (Z.of_nat (length vs)) = Some v ∧
       advances k A s a t (CRead n h vs) (shared s) (CRead n h (vs ++ [v])).
Proof.
  intros Ht Hlt. pose proof (in_thr _ _ _ Hinv _ _ Ht) as ([Hh Hsl] & Hi).
  pose proof (inv_orders Hinv) as Ho. destruct (in_order _ _ _ Hinv) as [Ho1 Ho2].
  destruct (rv_in _ _ _ _ (in_cons _ _ _ Hinv) t _ h _ Ht eq_refl) as (Hr1 & Hr2 & Hr3).
  set (j := h + Z.of_nat (length vs)).
  destruct (lookup_lt_is_Some_2 (aL A) (Z.to_nat j)) as [v Hv]; [unfold aP in *; lia|].
  exists v. rewrite (slot_of_mod k) by apply Hinv. split.
  - rewrite <-Hv. apply (in_data _ _ _ Hinv); [lia|]. intros t1 p1 H1 Hu.
    destruct p1; simpl in Hu; try done.
    destruct (rv_in _ _ _ _ (in_prod _ _ _ Hinv) t1 _ _ _ H1 eq_refl) as (? & _ & _). lia.
  - apply (adv_local Hinv Hsim Ht); simpl; try done. rewrite length_app. simpl. split; [|lia].
    split; [done|]. intros i w [Hw|[Hi' Hw]]%lookup_app_Some; [by apply Hsl|].
    assert (i = length vs) as -> by (apply lookup_lt_Some in Hw; simpl in Hw; lia).
    rewrite Nat.sub_diag in Hw. simplify_eq/=. rewrite <-Hv. f_equal. lia.
Qed.

Lemma pop_tail n h vs :
  threads s !! t = Some (CTail n h vs) →
  advances k A s a t (CTail n h vs) (set_cons_tail (u32 (h + Z.of_nat n)) (shared s)) (CNum n vs).
Proof.
  intros Ht. pose proof (in_thr _ _ _ Hinv _ _ Ht) as (Hsl & Hlen & Hh). subst h.
  pose proof (inv_orders Hinv) as Ho. destruct (in_order _ _ _ Hinv) as [Ho1 Ho2].
  destruct (rv_in _ _ _ _ (in_cons _ _ _ Hinv) t _ _ _ Ht eq_refl) as (_ & Hr2 & Hr3).
  pose proof (pow2_bound k (in_k _ _ _ Hinv)) as Hpow.
  rewrite (u32_id Hinv) by lia.
  apply (adv_silent Hsim Ht _ _ (Abs (aL A) (aPT A) (aC A) (aCT A + Z.of_nat n))); try done.
  2:{ intros x (ws & -> & Hw & Hsw). simpl. do 2 f_equal. eapply slice_eq; [done|done|lia]. }
  pose proof Hinv as []. constructor; simpl; try done; try lia.
  - change (aP A ≤ aCT A + Z.of_nat n + 2 ^ k). lia.
  - by eapply resv_same.
  - by eapply resv_done.
  - apply (tinv_upd Ht); [|done].
    intros t1 p1 Hne H1. apply (tinv_mono _ A); simpl; try done; [lia| |by eapply in_thr].
    intros n' h' vs' ->. pose proof (in_thr0 _ _ H1) as (_ & _ & Hh'). subst h'.
    destruct (rv_in _ _ _ _ in_cons0 t1 _ _ _ H1 eq_refl) as (_ & ? & ?).
    destruct (rv_disj _ _ _ _ in_cons0 t1 t _ _ _ _ _ _ H1 Ht Hne eq_refl eq_refl); lia.
  - intros j Hj Hn. apply in_data0; [change (aCT A + Z.of_nat n ≤ j < aP A) in Hj; lia|]. eapply (unwritten_upd Ht); [|exact Hn]. done.
Qed.
End Consumer.

(** ** Every access *)

Lemma tstep_advances k A s a t p r' p' :
  inv k A s → sim A s a → threads s !! t = Some p → tstep (shared s) p = Some (r', p') →
  aP A + pend p + 2 ^ k < 2 ^ 32 →
  advances k A s a t p r' p'.
Proof.
  intros Hinv Hsim Ht Hs Hb. pose proof (in_thr _ _ _ Hinv _ _ Ht) as Hti.
  pose proof (inv_orders Hinv) as Ho. pose proof (in_order _ _ _ Hinv) as Ho1.
  destruct p; unfold tstep in Hs; simpl in Hs, Hti, Hb; simplify_eq.
  - apply (adv_local Hinv Hsim Ht); simpl; try done. rewrite (in_phead _ _ _ Hinv).
    pose proof (in_room _ _ _ Hinv). split_and!; try done; lia.
  - pose proof (push_read_tail Hinv Hsim _ _ Ht) as H. case_match; by simplify_eq.
  - case_match eqn:He; simplify_eq.
    + apply (push_cas Hinv Hsim); [done|lia|by apply Z.eqb_eq].
    + apply (adv_local Hinv Hsim Ht); simpl; try done; apply Hti.
  - destruct (vs !! i) as [v|] eqn:Hv; simplify_eq.
    + destruct (push_write Hinv Hsim _ _ _ _ Ht Hv) as [Hl H].
      rewrite decide_True in Hs by done. by simplify_eq.
    + apply (adv_local Hinv Hsim Ht); simpl; try done. apply lookup_ge_None in Hv. lia.
  - case_match eqn:He; [|by apply (adv_local Hinv Hsim Ht)].
    apply (adv_local Hinv Hsim Ht); simpl; try done. rewrite <-(in_ptail _ _ _ Hinv). lia.
  - by apply push_tail.
  - apply (adv_silent Hsim Ht _ _ A); try done. by apply (inv_local Hinv Ht).
  - apply (adv_local Hinv Hsim Ht); simpl; try done. rewrite (in_chead _ _ _ Hinv). split; [done|lia].
  - pose proof (pop_read_tail Hinv Hsim _ _ Ht) as H. case_match; by simplify_eq.
  - case_match eqn:He; simplify_eq.
    + apply (pop_cas Hinv Hsim); [done|by apply Z.eqb_eq].
    + apply (adv_local Hinv Hsim Ht); simpl; try done; apply Hti.
  - case_decide as Hn; simplify_eq.
    + destruct (pop_read Hinv Hsim _ _ _ Ht Hn) as (v & Hv & H). rewrite Hv in Hs. by simplify_eq/=.
    + apply (adv_local Hinv Hsim Ht); simpl; try done. destruct Hti. split; [done|lia].
  - case_match eqn:He; [|by apply (adv_local Hinv Hsim Ht)].
    apply (adv_local Hinv Hsim Ht); simpl; try done. destruct Hti.
    rewrite <-(in_ctail _ _ _ Hinv). split_and!; [done|done|lia].
  - by apply pop_tail.
  - apply (adv_silent Hsim Ht _ _ A); try done. by apply (inv_local Hinv Ht).
Qed.

(** No access leaves the array. *)
Lemma tstep_total k A s a t p :
  inv k A s → sim A s a → threads s !! t = Some p → p ≠ Idle → result p = None →
  is_Some (tstep (shared s) p).
Proof.
  intros Hinv Hsim Ht Hne Hres. destruct p; unfold tstep; simpl in *; try done; try by case_match.
  - destruct (vs !! i) as [v|] eqn:Hv; [|done].
    destruct (push_write Hinv Hsim _ _ _ _ Ht Hv) as [Hl _]. by rewrite decide_True.
  - case_decide as Hn; [|done].
    destruct (pop_read Hinv Hsim _ _ _ Ht Hn) as (v & Hv & _). by rewrite Hv.
Qed.
