(* ===== verification/RingConcProps.v ===== *)
(** Properties of the concurrent ring: it is linearizable, it cannot deadlock, and
    a thread alone runs as the sequential functions say. *)
From S2P Require Import Prelude Ring RingSpec RingConc RingLin.
Open Scope Z_scope.

(** ** Whole runs *)

Fixpoint pends (ths : list pc) : Z := match ths with [] => 0 | p :: ths' => pend p + pends ths' end.

Lemma pend_nonneg p : 0 ≤ pend p.
Proof. destruct p; simpl; lia. Qed.

Lemma pends_nonneg ths : 0 ≤ pends ths.
Proof. induction ths as [|p ths IH]; simpl; [done|]. pose proof (pend_nonneg p). lia. Qed.

Lemma pends_insert ths : ∀ t p p', ths !! t = Some p → pends (<[t := p']> ths) = pends ths - pend p + pend p'.
Proof.
  induction ths as [|q ths IH]; intros [|t] p p' H; simplify_eq/=; [lia|].
  specialize (IH t p p' H). lia.
Qed.

Lemma pends_ge ths t p : ths !! t = Some p → pend p ≤ pends ths.
Proof.
  intros H. pose proof (pends_insert ths t p Idle H) as Hi.
  pose proof (pends_nonneg (<[t := Idle]> ths)). cbn [pend] in Hi. lia.
Qed.

(** The invariant of a run, with the trace so far. *)
Definition ginv (k : Z) (tr : list event) (s : sys) (a : aring) : Prop :=
  ∃ A, inv k A s ∧ sim A s a ∧ aP A + pends (threads s) ≤ called tr.

Lemma ginv_init k r n :
  ring_rep k r [] → cons_tail r = 0 →
  ginv k [] (Sys r (replicate n Idle)) (ARing [] (replicate n AIdle)).
Proof.
  intros Hr H0. pose proof (pow2_bound k (rr_k _ _ _ Hr)).
  assert (∀ (x y : pc) t, replicate n x !! t = Some y → y = x) as Hrep.
  { intros x y t [-> _]%lookup_replicate_1. done. }
  assert (∀ int, int Idle = None → resv int (replicate n Idle) 0 0) as Hresv.
  { intros int Hint. constructor; [done|..|lia].
    - intros t p h m ->%Hrep. congruence.
    - intros t t' p p' h m h' m' ->%Hrep _ _. congruence. }
  exists (Abs [] 0 0 0). split_and!.
  - destruct Hr. rewrite H0 in *. constructor; simpl; rewrite ?rr_cons, ?rr_ptail, ?rr_prod; try done.
    + unfold aP. simpl. lia.
    + by apply Hresv.
    + by apply Hresv.
    + by intros t p ->%Hrep.
    + unfold aP. simpl. lia.
  - constructor; [done|]. simpl. apply Forall2_replicate. done.
  - unfold aP. simpl. clear. induction n; simpl; [done|]. lia.
Qed.

Definition matches (cap : Z) (a : aring) (e : option event) (a' : aring) : Prop :=
  (e = None ∧ a' = a) ∨ astep cap a e a'.

Lemma cstep_matches k tr s a e s' :
  ginv k tr s a → cstep s e s' → called (tr ++ option_list e) + 2 ^ k < 2 ^ 32 →
  ∃ a', matches (2 ^ k) a e a' ∧ ginv k (tr ++ option_list e) s' a'.
Proof.
  intros (A & Hinv & Hsim & Hp) Hs Hb. destruct Hs as [s t o Ht Hok|s t p r' p' Ht Hs|s t p x Ht Hx].
  - destruct (sim_lookup Hsim _ _ Ht) as (x & Hx & ->).
    exists (ARing (aq a) (<[t := ACalled o]> (athr a))). split; [right; by constructor|].
    exists A. split_and!.
    + apply (inv_same Hinv Ht); by destruct o.
    + apply (sim_move Hsim); [done|apply Hsim|by destruct o].
    + simpl. rewrite (pends_insert _ _ _ _ Ht), called_app.
      assert (pend (start o) = called [Call t o]) as -> by (destruct o; simpl; lia). simpl. lia.
  - cbn [option_list] in *. rewrite app_nil_r in *. pose proof (pends_ge _ _ _ Ht).
    destruct (tstep_advances k A s a t p r' p') as (A' & a' & H1 & H2 & H3 & H4); [done..|lia|].
    exists a'. split; [destruct H3; [by left|by right]|]. exists A'. split_and!; [done|done|].
    simpl. rewrite (pends_insert _ _ _ _ Ht). lia.
  - destruct (sim_lookup Hsim _ _ Ht) as (y & Hy & Hty).
    assert (y = ADone x) as -> by (destruct p; simplify_eq/=; done).
    exists (ARing (aq a) (<[t := AIdle]> (athr a))). split; [right; by constructor|].
    exists A. split_and!.
    + apply (inv_same Hinv Ht); destruct p; done.
    + apply (sim_move Hsim); [done|apply Hsim|done].
    + simpl. rewrite (pends_insert _ _ _ _ Ht), called_app.
      assert (pend p = 0) as -> by (by destruct p). simpl. lia.
Qed.

Lemma run_matches k r n tr s :
  ring_rep k r [] → cons_tail r = 0 →
  run cstep (Sys r (replicate n Idle)) tr s → called tr + 2 ^ k < 2 ^ 32 →
  ∃ a, run (astep (2 ^ k)) (ARing [] (replicate n AIdle)) tr a ∧ ginv k tr s a.
Proof.
  intros Hr H0 Hrun. remember (Sys r (replicate n Idle)) as s0.
  induction Hrun as [s0|s0 tr s1 e s2 Hrun IH Hs]; intros Hb; subst.
  - exists (ARing [] (replicate n AIdle)). split; [constructor|by apply ginv_init].
  - assert (0 ≤ called (option_list e)) by apply called_nonneg.
    pose proof Hb as Hb'. rewrite called_app in Hb'.
    destruct IH as (a & Ha & Hg); [done|lia|].
    destruct (cstep_matches _ _ _ _ _ _ Hg Hs Hb) as (a' & Hm & Hg').
    exists a'. split; [|done]. destruct Hm as [[-> ->]|Hm].
    + cbn [option_list]. by rewrite app_nil_r.
    + by eapply run_snoc.
Qed.

(** C33: the ring shared by any number of threads is linearizable: every
    interleaving of the accesses of concurrent multi-element pushes and pops
    has, call for call and result for result, the behaviour of an atomic FIFO
    queue of the ring's capacity, where an operation fails only if the queue is
    full (empty) at that instant or another thread is inside an operation; and
    no thread ever accesses a place out of the array.  The bound on the values
    pushed keeps the 32-bit counters from wrapping between a read of a counter
    and the exchange that relies on it. *)
Theorem ring_linearizable k r n tr s :
  ring_rep k r [] → cons_tail r = 0 →
  run cstep (Sys r (replicate n Idle)) tr s → called tr + 2 ^ k < 2 ^ 32 →
  (∃ a, run (astep (2 ^ k)) (ARing [] (replicate n AIdle)) tr a) ∧
  ∀ t p, threads s !! t = Some p → p ≠ Idle → result p = None → is_Some (tstep (shared s) p).
Proof.
  intros Hr H0 Hrun Hb. destruct (run_matches k r n tr s) as (a & Ha & A & Hinv & Hsim & _); [done..|].
  split; [by eauto|]. intros t p Ht. by apply (tstep_total k A s a t).
Qed.

(** Threads 0 and 1 push two values each at the same time; thread 1 writes first
    and waits for thread 0, whose places come before; a pop by thread 2 in
    between is refused, a later one gets the four values. *)
Definition ring4 : ring_t := Ring 4 3 0 (replicate 4 NULL) 0 0 0 0.
Definition steps (t n : nat) : list action := replicate n (DoStep t).
Definition sched : list action :=
  [DoCall 0 (OPush [1; 2]); DoCall 1 (OPush [3; 4])] ++ steps 0 3 ++ steps 1 3 ++
  [DoCall 2 (OPop 4)] ++ steps 2 2 ++ [DoRet 2] ++ steps 1 4 ++ steps 0 6 ++ [DoRet 0] ++
  steps 1 3 ++ [DoRet 1; DoCall 2 (OPop 4)] ++ steps 2 11 ++ [DoRet 2].
Definition sched_trace : list event :=
  [Call 0 (OPush [1; 2]); Call 1 (OPush [3; 4]); Call 2 (OPop 4); Ret 2 (RVals []);
   Ret 0 (RStatus 0); Ret 1 (RStatus 0); Call 2 (OPop 4); Ret 2 (RVals [1; 2; 3; 4])].

Lemma ring4_rep : ring_rep 2 ring4 [].
Proof. constructor; try done; simpl; lia. Qed.

Lemma sched_run : ∃ s, run cstep (Sys ring4 (replicate 3 Idle)) sched_trace s ∧ threads s = replicate 3 Idle.
Proof.
  destruct (do_sched sched (Sys ring4 (replicate 3 Idle))) as [[tr s]|] eqn:H; [|vm_compute in H; done].
  exists s. pose proof (do_sched_run _ _ [] _ _ _ (run_nil _ _) H) as Hr.
  vm_compute in H. simplify_eq. done.
Qed.

Lemma ring_linearizable_witness :
  called sched_trace + 2 ^ 2 < 2 ^ 32 ∧
  (∃ s, run cstep (Sys ring4 (replicate 3 Idle)) sched_trace s ∧
   (∃ a, run (astep (2 ^ 2)) (ARing [] (replicate 3 AIdle)) sched_trace a) ∧
   ∀ t p, threads s !! t = Some p → p ≠ Idle → result p = None → is_Some (tstep (shared s) p)).
Proof.
  split; [reflexivity|]. destruct sched_run as (s & Hs & _). exists s. split; [exact Hs|].
  apply (ring_linearizable 2 ring4 3 sched_trace s ring4_rep eq_refl Hs). reflexivity.
Defined.

(** ** Progress *)

Lemma spin_holder int k A s T H :
  resv int (threads s) T H → inv k A s → (int = pint ∧ T = aPT A ∨ int = cint ∧ T = aCT A) → T < H →
  ∃ t p, threads s !! t = Some p ∧
    (∀ r' p', tstep (shared s) p = Some (r', p') → p' ≠ p) ∧ p ≠ Idle ∧ result p = None.
Proof.
  intros Hr Hinv Hi Hlt. destruct (resv_head Hr Hlt) as (t & p & n & Ht & Hp).
  exists t, p. split; [done|]. destruct Hi as [[-> ->]|[-> ->]]; destruct p; simplify_eq/=.
  all: split; [|done]; unfold tstep; simpl; intros r' p' Hs.
  - repeat case_match; simplify_eq; [intros [=]; lia|done].
  - rewrite (in_ptail _ _ _ Hinv), Z.eqb_refl in Hs. by simplify_eq.
  - by simplify_eq.
  - case_decide; [|by simplify_eq]. destruct (rdata (shared s) !! _); simplify_eq/=.
    intros [= Heq]. apply (f_equal length) in Heq. rewrite length_app in Heq. simpl in Heq. lia.
  - rewrite (in_ctail _ _ _ Hinv), Z.eqb_refl in Hs. by simplify_eq.
  - by simplify_eq.
Qed.

Definition is_spin (p : pc) : bool := match p with PSpin _ _ | CSpin _ _ _ => true | _ => false end.

Lemma step_moves r p r' p' : is_spin p = false → tstep r p = Some (r', p') → p' ≠ p.
Proof.
  intros Hp Hs. destruct p; unfold tstep in Hs; simpl in Hs; try done; repeat case_match; simplify_eq; try done.
  - intros [=]. lia.
  - destruct (rdata r !! _); simplify_eq/=.
    intros [= Heq]. apply (f_equal length) in Heq. rewrite length_app in Heq. simpl in Heq. lia.
Qed.

(** C34: the ring cannot deadlock: in every reachable state where some call is
    in progress, some thread in a call can take a step that changes its state;
    the thread that holds the oldest reservation never waits. *)
Theorem ring_progress k r n tr s t p :
  ring_rep k r [] → cons_tail r = 0 →
  run cstep (Sys r (replicate n Idle)) tr s → called tr + 2 ^ k < 2 ^ 32 →
  threads s !! t = Some p → p ≠ Idle → result p = None →
  ∃ t' p' r'' p'', threads s !! t' = Some p' ∧ tstep (shared s) p' = Some (r'', p'') ∧ p'' ≠ p'.
Proof.
  intros Hr H0 Hrun Hb Ht Hne Hres.
  destruct (run_matches k r n tr s) as (a & Ha & A & Hinv & Hsim & _); [done..|].
  assert ((∃ t1 p1, threads s !! t1 = Some p1 ∧
    (∀ r' p', tstep (shared s) p1 = Some (r', p') → p' ≠ p1) ∧ p1 ≠ Idle ∧ result p1 = None)) as
    (t1 & p1 & H1 & H2 & H3 & H4).
  2:{ destruct (tstep_total k A s a t1 p1) as [[r' p'] Hs]; [done..|].
      exists t1, p1, r', p'. split_and!; [done|done|by apply (H2 r')]. }
  destruct (tstep_total k A s a t p) as [[r' p'] Hs]; [done..|].
  destruct (decide (p' = p)) as [Heq|Hmv]; [|exists t, p; split_and!; [done| |done|done]; intros ?? H1; by simplify_eq].
  subst p'. destruct p; try done; try (by apply step_moves in Hs).
  - destruct (rv_in _ _ _ _ (in_prod _ _ _ Hinv) t _ _ _ Ht eq_refl) as (? & ? & ?).
    eapply (spin_holder pint); [apply Hinv|done|by left|lia].
  - destruct (rv_in _ _ _ _ (in_cons _ _ _ Hinv) t _ _ _ Ht eq_refl) as (? & ? & ?).
    eapply (spin_holder cint); [apply Hinv|done|by right|lia].
Qed.

(** Thread 1 has written and waits; thread 0 has not written yet. *)
Definition waiting : list action :=
  [DoCall 0 (OPush [1; 2]); DoCall 1 (OPush [3; 4])] ++ steps 0 3 ++ steps 1 3 ++ steps 1 4.

Lemma waiting_run :
  ∃ s, run cstep (Sys ring4 (replicate 3 Idle)) [Call 0 (OPush [1; 2]); Call 1 (OPush [3; 4])] s ∧
    threads s !! 1%nat = Some (PSpin [3; 4] 2).
Proof.
  destruct (do_sched waiting (Sys ring4 (replicate 3 Idle))) as [[tr s]|] eqn:H; [|vm_compute in H; done].
  exists s. pose proof (do_sched_run _ _ [] _ _ _ (run_nil _ _) H) as Hr.
  vm_compute in H. simplify_eq. done.
Qed.

Lemma ring_progress_witness :
  ∃ s t' p' r'' p'', threads s !! 1%nat = Some (PSpin [3; 4] 2) ∧
    threads s !! t' = Some p' ∧ tstep (shared s) p' = Some (r'', p'') ∧ p'' ≠ p'.
Proof.
  destruct waiting_run as (s & Hs & Ht). exists s.
  destruct (ring_progress 2 ring4 3 _ s 1 (PSpin [3; 4] 2) ring4_rep eq_refl Hs)
    as (t' & p' & r'' & p'' & H); [reflexivity|exact Ht|discriminate|reflexivity|].
  exists t', p', r'', p''. split; [exact Ht|exact H].
Defined.

(** ** A thread alone *)

Inductive alone : ring_t → pc → ring_t → pc → Prop :=
  | alone_refl r p : alone r p r p
  | alone_step r p r1 p1 r2 p2 : tstep r p = Some (r1, p1) → alone r1 p1 r2 p2 → alone r p r2 p2.

Lemma alone_writes addr h : ∀ pre r ms r' ms',
  data_set_all h (Z.of_nat (length pre)) addr r ms = Ok (tt, r', ms') →
  alone r (PWrite (pre ++ addr) h (length pre)) r' (PSpin (pre ++ addr) h) ∧ ms' = ms.
Proof.
  induction addr as [|v addr IH]; intros pre r ms r' ms' H.
  - injection H as <- <-. split; [|done]. eapply alone_step; [|constructor]. unfold tstep. simpl.
    by rewrite lookup_ge_None_2 by (rewrite app_nil_r; lia).
  - cbn [data_set_all] in H. unfold data_set, mbind, SM_bind, get, put, crash in H.
    destruct (decide (slot_of r h (Z.of_nat (length pre)) < length (rdata r))%nat) as [Hl|Hl] eqn:Hd; [|done].
    replace (Z.of_nat (length pre) + 1) with (Z.of_nat (length (pre ++ [v]))) in H
      by (rewrite length_app; simpl; lia).
    apply IH in H as [H ->]. split; [|done]. rewrite <-app_assoc in H. cbn [app] in H.
    rewrite length_app, Nat.add_1_r in H. eapply alone_step; [|exact H].
    unfold tstep. cbn [is_push push_step]. by rewrite list_lookup_middle, Hd.
Qed.

Lemma alone_trans r p r1 p1 r2 p2 : alone r p r1 p1 → alone r1 p1 r2 p2 → alone r p r2 p2.
Proof. induction 1; [done|]. intros. eapply alone_step; eauto. Qed.

Lemma alone_push vs r ms x r' ms' :
  ring_mpush vs r ms = Ok (x, r', ms') → alone r (PReadHead vs) r' (PRet x) ∧ ms' = ms.
Proof.
  unfold ring_mpush, CAS_FUEL. intros H. unfold mbind in H at 1. unfold SM_bind in H at 1.
  rewrite loop_S in H. unfold gets, mbind, SM_bind, mret, SM_ret in H.
  destruct (Z.of_nat (length vs) >? u32 (rmax r + cons_tail r - prod_head r)) eqn:Hfull; cbn beta iota in H.
  - simplify_eq. split; [|done]. eapply alone_step; [reflexivity|].
    eapply alone_step; [unfold tstep; cbn [is_push push_step]; by rewrite Hfull|constructor].
  - unfold cas_prod_head, get, put, mbind, SM_bind, mret, SM_ret in H. rewrite Z.eqb_refl in H. cbn beta iota in H.
    set (r1 := set_prod_head _ r) in H.
    destruct (data_set_all (prod_head r) 0 vs r1 ms) as [[[[] r2] ms2]| | |] eqn:Hd; try done.
    apply (alone_writes vs (prod_head r) [] r1) in Hd as [Hd ->].
    unfold spin, gets, modify, mbind, SM_bind in H.
    destruct (prod_tail r2 =? prod_head r) eqn:Ht; cbn in H; [|done]. simplify_eq. split; [|done].
    eapply alone_step; [reflexivity|]. eapply alone_step.
    { unfold tstep. cbn. by rewrite Hfull. }
    eapply alone_step.
    { unfold tstep. cbn. by rewrite Z.eqb_refl. }
    eapply alone_trans; [exact Hd|]. eapply alone_step.
    { unfold tstep. cbn. by rewrite Ht. }
    do 2 (eapply alone_step; [reflexivity|]). constructor.
Qed.

Lemma alone_reads h : ∀ m n pre r ms l r' ms',
  (length pre + m = n)%nat →
  data_get_all h (Z.of_nat (length pre)) m r ms = Ok (l, r', ms') →
  alone r (CRead n h pre) r' (CSpin n h (pre ++ l)) ∧ r' = r ∧ ms' = ms.
Proof.
  induction m as [|m IH]; intros n pre r ms l r' ms' Hn H.
  - injection H as <- <- <-. split; [|done]. rewrite app_nil_r. eapply alone_step; [|constructor].
    unfold tstep. cbn [is_push pop_step]. by rewrite decide_False by lia.
  - cbn [data_get_all] in H. unfold data_get, deref, mbind, SM_bind, get in H.
    destruct (rdata r !! slot_of r h (Z.of_nat (length pre))) as [v|] eqn:Hv; [|done].
    cbn beta iota in H. unfold mret, SM_ret in H.
    replace (Z.of_nat (length pre) + 1) with (Z.of_nat (length (pre ++ [v]))) in H
      by (rewrite length_app; simpl; lia).
    destruct (data_get_all h _ m r ms) as [[[l' r1] ms1]| | |] eqn:Hg; [|done..]. injection H as <- <- <-.
    apply (IH n) in Hg as (Hg & -> & ->); [|rewrite length_app; simpl; lia].
    split; [|done]. rewrite <-app_assoc in Hg. eapply alone_step; [|exact Hg].
    unfold tstep. cbn [is_push pop_step]. rewrite decide_True by lia. by rewrite Hv.
Qed.

Lemma alone_pop n r ms l r' ms' :
  ring_mpop n r ms = Ok (l, r', ms') → alone r (CReadHead n) r' (CRet l) ∧ ms' = ms.
Proof.
  unfold ring_mpop, CAS_FUEL. intros H. unfold mbind in H at 1. unfold SM_bind in H at 1.
  rewrite loop_S in H. unfold gets, mbind, SM_bind, mret, SM_ret in H.
  destruct (Z.of_nat n >? u32 (prod_tail r - cons_head r)) eqn:Hempty; cbn beta iota in H.
  - simplify_eq. split; [|done]. eapply alone_step; [reflexivity|].
    eapply alone_step; [unfold tstep; cbn [is_push pop_step]; by rewrite Hempty|constructor].
  - unfold cas_cons_head, get, put, mbind, SM_bind, mret, SM_ret in H. rewrite Z.eqb_refl in H. cbn beta iota in H.
    set (r1 := set_cons_head _ r) in H.
    destruct (data_get_all (cons_head r) 0 n r1 ms) as [[[l1 r2] ms2]| | |] eqn:Hd; try done.
    apply (alone_reads (cons_head r) n n [] r1) in Hd as (Hd & -> & ->); [|done].
    unfold spin, gets, modify, mbind, SM_bind in H.
    destruct (cons_tail r1 =? cons_head r) eqn:Ht; cbn beta iota in H; [|done].
    unfold mret, SM_ret in H. simplify_eq. split; [|done].
    eapply alone_step; [reflexivity|]. eapply alone_step.
    { unfold tstep. cbn. by rewrite Hempty. }
    eapply alone_step.
    { unfold tstep. cbn. by rewrite Z.eqb_refl. }
    eapply alone_trans; [exact Hd|]. eapply alone_step.
    { unfold tstep. cbn [is_push pop_step]. by rewrite Ht. }
    do 2 (eapply alone_step; [reflexivity|]). constructor.
Qed.

(** The system run by the steps of one thread. *)
Lemma alone_run s t r p r' p' tr s0 :
  alone r p r' p' → shared s = r → threads s !! t = Some p → run cstep s0 tr s →
  run cstep s0 tr (Sys r' (<[t := p']> (threads s))).
Proof.
  intros Ha. revert s. induction Ha as [r p|r p r1 p1 r2 p2 Hs Ha IH]; intros [r0 ths] Hr Ht Hrun; simpl in *; subst.
  - by rewrite list_insert_id.
  - specialize (IH (Sys r1 (<[t := p1]> ths)) eq_refl). simpl in IH.
    rewrite list_insert_insert_eq in IH. apply IH.
    + apply list_lookup_insert_eq. by eapply lookup_lt_Some.
    + replace tr with (tr ++ option_list None) by apply app_nil_r. eapply run_snoc; [exact Hrun|].
      by apply (cs_int (Sys r ths) t p).
Qed.

(** The sequential [ring_mpush] and [ring_mpop] are the runs of the
    concurrent ring in which one thread takes all the steps: whatever they
    return and leave in the ring, such a run returns and leaves. *)
Theorem ring_alone t o x r ths r' ms' :
  ths !! t = Some Idle → op_ok o →
  match o with
  | OPush vs => ret ← ring_mpush vs; mret (RStatus ret)
  | OPop n => vs ← ring_mpop n; mret (RVals vs)
  end r [] = Ok (x, r', ms') →
  run cstep (Sys r ths) [Call t o; Ret t x] (Sys r' ths).
Proof.
  intros Ht Hok H. assert (t < length ths)%nat as Hlt by (by eapply lookup_lt_Some).
  assert (∃ p, alone r (start o) r' p ∧ result p = Some x) as (p & Ha & Hp).
  { destruct o as [vs|n]; unfold mbind, SM_bind, mret, SM_ret in H.
    - destruct (ring_mpush vs r []) as [[[y r1] ms1]| | |] eqn:Hp; simplify_eq.
      apply alone_push in Hp as [Hp _]. by exists (PRet y).
    - destruct (ring_mpop n r []) as [[[y r1] ms1]| | |] eqn:Hp; simplify_eq.
      apply alone_pop in Hp as [Hp _]. by exists (CRet y). }
  assert (run cstep (Sys r ths) [Call t o] (Sys r (<[t := start o]> ths))) as H1.
  { apply (run_snoc _ _ [] (Sys r ths) (Some (Call t o))); [constructor|]. by apply (cs_call (Sys r ths)). }
  apply (alone_run _ t _ _ _ _ _ _ Ha) in H1; [|done|by apply list_lookup_insert_eq].
  simpl in H1. rewrite list_insert_insert_eq in H1.
  apply (run_snoc _ _ [Call t o] _ (Some (Ret t x)) (Sys r' ths)) in H1; [done|].
  replace ths with (<[t := Idle]> (<[t := p]> ths)) at 2.
  - apply (cs_ret (Sys r' (<[t := p]> ths))) with p; [by apply list_lookup_insert_eq|done].
  - by rewrite list_insert_insert_eq, list_insert_id.
Qed.

Lemma ring_alone_witness :
  run cstep (Sys ring4 [Idle]) [Call 0 (OPush [5; 6]); Ret 0 (RStatus 0)]
    (Sys (Ring 4 3 2 [5; 6; NULL; NULL] 2 2 0 0) [Idle]).
Proof.
  apply (ring_alone 0 (OPush [5; 6]) (RStatus 0) ring4 [Idle] _ []); [reflexivity|split; reflexivity|reflexivity].
Defined.
