(* ===== verification/Iovec.v ===== *)
(** The vectored output of [lib/core/iovec.c]: the pieces of memory that wait for
    [writev], and for each the callback that releases it. *)
From stdpp Require Import list.
From S2P Require Import Prelude.
Open Scope Z_scope.

(** The limit of the system ([limits.h]). *)
Definition IOV_MAX : Z := 1024.

(** An array of the allocator: not there, released, or live. *)
Inductive arr (A : Type) := ANull | AFreed | ALive (l : list A).
Arguments ANull {_}.
Arguments AFreed {_}.
Arguments ALive {_} _.

Section Arr.
Context {A S : Type}.
Definition arr_get (a : arr A) (i : Z) : option A :=
  match a with ALive l => if i <? 0 then None else l !! Z.to_nat i | _ => None end.
Definition arr_rd (a : arr A) (i : Z) : SM S A := deref (arr_get a i).
(** [free]: a released array must not be released again. *)
Definition arr_free (a : arr A) : SM S (arr A) :=
  match a with ANull => mret ANull | AFreed => crash | ALive _ => mret AFreed end.
Definition arr_set (a : arr A) (i : Z) (x : A) : SM S (arr A) :=
  match a with
  | ALive l => if decide (0 ≤ i < Z.of_nat (length l)) then mret (ALive (<[Z.to_nat i := x]> l)) else crash
  | _ => crash
  end.
End Arr.

(** A piece of memory at an offset of a block. *)
Record iovec := Iov { iov_blk : ptr; iov_off : Z; iov_len : Z }.

(** A callback gets its parameter, the address and the length; [None] is NULL. *)
Record wiov_orig_t (Σ : Type) := Orig {
  wo_addr : ptr; wo_len : Z; wo_param : Z;
  wo_succ : option (Z → ptr → Z → SM Σ unit); wo_fail : option (Z → ptr → Z → SM Σ unit) }.
Arguments Orig {_} _ _ _ _ _.
Arguments wo_addr {_} _.
Arguments wo_len {_} _.
Arguments wo_param {_} _.
Arguments wo_succ {_} _.
Arguments wo_fail {_} _.

Record wiov_t (Σ : Type) := Wiov { iov_max : Z; iov_cnt : Z; iov_idx : Z; orig : arr (wiov_orig_t Σ); iov : arr iovec }.
Arguments Wiov {_} _ _ _ _ _.
Arguments iov_max {_} _.
Arguments iov_cnt {_} _.
Arguments iov_idx {_} _.
Arguments orig {_} _.
Arguments iov {_} _.

Section Ops.
Context {Σ : Type}.
Abbreviation WM := (SM (wiov_t Σ)).

Definition set_iov_cnt n (w : wiov_t Σ) : wiov_t Σ := Wiov (iov_max w) n (iov_idx w) (orig w) (iov w).
Definition set_iov_idx n (w : wiov_t Σ) : wiov_t Σ := Wiov (iov_max w) (iov_cnt w) n (orig w) (iov w).
Definition set_iov_max n (w : wiov_t Σ) : wiov_t Σ := Wiov n (iov_cnt w) (iov_idx w) (orig w) (iov w).
Definition set_orig a (w : wiov_t Σ) : wiov_t Σ := Wiov (iov_max w) (iov_cnt w) (iov_idx w) a (iov w).
Definition set_iov a (w : wiov_t Σ) : wiov_t Σ := Wiov (iov_max w) (iov_cnt w) (iov_idx w) (orig w) a.

Definition wiov_isempty (w : wiov_t Σ) : bool := 0 =? iov_cnt w.
Definition wiov_isfull (w : wiov_t Σ) : bool := iov_max w =? iov_cnt w.
Definition wiov_item_num (w : wiov_t Σ) : Z := iov_cnt w - iov_idx w.

Definition put_iov (i : Z) (x : iovec) : WM unit := w ← get; a ← arr_set (iov w) i x; put (set_iov a w).
Definition put_orig (i : Z) (x : wiov_orig_t Σ) : WM unit := w ← get; a ← arr_set (orig w) i x; put (set_orig a w).

Definition wiov_item_add (addr : ptr) (len param : Z) (succ fail : Z → ptr → Z → SM Σ unit) : WM unit :=
  w ← get;
  put_iov (iov_cnt w) (Iov addr 0 len);;
  put_orig (iov_cnt w) (Orig addr len param (Some succ) (Some fail));;
  modify (λ w, set_iov_cnt (i32 (iov_cnt w + 1)) w).

Definition wiov_item_reset (idx : Z) : WM unit :=
  put_iov idx (Iov NULL 0 0);; put_orig idx (Orig NULL 0 0 None None).

Definition wiov_init (max : Z) : WM Z :=
  modify (set_iov_cnt 0);; modify (set_iov_idx 0);;
  modify (set_iov_max (if max >? IOV_MAX then IOV_MAX else max));;
  w ← get;
  ok ← malloc;
  if negb ok then modify (set_orig ANull);; mret (-1) else
  modify (set_orig (ALive (replicate (Z.to_nat (iov_max w)) (Orig NULL 0 0 None None))));;
  ok ← malloc;
  if negb ok then
    modify (set_iov ANull);;
    w ← get; a ← arr_free (orig w); put (set_orig a w);;
    mret (-1)
  else modify (set_iov (ALive (replicate (Z.to_nat (iov_max w)) (Iov NULL 0 0))));; mret 0.

(** A call through the pointer of an item. *)
Definition call_item (f : option (Z → ptr → Z → SM Σ unit)) (o : wiov_orig_t Σ) : SM (wiov_t Σ * Σ) unit :=
  f ← deref f; on_snd (f (wo_param o) (wo_addr o) (wo_len o)).

(** The indices [from ..< to]. *)
Definition indices (from to : Z) : list Z := (λ i : nat, from + Z.of_nat i) <$> seq 0 (Z.to_nat (to - from)).

Definition wiov_clean : SM (wiov_t Σ * Σ) unit :=
  s ← get;
  for_each (λ idx,
    s ← get;
    o ← arr_rd (orig (fst s)) idx;
    call_item (wo_fail o) o;;
    on_fst (wiov_item_reset idx)) (indices (iov_idx (fst s)) (iov_cnt (fst s)));;
  on_fst (modify (set_iov_idx 0);; modify (set_iov_cnt 0)).

Definition wiov_destroy : SM (wiov_t Σ * Σ) unit :=
  wiov_clean;;
  on_fst (
    w ← get; a ← arr_free (iov w); put (set_iov a w);;
    w ← get; a ← arr_free (orig w); put (set_orig a w);;
    modify (set_iov_cnt 0);; modify (set_iov_idx 0);; modify (set_iov_max 0)).

(** One item of the loop: [len] bytes of the [n] are accounted for. *)
Definition adjust_step (n : Z) (x : Z * Z) : SM (wiov_t Σ * Σ) (Z * Z + Z) :=
  let '(idx, len) := x in
  s ← get;
  if negb (idx <? iov_cnt (fst s)) then mret (inr idx) else
  v ← arr_rd (iov (fst s)) idx;
  if len + iov_len v <=? n then
    o ← arr_rd (orig (fst s)) idx;
    call_item (wo_succ o) o;;
    on_fst (wiov_item_reset idx);;
    on_fst (modify (λ w, set_iov_idx (i32 (iov_idx w + 1)) w));;
    mret (inl (i32 (idx + 1), len + iov_len v))
  else
    on_fst (put_iov idx (Iov (iov_blk v) (iov_off v + (n - len)) (len + iov_len v - n)));;
    mret (inr idx).

(** The fuel is the number of items. *)
Definition wiov_item_adjust (n : Z) : SM (wiov_t Σ * Σ) Z :=
  s ← get;
  let w := fst s in
  idx ← loop (S (Z.to_nat (wiov_item_num w))) (adjust_step n) (iov_idx w, 0);
  s ← get;
  (if idx =? iov_cnt (fst s) then on_fst (modify (set_iov_idx 0);; modify (set_iov_cnt 0)) else mret tt);;
  mret 0.
End Ops.

(** ** Items waiting *)

Section Spec.
Context {Σ : Type}.
Abbreviation item := (iovec * wiov_orig_t Σ)%type.
Implicit Types (w : wiov_t Σ) (vs : list item) (u : Σ).

(** The items [vs] lie at the indices [iov_idx ..< iov_cnt]. *)
Record wrep0 w vs : Prop := {
  wr_idx : 0 ≤ iov_idx w;
  wr_cnt : iov_cnt w = iov_idx w + Z.of_nat (length vs);
  wr_max : iov_cnt w ≤ iov_max w ≤ IOV_MAX;
  wr_arr : ∃ lo lv, orig w = ALive lo ∧ iov w = ALive lv ∧
    Z.of_nat (length lo) = iov_max w ∧ Z.of_nat (length lv) = iov_max w ∧
    take (length vs) (drop (Z.to_nat (iov_idx w)) lv) = vs.*1 ∧ take (length vs) (drop (Z.to_nat (iov_idx w)) lo) = vs.*2;
}.
Definition wrep w vs : Prop := wrep0 w vs ∧ (vs = [] → iov_idx w = 0).

Lemma wrep_empty w vs : wrep w vs → wiov_isempty w = match vs with [] => true | _ => false end.
Proof.
  intros [[H1 H2 H3 H4] H]. unfold wiov_isempty. destruct vs; cbn [length] in *.
  - rewrite H2, H by done. done.
  - apply Z.eqb_neq. lia.
Qed.

(** A segment of an array. *)
Lemma seg_cons {A} (l : list A) i n x xs : take (S n) (drop i l) = x :: xs → l !! i = Some x ∧ take n (drop (S i) l) = xs.
Proof.
  intros Hs. assert (drop i l !! 0%nat = Some x) as Hx.
  { rewrite <-(lookup_take_lt _ (S n)) by lia. by rewrite Hs. }
  rewrite lookup_drop, Nat.add_0_r in Hx. split; [done|]. rewrite (drop_S _ _ _ Hx) in Hs. by injection Hs.
Qed.

Lemma iov_seg_length {A} (l : list A) i n xs : take n (drop i l) = xs → length xs = n → (i + n ≤ length l ∨ n = 0)%nat.
Proof. intros <-. rewrite length_take, length_drop. lia. Qed.

Lemma seg_insert {A} (l : list A) i j n x xs : take n (drop i l) = xs → (j < i)%nat → take n (drop i (<[j := x]> l)) = xs.
Proof. intros <- ?. by rewrite drop_insert_lt by lia. Qed.

Lemma seg_update {A} (l : list A) i n x y xs : take (S n) (drop i l) = x :: xs → take (S n) (drop i (<[i := y]> l)) = y :: xs.
Proof.
  intros Hs. destruct (seg_cons _ _ _ _ _ Hs) as [Hi Hr]. apply lookup_lt_Some in Hi as Hl.
  rewrite (drop_S _ y) by (by rewrite list_lookup_insert_eq). cbn [take]. f_equal. by rewrite drop_insert_lt by lia.
Qed.

Lemma seg_snoc {A} (l : list A) i n xs y : take n (drop i l) = xs → length xs = n → (i + n < length l)%nat →
  take (S n) (drop i (<[(i + n)%nat := y]> l)) = xs ++ [y].
Proof.
  intros Hs Hl Hn. rewrite (take_S_r _ _ y).
  - rewrite drop_insert_ge, Nat.add_comm, Nat.add_sub by lia. rewrite take_insert_ge by lia. by rewrite Hs.
  - rewrite lookup_drop. by rewrite list_lookup_insert_eq by done.
Qed.

Lemma wp_arr_rd {A S} (a : arr A) l i x (Q : A → S → mem → Prop) s ms :
  a = ALive l → 0 ≤ i → l !! Z.to_nat i = Some x → Q x s ms → wp (arr_rd a i) Q s ms.
Proof. intros -> Hi Hx HQ. unfold arr_rd, arr_get. rewrite (proj2 (Z.ltb_ge _ _)) by lia. rewrite Hx. exact HQ. Qed.

Lemma wp_put_iov w i l x (Q : unit → wiov_t Σ → mem → Prop) ms :
  iov w = ALive l → 0 ≤ i < Z.of_nat (length l) → Q tt (set_iov (ALive (<[Z.to_nat i := x]> l)) w) ms → wp (put_iov i x) Q w ms.
Proof. intros Hl Hi HQ. unfold put_iov. apply wp_bind. unfold get, wp at 1. rewrite Hl. cbn [arr_set]. rewrite decide_True by done. exact HQ. Qed.

Lemma wp_put_orig w i l x (Q : unit → wiov_t Σ → mem → Prop) ms :
  orig w = ALive l → 0 ≤ i < Z.of_nat (length l) → Q tt (set_orig (ALive (<[Z.to_nat i := x]> l)) w) ms → wp (put_orig i x) Q w ms.
Proof. intros Hl Hi HQ. unfold put_orig. apply wp_bind. unfold get, wp at 1. rewrite Hl. cbn [arr_set]. rewrite decide_True by done. exact HQ. Qed.

(** *** Adding an item *)

Lemma wp_item_add w vs addr len param succ fail (Q : unit → wiov_t Σ → mem → Prop) ms :
  wrep w vs → iov_cnt w < iov_max w →
  (∀ w', wrep w' (vs ++ [(Iov addr 0 len, Orig addr len param (Some succ) (Some fail))]) → iov_max w' = iov_max w → iov_idx w' = iov_idx w →
     Q tt w' ms) →
  wp (wiov_item_add addr len param succ fail) Q w ms.
Proof.
  intros [[H1 H2 H3 (lo & lv & Ho & Hv & Hlo & Hlv & Hsv & Hso)] H0] Hlt HQ. unfold wiov_item_add. unfold IOV_MAX in *.
  apply wp_bind. unfold get, wp at 1. apply wp_bind. eapply wp_put_iov; [exact Hv|lia|].
  apply wp_bind. eapply wp_put_orig; [exact Ho|simpl; lia|]. unfold modify, wp. apply HQ; [|done|done].
  split; [|by destruct vs]. constructor; simpl.
  - done.
  - rewrite length_app, i32_small by lia. simpl. lia.
  - rewrite i32_small by lia. unfold IOV_MAX. lia.
  - eexists _, _. split_and!; [done|done|by rewrite length_insert|by rewrite length_insert|..]; rewrite length_app, Nat.add_1_r, fmap_app;
      replace (Z.to_nat (iov_cnt w)) with (Z.to_nat (iov_idx w) + length vs)%nat by lia.
    + apply seg_snoc; [done|by rewrite length_fmap|lia].
    + apply seg_snoc; [done|by rewrite length_fmap|lia].
Qed.

(** *** After a write *)

(** What a write of [n] bytes leaves: the items sent, and those that wait. *)
Fixpoint adjust (n : Z) vs : list (wiov_orig_t Σ) * list item :=
  match vs with
  | [] => ([], [])
  | (v, o) :: vs =>
      if iov_len v <=? n then let '(d, r) := adjust (n - iov_len v) vs in (o :: d, r)
      else ([], (Iov (iov_blk v) (iov_off v + n) (iov_len v - n), o) :: vs)
  end.

(** The callbacks run on the caller's state. *)
Definition run_item (f : Z → ptr → Z → SM Σ unit) (o : wiov_orig_t Σ) : SM Σ unit := f (wo_param o) (wo_addr o) (wo_len o).

Lemma wp_adjust_loop f n vs : ∀ fuel w len (Q : Z → wiov_t Σ * Σ → mem → Prop) u ms,
  (length vs < fuel)%nat → wrep0 w vs → Forall (λ x, wo_succ x.2 = Some f) vs → len ≤ n →
  wp (for_each (run_item f) (adjust (n - len) vs).1) (λ _ u' ms', ∀ w', wrep0 w' (adjust (n - len) vs).2 → iov_max w' = iov_max w →
     Q (iov_idx w') (w', u') ms') u ms →
  wp (loop fuel (adjust_step n) (iov_idx w, len)) Q (w, u) ms.
Proof.
  induction vs as [|[v o] vs IH]; intros fuel w len Q u ms Hf Hw Hs Hlen HQ; (destruct fuel as [|fuel]; [cbn [length] in Hf; lia|]);
    apply wp_loop_step; unfold adjust_step at 1; apply wp_bind; unfold get, wp at 1; cbn [fst];
    pose proof Hw as [H1 H2 H3 (lo & lv & Ho & Hv & Hlo & Hlv & Hsv & Hso)]; cbn [length] in *.
  - rewrite (proj2 (Z.ltb_ge _ _)) by lia. cbn [negb]. apply wp_ret. cbn [adjust fst snd] in HQ. by apply HQ.
  - rewrite (proj2 (Z.ltb_lt _ _)) by lia. cbn [negb fmap list_fmap fst snd] in *. unfold IOV_MAX in *.
    destruct (seg_cons _ _ _ _ _ Hsv) as [Hv0 Hsv']. destruct (seg_cons _ _ _ _ _ Hso) as [Ho0 Hso'].
    apply lookup_lt_Some in Hv0 as Hvl. apply lookup_lt_Some in Ho0 as Hol.
    apply wp_bind. eapply wp_arr_rd; [exact Hv|done|exact Hv0|]. cbn [adjust] in HQ.
    apply Forall_cons in Hs as [Hs0 Hs]. cbn [snd] in Hs0.
    assert ((len + iov_len v <=? n) = (iov_len v <=? n - len)) as -> by (destruct (Z.leb_spec (len + iov_len v) n), (Z.leb_spec (iov_len v) (n - len)); lia).
    destruct (Z.leb_spec (iov_len v) (n - len)) as [Hle|Hgt].
    + destruct (adjust (n - len - iov_len v) vs) as [dn rs] eqn:E. cbn [fst snd for_each] in HQ. apply wp_bind_inv in HQ.
      apply wp_bind. eapply wp_arr_rd; [exact Ho|done|exact Ho0|]. apply wp_bind. unfold call_item. rewrite Hs0. cbn [deref].
      apply wp_bind, wp_ret. unfold on_snd. apply wp_zoom. eapply wp_mono; [exact HQ|]. cbn beta. intros [] u1 ms1 HQ1. cbn [snd].
      apply wp_bind. unfold on_fst at 1. apply wp_zoom. cbn [fst]. unfold wiov_item_reset. apply wp_bind.
      eapply wp_put_iov; [exact Hv|lia|]. eapply wp_put_orig; [exact Ho|lia|]. apply wp_bind. unfold on_fst at 1. apply wp_zoom.
      unfold modify, wp at 1. apply wp_ret. cbn [fst snd]. set (w1 := set_iov_idx _ _).
      replace (i32 (iov_idx w + 1)) with (iov_idx w1) by done. assert (iov_idx w1 = iov_idx w + 1) as Hi1 by (apply i32_small; lia).
      apply IH; [lia| |done|lia|].
      * constructor; rewrite ?Hi1; cbn [w1 iov_cnt iov_max set_iov_idx set_orig set_iov]; [lia|lia|unfold IOV_MAX; lia|].
        eexists _, _. split_and!; [done|done|by rewrite length_insert|by rewrite length_insert|..];
          replace (Z.to_nat (iov_idx w + 1)) with (S (Z.to_nat (iov_idx w))) by lia; by apply seg_insert; [|lia].
      * replace (n - (len + iov_len v)) with (n - len - iov_len v) by lia. rewrite E. exact HQ1.
    + cbn [fst snd for_each] in HQ. apply wp_bind. unfold on_fst. apply wp_zoom. cbn [fst]. eapply wp_put_iov; [exact Hv|lia|].
      apply wp_ret. cbn [snd]. set (w1 := set_iov _ _). apply (HQ w1); [|done].
      constructor; cbn [w1 iov_cnt iov_idx iov_max set_iov length]; [done|lia|unfold IOV_MAX; lia|].
      exists lo. eexists. split_and!; [done|done|done|by rewrite length_insert| |done]. cbn [fmap list_fmap fst].
      replace (len + iov_len v - n) with (iov_len v - (n - len)) by lia. by eapply seg_update.
Qed.

Lemma wp_item_adjust f n w vs (Q : Z → wiov_t Σ * Σ → mem → Prop) u ms :
  wrep w vs → Forall (λ x, wo_succ x.2 = Some f) vs → 0 ≤ n →
  wp (for_each (run_item f) (adjust n vs).1) (λ _ u' ms', ∀ w', wrep w' (adjust n vs).2 → iov_max w' = iov_max w → Q 0 (w', u') ms') u ms →
  wp (wiov_item_adjust n) Q (w, u) ms.
Proof.
  intros [Hw H0] Hs Hn HQ. unfold wiov_item_adjust. apply wp_bind. unfold get, wp at 1. cbn [fst]. apply wp_bind.
  eapply (wp_adjust_loop f n vs); [|exact Hw|exact Hs|done|].
  { unfold wiov_item_num. rewrite (wr_cnt _ _ Hw). lia. }
  rewrite Z.sub_0_r. eapply wp_mono; [exact HQ|]. cbn beta. intros [] u' ms' HQ' w' Hw' Hm. apply wp_bind. unfold get, wp at 1. cbn [fst].
  pose proof Hw' as [H1 H2 H3 H4]. destruct (adjust n vs).2 as [|x r]; cbn [length] in *.
  - rewrite (proj2 (Z.eqb_eq _ _)) by lia. apply wp_bind. unfold on_fst. apply wp_zoom. apply wp_bind. unfold modify at 1, wp at 1.
    unfold modify, wp at 1. apply wp_ret. cbn [fst snd]. apply HQ'; [|done]. destruct H4 as (lo & lv & Ho & Hv & Hlo & Hlv & _).
    split; [|done]. constructor; cbn; [done|done|lia|]. exists lo, lv. by rewrite !take_0.
  - rewrite (proj2 (Z.eqb_neq _ _)) by lia. apply wp_bind, wp_ret, wp_ret. apply HQ'; [|done]. by split.
Qed.

(** *** The end *)

Lemma wp_wiov_clean f w vs (Q : unit → wiov_t Σ * Σ → mem → Prop) u ms :
  wrep w vs → Forall (λ x, wo_fail x.2 = Some f) vs →
  wp (for_each (run_item f) vs.*2) (λ _ u' ms', ∀ w', wrep w' [] → iov_max w' = iov_max w → Q tt (w', u') ms') u ms →
  wp wiov_clean Q (w, u) ms.
Proof.
  intros [Hw _] Hs HQ. unfold wiov_clean. apply wp_bind. unfold get, wp at 1. cbn [fst]. apply wp_bind.
  unfold indices. replace (Z.to_nat (iov_cnt w - iov_idx w)) with (length vs) by (rewrite (wr_cnt _ _ Hw); lia).
  assert (∀ vs i w1 u1 ms1, iov_idx w1 = iov_idx w → iov_max w1 = iov_max w → iov_cnt w1 = iov_cnt w →
    iov_idx w + Z.of_nat (i + length vs) = iov_cnt w → Forall (λ x, wo_fail x.2 = Some f) vs →
    (∃ lo lv, orig w1 = ALive lo ∧ iov w1 = ALive lv ∧ Z.of_nat (length lo) = iov_max w ∧ Z.of_nat (length lv) = iov_max w ∧
       take (length vs) (drop (Z.to_nat (iov_idx w) + i) lo) = vs.*2) →
    wp (for_each (run_item f) vs.*2) (λ _ u' ms', ∀ w', wrep w' [] → iov_max w' = iov_max w → Q tt (w', u') ms') u1 ms1 →
    wp (for_each (λ idx, s ← get; o ← arr_rd (orig (fst s)) idx; call_item (wo_fail o) o;; on_fst (wiov_item_reset idx))
      ((λ i : nat, iov_idx w + Z.of_nat i) <$> seq i (length vs)))
      (λ _, wp (on_fst (modify (set_iov_idx 0);; modify (set_iov_cnt 0))) Q) (w1, u1) ms1) as Hloop.
  2: { apply Hloop; [done..| | | |].
       - rewrite (wr_cnt _ _ Hw). lia.
       - exact Hs.
       - destruct Hw as [H1 H2 H3 (lo & lv & Ho & Hv & Hlo & Hlv & _ & Hso)]. exists lo, lv. by rewrite Nat.add_0_r.
       - exact HQ. }
  clear HQ Hs u ms. pose proof Hw as [H1 _ H3 _]. clear Hw. unfold IOV_MAX in *.
  intros vs'. induction vs' as [|[v o] vs' IH]; intros i w1 u1 ms1 Hi Hm Hc Hcnt Hs (lo & lv & Ho & Hv & Hlo & Hlv & Hso) HQ;
    cbn [length seq fmap list_fmap for_each fst snd] in *.
  - apply wp_ret. unfold on_fst. apply wp_zoom. apply wp_bind. unfold modify at 1, wp at 1. unfold modify, wp. cbn [fst snd].
    apply HQ; [|done]. split; [|done]. constructor; cbn; [done|done|unfold IOV_MAX; lia|].
    exists lo, lv. rewrite Hm. by rewrite !take_0.
  - apply Forall_cons in Hs as [Hs0 Hs]. cbn [snd] in Hs0. destruct (seg_cons _ _ _ _ _ Hso) as [Ho0 Hso'].
    apply lookup_lt_Some in Ho0 as Hol. apply wp_bind, wp_bind. unfold get, wp at 1. cbn [fst]. apply wp_bind.
    eapply wp_arr_rd; [exact Ho|lia|replace (Z.to_nat (iov_idx w + Z.of_nat i)) with (Z.to_nat (iov_idx w) + i)%nat by lia; exact Ho0|].
    apply wp_bind. unfold call_item. rewrite Hs0. cbn [deref]. apply wp_bind, wp_ret. unfold on_snd. apply wp_zoom.
    apply wp_bind_inv in HQ. eapply wp_mono; [exact HQ|]. cbn beta. intros [] u2 ms2 HQ2. cbn [snd].
    unfold on_fst at 1. apply wp_zoom. cbn [fst]. unfold wiov_item_reset. apply wp_bind.
    eapply wp_put_iov; [exact Hv|lia|]. eapply wp_put_orig; [exact Ho|lia|]. cbn [snd].
    apply IH; [done|done|done|lia|done| |exact HQ2].
    eexists _, _. split_and!; [done|done|by rewrite length_insert|by rewrite length_insert|].
    rewrite Nat.add_succ_r. apply seg_insert; [done|lia].
Qed.

Lemma wp_wiov_destroy f w vs (Q : unit → wiov_t Σ * Σ → mem → Prop) u ms :
  wrep w vs → Forall (λ x, wo_fail x.2 = Some f) vs →
  wp (for_each (run_item f) vs.*2) (λ _ u' ms', ∀ w', Q tt (w', u') ms') u ms → wp wiov_destroy Q (w, u) ms.
Proof.
  intros Hw Hs HQ. unfold wiov_destroy. apply wp_bind. eapply wp_wiov_clean; [exact Hw|exact Hs|].
  eapply wp_mono; [exact HQ|]. intros [] u' ms' HQ' w' [[_ _ _ (lo & lv & Ho & Hv & _)] _] _. unfold on_fst. apply wp_zoom. cbn [fst].
  do 2 wp_step. cbn beta. rewrite Hv. cbn [arr_free]. apply wp_bind, wp_ret. do 4 wp_step.
  cbn [orig set_iov]. rewrite Ho. cbn [arr_free]. do 2 wp_step. do 6 wp_step. apply HQ'.
Qed.

(** A new vector, the allocations being granted. *)
Lemma wp_wiov_init max w (Q : Z → wiov_t Σ → mem → Prop) :
  0 < max → (∀ w', wrep w' [] → 0 < iov_max w' → Q 0 w' []) → wp (wiov_init max) Q w [].
Proof.
  intros Hm HQ. unfold wiov_init. do 6 wp_step. do 2 wp_step. wp_step. apply wp_malloc_nil. cbn [negb].
  do 3 wp_step. apply wp_malloc_nil. cbn [negb]. do 3 wp_step. 
  assert (0 < (if max >? IOV_MAX then IOV_MAX else max) ≤ IOV_MAX).
  { unfold IOV_MAX. destruct (Z.gtb_spec max 1024); lia. }
  apply HQ; [|cbn; lia]. split; [|done]. constructor; cbn; [lia|lia|lia|]. eexists _, _. rewrite !length_replicate. split_and!; try done; lia.
Qed.
End Spec.
