(* ===== verification/Mref.v ===== *)
(** Reference-counted memory blocks ([lib/core/mref.c]): a hash table from the
    address of a block to its count, and the blocks themselves.  The second half
    shows that it refines a map from addresses to contents and counts. *)
From stdpp Require Import fin_maps gmap.
From S2P Require Import Prelude Heap Table RbTable HashTab TabRel.
Open Scope Z_scope.

(** The memory the blocks live in. *)
Abbreviation blocks_t := (heap (list Z)).

(** [mem_alloc] ([calloc]) and [mem_dealloc] ([free]) of [redo.c]. *)
Definition mem_alloc (pool size : Z) : SM blocks_t ptr :=
  p ← halloc (replicate (Z.to_nat size) 0);
  mret (default NULL p).
Definition mem_free (pool : Z) (p : ptr) : SM blocks_t unit :=
  if p =? NULL then mret tt else hfree p.

Record mref_item_t := MrefItem {
  mi_addr : ptr; mi_count : Z; mi_pool : Z; mi_dealloc : Z → ptr → SM blocks_t unit }.

Definition MREF_SLOT_LEN : Z := 999.
Definition mref_hash_cb (i : mref_item_t) : Z := mi_addr i.
Definition mref_cmp_cb (i1 i2 : mref_item_t) : Z := cmp_u64 (mi_addr i1) (mi_addr i2).

Section Ops.
Context {T : Type → Type} `{TreeOps T}.

(** The global table and the memory. *)
Record mref_st := MrefSt { gMemRefTab : hash_tab_t T mref_item_t; mblk : blocks_t }.
Definition set_tab h (s : mref_st) : mref_st := MrefSt h (mblk s).
Definition set_blk b (s : mref_st) : mref_st := MrefSt (gMemRefTab s) b.
Definition on_tab {A} : SM _ A → SM mref_st A := zoom gMemRefTab set_tab.
Definition on_blk {A} : SM blocks_t A → SM mref_st A := zoom mblk set_blk.

Definition mref_key (addr : ptr) : mref_item_t := MrefItem addr 0 0 mem_free.
Definition mref_query (addr : ptr) (lk : lock_e) : SM mref_st (option mref_item_t) :=
  on_tab (hash_tab_query mref_hash_cb mref_cmp_cb (mref_key addr) lk).
Definition mref_unlock (addr : ptr) (lk : lock_e) : SM mref_st unit :=
  on_tab (hash_tab_unlock mref_hash_cb (mref_key addr) lk).

(** [(int)atomic32_add(&item->count, n)] on the item a query returned. *)
Definition mref_count_add (addr : ptr) (n : Z) : SM mref_st Z :=
  with_data gMemRefTab set_tab mref_hash_cb mref_cmp_cb (mref_key addr)
    (x ← get;
     let i := fst x in
     let c := u32 (mi_count i + n) in
     put (MrefItem (mi_addr i) c (mi_pool i) (mi_dealloc i), snd x);;
     mret (i32 c)).

Definition mref_init (b : blocks_t) : SM unit (option mref_st) :=
  tab ← hash_tab_creat MREF_SLOT_LEN;
  mret ((λ tab, MrefSt tab b) <$> tab).

Definition mref_add (addr : ptr) (pool : Z) (dealloc : Z → ptr → SM blocks_t unit) : SM mref_st Z :=
  retry (
    item ← mref_query addr RDLOCK;
    match item with
    | Some _ => cnt ← mref_count_add addr 1; mref_unlock addr RDLOCK;; mret (inr cnt)
    | None =>
        ok ← malloc;
        cassert ok;;
        ret ← on_tab (hash_tab_insert mref_hash_cb mref_cmp_cb (MrefItem addr 1 pool dealloc) WRLOCK);
        if negb (ret =? 0) then mret (inl tt) else mret (inr 1)
    end).

Definition mref_alloc (size pool : Z) (alloc : Z → Z → SM blocks_t ptr)
    (dealloc : Z → ptr → SM blocks_t unit) : SM mref_st ptr :=
  if 0 =? size then mret NULL else
  addr ← on_blk (alloc pool size);
  if addr =? NULL then mret NULL else
  mref_add addr pool dealloc;;
  mret addr.

Definition mref_inc (addr : ptr) : SM mref_st Z :=
  item ← mref_query addr RDLOCK;
  match item with
  | Some _ => cnt ← mref_count_add addr 1; mref_unlock addr RDLOCK;; mret cnt
  | None => crash
  end.

Definition mref_dec (addr : ptr) : SM mref_st Z :=
  item ← mref_query addr RDLOCK;
  match item with
  | None => crash
  | Some _ =>
      cnt ← mref_count_add addr (-1);
      mref_unlock addr RDLOCK;;
      if 0 =? cnt then
        item ← mref_query addr WRLOCK;
        match item with
        | None => mret 0
        | Some item =>
            if 0 =? mi_count item then
              on_tab (hash_tab_delete mref_hash_cb mref_cmp_cb (mref_key addr) NONLOCK);;
              mref_unlock addr WRLOCK;;
              on_blk (mi_dealloc item (mi_pool item) (mi_addr item));;
              mret 0
            else mref_unlock addr WRLOCK;; mret 0
        end
      else mret cnt
  end.

Definition mref_dealloc (addr : ptr) : SM mref_st unit := mref_dec addr;; mret tt.

Definition mref_check (addr : ptr) : SM mref_st Z :=
  item ← mref_query addr RDLOCK;
  match item with
  | Some item => mref_unlock addr RDLOCK;; mret (i32 (mi_count item))
  | None => mret 0
  end.

(** What the clients read and write in a block. *)
Definition blk_get (p : ptr) : SM mref_st (list Z) := on_blk (hrd p).
Definition blk_set (p : ptr) (f : list Z → list Z) : SM mref_st unit := on_blk (hwr p f).
End Ops.
Arguments mref_st : clear implicits.

(** ** Refinement *)

(** The bound on addresses keeps their hash below [2^63]. *)
Definition ADDR_MAX : Z := 2 ^ 47.
Definition addr_dom (i : mref_item_t) : Prop := is_id (mi_addr i).

#[export] Instance mref_ok : HashOk mi_addr addr_dom mref_hash_cb mref_cmp_cb.
Proof.
  constructor; [by intros d [? ?]|done|]. apply cmp_law_diff.
  intros x y ??. by apply cmp_u64_small.
Qed.

(** The item of a block with the count [n], released by [mem_free]. *)
Record item_rel (i : mref_item_t) (n : Z) : Prop := {
  ir_count : mi_count i = n;
  ir_range : 0 ≤ n < 2 ^ 31;
  ir_free : mi_dealloc i = mem_free;
}.

Section Refine.
Context {T : Type → Type} `{TreeLaws T}.
Abbreviation st := (mref_st T).
Abbreviation tabrel := (trel mi_addr addr_dom mref_hash_cb mref_cmp_cb item_rel).
Abbreviation mslot h p := (slot mref_hash_cb (len h) (mref_key p)).

(** [M] gives each live block its content and its count. *)
Record mrep (s : st) (M : gmap ptr (list Z * Z)) : Prop := {
  mr_tab : tabrel (gMemRefTab s) (snd <$> M) (idles (len (gMemRefTab s)));
  mr_blk : cell (mblk s) = fst <$> M;
  mr_addr : map_Forall (λ p x, 0 < p < fresh (mblk s) ∧ 0 < x.2) M;
  mr_fresh : 0 < fresh (mblk s) ≤ ADDR_MAX;
}.

Lemma mrep_dom s M p x : mrep s M → M !! p = Some x → addr_dom (mref_key p).
Proof.
  intros Hr Hp. destruct (mr_addr _ _ Hr _ _ Hp) as [? _]. pose proof (mr_fresh _ _ Hr).
  unfold addr_dom, is_id, ADDR_MAX in *. simpl in *. lia.
Qed.

(** The table represents the counts [C] while the slot of [p] is locked. *)
Definition heldrep (p : ptr) (lk : lock_e) (s : st) (C : gmap ptr Z) : Prop :=
  tabrel (gMemRefTab s) C (locked (mslot (gMemRefTab s) p) lk (idles (len (gMemRefTab s)))).

Lemma mref_free h C L p lk : tabrel h C L → free_at (idles (len h)) (mslot h p) lk.
Proof. intros Ht. apply free_replicate. destruct Ht as (m & Hm & _). by eapply slot_lt. Qed.

(** A query of an address. *)
Lemma wp_mref_query s C p lk (Q : option mref_item_t → st → mem → Prop) ms :
  tabrel (gMemRefTab s) C (idles (len (gMemRefTab s))) → is_id p →
  (C !! p = None → ∀ s', tabrel (gMemRefTab s') C (idles (len (gMemRefTab s'))) → mblk s' = mblk s → Q None s' ms) →
  (∀ i c s', C !! p = Some c → item_rel i c → mi_addr i = p → mblk s' = mblk s →
     heldrep p lk s' C → Q (Some i) s' ms) →
  wp (mref_query p lk) Q s ms.
Proof.
  intros Ht Hp HN HS. unfold mref_query, on_tab. apply wp_zoom.
  eapply wp_mono; [apply (wp_rquery_key Ht); [done|apply (free_idles Ht)]|].
  intros o h' ms' (Hl & -> & Ho & Hk & Ht'). change (mi_addr (mref_key p)) with p in *.
  rewrite <-Hl in Ht'. destruct (C !! p) as [c|] eqn:Hc; inversion Ho as [i ? Hi|]; subst.
  - apply (HS i c); [done..|by apply Hk|done|done].
  - by apply HN.
Qed.

Lemma wp_mref_unlock s C p lk (Q : unit → st → mem → Prop) ms :
  heldrep p lk s C → is_id p →
  (∀ s', tabrel (gMemRefTab s') C (idles (len (gMemRefTab s'))) → mblk s' = mblk s → Q tt s' ms) →
  wp (mref_unlock p lk) Q s ms.
Proof.
  intros Ht Hp HQ. unfold mref_unlock, on_tab. apply wp_zoom.
  apply (wp_runlock Ht); [done|by eapply mref_free|]. intros h' Ht' Hl. apply HQ; [|done]. simpl. by rewrite Hl.
Qed.

Lemma wp_mref_count_add s C p n c (Q : Z → st → mem → Prop) ms :
  heldrep p RDLOCK s C → is_id p → C !! p = Some c → 0 ≤ c + n < 2 ^ 31 →
  (∀ s', heldrep p RDLOCK s' (<[p := c + n]> C) → mblk s' = mblk s → Q (c + n) s' ms) →
  wp (mref_count_add p n) Q s ms.
Proof.
  intros Ht Hp Hc Hn HQ. unfold mref_count_add. apply (wp_rwith (a := c) Ht); [done|done|].
  intros i [Hi Hir Hif] Hk Hd. change (mi_addr (mref_key p)) with p in *. wp_steps. simpl.
  rewrite Hi, u32_small, i32_small by lia.
  split_and!; [done|done|]. exists (c + n), (locked (mslot (gMemRefTab s) p) RDLOCK (idles (len (gMemRefTab s)))).
  split_and!; [by constructor|exact Ht|]. intros h' Ht' Hl. apply HQ; [|done].
  unfold heldrep. simpl. rewrite Hl. exact Ht'.
Qed.

(** *** The operations *)

Lemma mrep_id s M p x : mrep s M → M !! p = Some x → is_id p.
Proof. intros Hr Hp. exact (mrep_dom _ _ _ _ Hr Hp). Qed.

(** A count changes. *)
Lemma mrep_recount s s' M p c n n' :
  mrep s M → M !! p = Some (c, n) → 0 < n' →
  tabrel (gMemRefTab s') (<[p := n']> (snd <$> M)) (idles (len (gMemRefTab s'))) → mblk s' = mblk s →
  mrep s' (<[p := (c, n')]> M).
Proof.
  intros [Ht Hb Ha Hf] Hp Hn Ht' Hb'. constructor; rewrite ?Hb'; try done.
  - by rewrite fmap_insert.
  - rewrite fmap_insert, Hb. simpl. symmetry. apply insert_id. by rewrite lookup_fmap, Hp.
  - apply map_Forall_insert_2; [|done]. split; [|done]. by destruct (Ha _ _ Hp).
Qed.

Lemma wp_mref_inc s M p c n (Q : Z → st → mem → Prop) ms :
  mrep s M → M !! p = Some (c, n) → n + 1 < 2 ^ 31 →
  (∀ s', mrep s' (<[p := (c, n + 1)]> M) → fresh (mblk s') = fresh (mblk s) → Q (n + 1) s' ms) →
  wp (mref_inc p) Q s ms.
Proof.
  intros Hr Hp Hn HQ. pose proof (mrep_id _ _ _ _ Hr Hp) as Hid. destruct (mr_addr _ _ Hr _ _ Hp) as [_ Hpos].
  assert ((snd <$> M) !! p = Some n) as HC by (by rewrite lookup_fmap, Hp). simpl in Hpos.
  unfold mref_inc. wp_steps. apply (wp_mref_query _ _ _ _ _ _ (mr_tab _ _ Hr) Hid); [congruence|].
  intros i n0 s1 Hc Hi Ha Hb1 Ht1. rewrite HC in Hc. injection Hc as <-. wp_steps.
  eapply wp_mref_count_add; [done|done|exact HC|lia|]. intros s2 Ht2 Hb2. wp_steps.
  eapply wp_mref_unlock; [done|done|]. intros s3 Ht3 Hb3. wp_steps.
  apply HQ; [|congruence]. apply (mrep_recount s _ _ _ _ n); [done|done|lia|done|congruence].
Qed.

Lemma wp_free_block s pool p c (Q : unit → st → mem → Prop) ms :
  cell (mblk s) !! p = Some c → 0 < p →
  (∀ s', gMemRefTab s' = gMemRefTab s → mblk s' = del_cell p (mblk s) → Q tt s' ms) →
  wp (on_blk (mem_free pool p)) Q s ms.
Proof.
  intros Hp Hp0 HQ. unfold on_blk, mem_free. apply wp_zoom. rewrite (proj2 (Z.eqb_neq p NULL)) by (unfold NULL; lia).
  unfold hfree, hrd. wp_steps. rewrite Hp. cbn [deref]. wp_steps. by apply HQ.
Qed.

Lemma wp_mref_dec s M p c n (Q : Z → st → mem → Prop) ms :
  mrep s M → M !! p = Some (c, n) →
  (∀ s', mrep s' (if n =? 1 then delete p M else <[p := (c, n - 1)]> M) →
     fresh (mblk s') = fresh (mblk s) → Q (n - 1) s' ms) →
  wp (mref_dec p) Q s ms.
Proof.
  intros Hr Hp HQ. pose proof (mrep_id _ _ _ _ Hr Hp) as Hid. destruct (mr_addr _ _ Hr _ _ Hp) as [Hpa Hpos].
  assert ((snd <$> M) !! p = Some n) as HC by (by rewrite lookup_fmap, Hp). simpl in Hpos.
  unfold mref_dec. wp_steps. apply (wp_mref_query _ _ _ _ _ _ (mr_tab _ _ Hr) Hid); [congruence|].
  intros i n0 s1 Hc Hi Ha Hb1 Ht1. rewrite HC in Hc. injection Hc as <-. wp_steps.
  destruct Hi as [_ Hir _].
  eapply wp_mref_count_add; [done|done|exact HC|lia|]. intros s2 Ht2 Hb2. wp_steps.
  eapply wp_mref_unlock; [done|done|]. intros s3 Ht3 Hb3. cbn beta iota.
  change (n + -1) with (n - 1) in *.
  destruct (Z.eqb_spec 0 (n - 1)) as [Hz|Hz].
  - assert (n = 1) as -> by lia. change (1 =? 1) with true in HQ. wp_steps.
    apply (wp_mref_query _ _ _ _ _ _ Ht3 Hid); [by rewrite lookup_insert_eq|].
    intros i' n0 s4 Hc' Hi' Ha' Hb4 Ht4. rewrite lookup_insert_eq in Hc'. injection Hc' as <-. wp_steps.
    rewrite (ir_count _ _ Hi'). change (0 =? 1 - 1) with true. cbn beta iota. apply wp_bind. unfold on_tab. apply wp_zoom.
    eapply wp_mono; [apply (wp_rdelete Ht4); [done|apply (free_nonlock Ht4)]|].
    intros o h5 ms5 (Hl5 & -> & _ & _ & Ht5). cbn [mi_addr mref_key] in Ht5.
    rewrite delete_insert_eq in Ht5. apply wp_bind.
    apply (wp_mref_unlock (set_tab h5 s4) (delete p (snd <$> M))); [|done|].
    { unfold heldrep. simpl. rewrite Hl5. exact Ht5. }
    intros s6 Ht6 Hb6. apply wp_bind. rewrite (ir_free _ _ Hi'), Ha'. simpl in Hb6.
    assert (mblk s6 = mblk s) as Hb by congruence.
    apply (wp_free_block s6 _ p c); [rewrite Hb, (mr_blk _ _ Hr), lookup_fmap, Hp; done|lia|].
    intros s7 Ht7 Hb7. wp_steps. apply HQ; [|by rewrite Hb7, Hb]. rewrite Hb in Hb7. constructor.
    + rewrite Ht7, fmap_delete. exact Ht6.
    + rewrite Hb7. simpl. by rewrite (mr_blk _ _ Hr), fmap_delete.
    + rewrite Hb7. intros q x Hq. apply lookup_delete_Some in Hq as [_ Hq]. by apply (mr_addr _ _ Hr).
    + rewrite Hb7. apply Hr.
  - assert (n =? 1 = false) as Hn1 by lia. rewrite Hn1 in HQ. wp_steps.
    apply HQ; [|congruence]. apply (mrep_recount s _ _ _ _ n); [done|done|lia|done|congruence].
Qed.
(** A new block of zeros, with the count 1. *)
Lemma wp_mref_alloc s M size (Q : ptr → st → mem → Prop) :
  mrep s M → 0 < size → fresh (mblk s) < ADDR_MAX →
  (∀ p s', p = fresh (mblk s) → M !! p = None → fresh (mblk s') = fresh (mblk s) + 1 →
     mrep s' (<[p := (replicate (Z.to_nat size) 0, 1)]> M) → Q p s' []) →
  wp (mref_alloc size 0 mem_alloc mem_free) Q s [].
Proof.
  intros Hr Hs Hf HQ. pose proof Hr as [Ht Hb Ha [Hf0 _]].
  assert (M !! fresh (mblk s) = None) as HN.
  { destruct (M !! fresh (mblk s)) as [x|] eqn:Hx; [|done]. destruct (Ha _ _ Hx). lia. }
  unfold mref_alloc. rewrite (proj2 (Z.eqb_neq 0 size)) by lia. apply wp_bind.
  unfold on_blk, mem_alloc, halloc. apply wp_zoom. wp_steps. apply wp_malloc_nil. wp_steps. simpl.
  rewrite (proj2 (Z.eqb_neq (fresh (mblk s)) NULL)) by (unfold NULL; lia). apply wp_bind.
  set (s1 := set_blk _ s). assert (is_id (fresh (mblk s))) as Hid by (unfold is_id, ADDR_MAX in *; lia).
  unfold mref_add. apply wp_retry. apply wp_bind.
  apply (wp_mref_query s1 _ _ _ _ _ Ht Hid).
  2:{ intros i c s2 Hc. by rewrite lookup_fmap, HN in Hc. }
  intros _ s2 Ht2 Hb2. apply wp_bind, wp_malloc_nil. cbn [cassert]. apply wp_bind. wp_step. apply wp_bind.
  unfold on_tab. apply wp_zoom.
  eapply wp_mono; [apply (wp_rinsert Ht2 1); [exact Hid|by constructor|apply (free_idles Ht2)]|].
  intros r h3 ms3 (Hl3 & -> & Hr3). cbn [mi_addr] in Hr3. rewrite lookup_fmap, HN in Hr3. simpl in Hr3.
  destruct Hr3 as [-> Ht3]. change (TREE_OK =? 0) with true. cbn [negb]. wp_steps.
  apply HQ; [done|done|simpl; by rewrite Hb2|]. constructor; simpl; rewrite ?Hb2; simpl.
  - rewrite fmap_insert, Hl3. exact Ht3.
  - by rewrite fmap_insert, Hb.
  - apply map_Forall_insert_2; [simpl; lia|]. intros q x Hq. destruct (Ha _ _ Hq). split; [lia|done].
  - unfold ADDR_MAX in *. lia.
Qed.

Lemma wp_mref_check s M p (Q : Z → st → mem → Prop) ms :
  mrep s M → is_id p →
  (∀ s', mrep s' M → fresh (mblk s') = fresh (mblk s) → Q (default 0 (snd <$> M !! p)) s' ms) →
  wp (mref_check p) Q s ms.
Proof.
  intros Hr Hid HQ. unfold mref_check. apply wp_bind.
  apply (wp_mref_query _ _ _ _ _ _ (mr_tab _ _ Hr) Hid); rewrite lookup_fmap.
  - intros HC s1 Ht1 Hb1. wp_steps. destruct (M !! p) as [x|] eqn:Hp; [done|]. simpl in HQ.
    apply HQ; [|congruence]. destruct Hr. constructor; rewrite ?Hb1; done.
  - intros i c s1 HC Hi Ha Hb1 Ht1. destruct (M !! p) as [x|] eqn:Hp; simplify_eq/=. apply wp_bind.
    eapply wp_mref_unlock; [done|done|]. intros s2 Ht2 Hb2. wp_steps.
    rewrite (ir_count _ _ Hi), i32_small by (destruct Hi; lia).
    apply HQ; [|congruence]. destruct Hr. constructor; rewrite ?Hb2, ?Hb1; done.
Qed.

Lemma wp_blk_get s M p c n (Q : list Z → st → mem → Prop) ms :
  mrep s M → M !! p = Some (c, n) → Q c s ms → wp (blk_get p) Q s ms.
Proof.
  intros Hr Hp HQ. unfold blk_get, on_blk, hrd. apply wp_zoom. wp_steps.
  rewrite (mr_blk _ _ Hr), lookup_fmap, Hp. cbn [fmap option_fmap option_map deref]. wp_steps.
  by destruct s.
Qed.

Lemma wp_blk_set s M p c n f (Q : unit → st → mem → Prop) ms :
  mrep s M → M !! p = Some (c, n) →
  (∀ s', mrep s' (<[p := (f c, n)]> M) → fresh (mblk s') = fresh (mblk s) → Q tt s' ms) →
  wp (blk_set p f) Q s ms.
Proof.
  intros Hr Hp HQ. unfold blk_set, on_blk, hwr, hrd. apply wp_zoom. wp_steps.
  rewrite (mr_blk _ _ Hr), lookup_fmap, Hp. cbn [fmap option_fmap option_map deref]. wp_steps.
  apply HQ; [|done]. destruct Hr as [Ht Hb Ha Hf]. constructor; simpl; try done.
  - rewrite fmap_insert. simpl. rewrite insert_id; [done|]. by rewrite lookup_fmap, Hp.
  - by rewrite fmap_insert, Hb.
  - apply map_Forall_insert_2; [|done]. by destruct (Ha _ _ Hp).
Qed.

Lemma wp_mref_init b (Q : option st → unit → mem → Prop) :
  cell b = ∅ → 0 < fresh b ≤ ADDR_MAX →
  (∀ s, mrep s ∅ → mblk s = b → Q (Some s) tt []) → wp (mref_init b) Q tt [].
Proof.
  intros Hb Hf HQ. unfold mref_init. apply wp_bind.
  eapply wp_mono; [by apply (wp_rcreat mi_addr addr_dom mref_hash_cb mref_cmp_cb item_rel)|].
  intros r [] ms' (_ & -> & h & -> & Hl & Ht). wp_steps. simpl. apply HQ; [|done]. constructor; simpl.
  - by rewrite fmap_empty, Hl.
  - by rewrite fmap_empty.
  - done.
  - done.
Qed.
End Refine.

(** * Properties *)

(** ** Sequences of calls *)

Inductive mref_call := MAlloc (size : Z) | MInc (p : ptr) | MDec (p : ptr) | MCheck (p : ptr) | MWrite (p : ptr) (c : list Z) | MRead (p : ptr).

(** The live blocks, with their contents and counts, and the next address the
    allocator gives. *)
Record amref := AMref { am_live : gmap ptr (list Z * Z); am_next : ptr }.

Definition abs_mref_call (k : mref_call) (a : amref) : (Z + list Z) * amref :=
  let M := am_live a in
  match k with
  | MAlloc size => (inl (am_next a), AMref (<[am_next a := (replicate (Z.to_nat size) 0, 1)]> M) (am_next a + 1))
  | MInc p =>
      let x := default ([], 0) (M !! p) in (inl (x.2 + 1), AMref (<[p := (x.1, x.2 + 1)]> M) (am_next a))
  | MDec p =>
      let x := default ([], 0) (M !! p) in
      (inl (x.2 - 1), AMref (if x.2 =? 1 then delete p M else <[p := (x.1, x.2 - 1)]> M) (am_next a))
  | MCheck p => (inl (default 0 (snd <$> M !! p)), a)
  | MWrite p c => (inl 0, AMref (<[p := (c, default 0 (snd <$> M !! p))]> M) (am_next a))
  | MRead p => (inr (default [] (fst <$> M !! p)), a)
  end.

(** Only live blocks are counted, read and written. *)
Definition mref_call_ok (k : mref_call) (a : amref) : Prop :=
  match k with
  | MAlloc size => 0 < size ∧ am_next a < ADDR_MAX
  | MInc p => ∃ c n, am_live a !! p = Some (c, n) ∧ n + 1 < 2 ^ 31
  | MDec p | MWrite p _ | MRead p => is_Some (am_live a !! p)
  | MCheck p => is_id p
  end.

Section Props.
Context {T : Type → Type} `{TreeLaws T}.

Definition run_mref_call (k : mref_call) : SM (mref_st T) (Z + list Z) :=
  match k with
  | MAlloc size => p ← mref_alloc size 0 mem_alloc mem_free; mret (inl p)
  | MInc p => n ← mref_inc p; mret (inl n)
  | MDec p => n ← mref_dec p; mret (inl n)
  | MCheck p => n ← mref_check p; mret (inl n)
  | MWrite p c => blk_set p (λ _, c);; mret (inl 0)
  | MRead p => c ← blk_get p; mret (inr c)
  end.

Definition amref_rep (s : mref_st T) (a : amref) : Prop := mrep s (am_live a) ∧ fresh (mblk s) = am_next a.

Lemma wp_mref_call k s a : amref_rep s a → mref_call_ok k a →
  wp (run_mref_call k) (λ r s' ms', ms' = [] ∧ r = (abs_mref_call k a).1 ∧ amref_rep s' (abs_mref_call k a).2) s [].
Proof.
  intros [Hm Hf] Hok. destruct a as [M nx]. cbn [am_live am_next] in *.
  destruct k; cbn [run_mref_call abs_mref_call fst snd am_live am_next mref_call_ok] in *; apply wp_bind.
  - destruct Hok. eapply wp_mref_alloc; [exact Hm|done|lia|]. intros p s' -> _ Hf' Hm'. apply wp_ret.
    split_and!; [done|by rewrite Hf|]. split; cbn; [by rewrite Hf in Hm'|lia].
  - destruct Hok as (c & n & Hp & Hn). rewrite Hp. eapply wp_mref_inc; [exact Hm|exact Hp|done|]. intros s' Hm' Hf'.
    apply wp_ret. split_and!; [done|done|]. split; cbn; [done|lia].
  - destruct Hok as [[c n] Hp]. rewrite Hp. eapply wp_mref_dec; [exact Hm|exact Hp|]. intros s' Hm' Hf'.
    apply wp_ret. split_and!; [done|done|]. split; cbn; [done|lia].
  - eapply wp_mref_check; [exact Hm|exact Hok|]. intros s' Hm' Hf'. apply wp_ret. split_and!; [done|done|]. split; cbn; [done|lia].
  - destruct Hok as [[c' n] Hp]. rewrite Hp. eapply wp_blk_set; [exact Hm|exact Hp|]. intros s' Hm' Hf'.
    apply wp_ret. split_and!; [done|done|]. split; cbn; [done|lia].
  - destruct Hok as [[c' n] Hp]. rewrite Hp. eapply wp_blk_get; [exact Hm|exact Hp|]. apply wp_ret. by split_and!.
Qed.

(** C39: under any sequence of allocations, references taken and given back,
    reads and writes, a block lives exactly as long as its count is positive: it
    keeps its content as long as somebody refers to it, is released with the
    last reference, and an allocation never gives a block that lives. *)
Theorem mref_refines s a ks : amref_rep s a → ok_seq abs_mref_call mref_call_ok ks a →
  wp (run_seq run_mref_call ks) (λ rs s' ms', ms' = [] ∧ rs = (abs_seq abs_mref_call ks a).1 ∧
    amref_rep s' (abs_seq abs_mref_call ks a).2) s [].
Proof. intros Hr Hok. by apply (wp_run_seq_nil _ _ amref_rep mref_call_ok (λ k s a, wp_mref_call k s a)). Qed.

(** Taking or giving back a reference to a block already released (or never
    allocated) fails an assertion: it never touches the block. *)
Theorem mref_dead_asserts s M p ms : mrep s M → is_id p → M !! p = None →
  mref_inc p s ms = Crash ∧ mref_dec p s ms = Crash.
Proof.
  intros Hm Hp Hn.
  assert (wp (mref_query p RDLOCK) (λ r _ _, r = None) s ms) as Hq.
  { eapply (wp_mref_query _ (snd <$> M)); [apply (mr_tab _ _ Hm)|done|done|]. intros i c s' Hc. by rewrite lookup_fmap, Hn in Hc. }
  apply wp_elim in Hq as (r & s' & ms' & Hq & ->). unfold mref_inc, mref_dec. by rewrite !(bind_ok _ _ _ _ _ _ _ Hq).
Qed.
End Props.

Lemma mref_start : ∃ s : mref_st RbTree.rbt_tree_t, amref_rep s (AMref ∅ 1).
Proof.
  assert (wp (mref_init (T := RbTree.rbt_tree_t) empty_heap) (λ o _ _, ∃ s, o = Some s ∧ amref_rep s (AMref ∅ 1)) tt []) as Hi.
  { apply wp_mref_init; [done|cbn; unfold ADDR_MAX; lia|]. intros s Hs Hb. exists s. split; [done|]. split; [exact Hs|by rewrite Hb]. }
  apply wp_elim in Hi as (o & _ & _ & _ & s & -> & Hs). by exists s.
Qed.

Definition mref_calls : list mref_call :=
  [MAlloc 2; MInc 1; MWrite 1 [7; 8]; MAlloc 1; MDec 1; MRead 1; MDec 1; MCheck 1; MCheck 2].

Lemma mref_refines_witness : ∃ s : mref_st RbTree.rbt_tree_t,
  wp (run_seq run_mref_call mref_calls) (λ rs s' ms',
    rs = [inl 1; inl 2; inl 0; inl 2; inl 1; inr [7; 8]; inl 0; inl 0; inl 1] ∧ amref_rep s' (AMref {[ 2 := ([0], 1) ]} 3)) s [].
Proof.
  destruct mref_start as [s Hs]. exists s. pose proof (mref_refines s (AMref ∅ 1) mref_calls Hs) as Hw.
  assert (abs_seq abs_mref_call mref_calls (AMref ∅ 1) =
    ([inl 1; inl 2; inl 0; inl 2; inl 1; inr [7; 8]; inl 0; inl 0; inl 1], AMref {[ 2 := ([0], 1) ]} 3)) as E by (vm_compute; reflexivity).
  rewrite E in Hw. eapply wp_mono; [apply Hw|]; [|by intros ? ? ? (_ & ?)].
  repeat split; try done; by repeat eexists.
Defined.

Lemma mref_dead_asserts_witness : ∃ s : mref_st RbTree.rbt_tree_t, mref_inc 5 s [] = Crash ∧ mref_dec 5 s [] = Crash.
Proof. destruct mref_start as [s [Hs _]]. exists s. by apply (mref_dead_asserts s ∅ 5). Defined.
