(* ===== verification/Bytes.v ===== *)
(** Memory as bytes: 32-bit integers in the order of the host, which is
    little-endian, and of the network, and the header of the RTMQ messages
    ([incl/rtmq/rtmq_mesg.h]). *)
From S2P Require Import Prelude.
Open Scope Z_scope.

Definition is_byte (b : Z) : Prop := 0 ≤ b < 256.
Definition is_u32 (x : Z) : Prop := 0 ≤ x < 2 ^ 32.

(** ** Integers in memory *)

(** The four bytes of an [uint32_t] stored by a little-endian machine. *)
Definition store32 (x : Z) : list Z :=
  [x mod 256; (x / 2 ^ 8) mod 256; (x / 2 ^ 16) mod 256; (x / 2 ^ 24) mod 256].
Definition load32 (l : list Z) : Z :=
  match l with
  | [b0; b1; b2; b3] => b0 + b1 * 2 ^ 8 + b2 * 2 ^ 16 + b3 * 2 ^ 24
  | _ => 0
  end.

(** [ntohl] and [htonl]: the bytes in the reverse order. *)
Definition ntohl (x : Z) : Z := load32 (reverse (store32 x)).
Definition htonl : Z → Z := ntohl.

Lemma load_store32 x : is_u32 x → load32 (store32 x) = x.
Proof. unfold is_u32, load32, store32. intros. Z.to_euclidean_division_equations. lia. Qed.

Lemma store_load32 b0 b1 b2 b3 :
  is_byte b0 → is_byte b1 → is_byte b2 → is_byte b3 →
  store32 (load32 [b0; b1; b2; b3]) = [b0; b1; b2; b3].
Proof.
  unfold is_byte, load32, store32. intros.
  repeat f_equal; Z.to_euclidean_division_equations; lia.
Qed.

Lemma store32_bytes x : Forall is_byte (store32 x).
Proof. unfold store32, is_byte. repeat constructor; apply Z.mod_pos_bound; lia. Qed.

Lemma store_ntohl x : store32 (ntohl x) = reverse (store32 x).
Proof.
  unfold ntohl. pose proof (store32_bytes x) as H. unfold store32 in *.
  repeat (apply Forall_cons in H as [? H]). by apply store_load32.
Qed.

Lemma load32_u32 l : Forall is_byte l → is_u32 (load32 l).
Proof.
  unfold is_u32, is_byte. intros H. destruct l as [|b0 [|b1 [|b2 [|b3 [|]]]]]; simpl; try lia.
  repeat (apply Forall_cons in H as [? H]). lia.
Qed.

Lemma ntohl_u32 x : is_u32 (ntohl x).
Proof. apply load32_u32. rewrite reverse_Permutation. apply store32_bytes. Qed.

Lemma ntohl_ntohl x : is_u32 x → ntohl (ntohl x) = x.
Proof.
  intros Hx. unfold ntohl at 1. rewrite store_ntohl, reverse_involutive. by apply load_store32.
Qed.

(** ** Reading and writing a block *)

(** [len] bytes of [m] from [off]; [None] out of the block. *)
Definition rd_bytes (m : list Z) (off len : Z) : option (list Z) :=
  if decide (0 ≤ off ∧ 0 ≤ len ∧ off + len ≤ Z.of_nat (length m))
  then Some (take (Z.to_nat len) (drop (Z.to_nat off) m)) else None.
Definition wr_bytes (m : list Z) (off : Z) (bs : list Z) : option (list Z) :=
  if decide (0 ≤ off ∧ off + Z.of_nat (length bs) ≤ Z.of_nat (length m))
  then Some (take (Z.to_nat off) m ++ bs ++ drop (Z.to_nat off + length bs) m) else None.

Lemma rd_bytes_app l1 l2 l3 :
  rd_bytes (l1 ++ l2 ++ l3) (Z.of_nat (length l1)) (Z.of_nat (length l2)) = Some l2.
Proof.
  unfold rd_bytes. rewrite decide_True by (rewrite !length_app; lia).
  by rewrite !Nat2Z.id, drop_app_length, take_app_length.
Qed.

Lemma wr_bytes_app l1 l2 l3 bs :
  length bs = length l2 →
  wr_bytes (l1 ++ l2 ++ l3) (Z.of_nat (length l1)) bs = Some (l1 ++ bs ++ l3).
Proof.
  intros Hl. unfold wr_bytes. rewrite decide_True by (rewrite !length_app; lia).
  rewrite Nat2Z.id, take_app_length, Hl, <-drop_drop, drop_app_length, drop_app_length. done.
Qed.

(** ** The header *)

Record rtmq_header_t := Head { h_type : Z; h_nid : Z; h_flag : Z; h_length : Z; h_chksum : Z }.

#[global] Instance rtmq_header_eq_dec : EqDecision rtmq_header_t.
Proof. solve_decision. Defined.

Definition HEAD_SIZE : Z := 20.
Definition RTMQ_CHKSUM_VAL : Z := 0x1FE23DC4.
Definition RTMQ_SYS_MESG : Z := 0.
Definition RTMQ_EXP_MESG : Z := 1.

(** A header in memory, as the host reads and writes it. *)
Definition put_head (h : rtmq_header_t) : list Z :=
  store32 (h_type h) ++ store32 (h_nid h) ++ store32 (h_flag h) ++ store32 (h_length h) ++ store32 (h_chksum h).
Definition get_head (l : list Z) : rtmq_header_t :=
  Head (load32 (take 4 l)) (load32 (take 4 (drop 4 l))) (load32 (take 4 (drop 8 l)))
       (load32 (take 4 (drop 12 l))) (load32 (take 4 (drop 16 l))).

Definition RTMQ_HEAD_NTOH (h : rtmq_header_t) : rtmq_header_t :=
  Head (ntohl (h_type h)) (ntohl (h_nid h)) (ntohl (h_flag h)) (ntohl (h_length h)) (ntohl (h_chksum h)).
Definition RTMQ_HEAD_HTON : rtmq_header_t → rtmq_header_t := RTMQ_HEAD_NTOH.

Definition RTMQ_HEAD_ISVALID (h : rtmq_header_t) : bool := RTMQ_CHKSUM_VAL =? h_chksum h.
(** An [uint32_t] plus a [size_t]. *)
Definition RTMQ_DATA_TOTAL_LEN (h : rtmq_header_t) : Z := h_length h + HEAD_SIZE.

Definition head_ok (h : rtmq_header_t) : Prop :=
  is_u32 (h_type h) ∧ is_u32 (h_nid h) ∧ is_u32 (h_flag h) ∧ is_u32 (h_length h) ∧ is_u32 (h_chksum h).

Lemma put_head_length h : length (put_head h) = 20%nat.
Proof. done. Qed.

Lemma get_put_head h l : head_ok h → get_head (put_head h ++ l) = h.
Proof.
  intros (?&?&?&?&?). destruct h. unfold get_head, put_head. cbn [store32 app take drop h_type h_nid h_flag h_length h_chksum] in *.
  f_equal; by apply load_store32.
Qed.

(** A header of the host survives the trip to the network order and back. *)
Lemma ntoh_hton h : head_ok h → RTMQ_HEAD_NTOH (RTMQ_HEAD_HTON h) = h.
Proof. intros (?&?&?&?&?). destruct h. unfold RTMQ_HEAD_HTON, RTMQ_HEAD_NTOH. simpl in *. by rewrite !ntohl_ntohl. Qed.

Lemma hton_ok h : head_ok (RTMQ_HEAD_HTON h).
Proof. split_and!; apply ntohl_u32. Qed.

(** ** Messages *)

Record mesg := Mesg { m_head : rtmq_header_t; m_body : list Z }.

(** A message in the memory of the host, and as it travels. *)
Definition host (m : mesg) : list Z := put_head (m_head m) ++ m_body m.
Definition wire (m : mesg) : list Z := put_head (RTMQ_HEAD_HTON (m_head m)) ++ m_body m.

(** A message that fits in a buffer of [size] bytes. *)
Record mesg_ok (size : Z) (m : mesg) : Prop := {
  mo_head : head_ok (m_head m);
  mo_chksum : h_chksum (m_head m) = RTMQ_CHKSUM_VAL;
  mo_length : h_length (m_head m) = Z.of_nat (length (m_body m));
  mo_fits : HEAD_SIZE + h_length (m_head m) ≤ size;
}.

Lemma length_host m : length (host m) = (20 + length (m_body m))%nat.
Proof. unfold host. by rewrite length_app, put_head_length. Qed.
Lemma length_wire m : length (wire m) = (20 + length (m_body m))%nat.
Proof. unfold wire. by rewrite length_app, put_head_length. Qed.

(** The beginning of a message, without its end. *)
Definition partial (size : Z) (r : list Z) : Prop :=
  ∃ m k, mesg_ok size m ∧ wire m = r ++ k ∧ k ≠ [].

Definition wires (ms : list mesg) : list Z := concat (wire <$> ms).

Lemma wires_app ms1 ms2 : wires (ms1 ++ ms2) = wires ms1 ++ wires ms2.
Proof. unfold wires. by rewrite fmap_app, concat_app. Qed.

Lemma partial_nil size : HEAD_SIZE ≤ size → partial size [].
Proof.
  intros Hs. exists (Mesg (Head 0 0 0 0 RTMQ_CHKSUM_VAL) []), (wire (Mesg (Head 0 0 0 0 RTMQ_CHKSUM_VAL) [])).
  split; [|split; [done|by vm_compute]]. by constructor.
Qed.

Lemma partial_length size r : partial size r → Z.of_nat (length r) < size.
Proof.
  intros (m & k & Hm & Hw & Hk). apply (f_equal length) in Hw. rewrite length_wire, length_app in Hw.
  pose proof (mo_fits _ _ Hm). rewrite (mo_length _ _ Hm) in *. unfold HEAD_SIZE in *.
  destruct k; [done|]. simpl in *. lia.
Qed.

(** Cutting a stream of messages anywhere cuts it into messages and a partial
    one, from which the rest of the stream goes on. *)
Lemma split_stream size ms r : Forall (mesg_ok size) ms → partial size r →
  ∀ D1 D2, D1 ++ D2 = wires ms ++ r →
  ∃ ms1 ms2 r1, ms = ms1 ++ ms2 ∧ D1 = wires ms1 ++ r1 ∧ partial size r1 ∧ r1 ++ D2 = wires ms2 ++ r.
Proof.
  intros Hms Hr. induction Hms as [|m ms Hm Hms IH]; intros D1 D2 HD.
  - simpl in HD. exists [], [], D1. split_and!; [done|done| |done].
    destruct Hr as (m & k & Hm & Hw & Hk). exists m, (D2 ++ k).
    split; [done|]. rewrite app_assoc, HD. split; [done|]. by destruct D2.
  - unfold wires in HD. cbn [fmap list_fmap concat] in HD. rewrite <-app_assoc in HD.
    destruct (decide (length D1 < length (wire m))%nat) as [Hlt|Hge].
    + exists [], (m :: ms), D1. split_and!; [done|done| |by rewrite HD; unfold wires; simpl; rewrite <-app_assoc].
      exists m, (drop (length D1) (wire m)). split; [done|].
      assert (D1 = take (length D1) (wire m)) as HD1.
      { rewrite <-(take_app_le (wire m) (concat (wire <$> ms) ++ r)) by lia. by rewrite <-HD, take_app_length. }
      split; [by rewrite HD1 at 1; rewrite take_drop|].
      intros Hn. apply (f_equal length) in Hn. rewrite length_drop in Hn. change (length (@nil Z)) with 0%nat in Hn. lia.
    + assert (D1 = wire m ++ drop (length (wire m)) D1) as HD1.
      { rewrite <-(take_drop (length (wire m)) D1) at 1. f_equal.
        rewrite <-(take_app_le D1 D2) by lia. by rewrite HD, take_app_length. }
      set (D1' := drop (length (wire m)) D1) in *. rewrite HD1, <-app_assoc in HD.
      apply app_inv_head in HD. destruct (IH _ _ HD) as (ms1 & ms2 & r1 & -> & HD1' & Hr1 & H2).
      exists (m :: ms1), ms2, r1. split_and!; [done| |done|done].
      rewrite HD1, HD1'. unfold wires. simpl. by rewrite <-app_assoc.
Qed.

(** A partial message holds no message. *)
Lemma partial_wires size r0 ms r : partial size r0 → Forall (mesg_ok size) ms → r0 = wires ms ++ r → ms = [].
Proof.
  intros (m' & k & Hm' & Hw & Hk) Hms ->. destruct ms as [|m ms]; [done|]. exfalso.
  apply Forall_cons in Hms as [Hm _]. unfold wires in Hw. cbn [fmap list_fmap concat] in Hw. rewrite <-!app_assoc in Hw.
  pose proof (f_equal get_head Hw) as Hg. unfold wire in Hg. rewrite <-app_assoc, !get_put_head in Hg by apply hton_ok.
  apply (f_equal RTMQ_HEAD_NTOH) in Hg. rewrite !ntoh_hton in Hg by (by apply mo_head with size).
  apply (f_equal length) in Hw. rewrite !length_app, !length_wire in Hw.
  pose proof (mo_length _ _ Hm). pose proof (mo_length _ _ Hm'). rewrite Hg in *. destruct k; [done|]. simpl in *. lia.
Qed.
