(* ===== verification/RtmqRecv.v ===== *)
(** The receive side of an RTMQ connection of the server
    ([lib/rtmq/server/rtmq_rsvr.c]): the buffer in which the stream of the socket
    is cut into messages, handed to the message handlers where they lie, and
    replaced once full.  The handlers are an interface: [RtmqRsvr] implements
    it. *)
From stdpp Require Import gmap.
From S2P Require Import Prelude Heap Table HashTab TabRel Mref Bytes.
Open Scope Z_scope.

(** [rtmq_snap_t]: [end], [optr] and [iptr] are offsets in the block [base]. *)
Record rtmq_snap_t := Snap { base : ptr; end_ : Z; size : Z; optr : Z; iptr : Z }.
Definition rtmq_snap_setup (addr sz : Z) : rtmq_snap_t := Snap addr sz sz 0 0.
Definition add_iptr (n : Z) (r : rtmq_snap_t) : rtmq_snap_t :=
  Snap (base r) (end_ r) (size r) (optr r) (iptr r + n).
Definition add_optr (n : Z) (r : rtmq_snap_t) : rtmq_snap_t :=
  Snap (base r) (end_ r) (size r) (optr r + n) (iptr r).

Definition RTMQ_BUFF_SIZE : Z := 5 * 1024 * 1024.

Definition RTMQ_OK : Z := 0.
Definition RTMQ_SCK_DISCONN : Z := 4.
Definition RTMQ_ERR : Z := - 2 ^ 31.

Definition EINTR : Z := 4.
Definition EAGAIN : Z := 11.

(** What the next reads of the socket give: data, in the pieces the network
    makes, the end of the stream, or an error.  Nothing left is [EAGAIN]. *)
Inductive rd_ev := RdData (bs : list Z) | RdEof | RdErr (errno : Z).

(** The message handlers: they take the address of a message, whose header is in
    the order of the host, as a block and an offset. *)
Class RecvHandlers (T : Type → Type) (H : Type) := {
  sys_mesg_proc : ptr → Z → SM (mref_st T * H) Z;
  exp_mesg_proc : ptr → Z → SM (mref_st T * H) Z;
}.

Section Ops.
Context {T : Type → Type} `{TreeOps T} {HS : Type} `{!RecvHandlers T HS}.

(** A connection: the memory, its receive buffer, its socket, the count of bad
  headers and the state of the handlers. *)
Record conn_st := ConnSt {
  cmem : mref_st T; crecv : rtmq_snap_t; csock : list rd_ev; cerr : Z; chdl : HS }.
Definition set_cmem m (c : conn_st) : conn_st := ConnSt m (crecv c) (csock c) (cerr c) (chdl c).
Definition set_crecv r (c : conn_st) : conn_st := ConnSt (cmem c) r (csock c) (cerr c) (chdl c).
Definition set_csock e (c : conn_st) : conn_st := ConnSt (cmem c) (crecv c) e (cerr c) (chdl c).
Definition set_cerr n (c : conn_st) : conn_st := ConnSt (cmem c) (crecv c) (csock c) n (chdl c).
Definition on_mem {A} : SM (mref_st T) A → SM conn_st A := zoom cmem set_cmem.
Definition on_hdl {A} : SM (mref_st T * HS) A → SM conn_st A :=
  zoom (λ c, (cmem c, chdl c)) (λ x c, ConnSt (fst x) (crecv c) (csock c) (cerr c) (snd x)).

(** Reads and writes in a block. *)
Definition blk_rd (p : ptr) (off len : Z) : SM (mref_st T) (list Z) :=
  c ← blk_get p; deref (rd_bytes c off len).
Definition blk_wr (p : ptr) (off : Z) (bs : list Z) : SM (mref_st T) unit :=
  c ← blk_get p;
  c' ← deref (wr_bytes c off bs);
  blk_set p (λ _, c').
Definition rd_head (p : ptr) (off : Z) : SM (mref_st T) rtmq_header_t :=
  l ← blk_rd p off HEAD_SIZE; mret (get_head l).
Definition wr_head (p : ptr) (off : Z) (h : rtmq_header_t) : SM (mref_st T) unit :=
  blk_wr p off (put_head h).

(** [read(fd, iptr, left)]: the count, or -1, and [errno]. *)
Definition sck_read (left : Z) : SM conn_st (Z * Z) :=
  c ← get;
  match csock c with
  | [] => mret (-1, EAGAIN)
  | RdErr e :: evs => put (set_csock evs c);; mret (-1, e)
  | RdEof :: _ => mret (0, 0)
  | RdData bs :: evs =>
      let n := Z.min (u64 left) (Z.of_nat (length bs)) in
      let bs' := drop (Z.to_nat n) bs in
      on_mem (blk_wr (base (crecv c)) (iptr (crecv c)) (take (Z.to_nat n) bs));;
      modify (set_csock (if decide (bs' = []) then evs else RdData bs' :: evs));;
      mret (n, 0)
  end.

Definition rtmq_rsvr_alloc_recv_buff : SM conn_st Z :=
  addr ← on_mem (mref_alloc RTMQ_BUFF_SIZE 0 mem_alloc mem_free);
  if addr =? NULL then mret RTMQ_ERR else
  modify (set_crecv (rtmq_snap_setup addr RTMQ_BUFF_SIZE));;
  mret RTMQ_OK.

Definition rtmq_rsvr_switch_recv_buff : SM conn_st Z :=
  old ← gets crecv;
  let len := iptr old - optr old in
  ret ← rtmq_rsvr_alloc_recv_buff;
  if negb (ret =? 0) then mret RTMQ_ERR else
  curr ← gets crecv;
  bs ← on_mem (blk_rd (base old) (optr old) len);
  on_mem (blk_wr (base curr) (optr curr) bs);;
  modify (set_crecv (add_iptr len curr));;
  on_mem (mref_dec (base old));;
  mret RTMQ_OK.

(** One message: [inl] goes on with the next one. *)
Definition data_proc_step : SM conn_st (unit + Z) :=
  curr ← gets crecv;
  let len := u32 (iptr curr - optr curr) in
  flag ← (if len >=? HEAD_SIZE then
            head ← on_mem (rd_head (base curr) (optr curr));
            if negb (RTMQ_CHKSUM_VAL =? ntohl (h_chksum head)) then crash else
            let one_mesg_len := u32 (HEAD_SIZE + ntohl (h_length head)) in
            mret (if len >=? one_mesg_len then Some one_mesg_len else None)
          else mret None);
  match flag with
  | None =>
      if iptr curr =? end_ curr then
        if optr curr <? end_ curr - iptr curr then mret (inr RTMQ_ERR)
        else ret ← rtmq_rsvr_switch_recv_buff; mret (inr ret)
      else mret (inr RTMQ_OK)
  | Some one_mesg_len =>
      head ← on_mem (rd_head (base curr) (optr curr));
      let head := RTMQ_HEAD_NTOH head in
      on_mem (wr_head (base curr) (optr curr) head);;
      if negb (RTMQ_HEAD_ISVALID head) then
        modify (λ c, set_cerr (u64 (cerr c + 1)) c);; mret (inr RTMQ_ERR)
      else
        ret ← (if RTMQ_SYS_MESG =? h_flag head
               then on_hdl (sys_mesg_proc (base curr) (optr curr))
               else on_hdl (exp_mesg_proc (base curr) (optr curr));; mret 0);
        if negb (ret =? 0) then mret (inr RTMQ_ERR) else
        modify (λ c, set_crecv (add_optr one_mesg_len (crecv c)) c);;
        mret (inl tt)
  end.

(** A message takes a byte at least: the fuel is the number of bytes. *)
Definition rtmq_rsvr_data_proc : SM conn_st Z :=
  curr ← gets crecv;
  loop (2 + Z.to_nat (iptr curr - optr curr)) (λ _, data_proc_step) tt.

Definition recv_step : SM conn_st (unit + Z) :=
  recv ← gets crecv;
  let left := i32 (end_ recv - iptr recv) in
  x ← sck_read left;
  let '(n, errno) := x in
  if n >? 0 then
    modify (λ c, set_crecv (add_iptr n (crecv c)) c);;
    ret ← rtmq_rsvr_data_proc;
    mret (if negb (ret =? 0) then inr RTMQ_ERR else inl tt)
  else if n =? 0 then mret (inr RTMQ_SCK_DISCONN)
  else if errno =? EAGAIN then mret (inr RTMQ_OK)
  else if errno =? EINTR then mret (inl tt)
  else mret (inr RTMQ_ERR).

(** Every turn of the loop but the last uses an event or a byte of one. *)
Fixpoint sock_size (evs : list rd_ev) : nat :=
  match evs with
  | [] => O
  | RdData bs :: evs => S (length bs) + sock_size evs
  | _ :: evs => S (sock_size evs)
  end.

Definition rtmq_rsvr_recv_proc : SM conn_st Z :=
  evs ← gets csock;
  loop (S (sock_size evs)) (λ _, recv_step) tt.
End Ops.
Arguments conn_st : clear implicits.
