(* ===== verification/RtmqMem.v ===== *)
(** The memory the connections of a receive thread share: blocks with a count,
    the references that make the counts, and the receive buffers, of which each
    reference protects a part.  The invariant is that of [Mref] with its owners
    told apart. *)
From stdpp Require Import fin_maps gmap.
From S2P Require Import Prelude Heap Mref Bytes.
Open Scope Z_scope.

(** ** References *)

(** A reference to a block, with the bytes it protects and their offset; a sole
    one holds the whole block. *)
Record href := Href { r_blk : ptr; r_off : Z; r_img : list Z; r_sole : bool }.
Definition r_end (x : href) : Z := r_off x + Z.of_nat (length (r_img x)).

Definition occ (p : ptr) (refs : list href) : nat := length (filter (λ x, r_blk x = p) refs).

Lemma occ_cons p x refs : occ p (x :: refs) = ((if decide (r_blk x = p) then 1 else 0) + occ p refs)%nat.
Proof. unfold occ. rewrite filter_cons. by case_decide. Qed.

Lemma occ_app p refs1 refs2 : occ p (refs1 ++ refs2) = (occ p refs1 + occ p refs2)%nat.
Proof. unfold occ. by rewrite filter_app, length_app. Qed.

Lemma occ_0 p refs : occ p refs = 0%nat → Forall (λ x, r_blk x ≠ p) refs.
Proof.
  induction refs as [|x refs IH]; [constructor|]. rewrite occ_cons. case_decide; [lia|].
  constructor; [done|]. by apply IH.
Qed.

#[export] Instance occ_perm p : Proper ((≡ₚ) ==> eq) (occ p).
Proof. intros l l' Hl. unfold occ. by rewrite Hl. Qed.

Lemma occ_pos x refs : x ∈ refs → (0 < occ (r_blk x) refs)%nat.
Proof.
  intros Hx. pose proof (elem_of_Permutation refs x) as [Hp _]. destruct (Hp Hx) as [l ->].
  rewrite occ_cons, decide_True by done. lia.
Qed.

(** The blocks, each with its bytes and its count; the receive buffers, each with
    its bytes and the limit of those that are referred to. *)
Abbreviation mmap := (gmap ptr (list Z * Z)).
Abbreviation bmap := (gmap ptr (list Z * Z)).
Implicit Types (M : mmap) (B : bmap) (refs : list href).

Definition held B (p : ptr) : Z := match B !! p with Some _ => 1 | None => 0 end.

Lemma held_in B p x : B !! p = Some x → held B p = 1.
Proof. unfold held. by intros ->. Qed.
Lemma held_out B p : B !! p = None → held B p = 0.
Proof. unfold held. by intros ->. Qed.
Lemma held_bound B p : 0 ≤ held B p ≤ 1.
Proof. unfold held. case_match; lia. Qed.
Lemma held_insert B b x p : held (<[b := x]> B) p = if decide (p = b) then 1 else held B p.
Proof. unfold held. case_decide as Hp; [by rewrite Hp, lookup_insert_eq|by rewrite lookup_insert_ne]. Qed.
Lemma held_delete B b p : held (delete b B) p = if decide (p = b) then 0 else held B p.
Proof. unfold held. case_decide as Hp; [by rewrite Hp, lookup_delete_eq|by rewrite lookup_delete_ne]. Qed.

Definition ref_ok B M (x : href) : Prop :=
  ∃ c n, M !! r_blk x = Some (c, n) ∧ rd_bytes c (r_off x) (Z.of_nat (length (r_img x))) = Some (r_img x) ∧
    (∀ b l, B !! r_blk x = Some (b, l) → r_end x ≤ l) ∧ (r_sole x = true → c = r_img x ∧ n = 1).

(** The counts are those of the references, plus one for each buffer, whose bytes
    from the limit on nobody refers to. *)
Record minv B M refs : Prop := {
  mi_count : ∀ p, default 0 (snd <$> M !! p) = Z.of_nat (occ p refs) + held B p;
  mi_img : Forall (ref_ok B M) refs;
  mi_buf : ∀ b c l, B !! b = Some (c, l) → (∃ n, M !! b = Some (c, n)) ∧ 20 * Z.of_nat (occ b refs) ≤ l;
}.

Lemma minv_empty : minv ∅ ∅ [].
Proof. constructor; [intros p; by rewrite lookup_empty|constructor|intros b c l; by rewrite lookup_empty]. Qed.

Lemma minv_perm B M refs refs' : refs ≡ₚ refs' → minv B M refs → minv B M refs'.
Proof.
  intros Hp [H1 H2 H3]. constructor; [intros p; by rewrite <-Hp|by rewrite <-Hp|].
  intros b c l Hb. rewrite <-Hp. by apply H3.
Qed.

Section Laws.
Context {B : bmap} {M : mmap} {refs : list href}.
Hypothesis Hinv : minv B M refs.

(** A block that is not there is referred to by nobody. *)
Lemma minv_none p : M !! p = None → occ p refs = 0%nat ∧ B !! p = None.
Proof.
  intros Hp. pose proof (mi_count _ _ _ Hinv p) as Hc. rewrite Hp in Hc. cbn in Hc. pose proof (held_bound B p).
  split; [lia|]. unfold held in *. destruct (B !! p); [lia|done].
Qed.

Lemma minv_buf_in b c l : B !! b = Some (c, l) → ∃ n, M !! b = Some (c, n) ∧ n = Z.of_nat (occ b refs) + 1 ∧ 20 * (n - 1) ≤ l.
Proof.
  intros Hb. destruct (mi_buf _ _ _ Hinv _ _ _ Hb) as [(n & Hn) Hl]. exists n. split; [done|].
  pose proof (mi_count _ _ _ Hinv b) as Hc. rewrite Hn, (held_in _ _ _ Hb) in Hc. cbn in Hc. lia.
Qed.

(** A sole reference is the only one, and its block is not a buffer. *)
Lemma minv_sole x : x ∈ refs → r_sole x = true → M !! r_blk x = Some (r_img x, 1) ∧ occ (r_blk x) refs = 1%nat ∧ B !! r_blk x = None.
Proof.
  intros Hx Hs. pose proof (mi_img _ _ _ Hinv) as Hi. rewrite Forall_forall in Hi.
  destruct (Hi _ Hx) as (c & n & Hc & _ & _ & Hown). destruct (Hown Hs) as [-> ->]. split; [done|].
  pose proof (mi_count _ _ _ Hinv (r_blk x)) as Hn. rewrite Hc in Hn. cbn in Hn. pose proof (occ_pos _ _ Hx).
  pose proof (held_bound B (r_blk x)). split; [lia|]. unfold held in *. destruct (B !! r_blk x); [lia|done].
Qed.

(** The bytes of a buffer beyond the limit change. *)
Lemma minv_content b c n l c' :
  B !! b = Some (c, l) → M !! b = Some (c, n) →
  (∀ o i, o + Z.of_nat (length i) ≤ l → rd_bytes c o (Z.of_nat (length i)) = Some i → rd_bytes c' o (Z.of_nat (length i)) = Some i) →
  minv (<[b := (c', l)]> B) (<[b := (c', n)]> M) refs.
Proof.
  intros Hb Hm Hc. pose proof Hinv as [H1 H2 H3]. constructor.
  - intros p. rewrite held_insert. specialize (H1 p). case_decide as Hp.
    + rewrite Hp, lookup_insert_eq. rewrite Hp, Hm, (held_in _ _ _ Hb) in H1. done.
    + by rewrite lookup_insert_ne.
  - rewrite Forall_forall in H2 |- *. intros x Hx. destruct (H2 _ Hx) as (c1 & n1 & Hp & Hr & Hl & Hs).
    destruct (decide (r_blk x = b)) as [Heq|Hne].
    + exists c', n. rewrite Heq in *. rewrite Hm in Hp. injection Hp as <- <-. rewrite lookup_insert_eq. specialize (Hl _ _ Hb).
      split_and!; [done|by apply Hc|intros b0 l0; rewrite lookup_insert_eq; by intros [= <- <-]|].
      intros Hown. destruct (minv_sole x Hx Hown) as (_ & _ & Hno). congruence.
    + exists c1, n1. rewrite lookup_insert_ne by done. split_and!; [done|done| |done]. intros b0 l0. rewrite lookup_insert_ne by done. apply Hl.
  - intros b0 c0 l0. destruct (decide (b0 = b)) as [->|Hne].
    + rewrite !lookup_insert_eq. intros [= <- <-]. split; [by exists n|]. by destruct (H3 _ _ _ Hb).
    + rewrite !lookup_insert_ne by done. apply H3.
Qed.

(** The limit of a buffer goes up. *)
Lemma minv_lim b c l l' : B !! b = Some (c, l) → l ≤ l' → minv (<[b := (c, l')]> B) M refs.
Proof.
  intros Hb Hl. pose proof Hinv as [H1 H2 H3]. constructor.
  - intros p. rewrite held_insert, H1. case_decide as Hp; [by rewrite Hp, (held_in _ _ _ Hb)|done].
  - eapply Forall_impl; [exact H2|]. intros x (c1 & n1 & Hp & Hr & Hx & Hs). exists c1, n1. split_and!; [done|done| |done].
    intros b0 l0. destruct (decide (b = r_blk x)) as [->|Hne]; [|rewrite lookup_insert_ne by done; apply Hx].
    rewrite lookup_insert_eq. intros [= <- <-]. specialize (Hx _ _ Hb). lia.
  - intros b0 c0 l0. destruct (decide (b0 = b)) as [->|Hne]; [|rewrite lookup_insert_ne by done; apply H3].
    rewrite lookup_insert_eq. intros [= <- <-]. destruct (H3 _ _ _ Hb) as [? ?]. split; [done|lia].
Qed.

(** A reference to the bytes of a buffer from its limit on. *)
Lemma minv_take b c n l x :
  B !! b = Some (c, l) → M !! b = Some (c, n) → rd_bytes c l (Z.of_nat (length x)) = Some x → (20 ≤ length x)%nat →
  minv (<[b := (c, l + Z.of_nat (length x))]> B) (<[b := (c, n + 1)]> M) (Href b l x false :: refs).
Proof.
  intros Hb Hm Hx Hlx. pose proof Hinv as [H1 H2 H3].
  assert (∀ y, y ∈ refs → ref_ok (<[b := (c, l + Z.of_nat (length x))]> B) (<[b := (c, n + 1)]> M) y) as Hold.
  { rewrite Forall_forall in H2. intros y Hy. destruct (H2 _ Hy) as (cy & ny & Hp & Hr & Hl & Hs).
    destruct (decide (r_blk y = b)) as [Heq|Hne].
    - exists c, (n + 1). rewrite Heq in *. rewrite Hm in Hp. injection Hp as <- <-. rewrite lookup_insert_eq. specialize (Hl _ _ Hb).
      split_and!; [done|done|intros b0 l0; rewrite lookup_insert_eq; intros [= <- <-]; lia|].
      intros Hown. destruct (minv_sole y Hy Hown) as (_ & _ & Hno). congruence.
    - exists cy, ny. rewrite lookup_insert_ne by done. split_and!; [done|done| |done]. intros b0 l0. rewrite lookup_insert_ne by done. apply Hl. }
  constructor.
  - intros p. rewrite occ_cons, held_insert. cbn [r_blk]. specialize (H1 p). destruct (decide (p = b)) as [Hp|Hp].
    + rewrite Hp in H1 |- *. rewrite lookup_insert_eq, decide_True by done. rewrite Hm, (held_in _ _ _ Hb) in H1. cbn in *. lia.
    + rewrite lookup_insert_ne by done. rewrite decide_False by congruence. cbn. lia.
  - constructor; [|by apply Forall_forall]. exists c, (n + 1). cbn [r_blk r_off r_img r_sole]. rewrite lookup_insert_eq.
    split_and!; [done|done| |done]. intros b0 l0. rewrite lookup_insert_eq. intros [= <- <-]. done.
  - intros b0 c0 l0. rewrite occ_cons. cbn [r_blk]. destruct (decide (b0 = b)) as [->|Hne].
    + rewrite !lookup_insert_eq, decide_True by done. intros [= <- <-]. split; [by exists (n + 1)|]. destruct (H3 _ _ _ Hb). lia.
    + rewrite !lookup_insert_ne, decide_False by congruence. apply H3.
Qed.

(** A new block, with a sole reference. *)
Lemma minv_new p x : M !! p = None → minv B (<[p := (x, 1)]> M) (Href p 0 x true :: refs).
Proof.
  intros Hp. destruct (minv_none _ Hp) as [Ho Hb]. pose proof Hinv as [H1 H2 H3]. constructor.
  - intros q. rewrite occ_cons. cbn [r_blk]. destruct (decide (p = q)) as [<-|Hne].
    + rewrite lookup_insert_eq, Ho, (held_out _ _ Hb). done.
    + rewrite lookup_insert_ne by done. apply H1.
  - constructor.
    + exists x, 1. cbn [r_blk r_off r_img r_sole]. rewrite lookup_insert_eq. split_and!; [done| |by rewrite Hb|done].
      pose proof (rd_bytes_app [] x []) as Hr. by rewrite app_nil_r in Hr.
    + apply occ_0 in Ho. rewrite Forall_forall in H2, Ho |- *. intros y Hy. destruct (H2 _ Hy) as (c & n & Hc & ?).
      exists c, n. specialize (Ho _ Hy). by rewrite lookup_insert_ne.
  - intros b c l Hbl. rewrite occ_cons. cbn [r_blk]. assert (p ≠ b) as Hne by congruence.
    rewrite lookup_insert_ne, decide_False by done. by apply H3.
Qed.

(** A new buffer. *)
Lemma minv_new_buf p x : M !! p = None → minv (<[p := (x, 0)]> B) (<[p := (x, 1)]> M) refs.
Proof.
  intros Hp. destruct (minv_none _ Hp) as [Ho Hb]. pose proof Hinv as [H1 H2 H3]. constructor.
  - intros q. rewrite held_insert. case_decide as Hq; [by rewrite Hq, lookup_insert_eq, Ho|by rewrite lookup_insert_ne].
  - apply occ_0 in Ho. rewrite Forall_forall in H2, Ho |- *. intros y Hy. destruct (H2 _ Hy) as (c & n & Hc & Hr & Hl & Hs).
    specialize (Ho _ Hy). exists c, n. rewrite !lookup_insert_ne by done. done.
  - intros b c l. destruct (decide (b = p)) as [->|Hne].
    + rewrite !lookup_insert_eq, Ho. intros [= <- <-]. split; [by exists 1|lia].
    + rewrite !lookup_insert_ne by done. apply H3.
Qed.

(** A count of the block [p] is given back. *)
Definition given_back (p : ptr) (c : list Z) (n : Z) : mmap := if n =? 1 then delete p M else <[p := (c, n - 1)]> M.

Lemma given_back_ne p c n q : q ≠ p → given_back p c n !! q = M !! q.
Proof. intros Hq. unfold given_back. case_match; [by rewrite lookup_delete_ne|by rewrite lookup_insert_ne]. Qed.
Lemma given_back_eq p c n : given_back p c n !! p = if n =? 1 then None else Some (c, n - 1).
Proof. unfold given_back. case_match; [by rewrite lookup_delete_eq|by rewrite lookup_insert_eq]. Qed.

(** A buffer is given up; what refers to it stays. *)
Lemma minv_drop_buf b c n l : B !! b = Some (c, l) → M !! b = Some (c, n) → minv (delete b B) (given_back b c n) refs.
Proof.
  intros Hb Hm. destruct (minv_buf_in _ _ _ Hb) as (n' & Hn' & Hn & _). rewrite Hm in Hn'. injection Hn' as <-.
  pose proof Hinv as [H1 H2 H3]. constructor.
  - intros q. rewrite held_delete. case_decide as Hq.
    + rewrite Hq, given_back_eq. destruct (Z.eqb_spec n 1); cbn; lia.
    + by rewrite given_back_ne.
  - rewrite Forall_forall in H2 |- *. intros x Hx. destruct (H2 _ Hx) as (c1 & n1 & Hp & Hr & Hl & Hs).
    destruct (decide (r_blk x = b)) as [Heq|Hne].
    + pose proof (occ_pos _ _ Hx) as Hpos. rewrite Heq in *. rewrite Hm in Hp. injection Hp as <- <-. exists c, (n - 1).
      rewrite Heq, given_back_eq, (proj2 (Z.eqb_neq n 1)) by lia. split_and!; [done|done|by rewrite lookup_delete_eq|].
      intros Hown. destruct (minv_sole x Hx Hown) as (_ & _ & Hno). congruence.
    + exists c1, n1. rewrite given_back_ne by done. split_and!; [done|done| |done]. intros b0 l0. rewrite lookup_delete_ne by done. apply Hl.
  - intros b0 c0 l0. destruct (decide (b0 = b)) as [->|Hne]; [by rewrite lookup_delete_eq|].
    rewrite lookup_delete_ne, given_back_ne by done. apply H3.
Qed.
End Laws.

(** A reference is given back. *)
Lemma minv_drop B M x refs c n :
  minv B M (x :: refs) → M !! r_blk x = Some (c, n) → minv B (given_back (M := M) (r_blk x) c n) refs.
Proof.
  intros Hinv Hm. pose proof Hinv as [H1 H2 H3]. pose proof (H1 (r_blk x)) as Hn. rewrite Hm, occ_cons, decide_True in Hn by done. cbn in Hn.
  constructor.
  - intros q. specialize (H1 q). rewrite occ_cons in H1. destruct (decide (r_blk x = q)) as [<-|Hne].
    + rewrite given_back_eq. destruct (Z.eqb_spec n 1); cbn; lia.
    + rewrite given_back_ne by congruence. cbn in H1. lia.
  - apply Forall_cons in H2 as [_ H2]. rewrite Forall_forall in H2 |- *. intros y Hy.
    destruct (H2 _ Hy) as (c1 & n1 & Hc1 & Hrd & Hl & Hs). destruct (decide (r_blk y = r_blk x)) as [He|Hne].
    + pose proof (occ_pos _ _ Hy) as Hpos. rewrite He in *. rewrite Hm in Hc1. injection Hc1 as <- <-. exists c, (n - 1).
      pose proof (held_bound B (r_blk x)). rewrite He, given_back_eq, (proj2 (Z.eqb_neq n 1)) by lia. split_and!; [done|done|done|].
      intros Hown. destruct (Hs Hown) as [_ ->]. lia.
    + exists c1, n1. by rewrite given_back_ne.
  - intros b c0 l Hb. destruct (H3 _ _ _ Hb) as [(n0 & Hn0) Ho]. rewrite occ_cons in Ho. split; [|lia].
    destruct (decide (b = r_blk x)) as [->|Hne]; [|exists n0; by rewrite given_back_ne].
    rewrite Hm in Hn0. injection Hn0 as -> ->. rewrite (held_in _ _ _ Hb) in Hn. exists (n0 - 1).
    rewrite given_back_eq, (proj2 (Z.eqb_neq n0 1)) by lia. done.
Qed.
