(* ===== verification/RtmqRecvSpec.v ===== *)
(** The receive side of a connection, proved against an interface of the message
    handlers: whatever the pieces in which the network delivers a stream of
    messages, the handlers see these messages, once and in order, and no block of
    memory is leaked or used after its release. *)
From stdpp Require Import fin_maps gmap.
From S2P Require Import Prelude Heap Table HashTab TabRel Mref Bytes RtmqRecv RtmqMem.
Open Scope Z_scope.

Lemma buff_size : 20 ≤ RTMQ_BUFF_SIZE < 2 ^ 31.
Proof. by vm_compute. Qed.
#[global] Opaque RTMQ_BUFF_SIZE.

(** ** The interface of the handlers *)

Section Interface.
Context {T : Type → Type} `{TreeOps T} {HS : Type} `{!RecvHandlers T HS}.

Definition mesg_proc (base : ptr) (off flag : Z) : SM (mref_st T * HS) Z :=
  if RTMQ_SYS_MESG =? flag then sys_mesg_proc base off else exp_mesg_proc base off;; mret 0.
End Interface.

(** [hstep m a]: what the message [m] does to the handlers, and whether the
    connection stays open; [hpre] is what they rely on.  [B] are the buffers of the
    other connections. *)
Class RecvLaws (T : Type → Type) (HS : Type) `{TreeOps T} `{!RecvHandlers T HS} := {
  habs : Type;
  hpre : mesg → habs → Prop;
  hstep : mesg → habs → habs * bool;
  hrep : HS → list href → habs → Prop;
  law_mesg s h B M base c n off m refs a :
    mrep s M → M !! base = Some (c, n) → B !! base = None → 0 ≤ off → Z.of_nat (length c) < 2 ^ 31 →
    rd_bytes c off (Z.of_nat (length (host m))) = Some (host m) →
    mesg_ok (Z.of_nat (length c)) m → hpre m a → hrep h refs a → minv (<[base := (c, off)]> B) M refs →
    fresh (mblk s) < ADDR_MAX →
    wp (mesg_proc base off (h_flag (m_head m)))
      (λ r x ms', ms' = [] ∧ (r =? 0) = (hstep m a).2 ∧ fresh (mblk (fst x)) ≤ fresh (mblk s) + 1 ∧
         ∃ M' refs' c' n', mrep (fst x) M' ∧ M' !! base = Some (c', n') ∧ length c' = length c ∧
           drop (Z.to_nat off + length (host m)) c' = drop (Z.to_nat off + length (host m)) c ∧
           hrep (snd x) refs' (hstep m a).1 ∧
           minv (<[base := (c', off + Z.of_nat (length (host m)))]> B) M' refs') (s, h) [];
}.

Section Spec.
Context {T : Type → Type} `{TreeLaws T} {HS : Type} `{!RecvHandlers T HS} `{!RecvLaws T HS}.
Context (B : bmap).
Abbreviation st := (conn_st T HS).

(** ** Blocks *)

Lemma wp_blk_rd s M p c n off len bs (Q : list Z → mref_st T → mem → Prop) ms :
  mrep s M → M !! p = Some (c, n) → rd_bytes c off len = Some bs → Q bs s ms → wp (blk_rd p off len) Q s ms.
Proof.
  intros Hs Hp Hb HQ. unfold blk_rd. apply wp_bind. eapply wp_blk_get; [done..|]. rewrite Hb. by apply wp_ret.
Qed.

Lemma wp_blk_wr s M p c c' n off bs (Q : unit → mref_st T → mem → Prop) ms :
  mrep s M → M !! p = Some (c, n) → wr_bytes c off bs = Some c' →
  (∀ s', mrep s' (<[p := (c', n)]> M) → fresh (mblk s') = fresh (mblk s) → Q tt s' ms) →
  wp (blk_wr p off bs) Q s ms.
Proof.
  intros Hs Hp Hb HQ. unfold blk_wr. apply wp_bind. eapply wp_blk_get; [done..|]. rewrite Hb. apply wp_bind, wp_ret.
  eapply wp_blk_set; [done..|]. done.
Qed.

Lemma wp_rd_head s M p l1 hd l3 n off (Q : rtmq_header_t → mref_st T → mem → Prop) ms :
  mrep s M → M !! p = Some (l1 ++ put_head hd ++ l3, n) → off = Z.of_nat (length l1) → head_ok hd →
  Q hd s ms → wp (rd_head p off) Q s ms.
Proof.
  intros Hs Hp -> Hh HQ. unfold rd_head. apply wp_bind. eapply wp_blk_rd; [done..|apply rd_bytes_app|].
  apply wp_ret. rewrite <-(app_nil_r (put_head hd)). by rewrite get_put_head.
Qed.

Lemma wp_wr_head s M p l1 h0 hd l3 n off (Q : unit → mref_st T → mem → Prop) ms :
  mrep s M → M !! p = Some (l1 ++ put_head h0 ++ l3, n) → off = Z.of_nat (length l1) →
  (∀ s', mrep s' (<[p := (l1 ++ put_head hd ++ l3, n)]> M) → fresh (mblk s') = fresh (mblk s) → Q tt s' ms) →
  wp (wr_head p off hd) Q s ms.
Proof.
  intros Hs Hp -> HQ. unfold wr_head. eapply wp_blk_wr; [done..|by apply wr_bytes_app|]. done.
Qed.

Lemma wp_on_mem {A} (m : SM (mref_st T) A) (Q : A → st → mem → Prop) c ms :
  wp m (λ a s' ms', Q a (set_cmem s' c) ms') (cmem c) ms → wp (on_mem m) Q c ms.
Proof. intros Hm. unfold on_mem. by apply wp_zoom. Qed.
Lemma wp_on_hdl {A} (m : SM (mref_st T * HS) A) (Q : A → st → mem → Prop) c ms :
  wp m (λ a x ms', Q a (ConnSt (fst x) (crecv c) (csock c) (cerr c) (snd x)) ms') (cmem c, chdl c) ms →
  wp (on_hdl m) Q c ms.
Proof. intros Hm. unfold on_hdl. by apply wp_zoom. Qed.
Lemma wp_crecv (Q : rtmq_snap_t → st → mem → Prop) c ms : Q (crecv c) c ms → wp (gets crecv) Q c ms.
Proof. done. Qed.

(** ** The receive buffer *)

Abbreviation mfresh c := (fresh (mblk (cmem c))).

(** The buffer holds the unread bytes [rest]. *)
Definition rinv (c : st) (a : habs) (rest : list Z) : Prop :=
  ∃ M refs pre post n,
    mrep (cmem c) M ∧ M !! base (crecv c) = Some (pre ++ rest ++ post, n) ∧
    optr (crecv c) = Z.of_nat (length pre) ∧ iptr (crecv c) = Z.of_nat (length pre + length rest) ∧
    end_ (crecv c) = RTMQ_BUFF_SIZE ∧ Z.of_nat (length (pre ++ rest ++ post)) = RTMQ_BUFF_SIZE ∧
    B !! base (crecv c) = None ∧ minv (<[base (crecv c) := (pre ++ rest ++ post, optr (crecv c))]> B) M refs ∧ hrep (chdl c) refs a.

(** After an error: the connection still owns its buffer. *)
Definition rclosed (c : st) (a : habs) : Prop :=
  ∃ M refs b lim, mrep (cmem c) M ∧ B !! base (crecv c) = None ∧
    minv (<[base (crecv c) := (b, lim)]> B) M refs ∧ hrep (chdl c) refs a.

Lemma rinv_closed c a rest : rinv c a rest → rclosed c a.
Proof. intros (M&refs&pre&post&n&?&?&?&?&?&?&?&?&?). exists M, refs, (pre ++ rest ++ post), (optr (crecv c)). done. Qed.

(** A write beyond the protected bytes. *)
Lemma rd_bytes_stable pre x y lim o l :
  length x = length y → lim ≤ Z.of_nat (length pre) → o + Z.of_nat (length l) ≤ lim →
  rd_bytes (pre ++ x) o (Z.of_nat (length l)) = Some l → rd_bytes (pre ++ y) o (Z.of_nat (length l)) = Some l.
Proof.
  unfold rd_bytes. rewrite !length_app. intros Hx Hlim Ho. rewrite Hx. case_decide; [|done].
  rewrite !drop_app_le, !take_app_le by (rewrite ?length_drop; lia). done.
Qed.

(** *** Allocation and replacement *)

Lemma wp_alloc_recv_buff c M (Q : Z → st → mem → Prop) :
  mrep (cmem c) M → mfresh c < ADDR_MAX →
  (∀ p s', M !! p = None → p ≠ NULL → mrep s' (<[p := (replicate (Z.to_nat RTMQ_BUFF_SIZE) 0, 1)]> M) →
     fresh (mblk s') = mfresh c + 1 →
     Q RTMQ_OK (set_crecv (rtmq_snap_setup p RTMQ_BUFF_SIZE) (set_cmem s' c)) []) →
  wp rtmq_rsvr_alloc_recv_buff Q c [].
Proof.
  intros Hm Hf HQ. unfold rtmq_rsvr_alloc_recv_buff. apply wp_bind, wp_on_mem. pose proof buff_size.
  apply (wp_mref_alloc _ M); [done|lia|done|]. intros p s' Hp HN Hf' Hm'.
  assert (p ≠ NULL) as Hp0.
  { destruct (mr_addr _ _ Hm' p (replicate (Z.to_nat RTMQ_BUFF_SIZE) 0, 1)) as [? _]; [by rewrite lookup_insert_eq|].
    unfold NULL. lia. }
  rewrite (proj2 (Z.eqb_neq _ _) Hp0). wp_steps. by apply HQ.
Qed.

Lemma rd_bytes_mid pre x post : rd_bytes (pre ++ x ++ post) (Z.of_nat (length pre)) (Z.of_nat (length x)) = Some x.
Proof. apply rd_bytes_app. Qed.

Lemma wp_switch c a r :
  rinv c a r → Z.of_nat (length r) < RTMQ_BUFF_SIZE → mfresh c < ADDR_MAX →
  wp rtmq_rsvr_switch_recv_buff (λ ret c' ms', ms' = [] ∧ ret = RTMQ_OK ∧ rinv c' a r ∧
    csock c' = csock c ∧ mfresh c' ≤ mfresh c + 1 ∧ iptr (crecv c') = Z.of_nat (length r)) c [].
Proof.
  intros (M & refs & pre & post & n & Hm & Hb & Ho & Hi & He & Hl & HBn & Hinv & Hh) Hr Hf.
  pose proof buff_size as Hbs.
  unfold rtmq_rsvr_switch_recv_buff. apply wp_bind, wp_crecv. apply wp_bind.
  apply (wp_alloc_recv_buff _ M); [done|done|]. intros p s1 Hp Hp0 Hm1 Hf1.
  change (RTMQ_OK =? 0) with true. cbn [negb]. cbn beta iota. apply wp_bind, wp_crecv. cbn [set_crecv crecv base optr rtmq_snap_setup].
  assert (p ≠ base (crecv c)) as Hne by congruence.
  assert (iptr (crecv c) - optr (crecv c) = Z.of_nat (length r)) as -> by lia.
  apply wp_bind, wp_on_mem. apply (wp_blk_rd _ _ _ (pre ++ r ++ post) n _ _ r _ _ Hm1).
  { by rewrite lookup_insert_ne. } { rewrite Ho. apply rd_bytes_mid. }
  set (z := drop (length r) (replicate (Z.to_nat RTMQ_BUFF_SIZE) 0)).
  assert (wr_bytes (replicate (Z.to_nat RTMQ_BUFF_SIZE) 0) 0 r = Some (r ++ z)) as Hwr.
  { pose proof (wr_bytes_app [] (take (length r) (replicate (Z.to_nat RTMQ_BUFF_SIZE) 0)) z r) as Hw.
    simpl in Hw. unfold z in Hw at 1. rewrite take_drop in Hw. apply Hw. rewrite length_take, length_replicate. lia. }
  assert (Z.of_nat (length (r ++ z)) = RTMQ_BUFF_SIZE) as Hz.
  { unfold z. rewrite length_app, length_drop, length_replicate. lia. }
  apply wp_bind, wp_on_mem. apply (wp_blk_wr _ _ _ _ _ 1 _ _ _ _ Hm1 ltac:(by rewrite lookup_insert_eq) Hwr).
  intros s2 Hm2 Hf2. rewrite insert_insert_eq in Hm2. wp_steps. apply wp_on_mem.
  apply (wp_mref_dec _ _ (base (crecv c)) (pre ++ r ++ post) n _ _ Hm2); [by rewrite lookup_insert_ne|].
  intros s3 Hm3 Hf3. wp_steps. cbn [set_cmem set_crecv cmem crecv csock chdl] in *.
  split_and!; [done|done| |done|lia|simpl; lia].
  pose proof (minv_new_buf Hinv p (r ++ z) Hp) as Hinv2. destruct (minv_none Hinv _ Hp) as [_ HBp].
  rewrite lookup_insert_ne in HBp by done.
  pose proof (minv_drop_buf Hinv2 (base (crecv c)) (pre ++ r ++ post) n (optr (crecv c))
    ltac:(by rewrite lookup_insert_ne, lookup_insert_eq) ltac:(by rewrite lookup_insert_ne)) as Hinv3.
  rewrite insert_insert_ne, delete_insert_id in Hinv3; [|by rewrite lookup_insert_ne|done].
  eexists _, refs, [], z, 1. split_and!; [exact Hm3| |done|simpl; lia|done|done|done|exact Hinv3|done].
  cbn [crecv add_iptr base rtmq_snap_setup app]. case_match; [rewrite lookup_delete_ne by done|rewrite lookup_insert_ne by done]; by rewrite lookup_insert_eq.
Qed.

(** *** One step *)

(** What a partial message shows of its header. *)
Lemma partial_head sz r : partial sz r → (20 ≤ length r)%nat → sz < 2 ^ 32 →
  ∃ h r', head_ok h ∧ r = put_head h ++ r' ∧ ntohl (h_chksum h) = RTMQ_CHKSUM_VAL ∧
    u32 (HEAD_SIZE + ntohl (h_length h)) = HEAD_SIZE + ntohl (h_length h) ∧
    Z.of_nat (length r) < HEAD_SIZE + ntohl (h_length h).
Proof.
  intros (m & k & Hm & Hw & Hk) Hr Hsz. exists (RTMQ_HEAD_HTON (m_head m)), (drop 20 r).
  pose proof (f_equal length Hw) as Hlen. rewrite length_wire, length_app in Hlen.
  destruct Hm as [Hh Hc Hl Hf]. pose proof (ntoh_hton _ Hh) as Hn.
  assert (ntohl (h_chksum (RTMQ_HEAD_HTON (m_head m))) = h_chksum (m_head m)) as -> by (by rewrite <-Hn at 2).
  assert (ntohl (h_length (RTMQ_HEAD_HTON (m_head m))) = h_length (m_head m)) as -> by (by rewrite <-Hn at 2).
  split_and!; [apply hton_ok| |done| |].
  - assert (take 20 r = put_head (RTMQ_HEAD_HTON (m_head m))) as <-; [|by rewrite take_drop].
    rewrite <-(take_app_le r k) by lia. rewrite <-Hw. unfold wire.
    by rewrite take_app_le, take_ge by (by rewrite put_head_length).
  - apply u32_small. unfold HEAD_SIZE in *. lia.
  - destruct k; [done|]. unfold HEAD_SIZE. simpl in Hlen. lia.
Qed.

(** The bytes of a step: a part of a message makes no progress, and leaves room
    for more. *)
Lemma wp_step_partial c a r :
  rinv c a r → partial RTMQ_BUFF_SIZE r → mfresh c < ADDR_MAX →
  wp data_proc_step (λ ret c' ms', ms' = [] ∧ ret = inr RTMQ_OK ∧ rinv c' a r ∧
    csock c' = csock c ∧ mfresh c' ≤ mfresh c + 1 ∧ iptr (crecv c') < RTMQ_BUFF_SIZE) c [].
Proof.
  intros Hc Hr Hf. pose proof (partial_length _ _ Hr) as Hlr. pose proof buff_size as Hbs.
  pose proof Hc as (M & refs & pre & post & n & Hm & Hb & Ho & Hi & He & Hl & HBn & Hinv & Hh).
  unfold data_proc_step. apply wp_bind, wp_crecv. cbv zeta.
  assert (iptr (crecv c) - optr (crecv c) = Z.of_nat (length r)) as -> by lia.
  rewrite u32_small by lia. apply wp_bind.
  assert (∀ Q : option Z → st → mem → Prop, Q None c [] →
    wp (if Z.of_nat (length r) >=? HEAD_SIZE then
          head ← on_mem (rd_head (base (crecv c)) (optr (crecv c)));
          if negb (RTMQ_CHKSUM_VAL =? ntohl (h_chksum head)) then crash else
          let one_mesg_len := u32 (HEAD_SIZE + ntohl (h_length head)) in
          mret (if Z.of_nat (length r) >=? one_mesg_len then Some one_mesg_len else None)
        else mret None) Q c []) as Hflag.
  { intros Q HQ. destruct (Z.geb_spec (Z.of_nat (length r)) HEAD_SIZE) as [Hge|_]; [|by apply wp_ret].
    unfold HEAD_SIZE in Hge. destruct (partial_head _ _ Hr) as (h & r' & Hhd & Hr' & Hck & Hu & Hlt); [lia..|].
    apply wp_bind, wp_on_mem. rewrite Hr', <-app_assoc in Hb. eapply wp_rd_head; [done|exact Hb|done|done|].
    rewrite Hck, Z.eqb_refl. cbn [negb]. cbv zeta. rewrite Hu.
    destruct (Z.geb_spec (Z.of_nat (length r)) (HEAD_SIZE + ntohl (h_length h))); [lia|].
    apply wp_ret. by destruct c. }
  apply Hflag. clear Hflag.
  destruct (Z.eqb_spec (iptr (crecv c)) (end_ (crecv c))) as [Hend|Hend].
  - destruct (Z.ltb_spec (optr (crecv c)) (end_ (crecv c) - iptr (crecv c))); [lia|].
    apply wp_bind. eapply wp_mono; [by apply (wp_switch c a r)|].
    intros ret c' ms' (-> & -> & Hc' & Hs & Hf' & Hi'). wp_steps. split_and!; try done. lia.
  - wp_steps. split_and!; [done..|lia|]. rewrite !length_app in Hl. lia.
Qed.

(** A complete message is handed to its handler. *)
Lemma wp_step_mesg c a m rest :
  rinv c a (wire m ++ rest) → mesg_ok RTMQ_BUFF_SIZE m → hpre m a → mfresh c < ADDR_MAX →
  wp data_proc_step (λ ret c' ms', ms' = [] ∧ csock c' = csock c ∧ mfresh c' ≤ mfresh c + 1 ∧
    if (hstep m a).2 then ret = inl tt ∧ rinv c' (hstep m a).1 rest
    else ret = inr RTMQ_ERR ∧ rclosed c' (hstep m a).1) c [].
Proof.
  intros (M & refs & pre & post & n & Hm & Hb & Ho & Hi & He & Hl & HBn & Hinv & Hh) Hmo Hp Hf.
  pose proof buff_size as Hbs. pose proof Hmo as [Hhd Hck Hlen Hfit].
  pose proof (ntoh_hton _ Hhd) as Hn. set (hn := RTMQ_HEAD_HTON (m_head m)) in *.
  assert (head_ok hn) as Hhn by apply hton_ok.
  unfold data_proc_step. apply wp_bind, wp_crecv. cbv zeta.
  rewrite !length_app, length_wire in Hl. rewrite length_app, length_wire in Hi.
  assert (u32 (iptr (crecv c) - optr (crecv c)) = Z.of_nat (20 + length (m_body m) + length rest)) as ->
    by (rewrite u32_small; lia).
  assert (ntohl (h_chksum hn) = RTMQ_CHKSUM_VAL) as Hck'. { by rewrite <-Hck, <-Hn. }
  assert (ntohl (h_length hn) = Z.of_nat (length (m_body m))) as Hlen'. { by rewrite <-Hlen, <-Hn. }
  rewrite (proj2 (Z.geb_le _ HEAD_SIZE)) by (unfold HEAD_SIZE; lia).
  unfold wire in Hb. fold hn in Hb. rewrite <-!app_assoc in Hb.
  apply wp_bind, wp_bind, wp_on_mem. eapply wp_rd_head; [done|exact Hb|done|done|].
  rewrite Hck', Z.eqb_refl, Hlen'. cbn [negb].
  assert (u32 (HEAD_SIZE + Z.of_nat (length (m_body m))) = Z.of_nat (length (host m))) as ->.
  { rewrite length_host, u32_small; unfold HEAD_SIZE in *; lia. }
  rewrite length_host. rewrite (proj2 (Z.geb_le _ _)) by lia. apply wp_ret. cbn beta iota.
  apply wp_bind, wp_on_mem. eapply wp_rd_head; [done|exact Hb|done|done|].
  apply wp_bind, wp_on_mem. eapply wp_wr_head; [done|exact Hb|done|].
  intros s1 Hm1 Hf1. rewrite Hn in Hm1 |- *. unfold RTMQ_HEAD_ISVALID. rewrite Hck, Z.eqb_refl. cbn [negb].
  set (c1 := pre ++ put_head (m_head m) ++ m_body m ++ rest ++ post) in *.
  assert (length c1 = length pre + (20 + length (m_body m)) + length (rest ++ post))%nat as Hc1.
  { unfold c1. rewrite !length_app, put_head_length. lia. }
  rewrite length_app in Hc1.
  assert (minv (<[base (crecv c) := (c1, optr (crecv c))]> B) (<[base (crecv c) := (c1, n)]> M) refs) as Hinv1.
  { rewrite <-(insert_insert_eq B (base (crecv c)) (c1, optr (crecv c)) (pre ++ (wire m ++ rest) ++ post, optr (crecv c))).
    eapply (minv_content Hinv); [by rewrite lookup_insert_eq|unfold wire; by rewrite <-!app_assoc|]. intros o l Hol. unfold c1, wire. fold hn. rewrite <-!app_assoc.
    apply (rd_bytes_stable pre _ _ (optr (crecv c))); [|lia|done]. rewrite !length_app, !put_head_length. done. }
  apply wp_bind. change (set_cmem s1 (set_cmem (cmem c) c)) with (set_cmem s1 c).
  pose proof (law_mesg s1 (chdl c) B _ (base (crecv c)) c1 n (optr (crecv c)) m refs a Hm1) as Hlaw.
  rewrite lookup_insert_eq in Hlaw. specialize (Hlaw eq_refl HBn ltac:(lia) ltac:(lia)).
  assert (Z.of_nat (length c1) = RTMQ_BUFF_SIZE) as Hc1s by lia. rewrite Hc1s, Hf1 in Hlaw.
  cbn [set_cmem set_csock crecv csock base optr cmem] in *.
  specialize (Hlaw ltac:(rewrite Ho; unfold c1, host; rewrite (app_assoc (put_head _)); apply rd_bytes_mid) Hmo Hp Hh Hinv1 Hf).
  set (post_law := λ _ _ _, _) in Hlaw.
  apply (wp_mono _ (λ ret c' ms', post_law ret (cmem c', chdl c') ms' ∧ crecv c' = crecv c ∧ csock c' = csock c)).
  { unfold mesg_proc in Hlaw. destruct (RTMQ_SYS_MESG =? h_flag (m_head m)).
    - apply wp_on_hdl. eapply wp_mono; [exact Hlaw|]. intros ret [s2 h2] ms' HQ. by split_and!.
    - apply wp_bind_inv in Hlaw. apply wp_bind, wp_on_hdl. eapply wp_mono; [exact Hlaw|].
      intros ret [s2 h2] ms' HQ. apply wp_ret. by split_and!. }
  intros ret c2 ms' ((-> & Hret & Hf2 & M2 & refs2 & cc & n2 & Hm2 & Hb2 & Hlc & Hd & Hh2 & Hinv2) & Hrc & Hrs).
  cbn [fst snd] in *. rewrite Hret. destruct (hstep m a) as [a2 ok] eqn:Hst. cbn [fst snd] in *. destruct ok; cbn [negb]; wp_steps.
  - split_and!; [done|done|simpl; lia|done|].
    exists M2, refs2, (take (length pre + length (host m)) cc), post, n2.
    assert (cc = take (length pre + length (host m)) cc ++ rest ++ post) as Hcc.
    { rewrite <-(take_drop (length pre + length (host m)) cc) at 1. f_equal.
      rewrite Ho, Nat2Z.id in Hd. rewrite Hd. unfold c1. rewrite (app_assoc (put_head _)). change (put_head (m_head m) ++ m_body m) with (host m).
      rewrite (app_assoc pre). rewrite <-length_app. by rewrite drop_app_length. }
    assert (length (take (length pre + length (host m)) cc) = length pre + length (host m))%nat as Htk.
    { rewrite length_take, length_host. lia. }
    cbn [set_crecv cmem crecv chdl add_optr base optr iptr end_]. rewrite Hrc, Htk, <-Hcc. rewrite length_host in *.
    split_and!; [done|done|lia|lia|done|lia|done|done|done].
  - split_and!; [done|done|simpl; lia|done|]. exists M2, refs2, cc, (optr (crecv c) + Z.of_nat (length (host m))).
    rewrite Hrc. by split_and!.
Qed.

(** ** Streams of messages *)

(** The messages of a stream, until one closes the connection. *)
Fixpoint deliver (ms : list mesg) (a : habs) : habs * bool :=
  match ms with
  | [] => (a, true)
  | m :: ms => if (hstep m a).2 then deliver ms (hstep m a).1 else ((hstep m a).1, false)
  end.

Fixpoint deliver_pre (ms : list mesg) (a : habs) : Prop :=
  match ms with
  | [] => True
  | m :: ms => hpre m a ∧ ((hstep m a).2 = true → deliver_pre ms (hstep m a).1)
  end.

Lemma deliver_app ms1 ms2 a :
  deliver (ms1 ++ ms2) a = if (deliver ms1 a).2 then deliver ms2 (deliver ms1 a).1 else deliver ms1 a.
Proof.
  revert a. induction ms1 as [|m ms1 IH]; intros a; simpl; [done|]. destruct (hstep m a) as [a' []]; simpl; [by rewrite IH|done].
Qed.

Lemma deliver_pre_app ms1 ms2 a :
  deliver_pre (ms1 ++ ms2) a → deliver_pre ms1 a ∧ ((deliver ms1 a).2 = true → deliver_pre ms2 (deliver ms1 a).1).
Proof.
  revert a. induction ms1 as [|m ms1 IH]; intros a; simpl; [done|]. intros [Hm Hms].
  destruct (hstep m a) as [a' []]; simpl in *; [|by split].
  destruct (IH a' (Hms eq_refl)) as [??]. auto.
Qed.

(** What a run over the messages [ms] leaves: the bytes [r] of the next one, or a
    connection to close. *)
Definition delivered (ms : list mesg) (a : habs) (r : list Z) (code ret : Z) (c' : st) : Prop :=
  if (deliver ms a).2 then ret = code ∧ rinv c' (deliver ms a).1 r ∧ iptr (crecv c') < RTMQ_BUFF_SIZE
  else ret = RTMQ_ERR ∧ rclosed c' (deliver ms a).1.

Lemma wp_data_loop r ms : partial RTMQ_BUFF_SIZE r → Forall (mesg_ok RTMQ_BUFF_SIZE) ms → ∀ n c a,
  rinv c a (wires ms ++ r) → deliver_pre ms a → (length ms < n)%nat →
  mfresh c + Z.of_nat (length ms) < ADDR_MAX →
  wp (loop n (λ _, data_proc_step) tt) (λ ret c' ms', ms' = [] ∧ csock c' = csock c ∧
    mfresh c' ≤ mfresh c + Z.of_nat (length ms) + 1 ∧ delivered ms a r RTMQ_OK ret c') c [].
Proof.
  intros Hr Hms. induction Hms as [|m ms Hm Hms IH]; intros n c a Hc Hp Hn Hf; (destruct n as [|n]; [simpl in Hn; lia|]);
    apply wp_loop_step.
  - eapply wp_mono; [apply (wp_step_partial c a r); [done|done|simpl in Hf; lia]|].
    intros ret c' ms' (-> & -> & Hc' & Hs & Hf' & Hi). unfold delivered. simpl. split_and!; try done. lia.
  - unfold wires in Hc. cbn [fmap list_fmap concat] in Hc. rewrite <-app_assoc in Hc. destruct Hp as [Hp Hps].
    cbn [length] in *. eapply wp_mono; [apply (wp_step_mesg c a m _ Hc Hm Hp); lia|].
    intros ret c' ms' (-> & Hs & Hf' & Hst). unfold delivered. cbn [deliver].
    destruct (hstep m a) as [a' ok] eqn:Hha. cbn [fst snd] in *. destruct ok.
    + destruct Hst as [-> Hc']. eapply wp_mono; [apply (IH n c' a' Hc'); [auto|lia|lia]|].
      intros ret c2 ms' (-> & Hs2 & Hf2 & Hd). split_and!; [done|congruence|lia|exact Hd].
    + destruct Hst as [-> Hc']. split_and!; [done|done|lia|]. by split.
Qed.

Lemma wires_length ms : (length ms ≤ length (wires ms))%nat.
Proof.
  unfold wires. induction ms as [|m ms IH]; [done|]. cbn [fmap list_fmap concat length]. rewrite length_app, length_wire. lia.
Qed.

Lemma wp_data_proc c a ms r :
  partial RTMQ_BUFF_SIZE r → Forall (mesg_ok RTMQ_BUFF_SIZE) ms →
  rinv c a (wires ms ++ r) → deliver_pre ms a →
  mfresh c + Z.of_nat (length ms) < ADDR_MAX →
  wp rtmq_rsvr_data_proc (λ ret c' ms', ms' = [] ∧ csock c' = csock c ∧
    mfresh c' ≤ mfresh c + Z.of_nat (length ms) + 1 ∧ delivered ms a r RTMQ_OK ret c') c [].
Proof.
  intros Hr Hms Hc Hp Hf. unfold rtmq_rsvr_data_proc. apply wp_bind, wp_crecv.
  apply wp_data_loop; try done. destruct Hc as (M & refs & pre & post & n & _ & _ & Ho & Hi & _).
  rewrite length_app in Hi. pose proof (wires_length ms). lia.
Qed.

(** *** The socket *)

(** An event of data is not empty: [read] gives 0 at the end of the stream. *)
Definition ev_ok (e : rd_ev) : Prop := e ≠ RdData [].

(** What [recv_proc] can read before it returns, its code, and what is left. *)
Fixpoint stream (evs : list rd_ev) : list Z * Z * list rd_ev :=
  match evs with
  | [] => ([], RTMQ_OK, [])
  | RdData bs :: evs => let '(d, code, evs') := stream evs in (bs ++ d, code, evs')
  | RdEof :: _ => ([], RTMQ_SCK_DISCONN, evs)
  | RdErr e :: evs =>
      if e =? EAGAIN then ([], RTMQ_OK, evs) else if e =? EINTR then stream evs else ([], RTMQ_ERR, evs)
  end.

(** A read of data fills the buffer. *)
Lemma wp_read_data c a r bs evs (Q : Z * Z → st → mem → Prop) :
  rinv c a r → csock c = RdData bs :: evs → bs ≠ [] → iptr (crecv c) < RTMQ_BUFF_SIZE →
  (∀ b1 b2 s', bs = b1 ++ b2 → b1 ≠ [] →
     let c' := set_csock (if decide (b2 = []) then evs else RdData b2 :: evs) (set_cmem s' c) in
     rinv (set_crecv (add_iptr (Z.of_nat (length b1)) (crecv c)) c') a (r ++ b1) → fresh (mblk s') = mfresh c →
     Q (Z.of_nat (length b1), 0) c' []) →
  wp (sck_read (i32 (end_ (crecv c) - iptr (crecv c)))) Q c [].
Proof.
  intros (M & refs & pre & post & n & Hm & Hb & Ho & Hi & He & Hl & HBn & Hinv & Hh) Hs Hne Hroom HQ.
  pose proof buff_size as Hbs. rewrite !length_app in Hl.
  assert (end_ (crecv c) - iptr (crecv c) = Z.of_nat (length post)) as -> by lia.
  rewrite i32_small by lia. unfold sck_read. wp_steps. rewrite Hs. rewrite u64_small by lia. cbv zeta.
  set (n1 := Z.min _ _). assert (Z.to_nat n1 = min (length post) (length bs)) as Hn1 by lia. rewrite Hn1.
  set (b1 := take (length post `min` length bs) bs). set (b2 := drop (length post `min` length bs) bs).
  assert (length b1 = length post `min` length bs)%nat as Hb1 by (unfold b1; rewrite length_take; lia).
  assert (b1 ≠ []) as Hb1n. { intros Hz. rewrite Hz in Hb1. destruct bs; [done|]. simpl in Hb1. lia. }
  assert (length b1 = length (take (length b1) post)) as Hlp by (rewrite length_take; lia).
  assert (wr_bytes (pre ++ r ++ post) (iptr (crecv c)) b1 = Some ((pre ++ r) ++ b1 ++ drop (length b1) post)) as Hw.
  { rewrite Hi, <-length_app. rewrite <-(take_drop (length b1) post) at 1. rewrite app_assoc. by apply wr_bytes_app. }
  apply wp_bind, wp_on_mem. eapply wp_blk_wr; [done|exact Hb|exact Hw|].
  intros s' Hm' Hf'. wp_steps. assert (n1 = Z.of_nat (length b1)) as -> by lia.
  apply (HQ b1 b2); [unfold b1, b2; by rewrite take_drop|done| |done].
  exists (<[base (crecv c) := ((pre ++ r) ++ b1 ++ drop (length b1) post, n)]> M), refs, pre, (drop (length b1) post), n.
  cbn [set_crecv set_csock set_cmem cmem crecv chdl add_iptr base optr iptr end_].
  rewrite lookup_insert_eq, <-!app_assoc. rewrite !length_app, length_drop.
  split_and!; [by rewrite <-!app_assoc in Hm'|done|done|lia|done|lia|done| |done].
  rewrite <-(insert_insert_eq B (base (crecv c)) (_, optr (crecv c)) (pre ++ r ++ post, optr (crecv c))).
  eapply (minv_content Hinv); [by rewrite lookup_insert_eq|done|]. intros o l Hol.
  apply (rd_bytes_stable pre _ _ (optr (crecv c))); [|lia|done]. rewrite !length_app, length_drop. lia.
Qed.

Lemma wp_recv_loop r : partial RTMQ_BUFF_SIZE r → ∀ n c a r0 ms,
  rinv c a r0 → partial RTMQ_BUFF_SIZE r0 → iptr (crecv c) < RTMQ_BUFF_SIZE → Forall ev_ok (csock c) →
  r0 ++ (stream (csock c)).1.1 = wires ms ++ r →
  Forall (mesg_ok RTMQ_BUFF_SIZE) ms → deliver_pre ms a → (sock_size (csock c) < n)%nat →
  mfresh c + Z.of_nat (length ms + length (stream (csock c)).1.1) < ADDR_MAX →
  wp (loop n (λ _, recv_step) tt) (λ ret c' ms', ms' = [] ∧
    mfresh c' ≤ mfresh c + Z.of_nat (length ms + length (stream (csock c)).1.1) ∧
    ((deliver ms a).2 = true → csock c' = (stream (csock c)).2) ∧
    delivered ms a r (stream (csock c)).1.2 ret c') c [].
Proof.
  intros Hr n. induction n as [|n IH]; intros c a r0 ms Hc Hr0 Hroom Hev HD Hms Hp Hn Hf; [lia|].
  apply wp_loop_step. unfold recv_step. apply wp_bind, wp_crecv. cbv zeta. apply wp_bind.
  assert ((stream (csock c)).1.1 = [] → ms = [] ∧ r = r0) as Hend.
  { intros Hnil. rewrite Hnil, app_nil_r in HD. pose proof (partial_wires _ _ _ _ Hr0 Hms HD) as ->. by rewrite HD. }
  assert (∀ ret c', ret = (stream (csock c)).1.2 → (stream (csock c)).1.1 = [] → cmem c' = cmem c →
    crecv c' = crecv c → chdl c' = chdl c → csock c' = (stream (csock c)).2 →
    ([] : mem) = [] ∧ mfresh c' ≤ mfresh c + Z.of_nat (length ms + length (stream (csock c)).1.1) ∧
    ((deliver ms a).2 = true → csock c' = (stream (csock c)).2) ∧
    delivered ms a r (stream (csock c)).1.2 ret c') as Hstop.
  { intros ret c' Hret Hnil H1 H2 H3 H4. destruct (Hend Hnil) as [-> ->]. unfold delivered, rinv. simpl.
    rewrite H1, H2, H3. split_and!; [done|lia|done|done|done|done]. }
  destruct (csock c) as [|[bs| |e] evs] eqn:Hs.
  - unfold sck_read. wp_steps. rewrite Hs. wp_steps. by apply Hstop.
  - apply Forall_cons in Hev as [Hbs Hev].
    eapply (wp_read_data c a r0 bs evs); [done|done|congruence|done|].
    intros b1 b2 s1 Hb Hb1 c1 Hc1 Hf1. assert (0 < length b1)%nat as Hb1l by (destruct b1; [done|simpl; lia]).
    rewrite (proj2 (Z.gtb_lt _ 0)) by lia. apply wp_bind. wp_step. apply wp_bind.
    cbn [stream] in Hf, HD |- *. destruct (stream evs) as [[d code] evs'] eqn:Hst. cbn [fst snd] in *.
    assert (stream (csock c1) = (b2 ++ d, code, evs')) as Hst1.
    { unfold c1. cbn [set_csock csock]. case_decide as Hb2; [by rewrite Hb2|]. cbn [stream]. by rewrite Hst. }
    rewrite Hb, <-app_assoc, app_assoc in HD.
    destruct (split_stream _ ms r Hms Hr _ _ HD) as (ms1 & ms2 & r1 & -> & HD1 & Hr1 & HD2).
    apply Forall_app in Hms as [Hms1 Hms2]. apply deliver_pre_app in Hp as [Hp1 Hp2].
    rewrite HD1 in Hc1. rewrite Hb in Hf |- *. rewrite !length_app in *. 
    match goal with |- wp _ _ ?c2 _ => assert (mfresh c2 = mfresh c) as Hf2 by done; assert (csock c2 = csock c1) as Hs2 by done; set (c2' := c2) in * end.
    eapply wp_mono; [apply (wp_data_proc _ a ms1 r1); [done|done|exact Hc1|done|rewrite Hf2; lia]|].
    intros ret c3 ms' (-> & Hs3 & Hf3 & Hd3). wp_step. unfold delivered in Hd3 |- *.
    rewrite deliver_app. destruct (deliver ms1 a) as [a1 ok] eqn:Hda. cbn [fst snd] in *. destruct ok; [|].
    + destruct Hd3 as (-> & Hc3 & Hroom3). cbn [RTMQ_OK Z.eqb negb]. rewrite Hs2 in Hs3.
      assert (stream (csock c3) = (b2 ++ d, code, evs')) as Hst3 by congruence.
      eapply wp_mono; [apply (IH c3 a1 r1 ms2); rewrite ?Hst3; try done; [|auto| |]|].
      * rewrite Hs3. unfold c1. cbn [set_csock csock]. case_decide; [done|]. by constructor; [congruence|].
      * rewrite Hs3. unfold c1. cbn [set_csock csock sock_size] in *. rewrite Hb, length_app in Hn. case_decide; simpl; lia.
      * cbn [fst snd]. rewrite length_app. lia.
      * rewrite Hst3. cbn [fst snd]. intros ret c4 ms' (-> & Hf4 & Hs4 & Hd4).
        rewrite length_app in Hf4. split_and!; [done|lia|exact Hs4|exact Hd4].
    + destruct Hd3 as [-> Hc3]. cbn [negb Z.eqb RTMQ_ERR]. split_and!; [done|lia|done|]. by split.
  - unfold sck_read. wp_steps. rewrite Hs. wp_steps. by apply Hstop.
  - unfold sck_read. wp_steps. rewrite Hs. wp_steps. cbn [stream] in Hstop, Hf, HD |- *.
    cbn [Z.gtb Z.eqb Z.compare]. destruct (e =? EAGAIN).
    + wp_steps. by apply Hstop.
    + destruct (e =? EINTR); wp_steps; [|by apply Hstop].
      apply Forall_cons in Hev as [_ Hev]. simpl in Hn.
      eapply wp_mono; [apply (IH (set_csock evs c) a r0 ms); try done; simpl; lia|].
      done.
Qed.

(** [rtmq_rsvr_recv_proc]. *)
Lemma wp_recv_proc c a r0 ms r :
  rinv c a r0 → partial RTMQ_BUFF_SIZE r0 → iptr (crecv c) < RTMQ_BUFF_SIZE → Forall ev_ok (csock c) →
  r0 ++ (stream (csock c)).1.1 = wires ms ++ r → partial RTMQ_BUFF_SIZE r →
  Forall (mesg_ok RTMQ_BUFF_SIZE) ms → deliver_pre ms a →
  mfresh c + Z.of_nat (length ms + length (stream (csock c)).1.1) < ADDR_MAX →
  wp rtmq_rsvr_recv_proc (λ ret c' ms', ms' = [] ∧
    mfresh c' ≤ mfresh c + Z.of_nat (length ms + length (stream (csock c)).1.1) ∧
    ((deliver ms a).2 = true → csock c' = (stream (csock c)).2) ∧
    delivered ms a r (stream (csock c)).1.2 ret c') c [].
Proof.
  intros Hc Hr0 Hroom Hev HD Hr Hms Hp Hf. unfold rtmq_rsvr_recv_proc. apply wp_bind.
  unfold gets, wp at 1. apply (wp_recv_loop r Hr _ c a r0 ms); try done. lia.
Qed.
End Spec.
