(* ===== verification/RtmqSend.v ===== *)
(** The send side of an RTMQ connection of the server
    ([lib/rtmq/server/rtmq_rsvr.c]): the list of the messages to send, the vector
    of those handed to [writev], and the bytes the socket has taken. *)
From stdpp Require Import gmap.
From S2P Require Import Prelude Heap Table HashTab TabRel List2 Iovec Mref Bytes RtmqRecv.
Open Scope Z_scope.

(** What the next calls of [writev] do: an error, or so many bytes of those
    offered, and all of them if there are less.  Nothing left: none. *)
Inductive wr_ev := WrErr | WrSent (n : Z).

Section Ops.
Context {T : Type → Type} `{TreeOps T}.

Record send_st := SendSt {
  smem : mref_st T; mesgs : list2_t ptr; send : wiov_t (mref_st T); swr : list wr_ev; sout : list Z }.
Abbreviation NM := (SM send_st).
Definition set_smem m (c : send_st) : send_st := SendSt m (mesgs c) (send c) (swr c) (sout c).
Definition set_mesgs l (c : send_st) : send_st := SendSt (smem c) l (send c) (swr c) (sout c).
Definition set_send w (c : send_st) : send_st := SendSt (smem c) (mesgs c) w (swr c) (sout c).
Definition on_smem {A} : SM (mref_st T) A → NM A := zoom smem set_smem.
Definition on_mesgs {A} : SM (list2_t ptr) A → NM A := zoom mesgs set_mesgs.
Definition on_send {A} : SM (wiov_t (mref_st T)) A → NM A := zoom send set_send.
(** Work on the vector whose callbacks release blocks. *)
Definition on_iov {A} : SM (wiov_t (mref_st T) * mref_st T) A → NM A :=
  zoom (λ c, (send c, smem c)) (λ x c, SendSt (snd x) (mesgs c) (fst x) (swr c) (sout c)).

(** [mref_dealloc] as a callback of the vector. *)
Definition mref_dealloc_cb (param : Z) (addr : ptr) (len : Z) : SM (mref_st T) unit := mref_dealloc addr.

(** One message: [inl] goes on with the next one. *)
Definition wiov_add_step : NM (unit + Z) :=
  c ← get;
  if wiov_isfull (send c) then mret (inr RTMQ_OK) else
  head ← on_mesgs list2_lpop;
  match head with
  | None => mret (inr RTMQ_OK)
  | Some p =>
      head ← on_smem (rd_head p 0);
      cassert (RTMQ_CHKSUM_VAL =? h_chksum head);;
      on_smem (mref_check p);;
      let len := i32 (HEAD_SIZE + h_length head) in
      on_smem (wr_head p 0 (RTMQ_HEAD_HTON head));;
      on_send (wiov_item_add p (u64 len) NULL mref_dealloc_cb mref_dealloc_cb);;
      mret (inl tt)
  end.

(** The fuel is the number of the messages. *)
Definition rtmq_rsvr_wiov_add : NM Z :=
  c ← get;
  loop (S (list2_fuel (mesgs c))) (λ _, wiov_add_step) tt.

(** The bytes of the items from [idx] on. *)
Fixpoint iov_bytes (n : nat) (idx : Z) : NM (list Z) :=
  match n with
  | O => mret []
  | S n =>
      c ← get;
      v ← arr_rd (iov (send c)) idx;
      bs ← on_smem (blk_rd (iov_blk v) (iov_off v) (iov_len v));
      rest ← iov_bytes n (idx + 1);
      mret (bs ++ rest)
  end.

(** [writev(fd, wiov_item_begin(send), wiov_item_num(send))]. *)
Definition sck_writev : NM Z :=
  c ← get;
  bs ← iov_bytes (Z.to_nat (wiov_item_num (send c))) (iov_idx (send c));
  match swr c with
  | [] => mret 0
  | WrErr :: evs => put (SendSt (smem c) (mesgs c) (send c) evs (sout c));; mret (-1)
  | WrSent k :: evs =>
      let n := Z.max 0 (Z.min k (Z.of_nat (length bs))) in
      put (SendSt (smem c) (mesgs c) (send c) evs (sout c ++ take (Z.to_nat n) bs));;
      mret n
  end.

(** The turn of [rtmq_rsvr_trav_send] for a connection that can be written;
    [RTMQ_ERR] when it is to be closed. *)
Definition send_proc : NM Z :=
  c ← get;
  (if negb (wiov_isfull (send c)) then rtmq_rsvr_wiov_add;; mret tt else mret tt);;
  c ← get;
  if wiov_isempty (send c) then mret RTMQ_OK else
  n ← sck_writev;
  if n <? 0 then mret RTMQ_ERR
  else on_iov (wiov_item_adjust n);; mret RTMQ_OK.
End Ops.
Arguments send_st : clear implicits.
