(* ===== verification/RtmqSendSpec.v ===== *)
(** The send side of a connection delivers the messages put in its list, in order
    and whole, whatever the pieces the socket takes, and gives back the memory of
    each once its last byte is gone. *)
From stdpp Require Import fin_maps gmap.
From S2P Require Import Prelude Heap Table HashTab TabRel Trees List2 Iovec Mref Bytes RtmqRecv RtmqMem RtmqRecvSpec RtmqSend.
Open Scope Z_scope.

(** A message whose length fits the integers of the code. *)
Definition sendable (m : mesg) : Prop := mesg_ok (2 ^ 31 - 1) m.

Lemma sendable_len m : sendable m → 20 + Z.of_nat (length (m_body m)) < 2 ^ 31 ∧ h_length (m_head m) = Z.of_nat (length (m_body m)).
Proof. intros Hm. pose proof (mo_fits _ _ Hm). pose proof (mo_length _ _ Hm). unfold HEAD_SIZE in *. lia. Qed.

(** A message on its way: its block, its bytes, and the number of those sent. *)
Record sending := Sending { sg_blk : ptr; sg_img : list Z; sg_off : nat }.
Definition sg_rest (x : sending) : list Z := drop (sg_off x) (sg_img x).
Definition sg_ok (x : sending) : Prop := (sg_off x < length (sg_img x))%nat.

(** The messages that wait, and those in the vector: the bytes to send. *)
Abbreviation waiting := (list (ptr * mesg)).
Definition to_send (V : list sending) (W : waiting) : list Z := concat (sg_rest <$> V) ++ wires W.*2.

(** The blocks they lie in, each with a count of one. *)
Abbreviation cells_t := (list (ptr * (list Z * Z))).
Definition vcells (V : list sending) : cells_t := (λ s, (sg_blk s, (sg_img s, 1))) <$> V.
Definition wcells (W : waiting) : cells_t := (λ x, (x.1, (host x.2, 1))) <$> W.
Definition own (C : cells_t) (F : mmap) : mmap := list_to_map C ∪ F.

Section Own.
Implicit Types (C : cells_t) (F : mmap).

Lemma sown_perm C C' F : C ≡ₚ C' → NoDup C.*1 → own C F = own C' F.
Proof. intros Hp Hn. unfold own. f_equal. by apply list_to_map_proper. Qed.

Lemma own_lookup p x C F : own ((p, x) :: C) F !! p = Some x.
Proof. unfold own. apply lookup_union_Some_l. by rewrite list_to_map_cons, lookup_insert_eq. Qed.

Lemma own_update p x y C F : <[p := y]> (own ((p, x) :: C) F) = own ((p, y) :: C) F.
Proof. unfold own. by rewrite !list_to_map_cons, <-!insert_union_l, insert_insert_eq. Qed.

Lemma own_insert p x C F : <[p := x]> (own C F) = own ((p, x) :: C) F.
Proof. unfold own. by rewrite list_to_map_cons, insert_union_l. Qed.

Lemma own_delete p x C F : p ∉ C.*1 → F !! p = None → delete p (own ((p, x) :: C) F) = own C F.
Proof.
  intros Hp HF. unfold own. rewrite list_to_map_cons, <-insert_union_l, delete_insert_id; [done|].
  apply lookup_union_None. split; [|done]. by apply not_elem_of_list_to_map_1.
Qed.

Lemma sown_fresh p C F : own C F !! p = None → p ∉ C.*1 ∧ F !! p = None.
Proof. intros [HC HF]%lookup_union_None. split; [|done]. by apply not_elem_of_list_to_map_2. Qed.
End Own.

Section Spec.
Context {T : Type → Type} `{TreeLaws T}.
Abbreviation st := (send_st T).
Implicit Types (c : st) (F : mmap) (V : list sending) (W : waiting) (C : cells_t).

Abbreviation sfresh c := (fresh (mblk (smem c))).

Definition send_item (x : sending) : iovec * wiov_orig_t (mref_st T) :=
  (Iov (sg_blk x) (Z.of_nat (sg_off x)) (Z.of_nat (length (sg_img x) - sg_off x)),
   Orig (sg_blk x) (Z.of_nat (length (sg_img x))) NULL (Some mref_dealloc_cb) (Some mref_dealloc_cb)).

(** Each block is owned once; [F] are the blocks of the others. *)
Record sinv c F V W : Prop := {
  si_mem : mrep (smem c) (own (vcells V ++ wcells W) F);
  si_list : l2rep (mesgs c) W.*1;
  si_send : wrep (send c) (send_item <$> V);
  si_nodup : NoDup (vcells V ++ wcells W).*1;
  si_frame : Forall (λ p, F !! p = None) (vcells V ++ wcells W).*1;
  si_ok : Forall sg_ok V ∧ Forall (λ x, sendable x.2) W;
}.

(** *** From the list to the vector *)

Lemma wp_on_smem {A} (m : SM (mref_st T) A) (Q : A → st → mem → Prop) c ms :
  wp m (λ a s' ms', Q a (set_smem s' c) ms') (smem c) ms → wp (on_smem m) Q c ms.
Proof. intros Hm. unfold on_smem. by apply wp_zoom. Qed.

Definition moved (x : ptr * mesg) : sending := Sending (x.1) (wire (x.2)) 0.

Lemma wires_cons m ms : wires (m :: ms) = wire m ++ wires ms.
Proof. done. Qed.

Lemma to_send_moved V x W : to_send (V ++ [moved x]) W = to_send V (x :: W).
Proof.
  unfold to_send. change ((x :: W).*2) with (x.2 :: W.*2). rewrite fmap_app, concat_app, wires_cons.
  change (sg_rest <$> [moved x]) with [drop 0 (wire x.2)]. cbn [concat]. by rewrite app_nil_r, drop_0, <-app_assoc.
Qed.

Lemma cells_moved V p m W :
  vcells (V ++ [moved (p, m)]) ++ wcells W ≡ₚ (p, (wire m, 1)) :: vcells V ++ wcells W.
Proof. unfold vcells. rewrite fmap_app. simpl. by rewrite <-app_assoc, Permutation_middle. Qed.

Lemma cells_wait V p m W : vcells V ++ wcells ((p, m) :: W) ≡ₚ (p, (host m, 1)) :: vcells V ++ wcells W.
Proof. simpl. by rewrite Permutation_middle. Qed.

Lemma wp_wiov_add_step c F V W (Q : unit + Z → st → mem → Prop) ms :
  sinv c F V W →
  (W = [] ∨ wiov_isfull (send c) = true → ∀ c', sinv c' F V W → sout c' = sout c → swr c' = swr c → send c' = send c → sfresh c' = sfresh c → Q (inr RTMQ_OK) c' ms) →
  (∀ p m W' c', W = (p, m) :: W' → wiov_isfull (send c) = false → sinv c' F (V ++ [moved (p, m)]) W' → sout c' = sout c → swr c' = swr c →
     iov_max (send c') = iov_max (send c) → sfresh c' = sfresh c → Q (inl tt) c' ms) →
  wp wiov_add_step Q c ms.
Proof.
  intros Hc Hdone Hmove. pose proof Hc as [Hm (ps & Hl & Hps) Hs Hnd HF [HV HW]]. unfold wiov_add_step. apply wp_bind. unfold get, wp at 1.
  destruct (wiov_isfull (send c)) eqn:Efull; [apply wp_ret; by apply Hdone; [right|..]|].
  apply wp_bind. unfold on_mesgs. apply wp_zoom. eapply wp_lpop2; [exact Hl|]. destruct ps as [|[q p] ps].
  - apply wp_ret. destruct W; [|done]. apply Hdone; [by left| |done..]. destruct c. exact Hc.
  - destruct W as [|[p' m] W]; [done|]. cbn [fmap list_fmap fst snd] in Hps. injection Hps as -> Hps. intros l' Hl'.
    apply Forall_cons in HW as [Hok HW]. cbn [snd] in Hok. pose proof (sendable_len _ Hok) as [Hlen Hhl].
    rewrite (sown_perm _ _ _ (cells_wait V p' m W) Hnd) in Hm. rewrite cells_wait in Hnd, HF. cbn [fmap list_fmap fst] in Hnd, HF.
    set (C := vcells V ++ wcells W) in *. apply wp_bind, wp_on_smem. cbn [smem set_mesgs].
    eapply (wp_rd_head _ _ p' [] (m_head m) (m_body m)); [exact Hm|apply own_lookup|done|apply Hok|]. apply wp_bind.
    rewrite (proj2 (Z.eqb_eq _ _)) by (symmetry; apply Hok). cbn [cassert]. apply wp_ret. apply wp_bind, wp_on_smem. cbn [smem set_smem].
    eapply wp_mref_check; [exact Hm|eapply mrep_id; [exact Hm|apply own_lookup]|]. intros s1 Hm1 Hf1. apply wp_bind, wp_on_smem. cbn [smem set_smem].
    eapply (wp_wr_head _ _ p' [] (m_head m) _ (m_body m)); [exact Hm1|apply own_lookup|done|]. intros s2 Hm2 Hf2.
    rewrite own_update in Hm2. apply wp_bind. unfold on_send. apply wp_zoom. cbn [send set_smem set_mesgs].
    assert (0 ≤ h_length (m_head m)) by lia. unfold HEAD_SIZE. rewrite i32_small, u64_small by lia.
    eapply wp_item_add; [exact Hs| |].
    { destruct Hs as [[? ? Hmax _] _]. unfold wiov_isfull in Efull. apply Z.eqb_neq in Efull. lia. }
    intros w' Hw' Hmax Hidx. apply wp_ret. apply (Hmove p' m W); [done|done| |done|done|exact Hmax|cbn; congruence].
    pose proof (cells_moved V p' m W) as Hp. fold C in Hp. constructor; cbn [smem mesgs send set_send set_smem set_mesgs].
    + unfold host, wire in *. rewrite (sown_perm _ _ F Hp); [exact Hm2|]. by rewrite Hp.
    + by exists ps.
    + rewrite fmap_app. cbn [fmap list_fmap]. unfold send_item at 2. cbn [moved sg_blk sg_off sg_img fst snd].
      rewrite length_wire, Nat.sub_0_r, Hhl in *. replace (Z.of_nat (20 + length (m_body m))) with (20 + Z.of_nat (length (m_body m))) by lia.
      exact Hw'.
    + by rewrite Hp.
    + by rewrite Hp.
    + split; [|done]. apply Forall_app. split; [done|]. constructor; [|done]. unfold sg_ok, moved. cbn [sg_off sg_img snd]. rewrite length_wire. lia.
Qed.

Lemma wp_wiov_add c F V W (Q : Z → st → mem → Prop) ms :
  sinv c F V W →
  (∀ W1 W2 c', W = W1 ++ W2 → W2 = [] ∨ wiov_isfull (send c') = true → sinv c' F (V ++ (moved <$> W1)) W2 → sout c' = sout c → swr c' = swr c →
     iov_max (send c') = iov_max (send c) → sfresh c' = sfresh c → Q RTMQ_OK c' ms) →
  wp rtmq_rsvr_wiov_add Q c ms.
Proof.
  intros Hc HQ. unfold rtmq_rsvr_wiov_add. apply wp_bind. unfold get, wp at 1.
  assert (length W < S (list2_fuel (mesgs c)))%nat as Hf.
  { destruct (si_list _ _ _ _ Hc) as (ps & Hl & Hps). apply (f_equal length) in Hps. rewrite !length_fmap in Hps.
    pose proof (rep2_fuel _ _ Hl). lia. }
  revert Hf. generalize (S (list2_fuel (mesgs c))). intros n Hn. revert n c V Hn Hc HQ.
  induction W as [|[p m] W IH]; intros n c V Hn Hc HQ; (destruct n as [|n]; [simpl in Hn; lia|]); apply wp_loop_step;
    (eapply wp_wiov_add_step; [exact Hc|..]).
  - intros _ c' Hc' Ho Hw Hs Hf. apply (HQ [] []); [done|by left|by rewrite app_nil_r|done|done|by rewrite Hs|done].
  - intros p m W' c' [=].
  - intros [[=]|Hfull] c' Hc' Ho Hw Hs Hf. apply (HQ [] ((p, m) :: W)); [done|right; by rewrite Hs|by rewrite app_nil_r|done|done|by rewrite Hs|done].
  - intros p' m' W' c' [= -> -> ->] Hfull Hc' Ho Hw Hs Hf. eapply (IH n c'); [simpl in Hn; lia|exact Hc'|].
    intros W1 W2 c2 -> Hdone Hc2 Ho2 Hw2 Hs2 Hf2. apply (HQ ((p', m') :: W1) W2); [done|done| |congruence..].
    cbn [fmap list_fmap]. by rewrite <-app_assoc in Hc2.
Qed.

(** *** The bytes offered to the socket *)

Lemma wp_iov_bytes c M V2 : ∀ V1 (Q : list Z → st → mem → Prop) ms,
  mrep (smem c) M → Forall (λ x, M !! sg_blk x = Some (sg_img x, 1)) V2 → Forall sg_ok V2 →
  wrep (send c) (send_item <$> (V1 ++ V2)) → Q (concat (sg_rest <$> V2)) c ms →
  wp (iov_bytes (length V2) (iov_idx (send c) + Z.of_nat (length V1))) Q c ms.
Proof.
  induction V2 as [|x V2 IH]; intros V1 Q ms Hm HM Hok Hw HQ; [by apply wp_ret|]. cbn [length iov_bytes].
  apply Forall_cons in HM as [Hx HM]. apply Forall_cons in Hok as [Hxo Hok]. unfold sg_ok in Hxo.
  apply wp_bind. unfold get, wp at 1. apply wp_bind.
  pose proof Hw as [[H1 H2 H3 (lo & lv & Ho & Hv & Hlo & Hlv & Hsv & Hso)] _].
  assert (lv !! (Z.to_nat (iov_idx (send c)) + length V1)%nat = Some (send_item x).1) as Hi.
  { rewrite <-lookup_drop. rewrite <-(lookup_take_lt _ (length (send_item <$> (V1 ++ x :: V2)))).
    2: { rewrite length_fmap, length_app. simpl. lia. }
    rewrite Hsv, !fmap_app, lookup_app_r; rewrite !length_fmap; [|done]. by rewrite Nat.sub_diag. }
  eapply wp_arr_rd; [exact Hv|lia|replace (Z.to_nat _) with (Z.to_nat (iov_idx (send c)) + length V1)%nat by lia; exact Hi|].
  apply wp_bind, wp_on_smem. cbn [send_item fst iov_blk iov_off iov_len].
  eapply (wp_blk_rd _ _ _ _ _ _ _ (sg_rest x)); [exact Hm|exact Hx| |].
  { unfold rd_bytes. rewrite decide_True by lia. rewrite !Nat2Z.id. f_equal. unfold sg_rest.
    rewrite take_ge by (rewrite length_drop; lia). done. }
  apply wp_bind. replace (set_smem (smem c) c) with c by (by destruct c).
  replace (iov_idx (send c) + Z.of_nat (length V1) + 1) with (iov_idx (send c) + Z.of_nat (length (V1 ++ [x]))) by (rewrite length_app; simpl; lia).
  apply IH; [done|done|done|by rewrite <-app_assoc|]. apply wp_ret. exact HQ.
Qed.

Lemma sinv_lookup c F V W : sinv c F V W → Forall (λ x, own (vcells V ++ wcells W) F !! sg_blk x = Some (sg_img x, 1)) V.
Proof.
  intros [_ _ _ Hnd _ _]. apply Forall_forall. intros x Hx. unfold own. apply lookup_union_Some_l.
  apply elem_of_list_to_map_1; [done|]. apply elem_of_app. left. apply list_elem_of_fmap. by exists x.
Qed.

Lemma wp_writev c F V W (Q : Z → st → mem → Prop) ms :
  sinv c F V W →
  (∀ n evs, 0 ≤ n ≤ Z.of_nat (length (concat (sg_rest <$> V))) →
     (swr c = [] ∧ evs = [] ∧ n = 0 ∨ ∃ k, swr c = WrSent k :: evs ∧ n = Z.max 0 (Z.min k (Z.of_nat (length (concat (sg_rest <$> V)))))) →
     Q n (SendSt (smem c) (mesgs c) (send c) evs (sout c ++ take (Z.to_nat n) (concat (sg_rest <$> V)))) ms) →
  (∀ evs, swr c = WrErr :: evs → Q (-1) (SendSt (smem c) (mesgs c) (send c) evs (sout c)) ms) →
  wp sck_writev Q c ms.
Proof.
  intros Hc HS HE. unfold sck_writev. apply wp_bind. unfold get, wp at 1. apply wp_bind.
  assert (Z.to_nat (wiov_item_num (send c)) = length V) as ->.
  { destruct (si_send _ _ _ _ Hc) as [[_ H2 _ _] _]. rewrite length_fmap in H2. unfold wiov_item_num. lia. }
  replace (iov_idx (send c)) with (iov_idx (send c) + Z.of_nat (length (@nil sending))) by (simpl; lia).
  eapply wp_iov_bytes; [apply Hc|by eapply sinv_lookup|apply Hc|apply Hc|].
  destruct (swr c) as [|[|k] evs] eqn:E.
  - apply wp_ret. specialize (HS 0 []). rewrite take_0, app_nil_r in HS. destruct c; cbn in *. subst. apply HS; [lia|by left].
  - apply wp_bind. unfold put, wp at 1. apply wp_ret. by apply HE.
  - apply wp_bind. unfold put, wp at 1. apply wp_ret. apply HS; [lia|]. right. by exists k.
Qed.

(** *** What the socket took *)

Fixpoint sent (n : nat) V : list sending * list sending :=
  match V with
  | [] => ([], [])
  | x :: V =>
      if (length (sg_rest x) <=? n)%nat then let '(d, r) := sent (n - length (sg_rest x)) V in (x :: d, r)
      else ([], Sending (sg_blk x) (sg_img x) (sg_off x + n) :: V)
  end.

Lemma sent_spec n V : Forall sg_ok V →
  vcells (sent n V).1 ++ vcells (sent n V).2 = vcells V ∧ concat (sg_rest <$> (sent n V).2) = drop n (concat (sg_rest <$> V)) ∧
  Forall sg_ok (sent n V).2 ∧
  adjust (Z.of_nat n) (send_item <$> V) = ((send_item <$> (sent n V).1).*2, send_item <$> (sent n V).2).
Proof.
  revert n. induction V as [|x V IH]; intros n Hok; [cbn; by rewrite drop_nil|]. apply Forall_cons in Hok as [Hx Hok]. unfold sg_ok in Hx.
  cbn [sent fmap list_fmap adjust send_item iov_len concat].
  assert (length (sg_rest x) = length (sg_img x) - sg_off x)%nat as Hl by (unfold sg_rest; by rewrite length_drop). rewrite Hl.
  destruct (Nat.leb_spec (length (sg_img x) - sg_off x) n) as [Hle|Hgt].
  - rewrite (proj2 (Z.leb_le _ _)) by lia. destruct (IH (n - (length (sg_img x) - sg_off x))%nat Hok) as (H1 & H2 & H3 & H4).
    destruct (sent (n - (length (sg_img x) - sg_off x)) V) as [d r]. cbn [fst snd] in *.
    replace (Z.of_nat n - Z.of_nat (length (sg_img x) - sg_off x)) with (Z.of_nat (n - (length (sg_img x) - sg_off x))) by lia.
    rewrite H4. split_and!; [|by rewrite drop_app_ge, Hl by lia|done|done]. unfold vcells in *. cbn [fmap list_fmap app]. by rewrite H1.
  - rewrite (proj2 (Z.leb_gt _ _)) by lia. cbn [fst snd fmap list_fmap concat app]. split_and!; [done| |constructor; [unfold sg_ok; simpl; lia|done]|].
    + rewrite drop_app_le by lia. unfold sg_rest. cbn [sg_off sg_img]. by rewrite drop_drop.
    + f_equal. f_equal. unfold send_item. cbn [sg_blk sg_img sg_off iov_blk iov_off iov_len]. f_equal. f_equal; lia.
Qed.

Lemma wp_iov_release F R V : ∀ (Q : unit → mref_st T → mem → Prop) s ms,
  mrep s (own (vcells V ++ R) F) → NoDup (vcells V ++ R).*1 → Forall (λ p, F !! p = None) (vcells V ++ R).*1 →
  (∀ s', mrep s' (own R F) → fresh (mblk s') = fresh (mblk s) → Q tt s' ms) →
  wp (for_each (run_item mref_dealloc_cb) (send_item <$> V).*2) Q s ms.
Proof.
  induction V as [|x V IH]; intros Q s ms Hm Hnd HF HQ; [by apply HQ|].
  cbn [vcells fmap list_fmap app for_each snd send_item fst] in *. apply NoDup_cons in Hnd as [Hx Hnd]. apply Forall_cons in HF as [HFx HF].
  apply wp_bind. unfold run_item, mref_dealloc_cb, mref_dealloc. cbn [wo_addr]. apply wp_bind.
  eapply wp_mref_dec; [exact Hm|apply own_lookup|]. change (1 =? 1) with true. cbn iota. intros s1 Hm1 Hf1. apply wp_ret.
  rewrite (own_delete _ _ _ _ Hx HFx) in Hm1. eapply IH; [exact Hm1|done|done|]. intros s2 Hm2 Hf2. apply HQ; [done|congruence].
Qed.

(** One turn of the send loop, with the bytes [S] to send: the result, the number
    of the bytes that go, one at least if the socket takes any, and the events
    left. *)
Inductive send_turn : list Z → list wr_ev → Z → nat → list wr_ev → Prop :=
  | turn_idle evs : send_turn [] evs RTMQ_OK 0 evs
  | turn_none S : S ≠ [] → send_turn S [] RTMQ_OK 0 []
  | turn_err S evs : S ≠ [] → send_turn S (WrErr :: evs) RTMQ_ERR 0 evs
  | turn_sent S k n evs : S ≠ [] → (n ≤ length S)%nat → Z.of_nat n ≤ Z.max 0 k → (0 < k → (0 < n)%nat) →
      send_turn S (WrSent k :: evs) RTMQ_OK n evs.

Lemma to_send_nil V W : Forall sg_ok V → to_send V W = [] → V = [] ∧ W = [].
Proof.
  intros Hok HS. unfold to_send in HS. apply app_nil in HS as [HV HW]. split.
  - destruct Hok as [|x V Hx Hok]; [done|]. unfold sg_ok in Hx. cbn [fmap list_fmap concat] in HV. apply app_nil in HV as [HV _].
    apply (f_equal length) in HV. unfold sg_rest in HV. rewrite length_drop in HV. change (length (@nil Z)) with 0%nat in HV. lia.
  - destruct W as [|[p m] W]; [done|]. apply (f_equal length) in HW. change (((p, m) :: W).*2) with (m :: W.*2) in HW.
    rewrite wires_cons, length_app, length_wire in HW. change (length (@nil Z)) with 0%nat in HW. lia.
Qed.

Lemma to_send_app V W1 W2 : to_send (V ++ (moved <$> W1)) W2 = to_send V (W1 ++ W2).
Proof.
  revert V. induction W1 as [|x W1 IH]; intros V; cbn [fmap list_fmap app]; [by rewrite app_nil_r|].
  rewrite <-to_send_moved, <-IH. by rewrite <-app_assoc.
Qed.

Lemma wp_send_proc c F V W (Q : Z → st → mem → Prop) ms :
  sinv c F V W → 0 < iov_max (send c) →
  (∀ z n c' V' W', send_turn (to_send V W) (swr c) z n (swr c') → sinv c' F V' W' → sout c' = sout c ++ take n (to_send V W) →
     to_send V' W' = drop n (to_send V W) → W' `suffix_of` W → iov_max (send c') = iov_max (send c) → sfresh c' = sfresh c → Q z c' ms) →
  wp send_proc Q c ms.
Proof.
  intros Hc Hmax HQ. unfold send_proc. apply wp_bind. unfold get, wp at 1. apply wp_bind.
  (* the vector once it has been filled *)
  assert (∀ c1 W1 W2, W = W1 ++ W2 → W2 = [] ∨ wiov_isfull (send c1) = true → sinv c1 F (V ++ (moved <$> W1)) W2 → sout c1 = sout c →
    swr c1 = swr c → iov_max (send c1) = iov_max (send c) → sfresh c1 = sfresh c →
    wp (c ← get; if wiov_isempty (send c) then mret RTMQ_OK else
      n ← sck_writev; if n <? 0 then mret RTMQ_ERR else on_iov (wiov_item_adjust n);; mret RTMQ_OK) Q c1 ms) as Hrest.
  2: { destruct (wiov_isfull (send c)) eqn:Ef; cbn [negb].
       - apply wp_ret. apply (Hrest c [] W); [done|by right|by rewrite app_nil_r|done..].
       - apply wp_bind. eapply wp_wiov_add; [exact Hc|]. intros W1 W2 c1 HW Hd Hc1 Ho Hw Hm Hf. apply wp_ret. by apply (Hrest c1 W1 W2). }
  intros c1 W1 W2 HW Hd Hc1 Ho Hw Hm Hf. pose proof (to_send_app V W1 W2) as HS. rewrite <-HW in HS.
  rewrite <-HS, <-Ho, <-Hw, <-Hm, <-Hf in HQ. rewrite <-Hm in Hmax. assert (W2 `suffix_of` W) as Hsuf by (by exists W1). set (V1 := V ++ (moved <$> W1)) in *. clearbody V1. clear HS HW Ho Hw Hm Hf Hc V W1 c. rename W into W0.
  apply wp_bind. unfold get, wp at 1. rewrite (wrep_empty _ _ (si_send _ _ _ _ Hc1)).
  destruct V1 as [|x V1]; cbn [fmap list_fmap].
  - apply wp_ret. assert (W2 = []) as ->.
    { destruct Hd as [?|Hf]; [done|]. destruct (si_send _ _ _ _ Hc1) as [[_ Hcnt _ _] Hi]. unfold wiov_isfull in Hf. apply Z.eqb_eq in Hf.
      rewrite (Hi eq_refl) in Hcnt. simpl in Hcnt. lia. }
    apply (HQ _ 0%nat c1 [] []); [constructor|done|by rewrite app_nil_r|done|exact Hsuf|done..].
  - set (V := x :: V1) in *. assert (to_send V W2 ≠ []) as HSn by (intros HS; by apply to_send_nil in HS as [? _]; [|apply Hc1]).
    apply wp_bind. eapply wp_writev; [exact Hc1|..].
    2: { intros evs Hev. change (-1 <? 0) with true. cbn iota. apply wp_ret. rewrite Hev in HQ.
         apply (HQ _ 0%nat _ V W2); [by constructor| |by rewrite take_0, app_nil_r|done..]. by destruct Hc1. }
    intros n evs Hn Hev. rewrite (proj2 (Z.ltb_ge _ _)) by lia. cbn iota. apply wp_bind. unfold on_iov. apply wp_zoom. cbn [send smem].
    pose proof (si_ok _ _ _ _ Hc1) as [HV HW]. destruct (sent_spec (Z.to_nat n) V HV) as (H1 & H2 & H3 & H4).
    rewrite Z2Nat.id in H4 by lia. eapply (wp_item_adjust mref_dealloc_cb); [apply Hc1| |lia|].
    { apply Forall_fmap, Forall_true. done. }
    rewrite H4. cbn [fst snd]. pose proof Hc1 as [Hm Hl Hs Hnd HF _]. rewrite <-H1, <-app_assoc in Hm, Hnd, HF.
    eapply wp_iov_release; [exact Hm|exact Hnd|exact HF|]. intros s' Hs' Hfs w' Hw' Hwm. apply wp_ret. cbn [mesgs swr sout fst snd].
    rewrite fmap_app in Hnd, HF. apply NoDup_app in Hnd as (_ & _ & Hnd). apply Forall_app in HF as [_ HF].
    assert (to_send (sent (Z.to_nat n) V).2 W2 = drop (Z.to_nat n) (to_send V W2)) as Hts.
    { unfold to_send. rewrite H2, drop_app_le by lia. done. }
    apply (HQ _ (Z.to_nat n) _ (sent (Z.to_nat n) V).2 W2); [| |cbn [sout]|done|exact Hsuf|done|exact Hfs].
    + assert (Z.to_nat n ≤ length (to_send V W2))%nat as Hle by (unfold to_send; rewrite length_app; lia). cbn [swr].
      destruct Hev as [(-> & -> & ->)|(k & -> & Hk)]; [by constructor|]. constructor; [done|done|lia|].
      intros Hk0. assert (0 < length (concat (sg_rest <$> V)))%nat; [|lia].
      apply Forall_cons in HV as [Hx _]. unfold sg_ok in Hx. cbn [V fmap list_fmap concat]. rewrite length_app. unfold sg_rest. rewrite length_drop. lia.
    + constructor; cbn [smem mesgs send]; done.
    + unfold to_send. by rewrite take_app_le by lia.
Qed.
End Spec.

(** * Properties *)

(** A message put in the list, as the handlers and the distribution do, or a turn
    of the send loop. *)
Inductive send_act := SMesg (m : mesg) | STurn.

Section Props.
Context {T : Type → Type} `{TreeLaws T}.
Abbreviation st := (send_st T).

(** A block for the message [m]. *)
Definition mesg_alloc (m : mesg) : SM (mref_st T) ptr :=
  p ← mref_alloc (HEAD_SIZE + h_length (m_head m)) 0 mem_alloc mem_free;
  if p =? NULL then mret NULL else
  wr_head p 0 (m_head m);;
  blk_wr p HEAD_SIZE (m_body m);;
  mret p.

Definition run_send_act (k : send_act) : SM st Z :=
  match k with
  | SMesg m =>
      p ← on_smem (mesg_alloc m);
      if p =? NULL then mret RTMQ_ERR else
      ret ← on_mesgs (list2_rpush p);
      if negb (ret =? 0) then on_smem (mref_dec p);; mret RTMQ_ERR else mret RTMQ_OK
  | STurn => send_proc
  end.

Fixpoint run_send_acts (ks : list send_act) : SM st Z :=
  match ks with
  | [] => mret RTMQ_OK
  | k :: ks => z ← run_send_act k; if negb (z =? RTMQ_OK) then mret z else run_send_acts ks
  end.

(** The messages put in the list, and the most bytes that can be left when every
    turn with bytes to send sends one. *)
Fixpoint put_mesgs (ks : list send_act) : list mesg :=
  match ks with [] => [] | SMesg m :: ks => m :: put_mesgs ks | STurn :: ks => put_mesgs ks end.
Fixpoint backlog (ks : list send_act) (p : nat) : nat :=
  match ks with [] => p | SMesg m :: ks => backlog ks (p + length (wire m)) | STurn :: ks => backlog ks (pred p) end.

Definition takes (e : wr_ev) : Prop := match e with WrErr => False | WrSent k => 0 < k end.

Lemma wp_mesg_alloc s (G : mmap) m (Q : ptr → mref_st T → mem → Prop) :
  mrep s G → sendable m → fresh (mblk s) < ADDR_MAX →
  (∀ p s', p ≠ NULL → G !! p = None → mrep s' (<[p := (host m, 1)]> G) → fresh (mblk s') = fresh (mblk s) + 1 → Q p s' []) →
  wp (mesg_alloc m) Q s [].
Proof.
  intros Hm Hok Hf HQ. pose proof (sendable_len _ Hok) as [Hlen Hhl]. unfold mesg_alloc. apply wp_bind.
  eapply wp_mref_alloc; [exact Hm|unfold HEAD_SIZE; lia|done|]. intros p s1 Hp HG Hf1 Hm1.
  assert (p ≠ NULL) as Hp0. { subst p. pose proof (mr_fresh _ _ Hm). unfold NULL. lia. }
  rewrite (proj2 (Z.eqb_neq _ _) Hp0). apply wp_bind.
  replace (Z.to_nat (HEAD_SIZE + h_length (m_head m))) with (20 + length (m_body m))%nat in Hm1 by (unfold HEAD_SIZE; lia).
  rewrite replicate_add in Hm1. change (replicate 20 0) with (put_head (Head 0 0 0 0 0)) in Hm1.
  eapply (wp_wr_head _ _ p [] (Head 0 0 0 0 0) (m_head m) (replicate (length (m_body m)) 0)); [exact Hm1|by rewrite lookup_insert_eq|done|].
  intros s2 Hm2 Hf2. rewrite insert_insert_eq in Hm2. apply wp_bind.
  eapply (wp_blk_wr _ _ p _ (put_head (m_head m) ++ m_body m)); [exact Hm2|by rewrite lookup_insert_eq| |].
  { pose proof (wr_bytes_app (put_head (m_head m)) (replicate (length (m_body m)) 0) [] (m_body m)) as Hw.
    rewrite !app_nil_r in Hw. apply Hw. by rewrite length_replicate. }
  intros s3 Hm3 Hf3. rewrite insert_insert_eq in Hm3. apply wp_ret, HQ; [done|done|done|congruence].
Qed.

Lemma backlog_mono ks : ∀ p q, (p ≤ q)%nat → (backlog ks p ≤ backlog ks q)%nat.
Proof. induction ks as [|[m|] ks IH]; intros p q Hpq; cbn [backlog]; [done|apply IH; lia..]. Qed.

Lemma wp_put c F V W m (Q : Z → st → mem → Prop) :
  sinv c F V W → sendable m → fresh (mblk (smem c)) < ADDR_MAX →
  (∀ c' p, sinv c' F V (W ++ [(p, m)]) → sout c' = sout c → swr c' = swr c → iov_max (send c') = iov_max (send c) →
     fresh (mblk (smem c')) = fresh (mblk (smem c)) + 1 → Q RTMQ_OK c' []) →
  wp (run_send_act (SMesg m)) Q c [].
Proof.
  intros Hc Hok Hf HQ. pose proof Hc as [Hm (ps & Hl & Hps) Hs Hnd HF [HV HW]]. cbn [run_send_act]. apply wp_bind, wp_on_smem.
  eapply wp_mesg_alloc; [exact Hm|done|done|]. intros p s1 Hp Hpn Hm1 Hf1. rewrite (proj2 (Z.eqb_neq _ _) Hp).
  apply wp_bind. unfold on_mesgs. apply wp_zoom. eapply wp_rpush2; [exact Hl|]. simpl. intros l' q Hl'. change (0 =? 0) with true.
  cbn [negb]. apply wp_ret. destruct (sown_fresh _ _ _ Hpn) as [Hpc HpF].
  assert (vcells V ++ wcells (W ++ [(p, m)]) ≡ₚ (p, (host m, 1)) :: vcells V ++ wcells W) as Hp'.
  { unfold wcells. rewrite fmap_app. simpl. rewrite app_assoc. by rewrite <-Permutation_cons_append. }
  apply (HQ _ p); [|done|done|done|exact Hf1]. constructor; cbn [smem mesgs send set_mesgs set_smem].
  - rewrite own_insert in Hm1. rewrite (sown_perm _ _ F Hp'); [exact Hm1|]. rewrite Hp'. by constructor.
  - exists (ps ++ [(q, p)]). split; [exact Hl'|]. by rewrite !fmap_app, Hps.
  - done.
  - rewrite Hp'. by constructor.
  - rewrite Hp'. by constructor.
  - split; [done|]. apply Forall_app. split; [done|]. by constructor.
Qed.

Lemma to_send_put V W p m : to_send V (W ++ [(p, m)]) = to_send V W ++ wire m.
Proof. unfold to_send. rewrite fmap_app, wires_app, app_assoc. unfold wires at 2. simpl. by rewrite app_nil_r. Qed.

(** A turn on a socket that takes what it is given, a byte at least. *)
Lemma turn_takes S evs z n evs' : send_turn S evs z n evs' → Forall takes evs →
  z = RTMQ_OK ∧ (∃ used, evs = used ++ evs' ∧ (length used ≤ 1)%nat) ∧ (n ≤ length S)%nat ∧
  (evs ≠ [] → (length S - n ≤ pred (length S))%nat).
Proof.
  intros Ht Hev. destruct Ht as [evs|S HS|S evs HS|S k n evs HS Hn Hk Hk1]; simpl.
  - split_and!; [done|by exists []; split; [|simpl; lia]|lia|lia].
  - split_and!; [done|by exists []; split; [|simpl; lia]|lia|done].
  - by apply Forall_cons in Hev as [[] _].
  - apply Forall_cons in Hev as [Hk0 _]. specialize (Hk1 Hk0). split_and!; [done|exists [WrSent k]; by split; [|simpl; lia]|done|lia].
Qed.

(** C36: the send side of a connection.  The messages put in the list of a
    connection go out in order, unchanged, and one after the other, whatever
    part of them each call of [writev] takes: what the socket took is a prefix of
    the stream, and the rest is in memory, in blocks the connection alone holds.
    If each call takes a byte at least, every turn brings the end nearer; once
    all is sent, the memory of the connection has been given back. *)
Theorem send_stream ks : ∀ c (F : mmap) V W,
  sinv c F V W → 0 < iov_max (send c) → Forall sendable (put_mesgs ks) → Forall takes (swr c) →
  fresh (mblk (smem c)) + Z.of_nat (length (put_mesgs ks)) ≤ ADDR_MAX →
  wp (run_send_acts ks) (λ z c' ms', ms' = [] ∧ z = RTMQ_OK ∧ ∃ V' W', sinv c' F V' W' ∧
    sout c' ++ to_send V' W' = sout c ++ to_send V W ++ wires (put_mesgs ks) ∧
    ((length ks ≤ length (swr c))%nat → (length (to_send V' W') ≤ backlog ks (length (to_send V W)))%nat) ∧
    (to_send V' W' = [] → mrep (smem c') F)) c [].
Proof.
  assert (∀ c (F : mmap) V W, sinv c F V W → to_send V W = [] → mrep (smem c) F) as Hend.
  { intros c F V W [Hm _ _ _ _ [HV _]] HS. apply to_send_nil in HS as [-> ->]; [|done]. unfold own in Hm. cbn in Hm.
    by rewrite (left_id_L ∅ (∪)) in Hm. }
  induction ks as [|[m|] ks IH]; intros c F V W Hc Hmax Hok Hev Hf; cbn [run_send_acts put_mesgs backlog length] in *.
  - apply wp_ret. split_and!; [done|done|]. exists V, W. split_and!; [done|by rewrite app_nil_r|done|by eapply Hend].
  - apply Forall_cons in Hok as [Hm Hok]. apply wp_bind. eapply wp_put; [exact Hc|done|lia|]. intros c1 p Hc1 Ho Hw Hmx Hf1.
    change (negb (RTMQ_OK =? RTMQ_OK)) with false. cbn iota.
    eapply wp_mono; [apply (IH c1 F V (W ++ [(p, m)])); [done|lia|done|by rewrite Hw|lia]|].
    intros z c' ms' (-> & -> & V' & W' & Hc' & Hout & Hback & He). split_and!; [done|done|]. exists V', W'.
    rewrite to_send_put, Ho in Hout. rewrite to_send_put, length_app, Hw in Hback. split_and!; [done| |by intros ?; apply Hback; lia|done].
    rewrite Hout, wires_cons. by rewrite <-!app_assoc.
  - apply wp_bind. eapply wp_send_proc; [exact Hc|done|]. intros z n c1 V1 W1 Ht Hc1 Ho HS _ Hmx Hf1.
    destruct (turn_takes _ _ _ _ _ Ht Hev) as (-> & (used & Hused & Hul) & Hn & Hless). change (negb (RTMQ_OK =? RTMQ_OK)) with false. cbn iota.
    pose proof Hev as Hev1. rewrite Hused in Hev1. apply Forall_app in Hev1 as [_ Hev1].
    eapply wp_mono; [apply (IH c1 F V1 W1); [done|lia|done|done|lia]|].
    intros z c' ms' (-> & -> & V' & W' & Hc' & Hout & Hback & He). split_and!; [done|done|]. exists V', W'. split_and!; [done| | |done].
    + rewrite Hout, Ho, HS, <-!app_assoc. by rewrite (app_assoc (take n _)), take_drop.
    + intros Hlen. rewrite Hused, length_app in Hlen. etrans; [apply Hback; lia|]. apply backlog_mono. rewrite HS, length_drop. apply Hless.
      intros E. rewrite Hused in E. apply (f_equal length) in E. rewrite length_app in E. simpl in E. lia.
Qed.
End Props.

(** ** Witness *)

Definition out_mesg (n : Z) (body : list Z) : mesg := Mesg (Head 0x0102 n RTMQ_EXP_MESG (Z.of_nat (length body)) RTMQ_CHKSUM_VAL) body.
Definition send_demo : list send_act :=
  [SMesg (out_mesg 7 [1; 2; 3]); STurn; SMesg (out_mesg 7 []); SMesg (out_mesg 7 [4; 5]); STurn; STurn; STurn; STurn].
Definition send_events : list wr_ev := [WrSent 10; WrSent 20; WrSent 1; WrSent 100; WrSent 100; WrSent 1; WrSent 1; WrSent 1].

(** A new connection, with room for two items in its vector. *)
Definition new_send {T} `{TreeOps T} (s : mref_st T) : send_st T :=
  SendSt s (MkList2 0 NULL empty_heap)
    (Wiov 2 0 0 (ALive (replicate 2 (Orig NULL 0 0 None None))) (ALive (replicate 2 (Iov NULL 0 0)))) send_events [].

Lemma new_send_inv (s : mref_st htree) : mrep s ∅ → sinv (new_send s) ∅ [] [].
Proof.
  intros Hs. constructor; cbn; [by unfold own; rewrite (left_id_L ∅ (∪))|..|constructor|constructor|by split].
  - exists []. split; [|done]. constructor; [apply hp_empty|done|done].
  - split; [|done]. constructor; [done|done|done|]. by eexists _, _.
Qed.

Lemma send_stream_witness : ∃ c : send_st htree, swr c = send_events ∧
  wp (run_send_acts send_demo) (λ z c' ms', z = RTMQ_OK ∧ ∃ V' W', sinv c' ∅ V' W' ∧
    sout c' ++ to_send V' W' = wires (put_mesgs send_demo) ∧ (length (to_send V' W') ≤ 60)%nat) c [].
Proof.
  assert (wp (mref_init (T := htree) empty_heap) (λ o _ _, ∃ s, o = Some s ∧ mrep s ∅ ∧ fresh (mblk s) = 1) tt []) as Hi.
  { apply wp_mref_init; [done|by vm_compute|]. intros s Hs Hb. exists s. split_and!; [done|done|by rewrite Hb]. }
  apply wp_elim in Hi as (o & u & ms & _ & s & _ & Hs & Hf). exists (new_send s). split; [done|].
  eapply wp_mono; [apply (send_stream send_demo (new_send s) ∅ [] []); [by apply new_send_inv|done|..]|].
  - repeat constructor; done.
  - repeat constructor; done.
  - cbn [new_send smem]. rewrite Hf. by vm_compute.
  - intros z c' ms' (-> & -> & V' & W' & Hc' & Hout & Hback & _). split; [done|]. exists V', W'. split_and!; [done|done|].
    etrans; [apply Hback; simpl; lia|]. apply Nat.leb_le. by vm_compute.
Defined.
