(* ===== verification/RtmqComm.v ===== *)
(** The tables the threads of the RTMQ server share
    ([lib/rtmq/server/rtmq_comm.c], and the accounts of [rtmq_recv.c]): the
    accounts, the map from nodes to receive threads and the subscriptions. *)
From S2P Require Import Prelude Heap List Table HashTab Vector Trees.
Open Scope Z_scope.

(** ** Strings *)

(** A C string is the list of its bytes, without the final NUL. *)
Fixpoint strcmp (s1 s2 : list Z) : Z :=
  match s1, s2 with
  | [], [] => 0
  | [], b :: _ => - b
  | a :: _, [] => a
  | a :: s1, b :: s2 => if a =? b then strcmp s1 s2 else a - b
  end.

(** [snprintf(buff, size, "%s", s)]. *)
Definition str_copy (size : nat) (s : list Z) : list Z := take (size - 1) s.

Definition RTMQ_USR_MAX_LEN : nat := 32.
Definition RTMQ_PWD_MAX_LEN : nat := 16.

(** ** Data *)

Record rtmq_auth_t := Auth { a_usr : list Z; a_passwd : list Z }.
Definition rtmq_auth_cmp_cb (auth1 auth2 : rtmq_auth_t) : Z := strcmp (a_usr auth1) (a_usr auth2).

Definition RTRD_NODE_TO_SVR_MAX_LEN : Z := 32.
Record rtmq_node_to_svr_map_t := NodeMap { nm_nid : Z; nm_num : Z; nm_rsvr : list Z }.
Definition rtmq_node_to_svr_map_cmp_cb (map1 map2 : rtmq_node_to_svr_map_t) : Z :=
  i32 (nm_nid map1 - nm_nid map2).

Record rtmq_sub_node_t := SubNode { sn_sid : Z; sn_nid : Z }.
Record rtmq_sub_group_t := SubGroup { sg_gid : Z; sg_nodes : vector_t rtmq_sub_node_t }.
(** [None] is the pointer of a key, which is not set. *)
Record rtmq_sub_list_t (T : Type → Type) := SubList { sl_type : Z; sl_groups : option (T rtmq_sub_group_t) }.
Arguments SubList {_} _ _.
Arguments sl_type {_} _.
Arguments sl_groups {_} _.

(** The difference of two [uint32_t] is an [uint32_t]: the conversion to
    [int64_t] never gives a negative number. *)
Definition cmp_u32 (a b : Z) : Z := u32 (a - b).
Definition rtmq_sub_group_cmp_cb (g1 g2 : rtmq_sub_group_t) : Z := cmp_u32 (sg_gid g1) (sg_gid g2).
Definition rtmq_sub_tab_hash_cb {T} (list : rtmq_sub_list_t T) : Z := sl_type list.
Definition rtmq_sub_tab_cmp_cb {T} (list1 list2 : rtmq_sub_list_t T) : Z := cmp_u32 (sl_type list1) (sl_type list2).
Definition rtmq_sub_group_find_sid_cb (sid : Z) (node : rtmq_sub_node_t) : bool := sn_sid node =? sid.

(** What the tables know of a connection. *)
Record sub_key := SubKey { k_nid : Z; k_gid : Z; k_sid : Z }.

Section Ops.
Context {T : Type → Type} `{TreeOps T}.

Record comm_st := CommSt {
  c_auth : T rtmq_auth_t;
  c_map : T rtmq_node_to_svr_map_t;
  c_map_lock : rwlock;
  c_sub : hash_tab_t htree (rtmq_sub_list_t T);
}.
Definition set_auth a (c : comm_st) : comm_st := CommSt a (c_map c) (c_map_lock c) (c_sub c).
Definition set_map m (c : comm_st) : comm_st := CommSt (c_auth c) m (c_map_lock c) (c_sub c).
Definition set_map_lock l (c : comm_st) : comm_st := CommSt (c_auth c) (c_map c) l (c_sub c).
Definition set_sub h (c : comm_st) : comm_st := CommSt (c_auth c) (c_map c) (c_map_lock c) h.
Abbreviation CM := (SM comm_st).
Definition on_auth {A} : SM (T rtmq_auth_t) A → CM A := zoom c_auth set_auth.
Definition on_map {A} : SM (T rtmq_node_to_svr_map_t) A → CM A := zoom c_map set_map.
Definition on_sub {A} : SM (hash_tab_t htree (rtmq_sub_list_t T)) A → CM A := zoom c_sub set_sub.

(** *** Accounts *)

Definition auth_key (usr : list Z) : rtmq_auth_t := Auth (str_copy RTMQ_USR_MAX_LEN usr) [].

Definition rtmq_auth_add (usr passwd : list Z) : CM Z :=
  auth ← on_auth (tr_query rtmq_auth_cmp_cb (auth_key usr));
  match auth with
  | Some auth => mret (if strcmp (a_passwd auth) passwd =? 0 then 0 else -1)
  | None =>
      ok ← malloc;
      if negb ok then mret (-1) else
      ret ← on_auth (tr_insert rtmq_auth_cmp_cb
              (Auth (str_copy RTMQ_USR_MAX_LEN usr) (str_copy RTMQ_PWD_MAX_LEN passwd)));
      mret (if negb (ret =? 0) then -1 else 0)
  end.

Definition rtmq_auth_trav_add (auth : rtmq_auth_t) : CM Z := rtmq_auth_add (a_usr auth) (a_passwd auth).

(** The accounts of the configuration are a list of [list.c]. *)
Definition rtmq_auth_init (conf_auth : list_t rtmq_auth_t) : CM Z :=
  auth ← tr_creat;
  match auth with
  | None => mret (-1)
  | Some auth =>
      modify (set_auth auth);;
      list_trav conf_auth rtmq_auth_trav_add
  end.

(** The password is read only for a user that is known: [None] is a string
    without its NUL. *)
Definition rtmq_auth_check (usr : list Z) (passwd : option (list Z)) : CM bool :=
  auth ← on_auth (tr_query rtmq_auth_cmp_cb (auth_key usr));
  match auth with
  | Some auth => passwd ← deref passwd; mret (strcmp (a_passwd auth) passwd =? 0)
  | None => mret false
  end.

Definition RTMQ_LINK_AUTH_FAIL : Z := 0.
Definition RTMQ_LINK_AUTH_SUCC : Z := 1.
Definition rtmq_link_auth_check (usr : list Z) (passwd : option (list Z)) : CM Z :=
  ok ← rtmq_auth_check usr passwd;
  mret (if ok : bool then RTMQ_LINK_AUTH_SUCC else RTMQ_LINK_AUTH_FAIL).

(** *** Nodes *)

Definition map_lock_op (f : rwlock → outcome rwlock) : CM unit := λ s ms,
  match f (c_map_lock s) with
  | Ok l => Ok (tt, set_map_lock l s, ms)
  | Blocked => Blocked
  | Crash => Crash
  | NoFuel => NoFuel
  end.

Definition MAP_OK : Z := 0.
Definition MAP_ERR : Z := - 2 ^ 31.
Definition map_key (nid : Z) : rtmq_node_to_svr_map_t := NodeMap nid 0 [].

Definition rtmq_node_to_svr_map_init : CM Z :=
  m ← tr_creat;
  match m with
  | None => mret MAP_ERR
  | Some m => modify (set_map m);; modify (set_map_lock idle);; mret MAP_OK
  end.

(** [map->rsvr_id[map->num++] = rsvr_id]. *)
Definition node_map_push (rsvr_id : Z) (m : rtmq_node_to_svr_map_t) : rtmq_node_to_svr_map_t :=
  NodeMap (nm_nid m) (nm_num m + 1) (<[Z.to_nat (nm_num m) := rsvr_id]> (nm_rsvr m)).

Definition rtmq_node_to_svr_map_add (nid rsvr_id : Z) : CM Z :=
  map_lock_op rwlock_wrlock;;
  map ← on_map (tr_query rtmq_node_to_svr_map_cmp_cb (map_key nid));
  map ← match map with
        | Some map => mret (Some map)
        | None =>
            ok ← malloc;
            if negb ok then mret None else
            let map := NodeMap nid 0 (replicate (Z.to_nat RTRD_NODE_TO_SVR_MAX_LEN) 0) in
            ret ← on_map (tr_insert rtmq_node_to_svr_map_cmp_cb map);
            mret (if negb (ret =? 0) then None else Some map)
        end;
  match map with
  | None => map_lock_op rwlock_unlock;; mret MAP_ERR
  | Some map =>
      if nm_num map >=? RTRD_NODE_TO_SVR_MAX_LEN then map_lock_op rwlock_unlock;; mret MAP_ERR
      else
        on_map (tr_store rtmq_node_to_svr_map_cmp_cb (map_key nid) (node_map_push rsvr_id));;
        map_lock_op rwlock_unlock;;
        mret MAP_OK
  end.

(** The last thread takes the place of the removed one. *)
Definition node_map_drop (idx : nat) (m : rtmq_node_to_svr_map_t) : rtmq_node_to_svr_map_t :=
  let num := nm_num m - 1 in
  NodeMap (nm_nid m) num (<[idx := default 0 (nm_rsvr m !! Z.to_nat num)]> (nm_rsvr m)).

Definition rtmq_node_to_svr_map_del (nid rsvr_id : Z) : CM Z :=
  map_lock_op rwlock_wrlock;;
  map ← on_map (tr_query rtmq_node_to_svr_map_cmp_cb (map_key nid));
  match map with
  | None => map_lock_op rwlock_unlock;; mret MAP_ERR
  | Some map =>
      (match list_index (λ x, x =? rsvr_id) (take (Z.to_nat (nm_num map)) (nm_rsvr map)) with
       | None => mret tt
       | Some idx =>
           on_map (tr_store rtmq_node_to_svr_map_cmp_cb (map_key nid) (node_map_drop idx));;
           if 0 =? nm_num map - 1 then on_map (tr_delete rtmq_node_to_svr_map_cmp_cb (map_key nid));; mret tt
           else mret tt
       end);;
      map_lock_op rwlock_unlock;;
      mret MAP_OK
  end.

(** [r] is what [rand()] returns. *)
Definition rtmq_node_to_svr_map_rand (r nid : Z) : CM Z :=
  map_lock_op rwlock_rdlock;;
  map ← on_map (tr_query rtmq_node_to_svr_map_cmp_cb (map_key nid));
  match map with
  | None => map_lock_op rwlock_unlock;; mret (-1)
  | Some map =>
      if nm_num map =? 0 then crash else
      rsvr_id ← deref (nm_rsvr map !! Z.to_nat (Z.rem r (nm_num map)));
      map_lock_op rwlock_unlock;;
      mret rsvr_id
  end.

(** *** Subscriptions *)

Definition rtmq_sub_init : CM Z :=
  sub ← hash_tab_creat 100;
  match sub with
  | None => mret MAP_ERR
  | Some sub => modify (set_sub sub);; mret MAP_OK
  end.

Definition rtmq_sub_list_alloc {Σ} (type : Z) : SM Σ (option (rtmq_sub_list_t T)) :=
  ok ← malloc;
  if negb ok then mret None else
  groups ← tr_creat;
  match groups with
  | None => mret None
  | Some groups => mret (Some (SubList type (Some groups)))
  end.

Definition rtmq_sub_group_alloc {Σ} (gid : Z) : SM Σ (option rtmq_sub_group_t) :=
  ok ← malloc;
  if negb ok then mret None else
  nodes ← vector_creat 512 128;
  match nodes with
  | None => mret None
  | Some nodes => mret (Some (SubGroup gid nodes))
  end.

Definition rtmq_sub_node_alloc {Σ} (nid sid : Z) : SM Σ (option rtmq_sub_node_t) :=
  ok ← malloc;
  mret (if ok : bool then Some (SubNode sid nid) else None).

Definition rtmq_sub_group_dealloc {Σ} (group : rtmq_sub_group_t) : SM Σ unit :=
  vector_destroy (sg_nodes group) (λ _, mret tt).

Definition rtmq_sub_list_dealloc {Σ} (list : rtmq_sub_list_t T) : SM Σ unit :=
  groups ← deref (sl_groups list);
  tr_trav groups rtmq_sub_group_dealloc;;
  tr_destroy groups (λ _, mret tt).

Definition sub_list_key (type : Z) : rtmq_sub_list_t T := SubList type None.
Definition group_key (gid : Z) : rtmq_sub_group_t := SubGroup gid (Vector 0 0 0 []).

(** Work on the groups of the list at hand, and on the nodes of one of them. *)
Definition on_groups {Σ A} (m : SM (T rtmq_sub_group_t) A) : SM (rtmq_sub_list_t T * Σ) A :=
  x ← get;
  groups ← deref (sl_groups (fst x));
  y ← run_on groups m;
  modify (λ x, (SubList (sl_type (fst x)) (Some (snd y)), snd x));;
  mret (fst y).
Definition group_query {Σ} (gid : Z) : SM (rtmq_sub_list_t T * Σ) (option rtmq_sub_group_t) :=
  on_groups (tr_query rtmq_sub_group_cmp_cb (group_key gid)).
Definition on_nodes_of {Σ A} (group : rtmq_sub_group_t) (m : SM (vector_t rtmq_sub_node_t) A) :
    SM (rtmq_sub_list_t T * Σ) A :=
  y ← run_on (sg_nodes group) m;
  on_groups (tr_store rtmq_sub_group_cmp_cb (group_key (sg_gid group)) (λ _, SubGroup (sg_gid group) (snd y)));;
  mret (fst y).

(** From [QUERY_SUB_GROUP] on, the slot of the list being locked. *)
Definition sub_add_node (sck : sub_key) : SM (rtmq_sub_list_t T * comm_st) Z :=
  group ← retry (
    group ← group_query (k_gid sck);
    match group with
    | Some group => mret (inr (Some group))
    | None =>
        group ← rtmq_sub_group_alloc (k_gid sck);
        match group with
        | None => mret (inr None)
        | Some group =>
            ret ← on_groups (tr_insert rtmq_sub_group_cmp_cb group);
            (if negb (ret =? 0) then rtmq_sub_group_dealloc group else mret tt);;
            mret (inl tt)
        end
    end);
  match group with
  | None => mret MAP_ERR
  | Some group =>
      node ← on_nodes_of group (vector_find (rtmq_sub_group_find_sid_cb (k_sid sck)));
      match node with
      | Some _ => mret MAP_OK
      | None =>
          node ← rtmq_sub_node_alloc (k_nid sck) (k_sid sck);
          match node with
          | None => mret MAP_ERR
          | Some node =>
              ret ← on_nodes_of group (vector_append node);
              mret (if negb (ret =? 0) then MAP_ERR else MAP_OK)
          end
      end
  end.

Definition rtmq_sub_add (sck : sub_key) (type : Z) : CM Z :=
  list ← retry (
    list ← on_sub (hash_tab_query rtmq_sub_tab_hash_cb rtmq_sub_tab_cmp_cb (sub_list_key type) WRLOCK);
    match list with
    | Some _ => mret (inr true)
    | None =>
        list ← rtmq_sub_list_alloc type;
        match list with
        | None => mret (inr false)
        | Some list =>
            ret ← on_sub (hash_tab_insert rtmq_sub_tab_hash_cb rtmq_sub_tab_cmp_cb list WRLOCK);
            if negb (ret =? 0) then rtmq_sub_list_dealloc list;; mret (inr false) else mret (inl tt)
        end
    end);
  if negb list then mret MAP_ERR else
  ret ← with_data c_sub set_sub rtmq_sub_tab_hash_cb rtmq_sub_tab_cmp_cb (sub_list_key type) (sub_add_node sck);
  on_sub (hash_tab_unlock rtmq_sub_tab_hash_cb (sub_list_key type) WRLOCK);;
  mret ret.

(** What [rtmq_sub_del] does to the list: there is no group, there is no node, or
    the node is removed and the list then has groups or has none. *)
Inductive sub_removal := NoGroup | NoNode | Removed (empty : bool).

Definition sub_del_node (sck : sub_key) : SM (rtmq_sub_list_t T * comm_st) sub_removal :=
  group ← group_query (k_gid sck);
  match group with
  | None => mret NoGroup
  | Some group =>
      node ← on_nodes_of group (vector_find_and_del (rtmq_sub_group_find_sid_cb (k_sid sck)));
      match node with
      | None => mret NoNode
      | Some _ =>
          group ← group_query (k_gid sck);
          group ← deref group;
          if 0 =? len (sg_nodes group) then
            x ← on_groups (tr_delete rtmq_sub_group_cmp_cb (group_key (k_gid sck)));
            group ← deref (snd x);
            rtmq_sub_group_dealloc group;;
            x ← get;
            groups ← deref (sl_groups (fst x));
            mret (Removed (0 =? tr_num groups))
          else mret (Removed false)
      end
  end.

(** Without the group, the lock of the slot is kept. *)
Definition rtmq_sub_del (sck : sub_key) (type : Z) : CM Z :=
  list ← on_sub (hash_tab_query rtmq_sub_tab_hash_cb rtmq_sub_tab_cmp_cb (sub_list_key type) WRLOCK);
  match list with
  | None => mret 0
  | Some _ =>
      r ← with_data c_sub set_sub rtmq_sub_tab_hash_cb rtmq_sub_tab_cmp_cb (sub_list_key type) (sub_del_node sck);
      let unlock := on_sub (hash_tab_unlock rtmq_sub_tab_hash_cb (sub_list_key type) WRLOCK) in
      match r with
      | NoGroup => mret 0
      | NoNode | Removed false => unlock;; mret 0
      | Removed true =>
          list ← on_sub (hash_tab_delete rtmq_sub_tab_hash_cb rtmq_sub_tab_cmp_cb (sub_list_key type) NONLOCK);
          list ← deref list;
          rtmq_sub_list_dealloc list;;
          unlock;; mret 0
      end
  end.
End Ops.
Arguments comm_st : clear implicits.
