(* ===== verification/RtmqCommSpec.v ===== *)
(** What the tables of the RTMQ server promise: the accounts are a map from
    users to passwords, the nodes a map to the receive threads that serve them.
    The subscriptions keep no such promise: the comparison of their keys is not
    an order. *)
From stdpp Require Import fin_maps gmap sets.
From S2P Require Import Prelude Heap Table HashTab TreeRel Trees List Vector RtmqComm.
Open Scope Z_scope.

(** ** Strings *)

Definition is_cstr (s : list Z) : Prop := Forall (λ b, 0 < b < 256) s.

Lemma strcmp_refl s : strcmp s s = 0.
Proof. induction s as [|a s IH]; [done|]. simpl. by rewrite Z.eqb_refl. Qed.

Lemma strcmp_anti s1 s2 : strcmp s1 s2 = - strcmp s2 s1.
Proof.
  revert s2. induction s1 as [|a s1 IH]; intros [|b s2]; simpl; try lia.
  rewrite (Z.eqb_sym b a). destruct (Z.eqb_spec a b); [apply IH|lia].
Qed.

Lemma strcmp_0 s1 s2 : is_cstr s1 → is_cstr s2 → strcmp s1 s2 = 0 → s1 = s2.
Proof.
  revert s2. induction s1 as [|a s1 IH]; intros [|b s2] H1 H2; simpl; try done.
  - apply Forall_cons in H2 as [? _]. lia.
  - apply Forall_cons in H1 as [? _]. lia.
  - apply Forall_cons in H1 as [? ?]. apply Forall_cons in H2 as [? ?].
    destruct (Z.eqb_spec a b) as [->|]; [|lia]. intros Hs. f_equal. by apply IH.
Qed.

Lemma strcmp_trans s1 s2 s3 :
  is_cstr s1 → is_cstr s2 → is_cstr s3 → strcmp s1 s2 < 0 → strcmp s2 s3 < 0 → strcmp s1 s3 < 0.
Proof.
  revert s2 s3. induction s1 as [|a s1 IH]; intros [|b s2] [|c s3] H1 H2 H3; simpl; try lia;
    try (apply Forall_cons in H1 as [? H1]); try (apply Forall_cons in H2 as [? H2]);
    try (apply Forall_cons in H3 as [? H3]); try lia.
  destruct (Z.eqb_spec a b), (Z.eqb_spec b c), (Z.eqb_spec a c); try lia. eauto.
Qed.

Definition auth_dom (a : rtmq_auth_t) : Prop := is_cstr (a_usr a).

#[export] Instance auth_ok : TreeOk a_usr auth_dom rtmq_auth_cmp_cb.
Proof.
  constructor; unfold rtmq_auth_cmp_cb, auth_dom.
  - intros x y Hx Hy. split; [by apply strcmp_0|]. intros ->. apply strcmp_refl.
  - intros x y Hx Hy. rewrite (strcmp_anti (a_usr x)). lia.
  - intros x y z. apply strcmp_trans.
Qed.

(** ** Nodes *)

Definition is_int (z : Z) : Prop := 0 ≤ z < 2 ^ 31.
(** The nodes whose differences fit 32 bits; -1 is no node yet. *)
Definition is_nid (z : Z) : Prop := -1 ≤ z < 2 ^ 31 - 1.
Definition is_node (z : Z) : Prop := 0 ≤ z < 2 ^ 31 - 1.
Lemma node_nid z : is_node z → is_nid z.
Proof. unfold is_node, is_nid. lia. Qed.
Definition map_dom (m : rtmq_node_to_svr_map_t) : Prop := is_nid (nm_nid m).

#[export] Instance map_ok : TreeOk nm_nid map_dom rtmq_node_to_svr_map_cmp_cb.
Proof.
  apply cmp_law_diff. unfold map_dom, is_nid. intros x y Hx Hy.
  unfold rtmq_node_to_svr_map_cmp_cb. apply i32_small. lia.
Qed.

(** The item of a node served by the threads [l]. *)
Record node_rel (m : rtmq_node_to_svr_map_t) (l : list Z) : Prop := {
  nr_num : nm_num m = Z.of_nat (length l);
  nr_len : length (nm_rsvr m) = 32%nat;
  nr_take : ∃ r, nm_rsvr m = l ++ r;
  nr_some : l ≠ [];
}.

Section Spec.
Context {T : Type → Type} `{TreeLaws T}.

(** [A] gives the password of each user, [N] the threads of each node. *)
Record comm_rep (c : comm_st T) (A : gmap (list Z) (list Z)) (N : gmap Z (list Z)) : Prop := {
  cr_auth : ∃ m, tmap a_usr auth_dom rtmq_auth_cmp_cb (c_auth c) m ∧ A = a_passwd <$> m;
  cr_map : ∃ m, tmap nm_nid map_dom rtmq_node_to_svr_map_cmp_cb (c_map c) m ∧ ∀ k, option_Forall2 node_rel (m !! k) (N !! k);
  cr_lock : c_map_lock c = idle;
  cr_pass : map_Forall (λ _ p, is_cstr p) A;
}.

Lemma str_copy_ok n s : is_cstr s → is_cstr (str_copy n s).
Proof. apply Forall_take. Qed.

(** *** Accounts *)

Definition auth_valid (A : gmap (list Z) (list Z)) (usr passwd : list Z) : bool :=
  bool_decide (A !! str_copy RTMQ_USR_MAX_LEN usr = Some passwd).

Lemma pass_eq p q : is_cstr p → is_cstr q → (strcmp p q =? 0) = bool_decide (p = q).
Proof.
  intros Hp Hq. case_bool_decide as He; [by subst; rewrite strcmp_refl|]. apply Z.eqb_neq. intros Hz. by apply He, strcmp_0.
Qed.

Lemma wp_rtmq_auth_check c A N usr passwd (Q : bool → comm_st T → mem → Prop) ms :
  comm_rep c A N → is_cstr usr → is_cstr passwd → Q (auth_valid A usr passwd) c ms →
  wp (rtmq_auth_check usr (Some passwd)) Q c ms.
Proof.
  intros [(m & Hm & ->) _ _ Hp] Hu Hpw HQ. unfold rtmq_auth_check, on_auth. apply wp_bind, wp_zoom.
  eapply wp_tquery; [exact Hm|by apply str_copy_ok|]. change (a_usr (auth_key usr)) with (str_copy RTMQ_USR_MAX_LEN usr).
  unfold auth_valid in HQ. rewrite lookup_fmap in HQ.
  assert (set_auth (c_auth c) c = c) as Hc by (by destruct c). rewrite Hc.
  destruct (m !! str_copy RTMQ_USR_MAX_LEN usr) as [a|] eqn:Ha; wp_steps; simpl in HQ.
  - cbn [deref]. wp_steps. rewrite pass_eq; [|apply (Hp (str_copy RTMQ_USR_MAX_LEN usr)); by rewrite lookup_fmap, Ha|done].
    erewrite bool_decide_ext; [exact HQ|]. split; congruence.
  - exact HQ.
Qed.

(** The accounts alone. *)
Definition auth_rep (t : T rtmq_auth_t) (A : gmap (list Z) (list Z)) : Prop :=
  (∃ m, tmap a_usr auth_dom rtmq_auth_cmp_cb t m ∧ A = a_passwd <$> m) ∧ map_Forall (λ _ p, is_cstr p) A.

(** [rtmq_auth_add] adds an account, or confirms that of a user it knows. *)
Definition abs_auth_add (usr passwd : list Z) (A : gmap (list Z) (list Z)) : Z * gmap (list Z) (list Z) :=
  match A !! str_copy RTMQ_USR_MAX_LEN usr with
  | Some p => (if bool_decide (p = passwd) then 0 else -1, A)
  | None => (0, <[str_copy RTMQ_USR_MAX_LEN usr := str_copy RTMQ_PWD_MAX_LEN passwd]> A)
  end.

Lemma wp_auth_add_at c A usr passwd (Q : Z → comm_st T → mem → Prop) :
  auth_rep (c_auth c) A → is_cstr usr → is_cstr passwd →
  (∀ t, auth_rep t (abs_auth_add usr passwd A).2 → Q (abs_auth_add usr passwd A).1 (set_auth t c) []) →
  wp (rtmq_auth_add usr passwd) Q c [].
Proof.
  intros [(m & Hm & ->) Hp] Hu Hpw HQ. unfold rtmq_auth_add, on_auth. apply wp_bind, wp_zoom.
  eapply wp_tquery; [exact Hm|by apply str_copy_ok|]. change (a_usr (auth_key usr)) with (str_copy RTMQ_USR_MAX_LEN usr).
  unfold abs_auth_add in HQ. rewrite lookup_fmap in HQ.
  destruct (m !! str_copy RTMQ_USR_MAX_LEN usr) as [a|] eqn:Ha; cbn [fmap option_fmap option_map fst snd] in HQ.
  - wp_steps. rewrite pass_eq; [|apply (Hp (str_copy RTMQ_USR_MAX_LEN usr)); by rewrite lookup_fmap, Ha|done].
    apply HQ. split; [by exists m|done].
  - apply wp_bind, wp_malloc_nil. cbn [negb]. apply wp_bind, wp_zoom.
    eapply wp_mono; [eapply wp_tinsert; [exact Hm|by apply str_copy_ok]|]. cbn [a_usr]. rewrite Ha.
    intros r t' ms' [-> Hr']. simpl in Hr'. destruct Hr' as [-> Ht']. wp_steps.
    apply HQ. split; [|by apply map_Forall_insert_2; [apply str_copy_ok|]]. eexists. split; [exact Ht'|]. by rewrite fmap_insert.
Qed.

Lemma wp_rtmq_auth_add c A N usr passwd (Q : Z → comm_st T → mem → Prop) :
  comm_rep c A N → is_cstr usr → is_cstr passwd →
  (∀ c', comm_rep c' (abs_auth_add usr passwd A).2 N → Q (abs_auth_add usr passwd A).1 c' []) →
  wp (rtmq_auth_add usr passwd) Q c [].
Proof. intros [Ha Hmap Hl Hp] Hu Hpw HQ. eapply wp_auth_add_at; [by split|done|done|]. intros t [??]. by apply HQ. Qed.

(** *** Nodes *)

Definition abs_map_add (nid rsvr_id : Z) (N : gmap Z (list Z)) : Z * gmap Z (list Z) :=
  let l := default [] (N !! nid) in
  if decide (32 ≤ length l)%nat then (MAP_ERR, N) else (MAP_OK, <[nid := l ++ [rsvr_id]]> N).
Definition abs_map_del (nid rsvr_id : Z) (N : gmap Z (list Z)) : Z * gmap Z (list Z) :=
  match N !! nid with
  | None => (MAP_ERR, N)
  | Some l =>
      (MAP_OK, match list_index (λ x, x =? rsvr_id) l with
               | None => N
               | Some i => let l' := swap_remove i l in if decide (l' = []) then delete nid N else <[nid := l']> N
               end)
  end.
Definition abs_map_rand (r nid : Z) (N : gmap Z (list Z)) : Z :=
  match N !! nid with None => -1 | Some l => default 0 (l !! Z.to_nat (Z.rem r (Z.of_nat (length l)))) end.

Definition wlocked : rwlock := {| readers := 0; writer := true |}.
Definition rlocked : rwlock := {| readers := 1; writer := false |}.

Lemma wp_map_lock f l (c : comm_st T) (Q : unit → comm_st T → mem → Prop) ms :
  f (c_map_lock c) = Ok l → Q tt (set_map_lock l c) ms → wp (map_lock_op f) Q c ms.
Proof. intros Hf HQ. unfold map_lock_op, wp. by rewrite Hf. Qed.

(** The tables with the lock of the nodes in the state [l], and the map from nodes
    [m] as it is stored. *)
Record map_rep (c : comm_st T) (l : rwlock) (A : gmap (list Z) (list Z)) (m : gmap Z rtmq_node_to_svr_map_t) : Prop := {
  mp_auth : ∃ m, tmap a_usr auth_dom rtmq_auth_cmp_cb (c_auth c) m ∧ A = a_passwd <$> m;
  mp_map : tmap nm_nid map_dom rtmq_node_to_svr_map_cmp_cb (c_map c) m;
  mp_lock : c_map_lock c = l;
  mp_pass : map_Forall (λ _ p, is_cstr p) A;
}.

Lemma comm_map_rep c A N :
  comm_rep c A N ↔ ∃ m, map_rep c idle A m ∧ ∀ k, option_Forall2 node_rel (m !! k) (N !! k).
Proof.
  split.
  - intros [Ha (m & Hm & Hr) Hl Hp]. exists m. by split.
  - intros (m & [Ha Hm Hl Hp] & Hr). constructor; eauto.
Qed.

(** The operations between a lock and its release. *)
Lemma wp_map_locked c l l' A m f (Q : unit → comm_st T → mem → Prop) ms :
  map_rep c l A m → f l = Ok l' → (∀ c', map_rep c' l' A m → Q tt c' ms) → wp (map_lock_op f) Q c ms.
Proof.
  intros [Ha Hm Hl Hp] Hf HQ. eapply wp_map_lock; [by rewrite Hl|]. apply HQ. by constructor.
Qed.

Lemma wp_map_query c l A m nid (Q : option rtmq_node_to_svr_map_t → comm_st T → mem → Prop) ms :
  map_rep c l A m → is_nid nid → Q (m !! nid) c ms →
  wp (on_map (tr_query rtmq_node_to_svr_map_cmp_cb (map_key nid))) Q c ms.
Proof.
  intros [Ha Hm Hl Hp] Hn HQ. unfold on_map. apply wp_zoom. eapply wp_tquery; [exact Hm|exact Hn|]. by destruct c.
Qed.

Lemma wp_map_store c l A m nid x f (Q : unit → comm_st T → mem → Prop) ms :
  map_rep c l A m → is_nid nid → m !! nid = Some x → nm_nid (f x) = nid →
  (∀ c', map_rep c' l A (<[nid := f x]> m) → Q tt c' ms) →
  wp (on_map (tr_store rtmq_node_to_svr_map_cmp_cb (map_key nid) f)) Q c ms.
Proof.
  intros [Ha Hm Hl Hp] Hn Hx Hf HQ. unfold on_map. apply wp_zoom.
  eapply (wp_tstore (d := map_key nid)); [exact Hm|exact Hn|exact Hx|exact Hf|unfold map_dom; by rewrite Hf|].
  intros t' Ht'. apply HQ. by constructor.
Qed.

Lemma node_rel_insert (m : gmap Z rtmq_node_to_svr_map_t) (N : gmap Z (list Z)) nid x l :
  (∀ k, option_Forall2 node_rel (m !! k) (N !! k)) → node_rel x l →
  ∀ k, option_Forall2 node_rel (<[nid := x]> m !! k) (<[nid := l]> N !! k).
Proof. intros Hr Hx k. rewrite !lookup_insert. case_decide; [by constructor|apply Hr]. Qed.

(** The new item of a node and a full one. *)
Lemma node_rel_push m l r :
  nm_num m = Z.of_nat (length l) → length (nm_rsvr m) = 32%nat → (∃ z, nm_rsvr m = l ++ z) → (length l < 32)%nat →
  node_rel (node_map_push r m) (l ++ [r]).
Proof.
  intros Hn Hl [z Hz] Hlt. constructor; simpl.
  - rewrite Hn, length_app. simpl. lia.
  - by rewrite length_insert.
  - rewrite Hn, Nat2Z.id, Hz. destruct z as [|y z]; [rewrite app_nil_r in Hz; rewrite Hz in Hl; lia|].
    exists z. rewrite insert_app_r_alt, Nat.sub_diag by done. simpl. by rewrite <-app_assoc.
  - by destruct l.
Qed.

Lemma node_rel_delete (m : gmap Z rtmq_node_to_svr_map_t) (N : gmap Z (list Z)) nid :
  (∀ k, option_Forall2 node_rel (m !! k) (N !! k)) → ∀ k, option_Forall2 node_rel (delete nid m !! k) (delete nid N !! k).
Proof. intros Hr k. rewrite !lookup_delete. case_decide; [constructor|apply Hr]. Qed.

Lemma tmap_nid c l A m nid x : map_rep c l A m → m !! nid = Some x → nm_nid x = nid.
Proof. intros Hr Hx. by destruct (tmap_key _ _ _ _ (mp_map _ _ _ _ Hr) Hx). Qed.

(** The end of an addition: the thread goes behind those of the node. *)
Lemma wp_map_push c A m (N : gmap Z (list Z)) nid r x l (Q : Z → comm_st T → mem → Prop) ms :
  map_rep c wlocked A m → is_nid nid → m !! nid = Some x → (∀ k, k ≠ nid → option_Forall2 node_rel (m !! k) (N !! k)) →
  nm_num x = Z.of_nat (length l) → length (nm_rsvr x) = 32%nat → (∃ z, nm_rsvr x = l ++ z) → (length l < 32)%nat →
  (∀ c', comm_rep c' A (<[nid := l ++ [r]]> N) → Q MAP_OK c' ms) →
  wp (on_map (tr_store rtmq_node_to_svr_map_cmp_cb (map_key nid) (node_map_push r));;
      map_lock_op rwlock_unlock;; mret MAP_OK) Q c ms.
Proof.
  intros Hc Hn Hx Hr H1 H2 H3 H4 HQ. apply wp_bind.
  eapply wp_map_store; [exact Hc|done|exact Hx|exact (tmap_nid _ _ _ _ _ _ Hc Hx)|]. intros c1 Hc1. apply wp_bind.
  eapply wp_map_locked; [exact Hc1|done|]. intros c2 Hc2. apply wp_ret, HQ, comm_map_rep. eexists. split; [exact Hc2|].
  intros k. rewrite !lookup_insert. case_decide as Hk; [constructor; by apply node_rel_push|by apply Hr].
Qed.

Lemma wp_map_add c A N nid r (Q : Z → comm_st T → mem → Prop) :
  comm_rep c A N → is_nid nid →
  (∀ c', comm_rep c' A (abs_map_add nid r N).2 → Q (abs_map_add nid r N).1 c' []) →
  wp (rtmq_node_to_svr_map_add nid r) Q c [].
Proof.
  intros (m & Hm & Hrel)%comm_map_rep Hnid HQ. unfold rtmq_node_to_svr_map_add. apply wp_bind.
  eapply (wp_map_locked _ _ wlocked); [exact Hm|done|]. intros c1 Hc1. apply wp_bind.
  eapply wp_map_query; [exact Hc1|done|]. pose proof (Hrel nid) as Hn. unfold abs_map_add in HQ. apply wp_bind.
  destruct (m !! nid) as [x|] eqn:Hx, (N !! nid) as [l|]; try (by inversion Hn); simpl in HQ.
  - assert (node_rel x l) as Hxl by (by inversion Hn). apply wp_ret. cbn beta iota. destruct Hxl as [H1 H2 H3 H4].
    assert ((nm_num x >=? RTRD_NODE_TO_SVR_MAX_LEN) = bool_decide (32 ≤ length l)%nat) as ->.
    { unfold RTRD_NODE_TO_SVR_MAX_LEN. rewrite H1. case_bool_decide; lia. }
    case_bool_decide; case_decide; try done.
    + apply wp_bind. eapply wp_map_locked; [exact Hc1|done|]. intros c2 Hc2. apply wp_ret, HQ, comm_map_rep. by eexists.
    + eapply wp_map_push; [exact Hc1|done|exact Hx|intros; apply Hrel|exact H1|done|done|lia|]. done.
  - apply wp_bind, wp_malloc_nil. cbn [negb]. apply wp_bind. unfold on_map at 1. apply wp_zoom.
    pose proof Hc1 as [Ha1 Hm1 Hl1 Hp1].
    eapply wp_mono; [eapply wp_tinsert; [exact Hm1|exact Hnid]|]. cbn [nm_nid]. rewrite Hx.
    intros ret t' ms' [-> Hr']. simpl in Hr'. destruct Hr' as [-> Ht']. cbn [negb Z.eqb TREE_OK]. apply wp_ret. cbn beta iota.
    eapply (wp_map_push (set_map t' c1) A _ N nid r _ []);
      [constructor; [exact Ha1|exact Ht'|exact Hl1|exact Hp1]|done|by rewrite lookup_insert_eq| |done|done| | |exact HQ].
    + intros k Hk. rewrite lookup_insert_ne by done. apply Hrel.
    + simpl. by eexists.
    + simpl. lia.
Qed.

Lemma node_rel_drop x l idx :
  node_rel x l → (idx < length l)%nat → swap_remove idx l ≠ [] → node_rel (node_map_drop idx x) (swap_remove idx l).
Proof.
  intros [H1 H2 [z H3] H4] Hi Hne. destruct l as [|y l' _] using rev_ind; [done|].
  rewrite length_app in *. simpl in H1, Hi. unfold swap_remove in *. rewrite last_snoc, removelast_last, length_app in *.
  cbn [length] in *. replace (length l' + 1 - 1)%nat with (length l') in * by lia.
  assert (nm_rsvr x !! length l' = Some y) as Hy.
  { rewrite H3, lookup_app_l by (rewrite length_app; simpl; lia). by rewrite lookup_app_r, Nat.sub_diag. }
  constructor; simpl.
  - rewrite H1. case_decide; rewrite ?length_insert; lia.
  - by rewrite length_insert.
  - replace (Z.to_nat (nm_num x - 1)) with (length l') by lia. rewrite Hy. simpl. case_decide as Hd.
    + subst idx. exists (y :: z). rewrite list_insert_id by done. by rewrite H3, <-app_assoc.
    + exists (y :: z). rewrite H3, <-app_assoc. by rewrite insert_app_l by lia.
  - done.
Qed.

Lemma wp_map_del c A N nid r (Q : Z → comm_st T → mem → Prop) ms :
  comm_rep c A N → is_nid nid →
  (∀ c', comm_rep c' A (abs_map_del nid r N).2 → Q (abs_map_del nid r N).1 c' ms) →
  wp (rtmq_node_to_svr_map_del nid r) Q c ms.
Proof.
  intros (m & Hm & Hrel)%comm_map_rep Hnid HQ. unfold rtmq_node_to_svr_map_del. apply wp_bind.
  eapply (wp_map_locked _ _ wlocked); [exact Hm|done|]. intros c1 Hc1. apply wp_bind.
  eapply wp_map_query; [exact Hc1|done|]. pose proof (Hrel nid) as Hn. unfold abs_map_del in HQ.
  destruct (m !! nid) as [x|] eqn:Hx, (N !! nid) as [l|]; try (by inversion Hn); simpl in HQ.
  2:{ apply wp_bind. eapply wp_map_locked; [exact Hc1|done|]. intros c2 Hc2. apply wp_ret, HQ, comm_map_rep. by eexists. }
  assert (node_rel x l) as Hxl by (by inversion Hn). pose proof Hxl as [H1 H2 [z H3] H4]. rewrite H1, Nat2Z.id, H3, take_app_length. apply wp_bind.
  assert (∀ c2 m2 N2, map_rep c2 wlocked A m2 → (∀ k, option_Forall2 node_rel (m2 !! k) (N2 !! k)) →
    (∀ c', comm_rep c' A N2 → Q MAP_OK c' ms) → wp (map_lock_op rwlock_unlock;; mret MAP_OK) Q c2 ms) as Hend.
  { intros c2 m2 N2 Hc2 Hr2 HQ2. apply wp_bind. eapply wp_map_locked; [exact Hc2|done|]. intros c3 Hc3.
    apply wp_ret, HQ2, comm_map_rep. by eexists. }
  destruct (list_index (λ x, x =? r) l) as [idx|] eqn:Hidx; [|apply wp_ret; eapply Hend; [exact Hc1|exact Hrel|exact HQ]].
  pose proof (list_index_lt _ _ _ Hidx) as Hlt. apply wp_bind.
  eapply wp_map_store; [exact Hc1|done|exact Hx|exact (tmap_nid _ _ _ _ _ _ Hc1 Hx)|]. intros c2 Hc2.
  assert (0 =? Z.of_nat (length l) - 1 = bool_decide (swap_remove idx l = [])) as ->.
  { pose proof (length_swap_remove idx l) as Hs. case_bool_decide as Hb.
    - rewrite Hb in Hs. simpl in Hs. lia.
    - destruct (swap_remove idx l); [done|]. simpl in Hs. lia. }
  case_bool_decide as Hb; case_decide; try done.
  - apply wp_bind. unfold on_map at 1. apply wp_zoom. eapply wp_tdelete; [apply (mp_map _ _ _ _ Hc2)|exact Hnid|].
    intros t' Ht'. apply wp_ret. change (nm_nid (map_key nid)) with nid in Ht'. rewrite delete_insert_eq in Ht'.
    apply (Hend _ (delete nid m) (delete nid N)); [|by apply node_rel_delete|exact HQ].
    destruct Hc2 as [? ? ? ?]. by constructor.
  - apply wp_ret. eapply Hend; [exact Hc2| |exact HQ]. apply node_rel_insert; [done|]. by apply node_rel_drop.
Qed.

Lemma wp_map_rand c A N nid r (Q : Z → comm_st T → mem → Prop) ms :
  comm_rep c A N → is_nid nid → 0 ≤ r →
  (∀ c', comm_rep c' A N → Q (abs_map_rand r nid N) c' ms) →
  wp (rtmq_node_to_svr_map_rand r nid) Q c ms.
Proof.
  intros (m & Hm & Hrel)%comm_map_rep Hnid Hr0 HQ. unfold rtmq_node_to_svr_map_rand. apply wp_bind.
  eapply (wp_map_locked _ _ rlocked); [exact Hm|done|]. intros c1 Hc1. apply wp_bind.
  eapply wp_map_query; [exact Hc1|done|]. pose proof (Hrel nid) as Hn. unfold abs_map_rand in HQ.
  destruct (m !! nid) as [x|] eqn:Hx, (N !! nid) as [l|]; try (by inversion Hn); simpl in HQ.
  2:{ apply wp_bind. eapply wp_map_locked; [exact Hc1|done|]. intros c2 Hc2. apply wp_ret, HQ, comm_map_rep. by eexists. }
  assert (node_rel x l) as Hxl by (by inversion Hn). destruct Hxl as [H1 H2 [z H3] H4]. assert (0 < length l)%nat by (destruct l; [done|simpl; lia]).
  rewrite H1, (proj2 (Z.eqb_neq _ _)) by lia. apply wp_bind.
  pose proof (Z.rem_bound_pos r (Z.of_nat (length l)) Hr0 ltac:(lia)) as Hb.
  destruct (lookup_lt_is_Some_2 l (Z.to_nat (Z.rem r (Z.of_nat (length l))))) as [v Hv]; [lia|].
  rewrite H3, (lookup_app_l_Some _ _ _ _ Hv). apply wp_ret. apply wp_bind.
  eapply wp_map_locked; [exact Hc1|done|]. intros c2 Hc2. apply wp_ret. rewrite Hv in HQ. apply HQ, comm_map_rep. by eexists.
Qed.
End Spec.

(** * Properties *)

(** ** Accounts and nodes *)

Inductive comm_call :=
  | CAuthAdd (usr passwd : list Z) | CAuthCheck (usr passwd : list Z)
  | CMapAdd (nid rsvr_id : Z) | CMapDel (nid rsvr_id : Z) | CMapRand (r nid : Z).

Definition run_comm_call {T} `{TreeOps T} (k : comm_call) : SM (comm_st T) Z :=
  match k with
  | CAuthAdd u p => rtmq_auth_add u p
  | CAuthCheck u p => rtmq_link_auth_check u (Some p)
  | CMapAdd n r => rtmq_node_to_svr_map_add n r
  | CMapDel n r => rtmq_node_to_svr_map_del n r
  | CMapRand r n => rtmq_node_to_svr_map_rand r n
  end.

(** The passwords of the users, and the threads of the nodes. *)
Definition acomm : Type := gmap (list Z) (list Z) * gmap Z (list Z).

Definition abs_comm_call (k : comm_call) (a : acomm) : Z * acomm :=
  match k with
  | CAuthAdd u p =>
      match a.1 !! take 31 u with
      | Some p' => (if bool_decide (p' = p) then 0 else -1, a)
      | None => (0, (<[take 31 u := take 15 p]> a.1, a.2))
      end
  | CAuthCheck u p => (if bool_decide (a.1 !! take 31 u = Some p) then 1 else 0, a)
  | CMapAdd n r => let x := abs_map_add n r a.2 in (x.1, (a.1, x.2))
  | CMapDel n r => let x := abs_map_del n r a.2 in (x.1, (a.1, x.2))
  | CMapRand r n => (abs_map_rand r n a.2, a)
  end.

Definition comm_call_ok (k : comm_call) (_ : acomm) : Prop :=
  match k with
  | CAuthAdd u p | CAuthCheck u p => is_cstr u ∧ is_cstr p
  | CMapAdd n _ | CMapDel n _ => is_nid n
  | CMapRand r n => is_nid n ∧ 0 ≤ r
  end.

Section Props.
Context {T : Type → Type} `{TreeLaws T}.

Lemma wp_comm_call k (c : comm_st T) (a : acomm) :
  comm_rep c a.1 a.2 → comm_call_ok k a →
  wp (run_comm_call k) (λ r c' ms', ms' = [] ∧ r = (abs_comm_call k a).1 ∧
    comm_rep c' (abs_comm_call k a).2.1 (abs_comm_call k a).2.2) c [].
Proof.
  intros Hr Hk. destruct k; simpl in Hk; cbn [run_comm_call abs_comm_call fst snd].
  - destruct Hk as [Hu Hp]. eapply wp_rtmq_auth_add; [exact Hr|done|done|].
    unfold abs_auth_add. change (str_copy RTMQ_USR_MAX_LEN usr) with (take 31 usr). change (str_copy RTMQ_PWD_MAX_LEN passwd) with (take 15 passwd).
    by destruct (a.1 !! take 31 usr).
  - destruct Hk as [Hu Hp]. unfold rtmq_link_auth_check. apply wp_bind. eapply wp_rtmq_auth_check; [exact Hr|done|done|].
    apply wp_ret. unfold auth_valid. change (str_copy RTMQ_USR_MAX_LEN usr) with (take 31 usr). by case_bool_decide.
  - eapply wp_map_add; [exact Hr|done|]. by intros c' Hc'.
  - eapply wp_map_del; [exact Hr|done|]. by intros c' Hc'.
  - destruct Hk. eapply wp_map_rand; [exact Hr|done|done|]. by intros c' Hc'.
Qed.

(** C38: under any sequence of calls, the accounts of the server are a map from
    user names, cut at 31 bytes, to passwords, an account being accepted exactly
    with its password; the nodes are a map to the receive threads that serve
    them, at most 32 for a node, from which [rand] chooses; the lock of the map
    is free after every call, errors included. *)
Theorem comm_refines (c : comm_st T) (a : acomm) ks :
  comm_rep c a.1 a.2 → ok_seq abs_comm_call comm_call_ok ks a →
  wp (run_seq run_comm_call ks) (λ rs c' ms', ms' = [] ∧ rs = (abs_seq abs_comm_call ks a).1 ∧
    comm_rep c' (abs_seq abs_comm_call ks a).2.1 (abs_seq abs_comm_call ks a).2.2) c [].
Proof.
  intros Hr Hok. apply (wp_run_seq_nil run_comm_call abs_comm_call (λ c a, comm_rep c a.1 a.2) comm_call_ok); try done.
  intros k c' a'. apply wp_comm_call.
Qed.
End Props.

(** Empty tables. *)
Definition comm0 : comm_st atree := CommSt empty_atree empty_atree idle (empty_htab 100).

Lemma comm0_rep : comm_rep comm0 ∅ ∅.
Proof.
  constructor; [|exists ∅; split; [apply tmap_empty|]|done|done].
  - exists ∅. split; [apply tmap_empty|]. by rewrite fmap_empty.
  - intros k. rewrite !lookup_empty. constructor.
Qed.

Definition comm_calls : list comm_call :=
  [CAuthAdd [117] [112]; CAuthCheck [117] [112]; CAuthCheck [117] [113]; CAuthAdd [117] [113];
   CMapAdd 5 1; CMapAdd 5 2; CMapRand 7 5; CMapDel 5 1; CMapRand 7 5; CMapDel 5 2; CMapRand 7 5; CMapDel 5 2].

Lemma comm_refines_witness :
  wp (run_seq run_comm_call comm_calls)
    (λ rs c' ms', ms' = [] ∧ rs = [0; 1; 0; -1; 0; 0; 2; 0; 2; 0; -1; - 2 ^ 31] ∧ comm_rep c' {[ [117] := [112] ]} ∅)
    comm0 [].
Proof.
  pose proof (comm_refines comm0 (∅, ∅) comm_calls comm0_rep) as H.
  assert (abs_seq abs_comm_call comm_calls (∅, ∅) =
    ([0; 1; 0; -1; 0; 0; 2; 0; 2; 0; -1; - 2 ^ 31], ({[ [117] := [112] ]}, ∅))) as E by (vm_compute; reflexivity).
  rewrite E in H. apply H. repeat split; repeat constructor; done.
Defined.

(** ** Subscriptions *)

(** The groups of the list of the messages [type]. *)
Definition groups_of (type : Z) : SM (comm_st atree) Z :=
  list ← on_sub (hash_tab_query rtmq_sub_tab_hash_cb rtmq_sub_tab_cmp_cb (sub_list_key type) NONLOCK);
  mret (match list with Some (SubList _ (Some groups)) => tr_num groups | _ => 0 end).

(** Three groups subscribe to the messages of a type, the connection of the first
    one twice: it ends in two groups of the same identity, and gets every message
    twice, because [rtmq_sub_group_cmp_cb] subtracts unsigned integers and does
    not order them. *)
Theorem sub_add_duplicates :
  wp (run_seq (λ s, rtmq_sub_add s 7) [SubKey 1 1 11; SubKey 2 2 12; SubKey 3 3 13; SubKey 1 1 11];; groups_of 7)
    (λ n _ _, n = 4) comm0 [].
Proof. by vm_compute. Qed.

(** [rtmq_sub_del] without the group of the connection returns with the lock of
    the slot: the next subscription never ends. *)
Theorem sub_del_blocks :
  (rtmq_sub_add (SubKey 1 1 11) 7;; rtmq_sub_del (SubKey 2 2 12) 7;; rtmq_sub_add (SubKey 1 1 11) 7) comm0 [] = Blocked.
Proof. by vm_compute. Qed.
