(* ===== verification/RtmqRsvr.v ===== *)
(** The message handlers of the RTMQ server ([lib/rtmq/server/rtmq_rsvr.c]) and
    the thread that works through what they queue
    ([lib/rtmq/server/rtmq_worker.c]). *)
From stdpp Require Import gmap.
From S2P Require Import Prelude Heap Table HashTab List2 Vector Ring Slot Mref Bytes Trees RtmqRecv RtmqComm.
Open Scope Z_scope.

Definition RTMQ_CMD_AUTH_REQ : Z := 0x0001.
Definition RTMQ_CMD_AUTH_ACK : Z := 0x0002.
Definition RTMQ_CMD_KPALIVE_REQ : Z := 0x0003.
Definition RTMQ_CMD_KPALIVE_ACK : Z := 0x0004.
Definition RTMQ_CMD_SUB_REQ : Z := 0x0005.
Definition RTMQ_CMD_PROC_REQ : Z := 0x000B.

Definition RTMQ_WORKER_HDL_QNUM : Z := 2.
Definition RECV_ITEM_SIZE : Z := 16.
Definition LINK_AUTH_ACK_SIZE : Z := 4.

(** ** Data *)

Record rtmq_sub_req_t := SubReq { sr_type : Z }.
Definition rtmq_sub_list_cmp_cb (req1 req2 : rtmq_sub_req_t) : Z := cmp_u32 (sr_type req1) (sr_type req2).

(** A received message: its block, and its offset there. *)
Record rtmq_recv_item_t := RecvItem { ri_base : ptr; ri_data : Z }.

(** [rtmq_cmd_t] with the parameters of [RTMQ_CMD_PROC_REQ]. *)
Record rtmq_cmd_proc_req_t := ProcReq { ori_svr_id : Z; pr_rqidx : Z; pr_num : Z }.

(** The fields of the connection the handlers use; its receive buffer is in
    [conn_st]. *)
Record rtmq_sck_t (T : Type → Type) := Sck {
  sk_nid : Z; sk_gid : Z; sk_sid : Z; auth_succ : Z;
  sub_list : T rtmq_sub_req_t; mesg_list : list2_t ptr }.
Arguments Sck {_} _ _ _ _ _ _.
Arguments sk_nid {_} _.
Arguments sk_gid {_} _.
Arguments sk_sid {_} _.
Arguments auth_succ {_} _.
Arguments sub_list {_} _.
Arguments mesg_list {_} _.

Record rtmq_rsvr_t := Rsvr { rv_id : Z; recv_total : Z; drop_total : Z }.

(** The part of [rtmq_cntx_t] the threads use: the receive queues, the memory of
    their items, the commands written to the pipes of the workers, the tables,
    and the numbers [rand()] gives. *)
Record rtmq_cntx_t (T : Type → Type) := Cntx {
  conf_nid : Z; recvq : list queue_t; items : gmap ptr rtmq_recv_item_t;
  cmds : list (Z * rtmq_cmd_proc_req_t); tabs : comm_st T; rands : list Z }.
Arguments Cntx {_} _ _ _ _ _ _.
Arguments conf_nid {_} _.
Arguments recvq {_} _.
Arguments items {_} _.
Arguments cmds {_} _.
Arguments tabs {_} _.
Arguments rands {_} _.

Record hdl_st (T : Type → Type) := Hdl { h_sck : rtmq_sck_t T; h_rsvr : rtmq_rsvr_t; h_ctx : rtmq_cntx_t T }.
Arguments Hdl {_} _ _ _.
Arguments h_sck {_} _.
Arguments h_rsvr {_} _.
Arguments h_ctx {_} _.

(** The C string at [off] of a block: up to the next NUL. *)
Fixpoint cstr_of (l : list Z) : option (list Z) :=
  match l with
  | [] => None
  | b :: l => if b =? 0 then Some [] else (b ::.) <$> cstr_of l
  end.
Definition cstr_at (c : list Z) (off : Z) : option (list Z) :=
  if decide (0 ≤ off ≤ Z.of_nat (length c)) then cstr_of (drop (Z.to_nat off) c) else None.

Section Ops.
Context {T : Type → Type} `{TreeOps T}.
Abbreviation HM := (SM (mref_st htree * hdl_st T)).

Definition set_sck s (h : hdl_st T) : hdl_st T := Hdl s (h_rsvr h) (h_ctx h).
Definition set_rsvr v (h : hdl_st T) : hdl_st T := Hdl (h_sck h) v (h_ctx h).
Definition set_ctx x (h : hdl_st T) : hdl_st T := Hdl (h_sck h) (h_rsvr h) x.

Definition set_gid n (s : rtmq_sck_t T) : rtmq_sck_t T := Sck (sk_nid s) n (sk_sid s) (auth_succ s) (sub_list s) (mesg_list s).
Definition set_nid n (s : rtmq_sck_t T) : rtmq_sck_t T := Sck n (sk_gid s) (sk_sid s) (auth_succ s) (sub_list s) (mesg_list s).
Definition set_auth_succ n (s : rtmq_sck_t T) : rtmq_sck_t T := Sck (sk_nid s) (sk_gid s) (sk_sid s) n (sub_list s) (mesg_list s).
Definition set_sub_list l (s : rtmq_sck_t T) : rtmq_sck_t T := Sck (sk_nid s) (sk_gid s) (sk_sid s) (auth_succ s) l (mesg_list s).
Definition set_mesg_list l (s : rtmq_sck_t T) : rtmq_sck_t T := Sck (sk_nid s) (sk_gid s) (sk_sid s) (auth_succ s) (sub_list s) l.

Definition set_recvq q (x : rtmq_cntx_t T) : rtmq_cntx_t T := Cntx (conf_nid x) q (items x) (cmds x) (tabs x) (rands x).
Definition set_items i (x : rtmq_cntx_t T) : rtmq_cntx_t T := Cntx (conf_nid x) (recvq x) i (cmds x) (tabs x) (rands x).
Definition set_cmds c (x : rtmq_cntx_t T) : rtmq_cntx_t T := Cntx (conf_nid x) (recvq x) (items x) c (tabs x) (rands x).
Definition set_tabs t (x : rtmq_cntx_t T) : rtmq_cntx_t T := Cntx (conf_nid x) (recvq x) (items x) (cmds x) t (rands x).
Definition set_rands r (x : rtmq_cntx_t T) : rtmq_cntx_t T := Cntx (conf_nid x) (recvq x) (items x) (cmds x) (tabs x) r.

Definition on_refs {A} : SM (mref_st htree) A → HM A := on_fst.
Definition on_h {A} : SM (hdl_st T) A → HM A := on_snd.
Definition on_ctx {A} : SM (rtmq_cntx_t T) A → SM (hdl_st T) A := zoom h_ctx set_ctx.
Definition on_tabs {A} : SM (comm_st T) A → SM (rtmq_cntx_t T) A := zoom tabs set_tabs.
Definition on_mesg_list {A} : SM (list2_t ptr) A → SM (hdl_st T) A :=
  zoom (λ h, mesg_list (h_sck h)) (λ l h, set_sck (set_mesg_list l (h_sck h)) h).
Definition on_sub_list {A} : SM (T rtmq_sub_req_t) A → SM (hdl_st T) A :=
  zoom (λ h, sub_list (h_sck h)) (λ l h, set_sck (set_sub_list l (h_sck h)) h).

Definition c_rand : SM (rtmq_cntx_t T) Z :=
  x ← get; put (set_rands (tail (rands x)) x);; mret (default 0 (head (rands x))).

(** Work on the queue [i] of the array. *)
Definition on_recvq {A} (i : Z) (m : SM queue_t A) : SM (rtmq_cntx_t T) A :=
  x ← get;
  q ← deref (if i <? 0 then None else recvq x !! Z.to_nat i);
  y ← run_on q m;
  modify (λ x, set_recvq (<[Z.to_nat i := snd y]> (recvq x)) x);;
  mret (fst y).

(** *** Commands to the workers *)

(** [id] is that of the thread. *)
Definition rtmq_rsvr_cmd_proc_req (id rqid : Z) : SM (rtmq_cntx_t T) Z :=
  modify (λ x, set_cmds (cmds x ++ [(Z.quot rqid RTMQ_WORKER_HDL_QNUM, ProcReq id rqid (u32 (-1)))]) x);;
  mret RTMQ_OK.

Definition rtmq_rsvr_cmd_proc_all_req (id : Z) : SM (rtmq_cntx_t T) Z :=
  x ← get;
  for_each (λ idx : nat, rtmq_rsvr_cmd_proc_req id (Z.of_nat idx);; mret tt) (seq 0 (length (recvq x)));;
  mret RTMQ_OK.

(** *** Messages of the applications *)

Definition rtmq_rsvr_exp_mesg_proc (base : ptr) (data : Z) : HM Z :=
  h ← on_h get;
  if auth_succ (h_sck h) =? 0 then mret RTMQ_ERR else
  on_h (modify (λ h, set_rsvr (Rsvr (rv_id (h_rsvr h)) (u64 (recv_total (h_rsvr h) + 1)) (drop_total (h_rsvr h))) h));;
  head ← on_refs (rd_head base data);
  let drop := on_h (modify (λ h,
    set_rsvr (Rsvr (rv_id (h_rsvr h)) (recv_total (h_rsvr h)) (u64 (drop_total (h_rsvr h) + 1))) h)) in
  if negb (h_nid head =? sk_nid (h_sck h)) then drop;; mret RTMQ_ERR else
  r ← on_h (on_ctx c_rand);
  if decide (length (recvq (h_ctx h)) = O) then crash else
  let rqid := Z.rem r (Z.of_nat (length (recvq (h_ctx h)))) in
  item ← on_h (on_ctx (on_recvq rqid (queue_malloc RECV_ITEM_SIZE)));
  if item =? NULL then
    drop;;
    on_h (on_ctx (rtmq_rsvr_cmd_proc_all_req (rv_id (h_rsvr h))));;
    mret RTMQ_ERR
  else
    on_refs (mref_inc base);;
    on_h (on_ctx (modify (λ x, set_items (<[item := RecvItem base data]> (items x)) x)));;
    on_h (on_ctx (on_recvq rqid (queue_push item)));;
    on_h (on_ctx (rtmq_rsvr_cmd_proc_req (rv_id (h_rsvr h)) rqid));;
    mret RTMQ_OK.

(** *** System messages *)

(** A message of the server put at the end of the list of those to send. *)
Definition push_mesg (addr : ptr) : HM Z :=
  ret ← on_h (on_mesg_list (list2_rpush addr));
  if negb (ret =? 0) then on_refs (mref_dec addr);; mret RTMQ_ERR else mret RTMQ_OK.

Definition rtmq_rsvr_keepalive_req_hdl : HM Z :=
  h ← on_h get;
  if auth_succ (h_sck h) =? 0 then mret RTMQ_ERR else
  rsp ← on_refs (mref_alloc HEAD_SIZE 0 mem_alloc mem_free);
  if rsp =? NULL then mret RTMQ_ERR else
  on_refs (wr_head rsp 0 (Head RTMQ_CMD_KPALIVE_ACK (u32 (conf_nid (h_ctx h))) RTMQ_SYS_MESG 0 RTMQ_CHKSUM_VAL));;
  push_mesg rsp.

Definition rtmq_rsvr_link_auth_rsp : HM Z :=
  h ← on_h get;
  addr ← on_refs (mref_alloc (HEAD_SIZE + LINK_AUTH_ACK_SIZE) 0 mem_alloc mem_free);
  if addr =? NULL then mret RTMQ_ERR else
  on_refs (wr_head addr 0 (Head RTMQ_CMD_AUTH_ACK (u32 (conf_nid (h_ctx h))) RTMQ_SYS_MESG LINK_AUTH_ACK_SIZE RTMQ_CHKSUM_VAL));;
  on_refs (blk_wr addr HEAD_SIZE (store32 (htonl (auth_succ (h_sck h)))));;
  push_mesg addr.

(** [rtmq_link_auth_req_t]: the group, the user and the password, at the offsets
    0, 4 and 36 behind the header. *)
Definition rtmq_rsvr_link_auth_req_hdl (base : ptr) (off : Z) : HM Z :=
  head ← on_refs (rd_head base off);
  g ← on_refs (blk_rd base (off + HEAD_SIZE) 4);
  if 0 =? load32 g then mret RTMQ_ERR else
  let gid := ntohl (load32 g) in
  on_refs (blk_wr base (off + HEAD_SIZE) (store32 gid));;
  on_h (modify (λ h, set_sck (set_gid gid (h_sck h)) h));;
  c ← on_refs (blk_get base);
  usr ← deref (cstr_at c (off + HEAD_SIZE + 4));
  succ ← on_h (on_ctx (on_tabs (rtmq_link_auth_check usr (cstr_at c (off + HEAD_SIZE + 36)))));
  on_h (modify (λ h, set_sck (set_auth_succ succ (h_sck h)) h));;
  ret ← (if negb (succ =? 0) then
           on_h (modify (λ h, set_sck (set_nid (h_nid head) (h_sck h)) h));;
           h ← on_h get;
           on_h (on_ctx (on_tabs (rtmq_node_to_svr_map_add (i32 (h_nid head)) (rv_id (h_rsvr h)))))
         else mret MAP_OK);
  if negb (ret =? 0) then mret RTMQ_ERR else rtmq_rsvr_link_auth_rsp.

Definition rtmq_rsvr_sck_add_sub (type : Z) : SM (hdl_st T) Z :=
  req ← on_sub_list (tr_query rtmq_sub_list_cmp_cb (SubReq type));
  match req with
  | Some _ => mret 0
  | None =>
      ok ← malloc;
      if negb ok then mret (-1) else
      ret ← on_sub_list (tr_insert rtmq_sub_list_cmp_cb (SubReq type));
      mret (if negb (ret =? 0) then -1 else 0)
  end.

Definition rtmq_rsvr_sub_req_hdl (base : ptr) (off : Z) : HM Z :=
  h ← on_h get;
  if auth_succ (h_sck h) =? 0 then mret RTMQ_ERR else
  t ← on_refs (blk_rd base (off + HEAD_SIZE) 4);
  let type := ntohl (load32 t) in
  on_refs (blk_wr base (off + HEAD_SIZE) (store32 type));;
  let sck := SubKey (sk_nid (h_sck h)) (sk_gid (h_sck h)) (sk_sid (h_sck h)) in
  ret ← on_h (on_ctx (on_tabs (rtmq_sub_add sck type)));
  if negb (ret =? 0) then mret (-1) else
  ret ← on_h (rtmq_rsvr_sck_add_sub type);
  if negb (ret =? 0) then
    on_h (on_ctx (on_tabs (rtmq_sub_del sck type)));;
    mret (-1)
  else mret 0.

Definition rtmq_rsvr_sys_mesg_proc (base : ptr) (off : Z) : HM Z :=
  head ← on_refs (rd_head base off);
  if h_type head =? RTMQ_CMD_AUTH_REQ then rtmq_rsvr_link_auth_req_hdl base off
  else if h_type head =? RTMQ_CMD_SUB_REQ then rtmq_rsvr_sub_req_hdl base off
  else if h_type head =? RTMQ_CMD_KPALIVE_REQ then rtmq_rsvr_keepalive_req_hdl
  else mret RTMQ_ERR.

#[export] Instance rsvr_handlers : RecvHandlers htree (hdl_st T) := {
  sys_mesg_proc := rtmq_rsvr_sys_mesg_proc;
  exp_mesg_proc := rtmq_rsvr_exp_mesg_proc;
}.
End Ops.

(** ** The workers *)

(** A handler of the application: it gets the type, the node, the body and its
    length, and works on a state [U] of its own; its argument [param] is part of
    it. *)
Record rtmq_reg_t (U : Type) := Reg { rg_type : Z; rg_proc : Z → Z → list Z → Z → SM U Z }.
Arguments Reg {_} _ _.
Arguments rg_type {_} _.
Arguments rg_proc {_} _.
Definition rtmq_reg_cmp_cb {U} (reg1 reg2 : rtmq_reg_t U) : Z := i32 (rg_type reg1 - rg_type reg2).

Definition RTRD_WORK_POP_NUM : Z := 1024.
Definition RTMQ_ERR_REPEAT_REG : Z := RTMQ_ERR + 7.

Section Worker.
Context {T : Type → Type} `{TreeOps T} {U : Type}.

(** A worker, the handlers registered, the shared state and the state of the
    application. *)
Record worker_st := Worker {
  wk_proc : Z; wk_drop : Z; wk_err : Z; wk_reg : T (rtmq_reg_t U); wk_ctx : rtmq_cntx_t T; wk_app : U }.
Abbreviation WM := (SM (mref_st htree * worker_st)).

Definition set_wk_ctx x (w : worker_st) : worker_st := Worker (wk_proc w) (wk_drop w) (wk_err w) (wk_reg w) x (wk_app w).
Definition set_wk_reg r (w : worker_st) : worker_st := Worker (wk_proc w) (wk_drop w) (wk_err w) r (wk_ctx w) (wk_app w).
Definition set_wk_app u (w : worker_st) : worker_st := Worker (wk_proc w) (wk_drop w) (wk_err w) (wk_reg w) (wk_ctx w) u.
Definition on_wk {A} : SM worker_st A → WM A := on_snd.
Definition on_wk_ctx {A} : SM (rtmq_cntx_t T) A → WM A := λ m, on_wk (zoom wk_ctx set_wk_ctx m).
Definition on_reg {A} : SM (T (rtmq_reg_t U)) A → SM worker_st A := zoom wk_reg set_wk_reg.

Definition reg_key (type : Z) : rtmq_reg_t U := Reg type (λ _ _ _ _, mret 0).
Definition incr_drop : WM unit :=
  on_wk (modify (λ w, Worker (wk_proc w) (u64 (wk_drop w + 1)) (wk_err w) (wk_reg w) (wk_ctx w) (wk_app w))).
Definition incr_err : WM unit :=
  on_wk (modify (λ w, Worker (wk_proc w) (wk_drop w) (u64 (wk_err w + 1)) (wk_reg w) (wk_ctx w) (wk_app w))).
Definition incr_proc : WM unit :=
  on_wk (modify (λ w, Worker (u64 (wk_proc w + 1)) (wk_drop w) (wk_err w) (wk_reg w) (wk_ctx w) (wk_app w))).

Definition rtmq_register (type : Z) (proc : Z → Z → list Z → Z → SM U Z) : SM worker_st Z :=
  ok ← malloc;
  if negb ok then mret (-1) else
  ret ← on_reg (tr_insert rtmq_reg_cmp_cb (Reg type proc));
  mret (if negb (ret =? 0) then RTMQ_ERR_REPEAT_REG else RTMQ_OK).

(** One item of the queue [rqidx]. *)
Definition worker_item (rqidx : Z) (p : ptr) : WM unit :=
  w ← on_wk get;
  item ← deref (items (wk_ctx w) !! p);
  head ← on_fst (rd_head (ri_base item) (ri_data item));
  reg ← on_wk (on_reg (tr_query rtmq_reg_cmp_cb (reg_key (i32 (h_type head)))));
  reg ← match reg with
        | Some reg => mret (Some reg)
        | None => on_wk (on_reg (tr_query rtmq_reg_cmp_cb (reg_key 0)))
        end;
  match reg with
  | None => incr_drop
  | Some reg =>
      body ← on_fst (blk_rd (ri_base item) (ri_data item + HEAD_SIZE) (h_length head));
      ret ← on_wk (zoom wk_app set_wk_app (rg_proc reg (i32 (h_type head)) (i32 (h_nid head)) body (h_length head)));
      if negb (ret =? 0) then incr_err else incr_proc
  end;;
  on_fst (mref_dec (ri_base item));;
  on_wk_ctx (on_recvq rqidx (queue_dealloc p)).

(** One turn of its loop: [inl] goes on with what has come since. *)
Definition worker_step (rqidx : Z) : WM (unit + Z) :=
  w ← on_wk get;
  rq ← deref (if rqidx <? 0 then None else recvq (wk_ctx w) !! Z.to_nat rqidx);
  let num := Z.min (queue_used rq) RTRD_WORK_POP_NUM in
  if 0 =? num then mret (inr RTMQ_OK) else
  item ← on_wk_ctx (on_recvq rqidx (queue_mpop (Z.to_nat num)));
  for_each (worker_item rqidx) item;;
  mret (inl tt).

(** A turn takes an item at least: the fuel is the number of items. *)
Definition rtmq_worker_cmd_proc_req_hdl (rqidx : Z) : WM Z :=
  w ← on_wk get;
  rq ← deref (if rqidx <? 0 then None else recvq (wk_ctx w) !! Z.to_nat rqidx);
  loop (S (Z.to_nat (queue_used rq))) (λ _ : unit, worker_step rqidx) tt.
End Worker.
Arguments worker_st : clear implicits.
