(* ===== verification/RtmqRsvrSpec.v ===== *)
(** The handlers of the RTMQ server implement the interface of [RtmqRecvSpec]:
    an abstract server, whose queues hold the messages themselves, and the proof
    that each handler follows it. *)
From stdpp Require Import fin_maps gmap.
From S2P Require Import Prelude Heap Table HashTab TreeRel List2 Vector Ring Slot QueueSpec.
From S2P Require Import Mref Bytes Trees RtmqRecv RtmqMem RtmqRecvSpec RtmqComm RtmqCommSpec RtmqRsvr.
Open Scope Z_scope.

(** ** Bytes *)

Lemma rd_bytes_split c off x : rd_bytes c off (Z.of_nat (length x)) = Some x →
  ∃ pre post, c = pre ++ x ++ post ∧ off = Z.of_nat (length pre).
Proof.
  unfold rd_bytes. case_decide as Hd; [|done]. rewrite Nat2Z.id. intros [= Hx].
  exists (take (Z.to_nat off) c), (drop (Z.to_nat off + length x) c). split.
  - rewrite <-Hx at 1. rewrite <-(take_drop (Z.to_nat off) c) at 1. f_equal.
    rewrite <-(take_drop (length x) (drop (Z.to_nat off) c)) at 1. by rewrite drop_drop.
  - rewrite length_take. lia.
Qed.

Lemma cstr_of_app l1 l2 s : cstr_of l1 = Some s → cstr_of (l1 ++ l2) = Some s.
Proof.
  revert s. induction l1 as [|b l1 IH]; intros s; simpl; [done|]. destruct (b =? 0); [done|].
  destruct (cstr_of l1) as [s'|] eqn:Hs; simpl; [|done]. intros [= <-]. by rewrite (IH s').
Qed.

Lemma cstr_of_ok l s : Forall is_byte l → cstr_of l = Some s → is_cstr s.
Proof.
  intros Hl. revert s. induction Hl as [|b l Hb Hl IH]; intros s; simpl; [done|].
  destruct (Z.eqb_spec b 0); [intros [= <-]; constructor|]. destruct (cstr_of l) as [s'|]; simpl; [|done].
  intros [= <-]. constructor; [unfold is_byte in Hb; lia|by apply IH].
Qed.

Lemma cstr_at_app pre x post s : cstr_of x = Some s → cstr_at (pre ++ x ++ post) (Z.of_nat (length pre)) = Some s.
Proof.
  intros Hs. unfold cstr_at. rewrite decide_True by (rewrite !length_app; lia).
  rewrite Nat2Z.id, drop_app_length. by apply cstr_of_app.
Qed.

(** ** The abstract server *)

Record arsvr := ARsvr {
  a_cnid : Z; a_id : Z;                       (** its node and the receive thread *)
  a_auth : bool; a_nid : Z; a_gid : Z;        (** the connection *)
  a_acc : gmap (list Z) (list Z); a_map : gmap Z (list Z);
  a_out : list mesg;                          (** the answers to send *)
  a_blocks : list (list ptr);                 (** the items of each receive queue *)
  a_in : list (list mesg);                    (** the messages of each receive queue *)
  a_recv : Z; a_drop : Z;
  a_cmds : list (Z * rtmq_cmd_proc_req_t); a_rands : list Z;
  a_frame : list href;                        (** the references of the others *)
}.

Definition a_set_conn (auth : bool) nid gid mp out (a : arsvr) : arsvr :=
  ARsvr (a_cnid a) (a_id a) auth nid gid (a_acc a) mp out (a_blocks a) (a_in a) (a_recv a) (a_drop a) (a_cmds a) (a_rands a) (a_frame a).
Definition a_set_in inq recv drp cs rs (a : arsvr) : arsvr :=
  ARsvr (a_cnid a) (a_id a) (a_auth a) (a_nid a) (a_gid a) (a_acc a) (a_map a) (a_out a) (a_blocks a) inq recv drp cs rs (a_frame a).

Definition proc_req (id : Z) (rqid : nat) : Z * rtmq_cmd_proc_req_t :=
  (Z.quot (Z.of_nat rqid) RTMQ_WORKER_HDL_QNUM, ProcReq id (Z.of_nat rqid) (u32 (-1))).

(** A message of an application goes into the queue [rand()] chooses, unless its
    sender is not the node of the connection or the queue is full. *)
Definition abs_exp (m : mesg) (a : arsvr) : arsvr :=
  if negb (a_auth a) then a else
  let recv := u64 (a_recv a + 1) in
  if negb (h_nid (m_head m) =? a_nid a) then
    a_set_in (a_in a) recv (u64 (a_drop a + 1)) (a_cmds a) (a_rands a) a
  else
    let rqid := Z.to_nat (Z.rem (default 0 (head (a_rands a))) (Z.of_nat (length (a_in a)))) in
    if decide (length (default [] (a_in a !! rqid)) < length (default [] (a_blocks a !! rqid)))%nat then
      a_set_in (alter (λ q, q ++ [m]) rqid (a_in a)) recv (a_drop a) (a_cmds a ++ [proc_req (a_id a) rqid]) (tail (a_rands a)) a
    else
      a_set_in (a_in a) recv (u64 (a_drop a + 1)) (a_cmds a ++ (proc_req (a_id a) <$> seq 0 (length (a_in a)))) (tail (a_rands a)) a.

Definition keepalive_ack (a : arsvr) : mesg :=
  Mesg (Head RTMQ_CMD_KPALIVE_ACK (u32 (a_cnid a)) RTMQ_SYS_MESG 0 RTMQ_CHKSUM_VAL) [].
Definition auth_ack (a : arsvr) (ok : bool) : mesg :=
  Mesg (Head RTMQ_CMD_AUTH_ACK (u32 (a_cnid a)) RTMQ_SYS_MESG LINK_AUTH_ACK_SIZE RTMQ_CHKSUM_VAL)
    (store32 (htonl (if ok then 1 else 0))).

Definition auth_usr (body : list Z) : option (list Z) := cstr_of (take 32 (drop 4 body)).
Definition auth_passwd (body : list Z) : option (list Z) := cstr_of (take 16 (drop 36 body)).

Definition abs_auth (m : mesg) (a : arsvr) : arsvr * bool :=
  let g := load32 (take 4 (m_body m)) in
  if 0 =? g then (a, false) else
  let ok := auth_valid (a_acc a) (default [] (auth_usr (m_body m))) (default [] (auth_passwd (m_body m))) in
  if ok then
    let x := abs_map_add (h_nid (m_head m)) (a_id a) (a_map a) in
    let a' out := a_set_conn true (h_nid (m_head m)) (ntohl g) x.2 out a in
    if x.1 =? 0 then (a' (a_out a ++ [auth_ack a true]), true) else (a' (a_out a), false)
  else (a_set_conn false (a_nid a) (ntohl g) (a_map a) (a_out a ++ [auth_ack a false]) a, true).

Definition abs_mesg (m : mesg) (a : arsvr) : arsvr * bool :=
  if h_flag (m_head m) =? RTMQ_SYS_MESG then
    if h_type (m_head m) =? RTMQ_CMD_AUTH_REQ then abs_auth m a
    else if h_type (m_head m) =? RTMQ_CMD_KPALIVE_REQ then
      if a_auth a then (a_set_conn true (a_nid a) (a_gid a) (a_map a) (a_out a ++ [keepalive_ack a]) a, true) else (a, false)
    else (a, false)
  else (abs_exp m a, true).

(** A request to authenticate has its three fields, the strings ended by a NUL;
    there are no subscriptions, whose tables are not sound. *)
Definition mesg_pre (m : mesg) (a : arsvr) : Prop :=
  if h_flag (m_head m) =? RTMQ_SYS_MESG then
    if h_type (m_head m) =? RTMQ_CMD_AUTH_REQ then
      (52 ≤ length (m_body m))%nat ∧ Forall is_byte (m_body m) ∧
      is_Some (auth_usr (m_body m)) ∧ is_Some (auth_passwd (m_body m)) ∧ is_node (h_nid (m_head m))
    else h_type (m_head m) ≠ RTMQ_CMD_SUB_REQ
  else a_in a ≠ [] ∧ Forall (λ r, 0 ≤ r) (a_rands a).

(** ** Representation *)

(** The queue [q] of the items [B] holds the messages [ms], the items being the
    references [rs]. *)
Definition item_rel (its : gmap ptr rtmq_recv_item_t) (p : ptr) (m : mesg) (r : href) : Prop :=
  its !! p = Some (RecvItem (r_blk r) (r_off r)) ∧ r_img r = host m.

Definition inq_rel (its : gmap ptr rtmq_recv_item_t) (B : list ptr) (q : queue_t) (ms : list mesg) (rs : list href) : Prop :=
  ∃ F Qs, queue_rep RECV_ITEM_SIZE B q (AQueue F Qs []) ∧ Forall3 (item_rel its) Qs ms rs.

Definition out_refs (ps : list ptr) (out : list mesg) : list href := zip_with (λ p m, Href p 0 (host m) true) ps out.

Section Rep.
Context {T : Type → Type} `{TreeLaws T}.
Context (B : bmap).

Record ctx_rep (x : rtmq_cntx_t T) (rss : list (list href)) (a : arsvr) : Prop := {
  cx_nid : conf_nid x = a_cnid a;
  cx_cmds : cmds x = a_cmds a;
  cx_rands : rands x = a_rands a;
  cx_tabs : comm_rep (tabs x) (a_acc a) (a_map a);
  cx_len : length (recvq x) = length (a_in a) ∧ length (a_blocks a) = length (a_in a) ∧ length rss = length (a_in a);
  cx_inq : ∀ i q B ms rs, recvq x !! i = Some q → a_blocks a !! i = Some B → a_in a !! i = Some ms → rss !! i = Some rs →
    inq_rel (items x) B q ms rs;
  cx_nodup : NoDup (concat (a_blocks a));
  cx_null : Forall (λ p, NULL < p) (concat (a_blocks a));
}.

Record srv_rep (h : hdl_st T) (refs : list href) (a : arsvr) : Prop := {
  sv_auth : auth_succ (h_sck h) = if a_auth a then 1 else 0;
  sv_nid : sk_nid (h_sck h) = a_nid a;
  sv_gid : sk_gid (h_sck h) = a_gid a;
  sv_id : rv_id (h_rsvr h) = a_id a;
  sv_recv : recv_total (h_rsvr h) = a_recv a;
  sv_drop : drop_total (h_rsvr h) = a_drop a;
  sv_sub : tr_wf (sub_list (h_sck h)) [];
  sv_refs : ∃ ps rss, l2rep (mesg_list (h_sck h)) ps ∧ length ps = length (a_out a) ∧
    refs ≡ₚ a_frame a ++ out_refs ps (a_out a) ++ concat rss ∧ ctx_rep (h_ctx h) rss a;
}.

Lemma srv_rep_perm h refs refs' a : refs ≡ₚ refs' → srv_rep h refs a → srv_rep h refs' a.
Proof.
  intros Hp [? ? ? ? ? ? ? (ps & rss & ? & ? & Hr & ?)]. constructor; try done. exists ps, rss. by rewrite <-Hp.
Qed.

Abbreviation state := (mref_st htree * hdl_st T)%type.

Lemma wp_on_refs {A} (m : SM (mref_st htree) A) (Q : A → state → mem → Prop) s h ms :
  wp m (λ a s' ms', Q a (s', h) ms') s ms → wp (on_refs m) Q (s, h) ms.
Proof. intros Hm. unfold on_refs, on_fst. by apply wp_zoom. Qed.
Lemma wp_on_h {A} (m : SM (hdl_st T) A) (Q : A → state → mem → Prop) s h ms :
  wp m (λ a h' ms', Q a (s, h') ms') h ms → wp (on_h m) Q (s, h) ms.
Proof. intros Hm. unfold on_h, on_snd. by apply wp_zoom. Qed.

Lemma srv_rep_cnid h refs a : srv_rep h refs a → conf_nid (h_ctx h) = a_cnid a.
Proof. intros Hh. destruct (sv_refs _ _ _ Hh) as (ps & rss & _ & _ & _ & Hx). apply (cx_nid _ _ _ Hx). Qed.

(** *** Answers *)

Definition a_set_out (out : list mesg) (a : arsvr) : arsvr :=
  a_set_conn (a_auth a) (a_nid a) (a_gid a) (a_map a) out a.

Lemma out_refs_snoc ps out p x : length ps = length out →
  out_refs (ps ++ [p]) (out ++ [x]) = out_refs ps out ++ [Href p 0 (host x) true].
Proof. intros Hl. unfold out_refs. by rewrite zip_with_app. Qed.

Lemma ctx_rep_conn x rss a auth nid gid out :
  ctx_rep x rss a → ctx_rep x rss (a_set_conn auth nid gid (a_map a) out a).
Proof. by intros []. Qed.

Lemma srv_rep_out h refs a : srv_rep h refs a →
  ∃ ps, l2rep (mesg_list (h_sck h)) ps ∧ ∀ l' p x, l2rep l' (ps ++ [p]) →
    srv_rep (set_sck (set_mesg_list l' (h_sck h)) h) (Href p 0 (host x) true :: refs) (a_set_out (a_out a ++ [x]) a).
Proof.
  intros [? ? ? ? ? ? ? (ps & rss & Hps & Hl & Hr & Hx)]. exists ps. split; [done|]. intros l' p x Hl'.
  constructor; try done. exists (ps ++ [p]), rss. cbn [a_out a_set_out a_set_conn a_frame]. split_and!; [done| | |by apply ctx_rep_conn].
  - rewrite !length_app. simpl. lia.
  - rewrite Hr, out_refs_snoc by done. solve_Permutation.
Qed.

Lemma wp_push_mesg s h ps addr (Q : Z → state → mem → Prop) :
  l2rep (mesg_list (h_sck h)) ps →
  (∀ l', l2rep l' (ps ++ [addr]) → Q RTMQ_OK (s, set_sck (set_mesg_list l' (h_sck h)) h) []) →
  wp (push_mesg addr) Q (s, h) [].
Proof.
  intros (cs & Hcs & <-) HQ. unfold push_mesg. apply wp_bind, wp_on_h. unfold on_mesg_list. apply wp_zoom.
  eapply wp_rpush2; [exact Hcs|]. simpl. intros l' q Hl'. cbn beta. change (0 =? 0) with true. cbn [negb].
  apply wp_ret, HQ. exists (cs ++ [(q, addr)]). by rewrite fmap_app.
Qed.

(** What a message leaves: the state [x], the handlers being at [a]. *)
Definition served (base : ptr) (c : list Z) (lim fr : Z) (a : arsvr) (x : state) : Prop :=
  fresh (mblk (fst x)) ≤ fr + 1 ∧ ∃ M' refs' c' n', mrep (fst x) M' ∧ M' !! base = Some (c', n') ∧
    length c' = length c ∧ drop (Z.to_nat lim) c' = drop (Z.to_nat lim) c ∧ srv_rep (snd x) refs' a ∧ minv (<[base := (c', lim)]> B) M' refs'.

Lemma served_same s h M refs base c n lim a :
  mrep s M → M !! base = Some (c, n) → B !! base = None → minv (<[base := (c, lim)]> B) M refs → srv_rep h refs a → ∀ fr, fresh (mblk s) ≤ fr →
  served base c lim fr a (s, h).
Proof. intros ????? fr Hf. split; [simpl; lia|]. exists M, refs, c, n. by split_and!. Qed.

(** A block is allocated, filled by [fill] and put in the list. *)
Lemma wp_answer s h M refs base c n lim a size x (fill : ptr → SM state unit) (Q : Z → state → mem → Prop) :
  mrep s M → M !! base = Some (c, n) → B !! base = None → minv (<[base := (c, lim)]> B) M refs → srv_rep h refs a → fresh (mblk s) < ADDR_MAX → 0 < size →
  (∀ p s1 M1 (R : unit → state → mem → Prop), mrep s1 M1 → M1 !! p = Some (replicate (Z.to_nat size) 0, 1) →
     (∀ s2, mrep s2 (<[p := (host x, 1)]> M1) → fresh (mblk s2) = fresh (mblk s1) → R tt (s2, h) []) → wp (fill p) R (s1, h) []) →
  (∀ y, served base c lim (fresh (mblk s)) (a_set_out (a_out a ++ [x]) a) y → Q RTMQ_OK y []) →
  wp (rsp ← on_refs (mref_alloc size 0 mem_alloc mem_free);
      if rsp =? NULL then mret RTMQ_ERR else fill rsp;; push_mesg rsp) Q (s, h) [].
Proof.
  intros Hm Hb HB Hinv Hh Hf Hsz Hfill HQ. apply wp_bind, wp_on_refs. apply (wp_mref_alloc _ M); [done|done|done|].
  intros p s1 Hp HN Hf1 Hm1.
  assert (p ≠ NULL) as Hp0.
  { destruct (mr_addr _ _ Hm1 p (replicate (Z.to_nat size) 0, 1)) as [? _]; [by rewrite lookup_insert_eq|]. unfold NULL. lia. }
  rewrite (proj2 (Z.eqb_neq _ _) Hp0). apply wp_bind.
  eapply Hfill; [exact Hm1|by rewrite lookup_insert_eq|]. intros s2 Hm2 Hf2. rewrite insert_insert_eq in Hm2.
  destruct (srv_rep_out _ _ _ Hh) as (ps & Hps & Hout). eapply wp_push_mesg; [exact Hps|]. intros l' Hl'.
  apply HQ. split; [simpl; lia|]. assert (p ≠ base) by congruence.
  exists (<[p := (host x, 1)]> M), (Href p 0 (host x) true :: refs), c, n. cbn [fst snd]. rewrite lookup_insert_ne by done.
  split_and!; [done|done|done|done|by apply Hout|by apply minv_new].
Qed.

Lemma fill_head p hd h s1 M1 l3 (R : unit → state → mem → Prop) :
  mrep s1 M1 → M1 !! p = Some (put_head (Head 0 0 0 0 0) ++ l3, 1) →
  (∀ s2, mrep s2 (<[p := (put_head hd ++ l3, 1)]> M1) → fresh (mblk s2) = fresh (mblk s1) → R tt (s2, h) []) →
  wp (on_refs (wr_head p 0 hd)) R (s1, h) [].
Proof.
  intros Hm Hp HR. apply wp_on_refs. apply (wp_wr_head _ _ _ [] (Head 0 0 0 0 0) hd l3 1 _ _ _ Hm); [done|done|]. exact HR.
Qed.

Lemma wp_keepalive s h M refs base c n lim a (Q : Z → state → mem → Prop) :
  mrep s M → M !! base = Some (c, n) → B !! base = None → minv (<[base := (c, lim)]> B) M refs → srv_rep h refs a → fresh (mblk s) < ADDR_MAX →
  (∀ r y, (r =? 0) = a_auth a →
     served base c lim (fresh (mblk s)) (if a_auth a then a_set_out (a_out a ++ [keepalive_ack a]) a else a) y → Q r y []) →
  wp rtmq_rsvr_keepalive_req_hdl Q (s, h) [].
Proof.
  intros Hm Hb HB Hinv Hh Hf HQ. unfold rtmq_rsvr_keepalive_req_hdl. apply wp_bind, wp_on_h. unfold get, wp at 1.
  rewrite (sv_auth _ _ _ Hh). destruct (a_auth a) eqn:Ha.
  - change (1 =? 0) with false. cbn beta iota.
    eapply (wp_answer _ _ _ _ _ _ _ _ _ HEAD_SIZE (keepalive_ack a)
      (λ rsp, on_refs (wr_head rsp 0 (Head RTMQ_CMD_KPALIVE_ACK (u32 (conf_nid (h_ctx h))) RTMQ_SYS_MESG 0 RTMQ_CHKSUM_VAL))));
      [done..| |intros y Hy; by apply HQ].
    intros p s1 M1 R Hm1 Hp HR. eapply (fill_head _ _ _ _ _ []); [exact Hm1|exact Hp|].
    rewrite (srv_rep_cnid _ _ _ Hh). exact HR.
  - change (0 =? 0) with true. cbn beta iota. apply wp_ret, HQ; [done|]. by eapply served_same.
Qed.

Lemma wp_link_auth_rsp s h M refs base c n lim a (Q : Z → state → mem → Prop) :
  mrep s M → M !! base = Some (c, n) → B !! base = None → minv (<[base := (c, lim)]> B) M refs → srv_rep h refs a → fresh (mblk s) < ADDR_MAX →
  (∀ y, served base c lim (fresh (mblk s)) (a_set_out (a_out a ++ [auth_ack a (a_auth a)]) a) y → Q RTMQ_OK y []) →
  wp rtmq_rsvr_link_auth_rsp Q (s, h) [].
Proof.
  intros Hm Hb HB Hinv Hh Hf HQ. unfold rtmq_rsvr_link_auth_rsp. apply wp_bind, wp_on_h. unfold get, wp at 1.
  set (hd := Head RTMQ_CMD_AUTH_ACK (u32 (conf_nid (h_ctx h))) RTMQ_SYS_MESG LINK_AUTH_ACK_SIZE RTMQ_CHKSUM_VAL).
  set (fill := (λ addr, on_refs (wr_head addr 0 hd);; on_refs (blk_wr addr HEAD_SIZE (store32 (htonl (auth_succ (h_sck h)))))) : ptr → SM state unit).
  assert (wp (rsp ← on_refs (mref_alloc (HEAD_SIZE + LINK_AUTH_ACK_SIZE) 0 mem_alloc mem_free);
      if rsp =? NULL then mret RTMQ_ERR else fill rsp;; push_mesg rsp) Q (s, h) []) as Hw.
  { eapply (wp_answer _ _ _ _ _ _ _ _ _ _ (auth_ack a (a_auth a)) fill); [done..| |exact HQ].
    intros p s1 M1 R Hm1 Hp HR. unfold fill. apply wp_bind.
    eapply (fill_head _ _ _ _ _ (replicate 4 0)); [exact Hm1|exact Hp|]. intros s2 Hm2 Hf2. apply wp_on_refs.
    eapply (wp_blk_wr _ _ p _ (put_head hd ++ store32 (htonl (auth_succ (h_sck h))))); [exact Hm2|by rewrite lookup_insert_eq| |].
    { pose proof (wr_bytes_app (put_head hd) (replicate 4 0) [] (store32 (htonl (auth_succ (h_sck h))))) as Hwr.
      rewrite !app_nil_r in Hwr. by apply Hwr. }
    intros s3 Hm3 Hf3. rewrite insert_insert_eq in Hm3. apply HR; [|congruence].
    unfold hd in Hm3. rewrite (srv_rep_cnid _ _ _ Hh), (sv_auth _ _ _ Hh) in Hm3. exact Hm3. }
  apply wp_bind_inv in Hw. apply wp_bind. eapply wp_mono; [exact Hw|]. intros p [s1 h1] ms1 Hp.
  destruct (p =? NULL); [exact Hp|]. unfold fill in Hp. do 2 apply wp_bind_inv in Hp.
  apply wp_bind. eapply wp_mono; [exact Hp|]. intros [] s2 ms2 H2. by apply wp_bind.
Qed.

(** *** The request to authenticate *)

Lemma wp_on_tabs {A} (m : SM (comm_st T) A) (Q : A → state → mem → Prop) s h ms :
  wp m (λ r t ms', Q r (s, set_ctx (set_tabs t (h_ctx h)) h) ms') (tabs (h_ctx h)) ms →
  wp (on_h (on_ctx (on_tabs m))) Q (s, h) ms.
Proof. intros Hm. apply wp_on_h. unfold on_ctx, on_tabs. apply wp_zoom, wp_zoom. exact Hm. Qed.

Lemma srv_rep_conn h refs a auth nid gid mp t sck :
  srv_rep h refs a → comm_rep t (a_acc a) mp →
  RtmqRsvr.auth_succ sck = (if auth : bool then 1 else 0) → sk_nid sck = nid → sk_gid sck = gid →
  mesg_list sck = mesg_list (h_sck h) → sub_list sck = sub_list (h_sck h) →
  srv_rep (Hdl sck (h_rsvr h) (set_tabs t (h_ctx h))) refs (a_set_conn auth nid gid mp (a_out a) a).
Proof.
  intros [? ? ? ? ? ? ? (ps & rss & ? & ? & ? & Hx)] Ht Ha1 Ha2 Ha3 Ha4 Ha5. constructor; try done; [cbn [h_sck]; by rewrite Ha5|].
  exists ps, rss. cbn [h_sck h_ctx]. rewrite Ha4. split_and!; [done|done|done|]. by destruct Hx.
Qed.

Lemma served_content base c c1 lim fr a y :
  length c1 = length c → drop (Z.to_nat lim) c1 = drop (Z.to_nat lim) c →
  served base c1 lim fr a y → served base c lim fr a y.
Proof.
  intros Hl Hd (Hf & M' & refs' & c' & n' & Hs). split; [done|].
  exists M', refs', c', n'. by rewrite <-Hl, <-Hd.
Qed.

(** The fields of the request. *)
Lemma auth_fields (body : list Z) : (52 ≤ length body)%nat →
  body = take 4 body ++ take 32 (drop 4 body) ++ take 16 (drop 36 body) ++ drop 52 body ∧
  length (take 4 body) = 4%nat ∧ length (take 32 (drop 4 body)) = 32%nat ∧ length (take 16 (drop 36 body)) = 16%nat.
Proof.
  intros Hl. split_and!; rewrite ?length_take, ?length_drop; try lia.
  rewrite <-(take_drop 4 body) at 1. f_equal. rewrite <-(take_drop 32 (drop 4 body)) at 1. rewrite drop_drop. f_equal.
  rewrite <-(take_drop 16 (drop (4 + 32) body)) at 1. by rewrite drop_drop.
Qed.

Lemma abs_map_add_code nid r N : (abs_map_add nid r N).1 = MAP_OK ∨ (abs_map_add nid r N).1 = MAP_ERR.
Proof. unfold abs_map_add. case_decide; auto. Qed.

(** The end of the handler, the account being checked. *)
Lemma wp_auth_end s h M refs base c n lim m a gid ok (Q : Z → state → mem → Prop) :
  mrep s M → M !! base = Some (c, n) → B !! base = None → minv (<[base := (c, lim)]> B) M refs → srv_rep h refs a → fresh (mblk s) < ADDR_MAX →
  is_node (h_nid (m_head m)) →
  let x := abs_map_add (h_nid (m_head m)) (a_id a) (a_map a) in
  let a1 := if ok : bool then a_set_conn true (h_nid (m_head m)) gid x.2 (a_out a) a
            else a_set_conn false (a_nid a) gid (a_map a) (a_out a) a in
  (∀ r y, (if ok then x.1 = MAP_OK else True) → r = RTMQ_OK →
     served base c lim (fresh (mblk s)) (a_set_out (a_out a1 ++ [auth_ack a1 ok]) a1) y → Q r y []) →
  (∀ y, ok = true → x.1 = MAP_ERR → served base c lim (fresh (mblk s)) a1 y → Q RTMQ_ERR y []) →
  wp (on_h (modify (λ h, set_sck (set_auth_succ (if ok then 1 else 0) (h_sck h)) h));;
      ret ← (if negb ((if ok then 1 else 0) =? 0) then
           on_h (modify (λ h, set_sck (set_nid (h_nid (m_head m)) (h_sck h)) h));;
           h ← on_h get;
           on_h (on_ctx (on_tabs (rtmq_node_to_svr_map_add (i32 (h_nid (m_head m))) (rv_id (h_rsvr h)))))
         else mret MAP_OK);
      if negb (ret =? 0) then mret RTMQ_ERR else rtmq_rsvr_link_auth_rsp)
    Q (s, set_sck (set_gid gid (h_sck h)) h) [].
Proof.
  intros Hm Hb HB Hinv Hh Hf Hid x a1 HQ1 HQ2. apply wp_bind, wp_on_h. unfold modify at 1, wp at 1. apply wp_bind.
  destruct (sv_refs _ _ _ Hh) as (ps & rss & _ & _ & _ & Hx). pose proof (cx_tabs _ _ _ Hx) as Ht.
  destruct ok; cbn [negb Z.eqb].
  - change (1 =? 0) with false. cbn [negb]. apply wp_bind, wp_on_h. unfold modify at 1, wp at 1.
    apply wp_bind, wp_on_h. unfold get at 1, wp at 1. cbn [set_sck h_rsvr].
    rewrite i32_small by (unfold is_node in Hid; lia). apply wp_on_tabs. cbn [set_sck h_ctx].
    rewrite (sv_id _ _ _ Hh). eapply wp_map_add; [exact Ht|by apply node_nid|]. intros t Ht1. fold x in Ht1 |- *.
    assert (srv_rep (Hdl (set_nid (h_nid (m_head m)) (set_auth_succ 1 (set_gid gid (h_sck h)))) (h_rsvr h) (set_tabs t (h_ctx h))) refs a1) as Hh1.
    { by apply (srv_rep_conn _ _ _ true). }
    destruct (abs_map_add_code (h_nid (m_head m)) (a_id a) (a_map a)) as [Hr|Hr]; fold x in Hr; rewrite Hr.
    + change (MAP_OK =? 0) with true. cbn [negb]. eapply wp_link_auth_rsp; [exact Hm|exact Hb|exact HB|exact Hinv|exact Hh1|exact Hf|].
      intros y Hy. by apply HQ1.
    + change (MAP_ERR =? 0) with false. cbn [negb]. apply wp_ret, HQ2; [done|done|].
      eapply served_same; [exact Hm|exact Hb|exact HB|exact Hinv|exact Hh1|lia].
  - change (0 =? 0) with true. cbn [negb]. apply wp_ret. change (MAP_OK =? 0) with true. cbn [negb].
    assert (srv_rep (Hdl (set_auth_succ 0 (set_gid gid (h_sck h))) (h_rsvr h) (h_ctx h)) refs a1) as Hh1.
    { replace (h_ctx h) with (set_tabs (tabs (h_ctx h)) (h_ctx h)) by (by destruct (h_ctx h)).
      apply (srv_rep_conn _ _ _ false); try done. apply Hh. }
    eapply wp_link_auth_rsp; [exact Hm|exact Hb|exact HB|exact Hinv|exact Hh1|exact Hf|]. intros y Hy. by apply HQ1.
Qed.

Lemma wp_link_auth_req s h M refs base c n off m a (Q : Z → state → mem → Prop) :
  mrep s M → M !! base = Some (c, n) → rd_bytes c off (Z.of_nat (length (host m))) = Some (host m) →
  head_ok (m_head m) → B !! base = None → minv (<[base := (c, off)]> B) M refs → srv_rep h refs a → fresh (mblk s) < ADDR_MAX →
  (52 ≤ length (m_body m))%nat → Forall is_byte (m_body m) →
  is_Some (auth_usr (m_body m)) → is_Some (auth_passwd (m_body m)) → is_node (h_nid (m_head m)) →
  (∀ r y, (r =? 0) = (abs_auth m a).2 →
     served base c (off + Z.of_nat (length (host m))) (fresh (mblk s)) (abs_auth m a).1 y → Q r y []) →
  wp (rtmq_rsvr_link_auth_req_hdl base off) Q (s, h) [].
Proof.
  intros Hm Hb Hrd Hhd HB Hinv Hh Hf Hlen Hbytes [usr Husr] [pw Hpw] Hid HQ.
  destruct (rd_bytes_split _ _ _ Hrd) as (pre & post & -> & Hoff).
  destruct (auth_fields _ Hlen) as (Hbody & Hlg & Hlu & Hlw).
  assert (0 ≤ off) as Hoff0 by lia.
  unfold abs_auth in HQ. rewrite Husr, Hpw in HQ. change (default [] (Some usr)) with usr in HQ. change (default [] (Some pw)) with pw in HQ.
  unfold auth_usr in Husr. unfold auth_passwd in Hpw.
  set (g := take 4 (m_body m)) in *. set (u := take 32 (drop 4 (m_body m))) in *.
  set (w := take 16 (drop 36 (m_body m))) in *. set (z := drop 52 (m_body m)) in *.
  pose proof Hb as Hb0. unfold host in Hb. rewrite Hbody in Hb. rewrite <-!app_assoc in Hb.
  set (lim := off + Z.of_nat (length (host m))) in *.
  assert (minv (<[base := (pre ++ host m ++ post, lim)]> B) M refs) as Hinv'.
  { rewrite <-(insert_insert_eq B base _ (pre ++ host m ++ post, off)). eapply (minv_lim Hinv); [by rewrite lookup_insert_eq|unfold lim; lia]. }
  unfold rtmq_rsvr_link_auth_req_hdl. apply wp_bind, wp_on_refs.
  eapply wp_rd_head; [exact Hm|exact Hb|exact Hoff|exact Hhd|]. apply wp_bind, wp_on_refs.
  assert (off + HEAD_SIZE = Z.of_nat (length (pre ++ put_head (m_head m)))) as Hog.
  { rewrite length_app, put_head_length. unfold HEAD_SIZE. lia. }
  eapply (wp_blk_rd _ _ _ _ _ _ _ g); [exact Hm|exact Hb| |].
  { rewrite Hog, (app_assoc pre). change 4 with (Z.of_nat 4). rewrite <-Hlg. apply rd_bytes_app. }
  destruct (Z.eqb_spec 0 (load32 g)) as [Hg|Hg].
  { apply wp_ret, HQ; [done|]. eapply served_same; [done|exact Hb0|done|done|exact Hh|lia]. }
  set (gid := ntohl (load32 g)) in *.
  set (c1 := pre ++ put_head (m_head m) ++ store32 gid ++ u ++ w ++ z ++ post).
  apply wp_bind, wp_on_refs. eapply (wp_blk_wr _ _ _ _ c1); [exact Hm|exact Hb| |].
  { rewrite Hog, (app_assoc pre). unfold c1. rewrite (app_assoc pre). by apply wr_bytes_app. }
  intros s1 Hm1 Hf1. cbn beta. apply wp_bind, wp_on_h. unfold modify at 1, wp at 1. apply wp_bind, wp_on_refs.
  eapply wp_blk_get; [exact Hm1|by rewrite lookup_insert_eq|].
  assert (cstr_at c1 (off + HEAD_SIZE + 4) = Some usr) as Hcu.
  { replace (off + HEAD_SIZE + 4) with (Z.of_nat (length (pre ++ put_head (m_head m) ++ store32 gid)))
      by (rewrite !length_app, put_head_length; simpl; unfold HEAD_SIZE; lia).
    unfold c1. rewrite !(app_assoc (put_head _)), (app_assoc pre). by apply cstr_at_app. }
  assert (cstr_at c1 (off + HEAD_SIZE + 36) = Some pw) as Hcw.
  { replace (off + HEAD_SIZE + 36) with (Z.of_nat (length (pre ++ put_head (m_head m) ++ store32 gid ++ u)))
      by (rewrite !length_app, put_head_length, Hlu; simpl; unfold HEAD_SIZE; lia).
    unfold c1. rewrite (app_assoc (store32 gid)), (app_assoc (put_head _)), (app_assoc pre). by apply cstr_at_app. }
  rewrite Hcu, Hcw. cbn [deref]. apply wp_bind, wp_ret. apply wp_bind, wp_on_tabs.
  assert (is_cstr usr) as Hcu' by (by eapply cstr_of_ok; [apply Forall_take, Forall_drop|]).
  assert (is_cstr pw) as Hcw' by (by eapply cstr_of_ok; [apply Forall_take, Forall_drop|]).
  destruct (sv_refs _ _ _ Hh) as (ps & rss & _ & _ & _ & Hx).
  unfold rtmq_link_auth_check. apply wp_bind.
  eapply wp_rtmq_auth_check; [apply (cx_tabs _ _ _ Hx)|exact Hcu'|exact Hcw'|]. apply wp_ret.
  assert (length c1 = length (pre ++ host m ++ post)) as Hlc.
  { unfold c1, host. rewrite Hbody. rewrite !length_app, Hlg. simpl. lia. }
  assert (drop (Z.to_nat lim) c1 = drop (Z.to_nat lim) (pre ++ host m ++ post)) as Hdc.
  { replace (Z.to_nat lim) with (length (pre ++ host m)) by (rewrite length_app; unfold lim; lia).
    rewrite (app_assoc pre (host m)), drop_app_length.
    replace c1 with ((pre ++ put_head (m_head m) ++ store32 gid ++ u ++ w ++ z) ++ post) by (unfold c1; by rewrite <-!app_assoc).
    rewrite drop_app_length'; [done|]. rewrite !length_app. unfold host. rewrite Hbody. rewrite !length_app, Hlg. simpl. lia. }
  assert (minv (<[base := (c1, lim)]> B) (<[base := (c1, n)]> M) refs) as Hinv1.
  { rewrite <-(insert_insert_eq B base _ (c1, off)). eapply minv_lim; [|by rewrite lookup_insert_eq|unfold lim; lia].
    rewrite <-(insert_insert_eq B base _ (pre ++ host m ++ post, off)).
    eapply (minv_content Hinv); [by rewrite lookup_insert_eq|exact Hb0|]. intros o l Ho. unfold c1. apply (rd_bytes_stable pre _ _ off); [|lia|done].
    unfold c1 in Hlc. rewrite !length_app in *. lia. }
  set (ok := auth_valid (a_acc a) usr pw) in *.
  replace (if ok then RTMQ_LINK_AUTH_SUCC else RTMQ_LINK_AUTH_FAIL) with (if ok then 1 else 0) by done.
  assert (set_ctx (set_tabs (tabs (h_ctx h)) (h_ctx h)) (set_sck (set_gid gid (h_sck h)) h) = set_sck (set_gid gid (h_sck h)) h) as Hst.
  { unfold set_ctx, set_sck. simpl. by destruct (h_ctx h). }
  cbn [set_sck h_ctx]. cbn [set_sck] in Hst. rewrite Hst.
  eapply (wp_auth_end _ _ _ _ _ _ _ lim m a gid ok); [exact Hm1|by rewrite lookup_insert_eq|exact HB|exact Hinv1|exact Hh|lia|exact Hid| |];
    rewrite Hf1.
  - intros r y Hr -> Hy. apply (served_content _ _ _ _ _ _ _ Hlc Hdc) in Hy. apply HQ; destruct ok; rewrite ?Hr; done.
  - intros y -> Hr Hy. apply (served_content _ _ _ _ _ _ _ Hlc Hdc) in Hy. apply HQ; cbn zeta; rewrite ?Hr; done.
Qed.
End Rep.
