(* ===== verification/RtmqExp.v ===== *)
(** The messages of the applications: [rtmq_rsvr_exp_mesg_proc] follows the
    abstract server, and with it all the handlers implement [RecvLaws]. *)
From stdpp Require Import fin_maps gmap.
From S2P Require Import Prelude Heap Table HashTab TreeRel List2 Vector Ring Slot QueueSpec Mref Bytes Trees RtmqRecv RtmqMem RtmqRecvSpec RtmqComm RtmqCommSpec RtmqRsvr RtmqRsvrSpec.
Open Scope Z_scope.

(** ** Lists of lists *)

Lemma alter_insert {A} (f : A → A) (l : list A) i x : l !! i = Some x → alter f i l = <[i := f x]> l.
Proof.
  revert i. induction l as [|y l IH]; intros [|i]; cbn; try done; [congruence|].
  intros Hi. f_equal. by apply IH.
Qed.

Lemma concat_insert_snoc {A} (ls : list (list A)) i l x :
  ls !! i = Some l → concat (<[i := l ++ [x]]> ls) ≡ₚ x :: concat ls.
Proof.
  revert i. induction ls as [|y ls IH]; intros [|i]; cbn; try done.
  - intros [= ->]. solve_Permutation.
  - intros Hi. change (insert i (l ++ [x]) ls) with (<[i := l ++ [x]]> ls). rewrite IH by done. solve_Permutation.
Qed.

Lemma elem_of_concat {A} (ls : list (list A)) i l x : ls !! i = Some l → x ∈ l → x ∈ concat ls.
Proof.
  revert i. induction ls as [|y ls IH]; intros [|i]; cbn; try done; rewrite elem_of_app.
  - intros [= ->]. auto.
  - intros ??. right. by eapply IH.
Qed.

Lemma concat_disjoint {A} (ls : list (list A)) i j l1 l2 x :
  NoDup (concat ls) → ls !! i = Some l1 → ls !! j = Some l2 → i ≠ j → x ∈ l1 → x ∉ l2.
Proof.
  revert i j. induction ls as [|y ls IH]; intros i j; cbn; [done|]. rewrite NoDup_app. intros (_ & Hd & Hn) Hi Hj Hne Hx1 Hx2.
  destruct i as [|i], j as [|j]; cbn in *; [done|..].
  - injection Hi as ->. apply (Hd x Hx1). by eapply elem_of_concat.
  - injection Hj as ->. apply (Hd x Hx2). by eapply elem_of_concat.
  - apply (IH i j); auto.
Qed.

(** ** The receive queues *)

Lemma inq_rel_items its its' B q ms rs :
  (∀ p, p ∈ B → its' !! p = its !! p) → inq_rel its B q ms rs → inq_rel its' B q ms rs.
Proof.
  intros Heq (F & Qs & Hq & Hall). exists F, Qs. split; [done|].
  assert (∀ p, p ∈ Qs → its' !! p = its !! p) as Hin.
  { intros p Hp. apply Heq. rewrite <-(qr_blocks _ _ _ _ Hq). cbn. rewrite !elem_of_app. auto. }
  clear Heq Hq. induction Hall as [|p m r Qs ms rs [Hp Hm] Hall IH]; constructor.
  - split; [|done]. rewrite Hin by (by left). done.
  - apply IH. intros p' Hp'. apply Hin. by right.
Qed.

(** The length of a queue against its blocks tells whether a block is free. *)
Lemma inq_rel_free its B q ms rs : inq_rel its B q ms rs → ∃ F Qs,
  queue_rep RECV_ITEM_SIZE B q (AQueue F Qs []) ∧ Forall3 (item_rel its) Qs ms rs ∧
  length B = (length F + length ms)%nat.
Proof.
  intros (F & Qs & Hq & Hall). exists F, Qs. split_and!; [done|done|].
  rewrite <-(qr_blocks _ _ _ _ Hq). cbn. rewrite !length_app. simpl. apply Forall3_length_lm in Hall. lia.
Qed.

Lemma item_rel_insert its p x Qs ms rs :
  p ∉ Qs → Forall3 (item_rel its) Qs ms rs → Forall3 (item_rel (<[p := x]> its)) Qs ms rs.
Proof.
  intros Hp Hall. induction Hall as [|p' m r Qs ms rs [Hp' Hm] Hall IH]; constructor.
  - apply not_elem_of_cons in Hp as [? _]. split; [|done]. by rewrite lookup_insert_ne.
  - apply IH. by apply not_elem_of_cons in Hp as [_ ?].
Qed.

(** The first free block is not queued. *)
Lemma queue_rep_head size B q p F Qs U : queue_rep size B q (AQueue (p :: F) Qs U) → p ∉ Qs.
Proof.
  intros Hq. pose proof (qr_nodup _ _ _ _ Hq) as Hn. rewrite <-(qr_blocks _ _ _ _ Hq) in Hn. cbn in Hn.
  apply NoDup_cons in Hn as [Hn _]. rewrite !elem_of_app in Hn. naive_solver.
Qed.

Section Exp.
Context {T : Type → Type} `{TreeLaws T}.
Context (B : bmap).
Abbreviation state := (mref_st htree * hdl_st T)%type.

Lemma wp_on_recvq {A} i q (m : SM queue_t A) (Q : A → rtmq_cntx_t T → mem → Prop) x ms :
  recvq x !! i = Some q →
  wp m (λ a q' ms', Q a (set_recvq (<[i := q']> (recvq x)) x) ms') q ms → wp (on_recvq (Z.of_nat i) m) Q x ms.
Proof.
  intros Hq Hm. unfold on_recvq. apply wp_bind. unfold get, wp at 1. apply wp_bind.
  rewrite (proj2 (Z.ltb_ge _ _)) by lia. rewrite Nat2Z.id, Hq. apply wp_ret.
  apply wp_bind, wp_run_on. eapply wp_mono; [exact Hm|]. intros a q' ms' HQ. apply wp_bind. unfold modify, wp at 1.
  apply wp_ret. exact HQ.
Qed.

(** A queue changes: its items, its messages and their references. *)
Lemma ctx_rep_upd x rss a i q' its' ms' rs' Bi cs rs recv drp :
  ctx_rep x rss a → a_blocks a !! i = Some Bi →
  (∀ p, p ∉ Bi → its' !! p = items x !! p) → inq_rel its' Bi q' ms' rs' →
  ctx_rep (Cntx (conf_nid x) (<[i := q']> (recvq x)) its' cs (tabs x) rs) (<[i := rs']> rss)
    (a_set_in (<[i := ms']> (a_in a)) recv drp cs rs a).
Proof.
  intros [Hnid Hcmds Hrands Htabs (Hl1 & Hl2 & Hl3) Hinq Hnd Hnull] HB Hits Hq.
  constructor; cbn; try done.
  - rewrite !length_insert. done.
  - intros j q B' ms0 rs0 Hqj HBj Hmj Hrj. destruct (decide (i = j)) as [<-|Hne].
    + apply lookup_lt_Some in HB as Hi.
      rewrite list_lookup_insert_eq in Hqj by lia. rewrite list_lookup_insert_eq in Hmj by lia.
      rewrite list_lookup_insert_eq in Hrj by lia. congruence.
    + rewrite list_lookup_insert_ne in Hqj by done. rewrite list_lookup_insert_ne in Hmj by done.
      rewrite list_lookup_insert_ne in Hrj by done. eapply inq_rel_items; [|by eapply Hinq].
      intros p Hp. apply Hits. apply (concat_disjoint (a_blocks a) j i B' Bi); auto.
Qed.
(** ** Commands *)

Definition add_cmds cs (x : rtmq_cntx_t T) : rtmq_cntx_t T := set_cmds (cmds x ++ cs) x.

Lemma wp_cmd_proc_req id n x (Q : Z → rtmq_cntx_t T → mem → Prop) ms :
  Q RTMQ_OK (add_cmds [proc_req id n] x) ms → wp (rtmq_rsvr_cmd_proc_req id (Z.of_nat n)) Q x ms.
Proof. done. Qed.

Lemma wp_cmd_each id l : ∀ x (Q : unit → rtmq_cntx_t T → mem → Prop) ms,
  Q tt (add_cmds (proc_req id <$> l) x) ms →
  wp (for_each (λ idx : nat, rtmq_rsvr_cmd_proc_req id (Z.of_nat idx);; mret tt) l) Q x ms.
Proof.
  induction l as [|i l IH]; intros x Q ms HQ; cbn [for_each].
  - apply wp_ret. unfold add_cmds, set_cmds in HQ. cbn in HQ. rewrite app_nil_r in HQ. by destruct x.
  - apply wp_bind, wp_bind, wp_cmd_proc_req, wp_ret, IH. unfold add_cmds, set_cmds in *. cbn in *. by rewrite <-app_assoc.
Qed.

Lemma wp_cmd_all id x (Q : Z → rtmq_cntx_t T → mem → Prop) ms :
  Q RTMQ_OK (add_cmds (proc_req id <$> seq 0 (length (recvq x))) x) ms → wp (rtmq_rsvr_cmd_proc_all_req id) Q x ms.
Proof.
  intros HQ. unfold rtmq_rsvr_cmd_proc_all_req. apply wp_bind. unfold get, wp at 1. by apply wp_bind, wp_cmd_each, wp_ret.
Qed.

(** ** The handler *)

Lemma srv_rep_in h refs a : srv_rep h refs a → ∃ ps rss, ctx_rep (h_ctx h) rss a ∧
  refs ≡ₚ a_frame a ++ out_refs ps (a_out a) ++ concat rss ∧
  ∀ x' rss' refs' recv drp inq cs rs, ctx_rep x' rss' (a_set_in inq recv drp cs rs a) →
    refs' ≡ₚ a_frame a ++ out_refs ps (a_out a) ++ concat rss' →
    srv_rep (Hdl (h_sck h) (Rsvr (rv_id (h_rsvr h)) recv drp) x') refs' (a_set_in inq recv drp cs rs a).
Proof.
  intros [? ? ? ? ? ? ? (ps & rss & ? & ? & ? & Hx)]. exists ps, rss. split_and!; [done|done|].
  intros. constructor; cbn; try done. exists ps, rss'. done.
Qed.

Lemma ctx_rep_counts x rss a recv drp :
  ctx_rep x rss a → ctx_rep x rss (a_set_in (a_in a) recv drp (a_cmds a) (a_rands a) a).
Proof. by intros []. Qed.

Lemma wp_exp_mesg s h M refs base c n off m a (Q : Z → state → mem → Prop) :
  mrep s M → M !! base = Some (c, n) → 0 ≤ off → Z.of_nat (length c) < 2 ^ 31 →
  rd_bytes c off (Z.of_nat (length (host m))) = Some (host m) → head_ok (m_head m) →
  B !! base = None → minv (<[base := (c, off)]> B) M refs → srv_rep h refs a → a_in a ≠ [] → Forall (λ r, 0 ≤ r) (a_rands a) →
  (∀ r y, served B base c (off + Z.of_nat (length (host m))) (fresh (mblk s)) (abs_exp m a) y → Q r y []) →
  wp (rtmq_rsvr_exp_mesg_proc base off) Q (s, h) [].
Proof.
  intros Hm Hb Hoff Hc Hrd Hhd HB Hinv Hh Hin Hrs HQ. set (lim := off + Z.of_nat (length (host m))) in *.
  assert (minv (<[base := (c, lim)]> B) M refs) as Hinv'.
  { rewrite <-(insert_insert_eq B base _ (c, off)). eapply (minv_lim Hinv); [by rewrite lookup_insert_eq|unfold lim; lia]. }
  unfold rtmq_rsvr_exp_mesg_proc. apply wp_bind, wp_on_h. unfold get, wp at 1. rewrite (sv_auth _ _ _ Hh).
  unfold abs_exp in HQ. destruct (a_auth a); cbn [negb] in HQ; [change (1 =? 0) with false|change (0 =? 0) with true]; cbn beta iota.
  2: { apply wp_ret, HQ. eapply served_same; [exact Hm|exact Hb|exact HB|exact Hinv'|exact Hh|lia]. }
  apply wp_bind, wp_on_h. unfold modify at 1, wp at 1. apply wp_bind, wp_on_refs.
  destruct (rd_bytes_split _ _ _ Hrd) as (pre & post & Hcs & Hpre).
  eapply (wp_rd_head _ M base pre (m_head m) (m_body m ++ post) n); [exact Hm| |exact Hpre|exact Hhd|].
  { rewrite Hb, Hcs. unfold host. by rewrite <-app_assoc. }
  rewrite (sv_nid _ _ _ Hh). destruct (srv_rep_in _ _ _ Hh) as (ps & rss & Hx & Hrefs & Hupd).
  cbn [h_sck set_rsvr h_rsvr]. rewrite (sv_recv _ _ _ Hh), (sv_drop _ _ _ Hh).
  destruct (h_nid (m_head m) =? a_nid a); cbn [negb] in *.
  2: { apply wp_bind, wp_on_h. unfold modify at 1, wp at 1. cbn [set_rsvr rv_id h_rsvr recv_total drop_total]. apply wp_ret, HQ.
    eapply served_same; [exact Hm|exact Hb|exact HB|exact Hinv'| |lia]. apply (Hupd _ rss); [by apply ctx_rep_counts|done]. }
  apply wp_bind, wp_on_h. unfold on_ctx at 1. apply wp_zoom. unfold c_rand. apply wp_bind. unfold get, wp at 1.
  apply wp_bind. unfold put, wp at 1. apply wp_ret. cbn [set_rsvr h_ctx]. rewrite (cx_rands _ _ _ Hx).
  destruct (cx_len _ _ _ Hx) as (Hl1 & Hl2 & Hl3). rewrite Hl1.
  assert (length (a_in a) ≠ 0%nat) as Hl0 by (by destruct (a_in a)). rewrite decide_False by done.
  set (i := Z.to_nat (Z.rem (default 0 (head (a_rands a))) (Z.of_nat (length (a_in a))))) in *.
  assert (0 ≤ default 0 (head (a_rands a))) as Hr0 by (by destruct Hrs).
  pose proof (Z.rem_bound_pos (default 0 (head (a_rands a))) (Z.of_nat (length (a_in a))) ltac:(lia) ltac:(lia)) as Hrem.
  replace (Z.rem (default 0 (head (a_rands a))) (Z.of_nat (length (a_in a)))) with (Z.of_nat i) by (unfold i; lia).
  assert (i < length (a_in a))%nat as Hi by (unfold i; lia). clearbody i. clear Hrem.
  destruct (lookup_lt_is_Some_2 (recvq (h_ctx h)) i) as [q Hq]; [lia|].
  destruct (lookup_lt_is_Some_2 (a_blocks a) i) as [Bi HBi]; [lia|].
  destruct (lookup_lt_is_Some_2 (a_in a) i) as [ms Hms]; [lia|].
  destruct (lookup_lt_is_Some_2 rss i) as [rs Hrsi]; [lia|].
  rewrite Hms, HBi in HQ. cbn [default] in HQ.
  destruct (inq_rel_free _ _ _ _ _ (cx_inq _ _ _ Hx i q Bi ms rs Hq HBi Hms Hrsi)) as (F & Qs & Hqr & Hall & Hlen).
  apply wp_bind, wp_on_h. unfold on_ctx at 1. apply wp_zoom. apply (wp_on_recvq i q); [done|].
  eapply wp_queue_malloc; [exact Hqr|done|]. intros q1 Hq1. cbn [afree].
  destruct F as [|p F].
  - change (default NULL (head []) =? NULL) with true. cbn beta iota. rewrite decide_False in HQ by (simpl in *; lia).
    apply wp_bind, wp_on_h. unfold modify at 1, wp at 1. apply wp_bind, wp_on_h. unfold on_ctx at 1. apply wp_zoom.
    apply wp_cmd_all, wp_ret, HQ.
    assert (inq_rel (items (h_ctx h)) Bi q1 ms rs) as Hq1' by (by exists [], Qs).
    pose proof (ctx_rep_upd _ _ _ i q1 _ ms rs Bi (a_cmds a ++ (proc_req (a_id a) <$> seq 0 (length (a_in a)))) (tail (a_rands a))
      (u64 (a_recv a + 1)) (u64 (a_drop a + 1)) Hx HBi (λ _ _, eq_refl) Hq1') as Hx1.
    rewrite (list_insert_id (a_in a)), (list_insert_id rss) in Hx1 by done.
    pose proof (Hupd _ _ _ _ _ _ _ _ Hx1 Hrefs) as Hh1.
    eapply served_same; [exact Hm|exact Hb|exact HB|exact Hinv'| |lia]. unfold add_cmds, set_cmds, set_ctx, set_rsvr, set_recvq, set_rands. cbn.
    rewrite (cx_cmds _ _ _ Hx), length_insert, Hl1. rewrite <-(sv_id _ _ _ Hh) in Hh1 |- *. exact Hh1.
  - assert (p ∈ Bi) as HpB by (rewrite <-(qr_blocks _ _ _ _ Hqr); cbn; by left).
    assert (NULL < p) as Hp0 by (eapply Forall_forall; [exact (cx_null _ _ _ Hx)|by eapply elem_of_concat]).
    change (default NULL (head (p :: F))) with p. rewrite (proj2 (Z.eqb_neq p NULL)) by lia. cbn beta iota. rewrite decide_True in HQ by (simpl in *; lia).
    destruct (minv_buf_in Hinv base c off) as (n' & Hn' & _ & Hfew); [by rewrite lookup_insert_eq|].
    rewrite Hb in Hn'. injection Hn' as <-.
    assert (off ≤ Z.of_nat (length c)) as Hoffc by (rewrite Hcs, length_app; lia).
    apply wp_bind, wp_on_refs. eapply wp_mref_inc; [exact Hm|exact Hb|lia|]. intros s1 Hm1 Hf1.
    apply wp_bind, wp_on_h. unfold modify at 1, wp at 1. apply wp_bind, wp_on_h. unfold on_ctx at 1. apply wp_zoom.
    apply (wp_on_recvq i q1); [cbn; apply list_lookup_insert_eq; lia|].
    eapply wp_queue_push; [exact Hq1|cbn; by left|]. intros q2 Hq2.
    apply wp_bind, wp_on_h. unfold on_ctx at 1. apply wp_zoom. apply wp_cmd_proc_req, wp_ret, HQ.
    assert (inq_rel (<[p := RecvItem base off]> (items (h_ctx h))) Bi q2 (ms ++ [m]) (rs ++ [Href base off (host m) false])) as Hq2'.
    { exists F, (Qs ++ [p]). split.
      - change (queue_rep RECV_ITEM_SIZE Bi q2 (AQueue F (Qs ++ [p]) (drop_block p [p]))) in Hq2.
        unfold drop_block in Hq2. rewrite filter_cons_False in Hq2 by naive_solver. exact Hq2.
      - apply Forall3_app; [|constructor; [|constructor]].
        + eapply item_rel_insert; [|exact Hall]. exact (queue_rep_head _ _ _ _ _ _ _ Hqr).
        + split; [apply lookup_insert_eq|reflexivity]. }
    assert (∀ p', p' ∉ Bi → <[p := RecvItem base off]> (items (h_ctx h)) !! p' = items (h_ctx h) !! p') as Hits
      by (intros p' Hp'; apply lookup_insert_ne; congruence).
    pose proof (ctx_rep_upd _ _ _ i q2 _ _ _ Bi (a_cmds a ++ [proc_req (a_id a) i]) (tail (a_rands a))
      (u64 (a_recv a + 1)) (a_drop a) Hx HBi Hits Hq2') as Hx1.
    rewrite (alter_insert _ _ _ ms) by done. split; [cbn; lia|].
    exists (<[base := (c, n + 1)]> M), (Href base off (host m) false :: refs), c, (n + 1). cbn [fst snd]. rewrite lookup_insert_eq.
    split_and!; [done|done|done|done| |].
    + unfold add_cmds, set_cmds, set_ctx, set_rsvr, set_recvq, set_rands, set_items. cbn. rewrite list_insert_insert_eq.
      rewrite (cx_cmds _ _ _ Hx). rewrite <-(sv_id _ _ _ Hh) in Hx1 |- *. apply (Hupd _ _ _ _ _ _ _ _ Hx1).
      rewrite concat_insert_snoc by done. rewrite Hrefs. solve_Permutation.
    + rewrite <-(insert_insert_eq B base _ (c, off)). apply (minv_take Hinv); [by rewrite lookup_insert_eq|done|done|]. unfold host. rewrite length_app, put_head_length. lia.
Qed.

(** ** All the messages *)

Lemma wp_sys_mesg s h M refs base c n off m a (Q : Z → state → mem → Prop) :
  mrep s M → M !! base = Some (c, n) → 0 ≤ off →
  rd_bytes c off (Z.of_nat (length (host m))) = Some (host m) → head_ok (m_head m) →
  h_flag (m_head m) = RTMQ_SYS_MESG → mesg_pre m a →
  B !! base = None → minv (<[base := (c, off)]> B) M refs → srv_rep h refs a → fresh (mblk s) < ADDR_MAX →
  (∀ r y, (r =? 0) = (abs_mesg m a).2 →
     served B base c (off + Z.of_nat (length (host m))) (fresh (mblk s)) (abs_mesg m a).1 y → Q r y []) →
  wp (rtmq_rsvr_sys_mesg_proc base off) Q (s, h) [].
Proof.
  intros Hm Hb Hoff Hrd Hhd Hflag Hpre HB Hinv Hh Hf HQ. unfold mesg_pre in Hpre. unfold abs_mesg in HQ.
  rewrite Hflag, Z.eqb_refl in Hpre, HQ. destruct (rd_bytes_split _ _ _ Hrd) as (pre & post & Hcs & Hlp).
  unfold rtmq_rsvr_sys_mesg_proc. apply wp_bind, wp_on_refs.
  eapply (wp_rd_head _ M base pre (m_head m) (m_body m ++ post) n); [exact Hm| |exact Hlp|exact Hhd|].
  { rewrite Hb, Hcs. unfold host. by rewrite <-app_assoc. }
  assert (minv (<[base := (c, off + Z.of_nat (length (host m)))]> B) M refs) as Hinv'.
  { rewrite <-(insert_insert_eq B base _ (c, off)). eapply (minv_lim Hinv); [by rewrite lookup_insert_eq|lia]. }
  destruct (Z.eqb_spec (h_type (m_head m)) RTMQ_CMD_AUTH_REQ) as [Ht|Ht].
  - destruct Hpre as (?&?&?&?&?). by eapply wp_link_auth_req.
  - rewrite (proj2 (Z.eqb_neq _ _) Hpre). destruct (h_type (m_head m) =? RTMQ_CMD_KPALIVE_REQ).
    + eapply wp_keepalive; [exact Hm|exact Hb|exact HB|exact Hinv'|exact Hh|exact Hf|]. intros r y Hr Hy.
      unfold a_set_out in Hy. destruct (a_auth a) eqn:Ha; by apply HQ.
    + apply wp_ret, HQ; [done|]. eapply served_same; [exact Hm|exact Hb|exact HB|exact Hinv'|exact Hh|lia].
Qed.

Lemma served_law base c off m fr a h : 0 ≤ off → served B base c (off + Z.of_nat (length (host m))) fr a h →
  fresh (mblk (fst h)) ≤ fr + 1 ∧
  ∃ M' refs' c' n', mrep (fst h) M' ∧ M' !! base = Some (c', n') ∧ length c' = length c ∧
    drop (Z.to_nat off + length (host m)) c' = drop (Z.to_nat off + length (host m)) c ∧
    srv_rep (snd h) refs' a ∧ minv (<[base := (c', off + Z.of_nat (length (host m)))]> B) M' refs'.
Proof.
  intros Hoff (Hf & M' & refs' & c' & n' & H1' & H2 & H3 & H4 & H5 & H6). split; [done|].
  exists M', refs', c', n'. split_and!; [done|done|done| |done|done].
  replace (Z.to_nat off + length (host m))%nat with (Z.to_nat (off + Z.of_nat (length (host m)))) by lia. done.
Qed.

End Exp.

#[export] Program Instance rsvr_laws {T : Type → Type} `{TreeLaws T} : RecvLaws htree (hdl_st T) := {
  habs := arsvr; hpre := mesg_pre; hstep := abs_mesg; hrep := srv_rep;
}.
Next Obligation.
  intros T H0 H1 s h B M base c n off m refs a Hm Hb HB Hoff Hc Hrd Hok Hpre Hh Hinv Hf. pose proof (mo_head _ _ Hok) as Hhd.
  unfold mesg_proc. destruct (Z.eqb_spec RTMQ_SYS_MESG (h_flag (m_head m))) as [Hs|Hs].
  - eapply wp_sys_mesg; [done..|]. intros r y Hr Hy. split; [done|]. split; [done|]. by apply served_law.
  - unfold mesg_pre in Hpre. unfold abs_mesg. rewrite (proj2 (Z.eqb_neq _ _) (not_eq_sym Hs)) in *.
    destruct Hpre as [Hin Hrs]. apply wp_bind. eapply wp_exp_mesg; [done..|]. intros r y Hy. apply wp_ret.
    split; [done|]. split; [done|]. by apply served_law.
Qed.
