(* ===== verification/RtmqProps.v ===== *)
(** The receive path of the RTMQ server as a whole: the stream of a connection is
    delivered, message by message, to the receive queues. *)
From stdpp Require Import fin_maps gmap.
From S2P Require Import Prelude Heap Table HashTab AvlTrav Trees List2 Vector Ring Slot QueueSpec QueueProps Mref Bytes RtmqRecv RtmqMem RtmqRecvSpec RtmqComm RtmqCommSpec RtmqRsvr RtmqRsvrSpec RtmqExp.
Open Scope Z_scope.

Section Props.
Context {T : Type → Type} `{TreeLaws T}.
Abbreviation conn := (conn_st htree (hdl_st T)).

(** C35: whatever the pieces in which the socket gives the bytes of the messages
    [ms] and of a part of the next one, [rtmq_rsvr_recv_proc] works through [ms],
    once and in order, as the abstract server does: requests to authenticate are
    checked against the accounts and answered, the messages of the applications
    go into the receive queues, and the part of the next message is kept; the
    connection is closed at the first message that is refused. *)
Theorem recv_stream (B : bmap) (c : conn) (a : arsvr) r0 ms r :
  rinv B c a r0 → partial RTMQ_BUFF_SIZE r0 → iptr (crecv c) < RTMQ_BUFF_SIZE → Forall ev_ok (csock c) →
  r0 ++ (stream (csock c)).1.1 = wires ms ++ r → partial RTMQ_BUFF_SIZE r →
  Forall (mesg_ok RTMQ_BUFF_SIZE) ms → deliver_pre ms a →
  fresh (mblk (cmem c)) + Z.of_nat (length ms + length (stream (csock c)).1.1) < ADDR_MAX →
  wp rtmq_rsvr_recv_proc (λ ret c' ms', ms' = [] ∧
    ((deliver ms a).2 = true → csock c' = (stream (csock c)).2) ∧
    delivered B ms a r (stream (csock c)).1.2 ret c') c [].
Proof.
  intros Hc Hr0 Hroom Hev HD Hr Hms Hp Hf.
  eapply wp_mono; [exact (wp_recv_proc B c _ r0 ms r Hc Hr0 Hroom Hev HD Hr Hms Hp Hf)|]. by intros ret c' ms' (? & _ & ?).
Qed.

(** A new connection: an empty buffer. *)
Lemma conn_start (h : hdl_st T) (a : arsvr) evs : srv_rep h [] a →
  ∃ c : conn, rinv ∅ c a [] ∧ csock c = evs ∧ iptr (crecv c) = 0 ∧ fresh (mblk (cmem c)) = 2.
Proof.
  intros Hh. pose proof buff_size as Hb.
  assert (wp (mref_init (T := htree) empty_heap) (λ o _ _, ∃ s, o = Some s ∧ mrep s ∅ ∧ mblk s = empty_heap) tt []) as Hi.
  { apply wp_mref_init; [done|cbn; unfold ADDR_MAX; lia|]. intros s ??. by exists s. }
  apply wp_elim in Hi as (o & _ & _ & _ & s & -> & Hm & Hs).
  assert (wp rtmq_rsvr_alloc_recv_buff (λ _ c _, rinv ∅ c a [] ∧ csock c = evs ∧ iptr (crecv c) = 0 ∧ fresh (mblk (cmem c)) = 2)
    (ConnSt s (Snap 0 0 0 0 0) evs 0 h) []) as Hw.
  { apply (wp_alloc_recv_buff _ ∅); [done|cbn; rewrite Hs; cbn; unfold ADDR_MAX; lia|].
    intros p s' _ Hp Hm' Hf. split_and!; [|done|done|cbn in *; by rewrite Hf, Hs].
    remember (replicate (Z.to_nat RTMQ_BUFF_SIZE) 0) as z eqn:Hz.
    assert (Z.of_nat (length z) = RTMQ_BUFF_SIZE) as Hlz by (rewrite Hz, length_replicate; lia). clear Hz.
    exists (<[p := (z, 1)]> ∅), [], [], z, 1. cbn. rewrite lookup_insert_eq.
    split_and!; [exact Hm'|done|done|done|done|exact Hlz|done|by apply (minv_new_buf minv_empty)|exact Hh]. }
  apply wp_elim in Hw as (_ & c & _ & _ & Hc). by exists c.
Qed.

(** A connection whose buffer holds some bytes. *)
Lemma conn_holding (h : hdl_st T) (a : arsvr) bs : srv_rep h [] a → Z.of_nat (length bs) ≤ RTMQ_BUFF_SIZE →
  ∃ c : conn, rinv ∅ c a bs.
Proof.
  intros Hh Hbs. destruct (conn_start h a [] Hh) as (c & (M & refs & pre & post & n & Hm & Hb & Ho & Hi & He & Hl & HB & Hinv & Hr) & _ & Hi0 & _).
  cbn in *. assert (pre = []) as -> by (destruct pre; [done|simpl in *; lia]). cbn in *.
  set (post' := drop (length bs) post).
  assert (length (bs ++ post') = length post) as Hlp by (unfold post'; rewrite length_app, length_drop; lia).
  assert (wp (blk_set (base (crecv c)) (λ _, bs ++ post')) (λ _ s _, mrep s (<[base (crecv c) := (bs ++ post', n)]> M)) (cmem c) []) as Hw.
  { eapply wp_blk_set; [exact Hm|exact Hb|]. intros s' Hs' _. exact Hs'. }
  apply wp_elim in Hw as ([] & s' & _ & _ & Hs'). exists (set_crecv (add_iptr (Z.of_nat (length bs)) (crecv c)) (set_cmem s' c)).
  exists (<[base (crecv c) := (bs ++ post', n)]> M), refs, [], post', n. cbn. rewrite lookup_insert_eq.
  split_and!; [exact Hs'|done|exact Ho|lia|exact He|lia|done| |exact Hr].
  rewrite <-(insert_insert_eq ∅ (base (crecv c)) _ (post, optr (crecv c))).
  eapply (minv_content Hinv); [by rewrite lookup_insert_eq|exact Hb|]. intros o l Hol.
  apply (rd_bytes_stable [] _ _ (optr (crecv c))); [by symmetry|rewrite Ho; simpl; lia|exact Hol].
Qed.

(** C37: a header with another checksum than [RTMQ_CHKSUM_VAL], whoever sent it,
    fails the assertion of [rtmq_rsvr_data_proc] and ends the server: the check
    of [RTMQ_HEAD_ISVALID] after it, which would close the connection, is never
    reached. *)
Theorem bad_checksum_aborts (B : bmap) (c : conn) (a : arsvr) h rest :
  rinv B c a (put_head h ++ rest) → head_ok h → ntohl (h_chksum h) ≠ RTMQ_CHKSUM_VAL →
  rtmq_rsvr_data_proc c [] = Crash.
Proof.
  intros (M & refs & pre & post & n & Hm & Hb & Ho & Hi & He & Hl & _ & _ & _) Hh Hck. pose proof buff_size as Hbs.
  rewrite !length_app in *. rewrite put_head_length in *.
  assert (wp (on_mem (HS := hdl_st T) (rd_head (base (crecv c)) (optr (crecv c)))) (λ x c' ms', x = h ∧ ms' = []) c []) as Hrd.
  { apply wp_on_mem. rewrite <-app_assoc in Hb. eapply wp_rd_head; [exact Hm|exact Hb|exact Ho|exact Hh|done]. }
  apply wp_elim in Hrd as (x & c' & ms' & Hrd & -> & ->).
  assert (data_proc_step c [] = Crash) as Hstep.
  { unfold data_proc_step. rewrite (bind_ok (gets crecv) _ c [] (crecv c) c []) by done. cbv zeta.
    replace (iptr (crecv c) - optr (crecv c)) with (Z.of_nat (20 + length rest)) by lia. rewrite u32_small by lia.
    unfold mbind at 1, SM_bind at 1. rewrite (proj2 (Z.geb_le _ _)) by (unfold HEAD_SIZE; lia).
    rewrite (bind_ok _ _ _ _ _ _ _ Hrd), (proj2 (Z.eqb_neq _ _) (not_eq_sym Hck)). done. }
  unfold rtmq_rsvr_data_proc. rewrite (bind_ok (gets crecv) _ c [] (crecv c) c []) by done.
  cbn [Nat.add loop]. unfold mbind, SM_bind. by rewrite Hstep.
Qed.
End Props.

(** ** A connection *)

Definition acc1 : gmap (list Z) (list Z) := {[ [117] := [112] ]}.
Definition a0 : arsvr := ARsvr 9 0 false 0 0 acc1 ∅ [] [[4096; 4112]] [[]] 0 0 [] [5] [].
Definition hdl0 (t : comm_st atree) : hdl_st atree :=
  Hdl (Sck 0 0 0 0 empty_atree (MkList2 0 NULL empty_heap)) (Rsvr 0 0 0) (Cntx 9 [queue_example] ∅ [] t [5]).

Lemma tabs1 : ∃ t : comm_st atree, comm_rep t acc1 ∅.
Proof.
  assert (wp (rtmq_auth_add [117] [112]) (λ _ t _, comm_rep t acc1 ∅) comm0 []) as Hw.
  { eapply wp_rtmq_auth_add; [apply comm0_rep|by repeat constructor|by repeat constructor|]. intros t Ht. exact Ht. }
  apply wp_elim in Hw as (_ & t & _ & _ & Ht). by exists t.
Qed.

Lemma hdl0_rep t : comm_rep t acc1 ∅ → srv_rep (hdl0 t) [] a0.
Proof.
  intros Ht. constructor; try done; [apply avl_wf_creat|]. exists [], [[]]. split_and!; [|done|done|].
  - exists []. split; [|done]. constructor; [apply hp_empty|done|done].
  - constructor; try done.
    + intros [|i] q B ms rs; [|done]. cbn. intros [= <-] [= <-] [= <-] [= <-].
      exists [4096; 4112], []. split; [apply queue_example_rep|constructor].
    + cbn. repeat constructor; set_solver.
    + cbn. repeat constructor.
Qed.

(** A request to authenticate, and a message of an application. *)
Definition mesg1 : mesg :=
  Mesg (Head RTMQ_CMD_AUTH_REQ 7 RTMQ_SYS_MESG 52 RTMQ_CHKSUM_VAL)
    (store32 (htonl 3) ++ [117] ++ replicate 31 0 ++ [112] ++ replicate 15 0).
Definition mesg2 : mesg := Mesg (Head 0x0101 7 RTMQ_EXP_MESG 3 RTMQ_CHKSUM_VAL) [1; 2; 3].
Definition bytes12 : list Z := wires [mesg1; mesg2].
Definition events12 : list rd_ev :=
  [RdData (take 10 bytes12); RdErr EINTR; RdData (take 65 (drop 10 bytes12)); RdData (drop 75 bytes12); RdErr EAGAIN].
Definition a2 : arsvr :=
  ARsvr 9 0 true 7 3 acc1 {[ 7 := [0] ]} [auth_ack a0 true] [[4096; 4112]] [[mesg2]] 1 0 [proc_req 0 0] [] [].

Lemma mesg12_ok : Forall (mesg_ok RTMQ_BUFF_SIZE) [mesg1; mesg2].
Proof.
  pose proof buff_size. assert (1024 ≤ RTMQ_BUFF_SIZE) by (by vm_compute).
  repeat constructor; try done; cbn; unfold HEAD_SIZE; lia.
Qed.

Lemma pre12 : deliver_pre (HS := hdl_st atree) [mesg1; mesg2] a0.
Proof.
  assert (mesg_pre mesg1 a0) as H1.
  { change ((52 ≤ length (m_body mesg1))%nat ∧ Forall is_byte (m_body mesg1) ∧ is_Some (auth_usr (m_body mesg1)) ∧
      is_Some (auth_passwd (m_body mesg1)) ∧ is_int 7).
    split_and!; [by vm_compute|by repeat constructor|by eexists|by eexists|done]. }
  assert (a_in (abs_mesg mesg1 a0).1 = [[]]) as H2 by (vm_compute; reflexivity).
  assert (a_rands (abs_mesg mesg1 a0).1 = [5]) as H3 by (vm_compute; reflexivity).
  split; [exact H1|]. intros _. split; [|done]. change (mesg_pre mesg2 (abs_mesg mesg1 a0).1).
  unfold mesg_pre. change (h_flag (m_head mesg2) =? RTMQ_SYS_MESG) with false. cbn iota. rewrite H2, H3.
  split; [done|by repeat constructor].
Qed.

Abbreviation rconn := (conn_st htree (hdl_st atree)).

Lemma start12 : ∃ c : rconn, rinv ∅ c a0 [] ∧ csock c = events12 ∧ iptr (crecv c) = 0 ∧ fresh (mblk (cmem c)) = 2.
Proof. destruct tabs1 as [t Ht]. apply (conn_start (hdl0 t) a0 events12 (hdl0_rep t Ht)). Qed.

Lemma stream12 : stream events12 = (bytes12, RTMQ_OK, []).
Proof. by vm_compute. Qed.

Lemma deliver12 : deliver (HS := hdl_st atree) [mesg1; mesg2] a0 = (a2, true).
Proof. by vm_compute. Qed.

Lemma partial_none : partial RTMQ_BUFF_SIZE [].
Proof. pose proof buff_size. apply partial_nil. unfold HEAD_SIZE. lia. Qed.

Lemma events12_ok : Forall ev_ok events12.
Proof. unfold events12. repeat constructor; discriminate. Qed.

(** The state the two messages lead to. *)
Lemma recv12 : ∃ c : rconn, rinv ∅ c a2 [].
Proof.
  destruct start12 as (c & Hc & Hs & Hi & Hf). pose proof buff_size as Hb.
  assert (wp rtmq_rsvr_recv_proc (λ _ c _, rinv ∅ c a2 []) c []) as Hw.
  { eapply wp_mono; [eapply (wp_recv_proc ∅ c _ [] [mesg1; mesg2] [] Hc partial_none)|]; rewrite ?Hs, ?stream12.
    - lia.
    - apply events12_ok.
    - by rewrite app_nil_r.
    - apply partial_none.
    - apply mesg12_ok.
    - apply pre12.
    - rewrite Hf. by vm_compute.
    - intros ret c' ms' (_ & _ & _ & Hd). unfold delivered in Hd. rewrite deliver12 in Hd. apply Hd. }
  apply wp_elim in Hw as (_ & c' & _ & _ & Hc'). by exists c'.
Qed.

Lemma recv_stream_witness :
  ∃ c : rconn, csock c = events12 ∧
    wp rtmq_rsvr_recv_proc (λ ret c' ms', ms' = [] ∧ ret = RTMQ_OK ∧ csock c' = [] ∧ rinv ∅ c' a2 []) c [].
Proof.
  destruct start12 as (c & Hc & Hs & Hi & Hf). exists c. split; [exact Hs|]. pose proof buff_size as Hb.
  pose proof (recv_stream ∅ c a0 [] [mesg1; mesg2] [] Hc partial_none) as Hw. rewrite Hs, stream12 in Hw.
  unfold delivered in Hw. rewrite deliver12 in Hw. cbn [fst snd] in Hw.
  eapply wp_mono; [apply Hw|]; clear Hw.
  - lia.
  - apply events12_ok.
  - by rewrite app_nil_r.
  - apply partial_none.
  - apply mesg12_ok.
  - apply pre12.
  - rewrite Hf. by vm_compute.
  - intros ret c' ms' (? & Hsock & -> & ? & ?). auto.
Defined.

Lemma bad_checksum_aborts_witness :
  ∃ c : conn_st htree (hdl_st atree), rinv ∅ c a0 (put_head (Head 0 0 0 0 0) ++ [])  ∧ rtmq_rsvr_data_proc c [] = Crash.
Proof.
  destruct tabs1 as [t Ht]. pose proof buff_size.
  destruct (conn_holding (hdl0 t) a0 (put_head (Head 0 0 0 0 0) ++ []) (hdl0_rep t Ht)) as [c Hc]; [cbn; lia|].
  exists c. split; [exact Hc|]. eapply bad_checksum_aborts; [exact Hc|repeat split; done|done].
Defined.
