(* ===== verification/RtmqWork.v ===== *)
(** The worker threads ([lib/rtmq/server/rtmq_worker.c]): a worker hands the
    messages of its receive queue to the handlers registered for their types, in
    order, and gives back what they hold. *)
From stdpp Require Import fin_maps gmap.
From S2P Require Import Prelude Heap Table HashTab TreeRel Trees List2 Ring Slot QueueSpec QueueProps Mref Bytes RtmqRecv RtmqMem RtmqRecvSpec RtmqComm RtmqCommSpec RtmqRsvr RtmqRsvrSpec RtmqExp RtmqProps.
Open Scope Z_scope.

Lemma Forall3_take {A B C} (P : A → B → C → Prop) k : ∀ l1 l2 l3, Forall3 P l1 l2 l3 → Forall3 P (take k l1) (take k l2) (take k l3).
Proof. induction k; intros l1 l2 l3 []; simpl; constructor; auto. Qed.
Lemma Forall3_drop {A B C} (P : A → B → C → Prop) k : ∀ l1 l2 l3, Forall3 P l1 l2 l3 → Forall3 P (drop k l1) (drop k l2) (drop k l3).
Proof. induction k; intros l1 l2 l3 Hl; [done|]. destruct Hl; simpl; [constructor|auto]. Qed.

(** ** Registered handlers *)

Definition reg_dom {U} (r : rtmq_reg_t U) : Prop := is_int (rg_type r).

#[export] Instance reg_ok {U} : TreeOk (rg_type (U := U)) reg_dom rtmq_reg_cmp_cb.
Proof.
  apply cmp_law_diff. unfold reg_dom, is_int. intros x y Hx Hy. unfold rtmq_reg_cmp_cb. apply i32_small. lia.
Qed.

(** A worker as its clients see it: its counters and the state of the
    application. *)
Record awork (U : Type) := AWork { aw_proc : Z; aw_drop : Z; aw_err : Z; aw_app : U }.
Arguments AWork {_} _ _ _ _.
Arguments aw_proc {_} _.
Arguments aw_drop {_} _.
Arguments aw_err {_} _.
Arguments aw_app {_} _.

Section Work.
Context {U : Type}.

(** The handler of a type, or that of type 0. *)
Definition handler_of (G : gmap Z (rtmq_reg_t U)) (type : Z) : option (rtmq_reg_t U) :=
  match G !! type with Some reg => Some reg | None => G !! 0 end.

Definition serve (G : gmap Z (rtmq_reg_t U)) (m : mesg) : SM (awork U) unit :=
  match handler_of G (h_type (m_head m)) with
  | None => modify (λ a, AWork (aw_proc a) (u64 (aw_drop a + 1)) (aw_err a) (aw_app a))
  | Some reg =>
      ret ← zoom aw_app (λ u a, AWork (aw_proc a) (aw_drop a) (aw_err a) u)
              (rg_proc reg (h_type (m_head m)) (i32 (h_nid (m_head m))) (m_body m) (h_length (m_head m)));
      if negb (ret =? 0) then modify (λ a, AWork (aw_proc a) (aw_drop a) (u64 (aw_err a + 1)) (aw_app a))
      else modify (λ a, AWork (u64 (aw_proc a + 1)) (aw_drop a) (aw_err a) (aw_app a))
  end.

Record served_ok (m : mesg) : Prop := {
  so_head : head_ok (m_head m);
  so_length : h_length (m_head m) = Z.of_nat (length (m_body m));
  so_type : is_int (h_type (m_head m));
}.

Context {T : Type → Type} `{TreeLaws T}.
Abbreviation state := (mref_st htree * worker_st T U)%type.
Abbreviation gst := (rtmq_cntx_t T).

Definition aw (w : worker_st T U) : awork U := AWork (wk_proc w) (wk_drop w) (wk_err w) (wk_app w).

(** In the middle of the work on the queue [i]: its blocks [F] are free, [Qs]
    queued with the messages [ms'], and [P] taken, with the messages [ms]. *)
Definition winv (G : gmap Z (rtmq_reg_t U)) (x : gst) (i : nat) (Bi : list ptr) (B : bmap) (fr : list href) (fz : Z)
    (F Qs P : list ptr) (ms ms' : list mesg) (rs rs' : list href) (st : state) : Prop :=
  ∃ M q, mrep st.1 M ∧ minv B M (rs ++ rs' ++ fr) ∧ queue_rep RECV_ITEM_SIZE Bi q (AQueue F Qs P) ∧
    Forall3 (item_rel (items x)) P ms rs ∧ Forall3 (item_rel (items x)) Qs ms' rs' ∧
    wk_ctx st.2 = set_recvq (<[i := q]> (recvq x)) x ∧ tmap rg_type reg_dom rtmq_reg_cmp_cb (wk_reg st.2) G ∧
    fresh (mblk st.1) = fz.

Lemma wp_on_wk {A} (m : SM (worker_st T U) A) (Q : A → state → mem → Prop) s w os :
  wp m (λ a w' os', Q a (s, w') os') w os → wp (on_wk m) Q (s, w) os.
Proof. intros Hm. unfold on_wk, on_snd. by apply wp_zoom. Qed.
Lemma wp_on_mref {A} (m : SM (mref_st htree) A) (Q : A → state → mem → Prop) s w os :
  wp m (λ a s' os', Q a (s', w) os') s os → wp (on_fst m) Q (s, w) os.
Proof. intros Hm. unfold on_fst. by apply wp_zoom. Qed.

(** The handler of a message. *)
Lemma wp_lookup_reg w G type (Q : option (rtmq_reg_t U) → state → mem → Prop) s os :
  tmap rg_type reg_dom rtmq_reg_cmp_cb (wk_reg w) G → is_int type →
  Q (handler_of G type) (s, w) os →
  wp (reg ← on_wk (on_reg (tr_query rtmq_reg_cmp_cb (reg_key (i32 type))));
      match reg with
      | Some reg => mret (Some reg)
      | None => on_wk (on_reg (tr_query rtmq_reg_cmp_cb (reg_key 0)))
      end) Q (s, w) os.
Proof.
  intros Ht Hty HQ. unfold is_int in Hty. rewrite i32_small by lia. unfold handler_of in HQ.
  assert (∀ r, wk_reg w = r → set_wk_reg r w = w) as Hw by (by intros ? <-; destruct w).
  apply wp_bind, wp_on_wk. unfold on_reg. apply wp_zoom.
  apply (wp_tquery (key := rg_type) (dm := reg_dom) Ht); [done|]. rewrite (Hw _ eq_refl).
  change (rg_type (reg_key type)) with type. destruct (G !! type) as [reg|]; [by apply wp_ret|].
  apply wp_on_wk, wp_zoom. apply (wp_tquery (key := rg_type) (dm := reg_dom) Ht); [done|].
  rewrite (Hw _ eq_refl). exact HQ.
Qed.

Section Item.
Context {G : gmap Z (rtmq_reg_t U)} {x : gst} {i : nat} {Bi : list ptr} {B : bmap} {fr : list href} {fz : Z}.
Hypothesis Hi : (i < length (recvq x))%nat.
Abbreviation inv := (winv G x i Bi B fr fz).

(** The message is done: its reference and its block are given back. *)
Lemma wp_item_release F Qs p P m ms ms' r rs rs' s w os (Q : unit → state → mem → Prop) :
  inv F Qs (p :: P) (m :: ms) ms' (r :: rs) rs' (s, w) →
  (∀ s' w', aw w' = aw w → inv (F ++ [p]) Qs P ms ms' rs rs' (s', w') → Q tt (s', w') os) →
  wp (on_fst (mref_dec (r_blk r));; on_wk_ctx (on_recvq (Z.of_nat i) (queue_dealloc p))) Q (s, w) os.
Proof.
  intros (M & q & Hm & Hinv & Hq & Hall & Hall' & Hx & Ht & Hfz) HQ. cbn [fst snd] in *.
  pose proof (mi_img _ _ _ Hinv) as Him. cbn in Him. apply Forall_cons in Him as [(c & n & Hr & _ & _) _].
  apply wp_bind, wp_on_mref. eapply wp_mref_dec; [exact Hm|exact Hr|]. intros s' Hm' Hf'.
  unfold on_wk_ctx. apply wp_on_wk, wp_zoom. rewrite Hx. apply (wp_on_recvq i q); [cbn; by apply list_lookup_insert_eq|].
  eapply wp_queue_dealloc; [exact Hq|cbn; by left|]. intros q' Hq'.
  change (queue_rep RECV_ITEM_SIZE Bi q' (AQueue (F ++ [p]) Qs (drop_block p (p :: P)))) in Hq'.
  apply HQ; [done|]. exists (given_back (M := M) (r_blk r) c n), q'. split_and!; [exact Hm'|by apply (minv_drop B M r)| | |exact Hall'| |exact Ht|by rewrite <-Hfz, <-Hf'].
  - pose proof (queue_rep_held _ _ Hq) as Hnd. cbn in Hnd. apply NoDup_cons in Hnd as [Hp _].
    unfold drop_block in Hq'. rewrite filter_cons_False in Hq' by naive_solver.
    fold (drop_block p P) in Hq'. by rewrite drop_block_notin in Hq'.
  - by inversion Hall.
  - cbn. unfold set_recvq. cbn. by rewrite list_insert_insert_eq.
Qed.

Lemma wp_worker_item F Qs p P m ms ms' r rs rs' s w os (R : unit → awork U → mem → Prop) :
  served_ok m → inv F Qs (p :: P) (m :: ms) ms' (r :: rs) rs' (s, w) → wp (serve G m) R (aw w) os →
  wp (worker_item (Z.of_nat i) p) (λ _ st os', R tt (aw st.2) os' ∧ inv (F ++ [p]) Qs P ms ms' rs rs' st) (s, w) os.
Proof.
  intros [Hhd Hlen Hty] Hinv HR.
  pose proof Hinv as (M & q & Hm & Hmi & Hq & Hall & Hall' & Hx & Ht & Hfz). cbn [fst snd] in *.
  pose proof (mi_img _ _ _ Hmi) as Him. cbn in Him. apply Forall_cons in Him as [(c & n & Hr & Hrd & _) _].
  assert (item_rel (items x) p m r) as [Hit Himg] by (by inversion Hall). rewrite Himg in Hrd.
  destruct (rd_bytes_split _ _ _ Hrd) as (pre & post & Hc & Hoff).
  unfold worker_item. apply wp_bind, wp_on_wk. unfold get, wp at 1. rewrite Hx. cbn [items set_recvq]. rewrite Hit.
  cbn [deref]. apply wp_bind, wp_ret. apply wp_bind, wp_on_mref.
  eapply (wp_rd_head _ M (r_blk r) pre (m_head m) (m_body m ++ post) n); [exact Hm| |exact Hoff|exact Hhd|].
  { rewrite Hr, Hc. unfold host. by rewrite <-app_assoc. }
  set (rest := on_fst (mref_dec (r_blk r));; on_wk_ctx (on_recvq (Z.of_nat i) (queue_dealloc p)) : SM state unit).
  assert (∀ w' os', wk_ctx w' = wk_ctx w → wk_reg w' = wk_reg w → R tt (aw w') os' →
    wp rest (λ _ st os', R tt (aw st.2) os' ∧ inv (F ++ [p]) Qs P ms ms' rs rs' st) (s, w') os') as Hrest.
  { intros w' os' Hx' Ht' HR'. eapply (wp_item_release F Qs p P m ms ms' r rs rs').
    - exists M, q. cbn. rewrite Hx', Ht'. by split_and!.
    - intros s' w2 Haw Hinv'. cbn. by rewrite Haw. }
  unfold serve in HR.
  set (reg_of := reg ← on_wk (on_reg (tr_query rtmq_reg_cmp_cb (reg_key (i32 (h_type (m_head m))))));
    match reg with Some reg => mret (Some reg) | None => on_wk (on_reg (tr_query rtmq_reg_cmp_cb (reg_key 0))) end : SM state (option (rtmq_reg_t U))).
  assert (∀ (f : option (rtmq_reg_t U) → SM state unit) Q, wp (f (handler_of G (h_type (m_head m)))) Q (s, w) os →
    wp (reg_of ≫= f) Q (s, w) os) as Hreg.
  { intros f Q Hf. apply wp_bind. by eapply wp_lookup_reg. }
  apply wp_bind_assoc, Hreg. clear Hreg.
  destruct (handler_of G (h_type (m_head m))) as [reg|].
  - apply wp_bind, wp_bind, wp_on_mref.
    assert (rd_bytes c (r_off r + HEAD_SIZE) (h_length (m_head m)) = Some (m_body m)) as Hbody.
    { rewrite Hlen, Hoff, Hc. unfold host. rewrite <-app_assoc, (app_assoc pre).
      replace (Z.of_nat (length pre) + HEAD_SIZE) with (Z.of_nat (length (pre ++ put_head (m_head m)))); [apply rd_bytes_app|].
      rewrite length_app, put_head_length. unfold HEAD_SIZE. lia. }
    eapply wp_blk_rd; [exact Hm|exact Hr|exact Hbody|]. apply wp_bind, wp_on_wk, wp_zoom.
    apply wp_bind_inv, wp_zoom_inv in HR. unfold is_int in Hty. rewrite (i32_small (h_type _)) by lia.
    eapply wp_mono; [exact HR|]. intros ret u os'. cbn beta. destruct (negb (ret =? 0)); intros HR'; apply wp_on_wk;
      (unfold modify, wp at 1; apply Hrest; [done|done|exact HR']).
  - apply wp_bind. unfold incr_drop. apply wp_on_wk. unfold modify, wp at 1. apply Hrest; [done|done|exact HR].
Qed.

Lemma wp_worker_items Qs ms' rs' : ∀ P F ms rs s w os (R : unit → awork U → mem → Prop),
  Forall served_ok ms → inv F Qs P ms ms' rs rs' (s, w) → wp (for_each (serve G) ms) R (aw w) os →
  wp (for_each (worker_item (Z.of_nat i)) P) (λ _ st os', R tt (aw st.2) os' ∧ inv (F ++ P) Qs [] [] ms' [] rs' st) (s, w) os.
Proof.
  induction P as [|p P IH]; intros F ms rs s w os R Hok Hinv HR.
  - assert (ms = [] ∧ rs = []) as [-> ->] by (destruct Hinv as (? & ? & _ & _ & _ & Hall & _); by inversion Hall).
    apply wp_ret. split; [exact HR|]. by rewrite app_nil_r.
  - assert (∃ m ms1 r rs1, ms = m :: ms1 ∧ rs = r :: rs1) as (m & ms1 & r & rs1 & -> & ->).
    { destruct Hinv as (? & ? & _ & _ & _ & Hall & _). inversion Hall; subst. by eexists _, _, _, _. }
    apply Forall_cons in Hok as [Hm Hok]. cbn [for_each] in *. apply wp_bind_inv in HR. apply wp_bind.
    eapply wp_mono; [by eapply wp_worker_item|]. intros [] [s' w'] os' [HR' Hinv'].
    replace (F ++ p :: P) with ((F ++ [p]) ++ P) by (by rewrite <-app_assoc). by apply (IH _ ms1 rs1).
Qed.

(** A run over the queue. *)
Lemma wp_worker_loop n : ∀ F Qs ms rs s w os (R : unit → awork U → mem → Prop),
  (length Qs < n)%nat → Forall served_ok ms → inv F Qs [] [] ms [] rs (s, w) →
  wp (for_each (serve G) ms) R (aw w) os →
  wp (loop n (λ _ : unit, worker_step (Z.of_nat i)) tt)
    (λ ret st os', ret = RTMQ_OK ∧ R tt (aw st.2) os' ∧ inv (F ++ Qs) [] [] [] [] [] [] st) (s, w) os.
Proof.
  induction n as [|n IH]; intros F Qs ms rs s w os R Hn Hok Hinv HR; [lia|].
  pose proof Hinv as (M & q & Hm & Hmi & Hq & _ & Hall & Hx & Ht & Hfz). cbn [fst snd] in *.
  apply wp_loop_step. unfold worker_step at 1. apply wp_bind, wp_on_wk. unfold get, wp at 1.
  rewrite (proj2 (Z.ltb_ge _ _)) by lia. rewrite Hx, Nat2Z.id.
  cbn [recvq set_recvq]. rewrite list_lookup_insert_eq by done. cbn [deref]. apply wp_bind, wp_ret.
  rewrite (queue_rep_used _ _ Hq). cbn [aqueued]. cbv zeta.
  destruct (Z.eqb_spec 0 (Z.min (Z.of_nat (length Qs)) RTRD_WORK_POP_NUM)) as [H0'|H0'].
  { assert (Qs = []) as -> by (destruct Qs; [done|unfold RTRD_WORK_POP_NUM in H0'; simpl in H0'; lia]).
    assert (ms = [] ∧ rs = []) as [-> ->] by (by inversion Hall). apply wp_ret. split; [done|]. split; [exact HR|].
    by rewrite app_nil_r. }
  set (k := Z.to_nat (Z.min (Z.of_nat (length Qs)) RTRD_WORK_POP_NUM)).
  assert ((0 < k ≤ length Qs)%nat ∧ Z.of_nat k < 2 ^ 32) as [Hk Hk'] by (unfold k, RTRD_WORK_POP_NUM in *; lia).
  clearbody k.
  apply wp_bind. unfold on_wk_ctx. apply wp_on_wk, wp_zoom. rewrite Hx.
  apply (wp_on_recvq i q); [cbn; by apply list_lookup_insert_eq|].
  eapply wp_queue_mpop; [exact Hq|cbn; lia|exact Hk'|]. cbn [afree aqueued aheld]. intros q' Hq'.
  rewrite <-(take_drop k ms) in HR. apply wp_for_each_app_inv in HR. apply wp_bind.
  assert (inv F (drop k Qs) (take k Qs) (take k ms) (drop k ms) (take k rs) (drop k rs)
    (s, set_wk_ctx (set_recvq (<[i := q']> (<[i := q]> (recvq x))) (set_recvq (<[i := q]> (recvq x)) x)) w)) as Hinv1.
  { exists M, q'. cbn [fst snd]. split_and!; [exact Hm| | |by apply Forall3_take|by apply Forall3_drop| |exact Ht|exact Hfz].
    - by rewrite app_assoc, take_drop.
    - by rewrite app_nil_r in Hq'.
    - cbn. unfold set_recvq. cbn. by rewrite list_insert_insert_eq. }
  eapply wp_mono; [eapply wp_worker_items; [by apply Forall_take|exact Hinv1|exact HR]|].
  intros [] [s1 w1] os1 [HR1 Hinv2]. apply wp_ret.
  eapply wp_mono; [eapply IH; [|by apply Forall_drop|exact Hinv2|exact HR1]; rewrite length_drop; lia|].
  intros ret st os' (-> & HR2 & Hinv3). rewrite <-app_assoc, take_drop in Hinv3. done.
Qed.
End Item.

Lemma concat_insert_nil {A} (ls : list (list A)) i l : ls !! i = Some l → concat ls ≡ₚ l ++ concat (<[i := []]> ls).
Proof.
  revert i. induction ls as [|y ls IH]; intros [|i]; cbn; try done.
  - by intros [= ->].
  - intros Hl. change (insert i [] ls) with (<[i := []]> ls). rewrite (IH i) by done. solve_Permutation.
Qed.

(** Registration: a type has one handler, the first. *)
Lemma wp_rtmq_register type proc w G (Q : Z → worker_st T U → mem → Prop) :
  tmap rg_type reg_dom rtmq_reg_cmp_cb (wk_reg w) G → is_int type →
  (∀ r t, r = match G !! type with Some _ => RTMQ_ERR_REPEAT_REG | None => RTMQ_OK end →
     tmap rg_type reg_dom rtmq_reg_cmp_cb t (match G !! type with Some _ => G | None => <[type := Reg type proc]> G end) →
     Q r (set_wk_reg t w) []) →
  wp (rtmq_register type proc) Q w [].
Proof.
  intros Ht Hty HQ. unfold rtmq_register. apply wp_bind, wp_malloc_nil. cbn [negb]. apply wp_bind. unfold on_reg. apply wp_zoom.
  eapply wp_mono; [apply (wp_tinsert (key := rg_type) (dm := reg_dom) (d := Reg type proc) Ht Hty)|].
  cbn [rg_type]. intros r t os. destruct (G !! type); cbn.
  - intros (-> & -> & ->). apply wp_ret. by apply HQ.
  - intros (-> & -> & Ht'). apply wp_ret. by apply HQ.
Qed.

(** A worker and its queue. *)
Lemma wp_worker_hdl s w B M fr rss a i ms G os (R : unit → awork U → mem → Prop) :
  mrep s M → minv B M (concat rss ++ fr) → ctx_rep (wk_ctx w) rss a → a_in a !! i = Some ms →
  tmap rg_type reg_dom rtmq_reg_cmp_cb (wk_reg w) G → Forall served_ok ms →
  wp (for_each (serve G) ms) R (aw w) os →
  wp (rtmq_worker_cmd_proc_req_hdl (Z.of_nat i)) (λ ret st os', ret = RTMQ_OK ∧ R tt (aw st.2) os' ∧
    (∃ M', mrep st.1 M' ∧ minv B M' (concat (<[i := []]> rss) ++ fr) ∧
      ctx_rep (wk_ctx st.2) (<[i := []]> rss) (a_set_in (<[i := []]> (a_in a)) (a_recv a) (a_drop a) (a_cmds a) (a_rands a) a)) ∧
    tmap rg_type reg_dom rtmq_reg_cmp_cb (wk_reg st.2) G ∧ fresh (mblk st.1) = fresh (mblk s))
    (s, w) os.
Proof.
  intros Hm Hmi Hx Hms Ht Hok HR. destruct (cx_len _ _ _ Hx) as (Hl1 & Hl2 & Hl3). pose proof (lookup_lt_Some _ _ _ Hms) as Hi.
  destruct (lookup_lt_is_Some_2 (recvq (wk_ctx w)) i) as [q Hq]; [lia|].
  destruct (lookup_lt_is_Some_2 (a_blocks a) i) as [Bi HB]; [lia|].
  destruct (lookup_lt_is_Some_2 rss i) as [rs Hrs]; [lia|].
  destruct (inq_rel_free _ _ _ _ _ (cx_inq _ _ _ Hx i q Bi ms rs Hq HB Hms Hrs)) as (F & Qs & Hqr & Hall & _).
  assert (winv G (wk_ctx w) i Bi B (concat (<[i := []]> rss) ++ fr) (fresh (mblk s)) F Qs [] [] ms [] rs (s, w)) as Hw.
  { exists M, q. cbn [fst snd]. split_and!; [exact Hm| |exact Hqr|constructor|exact Hall| |exact Ht|done].
    - cbn. eapply minv_perm; [|exact Hmi]. rewrite (concat_insert_nil _ _ _ Hrs). by rewrite <-app_assoc.
    - rewrite list_insert_id by done. by destruct (wk_ctx w). }
  unfold rtmq_worker_cmd_proc_req_hdl. apply wp_bind, wp_on_wk. unfold get, wp at 1.
  rewrite (proj2 (Z.ltb_ge _ _)) by lia. rewrite Nat2Z.id, Hq. cbn [deref]. apply wp_bind, wp_ret.
  rewrite (queue_rep_used _ _ Hqr). eapply wp_mono; [eapply (wp_worker_loop (x := wk_ctx w) (i := i)); [lia| |exact Hok|exact Hw|exact HR]; cbn; lia|].
  intros ret st os' (-> & HR' & M' & q' & Hm' & Hmi' & Hq' & _ & _ & Hx' & Ht' & Hf'). split; [done|]. split; [exact HR'|]. split; [|done].
  exists M'. split; [exact Hm'|]. split; [exact Hmi'|]. rewrite Hx'.
  pose proof (ctx_rep_upd _ _ _ i q' (items (wk_ctx w)) [] [] Bi (cmds (wk_ctx w)) (rands (wk_ctx w)) (a_recv a) (a_drop a) Hx HB (λ _ _, eq_refl)) as Hc.
  unfold set_recvq. rewrite (cx_cmds _ _ _ Hx), (cx_rands _ _ _ Hx) in Hc |- *. apply Hc. exists (F ++ Qs), []. split; [exact Hq'|constructor].
Qed.

(** A worker that finds the messages [ms] in its receive queue calls the
    handlers of their types (or that of type 0), in the order of the queue and
    each with the body of its message, counts what they return, and leaves the
    queue empty, every block free again and every reference given back: the
    memory of the messages is released exactly when nobody else refers to it. *)
Theorem worker_serves_queue s w B M fr rss a i ms G os (R : unit → awork U → mem → Prop) :
  mrep s M → minv B M (concat rss ++ fr) → ctx_rep (wk_ctx w) rss a → a_in a !! i = Some ms →
  tmap rg_type reg_dom rtmq_reg_cmp_cb (wk_reg w) G → Forall served_ok ms →
  wp (for_each (serve G) ms) R (aw w) os →
  wp (rtmq_worker_cmd_proc_req_hdl (Z.of_nat i)) (λ ret st os', ret = RTMQ_OK ∧ R tt (aw st.2) os' ∧
    ∃ M', mrep st.1 M' ∧ minv B M' (concat (<[i := []]> rss) ++ fr) ∧
      ctx_rep (wk_ctx st.2) (<[i := []]> rss) (a_set_in (<[i := []]> (a_in a)) (a_recv a) (a_drop a) (a_cmds a) (a_rands a) a))
    (s, w) os.
Proof.
  intros Hm Hmi Hx Hms Ht Hok HR. eapply wp_mono; [by eapply wp_worker_hdl|]. intros ret st os' (-> & HR' & HM & _). done.
Qed.
End Work.

(** The worker of the queue into which the message of [RtmqProps] went; its
    handlers keep the bodies they get. *)
Definition keep_body : rtmq_reg_t (list (list Z)) :=
  Reg 0x0101 (λ _ _ body _, modify (λ l, l ++ [body]);; mret 0).

Lemma worker_serves_queue_witness :
  ∃ st : mref_st htree * worker_st atree (list (list Z)),
    wp (rtmq_worker_cmd_proc_req_hdl 0) (λ ret st' os', ret = RTMQ_OK ∧ aw st'.2 = AWork 1 0 0 [[1; 2; 3]] ∧ os' = []) st [].
Proof.
  destruct recv12 as (c & M & refs & pre & post & n & Hm & _ & _ & _ & _ & _ & _ & Hmi & Hh).
  destruct (sv_refs _ _ _ Hh) as (ps & rss & _ & _ & Hrefs & Hx). cbn in Hrefs.
  assert (wp (rtmq_register (rg_type keep_body) (rg_proc keep_body))
    (λ _ w _, tmap rg_type reg_dom rtmq_reg_cmp_cb (wk_reg w) {[ 0x0101 := keep_body ]} ∧ wk_ctx w = h_ctx (chdl c) ∧ aw w = AWork 0 0 0 [])
    (Worker 0 0 0 empty_atree (h_ctx (chdl c)) []) []) as Hw.
  { apply (wp_rtmq_register _ _ _ ∅); [apply tmap_empty|done|]. intros r t _ Ht. split; [exact Ht|done]. }
  apply wp_elim in Hw as (_ & w & _ & _ & Ht & Hwx & Haw). exists (cmem c, w).
  assert (minv (<[RtmqRecv.base (crecv c) := (pre ++ [] ++ post, optr (crecv c))]> ∅) M (concat rss ++ out_refs ps (a_out a2))) as Hmi'.
  { eapply minv_perm; [|exact Hmi]. rewrite Hrefs. apply Permutation_app_comm. }
  eapply wp_mono; [eapply (worker_serves_queue (cmem c) w _ M _ rss a2 0 [mesg2] _ []
    (λ _ a os, a = AWork 1 0 0 [[1; 2; 3]] ∧ os = []) Hm Hmi'); [by rewrite Hwx|done|exact Ht| |]|].
  - repeat constructor; done.
  - rewrite Haw. by vm_compute.
  - intros ret st' os' (? & [??] & _). auto.
Defined.
