(* ===== verification/RtmqConn.v ===== *)
(** The receive threads of the RTMQ server ([lib/rtmq/server/rtmq_rsvr.c]): the
    list of the connections of a thread, how they come and go, and a turn of the
    loop of the thread, over what [select] reports.  The work on one connection is
    that of [RtmqRecv], [RtmqRsvr] and [RtmqSend]. *)
From stdpp Require Import gmap.
From S2P Require Import Prelude Heap Table HashTab List List2 Iovec Ring Slot Mref Bytes Trees RtmqRecv RtmqComm RtmqRsvr RtmqSend.
Open Scope Z_scope.

Definition RTMQ_CMD_ADD_SCK : Z := 0x0009.
Definition RTMQ_CMD_DIST_REQ : Z := 0x000A.
Definition RTMQ_ERR_RECV_CMD : Z := RTMQ_ERR + 6.
Definition RTMQ_ERR_UNKNOWN_CMD : Z := RTMQ_ERR + 9.
Definition RTMQ_CONNQ_LEN : Z := 8192.
Definition RTRD_POP_MAX_NUM : Z := 1024.
Definition FD_SETSIZE : Z := 1024.

(** ** Data *)

(** A connection that has been accepted: its descriptor, its number, and what its
    socket will give and take. *)
Record rtmq_conn_item_t := ConnItem { ci_fd : Z; ci_sid : Z; ci_evs : list rd_ev; ci_wr : list wr_ev }.

(** [rtmq_sck_t] in full; [None] is a pointer that is not set.  The last three
    fields are its socket: what reads give, what writes take, and the bytes that
    were taken. *)
Record sck_t (T : Type → Type) := SckT {
  k_fd : Z; k_rdtm : Z; k_wrtm : Z;
  k_nid : Z; k_gid : Z; k_sid : Z; k_auth : Z;
  k_subs : option (T rtmq_sub_req_t); k_recv : rtmq_snap_t;
  k_send : wiov_t (mref_st htree); k_mesgs : option (list2_t ptr);
  k_evs : list rd_ev; k_wr : list wr_ev; k_out : list Z }.
Arguments SckT {_} _ _ _ _ _ _ _ _ _ _ _ _ _ _.
Arguments k_fd {_} _.
Arguments k_rdtm {_} _.
Arguments k_wrtm {_} _.
Arguments k_nid {_} _.
Arguments k_gid {_} _.
Arguments k_sid {_} _.
Arguments k_auth {_} _.
Arguments k_subs {_} _.
Arguments k_recv {_} _.
Arguments k_send {_} _.
Arguments k_mesgs {_} _.
Arguments k_evs {_} _.
Arguments k_wr {_} _.
Arguments k_out {_} _.

(** The thread: the memory and the context it shares; [rtmq_rsvr_t]; the memory of
    its connections; the queue of the new connections with its items; the ring of
    the messages to send; the commands in its pipe ([None] is an error of [read]),
    the times [time()] gives, and the sockets closed, each with what it took. *)
Record thr_st (T : Type → Type) := Thr {
  t_mem : mref_st htree; t_ctx : rtmq_cntx_t T;
  t_rsvr : rtmq_rsvr_t; t_err : Z; t_connections : Z;
  t_cmd_fd : Z; t_max : Z; t_ctm : Z; t_rdset : gset Z; t_wrset : gset Z; t_conns : list2_t ptr;
  t_scks : heap (sck_t T);
  t_connq : queue_t; t_items : gmap ptr rtmq_conn_item_t; t_sendq_max : Z; t_sendq : ring_t;
  t_pipe : list (option Z); t_clock : list Z; t_closed : list (Z * list Z) }.
Arguments Thr {_} _ _ _ _ _ _ _ _ _ _ _ _ _ _ _ _ _ _ _.
Arguments t_mem {_} _.
Arguments t_ctx {_} _.
Arguments t_rsvr {_} _.
Arguments t_err {_} _.
Arguments t_connections {_} _.
Arguments t_cmd_fd {_} _.
Arguments t_max {_} _.
Arguments t_ctm {_} _.
Arguments t_rdset {_} _.
Arguments t_wrset {_} _.
Arguments t_conns {_} _.
Arguments t_scks {_} _.
Arguments t_connq {_} _.
Arguments t_items {_} _.
Arguments t_sendq_max {_} _.
Arguments t_sendq {_} _.
Arguments t_pipe {_} _.
Arguments t_clock {_} _.
Arguments t_closed {_} _.

(** What [select] reports. *)
Inductive sel_ev := SelErr (errno : Z) | SelTimeout | SelReady (rd wr : gset Z).

(** What becomes of the connection at hand in a walk over the list: it is kept, it
    is deleted, or it is deleted and the walk ends with an error. *)
Inductive fate := Keep | Drop | Quit.

Section Ops.
Context {T : Type → Type} `{TreeOps T}.
Abbreviation TM := (SM (thr_st T)).

Definition set_core mem ctx rsvr err (x : thr_st T) : thr_st T :=
  Thr mem ctx rsvr err (t_connections x) (t_cmd_fd x) (t_max x) (t_ctm x) (t_rdset x) (t_wrset x) (t_conns x) (t_scks x)
    (t_connq x) (t_items x) (t_sendq_max x) (t_sendq x) (t_pipe x) (t_clock x) (t_closed x).
Definition set_connections n (x : thr_st T) : thr_st T :=
  Thr (t_mem x) (t_ctx x) (t_rsvr x) (t_err x) n (t_cmd_fd x) (t_max x) (t_ctm x) (t_rdset x) (t_wrset x) (t_conns x) (t_scks x)
    (t_connq x) (t_items x) (t_sendq_max x) (t_sendq x) (t_pipe x) (t_clock x) (t_closed x).
Definition set_sel max rd wr (x : thr_st T) : thr_st T :=
  Thr (t_mem x) (t_ctx x) (t_rsvr x) (t_err x) (t_connections x) (t_cmd_fd x) max (t_ctm x) rd wr (t_conns x) (t_scks x)
    (t_connq x) (t_items x) (t_sendq_max x) (t_sendq x) (t_pipe x) (t_clock x) (t_closed x).
Definition set_conns l s (x : thr_st T) : thr_st T :=
  Thr (t_mem x) (t_ctx x) (t_rsvr x) (t_err x) (t_connections x) (t_cmd_fd x) (t_max x) (t_ctm x) (t_rdset x) (t_wrset x) l s
    (t_connq x) (t_items x) (t_sendq_max x) (t_sendq x) (t_pipe x) (t_clock x) (t_closed x).
Definition set_queues cq sq (x : thr_st T) : thr_st T :=
  Thr (t_mem x) (t_ctx x) (t_rsvr x) (t_err x) (t_connections x) (t_cmd_fd x) (t_max x) (t_ctm x) (t_rdset x) (t_wrset x) (t_conns x)
    (t_scks x) cq (t_items x) (t_sendq_max x) sq (t_pipe x) (t_clock x) (t_closed x).
Definition set_world ctm pipe clock closed (x : thr_st T) : thr_st T :=
  Thr (t_mem x) (t_ctx x) (t_rsvr x) (t_err x) (t_connections x) (t_cmd_fd x) (t_max x) ctm (t_rdset x) (t_wrset x) (t_conns x)
    (t_scks x) (t_connq x) (t_items x) (t_sendq_max x) (t_sendq x) pipe clock closed.

Definition on_tmem {A} : SM (mref_st htree) A → TM A :=
  zoom t_mem (λ m x, set_core m (t_ctx x) (t_rsvr x) (t_err x) x).
Definition on_tctx {A} : SM (rtmq_cntx_t T) A → TM A :=
  zoom t_ctx (λ c x, set_core (t_mem x) c (t_rsvr x) (t_err x) x).
Definition on_ttabs {A} (m : SM (comm_st T) A) : TM A := on_tctx (on_tabs m).
Definition on_conns {A} : SM (list2_t ptr) A → TM A := zoom t_conns (λ l x, set_conns l (t_scks x) x).
Definition on_scks {A} : SM (heap (sck_t T)) A → TM A := zoom t_scks (λ s x, set_conns (t_conns x) s x).
Definition on_connq {A} : SM queue_t A → TM A := zoom t_connq (λ q x, set_queues q (t_sendq x) x).
Definition on_sendq {A} : SM ring_t A → TM A := zoom t_sendq (λ r x, set_queues (t_connq x) r x).

(** [time(NULL)]. *)
Definition c_time : TM Z :=
  x ← get; put (set_world (t_ctm x) (t_pipe x) (tail (t_clock x)) (t_closed x) x);; mret (default 0 (head (t_clock x))).
Definition set_ctm : TM unit :=
  now ← c_time; modify (λ x, set_world now (t_pipe x) (t_clock x) (t_closed x) x).

Definition rd_sck (p : ptr) : TM (sck_t T) := on_scks (hrd p).
Definition wr_sck (p : ptr) (f : sck_t T → sck_t T) : TM unit := on_scks (hwr p f).
Definition rd_node (p : ptr) : TM (list2_node_t ptr) := on_conns (lrd2 p).

Definition set_times rd wr (k : sck_t T) : sck_t T :=
  SckT (k_fd k) rd wr (k_nid k) (k_gid k) (k_sid k) (k_auth k) (k_subs k) (k_recv k) (k_send k) (k_mesgs k) (k_evs k) (k_wr k) (k_out k).
Definition set_lists subs mesgs (k : sck_t T) : sck_t T :=
  SckT (k_fd k) (k_rdtm k) (k_wrtm k) (k_nid k) (k_gid k) (k_sid k) (k_auth k) subs (k_recv k) (k_send k) mesgs (k_evs k) (k_wr k) (k_out k).
Definition set_ksend w (k : sck_t T) : sck_t T :=
  SckT (k_fd k) (k_rdtm k) (k_wrtm k) (k_nid k) (k_gid k) (k_sid k) (k_auth k) (k_subs k) (k_recv k) w (k_mesgs k) (k_evs k) (k_wr k) (k_out k).

(** *** One connection of the thread *)

(** The connection [k] as its receive side sees it, and back. *)
Definition conn_of (x : thr_st T) (k : sck_t T) subs mesgs : conn_st htree (hdl_st T) :=
  ConnSt (t_mem x) (k_recv k) (k_evs k) (t_err x)
    (Hdl (Sck (k_nid k) (k_gid k) (k_sid k) (k_auth k) subs mesgs) (t_rsvr x) (t_ctx x)).
Definition sck_of (c : conn_st htree (hdl_st T)) (k : sck_t T) : sck_t T :=
  let s := h_sck (chdl c) in
  SckT (k_fd k) (k_rdtm k) (k_wrtm k) (sk_nid s) (sk_gid s) (sk_sid s) (auth_succ s) (Some (sub_list s)) (crecv c)
    (k_send k) (Some (mesg_list s)) (csock c) (k_wr k) (k_out k).

Definition with_conn {A} (p : ptr) (m : SM (conn_st htree (hdl_st T)) A) : TM A :=
  k ← rd_sck p;
  subs ← deref (k_subs k);
  mesgs ← deref (k_mesgs k);
  x ← get;
  y ← run_on (conn_of x k subs mesgs) m;
  let c := snd y in
  modify (set_core (cmem c) (h_ctx (chdl c)) (h_rsvr (chdl c)) (cerr c));;
  wr_sck p (λ _, sck_of c k);;
  mret (fst y).

(** As its send side sees it. *)
Definition with_send {A} (p : ptr) (m : SM (send_st htree) A) : TM A :=
  k ← rd_sck p;
  mesgs ← deref (k_mesgs k);
  x ← get;
  y ← run_on (SendSt (t_mem x) mesgs (k_send k) (k_wr k) (k_out k)) m;
  let c := snd y in
  modify (λ x, set_core (smem c) (t_ctx x) (t_rsvr x) (t_err x) x);;
  wr_sck p (λ _, SckT (k_fd k) (k_rdtm k) (k_wrtm k) (k_nid k) (k_gid k) (k_sid k) (k_auth k) (k_subs k) (k_recv k)
    (send c) (Some (RtmqSend.mesgs c)) (k_evs k) (swr c) (sout c));;
  mret (fst y).

(** *** The end of a connection *)

(** One subscription of the connection [sck]. *)
Definition rtmq_rsvr_sck_sub_item_free (sck : sub_key) (req : rtmq_sub_req_t) : SM (comm_st T) unit :=
  let key := sub_list_key (sr_type req) in
  list ← on_sub (hash_tab_query rtmq_sub_tab_hash_cb rtmq_sub_tab_cmp_cb key WRLOCK);
  match list with
  | None => mret tt
  | Some _ =>
      r ← with_data c_sub set_sub rtmq_sub_tab_hash_cb rtmq_sub_tab_cmp_cb key (sub_del_node sck);
      let unlock := on_sub (hash_tab_unlock rtmq_sub_tab_hash_cb key WRLOCK) in
      match r with
      | NoGroup | NoNode | Removed false => unlock
      | Removed true =>
          list ← on_sub (hash_tab_delete rtmq_sub_tab_hash_cb rtmq_sub_tab_cmp_cb key NONLOCK);
          list ← deref list;
          rtmq_sub_list_dealloc list;;
          unlock
      end
  end.

Definition rtmq_rsvr_sck_sub_free (k : sck_t T) : TM unit :=
  match k_subs k with
  | None => mret tt
  | Some subs => on_ttabs (tr_destroy subs (rtmq_rsvr_sck_sub_item_free (SubKey (k_nid k) (k_gid k) (k_sid k))))
  end.

(** [CLOSE(fd)]: what the socket took is kept for the statements. *)
Definition close_sck (fd : Z) (out : list Z) : TM unit :=
  modify (λ x, set_world (t_ctm x) (t_pipe x) (t_clock x) (t_closed x ++ [(fd, out)]) x).

Definition rtmq_rsvr_sck_free (p : ptr) : TM unit :=
  if p =? NULL then mret tt else
  k ← rd_sck p;
  on_tmem (mref_dec (base (k_recv k)));;
  rtmq_rsvr_sck_sub_free k;;
  match k_mesgs k with
  | None => mret tt
  | Some mesgs => x ← get; y ← run_on (mesgs, t_mem x) (list2_destroy mref_dealloc);
      modify (λ x, set_core (snd (snd y)) (t_ctx x) (t_rsvr x) (t_err x) x)
  end;;
  x ← get; y ← run_on (k_send k, t_mem x) wiov_destroy;
  modify (λ x, set_core (snd (snd y)) (t_ctx x) (t_rsvr x) (t_err x) x);;
  close_sck (k_fd k) (k_out k);;
  on_scks (hfree p).

(** [node] is a node of the list of the connections. *)
Definition rtmq_rsvr_del_conn_hdl (node : ptr) : TM Z :=
  n ← rd_node node;
  let curr := data2 n in
  on_conns (list2_delete node);;
  k ← rd_sck curr;
  x ← get;
  on_ttabs (rtmq_node_to_svr_map_del (i32 (k_nid k)) (rv_id (t_rsvr x)));;
  rtmq_rsvr_sck_free curr;;
  modify (λ x, set_connections (u32 (t_connections x - 1)) x);;
  mret RTMQ_OK.

(** *** A walk over the connections *)

(** The node [node] of a walk that ends at [tail]; [body] works on its connection.
    [inl] goes on with the next node, which is read before the deletion. *)
Definition walk_step (body : ptr → TM fate) (tail node : ptr) : TM (ptr + Z) :=
  if node =? NULL then mret (inr RTMQ_OK) else
  n ← rd_node node;
  f ← body (data2 n);
  match f with
  | Keep => if node =? tail then mret (inr RTMQ_OK) else n ← rd_node node; mret (inl (next2 n))
  | Drop =>
      if node =? tail then rtmq_rsvr_del_conn_hdl node;; mret (inr RTMQ_OK)
      else
        n ← rd_node node;
        rtmq_rsvr_del_conn_hdl node;;
        mret (inl (next2 n))
  | Quit => rtmq_rsvr_del_conn_hdl node;; mret (inr RTMQ_ERR)
  end.

Definition walk (body : ptr → TM fate) : TM Z :=
  x ← get;
  let node := head2 (t_conns x) in
  tail ← (if negb (node =? NULL) then n ← rd_node node; mret (prev2 n) else mret NULL);
  loop (list2_fuel (t_conns x)) (walk_step body tail) node.

Definition rtmq_rsvr_del_all_conn_hdl : TM unit :=
  walk (λ _, mret Drop);;
  modify (set_connections 0).

(** *** [select] *)

(** [FD_SET] and [FD_ISSET] do not check the descriptor: one that the sets have no
    bit for is an access out of bounds. *)
Definition fd_ok (fd : Z) : bool := (0 <=? fd) && (fd <? FD_SETSIZE).
Definition fd_isset (fd : Z) (s : gset Z) : TM bool := cassert (fd_ok fd);; mret (bool_decide (fd ∈ s)).

Definition rdset_body (curr : ptr) : TM fate :=
  k ← rd_sck curr;
  x ← get;
  if (t_ctm x - k_rdtm k >? 30) && (t_ctm x - k_wrtm k >? 30) then mret Drop
  else
    cassert (fd_ok (k_fd k));;
    put (set_sel (Z.max (t_max x) (k_fd k)) ({[ k_fd k ]} ∪ t_rdset x) (t_wrset x) x);;
    mret Keep.

Definition rtmq_rsvr_set_rdset : TM unit :=
  x ← get;
  cassert (fd_ok (t_cmd_fd x));;
  put (set_sel (t_cmd_fd x) {[ t_cmd_fd x ]} (t_wrset x) x);;
  walk rdset_body;;
  mret tt.

(** [list_empty]: there is no head. *)
Definition wrset_body (curr : ptr) : TM fate :=
  k ← rd_sck curr;
  mesgs ← deref (k_mesgs k);
  (if (head2 mesgs =? NULL) && wiov_isempty (k_send k) then mret tt
   else
     cassert (fd_ok (k_fd k));;
     modify (λ x, set_sel (t_max x) (t_rdset x) ({[ k_fd k ]} ∪ t_wrset x) x));;
  mret Keep.

Definition rtmq_rsvr_set_wrset : TM unit :=
  modify (λ x, set_sel (t_max x) (t_rdset x) ∅ x);;
  walk wrset_body;;
  mret tt.

(** *** New connections *)

Definition new_sck (fd sid now : Z) (evs : list rd_ev) (wr : list wr_ev) : sck_t T :=
  SckT fd now now (u32 (-1)) 0 sid 0 None (Snap NULL 0 0 0 0) (Wiov 0 0 0 ANull ANull) None evs wr [].

Definition rtmq_rsvr_sck_creat (item : rtmq_conn_item_t) : TM ptr :=
  sck ← on_scks (halloc (new_sck (ci_fd item) (ci_sid item) 0 (ci_evs item) (ci_wr item)));
  match sck with
  | None => close_sck (ci_fd item) [];; mret NULL
  | Some sck =>
      now ← c_time;
      wr_sck sck (set_times now now);;
      subs ← tr_creat;
      match subs with
      | None => rtmq_rsvr_sck_free sck;; mret NULL
      | Some subs =>
          wr_sck sck (set_lists (Some subs) None);;
          mesgs ← list2_creat;
          match mesgs with
          | None => rtmq_rsvr_sck_free sck;; mret NULL
          | Some mesgs =>
              wr_sck sck (set_lists (Some subs) (Some mesgs));;
              ret ← with_conn sck rtmq_rsvr_alloc_recv_buff;
              if negb (ret =? 0) then rtmq_rsvr_sck_free sck;; mret NULL else mret sck
          end
      end
  end.

(** One item of the queue of new connections. *)
Definition add_conn (p : ptr) : TM unit :=
  x ← get;
  item ← deref (t_items x !! p);
  sck ← rtmq_rsvr_sck_creat item;
  if sck =? NULL then on_connq (queue_dealloc p) else
  ret ← on_conns (list2_rpush sck);
  if negb (ret =? 0) then rtmq_rsvr_sck_free sck;; on_connq (queue_dealloc p) else
  k ← rd_sck sck;
  y ← run_on (k_send k) (wiov_init (i32 (2 * t_sendq_max x)));
  wr_sck sck (set_ksend (snd y));;
  if negb (fst y =? 0) then rtmq_rsvr_sck_free sck;; on_connq (queue_dealloc p) else
  modify (λ x, set_connections (u32 (t_connections x + 1)) x);;
  on_connq (queue_dealloc p).

(** A turn takes an item at least: the fuel is the number of items. *)
Definition rtmq_rsvr_add_conn_hdl : TM Z :=
  x ← get;
  loop (S (Z.to_nat (queue_used (t_connq x)))) (λ _ : unit,
    x ← get;
    let num := Z.min (queue_used (t_connq x)) RTMQ_CONNQ_LEN in
    if 0 =? num then mret (inr RTMQ_OK) else
    item ← on_connq (queue_mpop (Z.to_nat num));
    for_each add_conn item;;
    mret (inl tt)) tt.

(** *** Distribution *)

(** The connections of the node [nid], in a list of [list.c]. *)
Definition rtmq_rsvr_get_conn_list_by_nodeid (nid : Z) (sck : ptr) : SM (list_t ptr * thr_st T) unit :=
  k ← on_snd (rd_sck sck);
  if negb (k_nid k =? nid) then mret tt else on_fst (list_rpush sck);; mret tt.

Definition dist_mesg (data : ptr) : TM unit :=
  on_tmem (mref_check data);;
  head ← on_tmem (rd_head data 0);
  cl ← list_creat;
  match cl with
  | None => on_tmem (mref_dec data);; mret tt
  | Some cl =>
      x ← get;
      y ← run_on (cl, x) (list2_trav (t_conns x) (rtmq_rsvr_get_conn_list_by_nodeid (h_nid head)));
      let cl := fst (snd y) in
      if 0 =? lnum cl then
        on_tmem (mref_dec data);;
        z ← run_on (cl, tt) (list_destroy (λ _, mret tt));
        mret tt
      else
        r ← on_tctx c_rand;
        f ← run_on cl (list_fetch (Z.rem r (lnum cl)));
        z ← run_on (cl, tt) (list_destroy (λ _, mret tt));
        sck ← deref (fst f);
        k ← rd_sck sck;
        mesgs ← deref (k_mesgs k);
        l ← run_on mesgs (list2_rpush data);
        wr_sck sck (set_lists (k_subs k) (Some (snd l)));;
        if negb (fst l =? 0) then on_tmem (mref_dec data);; mret tt else mret tt
  end.

(** A turn takes a message at least: the fuel is the number of messages. *)
Definition rtmq_rsvr_dist_data : TM Z :=
  x ← get;
  loop (S (Z.to_nat (ring_used (t_sendq x)))) (λ _ : unit,
    x ← get;
    let num := Z.min (ring_used (t_sendq x)) RTRD_POP_MAX_NUM in
    if 0 =? num then mret (inr RTMQ_OK) else
    data ← on_sendq (ring_mpop (Z.to_nat num));
    for_each dist_mesg data;;
    mret (inl tt)) tt.

(** *** Events *)

Definition rtmq_rsvr_recv_cmd : TM Z :=
  x ← get;
  put (set_world (t_ctm x) (tail (t_pipe x)) (t_clock x) (t_closed x) x);;
  match default None (head (t_pipe x)) with
  | None => mret RTMQ_ERR_RECV_CMD
  | Some type =>
      if type =? RTMQ_CMD_ADD_SCK then rtmq_rsvr_add_conn_hdl
      else if type =? RTMQ_CMD_DIST_REQ then rtmq_rsvr_dist_data
      else mret RTMQ_ERR_UNKNOWN_CMD
  end.

Definition recv_body (curr : ptr) : TM fate :=
  k ← rd_sck curr;
  x ← get;
  b ← fd_isset (k_fd k) (t_rdset x);
  if b : bool then
    wr_sck curr (set_times (t_ctm x) (k_wrtm k));;
    ret ← with_conn curr rtmq_rsvr_recv_proc;
    mret (if negb (ret =? 0) then Drop else Keep)
  else mret Keep.

Definition rtmq_rsvr_trav_recv : TM Z :=
  set_ctm;;
  walk recv_body;;
  mret RTMQ_OK.

Definition send_body (curr : ptr) : TM fate :=
  k ← rd_sck curr;
  x ← get;
  b ← fd_isset (k_fd k) (t_wrset x);
  if b : bool then
    wr_sck curr (set_times (k_rdtm k) (t_ctm x));;
    ret ← with_send curr send_proc;
    mret (if negb (ret =? 0) then Quit else Keep)
  else mret Keep.

Definition rtmq_rsvr_trav_send : TM Z :=
  set_ctm;;
  walk send_body.

Definition rtmq_rsvr_event_core_hdl : TM Z :=
  x ← get;
  b ← fd_isset (t_cmd_fd x) (t_rdset x);
  (if b : bool then rtmq_rsvr_recv_cmd;; mret tt else mret tt);;
  rtmq_rsvr_trav_recv;;
  rtmq_rsvr_trav_send;;
  mret RTMQ_OK.

Definition timeout_body (curr : ptr) : TM fate :=
  k ← rd_sck curr;
  x ← get;
  if t_ctm x - k_rdtm k >=? 60 then on_tmem (mref_dec (base (k_recv k)));; mret Drop else mret Keep.

Definition rtmq_rsvr_event_timeout_hdl : TM Z :=
  set_ctm;;
  x ← get;
  if head2 (t_conns x) =? NULL then mret RTMQ_OK else
  walk timeout_body;;
  x ← get;
  on_tctx (rtmq_rsvr_cmd_proc_all_req (rv_id (t_rsvr x)));;
  mret RTMQ_OK.

(** A turn of the loop of the thread, [select] reporting [ev]. *)
Definition rtmq_rsvr_routine (ev : sel_ev) : TM unit :=
  rtmq_rsvr_set_rdset;;
  rtmq_rsvr_set_wrset;;
  match ev with
  | SelErr e => if e =? EINTR then mret tt else crash
  | SelTimeout => rtmq_rsvr_event_timeout_hdl;; mret tt
  | SelReady rd wr =>
      modify (λ x, set_sel (t_max x) (t_rdset x ∩ rd) (t_wrset x ∩ wr) x);;
      rtmq_rsvr_event_core_hdl;;
      mret tt
  end.

(** A new thread: [id] is its number and [cmd_fd] the end of its pipe. *)
Definition rtmq_rsvr_init {Σ} (id cmd_fd : Z) (mem : mref_st htree) (ctx : rtmq_cntx_t T) (connq : queue_t)
    (its : gmap ptr rtmq_conn_item_t) (sendq_max : Z) (sendq : ring_t) (pipe : list (option Z)) (clock : list Z) :
    SM Σ (option (thr_st T)) :=
  conns ← list2_creat;
  mret ((λ conns, Thr mem ctx (Rsvr id 0 0) 0 0 cmd_fd 0 (default 0 (head clock)) ∅ ∅ conns empty_heap connq its
    sendq_max sendq pipe (tail clock) []) <$> conns).
End Ops.
