(* ===== verification/RtmqAbs.v ===== *)
(** A receive thread of the RTMQ server as its peers see it: a transition system
    over the connections, the receive queues and the messages to send.  The
    threads of [RtmqConn] refine it; its invariants say what the server promises
    to the nodes. *)
From stdpp Require Import fin_maps gmap.
From S2P Require Import Prelude Heap Table HashTab TreeRel Mref Bytes RtmqRecv RtmqMem RtmqRecvSpec RtmqComm RtmqCommSpec RtmqRsvr RtmqRsvrSpec RtmqConn.
Open Scope Z_scope.

(** ** State *)

(** What the connections share. *)
Record ashare := AShare {
  s_cnid : Z; s_id : Z; s_acc : gmap (list Z) (list Z); s_map : gmap Z (list Z);
  s_blocks : list (list ptr); s_in : list (list mesg); s_recv : Z; s_drop : Z;
  s_cmds : list (Z * rtmq_cmd_proc_req_t); s_rands : list Z }.

(** A connection: the item it was accepted as, its node and group, the unread bytes and the events of its
    socket; the bytes being written, the messages that wait, and the bytes written.
    The last two fields tell its story: the messages it has sent to the server, and
    those put in its list. *)
Record aconn := AConn {
  c_it : rtmq_conn_item_t; c_auth : bool; c_nid : Z; c_gid : Z;
  c_rest : list Z; c_evs : list rd_ev;
  c_vec : list Z; c_out : list mesg; c_sent : list Z;
  c_read : list mesg; c_put : list mesg }.

Record aserver := ASrv {
  v_share : ashare; v_conns : list aconn; v_new : list rtmq_conn_item_t; v_sendq : list mesg; v_closed : list aconn }.
Definition c_fd (c : aconn) : Z := ci_fd (c_it c).

Definition NO_NID : Z := u32 (-1).
Definition new_conn (it : rtmq_conn_item_t) : aconn := AConn it false NO_NID 0 [] (ci_evs it) [] [] [] [] [].

(** The connection [c] with what is shared, as its handlers see it, and back. *)
Definition view (s : ashare) (c : aconn) (fr : list href) : arsvr :=
  ARsvr (s_cnid s) (s_id s) (c_auth c) (c_nid c) (c_gid c) (s_acc s) (s_map s) (c_out c) (s_blocks s) (s_in s) (s_recv s) (s_drop s)
    (s_cmds s) (s_rands s) fr.
Definition share_of (a : arsvr) : ashare :=
  AShare (a_cnid a) (a_id a) (a_acc a) (a_map a) (a_blocks a) (a_in a) (a_recv a) (a_drop a) (a_cmds a) (a_rands a).
Definition conn_after (a : arsvr) (ms : list mesg) rest evs (c : aconn) : aconn :=
  AConn (c_it c) (a_auth a) (a_nid a) (a_gid a) rest evs (c_vec c) (a_out a) (c_sent c)
    (c_read c ++ ms) (c_put c ++ drop (length (c_out c)) (a_out a)).
Definition conn_sent n vec out (c : aconn) : aconn :=
  AConn (c_it c) (c_auth c) (c_nid c) (c_gid c) (c_rest c) (c_evs c) vec out
    (c_sent c ++ take n (c_vec c ++ wires (c_out c))) (c_read c) (c_put c).
Definition conn_put (m : mesg) (c : aconn) : aconn :=
  AConn (c_it c) (c_auth c) (c_nid c) (c_gid c) (c_rest c) (c_evs c) (c_vec c) (c_out c ++ [m]) (c_sent c) (c_read c) (c_put c ++ [m]).

Definition set_smap mp (s : ashare) : ashare :=
  AShare (s_cnid s) (s_id s) (s_acc s) mp (s_blocks s) (s_in s) (s_recv s) (s_drop s) (s_cmds s) (s_rands s).
Definition set_scmds cs (s : ashare) : ashare :=
  AShare (s_cnid s) (s_id s) (s_acc s) (s_map s) (s_blocks s) (s_in s) (s_recv s) (s_drop s) cs (s_rands s).
Definition set_srands rs (s : ashare) : ashare :=
  AShare (s_cnid s) (s_id s) (s_acc s) (s_map s) (s_blocks s) (s_in s) (s_recv s) (s_drop s) (s_cmds s) rs.
Definition set_sin inq (s : ashare) : ashare :=
  AShare (s_cnid s) (s_id s) (s_acc s) (s_map s) (s_blocks s) inq (s_recv s) (s_drop s) (s_cmds s) (s_rands s).
(** A closed connection leaves the map of the nodes. *)
Definition share_without (c : aconn) (s : ashare) : ashare := set_smap (abs_map_del (i32 (c_nid c)) (s_id s) (s_map s)).2 s.

(** The messages of a stream, until one closes the connection. *)
Fixpoint abs_deliver (ms : list mesg) (a : arsvr) : arsvr * bool :=
  match ms with
  | [] => (a, true)
  | m :: ms => if (abs_mesg m a).2 then abs_deliver ms (abs_mesg m a).1 else ((abs_mesg m a).1, false)
  end.

(** ** Transitions *)

(** Types are those of an [int]; a request to authenticate has its three fields;
    there are no subscriptions. *)
Definition mesg_fine (m : mesg) : Prop := is_int (h_type (m_head m)) ∧
  (h_flag (m_head m) = RTMQ_SYS_MESG →
   if h_type (m_head m) =? RTMQ_CMD_AUTH_REQ then
     (52 ≤ length (m_body m))%nat ∧ Forall is_byte (m_body m) ∧
     is_Some (auth_usr (m_body m)) ∧ is_Some (auth_passwd (m_body m)) ∧ is_node (h_nid (m_head m))
   else h_type (m_head m) ≠ RTMQ_CMD_SUB_REQ).

Inductive astep : aserver → aserver → Prop :=
  | st_open s cs it q sq cl :
      astep (ASrv s cs (it :: q) sq cl) (ASrv s (cs ++ [new_conn it]) q sq cl)
  (* the bytes that are there are read: the messages [ms] and a part of the next *)
  | st_recv s cs1 c cs2 q sq cl d evs ms r a :
      stream (c_evs c) = (d, RTMQ_OK, evs) → c_rest c ++ d = wires ms ++ r → abs_deliver ms (view s c []) = (a, true) → Forall mesg_fine ms →
      astep (ASrv s (cs1 ++ c :: cs2) q sq cl) (ASrv (share_of a) (cs1 ++ conn_after a ms r evs c :: cs2) q sq cl)
  (* the connection is closed: a message is refused, or the socket is done *)
  | st_refuse s cs1 c cs2 q sq cl d code evs ms r a ok :
      stream (c_evs c) = (d, code, evs) → c_rest c ++ d = wires ms ++ r → abs_deliver ms (view s c []) = (a, ok) → Forall mesg_fine ms →
      ok = false ∨ code ≠ RTMQ_OK →
      let c' := conn_after a ms r evs c in
      astep (ASrv s (cs1 ++ c :: cs2) q sq cl) (ASrv (share_without c' (share_of a)) (cs1 ++ cs2) q sq (cl ++ [c']))
  | st_send s cs1 c cs2 q sq cl n vec out :
      (n ≤ length (c_vec c ++ wires (c_out c)))%nat → vec ++ wires out = drop n (c_vec c ++ wires (c_out c)) → out `suffix_of` c_out c →
      astep (ASrv s (cs1 ++ c :: cs2) q sq cl) (ASrv s (cs1 ++ conn_sent n vec out c :: cs2) q sq cl)
  (* silent for too long, or an error of the socket *)
  | st_close s cs1 c cs2 q sq cl :
      astep (ASrv s (cs1 ++ c :: cs2) q sq cl) (ASrv (share_without c s) (cs1 ++ cs2) q sq (cl ++ [c]))
  (* a message goes to a connection of its node, or is lost if there is none *)
  | st_dist s cs1 c cs2 q m sq cl :
      c_nid c = h_nid (m_head m) →
      astep (ASrv s (cs1 ++ c :: cs2) q (m :: sq) cl) (ASrv (set_srands (tail (s_rands s)) s) (cs1 ++ conn_put m c :: cs2) q sq cl)
  | st_lost s cs q m sq cl :
      Forall (λ c, c_nid c ≠ h_nid (m_head m)) cs →
      astep (ASrv s cs q (m :: sq) cl) (ASrv s cs q sq cl)
  (* the workers are woken up *)
  | st_wake s cs q sq cl :
      astep (ASrv s cs q sq cl) (ASrv (set_scmds (s_cmds s ++ (proc_req (s_id s) <$> seq 0 (length (s_in s)))) s) cs q sq cl).

(** All the bytes a socket gives. *)
Fixpoint all_data (evs : list rd_ev) : list Z :=
  match evs with
  | [] => []
  | RdData bs :: evs => bs ++ all_data evs
  | _ :: evs => all_data evs
  end.

Lemma stream_data evs : all_data evs = (stream evs).1.1 ++ all_data (stream evs).2.
Proof.
  induction evs as [|[bs| |e] evs IH]; [done| |done|]; cbn [stream all_data].
  - destruct (stream evs) as [[d code] evs']. cbn [fst snd] in *. by rewrite IH, app_assoc.
  - destruct (e =? EAGAIN); [done|]. destruct (e =? EINTR); [exact IH|done].
Qed.

(** ** What the handlers keep *)

Definition set_frame fr (a : arsvr) : arsvr :=
  ARsvr (a_cnid a) (a_id a) (a_auth a) (a_nid a) (a_gid a) (a_acc a) (a_map a) (a_out a) (a_blocks a) (a_in a) (a_recv a) (a_drop a)
    (a_cmds a) (a_rands a) fr.

Lemma abs_mesg_frame fr m a : abs_mesg m (set_frame fr a) = (set_frame fr (abs_mesg m a).1, (abs_mesg m a).2).
Proof.
  unfold abs_mesg. destruct (h_flag (m_head m) =? RTMQ_SYS_MESG).
  - destruct (h_type (m_head m) =? RTMQ_CMD_AUTH_REQ); [|destruct (h_type (m_head m) =? RTMQ_CMD_KPALIVE_REQ); [|done]].
    + unfold abs_auth. cbn [set_frame a_acc a_map a_id a_out a_nid]. destruct (0 =? load32 (take 4 (m_body m))); [done|].
      destruct (auth_valid _ _ _); [|done]. by destruct (_ =? 0).
    + cbn [set_frame a_auth]. by destruct (a_auth a).
  - unfold abs_exp. cbn [set_frame a_auth a_nid a_in a_rands a_blocks a_id a_cmds a_drop a_recv].
    destruct (a_auth a); cbn [negb]; [|done]. destruct (h_nid (m_head m) =? a_nid a); cbn [negb]; [|done]. by case_decide.
Qed.

Lemma abs_deliver_frame fr ms a : abs_deliver ms (set_frame fr a) = (set_frame fr (abs_deliver ms a).1, (abs_deliver ms a).2).
Proof.
  revert a. induction ms as [|m ms IH]; intros a; cbn [abs_deliver]; [done|]. rewrite abs_mesg_frame. cbn [fst snd].
  destruct (abs_mesg m a).2; [apply IH|done].
Qed.

(** A property of the state that each message keeps. *)
Lemma abs_deliver_ind (P : list mesg → arsvr → Prop) :
  (∀ h m a, P h a → P (h ++ [m]) (abs_mesg m a).1) → ∀ ms h a, P h a → ∃ ms1, ms1 `prefix_of` ms ∧ P (h ++ ms1) (abs_deliver ms a).1.
Proof.
  intros HP ms. induction ms as [|m ms IH]; intros h a Ha; cbn [abs_deliver]; [exists []; by rewrite app_nil_r|].
  destruct (abs_mesg m a).2.
  - destruct (IH (h ++ [m]) _ (HP _ _ _ Ha)) as (ms1 & Hpre & H1). exists (m :: ms1). rewrite <-app_assoc in H1.
    split; [by apply prefix_cons|done].
  - exists [m]. split; [by apply prefix_cons, prefix_nil|by apply HP].
Qed.

(** ** Invariants *)

(** The messages [h] hold a request to authenticate as the node [n], with a valid
    account. *)
Definition is_auth_req (m : mesg) : Prop := h_flag (m_head m) = RTMQ_SYS_MESG ∧ h_type (m_head m) = RTMQ_CMD_AUTH_REQ.
Definition proved (acc : gmap (list Z) (list Z)) (h : list mesg) (n : Z) : Prop := ∃ m, m ∈ h ∧ is_auth_req m ∧ h_nid (m_head m) = n ∧
  auth_valid acc (default [] (auth_usr (m_body m))) (default [] (auth_passwd (m_body m))) = true.

Lemma proved_mono acc h h' n : h ⊆ h' → proved acc h n → proved acc h' n.
Proof. intros Hh (m & Hm & ?). exists m. split; [by apply Hh|done]. Qed.

Lemma Forall_snoc {A} (P : A → Prop) l x : Forall P l → P x → Forall P (l ++ [x]).
Proof. intros Hl Hx. apply Forall_app. split; [done|]. by constructor. Qed.

Lemma elem_of_concat_snoc {A} (ls : list (list A)) i x y : x ∈ concat (alter (λ l, l ++ [y]) i ls) → x = y ∨ x ∈ concat ls.
Proof.
  revert i. induction ls as [|l ls IH]; intros i; [destruct i; by right|]. destruct i as [|i]; cbn; rewrite !elem_of_app.
  - rewrite list_elem_of_singleton. tauto.
  - intros [?|Hx]; [by right; left|]. destruct (IH _ Hx); auto.
Qed.

Lemma elem_of_concat_clear {A} (ls : list (list A)) i x : x ∈ concat (<[i := []]> ls) → x ∈ concat ls.
Proof.
  revert i. induction ls as [|l ls IH]; intros i; [by destruct i|]. destruct i as [|i]; cbn; rewrite ?elem_of_app; [by right|].
  intros [?|Hx]; [by left|]. right. exact (IH _ Hx).
Qed.

(** What the messages [h] have made of the handlers: [inq] and [out] were there. *)
Record served_by (acc : gmap (list Z) (list Z)) (inq : list (list mesg)) (out : list mesg) (h : list mesg) (a : arsvr) : Prop := {
  sb_acc : a_acc a = acc;
  sb_auth : a_auth a = true → proved acc h (a_nid a);
  sb_nid : a_nid a = NO_NID ∨ proved acc h (a_nid a);
  sb_in : ∀ m, m ∈ concat (a_in a) → m ∈ concat inq ∨ (m ∈ h ∧ proved acc h (h_nid (m_head m)));
  sb_out : ∃ acks, a_out a = out ++ acks ∧ Forall (λ m, h_flag (m_head m) = RTMQ_SYS_MESG) acks;
}.

Lemma served_by_mono acc inq out h h' a : h ⊆ h' → served_by acc inq out h a → served_by acc inq out h' a.
Proof.
  intros Hh [H1 H2 H3 H4 H5]. pose proof (proved_mono acc h h') as Hp. constructor; [done|auto| |intros m Hm|done].
  - destruct H3; auto.
  - destruct (H4 _ Hm) as [?|[??]]; [by left|right]. auto.
Qed.

Lemma served_by_ack acc inq out h m a (b : bool) : ∀ auth nid gid mp ack,
  served_by acc inq out h a → h_flag (m_head ack) = RTMQ_SYS_MESG →
  (auth = true → proved acc (h ++ [m]) nid) → (nid = NO_NID ∨ proved acc (h ++ [m]) nid) →
  served_by acc inq out (h ++ [m]) (a_set_conn auth nid gid mp (a_out a ++ if b then [ack] else []) a).
Proof.
  intros auth nid gid mp ack Ha Hack Hau Hni.
  destruct (served_by_mono _ _ _ h (h ++ [m]) _ ltac:(set_solver) Ha) as [H1 H2 H3 H4 (acks & Ho & Hacks)].
  constructor; [done|done|done|done|]. exists (acks ++ if b then [ack] else []). cbn [a_out a_set_conn]. rewrite Ho, app_assoc.
  split; [done|]. apply Forall_app. split; [done|]. destruct b; by repeat constructor.
Qed.

Lemma served_by_step acc inq out h m a : served_by acc inq out h a → served_by acc inq out (h ++ [m]) (abs_mesg m a).1.
Proof.
  intros Ha. pose proof (served_by_mono _ _ _ h (h ++ [m]) _ ltac:(set_solver) Ha) as Hm. unfold abs_mesg.
  destruct (Z.eqb_spec (h_flag (m_head m)) RTMQ_SYS_MESG) as [Hf|Hf].
  - destruct (Z.eqb_spec (h_type (m_head m)) RTMQ_CMD_AUTH_REQ) as [Ht|Ht].
    + unfold abs_auth. destruct (0 =? load32 _); [exact Hm|]. rewrite (sb_acc _ _ _ _ _ Hm).
      destruct (auth_valid _ _ _) eqn:Hv.
      * assert (proved acc (h ++ [m]) (h_nid (m_head m))) as Hp by (exists m; split_and!; [set_solver|done|done|done]).
        destruct (_ =? 0); cbn [fst].
        -- apply (served_by_ack _ _ _ _ _ _ true); [done|done|done|by right].
        -- pose proof (served_by_ack acc inq out h m a false true (h_nid (m_head m)) (ntohl (load32 (take 4 (m_body m))))
             (abs_map_add (h_nid (m_head m)) (a_id a) (a_map a)).2 (auth_ack a true) Ha eq_refl) as Hx.
           rewrite app_nil_r in Hx. auto.
      * apply (served_by_ack _ _ _ _ _ _ true); [done|done|done|]. apply Hm.
    + destruct (h_type (m_head m) =? RTMQ_CMD_KPALIVE_REQ); [|exact Hm]. destruct (a_auth a) eqn:Hau; [|exact Hm].
      apply (served_by_ack _ _ _ _ _ _ true); [done|done| |]; [intros _|]; apply Hm; done.
  - cbn [fst]. unfold abs_exp. destruct (a_auth a) eqn:Hau; cbn [negb]; [|exact Hm].
    destruct (Z.eqb_spec (h_nid (m_head m)) (a_nid a)) as [Hn|Hn]; cbn [negb]; [|by destruct Hm].
    destruct Hm as [H1 H2 H3 H4 H5]. case_decide; [|by constructor].
    constructor; [done|done|done| |done]. cbn [a_set_in a_in]. intros m' Hm'.
    apply elem_of_concat_snoc in Hm' as [->|Hm']; [|by apply H4]. right. rewrite Hn. split; [set_solver|auto].
Qed.

Lemma served_by_deliver acc inq out ms h a : served_by acc inq out h a → served_by acc inq out (h ++ ms) (abs_deliver ms a).1.
Proof.
  intros Ha. destruct (abs_deliver_ind (served_by acc inq out) (served_by_step acc inq out) ms h a Ha) as (ms1 & [k ->] & H1).
  eapply served_by_mono; [|exact H1]. rewrite app_assoc. set_solver.
Qed.

(** The promises: what a socket takes are the messages put in the list of its
    connection; they are answers, or messages that were to be sent ([S]) to a node
    as which the peer has authenticated itself, if they have a node at all; and
    what is in the receive queues, or has left them ([W]), comes from such a node,
    by a connection of this thread or of another ([L]). *)
Record conn_inv (S : mesg → Prop) (acc : gmap (list Z) (list Z)) (c : aconn) : Prop := {
  ci_stream : c_sent c ++ c_vec c ++ wires (c_out c) = wires (c_put c);
  ci_put : Forall (λ m, h_flag (m_head m) = RTMQ_SYS_MESG ∨
    (S m ∧ (h_nid (m_head m) = NO_NID ∨ proved acc (c_read c) (h_nid (m_head m))))) (c_put c);
  ci_auth : c_auth c = true → proved acc (c_read c) (c_nid c);
  ci_nid : c_nid c = NO_NID ∨ proved acc (c_read c) (c_nid c);
}.
Definition sent_by (acc : gmap (list Z) (list Z)) (cs : list aconn) (m : mesg) : Prop :=
  ∃ c, c ∈ cs ∧ m ∈ c_read c ∧ proved acc (c_read c) (h_nid (m_head m)).

Lemma sent_by_mono acc cs cs' m : (∀ c, c ∈ cs → ∃ c', c' ∈ cs' ∧ c_read c ⊆ c_read c') → sent_by acc cs m → sent_by acc cs' m.
Proof.
  intros Hcs (c & Hc & Hm & Hp). destruct (Hcs _ Hc) as (c' & Hc' & Hr). exists c'. split_and!; [done|by apply Hr|by eapply proved_mono].
Qed.

Lemma new_conn_inv S acc it : conn_inv S acc (new_conn it).
Proof. constructor; [done|constructor|done|by left]. Qed.

Lemma conn_inv_impl (S S' : mesg → Prop) acc c : (∀ m, S m → S' m) → conn_inv S acc c → conn_inv S' acc c.
Proof.
  intros HS [H1 H2 H3 H4]. constructor; [done| |done|done]. eapply Forall_impl; [exact H2|]. intros m [?|[??]]; [by left|right; auto].
Qed.

(** What the connection [c] has read and what its socket still gives are what the
    peer sends. *)
Definition origin (c : aconn) : Prop := wires (c_read c) ++ c_rest c ++ all_data (c_evs c) = all_data (ci_evs (c_it c)).

Lemma origin_after a ms r evs d code c : stream (c_evs c) = (d, code, evs) → c_rest c ++ d = wires ms ++ r →
  origin c → origin (conn_after a ms r evs c).
Proof.
  unfold origin. intros Hs Hd Hc. cbn [conn_after c_read c_rest c_evs c_it].
  rewrite <-Hc, (stream_data (c_evs c)), Hs, wires_app. cbn [fst snd]. rewrite (app_assoc (c_rest c)), Hd, <-!app_assoc. done.
Qed.

Section Inv.
Context (S : mesg → Prop) (L : list aconn) (W : list mesg).

Definition all_of (v : aserver) : list aconn := v_conns v ++ v_closed v ++ L.

Record ainv (v : aserver) : Prop := {
  ai_conns : Forall (conn_inv S (s_acc (v_share v))) (all_of v);
  ai_in : ∀ m, m ∈ concat (s_in (v_share v)) ++ W → sent_by (s_acc (v_share v)) (all_of v) m;
  ai_sendq : Forall S (v_sendq v);
  ai_origin : Forall origin (all_of v);
}.

Lemma conn_inv_after acc s c ms rest evs :
  s_acc s = acc → conn_inv S acc c → let a := (abs_deliver ms (view s c [])).1 in
  a_acc a = acc ∧ conn_inv S acc (conn_after a ms rest evs c) ∧
  ∀ m, m ∈ concat (a_in a) → m ∈ concat (s_in s) ∨ (m ∈ c_read c ++ ms ∧ proved acc (c_read c ++ ms) (h_nid (m_head m))).
Proof.
  intros Hs [H1 H2 H3 H4] a.
  assert (served_by acc (s_in s) (c_out c) (c_read c) (view s c [])) as Hv.
  { constructor; [done|done|done|by left|]. exists []. by rewrite app_nil_r. }
  apply (served_by_deliver _ _ _ ms) in Hv. fold a in Hv. destruct Hv as [Ha1 Ha2 Ha3 Ha4 (acks & Ho & Hacks)].
  split; [done|]. split; [|exact Ha4]. constructor; cbn [conn_after c_sent c_vec c_out c_put c_auth c_nid c_read]; [|..|exact Ha2|exact Ha3].
  - rewrite Ho, drop_app_length, !wires_app, !app_assoc. f_equal. by rewrite <-app_assoc.
  - rewrite Ho, drop_app_length. apply Forall_app. split.
    + eapply Forall_impl; [exact H2|]. intros m [?|[? [?|Hp]]]; [by left|by right; split; [|left]|right; split; [done|right]].
      eapply proved_mono; [|exact Hp]. set_solver.
    + eapply Forall_impl; [exact Hacks|]. intros m ?. by left.
Qed.

Lemma conn_inv_in v c : ainv v → c ∈ v_conns v → conn_inv S (s_acc (v_share v)) c ∧ origin c.
Proof.
  intros [HC _ _ HO] Hc. rewrite Forall_forall in HC, HO. split; [apply HC|apply HO]; unfold all_of; set_solver.
Qed.

(** One connection changes. *)
Lemma ainv_replace v v' c c' R :
  ainv v → all_of v ≡ₚ c :: R → all_of v' ≡ₚ c' :: R → s_acc (v_share v') = s_acc (v_share v) →
  conn_inv S (s_acc (v_share v)) c' → origin c' → c_read c ⊆ c_read c' →
  (∀ m, m ∈ concat (s_in (v_share v')) → m ∈ concat (s_in (v_share v)) ∨ (m ∈ c_read c' ∧ proved (s_acc (v_share v)) (c_read c') (h_nid (m_head m)))) →
  Forall S (v_sendq v') → ainv v'.
Proof.
  intros [HC HI HS HO] Hp Hp' Hacc Hc' Ho' Hr Hin HS'. constructor; rewrite ?Hacc; [| |done|].
  - rewrite Hp'. rewrite Hp in HC. apply Forall_cons in HC as [_ HC]. by constructor.
  - assert (∀ m, m ∈ concat (s_in (v_share v)) ++ W → sent_by (s_acc (v_share v)) (all_of v') m) as Hold.
    { intros m Hm. eapply sent_by_mono; [|by apply HI]. intros c0 Hc0. rewrite Hp in Hc0.
      apply elem_of_cons in Hc0 as [->|Hc0]; [exists c'; split; [rewrite Hp'; by left|done]|].
      exists c0. split; [rewrite Hp'; by right|done]. }
    intros m [Hm|Hm]%elem_of_app; [|apply Hold; set_solver]. destruct (Hin _ Hm) as [Hm'|[Hm1 Hm2]]; [apply Hold; set_solver|].
    exists c'. split_and!; [rewrite Hp'; by left|done|done].
  - rewrite Hp'. rewrite Hp in HO. apply Forall_cons in HO as [_ HO]. by constructor.
Qed.

(** None does. *)
Lemma ainv_share v v' : ainv v → all_of v' = all_of v → s_acc (v_share v') = s_acc (v_share v) →
  concat (s_in (v_share v')) ⊆ concat (s_in (v_share v)) → v_sendq v' ⊆ v_sendq v → ainv v'.
Proof.
  intros [HC HI HS HO] Ha Hacc Hin Hsq. constructor; rewrite ?Ha, ?Hacc; [done| | |done].
  - intros m Hm. apply HI. set_solver.
  - rewrite Forall_forall in HS |- *. auto.
Qed.

Lemma ainv_step v v' : astep v v' → ainv v → ainv v'.
Proof.
  intros Hst Hv. pose proof (ai_sendq _ Hv) as Hsq.
  assert (∀ cs1 cs2 cl (c : aconn), (cs1 ++ c :: cs2) ++ cl ++ L ≡ₚ c :: (cs1 ++ cs2) ++ cl ++ L) as Hmid by (intros; solve_Permutation).
  assert (∀ cs1 cs2 cl (c : aconn), (cs1 ++ cs2) ++ (cl ++ [c]) ++ L ≡ₚ c :: (cs1 ++ cs2) ++ cl ++ L) as Hend by (intros; solve_Permutation).
  destruct Hst as [s cs it q sq cl|s cs1 c cs2 q sq cl d evs ms r a Hs Hw Hd Hf|s cs1 c cs2 q sq cl d code evs ms r a ok Hs Hw Hd Hf Hok c'|
    s cs1 c cs2 q sq cl n vec out Hn Hb Hout|s cs1 c cs2 q sq cl|s cs1 c cs2 q m sq cl Hn|s cs q m sq cl Hn|s cs q sq cl]; cbn [v_sendq] in *.
  1: destruct Hv as [HC HI _ HO]; unfold all_of in *; cbn [v_share v_conns v_closed] in *;
     constructor; unfold all_of; cbn [v_share v_conns v_closed v_sendq]; [| |done|].
  1: rewrite !Forall_app in *; destruct HC as (HC1 & HC2 & HC3); split_and!; try done; constructor; [apply new_conn_inv|done].
  1: intros m Hm; eapply sent_by_mono; [|by apply HI]; intros c Hc; exists c; split; [set_solver|done].
  1: rewrite !Forall_app in *; destruct HO as (HO1 & HO2 & HO3); split_and!; try done; constructor; [done|done].
  6: eapply ainv_share; [exact Hv|done|done|done|cbn; set_solver].
  6: by eapply ainv_share; [exact Hv|..].
  all: destruct (conn_inv_in _ c Hv ltac:(cbn; set_solver)) as [Hc Ho].
  - destruct (conn_inv_after _ s c ms r evs eq_refl Hc) as (Ha & Hc' & Hin). rewrite Hd in *. cbn [fst] in *.
    eapply ainv_replace; [exact Hv|apply Hmid|apply Hmid|exact Ha|exact Hc'|by eapply origin_after|cbn; set_solver|exact Hin|exact Hsq].
  - destruct (conn_inv_after _ s c ms r evs eq_refl Hc) as (Ha & Hc' & Hin). rewrite Hd in *. cbn [fst] in *.
    eapply ainv_replace; [exact Hv|apply Hmid|apply Hend|exact Ha|exact Hc'|by eapply origin_after|cbn; set_solver|exact Hin|exact Hsq].
  - destruct Hc as [H1 H2 H3 H4].
    eapply ainv_replace; [exact Hv|apply Hmid|apply Hmid|done| |exact Ho|done|by left|exact Hsq]. constructor; [|done..].
    cbn [conn_sent c_sent c_vec c_out c_put]. by rewrite Hb, <-app_assoc, take_drop, <-H1.
  - eapply ainv_replace; [exact Hv|apply Hmid|apply Hend|done|exact Hc|exact Ho|done|by left|exact Hsq].
  - apply Forall_cons in Hsq as [Hm Hsq]. destruct Hc as [H1 H2 H3 H4].
    eapply ainv_replace; [exact Hv|apply Hmid|apply Hmid|done| |exact Ho|done|by left|exact Hsq].
    constructor; cbn [conn_put c_sent c_vec c_out c_put c_read c_auth c_nid]; [|..|done|done].
    + rewrite !wires_app, <-H1. by rewrite <-!app_assoc.
    + apply Forall_app. split; [done|]. constructor; [|done]. rewrite <-Hn. by right.
Qed.

Lemma ainv_steps v v' : rtc astep v v' → ainv v → ainv v'.
Proof. induction 1; [done|]. intros Hv. by eapply IHrtc, ainv_step. Qed.
End Inv.

(** ** No message is multiplied *)

(** The messages of the application put in the list of a connection. *)
Definition app_puts (c : aconn) : list mesg := filter (λ m, h_flag (m_head m) ≠ RTMQ_SYS_MESG) (c_put c).
Definition server_out (v : aserver) : list mesg := concat (app_puts <$> v_conns v ++ v_closed v) ++ v_sendq v.
Definition server_read (v : aserver) : list mesg := concat (c_read <$> v_conns v ++ v_closed v).

Lemma concat_alter_snoc {A} (ls : list (list A)) i y :
  ∃ k, concat (alter (λ l, l ++ [y]) i ls) ≡ₚ concat ls ++ k ∧ k ⊆+ [y].
Proof.
  revert i. induction ls as [|l ls IH]; intros i; [exists []; destruct i; split; try done; by apply submseteq_nil_l|].
  destruct i as [|i].
  - exists [y]. split; [|done]. cbn. solve_Permutation.
  - destruct (IH i) as (k & Hk & Hs). exists k. split; [|done]. cbn. change (alter (λ l, l ++ [y]) i ls) with (alter (λ l, l ++ [y]) i ls).
    rewrite Hk. by rewrite app_assoc.
Qed.

(** What the handlers have queued of the messages they got. *)
Lemma mesg_flow m a : ∃ k, concat (a_in (abs_mesg m a).1) ≡ₚ concat (a_in a) ++ k ∧ k ⊆+ [m].
Proof.
  assert (∀ x, a_in x = a_in a → ∃ k, concat (a_in x) ≡ₚ concat (a_in a) ++ k ∧ k ⊆+ [m]) as Hsame.
  { intros x ->. exists []. rewrite app_nil_r. split; [done|]. by apply submseteq_nil_l. }
  unfold abs_mesg. destruct (_ =? _).
  - apply Hsame. unfold abs_auth. by repeat case_match.
  - cbn [fst]. unfold abs_exp. destruct (negb (a_auth a)); [by apply Hsame|]. destruct (negb _); [by apply Hsame|].
    case_decide; [apply concat_alter_snoc|by apply Hsame].
Qed.

Lemma deliver_flow ms a : ∃ k, concat (a_in (abs_deliver ms a).1) ≡ₚ concat (a_in a) ++ k ∧ k ⊆+ ms.
Proof.
  destruct (abs_deliver_ind (λ h x, ∃ k, concat (a_in x) ≡ₚ concat (a_in a) ++ k ∧ k ⊆+ h)) with (ms := ms) (h := @nil mesg) (a := a)
    as (ms1 & [ms2 ->] & k & Hk & Hs).
  - intros h m x (k & Hk & Hs). destruct (mesg_flow m x) as (k' & Hk' & Hs'). exists (k ++ k').
    split; [by rewrite Hk', Hk, <-app_assoc|]. by apply submseteq_app.
  - exists []. rewrite app_nil_r. split; [done|]. by apply submseteq_nil_l.
  - exists k. split; [done|]. cbn in Hs. by apply submseteq_inserts_r.
Qed.

(** A step loses no connection, sends messages of the application only once, and
    queues what it has read at most once. *)
Definition server_items (v : aserver) : list rtmq_conn_item_t := (c_it <$> v_conns v ++ v_closed v) ++ v_new v.

Record flow (v v' : aserver) : Prop := {
  fl_items : server_items v' ≡ₚ server_items v;
  fl_out : server_out v' ⊆+ server_out v;
  fl_in : ∃ k r, concat (s_in (v_share v')) ≡ₚ concat (s_in (v_share v)) ++ k ∧ server_read v' ≡ₚ server_read v ++ r ∧ k ⊆+ r;
}.

Lemma flow_refl v : flow v v.
Proof. constructor; [done..|]. exists [], []. by rewrite !app_nil_r. Qed.

Lemma flow_trans v1 v2 v3 : flow v1 v2 → flow v2 v3 → flow v1 v3.
Proof.
  intros [Hi Ho (k & r & Hk & Hr & Hs)] [Hi' Ho' (k' & r' & Hk' & Hr' & Hs')]. constructor; [by etransitivity|by etransitivity|].
  exists (k ++ k'), (r ++ r'). rewrite !app_assoc, <-Hk, <-Hr. split_and!; [done|done|by apply submseteq_app].
Qed.

Definition is_ack (m : mesg) : Prop := h_flag (m_head m) = RTMQ_SYS_MESG.

Lemma mesg_acks m a : ∃ acks, a_out (abs_mesg m a).1 = a_out a ++ acks ∧ Forall is_ack acks.
Proof.
  assert (∀ x, a_out x = a_out a → ∃ acks, a_out x = a_out a ++ acks ∧ Forall is_ack acks) as Hsame.
  { intros x ->. exists []. by rewrite app_nil_r. }
  unfold abs_mesg. destruct (_ =? _).
  - destruct (_ =? _); [|destruct (_ =? _); [|by apply Hsame]].
    + unfold abs_auth. destruct (_ =? _); [by apply Hsame|]. destruct (auth_valid _ _ _).
      * destruct (_ =? _); [|by apply Hsame]. eexists; split; [done|by repeat constructor].
      * eexists; split; [done|by repeat constructor].
    + destruct (a_auth a); [|by apply Hsame]. eexists; split; [done|by repeat constructor].
  - cbn [fst]. unfold abs_exp. destruct (negb (a_auth a)); [by apply Hsame|]. destruct (negb _); [by apply Hsame|].
    case_decide; by apply Hsame.
Qed.

Lemma deliver_acks ms a : ∃ acks, a_out (abs_deliver ms a).1 = a_out a ++ acks ∧ Forall is_ack acks.
Proof.
  destruct (abs_deliver_ind (λ _ x, ∃ acks, a_out x = a_out a ++ acks ∧ Forall is_ack acks)) with (ms := ms) (h := @nil mesg) (a := a)
    as (_ & _ & Hk); [|by exists []; rewrite app_nil_r|exact Hk].
  intros _ m x (acks & Hx & Hf). destruct (mesg_acks m x) as (acks' & Hx' & Hf'). exists (acks ++ acks').
  rewrite Hx', Hx, <-app_assoc. split; [done|]. by apply Forall_app.
Qed.

Lemma app_puts_after ms s c rest evs : app_puts (conn_after (abs_deliver ms (view s c [])).1 ms rest evs c) = app_puts c.
Proof.
  destruct (deliver_acks ms (view s c [])) as (acks & Ho & Hf). unfold app_puts. cbn [conn_after c_put]. rewrite Ho. cbn [view a_out].
  rewrite drop_app_length, filter_app. replace (filter _ acks) with (@nil mesg); [by rewrite app_nil_r|].
  symmetry. clear Ho. induction Hf as [|m acks Hm Hf IH]; [done|]. rewrite filter_cons, decide_False by (unfold is_ack in Hm; naive_solver). exact IH.
Qed.

(** One connection changes; the messages to send stay. *)
Lemma flow_one v v' c c' R : v_conns v ++ v_closed v ≡ₚ c :: R → v_conns v' ++ v_closed v' ≡ₚ c' :: R → v_sendq v' = v_sendq v → v_new v' = v_new v → c_it c' = c_it c →
  app_puts c' = app_puts c → (∃ k r, concat (s_in (v_share v')) ≡ₚ concat (s_in (v_share v)) ++ k ∧ c_read c' = c_read c ++ r ∧ k ⊆+ r) → flow v v'.
Proof.
  intros Hp Hp' Hsq Hnew Hit Hput (k & r & Hk & Hr & Hs). constructor.
  - unfold server_items. rewrite Hp, Hp', Hnew. cbn. by rewrite Hit.
  - unfold server_out. rewrite Hp, Hp', Hsq. cbn. by rewrite Hput.
  - exists k, r. split; [done|]. split; [|done]. unfold server_read. rewrite Hp, Hp'. cbn. rewrite Hr. solve_Permutation.
Qed.

Lemma flow_keep v v' c c' R : v_conns v ++ v_closed v ≡ₚ c :: R → v_conns v' ++ v_closed v' ≡ₚ c' :: R → v_sendq v' = v_sendq v → v_new v' = v_new v → c_it c' = c_it c →
  app_puts c' = app_puts c → s_in (v_share v') = s_in (v_share v) → c_read c' = c_read c → flow v v'.
Proof. intros Hp Hp' Hsq Hnew Hit Hput Hin Hr. eapply flow_one; [done..|]. exists [], []. rewrite !app_nil_r, Hin. done. Qed.

Lemma flow_step v v' : Forall (λ m, ¬ is_ack m) (v_sendq v) → astep v v' → flow v v'.
Proof.
  intros Happ Hst.
  assert (∀ cs1 cs2 cl (c : aconn), (cs1 ++ c :: cs2) ++ cl ≡ₚ c :: (cs1 ++ cs2) ++ cl) as Hmid by (intros; solve_Permutation).
  assert (∀ cs1 cs2 cl (c : aconn), (cs1 ++ cs2) ++ cl ++ [c] ≡ₚ c :: (cs1 ++ cs2) ++ cl) as Hend by (intros; solve_Permutation).
  destruct Hst as [s cs it q sq cl|s cs1 c cs2 q sq cl d evs ms r a Hs Hw Hd Hf|s cs1 c cs2 q sq cl d code evs ms r a ok Hs Hw Hd Hf Hok c'|
    s cs1 c cs2 q sq cl n vec out Hn Hb Hout|s cs1 c cs2 q sq cl|s cs1 c cs2 q m sq cl Hn|s cs q m sq cl Hn|s cs q sq cl]; cbn [v_sendq] in Happ.
  - constructor; [unfold server_items; cbn [v_conns v_closed v_new]; rewrite !fmap_app; cbn; solve_Permutation|unfold server_out|exists [], []; rewrite !app_nil_r; split; [done|]; split; [|done]; unfold server_read];
      cbn [v_conns v_closed v_sendq]; rewrite !fmap_app, !concat_app; cbn; rewrite ?app_nil_r; done.
  - destruct (deliver_flow ms (view s c [])) as (k & Hk & Hsub). pose proof (app_puts_after ms s c r evs) as Hput. rewrite Hd in *.
    eapply flow_one; [apply Hmid|apply Hmid|done|done|done|exact Hput|]. by exists k, ms.
  - destruct (deliver_flow ms (view s c [])) as (k & Hk & Hsub). pose proof (app_puts_after ms s c r evs) as Hput. rewrite Hd in *.
    eapply flow_one; [apply Hmid|apply Hend|done|done|done|exact Hput|]. by exists k, ms.
  - by eapply flow_keep; [apply Hmid|apply Hmid|..].
  - by eapply flow_keep; [apply Hmid|apply Hend|..].
  - apply Forall_cons in Happ as [Hm _]. constructor.
    + unfold server_items. cbn [v_conns v_closed v_new]. by rewrite (Hmid cs1 cs2 cl (conn_put m c)), (Hmid cs1 cs2 cl c).
    + unfold server_out. cbn [v_conns v_closed v_sendq]. rewrite (Hmid cs1 cs2 cl (conn_put m c)), (Hmid cs1 cs2 cl c). cbn.
      unfold app_puts at 1. cbn [conn_put c_put]. rewrite filter_app, filter_cons, decide_True by exact Hm. cbn.
      fold (app_puts c). apply Permutation_submseteq. solve_Permutation.
    + exists [], []. rewrite !app_nil_r. split; [done|]. split; [|done]. unfold server_read. cbn [v_conns v_closed].
      rewrite (Hmid cs1 cs2 cl (conn_put m c)), (Hmid cs1 cs2 cl c). done.
  - constructor; [done| |exists [], []; by rewrite !app_nil_r]. unfold server_out. cbn [v_conns v_closed v_sendq].
    apply submseteq_app; [done|]. by apply submseteq_cons.
  - constructor; [done|done|]. exists [], []. by rewrite !app_nil_r.
Qed.
