(* ===== verification/RtmqConnRep.v ===== *)
(** The receive threads of [RtmqConn] represent the abstract server of [RtmqAbs]:
    the relation, the memory that the connections share, and the walks over
    the list of the connections. *)
From stdpp Require Import fin_maps gmap.
From S2P Require Import Prelude Heap Table HashTab TabRel TreeRel List2 Iovec Ring RingSpec Slot QueueSpec Mref Bytes Trees RtmqRecv RtmqMem RtmqRecvSpec RtmqSend RtmqSendSpec RtmqComm RtmqCommSpec RtmqRsvr RtmqRsvrSpec RtmqExp RtmqWork RtmqConn RtmqAbs.
Open Scope Z_scope.

(** ** Streams *)

(** All that a peer sends, after the bytes [rest], is messages, the last of which
    may be missing its end. *)
Definition stream_ok (rest : list Z) (evs : list rd_ev) : Prop :=
  Forall ev_ok evs ∧ ∃ ms r, rest ++ all_data evs = wires ms ++ r ∧ partial RTMQ_BUFF_SIZE r ∧
    Forall (mesg_ok RTMQ_BUFF_SIZE) ms ∧ Forall mesg_fine ms.

Lemma stream_evs evs : Forall ev_ok evs → Forall ev_ok (stream evs).2.
Proof.
  induction 1 as [|[bs| |e] evs He Hevs IH]; [constructor| |by constructor|]; cbn [stream].
  - by destruct (stream evs) as [[d code] evs'].
  - destruct (e =? EAGAIN); [done|]. by destruct (e =? EINTR).
Qed.

(** The messages that a turn completes. *)
Lemma stream_ok_read rest evs : stream_ok rest evs →
  ∃ ms r, rest ++ (stream evs).1.1 = wires ms ++ r ∧ partial RTMQ_BUFF_SIZE r ∧
    Forall (mesg_ok RTMQ_BUFF_SIZE) ms ∧ Forall mesg_fine ms ∧ stream_ok r (stream evs).2.
Proof.
  intros [Hev (ms & r & HD & Hr & Hms & Hfine)]. rewrite (stream_data evs), app_assoc in HD.
  destruct (split_stream _ ms r Hms Hr _ _ HD) as (ms1 & ms2 & r1 & -> & HD1 & Hr1 & HD2).
  apply Forall_app in Hms as [Hms1 Hms2]. apply Forall_app in Hfine as [Hf1 Hf2].
  exists ms1, r1. split_and!; try done. split; [by apply stream_evs|]. by exists ms2, r.
Qed.

(** Blocks that a connection may still ask for. *)
Definition demand (rest : list Z) (evs : list rd_ev) : Z := Z.of_nat (length rest + 2 * length (all_data evs)).

Lemma demand_read rest evs ms r : rest ++ (stream evs).1.1 = wires ms ++ r →
  demand r (stream evs).2 + Z.of_nat (length ms + length (stream evs).1.1) ≤ demand rest evs.
Proof.
  intros HD. apply (f_equal length) in HD. rewrite !length_app in HD. pose proof (wires_length ms).
  unfold demand. rewrite (stream_data evs), length_app. lia.
Qed.

(** ** What the handlers keep *)

Definition fine (a : arsvr) : Prop :=
  (a_nid a = NO_NID ∨ is_node (a_nid a)) ∧ Forall sendable (a_out a) ∧ a_in a ≠ [] ∧ Forall (λ r, 0 ≤ r) (a_rands a) ∧
  ∀ m, m ∈ concat (a_in a) → served_ok m.

Lemma fine_pre m a : mesg_fine m → fine a → mesg_pre m a.
Proof.
  intros [_ Hm] (_ & _ & Hin & Hr & _). unfold mesg_pre.
  destruct (Z.eqb_spec (h_flag (m_head m)) RTMQ_SYS_MESG) as [Hf|Hf]; [by apply Hm|done].
Qed.

Lemma ack_sendable t n body : is_u32 t → (length body ≤ 1024)%nat →
  sendable (Mesg (Head t (u32 n) RTMQ_SYS_MESG (Z.of_nat (length body)) RTMQ_CHKSUM_VAL) body).
Proof.
  intros Ht Hl. pose proof (u32_range n). constructor; [|done|done|cbn; unfold HEAD_SIZE; lia].
  unfold head_ok, is_u32 in *. cbn. unfold RTMQ_SYS_MESG, RTMQ_CHKSUM_VAL. lia.
Qed.

Lemma fine_step m a : mesg_ok RTMQ_BUFF_SIZE m → mesg_fine m → fine a → fine (abs_mesg m a).1.
Proof.
  intros Hok [Hty Hm] (Hn & Ho & Hin & Hr & Hs). assert (fine a) as Ha by done. unfold abs_mesg.
  destruct (Z.eqb_spec (h_flag (m_head m)) RTMQ_SYS_MESG) as [Hf|Hf].
  - specialize (Hm Hf). destruct (h_type (m_head m) =? RTMQ_CMD_AUTH_REQ).
    + destruct Hm as (_ & _ & _ & _ & Hnid). unfold abs_auth. destruct (0 =? _); [done|].
      assert (∀ ok, sendable (auth_ack a ok)) as Hack.
      { intros ok. apply (ack_sendable _ _ (store32 _)); [unfold is_u32, RTMQ_CMD_AUTH_ACK; lia|cbn; lia]. }
      destruct (auth_valid _ _ _).
      * destruct (_ =? 0); (split_and!; cbn [fst a_set_conn a_nid a_out a_in a_rands]; [by right| |done|done|done]); [|done]. by apply Forall_snoc.
      * split_and!; cbn [fst a_set_conn a_nid a_out a_in a_rands]; [done| |done|done|done]. by apply Forall_snoc.
    + destruct (_ =? RTMQ_CMD_KPALIVE_REQ); [|done]. destruct (a_auth a); [|done].
      split_and!; cbn [fst a_set_conn a_nid a_out a_in a_rands]; [done| |done|done|done]. apply Forall_snoc; [done|].
      apply (ack_sendable _ _ []); [unfold is_u32, RTMQ_CMD_KPALIVE_ACK; lia|cbn; lia].
  - cbn [fst]. unfold abs_exp. destruct (negb (a_auth a)); [done|].
    destruct (negb _); [done|]. case_decide; (split_and!; cbn [a_set_in a_nid a_out a_in a_rands]; [done|done| |by apply Forall_tail|]); [..|done|done].
    + destruct (a_in a); [done|]. by destruct (Z.to_nat _).
    + intros m' [->|Hm']%elem_of_concat_snoc; [|by apply Hs]. constructor; [apply Hok|apply Hok|done].
Qed.

Lemma fine_deliver ms a : Forall (mesg_ok RTMQ_BUFF_SIZE) ms → Forall mesg_fine ms → fine a → fine (abs_deliver ms a).1.
Proof.
  intros Hok Hms. revert a. induction Hms as [|m ms Hm Hms IH]; intros a Ha; cbn [abs_deliver]; [done|].
  apply Forall_cons in Hok as [Hm0 Hok]. destruct (abs_mesg m a).2; [|by apply fine_step]. by apply IH, fine_step.
Qed.

Section Deliver.
Context {T : Type → Type} `{TreeLaws T}.

Lemma deliver_abs ms a : deliver (HS := hdl_st T) ms a = abs_deliver ms a.
Proof.
  revert a. induction ms as [|m ms IH]; intros a; [done|]. cbn [deliver abs_deliver].
  change (hstep m a) with (abs_mesg m a). destruct (abs_mesg m a) as [a' []]; [apply IH|done].
Qed.

Lemma deliver_pre_fine ms a : Forall (mesg_ok RTMQ_BUFF_SIZE) ms → Forall mesg_fine ms → fine a → deliver_pre (HS := hdl_st T) ms a.
Proof.
  intros Hok Hms. revert a. induction Hms as [|m ms Hm Hms IH]; intros a Ha; [done|]. apply Forall_cons in Hok as [Hm0 Hok].
  split; [by apply fine_pre|]. intros _. by apply IH, fine_step.
Qed.
End Deliver.

(** ** The relation *)

Definition vrefs (V : list sending) : list href := (λ s, Href (sg_blk s) 0 (sg_img s) true) <$> V.

(** A connection: its node in the list, its socket, its buffer with the limit, the
    messages being sent, the blocks of those that wait. *)
Record conn (T : Type → Type) := Conn {
  n_node : ptr; n_sck : ptr; n_k : sck_t T; n_buf : list Z; n_lim : Z;
  n_vec : list sending; n_ps : list ptr; n_abs : aconn }.
Arguments Conn {_} _ _ _ _ _ _ _ _.
Arguments n_node {_} _.
Arguments n_sck {_} _.
Arguments n_k {_} _.
Arguments n_buf {_} _.
Arguments n_lim {_} _.
Arguments n_vec {_} _.
Arguments n_ps {_} _.
Arguments n_abs {_} _.

Section Rel.
Context {T : Type → Type} `{TreeLaws T} {room lim : Z} {B0 : bmap} {R0 : list href}.
Implicit Types (c : conn T) (cs : list (conn T)) (x : thr_st T) (s : ashare).

Definition n_base c : ptr := base (k_recv (n_k c)).
Definition conn_refs c : list href := vrefs (n_vec c) ++ out_refs (n_ps c) (c_out (n_abs c)).
Definition bufs cs : bmap := list_to_map ((λ c, (n_base c, (n_buf c, n_lim c))) <$> cs) ∪ B0.
Definition bases cs : Prop := NoDup (n_base <$> cs) ∧ Forall (λ b, B0 !! b = None) (n_base <$> cs).

Record conn_core c : Prop := {
  cc_nid : k_nid (n_k c) = c_nid (n_abs c);
  cc_gid : k_gid (n_k c) = c_gid (n_abs c);
  cc_fd : k_fd (n_k c) = c_fd (n_abs c);
  cc_fd_ok : fd_ok (c_fd (n_abs c)) = true;
  cc_auth : k_auth (n_k c) = if c_auth (n_abs c) then 1 else 0;
  cc_node : c_nid (n_abs c) = NO_NID ∨ is_node (c_nid (n_abs c));
  cc_subs : ∃ t, k_subs (n_k c) = Some t ∧ tr_wf t [];
  cc_mesgs : ∃ l, k_mesgs (n_k c) = Some l ∧ l2rep l (n_ps c);
  cc_ps : length (n_ps c) = length (c_out (n_abs c));
  cc_send : wrep (k_send (n_k c)) (send_item <$> n_vec c);
  cc_max : 0 < iov_max (k_send (n_k c));
  cc_vec : c_vec (n_abs c) = concat (sg_rest <$> n_vec c);
  cc_ok : Forall sg_ok (n_vec c) ∧ Forall sendable (c_out (n_abs c));
  cc_sent : k_out (n_k c) = c_sent (n_abs c);
}.

(** A connection that goes on: its buffer holds a part of a message. *)
Definition conn_live c : Prop :=
  k_evs (n_k c) = c_evs (n_abs c) ∧ partial RTMQ_BUFF_SIZE (c_rest (n_abs c)) ∧ stream_ok (c_rest (n_abs c)) (c_evs (n_abs c)) ∧
  end_ (k_recv (n_k c)) = RTMQ_BUFF_SIZE ∧ iptr (k_recv (n_k c)) < RTMQ_BUFF_SIZE ∧ Z.of_nat (length (n_buf c)) = RTMQ_BUFF_SIZE ∧
  n_lim c = optr (k_recv (n_k c)) ∧
  ∃ pre post, n_buf c = pre ++ c_rest (n_abs c) ++ post ∧ optr (k_recv (n_k c)) = Z.of_nat (length pre) ∧
    iptr (k_recv (n_k c)) = Z.of_nat (length pre + length (c_rest (n_abs c))).

Definition conn_demand c : Z := demand (c_rest (n_abs c)) (c_evs (n_abs c)).
(** What is shared: there are receive queues, with messages the workers can
    serve. *)
Definition share_ok s : Prop := s_in s ≠ [] ∧ Forall (λ r, 0 ≤ r) (s_rands s) ∧ ∀ m, m ∈ concat (s_in s) → served_ok m.

Definition item_demand (it : rtmq_conn_item_t) : Z := 1 + demand [] (ci_evs it).
Definition total (zs : list Z) : Z := foldr Z.add 0 zs.

(** The thread [x]: [hs] and [ds] are the items of new connections and the messages
    that have been taken from the two queues.  The blocks of its connections, and
    those they may still ask for, have addresses below [room]; there are fewer than [lim] connections; [B0] and [R0] are the
    buffers and the references of the other threads. *)
Record core (hs ds : list ptr) x s cs (q : list rtmq_conn_item_t) (sq : list mesg) (cl : list aconn) : Prop := {
  co_mem : ∃ M rss sps, mrep (t_mem x) M ∧ ctx_rep (t_ctx x) rss (view s (new_conn (ConnItem 0 0 [] [])) []) ∧
    minv (bufs cs) M (concat rss ++ out_refs (ds ++ sps) sq ++ concat (conn_refs <$> cs) ++ R0) ∧
    (∃ k, ring_rep k (t_sendq x) sps) ∧ length (ds ++ sps) = length sq;
  co_bases : bases cs;
  co_rsvr : t_rsvr x = Rsvr (s_id s) (s_recv s) (s_drop s);
  co_conns : l2rep_at (t_conns x) ((λ c, (n_node c, n_sck c)) <$> cs);
  co_scks : hp (t_scks x) ((λ c, (n_sck c, n_k c)) <$> cs);
  co_core : Forall conn_core cs;
  co_connq : ∃ size B F ps, Forall (λ p, NULL < p) B ∧ queue_rep size B (t_connq x) (AQueue F ps hs) ∧
    Forall2 (λ p it, t_items x !! p = Some it) (hs ++ ps) q;
  co_new : Forall (λ it, fd_ok (ci_fd it) = true ∧ stream_ok [] (ci_evs it)) q;
  co_sendq : Forall sendable sq;
  co_closed : t_closed x = (λ a : aconn, (c_fd a, c_sent a)) <$> cl;
  co_max : 0 < t_sendq_max x < 2 ^ 30;
  co_cmd : fd_ok (t_cmd_fd x) = true;
  co_in : share_ok s;
  co_len : Z.of_nat (length cs + length q) < lim ≤ 2 ^ 31;
  co_room : fresh (mblk (t_mem x)) + total (conn_demand <$> cs) + total (item_demand <$> q) < room ≤ ADDR_MAX;
}.

(** *** Buffers *)

#[export] Instance bases_perm : Proper ((≡ₚ) ==> iff) bases.
Proof. intros cs cs' Hp. unfold bases. by rewrite Hp. Qed.

Lemma bufs_perm cs cs' : cs ≡ₚ cs' → bases cs → bufs cs = bufs cs'.
Proof.
  intros Hp [Hn _]. unfold bufs. f_equal. apply list_to_map_proper; [|by rewrite Hp].
  by rewrite <-list_fmap_compose.
Qed.

Lemma bufs_none cs b : bufs cs !! b = None ↔ b ∉ n_base <$> cs ∧ B0 !! b = None.
Proof.
  unfold bufs. rewrite lookup_union_None, <-not_elem_of_list_to_map. by rewrite <-list_fmap_compose.
Qed.

Lemma bases_cons c cs : bases (c :: cs) ↔ bases cs ∧ bufs cs !! n_base c = None.
Proof. unfold bases. rewrite bufs_none. cbn [fmap list_fmap]. rewrite NoDup_cons, Forall_cons. tauto. Qed.

Lemma bufs_cons c cs : bufs (c :: cs) = <[n_base c := (n_buf c, n_lim c)]> (bufs cs).
Proof. unfold bufs. cbn [fmap list_fmap]. by rewrite list_to_map_cons, insert_union_l. Qed.

Lemma bufs_mid cs1 c cs2 : bases (cs1 ++ c :: cs2) →
  bufs (cs1 ++ c :: cs2) = <[n_base c := (n_buf c, n_lim c)]> (bufs (cs1 ++ cs2)) ∧
  bufs (cs1 ++ cs2) !! n_base c = None ∧ bases (cs1 ++ cs2).
Proof.
  intros Hn. pose proof (Permutation_middle cs1 cs2 c) as Hp. rewrite <-(bufs_perm _ _ Hp) by (by rewrite Hp).
  rewrite <-Hp, bases_cons in Hn. rewrite bufs_cons. tauto.
Qed.

Lemma bufs_put cs1 c cs2 : bases (cs1 ++ cs2) → bufs (cs1 ++ cs2) !! n_base c = None →
  bases (cs1 ++ c :: cs2) ∧ bufs (cs1 ++ c :: cs2) = <[n_base c := (n_buf c, n_lim c)]> (bufs (cs1 ++ cs2)).
Proof.
  intros Hn Hc. assert (bases (cs1 ++ c :: cs2)) as Hn' by (by rewrite <-Permutation_middle, bases_cons).
  split; [done|]. by apply bufs_mid.
Qed.

(** A connection whose buffer is the same. *)
Lemma bases_same cs1 c c' cs2 : n_base c' = n_base c → bases (cs1 ++ c :: cs2) → bases (cs1 ++ c' :: cs2).
Proof. intros Hb. unfold bases. rewrite !fmap_app. cbn [fmap list_fmap]. by rewrite Hb. Qed.

Lemma bufs_same cs1 c c' cs2 : n_base c' = n_base c → n_buf c' = n_buf c → n_lim c' = n_lim c →
  bufs (cs1 ++ c' :: cs2) = bufs (cs1 ++ c :: cs2).
Proof. intros Hb Hf Hl. unfold bufs. rewrite !fmap_app. cbn [fmap list_fmap]. by rewrite Hb, Hf, Hl. Qed.
End Rel.

(** *** Blocks of which a connection is the only owner *)

Section Sole.
Implicit Types (B : bmap) (M F : mmap) (refs R : list href).

Definition cells_of refs : cells_t := (λ r, (r_blk r, (r_img r, 1))) <$> refs.
Definition sole (r : href) : Prop := r_off r = 0 ∧ r_sole r = true.

Lemma minv_own B F refs R : Forall sole refs → minv B F R → NoDup (cells_of refs).*1 →
  Forall (λ p, F !! p = None) (cells_of refs).*1 → minv B (own (cells_of refs) F) (refs ++ R).
Proof.
  intros Hs Hi. induction Hs as [|[p o i b] refs [Ho Hb] Hs IH]; intros Hn HF; cbn [cells_of fmap list_fmap app] in *.
  - unfold own. by rewrite left_id_L by apply _.
  - cbn [r_off r_sole r_blk r_img fst] in *. subst. apply NoDup_cons in Hn as [Hp Hn]. apply Forall_cons in HF as [HFp HF].
    rewrite <-own_insert. apply minv_new; [by apply IH|]. apply lookup_union_None. split; [|done].
    by apply not_elem_of_list_to_map_1.
Qed.

Lemma minv_unown B refs R : ∀ M, Forall sole refs → minv B M (refs ++ R) →
  ∃ F, M = own (cells_of refs) F ∧ NoDup (cells_of refs).*1 ∧ Forall (λ p, F !! p = None) (cells_of refs).*1 ∧ minv B F R.
Proof.
  induction refs as [|[p o i b] refs IH]; intros M Hs Hi; cbn [cells_of fmap list_fmap app] in *.
  - exists M. split_and!; [|constructor|constructor|done]. unfold own. by rewrite left_id_L by apply _.
  - apply Forall_cons in Hs as [[Ho Hb] Hs]. cbn [r_off r_sole r_blk r_img fst] in *. subst.
    pose proof (minv_sole Hi _ ltac:(left) eq_refl) as (Hm & _ & _). cbn [r_blk r_img] in Hm.
    apply (minv_drop _ _ _ _ i 1) in Hi; [|done]. unfold given_back in Hi. change (1 =? 1) with true in Hi. cbn [r_blk] in Hi.
    destruct (IH _ Hs Hi) as (F & HM & Hn & HF & HR). fold (cells_of refs) in *.
    assert (p ∉ (cells_of refs).*1 ∧ F !! p = None) as [Hp HFp] by (apply sown_fresh; by rewrite <-HM, lookup_delete_eq).
    exists F. split_and!; [|by constructor|by constructor|done]. by rewrite <-own_insert, <-HM, insert_delete_id.
Qed.

Lemma vrefs_cells V : cells_of (vrefs V) = vcells V.
Proof. unfold cells_of, vrefs, vcells. by rewrite <-list_fmap_compose. Qed.

Lemma out_refs_zip ps out : out_refs ps out = (λ x : ptr * mesg, Href x.1 0 (host x.2) true) <$> zip ps out.
Proof. revert out. induction ps as [|p ps IH]; intros [|m out]; cbn; [done..|]. by rewrite <-IH. Qed.

Lemma out_refs_cells ps out : cells_of (out_refs ps out) = wcells (zip ps out).
Proof. rewrite out_refs_zip. unfold cells_of, wcells. by rewrite <-list_fmap_compose. Qed.

Lemma sole_vrefs V : Forall sole (vrefs V).
Proof. by apply Forall_fmap, Forall_true. Qed.
Lemma sole_out ps out : Forall sole (out_refs ps out).
Proof. rewrite out_refs_zip. by apply Forall_fmap, Forall_true. Qed.
End Sole.
