(* ===== verification/RtmqConnEnd.v ===== *)
(** The end of a connection of a receive thread: its memory is given back, it
    leaves the list and the map of the nodes, and what its socket took is what
    the abstract connection sent.  The walks over the list are built on it. *)
From stdpp Require Import fin_maps gmap.
From S2P Require Import Prelude Heap Table HashTab TabRel TreeRel List2 Iovec Ring RingSpec Slot QueueSpec Mref Bytes Trees RtmqRecv RtmqMem RtmqRecvSpec RtmqSend RtmqSendSpec RtmqComm RtmqCommSpec RtmqRsvr RtmqRsvrSpec RtmqExp RtmqConn RtmqAbs RtmqConnRep.
Open Scope Z_scope.

Section Basics.
Context {T : Type → Type} `{TreeLaws T} {room lim : Z} {B0 : bmap} {R0 : list href}.
Abbreviation core := (core (room := room) (lim := lim) (B0 := B0) (R0 := R0)).
Abbreviation bufs := (bufs (B0 := B0)).
Abbreviation bases := (bases (B0 := B0)).
Implicit Types (c : conn T) (cs : list (conn T)) (x : thr_st T) (s : ashare).

Lemma set_conns_id x : set_conns (t_conns x) (t_scks x) x = x.
Proof. by destruct x. Qed.

Lemma wp_rd_sck x p k C (Q : sck_t T → thr_st T → mem → Prop) ms :
  hp (t_scks x) C → (p, k) ∈ C → Q k x ms → wp (rd_sck p) Q x ms.
Proof.
  intros Hh Hp HQ. unfold rd_sck, on_scks. apply wp_zoom. unfold hrd. apply wp_bind. unfold get, wp at 1.
  apply (hp_get _ _ Hh) in Hp. rewrite Hp. cbn [deref]. apply wp_ret. by rewrite set_conns_id.
Qed.

Lemma wp_wr_sck x p k f C1 C2 (Q : unit → thr_st T → mem → Prop) ms :
  hp (t_scks x) (C1 ++ (p, k) :: C2) →
  (∀ h, hp h (C1 ++ (p, f k) :: C2) → Q tt (set_conns (t_conns x) h x) ms) → wp (wr_sck p f) Q x ms.
Proof.
  intros Hh HQ. unfold wr_sck, on_scks. apply wp_zoom. rewrite <-Permutation_middle in Hh.
  eapply wp_hwr; [exact Hh|]. intros h Hh'. apply HQ. by rewrite <-Permutation_middle.
Qed.

Lemma wp_rd_node x ps1 p d ps2 (Q : list2_node_t ptr → thr_st T → mem → Prop) ms :
  l2rep_at (t_conns x) (ps1 ++ (p, d) :: ps2) →
  Q (Node2 d (last2 (ps2 ++ ps1) p) (first2 (ps2 ++ ps1) p)) x ms → wp (rd_node p) Q x ms.
Proof.
  intros Hl HQ. unfold rd_node, on_conns. apply wp_zoom. eapply wp_lrd2_at; [apply (l2_hp _ _ Hl)|]. by rewrite set_conns_id.
Qed.

(** References are given back one by one. *)
Lemma wp_dealloc_refs B R refs : ∀ M st (Q : unit → mref_st htree → mem → Prop) ms,
  mrep st M → minv B M (refs ++ R) →
  (∀ st' M', mrep st' M' → minv B M' R → fresh (mblk st') = fresh (mblk st) → Q tt st' ms) →
  wp (for_each mref_dealloc (r_blk <$> refs)) Q st ms.
Proof.
  induction refs as [|r refs IH]; intros M st Q ms Hm Hi HQ; cbn [fmap list_fmap for_each app] in *; [apply wp_ret; by eapply HQ|].
  pose proof (mi_img _ _ _ Hi) as Hok. apply Forall_cons in Hok as [(c & n & Hr & _) _].
  apply wp_bind. unfold mref_dealloc at 1. apply wp_bind. eapply wp_mref_dec; [exact Hm|exact Hr|]. intros st1 Hm1 Hf1. apply wp_ret.
  eapply IH; [exact Hm1|by eapply minv_drop|]. intros st2 M2 Hm2 Hi2 Hf2. eapply HQ; [exact Hm2|exact Hi2|congruence].
Qed.

Lemma run_items_blocks (V : list sending) :
  for_each (run_item (mref_dealloc_cb (T := htree))) (send_item <$> V).*2 = for_each mref_dealloc (r_blk <$> vrefs V).
Proof. induction V as [|v V IH]; [done|]. cbn [fmap list_fmap for_each vrefs]. cbn [vrefs fmap list_fmap] in IH. by rewrite IH. Qed.

Lemma out_blocks ps out : length ps = length out → r_blk <$> out_refs ps out = ps.
Proof.
  rewrite out_refs_zip, <-list_fmap_compose. revert out. induction ps as [|p ps IH]; intros [|m out]; cbn; try done.
  intros [= Hl]. f_equal. by apply IH.
Qed.

Lemma bufs_delete cs1 c cs2 : bases (cs1 ++ c :: cs2) → delete (n_base c) (bufs (cs1 ++ c :: cs2)) = bufs (cs1 ++ cs2).
Proof. intros Hn. destruct (bufs_mid _ _ _ Hn) as (-> & Hc & _). by rewrite delete_insert_id. Qed.

Lemma total_app zs1 zs2 : total (zs1 ++ zs2) = total zs1 + total zs2.
Proof. unfold total. induction zs1; cbn [foldr app]; lia. Qed.

Lemma demand_pos rest evs : 0 ≤ demand rest evs.
Proof. unfold demand. lia. Qed.

Lemma total_mid cs1 c cs2 : total (conn_demand <$> cs1 ++ c :: cs2) = conn_demand c + total (conn_demand <$> cs1 ++ cs2).
Proof. rewrite !fmap_app, !total_app. cbn [fmap list_fmap total foldr]. unfold total. lia. Qed.

(** *** The memory of a connection *)

Lemma wp_on_ttabs {A} (m : SM (comm_st T) A) x (Q : A → thr_st T → mem → Prop) ms :
  wp m (λ r t ms', Q r (set_core (t_mem x) (set_tabs t (t_ctx x)) (t_rsvr x) (t_err x) x) ms') (tabs (t_ctx x)) ms →
  wp (on_ttabs m) Q x ms.
Proof. intros Hm. unfold on_ttabs, on_tctx, on_tabs. apply wp_zoom, wp_zoom. exact Hm. Qed.

Lemma wp_sub_free x k t (Q : unit → thr_st T → mem → Prop) ms :
  k_subs k = Some t → tr_wf t [] → Q tt x ms → wp (rtmq_rsvr_sck_sub_free k) Q x ms.
Proof.
  intros Hk Ht HQ. unfold rtmq_rsvr_sck_sub_free. rewrite Hk. apply wp_on_ttabs.
  destruct (law_destroy t [] (rtmq_rsvr_sck_sub_item_free (T := T) (SubKey (k_nid k) (k_gid k) (k_sid k))) Ht) as (ds & Hds & Hd); [done|].
  apply Permutation_nil_r in Hds as ->. apply Hd. apply wp_ret. by destruct x as [? []].
Qed.

(** What remains when the socket is gone. *)
Definition ended st h (fd : Z) (out : list Z) x : thr_st T :=
  set_conns (t_conns x) h (set_world (t_ctm x) (t_pipe x) (t_clock x) (t_closed x ++ [(fd, out)])
    (set_core st (t_ctx x) (t_rsvr x) (t_err x) x)).

Lemma wp_sck_free x c C B M R (Q : unit → thr_st T → mem → Prop) ms :
  hp (t_scks x) ((n_sck c, n_k c) :: C) → mrep (t_mem x) M → conn_core c →
  B !! n_base c = Some (n_buf c, n_lim c) → minv B M (conn_refs c ++ R) →
  (∀ st M' h, mrep st M' → minv (delete (n_base c) B) M' R → fresh (mblk st) = fresh (mblk (t_mem x)) → hp h C →
     Q tt (ended st h (k_fd (n_k c)) (k_out (n_k c)) x) ms) →
  wp (rtmq_rsvr_sck_free (n_sck c)) Q x ms.
Proof.
  intros Hh Hm Hc Hb Hi HQ. unfold rtmq_rsvr_sck_free.
  destruct (hp_pos _ _ (n_sck c) Hh ltac:(left)) as [Hpos _]. rewrite (proj2 (Z.eqb_neq _ NULL)) by (unfold NULL in *; lia).
  apply wp_bind. eapply wp_rd_sck; [exact Hh|left|]. destruct (minv_buf_in Hi _ _ _ Hb) as (n & Hn & _).
  apply wp_bind. unfold on_tmem. apply wp_zoom. eapply wp_mref_dec; [exact Hm|exact Hn|]. intros st1 Hm1 Hf1.
  pose proof (minv_drop_buf Hi _ _ _ _ Hb Hn) as Hi1. unfold given_back in Hi1. unfold conn_refs in Hi1. rewrite <-app_assoc in Hi1.
  destruct (cc_subs _ Hc) as (t & Ht & Hwf). apply wp_bind. eapply wp_sub_free; [exact Ht|exact Hwf|].
  destruct (cc_mesgs _ Hc) as (l & Hl & (cells & Hrep & Hps)). rewrite Hl. apply wp_bind. wp_step. wp_step. apply wp_bind, wp_run_on.
  eapply wp_destroy2; [exact Hrep|]. rewrite Hps. cbn [t_mem set_core].
  rewrite <-(out_blocks (n_ps c) (c_out (n_abs c)) (cc_ps _ Hc)).
  eapply (wp_dealloc_refs _ (vrefs (n_vec c) ++ R)); [exact Hm1|eapply minv_perm; [|exact Hi1]; solve_Permutation|].
  intros st2 M2 Hm2 Hi2 Hf2 l' Hl'. wp_step. wp_step. wp_step. wp_step. apply wp_run_on.
  eapply (wp_wiov_destroy mref_dealloc_cb); [apply Hc|by apply Forall_fmap, Forall_true|]. rewrite run_items_blocks. cbn [t_mem set_core snd].
  eapply (wp_dealloc_refs _ R); [exact Hm2|exact Hi2|]. intros st3 M3 Hm3 Hi3 Hf3 w'. wp_step. wp_step. wp_step.
  unfold close_sck. wp_step. unfold on_scks. apply wp_zoom. eapply wp_hfree; [exact Hh|]. intros h Hh'.
  apply (HQ _ _ _ Hm3 Hi3); [congruence|exact Hh'].
Qed.

Lemma nid_i32 n : n = NO_NID ∨ is_node n → is_nid (i32 n).
Proof.
  intros [->|Hn]; [change (i32 NO_NID) with (-1); unfold is_nid; lia|].
  unfold is_node in Hn. rewrite i32_small by lia. by apply node_nid.
Qed.

(** The connection leaves the list, the map and the memory. *)
Lemma wp_del_conn x s cs1 c cs2 q sq cl (Q : Z → thr_st T → mem → Prop) :
  core [] [] x s (cs1 ++ c :: cs2) q sq cl →
  (∀ r x', t_ctm x' = t_ctm x → t_clock x' = t_clock x →
     core [] [] x' (share_without (n_abs c) s) (cs1 ++ cs2) q sq (cl ++ [n_abs c]) → Q r x' []) →
  wp (rtmq_rsvr_del_conn_hdl (n_node c)) Q x [].
Proof.
  intros [(M & rss & sps & Hm & Hcx & Hi & Hsq & Hls) Hbase Hrv Hl Hk Hc Hcq Hnew Hsend Hcl Hmax Hcmd Hin Hlen Hroom] HQ.
  unfold rtmq_rsvr_del_conn_hdl. rewrite fmap_app in Hl. rewrite fmap_app in Hk. cbn [fmap list_fmap] in Hl, Hk.
  apply wp_bind. eapply wp_rd_node; [exact Hl|]. cbn [data2]. apply wp_bind. unfold on_conns. apply wp_zoom.
  eapply wp_delete2; [exact Hl|]. intros l' Hl'. apply wp_bind.
  eapply (wp_rd_sck _ _ (n_k c)); [exact Hk|set_solver|]. wp_step. wp_step. apply wp_bind.
  apply Forall_app in Hc as [Hc1 Hc]. apply Forall_cons in Hc as [Hc Hc2].
  apply wp_on_ttabs. cbn [set_conns t_ctx t_rsvr]. rewrite Hrv. cbn [rv_id].
  eapply wp_map_del; [apply (cx_tabs _ _ _ Hcx)|rewrite (cc_nid _ Hc); by apply nid_i32, Hc|]. intros t Ht.
  apply wp_bind. rewrite <-Permutation_middle in Hk. destruct (bufs_mid _ _ _ Hbase) as (Hbufs & _ & Hbase').
  eapply (wp_sck_free _ c _ (bufs (cs1 ++ c :: cs2)) M (concat rss ++ out_refs ([] ++ sps) sq ++ concat (conn_refs <$> cs1 ++ cs2) ++ R0));
    [exact Hk|exact Hm|exact Hc|by rewrite Hbufs, lookup_insert_eq| |].
  { eapply minv_perm; [|exact Hi]. rewrite !fmap_app, !concat_app. cbn [fmap list_fmap concat]. solve_Permutation. }
  intros st M' h Hm' Hi' Hf' Hh'. rewrite bufs_delete in Hi' by done. wp_step. wp_step. wp_step.
  apply HQ; [done|done|]. rewrite (cc_nid _ Hc) in Ht. constructor; cbn [ended set_connections set_conns set_world set_core t_mem t_ctx t_sendq t_rsvr t_conns t_scks t_connq t_items t_closed t_sendq_max].
  - exists M', rss, sps. split_and!; [exact Hm'| |exact Hi'|done|done]. destruct Hcx as [? ? ? ? ? ? ? ?]. constructor; done.
  - done.
  - done.
  - by rewrite fmap_app.
  - by rewrite fmap_app.
  - apply Forall_app. done.
  - done.
  - done.
  - done.
  - rewrite Hcl, fmap_app, (cc_fd _ Hc), (cc_sent _ Hc). done.
  - done.
  - done.
  - done.
  - rewrite length_app in *. cbn [length] in *. lia.
  - rewrite total_mid in Hroom. pose proof (demand_pos (c_rest (n_abs c)) (c_evs (n_abs c))). unfold conn_demand at 1 in Hroom. cbn [set_core t_mem set_conns] in Hf'. lia.
Qed.
End Basics.

(** *** Walks *)

Definition srv {T} s (cs : list (conn T)) q sq cl : aserver := ASrv s (n_abs <$> cs) q sq cl.
Definition nodes_of {T} (cs : list (conn T)) : list (ptr * ptr) := (λ c, (n_node c, n_sck c)) <$> cs.

Section Walk.
Context {T : Type → Type} `{TreeLaws T} {room lim : Z} {B0 : bmap} {R0 : list href}.
Abbreviation core := (core (room := room) (lim := lim) (B0 := B0) (R0 := R0)).
Abbreviation bufs := (bufs (B0 := B0)).
Abbreviation bases := (bases (B0 := B0)).
Context (P : conn T → Prop) (now : Z) (clk : list Z) (q : list rtmq_conn_item_t) (sq : list mesg).
Implicit Types (c : conn T) (cs : list (conn T)) (x : thr_st T) (s : ashare).

(** What the work on the connection [c] leaves: the connection goes on, or it may
    be closed. *)
Definition body_ok (body : ptr → SM (thr_st T) fate) : Prop := ∀ x s cs1 c cs2 cl,
  core [] [] x s (cs1 ++ c :: cs2) q sq cl → conn_live c → P c → t_ctm x = now → t_clock x = clk →
  wp (body (n_sck c)) (λ f x' ms', ms' = [] ∧ t_ctm x' = now ∧ t_clock x' = clk ∧ ∃ s' c',
    core [] [] x' s' (cs1 ++ c' :: cs2) q sq cl ∧ n_node c' = n_node c ∧
    match f with
    | Keep => conn_live c' ∧ P c' ∧ rtc astep (srv s (cs1 ++ c :: cs2) q sq cl) (srv s' (cs1 ++ c' :: cs2) q sq cl)
    | _ => rtc astep (srv s (cs1 ++ c :: cs2) q sq cl) (srv (share_without (n_abs c') s') (cs1 ++ cs2) q sq (cl ++ [n_abs c']))
    end) x [].

(** The walk from the state [A] has come to the connections [cs]. *)
Definition walked (A : aserver) cs x : Prop := t_ctm x = now ∧ t_clock x = clk ∧ ∃ s cl,
  core [] [] x s cs q sq cl ∧ Forall conn_live cs ∧ Forall P cs ∧ rtc astep A (srv s cs q sq cl).

Lemma core_nodes hs ds x s cs q' sq' cl : core hs ds x s cs q' sq' cl → l2rep_at (t_conns x) (nodes_of cs).
Proof. intros Hc. apply (co_conns _ _ _ _ _ _ _ _ Hc). Qed.

Lemma nodes_of_app cs1 c cs2 : nodes_of (cs1 ++ c :: cs2) = nodes_of cs1 ++ (n_node c, n_sck c) :: nodes_of cs2.
Proof. unfold nodes_of. by rewrite fmap_app. Qed.

Lemma Forall_mid {A} (R : A → Prop) l1 y l2 : Forall R (l1 ++ y :: l2) ↔ Forall R (l1 ++ l2) ∧ R y.
Proof. rewrite !Forall_app, Forall_cons. tauto. Qed.

Lemma wp_walk_step A body (Hbody : body_ok body) x cs c todo :
  walked A (cs ++ c :: todo) x →
  wp (walk_step body (last2 (nodes_of (c :: todo)) NULL) (n_node c)) (λ r x' ms', ms' = [] ∧
    match r with
    | inr _ => ∃ cs', walked A cs' x'
    | inl p => ∃ cs' d todo', todo = d :: todo' ∧ p = n_node d ∧ walked A (cs' ++ d :: todo') x'
    end) x [].
Proof.
  intros (Hct & Hck & s & cl & Hx & [Hlive Hlc]%Forall_mid & [HP HPc]%Forall_mid & HA). unfold walk_step.
  pose proof (core_nodes _ _ _ _ _ _ _ _ Hx) as Hl. rewrite nodes_of_app in Hl.
  pose proof (rep2_pos _ _ (n_node c) Hl ltac:(rewrite fmap_app; set_solver)) as Hpos.
  rewrite (proj2 (Z.eqb_neq _ NULL)) by (unfold NULL in *; lia).
  apply wp_bind. eapply wp_rd_node; [exact Hl|]. cbn [data2]. apply wp_bind.
  eapply wp_mono; [by apply (Hbody x s cs c todo cl)|]. intros f x' ms' (-> & Hct' & Hck' & s' & c' & Hx' & Hnode & Hf). cbn beta.
  pose proof (core_nodes _ _ _ _ _ _ _ _ Hx') as Hl'. rewrite nodes_of_app, Hnode in Hl'.
  pose proof (tail_eq _ _ _ _ _ Hl') as Htail. rewrite last2_app in Htail.
  assert (∀ y, last2 ((n_node c, y) :: nodes_of todo) (last2 (nodes_of cs) NULL) = last2 (nodes_of (c :: todo)) NULL) as Hlast.
  { intros y. cbn [nodes_of fmap list_fmap]. by rewrite !last2_cons. }
  rewrite Hlast in Htail. clear Hlast.
  replace (bool_decide (nodes_of todo = [])) with (bool_decide (todo = [])) in Htail by (by destruct todo).
  assert (∀ (K : SM (thr_st T) (ptr + Z)) R x1, (∀ x2, walked A (cs ++ todo) x2 → wp K R x2 []) →
    x1 = x' → match f with Keep => False | _ => True end → wp (rtmq_rsvr_del_conn_hdl (n_node c);; K) R x1 []) as Hdel.
  { intros K R x1 HK -> Hnk. rewrite <-Hnode. apply wp_bind. eapply wp_del_conn; [exact Hx'|]. intros r x2 Hc2 Hk2 Hx2.
    apply HK. split; [congruence|]. split; [congruence|]. exists (share_without (n_abs c') s'), (cl ++ [n_abs c']).
    split_and!; [exact Hx2|done|done|]. etransitivity; [exact HA|]. by destruct f. }
  assert (∀ K : list2_node_t ptr → SM (thr_st T) (ptr + Z), ∀ R, todo ≠ [] →
    (∀ d todo' n, todo = d :: todo' → next2 n = n_node d → wp (K n) R x' []) →
    wp (n ← rd_node (n_node c); K n) R x' []) as Hnext.
  { intros K R Ht HK. apply wp_bind. eapply wp_rd_node; [exact Hl'|]. destruct todo as [|d todo']; [done|]. by apply (HK d todo'). }
  rewrite Htail. destruct f.
  - destruct Hf as (Hlc' & HPc' & Hst).
    assert (walked A (cs ++ c' :: todo) x') as Hw.
    { split; [done|]. split; [done|]. exists s', cl. rewrite !Forall_mid. split_and!; [exact Hx'|done|done|done|done|]. by etransitivity. }
    destruct (decide (todo = [])) as [Ht|Ht]; [rewrite bool_decide_true by done|rewrite bool_decide_false by done].
    + apply wp_ret. split; [done|]. by exists (cs ++ c' :: todo).
    + apply Hnext; [done|]. intros d todo' n Hd Hn. apply wp_ret. split; [done|]. exists (cs ++ [c']), d, todo'.
      split; [done|]. split; [done|]. rewrite <-app_assoc. by rewrite <-Hd.
  - destruct (decide (todo = [])) as [Ht|Ht]; [rewrite bool_decide_true by done|rewrite bool_decide_false by done].
    + apply (Hdel (mret (inr RTMQ_OK))); [|done|done]. intros x2 Hw. apply wp_ret. split; [done|]. by exists (cs ++ todo).
    + apply Hnext; [done|]. intros d todo' n Hd Hn. apply (Hdel (mret (inl (next2 n)))); [|done|done].
      intros x2 Hw. apply wp_ret. split; [done|]. exists cs, d, todo'. rewrite Hd in Hw. done.
  - apply (Hdel (mret (inr RTMQ_ERR))); [|done|done]. intros x2 Hw. apply wp_ret. split; [done|]. by exists (cs ++ todo).
Qed.

Lemma wp_walk_loop A body (Hbody : body_ok body) todo : ∀ n x cs c,
  walked A (cs ++ c :: todo) x → (length todo < n)%nat →
  wp (loop n (walk_step body (last2 (nodes_of (c :: todo)) NULL)) (n_node c)) (λ _ x' ms', ms' = [] ∧ ∃ cs', walked A cs' x') x [].
Proof.
  induction todo as [|d todo IH]; intros n x cs c Hw Hn; (destruct n as [|n]; [lia|]); apply wp_loop_step;
    (eapply wp_mono; [by apply (wp_walk_step A body Hbody _ _ _ _ Hw)|]); intros [p|r] x' ms' [-> Hr]; [|done| |done];
    destruct Hr as (cs' & d' & todo' & Hd & -> & Hw'); [done|]. injection Hd as -> ->.
  apply (IH n x' cs' d' Hw'). cbn in Hn. lia.
Qed.

(** A walk leaves the thread with the connections that go on. *)
Lemma wp_conn_walk A body (Hbody : body_ok body) x cs : walked A cs x →
  wp (walk body) (λ _ x' ms', ms' = [] ∧ ∃ cs', walked A cs' x') x [].
Proof.
  intros Hw. unfold walk. wp_step. wp_step. pose proof Hw as (_ & _ & s & cl & Hx & _).
  pose proof (core_nodes _ _ _ _ _ _ _ _ Hx) as Hl. rewrite (rep2_fuel _ _ Hl), (head2_null _ _ Hl).
  destruct cs as [|c cs]; cbn [nodes_of fmap list_fmap].
  - rewrite bool_decide_true by done. cbn [negb]. apply wp_bind, wp_ret. rewrite (l2_head _ _ Hl). apply wp_loop_step. unfold walk_step.
    cbn [nodes_of fmap list_fmap first2]. change (NULL =? NULL) with true. apply wp_ret. split; [done|]. by exists [].
  - rewrite bool_decide_false by done. cbn [negb]. rewrite (l2_head _ _ Hl). cbn [nodes_of fmap list_fmap first2]. apply wp_bind, wp_bind.
    eapply (wp_rd_node _ []); [exact Hl|]. apply wp_ret. cbn [prev2]. rewrite app_nil_r, <-(last2_cons _ (n_sck c) _ NULL).
    apply (wp_walk_loop A body Hbody cs _ _ [] c); [exact Hw|]. cbn. rewrite length_fmap. lia.
Qed.
End Walk.
