(* ===== verification/RtmqConnBody.v ===== *)
(** What a receive thread does on one connection of a walk: it reads what the peer
    sends and serves it, writes what waits for the peer, or finds it silent. *)
From stdpp Require Import fin_maps gmap.
From S2P Require Import Prelude Heap Table HashTab TabRel TreeRel List2 Iovec Ring RingSpec Slot QueueSpec Mref Bytes Trees RtmqRecv RtmqMem RtmqRecvSpec RtmqSend RtmqSendSpec RtmqComm RtmqCommSpec RtmqRsvr RtmqRsvrSpec RtmqExp RtmqConn RtmqAbs RtmqConnRep RtmqConnEnd.
Open Scope Z_scope.

Section Body.
Context {T : Type → Type} `{TreeLaws T} {room lim : Z} {B0 : bmap} {R0 : list href}.
Abbreviation core := (core (room := room) (lim := lim) (B0 := B0) (R0 := R0)).
Abbreviation bufs := (bufs (B0 := B0)).
Abbreviation bases := (bases (B0 := B0)).
Implicit Types (c : conn T) (cs : list (conn T)) (x : thr_st T) (s : ashare).

(** What the work on a connection does not touch. *)
Definition same_queues x x' : Prop :=
  t_conns x' = t_conns x ∧ t_connq x' = t_connq x ∧ t_items x' = t_items x ∧ t_sendq_max x' = t_sendq_max x ∧
  t_closed x' = t_closed x ∧ t_cmd_fd x' = t_cmd_fd x.

Abbreviation scks_of := (fmap (λ c, (n_sck c, n_k c))).

(** The memory of the thread. *)
Definition core_mem (ds : list ptr) x s cs sq : Prop := ∃ M rss sps,
  mrep (t_mem x) M ∧ ctx_rep (t_ctx x) rss (view s (new_conn (ConnItem 0 0 [] [])) []) ∧
  minv (bufs cs) M (concat rss ++ out_refs (ds ++ sps) sq ++ concat (conn_refs <$> cs) ++ R0) ∧
  (∃ k, ring_rep k (t_sendq x) sps) ∧ length (ds ++ sps) = length sq.

(** The connection [c] becomes [c']. *)
Lemma core_put hs ds x s cs1 c cs2 q sq cl x' s' c' :
  core hs ds x s (cs1 ++ c :: cs2) q sq cl → same_queues x x' → n_node c' = n_node c → n_sck c' = n_sck c →
  hp (t_scks x') (scks_of cs1 ++ (n_sck c, n_k c') :: scks_of cs2) → conn_core c' →
  core_mem ds x' s' (cs1 ++ c' :: cs2) sq → bases (cs1 ++ c' :: cs2) →
  t_rsvr x' = Rsvr (s_id s') (s_recv s') (s_drop s') → share_ok s' →
  fresh (mblk (t_mem x')) + conn_demand c' ≤ fresh (mblk (t_mem x)) + conn_demand c →
  core hs ds x' s' (cs1 ++ c' :: cs2) q sq cl.
Proof.
  intros [_ Hbase Hrv Hl Hk Hc Hcq Hnew Hsend Hcl Hmax Hcmd Hin Hlen Hroom] (Q1 & Q2 & Q3 & Q4 & Q5 & Q6) Hnode Hsck Hk' Hc' Hmem Hbase' Hrv' Hin' Hroom'.
  rewrite <-Q1, fmap_app in Hl. rewrite <-Q2, <-Q3 in Hcq. rewrite <-Q4 in Hmax. rewrite <-Q5 in Hcl. rewrite <-Q6 in Hcmd.
  apply Forall_mid in Hc as [Hc _]. constructor; try done.
  - rewrite fmap_app. cbn [fmap list_fmap] in *. by rewrite Hnode, Hsck.
  - rewrite fmap_app. cbn [fmap list_fmap] in *. by rewrite Hsck.
  - by apply Forall_mid.
  - rewrite !length_app in *. exact Hlen.
  - rewrite total_mid in *. lia.
Qed.

Lemma core_hp hs ds x s cs1 c cs2 q sq cl : core hs ds x s (cs1 ++ c :: cs2) q sq cl →
  hp (t_scks x) (scks_of cs1 ++ (n_sck c, n_k c) :: scks_of cs2).
Proof. intros Hx. pose proof (co_scks _ _ _ _ _ _ _ _ Hx) as Hk. by rewrite fmap_app in Hk. Qed.

Lemma core_conn hs ds x s cs1 c cs2 q sq cl : core hs ds x s (cs1 ++ c :: cs2) q sq cl → conn_core c.
Proof. intros Hx. pose proof (co_core _ _ _ _ _ _ _ _ Hx) as Hc. by apply Forall_mid in Hc as [_ Hc]. Qed.

(** The times of the socket. *)
Definition with_k k c : conn T := Conn (n_node c) (n_sck c) k (n_buf c) (n_lim c) (n_vec c) (n_ps c) (n_abs c).

Lemma core_times hs ds x s cs1 c cs2 q sq cl h rd wr : core hs ds x s (cs1 ++ c :: cs2) q sq cl →
  hp h (scks_of cs1 ++ (n_sck c, set_times rd wr (n_k c)) :: scks_of cs2) →
  core hs ds (set_conns (t_conns x) h x) s (cs1 ++ with_k (set_times rd wr (n_k c)) c :: cs2) q sq cl.
Proof.
  intros Hx Hh. pose proof Hx as [(M & rss & sps & Hm & Hcx & Hi & Hsq & Hls) Hbase Hrv _ _ Hc _ _ _ _ _ _ Hin _ _].
  eapply core_put; [exact Hx|done|done|done|exact Hh| | | |exact Hrv|exact Hin|done].
  - by destruct (core_conn _ _ _ _ _ _ _ _ _ _ Hx).
  - exists M, rss, sps. split_and!; [done|done| |done|done]. rewrite (bufs_same cs1 c) by done. rewrite !fmap_app in *. exact Hi.
  - by apply (bases_same cs1 c).
Qed.

Definition conn_done x y h : thr_st T :=
  set_conns (t_conns x) h (set_core (cmem y) (h_ctx (chdl y)) (h_rsvr (chdl y)) (cerr y) x).

Lemma wp_with_conn {A} x p k C1 C2 subs mesgs (m : SM _ A) (Q : A → thr_st T → mem → Prop) ms :
  hp (t_scks x) (C1 ++ (p, k) :: C2) → k_subs k = Some subs → k_mesgs k = Some mesgs →
  wp m (λ r y ms', ∀ h, hp h (C1 ++ (p, sck_of y k) :: C2) → Q r (conn_done x y h) ms') (conn_of x k subs mesgs) ms →
  wp (with_conn p m) Q x ms.
Proof.
  intros Hh Hs Hl Hm. unfold with_conn. apply wp_bind. eapply (wp_rd_sck x p k); [exact Hh|set_solver|].
  rewrite Hs, Hl. cbn [deref]. do 3 wp_step. do 2 wp_step. apply wp_bind, wp_run_on. eapply wp_mono; [exact Hm|].
  intros r y ms' HQ. cbn beta zeta. cbn [fst snd]. do 2 wp_step. apply wp_bind. eapply wp_wr_sck; [exact Hh|]. intros h Hh'. apply wp_ret. by apply HQ.
Qed.

(** *** Reading *)

Definition others s cs1 c cs2 sps sq : list href :=
  vrefs (n_vec c) ++ out_refs sps sq ++ concat (conn_refs <$> cs1 ++ cs2) ++ R0.

(** The connection as its handlers see it. *)
Lemma core_rinv ds x s cs1 c cs2 sq subs mesgs :
  core_mem ds x s (cs1 ++ c :: cs2) sq → bases (cs1 ++ c :: cs2) → t_rsvr x = Rsvr (s_id s) (s_recv s) (s_drop s) →
  conn_core c → conn_live c → k_subs (n_k c) = Some subs → k_mesgs (n_k c) = Some mesgs → ∃ sps,
  (∃ k, ring_rep k (t_sendq x) sps) ∧ length (ds ++ sps) = length sq ∧
  rinv (bufs (cs1 ++ cs2)) (conn_of x (n_k c) subs mesgs) (view s (n_abs c) (others s cs1 c cs2 (ds ++ sps) sq)) (c_rest (n_abs c)).
Proof.
  intros (M & rss & sps & Hm & Hcx & Hi & Hsq & Hls) Hbase Hrv Hc (_ & _ & _ & He & _ & Hl & Hlim & pre & post & Hb & Ho & Hip) Hs Hmg.
  exists sps. split; [done|]. split; [done|]. destruct (bufs_mid _ _ _ Hbase) as (Hbufs & HB & _).
  rewrite Hbufs in Hi. destruct (minv_buf_in Hi (n_base c) (n_buf c) (n_lim c)) as (n & Hn & _); [by rewrite lookup_insert_eq|].
  eexists M, _, pre, post, n. cbn [conn_of cmem crecv chdl]. unfold n_base in *. rewrite <-Hb, <-Hlim.
  split_and!; [exact Hm|exact Hn|by rewrite Hlim|exact Hip|exact He|exact Hl|exact HB|exact Hi|].
  destruct Hc as [Hc1 Hc2 Hc3 Hcf Hc4 _ (t & Ht & Hwf) (l & Hl' & Hrep) Hps _ _ _ _ _]. rewrite Hs in Ht. injection Ht as <-. rewrite Hmg in Hl'. injection Hl' as <-.
  constructor; cbn; try done; [by rewrite Hrv|by rewrite Hrv|by rewrite Hrv|].
  exists (n_ps c), rss. split_and!; [done|done| |by destruct Hcx].
  unfold others. rewrite !fmap_app, !concat_app. cbn [fmap list_fmap concat]. unfold conn_refs at 2. solve_Permutation.
Qed.

(** What the handlers leave, as the connection it makes. *)
Definition conn_of_st y ps a ms r evs b lm c : conn T :=
  Conn (n_node c) (n_sck c) (sck_of y (n_k c)) b lm (n_vec c) ps (conn_after a ms r evs (n_abs c)).

Lemma core_recv hs ds x s cs1 c cs2 q sq cl y h sps a ms r evs M refs b lm fr :
  core hs ds x s (cs1 ++ c :: cs2) q sq cl → (∃ k, ring_rep k (t_sendq x) sps) → length (ds ++ sps) = length sq →
  fr = others s cs1 c cs2 (ds ++ sps) sq → fine a → mrep (cmem y) M → bufs (cs1 ++ cs2) !! base (crecv y) = None →
  minv (<[base (crecv y) := (b, lm)]> (bufs (cs1 ++ cs2))) M refs → srv_rep (chdl y) refs (set_frame fr a) →
  demand r evs + fresh (mblk (cmem y)) ≤ conn_demand c + fresh (mblk (t_mem x)) →
  ∃ ps, let c' := conn_of_st y ps a ms r evs b lm c in
    (hp h (scks_of cs1 ++ (n_sck c, n_k c') :: scks_of cs2) →
    core hs ds (conn_done x y h) (share_of a) (cs1 ++ c' :: cs2) q sq cl).
Proof.
  intros Hx Hsq Hls -> (Hnid & Hout & Hin) Hm HB Hi Hs Hroom.
  destruct Hs as [Hs1 Hs2 Hs3 Hs4 Hs5 Hs6 Hs7 (ps & rss & Hps & Hlps & Hrefs & Hcx)]. exists ps. intros c' Hh.
  pose proof (co_bases _ _ _ _ _ _ _ _ Hx) as Hbase. destruct (bufs_mid _ _ _ Hbase) as (_ & _ & Hbase0).
  destruct (bufs_put cs1 c' cs2 Hbase0 HB) as [Hbase' Hbufs'].
  pose proof (core_conn _ _ _ _ _ _ _ _ _ _ Hx) as [Hc1 Hc2 Hc3 Hcf Hc4 _ _ _ _ Hc9 Hc10 Hc11 [Hc12 _] Hc13].
  eapply core_put; [exact Hx|done|done|done|exact Hh| | |exact Hbase'| |done|].
  - constructor; cbn in *; try done; [by eexists|by exists (mesg_list (h_sck (chdl y)))].
  - exists M, rss, sps. split_and!; [exact Hm| | |exact Hsq|exact Hls].
    + destruct Hcx as [? ? ? ? ? ? ? ?]. constructor; done.
    + rewrite Hbufs'. eapply minv_perm; [|exact Hi]. rewrite Hrefs. cbn [a_frame set_frame a_out]. unfold others.
      rewrite !fmap_app, !concat_app. cbn [fmap list_fmap concat]. unfold conn_refs at 3. cbn [c' conn_of_st n_vec n_ps n_abs conn_after c_out].
      solve_Permutation.
  - cbn [conn_done set_conns set_core t_rsvr share_of s_id s_recv s_drop]. cbn in Hs4, Hs5, Hs6. destruct (h_rsvr (chdl y)); cbn in *. by subst.
  - unfold conn_demand at 1. cbn [c' conn_of_st n_abs conn_after c_rest c_evs conn_done set_conns set_core t_mem]. lia.
Qed.

Lemma core_keep hs ds x s cs q sq cl : core hs ds x s cs q sq cl → core_mem ds x s cs sq.
Proof. intros Hx. exact (co_mem _ _ _ _ _ _ _ _ Hx). Qed.

Lemma total_pos zs : Forall (λ z, 0 ≤ z) zs → 0 ≤ total zs.
Proof. unfold total. induction 1; cbn [foldr]; lia. Qed.

Lemma core_room hs ds x s cs1 c cs2 q sq cl : core hs ds x s (cs1 ++ c :: cs2) q sq cl →
  fresh (mblk (t_mem x)) + conn_demand c < ADDR_MAX.
Proof.
  intros Hx. pose proof (co_room _ _ _ _ _ _ _ _ Hx) as Hr. rewrite total_mid in Hr.
  assert (0 ≤ total (conn_demand <$> cs1 ++ cs2)) by (apply total_pos, Forall_fmap, Forall_true; intros; apply demand_pos).
  assert (0 ≤ total (item_demand <$> q)); [|lia].
  apply total_pos, Forall_fmap, Forall_true. intros it. cbn. unfold item_demand. pose proof (demand_pos [] (ci_evs it)). lia.
Qed.

Lemma share_of_frame fr a : share_of (set_frame fr a) = share_of a.
Proof. done. Qed.

Lemma wp_recv_conn x s cs1 c cs2 q sq cl (Q : Z → thr_st T → mem → Prop) :
  core [] [] x s (cs1 ++ c :: cs2) q sq cl → conn_live c →
  (∀ ret x' s' c', t_ctm x' = t_ctm x → t_clock x' = t_clock x → n_node c' = n_node c → k_rdtm (n_k c') = k_rdtm (n_k c) →
     core [] [] x' s' (cs1 ++ c' :: cs2) q sq cl →
     (if ret =? 0 then conn_live c' ∧ astep (srv s (cs1 ++ c :: cs2) q sq cl) (srv s' (cs1 ++ c' :: cs2) q sq cl)
      else astep (srv s (cs1 ++ c :: cs2) q sq cl) (srv (share_without (n_abs c') s') (cs1 ++ cs2) q sq (cl ++ [n_abs c']))) →
     Q ret x' []) →
  wp (with_conn (n_sck c) rtmq_rsvr_recv_proc) Q x [].
Proof.
  intros Hx Hlive HQ. pose proof (core_conn _ _ _ _ _ _ _ _ _ _ Hx) as Hc.
  destruct (cc_subs _ Hc) as (subs & Hs & _). destruct (cc_mesgs _ Hc) as (mesgs & Hmg & _).
  destruct (core_rinv _ _ _ _ _ _ _ _ _ (core_keep _ _ _ _ _ _ _ _ Hx) (co_bases _ _ _ _ _ _ _ _ Hx) (co_rsvr _ _ _ _ _ _ _ _ Hx) Hc Hlive Hs Hmg)
    as (sps & Hsq & Hls & Hr). cbn [app] in *.
  set (fr := others s cs1 c cs2 sps sq) in *.
  destruct Hlive as (Hev & Hpart & Hstr & _ & Hip & _). destruct (stream_ok_read _ _ Hstr) as (ms & r & HD & Hr' & Hms & Hfine & Hstr').
  pose proof (demand_read _ _ _ _ HD) as Hdem. pose proof (core_room _ _ _ _ _ _ _ _ _ _ Hx) as Hroom. unfold conn_demand in Hroom.
  pose proof (demand_pos r (stream (c_evs (n_abs c))).2) as Hpos.
  assert (fine (view s (n_abs c) [])) as Hf0 by (split; [apply Hc|split; [apply Hc|exact (co_in _ _ _ _ _ _ _ _ Hx)]]).
  assert (∀ z, fine (view s (n_abs c) z)) as Hfz by (intros z; exact Hf0).
  pose proof (fine_deliver ms _ Hms Hfine Hf0) as Hfd.
  pose proof (abs_deliver_frame fr ms (view s (n_abs c) [])) as Hframe. change (set_frame fr (view s (n_abs c) [])) with (view s (n_abs c) fr) in Hframe.
  destruct (abs_deliver ms (view s (n_abs c) [])) as [a ok] eqn:Ha. cbn [fst snd] in *.
  eapply wp_with_conn; [eapply core_hp, Hx|exact Hs|exact Hmg|].
  eapply wp_mono; [eapply (wp_recv_proc (bufs (cs1 ++ cs2)) _ _ _ ms r Hr); cbn [conn_of csock crecv cmem]; rewrite ?Hev|].
  - exact Hpart.
  - exact Hip.
  - apply Hstr.
  - exact HD.
  - exact Hr'.
  - exact Hms.
  - by apply deliver_pre_fine.
  - lia.
  - cbn [conn_of csock crecv cmem]. intros ret y ms' (-> & Hfr & Hsock & Hd) h Hh. unfold delivered in Hd. rewrite deliver_abs, Hframe in Hd, Hsock. cbn [fst snd] in *.
    rewrite Hev in *. set (evs := (stream (c_evs (n_abs c))).2) in *. set (d := (stream (c_evs (n_abs c))).1.1) in *.
    set (code := (stream (c_evs (n_abs c))).1.2) in *. assert (stream (c_evs (n_abs c)) = (d, code, evs)) as Hst by (unfold d, code, evs; by destruct (stream _) as [[]]).
    assert (demand r evs + fresh (mblk (cmem y)) ≤ conn_demand c + fresh (mblk (t_mem x))) as Hroom' by (unfold conn_demand; lia).
    destruct ok.
    + destruct Hd as (-> & Hy & Hipy). destruct (Z.eqb_spec code 0) as [Hcode|Hcode].
      * destruct Hy as (M & refs & pre & post & n & Hm & Hb & Ho & Hi & He & Hl & HB & Hinv & Hrep).
        destruct (core_recv _ _ _ _ _ _ _ _ _ _ y h sps a ms r evs M refs _ _ fr Hx Hsq Hls eq_refl Hfd Hm HB Hinv Hrep Hroom') as (ps & Hcore).
        eapply HQ; [done|done| | |exact (Hcore Hh)|]; [done|done|]. rewrite (proj2 (Z.eqb_eq _ _) Hcode). split.
        -- split_and!; cbn; try done; [by apply Hsock|]. by exists pre, post.
        -- unfold srv. rewrite !fmap_app. apply (st_recv _ _ _ _ _ _ _ d); [|done|done|done]. by rewrite Hst, Hcode.
      * apply rinv_closed in Hy as (M & refs & b & lm & Hm & HB & Hinv & Hrep).
        destruct (core_recv _ _ _ _ _ _ _ _ _ _ y h sps a ms r evs M refs _ _ fr Hx Hsq Hls eq_refl Hfd Hm HB Hinv Hrep Hroom') as (ps & Hcore).
        eapply HQ; [done|done| | |exact (Hcore Hh)|]; [done|done|]. rewrite (proj2 (Z.eqb_neq _ _) Hcode).
        unfold srv. rewrite !fmap_app. apply (st_refuse _ _ _ _ _ _ _ d code _ ms r _ true); [done|done|done|done|by right].
    + destruct Hd as (-> & M & refs & b & lm & Hm & HB & Hinv & Hrep).
      destruct (core_recv _ _ _ _ _ _ _ _ _ _ y h sps a ms r evs M refs _ _ fr Hx Hsq Hls eq_refl Hfd Hm HB Hinv Hrep Hroom') as (ps & Hcore).
      eapply HQ; [done|done| | |exact (Hcore Hh)|]; [done|done|]. change (RTMQ_ERR =? 0) with false. cbn iota.
      unfold srv. rewrite !fmap_app. apply (st_refuse _ _ _ _ _ _ _ d code _ ms r _ false); [done|done|done|done|by left].
Qed.

Lemma live_times rd wr c : conn_live c → conn_live (with_k (set_times rd wr (n_k c)) c).
Proof. by destruct c. Qed.

Lemma abs_times rd wr cs1 c cs2 s q sq cl :
  srv s (cs1 ++ with_k (set_times rd wr (n_k c)) c :: cs2) q sq cl = srv s (cs1 ++ c :: cs2) q sq cl.
Proof. unfold srv. by rewrite !fmap_app. Qed.

Lemma wp_sck_times rd wr x s cs1 c cs2 q sq cl (Q : unit → thr_st T → mem → Prop) ms :
  core [] [] x s (cs1 ++ c :: cs2) q sq cl →
  (∀ x', t_ctm x' = t_ctm x → t_clock x' = t_clock x →
     core [] [] x' s (cs1 ++ with_k (set_times rd wr (n_k c)) c :: cs2) q sq cl → Q tt x' ms) →
  wp (wr_sck (n_sck c) (set_times rd wr)) Q x ms.
Proof.
  intros Hx HQ. eapply wp_wr_sck; [eapply core_hp, Hx|]. intros h Hh. apply HQ; [done|done|]. by eapply core_times.
Qed.

Lemma wp_rd_conn x s cs1 c cs2 q sq cl (Q : sck_t T → thr_st T → mem → Prop) ms :
  core [] [] x s (cs1 ++ c :: cs2) q sq cl → Q (n_k c) x ms → wp (rd_sck (n_sck c)) Q x ms.
Proof. intros Hx HQ. eapply (wp_rd_sck x _ (n_k c)); [eapply core_hp, Hx|set_solver|exact HQ]. Qed.

Lemma wp_fd_isset fd fds x (Q : bool → thr_st T → mem → Prop) ms : fd_ok fd = true → Q (bool_decide (fd ∈ fds)) x ms → wp (fd_isset fd fds) Q x ms.
Proof. intros Hfd HQ. unfold fd_isset. rewrite Hfd. exact HQ. Qed.

Lemma core_fd hs ds x s cs1 c cs2 q sq cl : core hs ds x s (cs1 ++ c :: cs2) q sq cl → fd_ok (k_fd (n_k c)) = true.
Proof. intros Hx. pose proof (core_conn _ _ _ _ _ _ _ _ _ _ Hx) as Hc. rewrite (cc_fd _ Hc). apply Hc. Qed.

Abbreviation body_any := (body_ok (room := room) (lim := lim) (B0 := B0) (R0 := R0) (λ _ : conn T, True)).

Lemma recv_body_ok now clk q sq : body_any now clk q sq recv_body.
Proof.
  intros x s cs1 c cs2 cl Hx Hlive _ Hct Hck. unfold recv_body. apply wp_bind. eapply wp_rd_conn; [exact Hx|]. do 2 wp_step.
  apply wp_bind. eapply wp_fd_isset; [exact (core_fd _ _ _ _ _ _ _ _ _ _ Hx)|]. case_bool_decide as Hfd.
  - apply wp_bind. eapply wp_sck_times; [exact Hx|]. intros x1 Hct1 Hck1 Hx1. apply wp_bind.
    change (n_sck c) with (n_sck (with_k (set_times (t_ctm x) (k_wrtm (n_k c)) (n_k c)) c)).
    eapply wp_recv_conn; [exact Hx1|by apply live_times|]. rewrite abs_times.
    intros ret x2 s2 c2 Hct2 Hck2 Hn2 _ Hx2 Hret. apply wp_ret. split; [done|]. split; [congruence|]. split; [congruence|].
    exists s2, c2. split; [exact Hx2|]. split; [exact Hn2|]. destruct (ret =? 0); cbn [negb].
    + destruct Hret as [Hl2 Hst]. split_and!; [done|done|by apply rtc_once].
    + by apply rtc_once.
  - apply wp_ret. split; [done|]. split; [done|]. split; [done|]. exists s, c. split_and!; try done.
Qed.

(** *** Writing *)

Definition send_done x (y : send_st htree) h : thr_st T := set_conns (t_conns x) h (set_core (smem y) (t_ctx x) (t_rsvr x) (t_err x) x).
Definition sck_sent (y : send_st htree) (k : sck_t T) : sck_t T :=
  SckT (k_fd k) (k_rdtm k) (k_wrtm k) (k_nid k) (k_gid k) (k_sid k) (k_auth k) (k_subs k) (k_recv k)
    (send y) (Some (RtmqSend.mesgs y)) (k_evs k) (swr y) (sout y).

Lemma wp_with_send {A} x p k C1 C2 mesgs (m : SM _ A) (Q : A → thr_st T → mem → Prop) ms :
  hp (t_scks x) (C1 ++ (p, k) :: C2) → k_mesgs k = Some mesgs →
  wp m (λ r y ms', ∀ h, hp h (C1 ++ (p, sck_sent y k) :: C2) → Q r (send_done x y h) ms') (SendSt (t_mem x) mesgs (k_send k) (k_wr k) (k_out k)) ms →
  wp (with_send p m) Q x ms.
Proof.
  intros Hh Hl Hm. unfold with_send. apply wp_bind. eapply (wp_rd_sck x p k); [exact Hh|set_solver|].
  rewrite Hl. cbn [deref]. do 3 wp_step. apply wp_bind, wp_run_on. eapply wp_mono; [exact Hm|].
  intros r y ms' HQ. cbn beta zeta. cbn [fst snd]. do 2 wp_step. apply wp_bind. eapply wp_wr_sck; [exact Hh|]. intros h Hh'. apply wp_ret. by apply HQ.
Qed.

Lemma minv_conn_front cs1 c cs2 rss sps sq :
  concat rss ++ out_refs sps sq ++ concat (conn_refs <$> cs1 ++ c :: cs2) ++ R0 ≡ₚ
  conn_refs c ++ concat rss ++ out_refs sps sq ++ concat (conn_refs <$> cs1 ++ cs2) ++ R0.
Proof. rewrite !fmap_app, !concat_app. cbn [fmap list_fmap concat]. solve_Permutation. Qed.

Lemma conn_cells c : cells_of (conn_refs c) = vcells (n_vec c) ++ wcells (zip (n_ps c) (c_out (n_abs c))).
Proof. unfold conn_refs. unfold cells_of at 1. rewrite fmap_app. fold (cells_of (vrefs (n_vec c))) (cells_of (out_refs (n_ps c) (c_out (n_abs c)))). by rewrite vrefs_cells, out_refs_cells. Qed.

Lemma sole_conn c : Forall sole (conn_refs c).
Proof. unfold conn_refs. apply Forall_app. split; [apply sole_vrefs|apply sole_out]. Qed.

Definition conn_of_send y n V W c : conn T :=
  Conn (n_node c) (n_sck c) (sck_sent y (n_k c)) (n_buf c) (n_lim c) V W.*1 (conn_sent n (concat (sg_rest <$> V)) W.*2 (n_abs c)).

Lemma cells_of_send y n V W c : cells_of (conn_refs (conn_of_send y n V W c)) = vcells V ++ wcells W.
Proof. rewrite conn_cells. cbn [conn_of_send n_vec n_ps n_abs conn_sent c_out]. by rewrite zip_fst_snd. Qed.

Lemma wp_send_conn x s cs1 c cs2 q sq cl (Q : Z → thr_st T → mem → Prop) :
  core [] [] x s (cs1 ++ c :: cs2) q sq cl → conn_live c →
  (∀ ret x' c', t_ctm x' = t_ctm x → t_clock x' = t_clock x → n_node c' = n_node c → conn_live c' →
     core [] [] x' s (cs1 ++ c' :: cs2) q sq cl →
     astep (srv s (cs1 ++ c :: cs2) q sq cl) (srv s (cs1 ++ c' :: cs2) q sq cl) → Q ret x' []) →
  wp (with_send (n_sck c) send_proc) Q x [].
Proof.
  intros Hx Hlive HQ. pose proof (core_conn _ _ _ _ _ _ _ _ _ _ Hx) as Hc.
  destruct (cc_mesgs _ Hc) as (mesgs & Hmg & Hrep). destruct (core_keep _ _ _ _ _ _ _ _ Hx) as (M & rss & sps & Hm & Hcx & Hi & Hsq & Hls).
  apply (minv_perm _ _ _ _ (minv_conn_front _ _ _ _ _ _)) in Hi.
  destruct (minv_unown _ _ _ _ (sole_conn c) Hi) as (F & HM & Hnd & HF & HiF). rewrite conn_cells in HM, Hnd, HF.
  set (V := n_vec c) in *. set (W := zip (n_ps c) (c_out (n_abs c))) in *.
  assert (W.*1 = n_ps c) as HW1 by (apply fst_zip; by rewrite (cc_ps _ Hc)).
  assert (W.*2 = c_out (n_abs c)) as HW2 by (apply snd_zip; by rewrite (cc_ps _ Hc)).
  assert (to_send V W = c_vec (n_abs c) ++ wires (c_out (n_abs c))) as HS by (unfold to_send; by rewrite HW2, (cc_vec _ Hc)).
  assert (sinv (SendSt (t_mem x) mesgs (k_send (n_k c)) (k_wr (n_k c)) (k_out (n_k c))) F V W) as Hinv.
  { constructor; cbn [smem RtmqSend.mesgs send]; [by rewrite <-HM|by rewrite HW1|apply Hc|exact Hnd|exact HF|].
    split; [apply Hc|]. assert (Forall sendable W.*2) as HWs. { rewrite HW2. exact (proj2 (cc_ok _ Hc)). } rewrite Forall_fmap in HWs. exact HWs. }
  eapply wp_with_send; [eapply core_hp, Hx|exact Hmg|]. eapply wp_send_proc; [exact Hinv|apply Hc|].
  intros z n y V' W' Hturn [Hm' Hl' Hs' Hnd' HF' [HV' HW']] Hout Hrest [W0 Hsuf] Hmax Hfr h Hh. cbn [send sout swr smem] in *. rewrite HS in *.
  set (c' := conn_of_send y n V' W' c).
  assert (astep (srv s (cs1 ++ c :: cs2) q sq cl) (srv s (cs1 ++ c' :: cs2) q sq cl)) as Hst.
  { unfold srv. rewrite !fmap_app. apply st_send.
    - destruct Hturn; cbn; lia.
    - exact Hrest.
    - rewrite <-HW2, Hsuf, fmap_app. by eexists. }
  assert (bases (cs1 ++ c' :: cs2)) as Hbase'.
  { apply (bases_same cs1 c); [done|exact (co_bases _ _ _ _ _ _ _ _ Hx)]. }
  eapply (HQ z _ c'); [done|done|done|exact Hlive| |exact Hst].
  eapply core_put; [exact Hx|done|done|done|exact Hh| | |exact Hbase'|exact (co_rsvr _ _ _ _ _ _ _ _ Hx)|apply (co_in _ _ _ _ _ _ _ _ Hx)|].
  - destruct Hc as [Hc1 Hc2 Hc3 Hcf Hc4 Hc5 Hc6 Hc7 Hc8 Hc9 Hc10 Hc11 [Hc12 Hc13] Hc14].
    constructor; try done; cbn [c' conn_of_send n_k sck_sent k_mesgs k_send k_out n_ps n_abs conn_sent c_out n_vec c_sent].
    + by eexists.
    + by rewrite !length_fmap.
    + by rewrite Hmax.
    + split; [done|]. by apply Forall_fmap.
    + by rewrite Hout, Hc14.
  - exists (own (vcells V' ++ wcells W') F), rss, sps. split_and!; [exact Hm'|exact Hcx| |exact Hsq|exact Hls].
    eapply minv_perm; [symmetry; apply minv_conn_front|]. rewrite <-(cells_of_send y n V' W' c).
    rewrite (bufs_same cs1 c) by done.
    apply minv_own; [apply sole_conn|exact HiF|unfold c'; by rewrite cells_of_send|unfold c'; by rewrite cells_of_send].
  - unfold conn_demand. cbn [send_done set_conns set_core t_mem c' conn_of_send n_abs conn_sent c_rest c_evs]. lia.
Qed.

Lemma send_body_ok now clk q sq : body_any now clk q sq send_body.
Proof.
  intros x s cs1 c cs2 cl Hx Hlive _ Hct Hck. unfold send_body. apply wp_bind. eapply wp_rd_conn; [exact Hx|]. do 2 wp_step.
  apply wp_bind. eapply wp_fd_isset; [exact (core_fd _ _ _ _ _ _ _ _ _ _ Hx)|]. case_bool_decide as Hfd.
  - apply wp_bind. eapply wp_sck_times; [exact Hx|]. intros x1 Hct1 Hck1 Hx1. apply wp_bind.
    change (n_sck c) with (n_sck (with_k (set_times (k_rdtm (n_k c)) (t_ctm x) (n_k c)) c)).
    eapply wp_send_conn; [exact Hx1|by apply live_times|]. rewrite abs_times.
    intros ret x2 c2 Hct2 Hck2 Hn2 Hl2 Hx2 Hst. apply wp_ret. split; [done|]. split; [congruence|]. split; [congruence|].
    exists s, c2. split; [exact Hx2|]. split; [exact Hn2|]. destruct (negb (ret =? 0)).
    + eapply rtc_l; [exact Hst|]. unfold srv. rewrite !fmap_app. apply rtc_once, st_close.
    + split_and!; [done|done|by apply rtc_once].
  - apply wp_ret. split; [done|]. split; [done|]. split; [done|]. exists s, c. split_and!; try done.
Qed.

(** *** The sets of [select] *)

Lemma core_sel hs ds max rd wr x s cs q sq cl : core hs ds x s cs q sq cl → core hs ds (set_sel max rd wr x) s cs q sq cl.
Proof. by intros [? ? ? ? ? ? ? ? ? ? ? ? ? ? ?]. Qed.

Lemma close_step cs1 c cs2 s q sq cl :
  astep (srv s (cs1 ++ c :: cs2) q sq cl) (srv (share_without (n_abs c) s) (cs1 ++ cs2) q sq (cl ++ [n_abs c])).
Proof. unfold srv. rewrite !fmap_app. apply st_close. Qed.

Section Sets.
Context (P : conn T → Prop) (now : Z) (clk : list Z) (q : list rtmq_conn_item_t) (sq : list mesg).

Lemma rdset_body_ok : body_ok (room := room) (lim := lim) (B0 := B0) (R0 := R0) P now clk q sq rdset_body.
Proof.
  intros x s cs1 c cs2 cl Hx Hlive HP Hct Hck. unfold rdset_body. apply wp_bind. eapply wp_rd_conn; [exact Hx|]. do 2 wp_step.
  destruct (_ && _).
  - apply wp_ret. split_and!; [done..|]. exists s, c. split_and!; [done|done|apply rtc_once, close_step].
  - rewrite (core_fd _ _ _ _ _ _ _ _ _ _ Hx). cbn [cassert]. do 4 wp_step. split_and!; [done..|]. exists s, c. split_and!; try done. by apply core_sel.
Qed.

Lemma wrset_body_ok : body_ok (room := room) (lim := lim) (B0 := B0) (R0 := R0) P now clk q sq wrset_body.
Proof.
  intros x s cs1 c cs2 cl Hx Hlive HP Hct Hck. unfold wrset_body. apply wp_bind. eapply wp_rd_conn; [exact Hx|].
  destruct (cc_mesgs _ (core_conn _ _ _ _ _ _ _ _ _ _ Hx)) as (l & -> & _). cbn [deref]. do 2 wp_step. apply wp_bind.
  destruct (_ && _).
  - do 2 wp_step. split_and!; [done..|]. exists s, c. split_and!; done.
  - rewrite (core_fd _ _ _ _ _ _ _ _ _ _ Hx). cbn [cassert]. do 4 wp_step. split_and!; [done..|]. exists s, c. split_and!; try done. by apply core_sel.
Qed.

(** No connection is silent for as long as the time-out. *)
Lemma timeout_body_ok : (∀ c, P c → now - k_rdtm (n_k c) < 60) → body_ok (room := room) (lim := lim) (B0 := B0) (R0 := R0) P now clk q sq timeout_body.
Proof.
  intros Hcalm x s cs1 c cs2 cl Hx Hlive HP Hct Hck. unfold timeout_body. apply wp_bind. eapply wp_rd_conn; [exact Hx|]. do 2 wp_step.
  specialize (Hcalm c HP). rewrite Hct. destruct (Z.geb_spec (now - k_rdtm (n_k c)) 60); [lia|]. wp_step.
  split_and!; [done..|]. exists s, c. split_and!; done.
Qed.
End Sets.
End Body.
