(* ===== verification/RtmqConnNew.v ===== *)
(** The commands of a receive thread: the connections that were accepted enter its
    list, and each message to send goes to a connection of its node. *)
From stdpp Require Import fin_maps gmap.
From S2P Require Import Prelude Heap Table HashTab TabRel TreeRel List List2 Iovec Ring RingSpec Slot QueueSpec Mref Bytes Trees RtmqRecv RtmqMem RtmqRecvSpec RtmqSend RtmqSendSpec RtmqComm RtmqCommSpec RtmqRsvr RtmqRsvrSpec RtmqExp RtmqConn RtmqAbs RtmqConnRep RtmqConnEnd RtmqConnBody.
Open Scope Z_scope.

Section New.
Context {T : Type → Type} `{TreeLaws T} {room lim : Z} {B0 : bmap} {R0 : list href}.
Abbreviation core := (core (room := room) (lim := lim) (B0 := B0) (R0 := R0)).
Abbreviation core_mem := (core_mem (B0 := B0) (R0 := R0)).
Abbreviation bufs := (bufs (B0 := B0)).
Abbreviation bases := (bases (B0 := B0)).
Implicit Types (c : conn T) (cs : list (conn T)) (x : thr_st T) (s : ashare).

Abbreviation scks_of := (fmap (λ c, (n_sck c, n_k c))).

(** *** A new connection *)

(** The socket that [rtmq_rsvr_sck_creat] makes. *)
Definition made_sck it now subs mesgs b : sck_t T :=
  SckT (ci_fd it) now now NO_NID 0 (ci_sid it) 0 (Some subs) (rtmq_snap_setup b RTMQ_BUFF_SIZE)
    (Wiov 0 0 0 ANull ANull) (Some mesgs) (ci_evs it) (ci_wr it) [].

Definition made_st st h clk x : thr_st T :=
  set_conns (t_conns x) h (set_core st (t_ctx x) (t_rsvr x) (t_err x) (set_world (t_ctm x) (t_pipe x) clk (t_closed x) x)).

Lemma wp_sck_creat it x C M (Q : ptr → thr_st T → mem → Prop) :
  hp (t_scks x) C → mrep (t_mem x) M → fresh (mblk (t_mem x)) < ADDR_MAX →
  (∀ p now subs mesgs b st h, p ≠ NULL → tr_wf subs [] → l2rep mesgs [] → M !! b = None →
     mrep st (<[b := (replicate (Z.to_nat RTMQ_BUFF_SIZE) 0, 1)]> M) → fresh (mblk st) = fresh (mblk (t_mem x)) + 1 →
     hp h ((p, made_sck it now subs mesgs b) :: C) → Q p (made_st st h (tail (t_clock x)) x) []) →
  wp (rtmq_rsvr_sck_creat it) Q x [].
Proof.
  intros Hh Hm Hf HQ. unfold rtmq_rsvr_sck_creat. apply wp_bind. unfold on_scks at 1. apply wp_zoom. eapply wp_halloc; [exact Hh|].
  rewrite decide_False by done. intros h1 p Hp Hh1. apply wp_bind. unfold c_time. do 3 wp_step. wp_step. wp_step. 
  apply wp_bind. eapply (wp_wr_sck _ _ _ _ []); [exact Hh1|]. intros h2 Hh2. cbn [app] in Hh2.
  apply wp_bind. eapply wp_mono; [apply law_creat|]. intros r x1 ms1 (-> & -> & subs & -> & Hsubs).
  apply wp_bind. eapply (wp_wr_sck _ _ _ _ []); [exact Hh2|]. intros h3 Hh3. cbn [app] in Hh3.
  apply wp_bind. unfold list2_creat. apply wp_bind, wp_malloc_nil. apply wp_ret.
  apply wp_bind. eapply (wp_wr_sck _ _ _ _ []); [exact Hh3|]. intros h4 Hh4. cbn [app] in Hh4.
  apply wp_bind. eapply (wp_with_conn _ _ _ []); [exact Hh4|done|done|]. eapply wp_alloc_recv_buff; [exact Hm|exact Hf|].
  intros b st Hb Hb0 Hst Hfst h5 Hh5. cbn [app] in Hh5. change (RTMQ_OK =? 0) with true. cbn [negb]. apply wp_ret.
  eapply (HQ p _ subs (MkList2 0 NULL empty_heap) b st h5); [unfold NULL in *; lia|exact Hsubs| |exact Hb|exact Hst|exact Hfst|exact Hh5].
  exists []. split; [|done]. constructor; [apply hp_empty|done|done].
Qed.

(** The connection of the item [it]. *)
Definition fresh_conn node p k it : conn T :=
  Conn node p k (replicate (Z.to_nat RTMQ_BUFF_SIZE) 0) 0 [] [] (new_conn it).

Lemma fresh_live node p now subs mesgs b w it : stream_ok [] (ci_evs it) →
  conn_live (fresh_conn node p (set_ksend w (made_sck it now subs mesgs b)) it).
Proof.
  intros Hs. pose proof buff_size. unfold conn_live.
  cbn [fresh_conn set_ksend made_sck rtmq_snap_setup new_conn n_k n_buf n_lim n_abs k_evs k_recv c_evs c_rest end_ iptr optr].
  split; [done|]. split; [apply partial_nil; unfold HEAD_SIZE; lia|]. split; [exact Hs|]. split; [reflexivity|]. split; [lia|].
  split; [rewrite length_replicate; lia|]. split; [reflexivity|]. by exists [], (replicate (Z.to_nat RTMQ_BUFF_SIZE) 0).
Qed.

Lemma fresh_core node p now subs mesgs b w it : fd_ok (ci_fd it) = true → tr_wf subs [] → l2rep mesgs [] → wrep w [] → 0 < iov_max w →
  conn_core (fresh_conn node p (set_ksend w (made_sck it now subs mesgs b)) it).
Proof. intros Hf Hs Hl Hw Hm. constructor; cbn [fresh_conn set_ksend made_sck new_conn n_k n_abs n_vec n_ps k_nid k_gid k_fd k_auth k_subs k_mesgs k_send k_out c_nid c_gid c_fd c_auth c_out c_vec c_sent]; try done; [by left|by exists subs|by exists mesgs]. Qed.

Lemma wp_add_conn p hs ds x s cs it q sq cl (Q : unit → thr_st T → mem → Prop) :
  core (p :: hs) ds x s cs (it :: q) sq cl → Forall conn_live cs →
  (∀ x' c, core hs ds x' s (cs ++ [c]) q sq cl → Forall conn_live (cs ++ [c]) →
     astep (srv s cs (it :: q) sq cl) (srv s (cs ++ [c]) q sq cl) → Q tt x' []) →
  wp (add_conn p) Q x [].
Proof.
  intros [(M & rss & sps & Hm & Hcx & Hi & Hsq & Hls) Hbase Hrv Hl Hk Hc (size & Bq & F & ps & HB0 & Hq & Hits) Hnew Hsend Hcl Hmax Hcmd Hin Hlen Hroom] Hlive HQ.
  cbn [app] in Hits. apply Forall2_cons in Hits as [Hit Hits]. apply Forall_cons in Hnew as [[Hfd Hs] Hnew].
  change (total (item_demand <$> it :: q)) with (item_demand it + total (item_demand <$> q)) in Hroom. unfold item_demand at 1 in Hroom.
  assert (0 ≤ total (conn_demand <$> cs)) as Hp1 by (apply total_pos, Forall_fmap, Forall_true; intros; apply demand_pos).
  assert (0 ≤ total (item_demand <$> q)) as Hp2.
  { apply total_pos, Forall_fmap, Forall_true. intros i. cbn. unfold item_demand. pose proof (demand_pos [] (ci_evs i)). lia. }
  pose proof (demand_pos [] (ci_evs it)) as Hp3.
  unfold add_conn. do 2 wp_step. rewrite Hit. cbn [deref]. do 2 wp_step. apply wp_bind. eapply wp_sck_creat; [exact Hk|exact Hm|lia|].
  intros sck now subs mesgs b st h Hsck Hsubs Hmesgs Hb Hst Hfst Hh. rewrite (proj2 (Z.eqb_neq _ _) Hsck).
  apply wp_bind. unfold on_conns. apply wp_zoom. eapply wp_rpush2; [exact Hl|]. rewrite decide_False by done. intros l' node Hl'.
  change (0 =? 0) with true. cbn [negb tl]. apply wp_bind. eapply (wp_rd_sck _ sck (made_sck it now subs mesgs b)); [exact Hh|left|].
  change (tail (@nil bool)) with (@nil bool). apply wp_bind, wp_run_on. eapply wp_wiov_init.
  { cbn [set_conns made_st set_core set_world t_sendq_max]. rewrite i32_small; lia. }
  intros w Hw Hwm. apply wp_bind. eapply (wp_wr_sck _ _ _ _ []); [exact Hh|]. intros h1 Hh1. cbn [app fst snd] in *.
  change (0 =? 0) with true. cbn [negb]. do 2 wp_step. unfold on_connq. apply wp_zoom.
  set (c := fresh_conn node sck (set_ksend w (made_sck it now subs mesgs b)) it).
  eapply wp_queue_dealloc; [exact Hq|left|]. cbn [abs_queue_call afree aqueued aheld snd].
  pose proof (queue_rep_held _ _ Hq) as Hnd. cbn [aheld] in Hnd. apply NoDup_cons in Hnd as [Hnp Hnd].
  assert (drop_block p (p :: hs) = hs) as ->.
  { unfold drop_block. rewrite filter_cons, decide_False by tauto. by apply drop_block_notin. }
  intros q' Hq'. destruct (minv_none Hi _ Hb) as [_ HBb].
  destruct (bufs_put cs c [] ltac:(by rewrite app_nil_r) ltac:(by rewrite app_nil_r)) as [Hbase' Hbufs']. rewrite app_nil_r in Hbufs'.
  apply (HQ _ c).
  2: { apply Forall_snoc; [done|]. by apply fresh_live. }
  2: { unfold srv. rewrite fmap_app. apply st_open. }
  constructor; try done; cbn [set_connections set_queues set_conns made_st set_core set_world t_mem t_ctx t_rsvr t_conns t_scks t_connq t_items t_closed t_sendq_max t_sendq].
  - eexists _, rss, sps. split_and!; [exact Hst|exact Hcx| |exact Hsq|exact Hls]. rewrite Hbufs'.
    eapply minv_perm; [|exact (minv_new_buf Hi _ _ Hb)]. rewrite (fmap_app _ cs), concat_app. cbn. by rewrite app_nil_r.
  - rewrite fmap_app. exact Hl'.
  - rewrite fmap_app. change (scks_of [c]) with [(n_sck c, n_k c)]. rewrite <-Permutation_cons_append. exact Hh1.
  - apply Forall_snoc; [done|]. by apply fresh_core.
  - by exists size, Bq, (F ++ [p]), ps.
  - rewrite length_app in *. cbn [length] in *. lia.
  - rewrite fmap_app, total_app. cbn [fmap list_fmap total foldr]. unfold conn_demand at 2. cbn [c fresh_conn n_abs new_conn c_rest c_evs]. lia.
Qed.

Lemma wp_add_conns hs : ∀ ds x s cs q sq cl (Q : unit → thr_st T → mem → Prop),
  core hs ds x s cs q sq cl → Forall conn_live cs →
  (∀ x' cs' q', core [] ds x' s cs' q' sq cl → Forall conn_live cs' → length q = (length hs + length q')%nat →
     rtc astep (srv s cs q sq cl) (srv s cs' q' sq cl) → Q tt x' []) →
  wp (for_each add_conn hs) Q x [].
Proof.
  induction hs as [|p hs IH]; intros ds x s cs q sq cl Q Hx Hlive HQ; cbn [for_each].
  - apply wp_ret. by apply (HQ x cs q).
  - destruct (co_connq _ _ _ _ _ _ _ _ Hx) as (size & B & F & ps & _ & _ & Hits). destruct q as [|it q]; [by inversion Hits|].
    apply wp_bind. eapply wp_add_conn; [exact Hx|exact Hlive|]. intros x1 c Hx1 Hlive1 Hst.
    eapply IH; [exact Hx1|exact Hlive1|]. intros x2 cs2 q2 Hx2 Hlive2 Hlen Hst2. apply (HQ x2 cs2 q2); [done|done|cbn; lia|].
    by eapply rtc_l.
Qed.

(** The items that are popped. *)
Lemma core_pop n ds x s cs q sq cl (Q : list ptr → thr_st T → mem → Prop) ms :
  core [] ds x s cs q sq cl → (n ≤ length q)%nat → Z.of_nat n < 2 ^ 32 →
  (∀ x' hs, core hs ds x' s cs q sq cl → length hs = n → Q hs x' ms) → wp (on_connq (queue_mpop n)) Q x ms.
Proof.
  intros [Hm Hbase Hrv Hl Hk Hc (size & B & F & ps & HB0 & Hq & Hits) Hnew Hsend Hcl Hmax Hcmd Hin Hlen Hroom] Hn Hn2 HQ. cbn [app] in Hits.
  pose proof (Forall2_length _ _ _ Hits) as Hlp. unfold on_connq. apply wp_zoom.
  eapply wp_queue_mpop; [exact Hq|cbn; lia|done|]. cbn [afree aqueued aheld]. rewrite app_nil_r. intros q' Hq'.
  apply HQ; [|rewrite length_take; lia]. constructor; try done. exists size, B, F, (drop n ps). rewrite take_drop. done.
Qed.

Lemma core_used ds x s cs q sq cl : core [] ds x s cs q sq cl → queue_used (t_connq x) = Z.of_nat (length q).
Proof.
  intros Hx. destruct (co_connq _ _ _ _ _ _ _ _ Hx) as (size & B & F & ps & _ & Hq & Hits).
  rewrite (queue_rep_used _ _ Hq), <-(Forall2_length _ _ _ Hits). done.
Qed.

Lemma wp_add_conn_hdl x s cs q sq cl (Q : Z → thr_st T → mem → Prop) :
  core [] [] x s cs q sq cl → Forall conn_live cs →
  (∀ x' cs', core [] [] x' s cs' [] sq cl → Forall conn_live cs' → rtc astep (srv s cs q sq cl) (srv s cs' [] sq cl) → Q RTMQ_OK x' []) →
  wp rtmq_rsvr_add_conn_hdl Q x [].
Proof.
  intros Hx Hlive HQ. unfold rtmq_rsvr_add_conn_hdl. do 2 wp_step. rewrite (core_used _ _ _ _ _ _ _ Hx), Nat2Z.id.
  assert (length q < S (length q))%nat as Hn by lia. revert Hn. generalize (S (length q)). intros n. revert x s cs q Hx Hlive HQ.
  induction n as [|n IH]; intros x s cs q Hx Hlive HQ Hn; [lia|]. apply wp_loop_step. do 2 wp_step. rewrite (core_used _ _ _ _ _ _ _ Hx).
  set (num := Z.min _ _). destruct (Z.eqb_spec 0 num) as [Hnum|Hnum].
  - apply wp_ret. destruct q; [|cbn in num; unfold RTMQ_CONNQ_LEN in *; lia]. by apply (HQ x cs).
  - unfold RTMQ_CONNQ_LEN in *. apply wp_bind. eapply core_pop; [exact Hx|lia|lia|]. intros x1 hs Hx1 Hhs. apply wp_bind.
    eapply wp_add_conns; [exact Hx1|exact Hlive|]. intros x2 cs2 q2 Hx2 Hlive2 Hlen Hst. apply wp_ret.
    apply (IH _ _ _ _ Hx2 Hlive2); [|lia]. intros x3 cs3 Hx3 Hlive3 Hst3. apply (HQ x3 cs3); [done|done|]. by etransitivity.
Qed.

(** *** Distribution *)

Definition of_node nid cs : list (conn T) := filter (λ c, c_nid (n_abs c) = nid) cs.

(** The walk that collects the connections of a node. *)
Lemma wp_conns_of nid x s cs' q sq cl hs ds : core hs ds x s cs' q sq cl → ∀ cs done l ps (Q : unit → list_t ptr * thr_st T → mem → Prop),
  cs' = done ++ cs → lrep_at l ps →
  (∀ l' ps', lrep_at l' ps' → ps'.*2 = ps.*2 ++ (n_sck <$> of_node nid cs) → Q tt (l', x) []) →
  wp (for_each (rtmq_rsvr_get_conn_list_by_nodeid nid) (n_sck <$> cs)) Q (l, x) [].
Proof.
  intros Hx cs. induction cs as [|c cs IH]; intros done l ps Q Hcs Hl HQ; cbn [fmap list_fmap for_each].
  - apply wp_ret. apply (HQ l ps); [exact Hl|]. by rewrite app_nil_r.
  - pose proof Hx as Hx1. rewrite Hcs in Hx1. pose proof (core_conn _ _ _ _ _ _ _ _ _ _ Hx1) as Hc. apply wp_bind. unfold rtmq_rsvr_get_conn_list_by_nodeid at 1. apply wp_bind.
    unfold on_snd. apply wp_zoom. cbn [snd]. eapply (wp_rd_sck x _ (n_k c)); [eapply core_hp, Hx1|set_solver|]. rewrite (cc_nid _ Hc). cbn [fst].
    assert (of_node nid (c :: cs) = if decide (c_nid (n_abs c) = nid) then c :: of_node nid cs else of_node nid cs) as Hof by (unfold of_node; by rewrite filter_cons).
    destruct (Z.eqb_spec (c_nid (n_abs c)) nid) as [Hnid|Hnid]; cbn [negb].
    + rewrite decide_True in Hof by done. apply wp_bind. unfold on_fst. apply wp_zoom. cbn [fst]. eapply wp_rpush; [exact Hl|].
      rewrite decide_False by done. intros l1 p Hl1. apply wp_ret. cbn [snd]. change (tl (@nil bool)) with (@nil bool).
      eapply (IH (done ++ [c])); [by rewrite <-app_assoc|exact Hl1|]. intros l' ps' Hl' Hps. apply (HQ l' ps'); [exact Hl'|].
      rewrite Hps, Hof, fmap_app, <-app_assoc. done.
    + rewrite decide_False in Hof by done. apply wp_ret. eapply (IH (done ++ [c])); [by rewrite <-app_assoc|exact Hl|].
      rewrite <-Hof. exact HQ.
Qed.

Lemma core_used_send hs x s cs q sq cl : core hs [] x s cs q sq cl → ring_used (t_sendq x) = Z.of_nat (length sq).
Proof.
  intros Hx. destruct (co_mem _ _ _ _ _ _ _ _ Hx) as (M & rss & sps & _ & _ & _ & (k & Hk) & Hlen).
  unfold ring_used. by rewrite (rr_num _ _ _ Hk), <-Hlen.
Qed.

(** The memory and the context change, and the messages to send. *)
Lemma core_recore hs ds ds' x s s' cs q sq sq' cl st ctx : core hs ds x s cs q sq cl →
  core_mem ds' (set_core st ctx (t_rsvr x) (t_err x) x) s' cs sq' → Forall sendable sq' → fresh (mblk st) = fresh (mblk (t_mem x)) →
  t_rsvr x = Rsvr (s_id s') (s_recv s') (s_drop s') → share_ok s' →
  core hs ds' (set_core st ctx (t_rsvr x) (t_err x) x) s' cs q sq' cl.
Proof.
  intros [_ Hbase Hrv Hl Hk Hc Hcq Hnew Hsend Hcl Hmax Hcmd Hin Hlen Hroom] Hm Hsq Hf Hrv' Hin'. constructor; try done. cbn [set_core t_mem]. by rewrite Hf.
Qed.

(** The connection [c] gets the message [m] of the block [p]. *)
Definition give p m l c : conn T :=
  Conn (n_node c) (n_sck c) (set_lists (k_subs (n_k c)) (Some l) (n_k c)) (n_buf c) (n_lim c) (n_vec c) (n_ps c ++ [p]) (conn_put m (n_abs c)).

Lemma give_live p m l c : conn_live c → conn_live (give p m l c).
Proof. by destruct c. Qed.

Lemma give_core p m l c : conn_core c → sendable m → l2rep l (n_ps c ++ [p]) → conn_core (give p m l c).
Proof.
  intros [Hc1 Hc2 Hc3 Hcf Hc4 Hc5 Hc6 Hc7 Hc8 Hc9 Hc10 Hc11 [Hc12 Hc13] Hc14] Hm Hl. constructor; try done; cbn.
  - by exists l.
  - rewrite !length_app. cbn. lia.
  - split; [done|]. by apply Forall_snoc.
Qed.

Lemma core_give hs p ds x s cs1 c cs2 q m sq cl st ctx h l : core hs (p :: ds) x s (cs1 ++ c :: cs2) q (m :: sq) cl →
  ∀ M' rss sps, ctx_rep ctx rss (view (set_srands (tail (s_rands s)) s) (new_conn (ConnItem 0 0 [] [])) []) → mrep st M' →
  minv (bufs (cs1 ++ c :: cs2)) M' (concat rss ++ out_refs (p :: ds ++ sps) (m :: sq) ++ concat (conn_refs <$> cs1 ++ c :: cs2) ++ R0) →
  (∃ k, ring_rep k (t_sendq x) sps) → length (ds ++ sps) = length sq → fresh (mblk st) = fresh (mblk (t_mem x)) →
  l2rep l (n_ps c ++ [p]) → hp h (scks_of cs1 ++ (n_sck c, n_k (give p m l c)) :: scks_of cs2) →
  core hs ds (set_conns (t_conns x) h (set_core st ctx (t_rsvr x) (t_err x) x)) (set_srands (tail (s_rands s)) s) (cs1 ++ give p m l c :: cs2) q sq cl.
Proof.
  intros Hx M' rss sps Hcx Hm Hi Hsq Hls Hf Hl Hh. pose proof (core_conn _ _ _ _ _ _ _ _ _ _ Hx) as Hc.
  destruct Hx as [_ Hbase Hrv Hlc Hk Hcs Hcq Hnew Hsend Hcl Hmax Hcmd [Hin Hrand] Hlen Hroom]. apply Forall_cons in Hsend as [Hm0 Hsend].
  constructor; try done; cbn [set_core set_conns t_mem t_ctx t_rsvr t_conns t_scks t_sendq].
  - exists M', rss, sps. split_and!; [done|done| |done|done].
    rewrite (bufs_same cs1 c) by done.
    eapply minv_perm; [|exact Hi]. rewrite !fmap_app, !concat_app. cbn [fmap list_fmap concat]. unfold conn_refs at 2 5.
    cbn [give n_vec n_ps n_abs conn_put c_out]. rewrite out_refs_snoc by apply Hc. cbn [out_refs zip_with]. unfold out_refs. solve_Permutation.
  - by apply (bases_same cs1 c).
  - rewrite fmap_app in *. exact Hlc.
  - rewrite fmap_app. exact Hh.
  - apply Forall_mid in Hcs as [Hcs _]. apply Forall_mid. split; [done|]. by apply give_core.
  - destruct Hrand as [Hrand Hserved]. split; [done|]. split; [by apply Forall_tail|done].
  - rewrite length_app in *. exact Hlen.
  - rewrite Hf. rewrite total_mid in *. exact Hroom.
Qed.

Lemma of_node_spec nid cs i p : (n_sck <$> of_node nid cs) !! i = Some p →
  ∃ cs1 c cs2, cs = cs1 ++ c :: cs2 ∧ p = n_sck c ∧ c_nid (n_abs c) = nid.
Proof.
  rewrite list_lookup_fmap. destruct (of_node nid cs !! i) as [c|] eqn:Hc; [|done]. intros [= <-].
  apply list_elem_of_lookup_2 in Hc. unfold of_node in Hc. apply list_elem_of_filter in Hc as [Hn Hc].
  apply list_elem_of_split in Hc as (cs1 & cs2 & ->). by exists cs1, c, cs2.
Qed.

Lemma of_node_nil nid cs : of_node nid cs = [] → Forall (λ a : aconn, c_nid a ≠ nid) (n_abs <$> cs).
Proof.
  intros Hn. apply Forall_fmap. apply Forall_forall. intros c Hc Heq. assert (c ∈ of_node nid cs) as Hin by (apply list_elem_of_filter; done).
  rewrite Hn in Hin. by apply elem_of_nil in Hin.
Qed.

Lemma of_node_length nid cs : (length (of_node nid cs) ≤ length cs)%nat.
Proof. apply length_filter. Qed.

Lemma wp_dist_mesg p hs ds x s cs q m sq cl (Q : unit → thr_st T → mem → Prop) :
  core hs (p :: ds) x s cs q (m :: sq) cl → Forall conn_live cs →
  (∀ x' s' cs', core hs ds x' s' cs' q sq cl → Forall conn_live cs' → astep (srv s cs q (m :: sq) cl) (srv s' cs' q sq cl) → Q tt x' []) →
  wp (dist_mesg p) Q x [].
Proof.
  intros Hx Hlive HQ. pose proof Hx as [(M & rss & sps & Hm & Hcx & Hi & Hsq & Hls) Hbase Hrv Hl _ _ _ _ Hsend _ _ _ [Hin Hrand] Hlen _].
  pose proof (co_sendq _ _ _ _ _ _ _ _ Hx) as Hsend'. apply Forall_cons in Hsend as [Hm0 Hsend]. cbn [app length] in Hls. injection Hls as Hls.
  assert (concat rss ++ out_refs ((p :: ds) ++ sps) (m :: sq) ++ concat (conn_refs <$> cs) ++ R0 ≡ₚ
    Href p 0 (host m) true :: concat rss ++ out_refs (ds ++ sps) sq ++ concat (conn_refs <$> cs) ++ R0) as Hrefs.
  { cbn [app]. unfold out_refs. cbn [zip_with]. solve_Permutation. }
  pose proof (minv_perm _ _ _ _ Hrefs Hi) as Hi'. pose proof (minv_sole Hi' _ ltac:(left) eq_refl) as (Hp & _ & _). cbn [r_blk r_img] in Hp.
  assert (∀ st, mrep st M → fresh (mblk st) = fresh (mblk (t_mem x)) → core hs (p :: ds) (set_core st (t_ctx x) (t_rsvr x) (t_err x) x) s cs q (m :: sq) cl) as Hsame.
  { intros st Hst Hf. eapply core_recore; [exact Hx| |exact Hsend'|exact Hf|exact Hrv|done]. exists M, rss, sps. split_and!; [exact Hst|exact Hcx|exact Hi|exact Hsq|cbn [app length]; by f_equal]. }
  assert (∀ st R, mrep st M → fresh (mblk st) = fresh (mblk (t_mem x)) → Forall (λ a, c_nid a ≠ h_nid (m_head m)) (n_abs <$> cs) →
    (∀ x', Q tt x' [] → R x') →
    wp (mref_dec p) (λ _ st' ms', ms' = [] ∧ R (set_core st' (t_ctx x) (t_rsvr x) (t_err x) x)) st []) as Hlost.
  { intros st R Hst Hf Hno HR. eapply wp_mref_dec; [exact Hst|exact Hp|]. intros st' Hst' Hf'. split; [done|]. apply HR. eapply HQ; [|exact Hlive|].
    - eapply core_recore; [exact Hx| |exact Hsend| |exact Hrv|done]; [|congruence].
      exists (given_back (M := M) p (host m) 1), rss, sps. split_and!; [exact Hst'|exact Hcx|by eapply (minv_drop _ _ _ _ (host m) 1) in Hi'|exact Hsq|exact Hls].
    - by apply st_lost. }
  unfold dist_mesg. apply wp_bind. unfold on_tmem at 1. apply wp_zoom. eapply wp_mref_check; [exact Hm|eapply (mrep_id (T := htree)); [exact Hm|exact Hp]|]. intros st1 Hst1 Hf1.
  apply wp_bind. unfold on_tmem at 1. apply wp_zoom. cbn [set_core t_mem].
  eapply (wp_rd_head _ _ p [] (m_head m) (m_body m)); [exact Hst1|exact Hp|done|apply Hm0|].
  apply wp_bind. unfold list_creat. apply wp_bind, wp_malloc_nil. apply wp_ret. do 2 wp_step. apply wp_bind, wp_run_on.
  pose proof (Hsame st1 Hst1 Hf1) as Hx1. pose proof (core_nodes _ _ _ _ _ _ _ _ Hx1) as Hl1.
  cbn [set_core t_mem t_ctx t_rsvr t_err t_conns]. set (x1 := set_core st1 (t_ctx x) (t_rsvr x) (t_err x) x) in *.
  change (t_conns x) with (t_conns x1). eapply wp_trav2; [exact Hl1|].
  replace (nodes_of cs).*2 with (n_sck <$> cs) by (unfold nodes_of; by rewrite <-list_fmap_compose).
  eapply (wp_conns_of (h_nid (m_head m)) x1 s cs _ _ _ _ _ Hx1 cs [] _ []); [done|by constructor; [apply hp_empty|..]|].
  intros l ps Hl' Hps. cbn [app fmap list_fmap] in Hps. cbn [fst snd].
  assert (length ps = length (of_node (h_nid (m_head m)) cs)) as Hlen' by (apply (f_equal length) in Hps; by rewrite !length_fmap in Hps).
  pose proof (of_node_length (h_nid (m_head m)) cs) as Hlen2.
  assert (lnum l = Z.of_nat (length ps)) as Hnum by (rewrite (lr_num _ _ Hl'), i32_small; lia). rewrite Hnum.
  assert (∀ (K : SM (thr_st T) unit) R x, wp K R x [] → wp (z ← run_on (l, tt) (list_destroy (λ _, mret tt)); K) R x []) as Hdestroy.
  { intros K R y HK. apply wp_bind, wp_run_on.
    assert (∀ (ks : list ptr) u (Q' : unit → unit → mem → Prop), Q' tt u [] → wp (for_each (λ _, mret tt) ks) Q' u []) as Hnone.
    { intros ks. induction ks as [|k ks IH]; intros u Q' HQ'; [by apply wp_ret|]. cbn [for_each]. apply wp_bind, wp_ret. by apply IH. }
    eapply wp_mono; [apply (wp_list_destroy (λ _, mret tt) (λ _ _ ms', ms' = []) l ps tt []); [exact Hl'|by apply Hnone]|].
    intros [] z ms' [-> _]. exact HK. }
  destruct (Z.eqb_spec 0 (Z.of_nat (length ps))) as [Hz|Hz].
  - apply wp_bind. unfold on_tmem at 1. apply wp_zoom. eapply wp_mono; [apply (Hlost st1 (λ y, wp (mret tt) Q y [])); [exact Hst1|exact Hf1| |]|].
    + apply of_node_nil. apply length_zero_iff_nil. lia.
    + intros y HQ'. by apply wp_ret.
    + intros _ st' ms' [-> HR]. apply Hdestroy. exact HR.
  - apply wp_bind. unfold on_tctx. apply wp_zoom. unfold c_rand. do 2 wp_step. do 3 wp_step. apply wp_bind, wp_run_on.
    cbn [x1 set_core t_ctx]. rewrite (cx_rands _ _ _ Hcx). cbn [view a_rands]. set (r := default 0 (head (s_rands s))).
    assert (0 ≤ r) as Hr by (unfold r; destruct Hrand as [Hrand _]; destruct Hrand; [done|by cbn]).
    assert (0 ≤ Z.rem r (Z.of_nat (length ps)) < Z.of_nat (length ps)) as Hidx by (apply Z.rem_bound_pos; lia).
    eapply wp_mono; [apply (wp_fetch (Z.rem r (Z.of_nat (length ps))) l ps); [exact Hl'|lia|lia]|].
    intros o l1 ms1 (-> & -> & ->). apply Hdestroy. cbn [fst]. rewrite Hps.
    destruct (lookup_lt_is_Some_2 (n_sck <$> of_node (h_nid (m_head m)) cs) (Z.to_nat (Z.rem r (Z.of_nat (length ps))))) as [sp Hsp].
    { rewrite length_fmap. lia. }
    rewrite Hsp. cbn [deref]. do 2 wp_step. destruct (of_node_spec _ _ _ _ Hsp) as (cs1 & c & cs2 & -> & -> & Hn).
    pose proof (core_conn _ _ _ _ _ _ _ _ _ _ Hx) as Hc. destruct (cc_mesgs _ Hc) as (lm & Hlm & (cells & Hcells & Hpsm)).
    apply wp_bind. eapply (wp_rd_sck _ _ (n_k c)); [exact (core_hp _ _ _ _ _ _ _ _ _ _ Hx1)|set_solver|]. rewrite Hlm. cbn [deref]. do 2 wp_step.
    apply wp_bind, wp_run_on. eapply wp_rpush2; [exact Hcells|]. rewrite decide_False by done. intros lm' np Hlm'. cbn [fst snd tl].
    apply wp_bind. eapply wp_wr_sck; [exact (core_hp _ _ _ _ _ _ _ _ _ _ Hx1)|]. intros h Hh. change (0 =? 0) with true. cbn [negb]. apply wp_ret.
    apply Forall_mid in Hlive as [Hlive Hlc].
    eapply (HQ _ (set_srands (tail (s_rands s)) s) (cs1 ++ give p m lm' c :: cs2)).
    + eapply (core_give _ _ _ _ _ _ _ _ _ _ _ _ st1 (set_rands (tail (s_rands s)) (t_ctx x)) h lm' Hx M rss sps);
        [|exact Hst1|exact Hi|exact Hsq|exact Hls|exact Hf1| |exact Hh].
      * destruct Hcx as [? ? ? ? ? ? ? ?]. constructor; done.
      * exists (cells ++ [(np, p)]). by rewrite fmap_app, Hpsm.
    + apply Forall_mid. split; [done|]. by apply give_live.
    + unfold srv. rewrite !fmap_app. cbn [fmap list_fmap give n_abs]. by apply st_dist.
Qed.

Lemma wp_dist_mesgs ds : ∀ hs x s cs q sq cl (Q : unit → thr_st T → mem → Prop),
  core hs ds x s cs q sq cl → Forall conn_live cs →
  (∀ x' s' cs' sq', core hs [] x' s' cs' q sq' cl → Forall conn_live cs' → length sq = (length ds + length sq')%nat →
     rtc astep (srv s cs q sq cl) (srv s' cs' q sq' cl) → Q tt x' []) →
  wp (for_each dist_mesg ds) Q x [].
Proof.
  induction ds as [|p ds IH]; intros hs x s cs q sq cl Q Hx Hlive HQ; cbn [for_each].
  - apply wp_ret. by apply (HQ x s cs sq).
  - destruct (co_mem _ _ _ _ _ _ _ _ Hx) as (M & rss & sps & _ & _ & _ & _ & Hls). destruct sq as [|m sq]; [done|].
    apply wp_bind. eapply wp_dist_mesg; [exact Hx|exact Hlive|]. intros x1 s1 cs1 Hx1 Hlive1 Hst.
    eapply IH; [exact Hx1|exact Hlive1|]. intros x2 s2 cs2 sq2 Hx2 Hlive2 Hlen Hst2. apply (HQ x2 s2 cs2 sq2); [done|done|cbn; lia|].
    by eapply rtc_l.
Qed.

(** The messages that are popped. *)
Lemma core_take n hs x s cs q sq cl (Q : list ptr → thr_st T → mem → Prop) ms :
  core hs [] x s cs q sq cl → (n ≤ length sq)%nat → Z.of_nat n < 2 ^ 32 →
  (∀ x' ds, core hs ds x' s cs q sq cl → length ds = n → Q ds x' ms) → wp (on_sendq (ring_mpop n)) Q x ms.
Proof.
  intros [(M & rss & sps & Hm & Hcx & Hi & (k & Hsq) & Hls) Hbase Hrv Hl Hk Hc Hcq Hnew Hsend Hcl Hmax Hcmd Hin Hlen Hroom] Hn Hn2 HQ. cbn [app] in *.
  unfold on_sendq. apply wp_zoom. eapply wp_ring_mpop; [exact Hsq|done|]. unfold aring_pop. rewrite decide_True by lia. cbn [fst snd]. intros r' Hr'.
  apply HQ; [|rewrite length_take; lia]. constructor; try done. exists M, rss, (drop n sps). rewrite take_drop. split_and!; try done. by exists k.
Qed.

Lemma wp_dist_data x s cs q sq cl (Q : Z → thr_st T → mem → Prop) :
  core [] [] x s cs q sq cl → Forall conn_live cs →
  (∀ x' s' cs', core [] [] x' s' cs' q [] cl → Forall conn_live cs' → rtc astep (srv s cs q sq cl) (srv s' cs' q [] cl) → Q RTMQ_OK x' []) →
  wp rtmq_rsvr_dist_data Q x [].
Proof.
  intros Hx Hlive HQ. unfold rtmq_rsvr_dist_data. do 2 wp_step. rewrite (core_used_send _ _ _ _ _ _ _ Hx), Nat2Z.id.
  assert (length sq < S (length sq))%nat as Hn by lia. revert Hn. generalize (S (length sq)). intros n. revert x s cs sq Hx Hlive HQ.
  induction n as [|n IH]; intros x s cs sq Hx Hlive HQ Hn; [lia|]. apply wp_loop_step. do 2 wp_step. rewrite (core_used_send _ _ _ _ _ _ _ Hx).
  set (num := Z.min _ _). destruct (Z.eqb_spec 0 num) as [Hnum|Hnum].
  - apply wp_ret. destruct sq; [|cbn in num; unfold RTRD_POP_MAX_NUM in *; lia]. by apply (HQ x s cs).
  - unfold RTRD_POP_MAX_NUM in *. apply wp_bind. eapply core_take; [exact Hx|lia|lia|]. intros x1 ds Hx1 Hds. apply wp_bind.
    eapply wp_dist_mesgs; [exact Hx1|exact Hlive|]. intros x2 s2 cs2 sq2 Hx2 Hlive2 Hlen Hst. apply wp_ret.
    apply (IH _ _ _ _ Hx2 Hlive2); [|lia]. intros x3 s3 cs3 Hx3 Hlive3 Hst3. apply (HQ x3 s3 cs3); [done|done|]. by etransitivity.
Qed.
End New.
