(* ===== verification/RtmqThread.v ===== *)
(** A receive thread of the RTMQ server refines the abstract server of [RtmqAbs]:
    each turn of its loop, whatever [select] reports, is a sequence of its
    transitions. *)
From stdpp Require Import fin_maps gmap.
From S2P Require Import Prelude Heap Table HashTab TabRel TreeRel List2 Iovec Ring RingSpec Slot QueueSpec Mref Bytes Trees RtmqRecv RtmqMem RtmqRecvSpec RtmqSend RtmqSendSpec RtmqComm RtmqCommSpec RtmqRsvr RtmqRsvrSpec RtmqExp RtmqConn RtmqAbs RtmqConnRep RtmqConnEnd RtmqConnBody RtmqConnNew.
Open Scope Z_scope.

Section Turn.
Context {T : Type → Type} `{TreeLaws T} {room lim : Z} {B0 : bmap} {R0 : list href}.
Abbreviation core := (core (room := room) (lim := lim) (B0 := B0) (R0 := R0)).
Abbreviation bufs := (bufs (B0 := B0)).
Abbreviation bases := (bases (B0 := B0)).
Implicit Types (c : conn T) (cs : list (conn T)) (x : thr_st T) (s : ashare) (A : aserver).

(** The thread [x] represents the server [A], its connections having the
    property [P]. *)
Definition thr_at (P : conn T → Prop) x A : Prop := ∃ s cs q sq cl,
  A = srv s cs q sq cl ∧ core [] [] x s cs q sq cl ∧ Forall conn_live cs ∧ Forall P cs.
Definition thr_rep : thr_st T → aserver → Prop := thr_at (λ _, True).

(** What a part of a turn leaves. *)
Definition reaches (P : conn T → Prop) A x : Prop := ∃ A', rtc astep A A' ∧ thr_at P x A'.

Lemma thr_any P x A : thr_at P x A → thr_rep x A.
Proof. intros (s & cs & q & sq & cl & -> & Hx & Hl & _). exists s, cs, q, sq, cl. split_and!; try done. by apply Forall_true. Qed.

Lemma reaches_any P A x : reaches P A x → reaches (λ _, True) A x.
Proof. intros (A' & HA & Hx). exists A'. split; [done|]. by eapply thr_any. Qed.

Lemma reaches_trans P P' A A' x : rtc astep A A' → thr_at P x A' → (∀ A, thr_at P x A → reaches P' A x) → reaches P' A x.
Proof. intros HA Hx Hr. destruct (Hr A' Hx) as (A2 & HA2 & Hx2). exists A2. split; [by etransitivity|done]. Qed.

Lemma core_world hs ds ctm pipe clock x s cs q sq cl :
  core hs ds x s cs q sq cl → core hs ds (set_world ctm pipe clock (t_closed x) x) s cs q sq cl.
Proof. by intros [? ? ? ? ? ? ? ? ? ? ? ? ? ? ?]. Qed.

Lemma thr_world P ctm pipe clock x A : thr_at P x A → thr_at P (set_world ctm pipe clock (t_closed x) x) A.
Proof. intros (s & cs & q & sq & cl & -> & Hx & Hl & HP). exists s, cs, q, sq, cl. split_and!; try done. by apply core_world. Qed.

Lemma thr_sel P max rd wr x A : thr_at P x A → thr_at P (set_sel max rd wr x) A.
Proof. intros (s & cs & q & sq & cl & -> & Hx & Hl & HP). exists s, cs, q, sq, cl. split_and!; try done. by apply core_sel. Qed.

Lemma thr_cmd P x A : thr_at P x A → fd_ok (t_cmd_fd x) = true.
Proof. intros (s & cs & q & sq & cl & _ & Hx & _). exact (co_cmd _ _ _ _ _ _ _ _ Hx). Qed.

(** A walk, from a state that has been reached. *)
Lemma wp_thr_walk P body x A A0 (Q : Z → thr_st T → mem → Prop) :
  thr_at P x A → rtc astep A0 A → (∀ q sq, body_ok (room := room) (lim := lim) (B0 := B0) (R0 := R0) P (t_ctm x) (t_clock x) q sq body) →
  (∀ r x', t_ctm x' = t_ctm x → t_clock x' = t_clock x → reaches P A0 x' → Q r x' []) →
  wp (walk body) Q x [].
Proof.
  intros (s & cs & q & sq & cl & -> & Hx & Hl & HP) HA Hbody HQ.
  eapply wp_mono; [apply (wp_conn_walk P (t_ctm x) (t_clock x) q sq A0 body (Hbody q sq) x cs)|].
  - split; [done|]. split; [done|]. by exists s, cl.
  - intros r x' ms' (-> & cs' & Hct & Hck & s' & cl' & Hx' & Hl' & HP' & HA'). apply HQ; [done|done|].
    exists (srv s' cs' q sq cl'). split; [done|]. exists s', cs', q, sq, cl'. done.
Qed.

Lemma wp_set_rdset P x A A0 (Q : unit → thr_st T → mem → Prop) :
  thr_at P x A → rtc astep A0 A →
  (∀ x', t_ctm x' = t_ctm x → t_clock x' = t_clock x → reaches P A0 x' → Q tt x' []) → wp rtmq_rsvr_set_rdset Q x [].
Proof.
  intros Hx HA HQ. unfold rtmq_rsvr_set_rdset. do 2 wp_step. rewrite (thr_cmd _ _ _ Hx). cbn [cassert]. do 4 wp_step. apply wp_bind.
  eapply (wp_thr_walk P rdset_body); [apply thr_sel; exact Hx|exact HA|intros q sq; apply rdset_body_ok|].
  intros r x' Hct Hck Hr. apply wp_ret. by apply HQ.
Qed.

Lemma wp_set_wrset P x A A0 (Q : unit → thr_st T → mem → Prop) :
  thr_at P x A → rtc astep A0 A →
  (∀ x', t_ctm x' = t_ctm x → t_clock x' = t_clock x → reaches P A0 x' → Q tt x' []) → wp rtmq_rsvr_set_wrset Q x [].
Proof.
  intros Hx HA HQ. unfold rtmq_rsvr_set_wrset. do 2 wp_step. apply wp_bind.
  eapply (wp_thr_walk P wrset_body); [apply thr_sel; exact Hx|exact HA|intros q sq; apply wrset_body_ok|].
  intros r x' Hct Hck Hr. apply wp_ret. by apply HQ.
Qed.

Lemma wp_set_ctm x (Q : unit → thr_st T → mem → Prop) ms :
  Q tt (set_world (default 0 (head (t_clock x))) (t_pipe x) (tail (t_clock x)) (t_closed x) x) ms → wp set_ctm Q x ms.
Proof. intros HQ. unfold set_ctm, c_time. do 5 wp_step. apply wp_ret. unfold modify, wp. exact HQ. Qed.

Abbreviation reaches_some := (reaches (λ _, True)).

Lemma wp_recv_cmd x A A0 (Q : Z → thr_st T → mem → Prop) :
  thr_rep x A → rtc astep A0 A → (∀ r x', reaches_some A0 x' → Q r x' []) → wp rtmq_rsvr_recv_cmd Q x [].
Proof.
  intros Hx HA HQ. unfold rtmq_rsvr_recv_cmd. do 4 wp_step. apply (thr_world _ (t_ctm x) (tail (t_pipe x)) (t_clock x)) in Hx.
  assert (∀ r, Q r (set_world (t_ctm x) (tail (t_pipe x)) (t_clock x) (t_closed x) x) []) as Hsame.
  { intros r. apply HQ. by exists A. }
  destruct (default None (head (t_pipe x))) as [type|]; [|apply wp_ret, Hsame].
  destruct Hx as (s & cs & q & sq & cl & -> & Hx & Hl & _).
  destruct (type =? RTMQ_CMD_ADD_SCK); [|destruct (type =? RTMQ_CMD_DIST_REQ); [|apply wp_ret, Hsame]].
  - eapply wp_add_conn_hdl; [exact Hx|exact Hl|]. intros x' cs' Hx' Hl' Hst. apply HQ. exists (srv s cs' [] sq cl). split; [by etransitivity|].
    exists s, cs', [], sq, cl. split_and!; try done. by apply Forall_true.
  - eapply wp_dist_data; [exact Hx|exact Hl|]. intros x' s' cs' Hx' Hl' Hst. apply HQ. exists (srv s' cs' q [] cl). split; [by etransitivity|].
    exists s', cs', q, [], cl. split_and!; try done. by apply Forall_true.
Qed.

Lemma wp_trav_recv x A A0 (Q : Z → thr_st T → mem → Prop) :
  thr_rep x A → rtc astep A0 A → (∀ r x', reaches_some A0 x' → Q r x' []) → wp rtmq_rsvr_trav_recv Q x [].
Proof.
  intros Hx HA HQ. unfold rtmq_rsvr_trav_recv. apply wp_bind, wp_set_ctm. apply wp_bind.
  eapply (wp_thr_walk (λ _, True) recv_body); [apply thr_world; exact Hx|exact HA|intros q sq; apply recv_body_ok|].
  intros r x' _ _ Hr. apply wp_ret. by apply HQ.
Qed.

Lemma wp_trav_send x A A0 (Q : Z → thr_st T → mem → Prop) :
  thr_rep x A → rtc astep A0 A → (∀ r x', reaches_some A0 x' → Q r x' []) → wp rtmq_rsvr_trav_send Q x [].
Proof.
  intros Hx HA HQ. unfold rtmq_rsvr_trav_send. apply wp_bind, wp_set_ctm.
  eapply (wp_thr_walk (λ _, True) send_body); [apply thr_world; exact Hx|exact HA|intros q sq; apply send_body_ok|].
  intros r x' _ _ Hr. by apply HQ.
Qed.

Lemma wp_event_core x A A0 (Q : Z → thr_st T → mem → Prop) :
  thr_rep x A → rtc astep A0 A → (∀ r x', reaches_some A0 x' → Q r x' []) → wp rtmq_rsvr_event_core_hdl Q x [].
Proof.
  intros Hx HA HQ. unfold rtmq_rsvr_event_core_hdl. do 2 wp_step. apply wp_bind, wp_fd_isset; [exact (thr_cmd _ _ _ Hx)|]. apply wp_bind.
  assert (∀ x A, thr_rep x A → rtc astep A0 A → wp (rtmq_rsvr_trav_recv;; rtmq_rsvr_trav_send;; mret RTMQ_OK) Q x []) as Hrest.
  { intros x1 A1 Hx1 HA1. apply wp_bind. eapply wp_trav_recv; [exact Hx1|exact HA1|]. intros _ x2 (A2 & HA2 & Hx2).
    apply wp_bind. eapply wp_trav_send; [exact Hx2|exact HA2|]. intros _ x3 Hr. apply wp_ret. by apply HQ. }
  case_bool_decide.
  - apply wp_bind. eapply wp_recv_cmd; [exact Hx|exact HA|]. intros _ x1 (A1 & HA1 & Hx1). apply wp_ret. by apply (Hrest x1 A1).
  - apply wp_ret. by apply (Hrest x A).
Qed.

(** *** A time-out *)

Definition calm (now : Z) c : Prop := now - k_rdtm (n_k c) < 60.

Lemma thr_wake P x A : thr_at P x A → ∃ n A', t_rsvr x = Rsvr n (recv_total (t_rsvr x)) (drop_total (t_rsvr x)) ∧ astep A A' ∧
  thr_at P (set_core (t_mem x) (add_cmds (proc_req n <$> seq 0 (length (recvq (t_ctx x)))) (t_ctx x)) (t_rsvr x) (t_err x) x) A'.
Proof.
  intros (s & cs & q & sq & cl & -> & Hx & Hl & HP). pose proof Hx as [(M & rss & sps & Hm & Hcx & Hi & Hsq & Hls) Hbase Hrv _ _ _ _ _ Hsend _ _ _ Hin _ _].
  eexists (s_id s), _. split; [by rewrite Hrv|]. split; [apply st_wake|].
  pose proof (cx_len _ _ _ Hcx) as (Hlen & _). cbn in Hlen. rewrite Hlen.
  eexists (set_scmds _ s), cs, q, sq, cl. split; [done|]. split; [|done].
  eapply core_recore; [exact Hx| |exact Hsend|done|exact Hrv|exact Hin].
  exists M, rss, sps. split_and!; [exact Hm| |exact Hi|exact Hsq|exact Hls]. destruct Hcx as [? Hcmds ? ? ? ? ? ?]. constructor; try done.
  cbn. by rewrite Hcmds.
Qed.

Lemma wp_event_timeout x A A0 (Q : Z → thr_st T → mem → Prop) :
  thr_at (calm (default 0 (head (t_clock x)))) x A → rtc astep A0 A → (∀ r x', reaches_some A0 x' → Q r x' []) →
  wp rtmq_rsvr_event_timeout_hdl Q x [].
Proof.
  intros Hx HA HQ. unfold rtmq_rsvr_event_timeout_hdl. apply wp_bind, wp_set_ctm. do 2 wp_step.
  destruct (_ =? NULL).
  - apply wp_ret, HQ. exists A. split; [done|]. by eapply thr_any, thr_world.
  - apply wp_bind. eapply (wp_thr_walk (calm (default 0 (head (t_clock x)))) timeout_body); [apply thr_world; exact Hx|exact HA| |].
    { intros q sq. apply timeout_body_ok. intros c Hc. exact Hc. }
    intros _ x1 _ _ (A1 & HA1 & Hx1). do 2 wp_step. apply wp_bind. destruct (thr_wake _ _ _ Hx1) as (n & A2 & Hn & Hst & Hx2).
    unfold on_tctx. apply wp_zoom. rewrite Hn at 1. cbn [rv_id]. eapply wp_cmd_all. apply wp_ret, HQ. exists A2. split; [by eapply rtc_r|].
    by eapply thr_any.
Qed.

(** *** A turn *)

(** [select] fails only when a signal interrupts it; and at a time-out no
    connection has been silent for 60 seconds, since the release of one that has
    is unsound. *)
Definition turn_safe (ev : sel_ev) x : Prop :=
  match ev with
  | SelErr e => e = EINTR
  | SelTimeout => map_Forall (λ _ k, default 0 (head (t_clock x)) - k_rdtm k < 60) (cell (t_scks x))
  | SelReady _ _ => True
  end.

Lemma thr_calm x A : thr_rep x A → turn_safe SelTimeout x → thr_at (calm (default 0 (head (t_clock x)))) x A.
Proof.
  intros (s & cs & q & sq & cl & -> & Hx & Hl & _) Hsafe. exists s, cs, q, sq, cl. split_and!; try done. apply Forall_forall. intros c Hc.
  apply (Hsafe (n_sck c) (n_k c)). apply (hp_get _ _ (co_scks _ _ _ _ _ _ _ _ Hx)). apply list_elem_of_fmap. by exists c.
Qed.

Lemma wp_routine ev x A (Q : unit → thr_st T → mem → Prop) :
  thr_rep x A → turn_safe ev x → (∀ x', reaches_some A x' → Q tt x' []) → wp (rtmq_rsvr_routine ev) Q x [].
Proof.
  intros Hx Hsafe HQ. set (now := default 0 (head (t_clock x))).
  assert (∃ P, thr_at P x A ∧ (ev = SelTimeout → P = calm now)) as (P & HP & Hev).
  { destruct ev; [by exists (λ _, True)| |by exists (λ _, True)]. exists (calm now). split; [by apply thr_calm|done]. }
  unfold rtmq_rsvr_routine. apply wp_bind. eapply wp_set_rdset; [exact HP|reflexivity|]. intros x1 _ Hck1 (A1 & HA1 & Hx1).
  apply wp_bind. eapply wp_set_wrset; [exact Hx1|exact HA1|]. intros x2 _ Hck2 (A2 & HA2 & Hx2). destruct ev as [e| |rd wr].
  - cbn in Hsafe. subst e. change (EINTR =? EINTR) with true. apply wp_ret, HQ. exists A2. split; [done|]. by eapply thr_any.
  - apply wp_bind. rewrite (Hev eq_refl) in Hx2. eapply wp_event_timeout; [|exact HA2|intros _ x3 Hr; by apply wp_ret, HQ].
    rewrite Hck2, Hck1. exact Hx2.
  - do 2 wp_step. apply wp_bind. eapply wp_event_core; [eapply thr_any, thr_sel, Hx2|exact HA2|]. intros _ x3 Hr. by apply wp_ret, HQ.
Qed.
End Turn.
