(* ===== verification/RtmqServer.v ===== *)
(** The server of RTMQ as a whole: the receive threads of [RtmqConn] with the
    threads around them, the one that accepts connections
    ([lib/rtmq/server/rtmq_lsn.c]), the one that hands messages to the receive
    threads ([lib/rtmq/server/rtmq_dist.c]), the workers
    ([lib/rtmq/server/rtmq_worker.c]), and the function by which an application
    sends ([lib/rtmq/server/rtmq_recv.c]).  A step of the server is a turn of the
    loop of one thread, or a call of the application. *)
From stdpp Require Import gmap.
From S2P Require Import Prelude Heap Table HashTab List2 Ring Slot Mref Bytes Trees RtmqRecv RtmqComm RtmqRsvr RtmqSend RtmqConn.
Open Scope Z_scope.

Definition CONN_ITEM_SIZE : Z := 64.
Definition RTRD_DISP_POP_NUM : Z := 1024.

(** ** Data *)

(** What [accept] returns: a connection, or an error. *)
Inductive acc_ev := AccFd (fd : Z) (evs : list rd_ev) (wr : list wr_ev) | AccErr (errno : Z).

(** What [select] reports for a set of one descriptor. *)
Inductive poll_ev := PollErr (errno : Z) | PollTimeout | PollReady.

(** The counters of a worker. *)
Record wcount := WCount { wc_proc : Z; wc_drop : Z; wc_err : Z }.

(** The server: the memory and the context the threads share, the receive threads,
    [listen.sid], the descriptors closed for want of room, [distq], the pipe of the
    distribution, the handlers registered, the workers, and the state of the
    application; [g_writes] tells whether the next writes to a pipe find room. *)
Record srv_st (T : Type → Type) (U : Type) := Server {
  g_mem : mref_st htree; g_ctx : rtmq_cntx_t T; g_thrs : list (thr_st T);
  g_sid : Z; g_refused : list Z;
  g_distq : list ring_t; g_dist_pipe : list (option Z);
  g_reg : T (rtmq_reg_t U); g_works : list wcount; g_app : U;
  g_writes : list bool }.
Arguments Server {_ _} _ _ _ _ _ _ _ _ _ _ _.
Arguments g_mem {_ _} _.
Arguments g_ctx {_ _} _.
Arguments g_thrs {_ _} _.
Arguments g_sid {_ _} _.
Arguments g_refused {_ _} _.
Arguments g_distq {_ _} _.
Arguments g_dist_pipe {_ _} _.
Arguments g_reg {_ _} _.
Arguments g_works {_ _} _.
Arguments g_app {_ _} _.
Arguments g_writes {_ _} _.

Section Ops.
Context {T : Type → Type} `{TreeOps T} {U : Type}.
Abbreviation GM := (SM (srv_st T U)).

Definition set_shared mem ctx thrs (x : srv_st T U) : srv_st T U :=
  Server mem ctx thrs (g_sid x) (g_refused x) (g_distq x) (g_dist_pipe x) (g_reg x) (g_works x) (g_app x) (g_writes x).
Definition set_lsn sid refused (x : srv_st T U) : srv_st T U :=
  Server (g_mem x) (g_ctx x) (g_thrs x) sid refused (g_distq x) (g_dist_pipe x) (g_reg x) (g_works x) (g_app x) (g_writes x).
Definition set_dist qs pipe (x : srv_st T U) : srv_st T U :=
  Server (g_mem x) (g_ctx x) (g_thrs x) (g_sid x) (g_refused x) qs pipe (g_reg x) (g_works x) (g_app x) (g_writes x).
Definition set_works mem ctx reg works app (x : srv_st T U) : srv_st T U :=
  Server mem ctx (g_thrs x) (g_sid x) (g_refused x) (g_distq x) (g_dist_pipe x) reg works app (g_writes x).
Definition set_writes l (x : srv_st T U) : srv_st T U :=
  Server (g_mem x) (g_ctx x) (g_thrs x) (g_sid x) (g_refused x) (g_distq x) (g_dist_pipe x) (g_reg x) (g_works x) (g_app x) l.

Definition on_gmem {A} : SM (mref_st htree) A → GM A := zoom g_mem (λ m x, set_shared m (g_ctx x) (g_thrs x) x).
Definition on_gctx {A} : SM (rtmq_cntx_t T) A → GM A := zoom g_ctx (λ c x, set_shared (g_mem x) c (g_thrs x) x).

(** Work on the thread [i], which shares the memory and the context. *)
Definition on_thr {A} (i : Z) (m : SM (thr_st T) A) : GM A :=
  x ← get;
  t ← deref (if i <? 0 then None else g_thrs x !! Z.to_nat i);
  y ← run_on (set_core (g_mem x) (g_ctx x) (t_rsvr t) (t_err t) t) m;
  put (set_shared (t_mem (snd y)) (t_ctx (snd y)) (<[Z.to_nat i := snd y]> (g_thrs x)) x);;
  mret (fst y).

(** Work on the ring [i] of [distq]. *)
Definition on_distq {A} (i : Z) (m : SM ring_t A) : GM A :=
  x ← get;
  r ← deref (if i <? 0 then None else g_distq x !! Z.to_nat i);
  y ← run_on r m;
  modify (λ x, set_dist (<[Z.to_nat i := snd y]> (g_distq x)) (g_dist_pipe x) x);;
  mret (fst y).

Definition set_titems its (t : thr_st T) : thr_st T :=
  Thr (t_mem t) (t_ctx t) (t_rsvr t) (t_err t) (t_connections t) (t_cmd_fd t) (t_max t) (t_ctm t) (t_rdset t) (t_wrset t) (t_conns t)
    (t_scks t) (t_connq t) its (t_sendq_max t) (t_sendq t) (t_pipe t) (t_clock t) (t_closed t).

(** [pipe_write]: the pipes do not block. *)
Definition pipe_room : GM bool :=
  x ← get; put (set_writes (tail (g_writes x)) x);; mret (default true (head (g_writes x))).

(** The command [type] goes to the thread [idx]. *)
Definition recv_cmd_write (idx type : Z) : GM Z :=
  ok ← pipe_room;
  if ok : bool then
    on_thr idx (modify (λ t, set_world (t_ctm t) (t_pipe t ++ [Some type]) (t_clock t) (t_closed t) t));;
    mret 1
  else mret (-1).

(** *** The listening thread *)

Definition rtmq_add_sck_notify (idx : Z) : GM Z :=
  n ← recv_cmd_write idx RTMQ_CMD_ADD_SCK;
  mret (if n <? 0 then RTMQ_ERR else RTMQ_OK).

(** [accept], again while a signal interrupts it; with nothing to accept it does
    not return. *)
Fixpoint lsn_accept_fd (l : list acc_ev) : GM (option (Z * list rd_ev * list wr_ev)) :=
  match l with
  | [] => blocked
  | AccFd fd evs wr :: _ => mret (Some (fd, evs, wr))
  | AccErr e :: l => if e =? EINTR then lsn_accept_fd l else mret None
  end.

Definition rtmq_lsn_accept (l : list acc_ev) : GM Z :=
  a ← lsn_accept_fd l;
  match a with
  | None => mret RTMQ_ERR
  | Some (fd, evs, wr) =>
      x ← get;
      if decide (length (g_thrs x) = O) then crash else
      let idx := Z.rem (g_sid x) (Z.of_nat (length (g_thrs x))) in
      item ← on_thr idx (on_connq (queue_malloc CONN_ITEM_SIZE));
      if item =? NULL then
        modify (λ x, set_lsn (g_sid x) (g_refused x ++ [fd]) x);;
        rtmq_add_sck_notify idx;;
        mret RTMQ_ERR
      else
        modify (λ x, set_lsn (u64 (g_sid x + 1)) (g_refused x) x);;
        x ← get;
        on_thr idx (modify (λ t, set_titems (<[item := ConnItem fd (g_sid x) evs wr]> (t_items t)) t));;
        on_thr idx (on_connq (queue_push item));;
        rtmq_add_sck_notify idx;;
        mret RTMQ_OK
  end.

(** A turn of the loop of the listening thread; [l] is for [accept]. *)
Definition rtmq_lsn_routine (ev : poll_ev) (l : list acc_ev) : GM unit :=
  match ev with
  | PollErr e => if e =? EINTR then mret tt else crash
  | PollTimeout => mret tt
  | PollReady => rtmq_lsn_accept l;; mret tt
  end.

(** *** Sending *)

Definition rtmq_cmd_send_dist_req : GM Z :=
  ok ← pipe_room;
  if ok : bool then modify (λ x, set_dist (g_distq x) (g_dist_pipe x ++ [Some RTMQ_CMD_DIST_REQ]) x);; mret RTMQ_OK
  else mret RTMQ_ERR.

Definition rtmq_async_send (type dest : Z) (data : list Z) : GM Z :=
  x ← get;
  if decide (length (g_distq x) = O) then crash else
  r ← on_gctx c_rand;
  let idx := Z.rem r (Z.of_nat (length (g_distq x))) in
  let len := Z.of_nat (length data) in
  addr ← on_gmem (mref_alloc (HEAD_SIZE + len) 0 mem_alloc mem_free);
  if addr =? NULL then mret RTMQ_ERR else
  on_gmem (wr_head addr 0 (Head (u32 type) (u32 dest) RTMQ_EXP_MESG (u32 len) RTMQ_CHKSUM_VAL));;
  on_gmem (blk_wr addr HEAD_SIZE data);;
  ret ← on_distq idx (ring_push addr);
  if negb (ret =? 0) then on_gmem (mref_dec addr);; mret RTMQ_ERR else
  rtmq_cmd_send_dist_req;;
  mret RTMQ_OK.

(** *** The distribution *)

Definition rtmq_dsvr_cmd_dist_req (idx : Z) : GM Z :=
  n ← recv_cmd_write idx RTMQ_CMD_DIST_REQ;
  mret (if n >? 0 then 0 else -1).

(** One message: the number of [rand()] is used if the node has a thread. *)
Definition dsvr_item (data : ptr) : GM unit :=
  head ← on_gmem (rd_head data 0);
  x ← get;
  idx ← on_gctx (on_tabs (rtmq_node_to_svr_map_rand (default 0 (list.head (rands (g_ctx x)))) (i32 (h_nid head))));
  if idx <? 0 then on_gmem (mref_dec data);; mret tt else
  on_gctx c_rand;;
  ret ← on_thr idx (on_sendq (ring_push data));
  if negb (ret =? 0) then on_gmem (mref_dec data);; mret tt else
  rtmq_dsvr_cmd_dist_req idx;;
  mret tt.

Definition dsvr_queue (d : nat) : GM unit :=
  x ← get;
  q ← deref (g_distq x !! d);
  let num := Z.min (ring_used q) RTRD_DISP_POP_NUM in
  if 0 =? num then mret tt else
  data ← on_distq (Z.of_nat d) (ring_mpop (Z.to_nat num));
  for_each dsvr_item data.

Definition rtmq_dsvr_dist_data_hdl : GM Z :=
  x ← get;
  for_each dsvr_queue (seq 0 (length (g_distq x)));;
  mret RTMQ_OK.

Definition rtmq_dsvr_cmd_recv_and_proc : GM Z :=
  x ← get;
  put (set_dist (g_distq x) (tail (g_dist_pipe x)) x);;
  match default None (head (g_dist_pipe x)) with
  | None => mret RTMQ_ERR
  | Some type => if type =? RTMQ_CMD_DIST_REQ then rtmq_dsvr_dist_data_hdl else mret RTMQ_ERR
  end.

(** A turn of the loop of the distribution. *)
Definition rtmq_dsvr_routine (ev : poll_ev) : GM unit :=
  match ev with
  | PollErr _ => mret tt
  | PollTimeout => rtmq_dsvr_dist_data_hdl;; mret tt
  | PollReady => rtmq_dsvr_cmd_recv_and_proc;; mret tt
  end.

(** *** The workers *)

(** The worker [w] serves the queue [rqidx]. *)
Definition work_on (w : nat) (rqidx : Z) : GM Z :=
  x ← get;
  c ← deref (g_works x !! w);
  y ← run_on (g_mem x, Worker (wc_proc c) (wc_drop c) (wc_err c) (g_reg x) (g_ctx x) (g_app x)) (rtmq_worker_cmd_proc_req_hdl rqidx);
  let k := snd (snd y) in
  put (set_works (fst (snd y)) (wk_ctx k) (wk_reg k) (<[w := WCount (wk_proc k) (wk_drop k) (wk_err k)]> (g_works x)) (wk_app k) x);;
  mret (fst y).

(** The first command for the worker [w], and the others. *)
Fixpoint take_cmd (w : Z) (l : list (Z * rtmq_cmd_proc_req_t)) : option (rtmq_cmd_proc_req_t * list (Z * rtmq_cmd_proc_req_t)) :=
  match l with
  | [] => None
  | c :: l => if fst c =? w then Some (snd c, l) else (λ x, (fst x, c :: snd x)) <$> take_cmd w l
  end.

(** [read] fails when the pipe is empty. *)
Definition rtmq_worker_event_core_hdl (w : nat) : GM Z :=
  x ← get;
  match take_cmd (Z.of_nat w) (cmds (g_ctx x)) with
  | None => mret RTMQ_ERR_RECV_CMD
  | Some (req, l) =>
      on_gctx (modify (set_cmds l));;
      work_on w (pr_rqidx req)
  end.

(** A turn of the loop of the worker [w]. *)
Definition rtmq_worker_routine (w : nat) (ev : poll_ev) : GM unit :=
  match ev with
  | PollErr e => if e =? EINTR then mret tt else crash
  | PollTimeout =>
      for_each (λ idx : nat, work_on w (RTMQ_WORKER_HDL_QNUM * Z.of_nat w + Z.of_nat idx);; mret tt) (seq 0 (Z.to_nat RTMQ_WORKER_HDL_QNUM))
  | PollReady => rtmq_worker_event_core_hdl w;; mret tt
  end.

(** *** Steps *)

Inductive action :=
  | TurnRecv (i : nat) (ev : sel_ev)
  | TurnListen (ev : poll_ev) (l : list acc_ev)
  | CallSend (type dest : Z) (data : list Z)
  | TurnDist (ev : poll_ev)
  | TurnWork (w : nat) (ev : poll_ev).

Definition act (a : action) : GM unit :=
  match a with
  | TurnRecv i ev => on_thr (Z.of_nat i) (rtmq_rsvr_routine ev)
  | TurnListen ev l => rtmq_lsn_routine ev l
  | CallSend type dest data => rtmq_async_send type dest data;; mret tt
  | TurnDist ev => rtmq_dsvr_routine ev
  | TurnWork w ev => rtmq_worker_routine w ev
  end.
End Ops.
