(* ===== verification/RtmqSys.v ===== *)
(** The server of RTMQ as its peers and the application see it: the receive
    threads of [RtmqAbs] share the accounts, the map of the nodes and the receive
    queues, between the listening thread, the distribution and the workers.  Its
    invariants are the promises of the whole server. *)
From stdpp Require Import fin_maps gmap.
From S2P Require Import Prelude Heap Table HashTab TreeRel Trees Vector Mref Bytes RtmqRecv RtmqMem RtmqRecvSpec RtmqComm RtmqCommSpec RtmqRsvr RtmqRsvrSpec RtmqExp RtmqWork RtmqConn RtmqAbs RtmqServer.
Open Scope Z_scope.

(** ** State *)

(** A receive thread; its number is its place. *)
Record athread := AThr {
  at_recv : Z; at_drop : Z; at_conns : list aconn; at_new : list rtmq_conn_item_t; at_sendq : list mesg; at_closed : list aconn }.

(** The last three fields tell the story of the server: the connections accepted,
    the messages the application sent, and those its handlers got. *)
Record asystem (U : Type) := ASys {
  y_cnid : Z; y_acc : gmap (list Z) (list Z); y_map : gmap Z (list Z);
  y_blocks : list (list ptr); y_in : list (list mesg); y_cmds : list (Z * rtmq_cmd_proc_req_t); y_rands : list Z;
  y_thrs : list athread; y_distq : list (list mesg); y_works : list wcount; y_app : U;
  y_accepted : list rtmq_conn_item_t; y_sent : list mesg; y_served : list mesg }.
Arguments ASys {_} _ _ _ _ _ _ _ _ _ _ _ _ _ _.
Arguments y_cnid {_} _.
Arguments y_acc {_} _.
Arguments y_map {_} _.
Arguments y_blocks {_} _.
Arguments y_in {_} _.
Arguments y_cmds {_} _.
Arguments y_rands {_} _.
Arguments y_thrs {_} _.
Arguments y_distq {_} _.
Arguments y_works {_} _.
Arguments y_app {_} _.
Arguments y_accepted {_} _.
Arguments y_sent {_} _.
Arguments y_served {_} _.

Section Sys.
Context {U : Type}.
Implicit Types (y : asystem U) (t : athread) (G : gmap Z (rtmq_reg_t U)).

(** The thread [t], of number [i], with what it shares, and back. *)
Definition share_at (i : nat) t y : ashare :=
  AShare (y_cnid y) (Z.of_nat i) (y_acc y) (y_map y) (y_blocks y) (y_in y) (at_recv t) (at_drop t) (y_cmds y) (y_rands y).
Definition thread_view (i : nat) t y : aserver := ASrv (share_at i t y) (at_conns t) (at_new t) (at_sendq t) (at_closed t).
Definition thread_of (v : aserver) : athread :=
  AThr (s_recv (v_share v)) (s_drop (v_share v)) (v_conns v) (v_new v) (v_sendq v) (v_closed v).
Definition after_turn (i : nat) (v : aserver) y : asystem U :=
  let s := v_share v in
  ASys (s_cnid s) (s_acc s) (s_map s) (s_blocks s) (s_in s) (s_cmds s) (s_rands s)
    (<[i := thread_of v]> (y_thrs y)) (y_distq y) (y_works y) (y_app y) (y_accepted y) (y_sent y) (y_served y).

Definition set_thrs ts y : asystem U :=
  ASys (y_cnid y) (y_acc y) (y_map y) (y_blocks y) (y_in y) (y_cmds y) (y_rands y) ts (y_distq y) (y_works y) (y_app y)
    (y_accepted y) (y_sent y) (y_served y).
Definition set_accepted its y : asystem U :=
  ASys (y_cnid y) (y_acc y) (y_map y) (y_blocks y) (y_in y) (y_cmds y) (y_rands y) (y_thrs y) (y_distq y) (y_works y) (y_app y)
    its (y_sent y) (y_served y).
Definition set_ydist qs sent y : asystem U :=
  ASys (y_cnid y) (y_acc y) (y_map y) (y_blocks y) (y_in y) (y_cmds y) (y_rands y) (y_thrs y) qs (y_works y) (y_app y)
    (y_accepted y) sent (y_served y).
Definition set_yrands rs y : asystem U :=
  ASys (y_cnid y) (y_acc y) (y_map y) (y_blocks y) (y_in y) (y_cmds y) rs (y_thrs y) (y_distq y) (y_works y) (y_app y)
    (y_accepted y) (y_sent y) (y_served y).
Definition set_ywork inq cs ws u served y : asystem U :=
  ASys (y_cnid y) (y_acc y) (y_map y) (y_blocks y) inq cs (y_rands y) (y_thrs y) (y_distq y) ws u
    (y_accepted y) (y_sent y) served.

Definition thr_accept (it : rtmq_conn_item_t) t : athread :=
  AThr (at_recv t) (at_drop t) (at_conns t) (at_new t ++ [it]) (at_sendq t) (at_closed t).
Definition thr_send (m : mesg) t : athread :=
  AThr (at_recv t) (at_drop t) (at_conns t) (at_new t) (at_sendq t ++ [m]) (at_closed t).

Definition awork_of (c : wcount) (u : U) : awork U := AWork (wc_proc c) (wc_drop c) (wc_err c) u.
Definition count_of (a : awork U) : wcount := WCount (aw_proc a) (aw_drop a) (aw_err a).

Inductive ystep G : asystem U → asystem U → Prop :=
  | y_turn y i t v : y_thrs y !! i = Some t → astep (thread_view i t y) v → ystep G y (after_turn i v y)
  | y_accept y i t it : y_thrs y !! i = Some t →
      ystep G y (set_accepted (y_accepted y ++ [it]) (set_thrs (<[i := thr_accept it t]> (y_thrs y)) y))
  | y_send y d q m : y_distq y !! d = Some q → ¬ is_ack m →
      ystep G y (set_ydist (<[d := q ++ [m]]> (y_distq y)) (y_sent y ++ [m]) y)
  (* a message goes to a receive thread of its node *)
  | y_route y d m q l i t : y_distq y !! d = Some (m :: q) → y_map y !! i32 (h_nid (m_head m)) = Some l → Z.of_nat i ∈ l →
      y_thrs y !! i = Some t →
      ystep G y (set_ydist (<[d := q]> (y_distq y)) (y_sent y) (set_thrs (<[i := thr_send m t]> (y_thrs y)) y))
  (* it is lost: its node has no connection, or a queue is full *)
  | y_lost y d m q : y_distq y !! d = Some (m :: q) → ystep G y (set_ydist (<[d := q]> (y_distq y)) (y_sent y) y)
  (* [rand()] is called *)
  | y_rand y : ystep G y (set_yrands (tail (y_rands y)) y)
  (* a worker reads a command *)
  | y_cmd y cs : cs ⊆ y_cmds y → ystep G y (set_ywork (y_in y) cs (y_works y) (y_app y) (y_served y) y)
  (* it hands the messages of a queue to the handlers *)
  | y_serve y w c i ms a : y_works y !! w = Some c → y_in y !! i = Some ms →
      for_each (serve G) ms (awork_of c (y_app y)) [] = Ok (tt, a, []) →
      ystep G y (set_ywork (<[i := []]> (y_in y)) (y_cmds y) (<[w := count_of a]> (y_works y)) (aw_app a) (y_served y ++ ms) y).

(** A step by which no connection is accepted and the application sends nothing. *)
Record quiet y y' : Prop := Quiet {
  qt_acc : y_acc y' = y_acc y; qt_accepted : y_accepted y' = y_accepted y; qt_sent : y_sent y' = y_sent y }.
Definition qstep G y y' : Prop := ystep G y y' ∧ quiet y y'.

Lemma rand_step G y : qstep G y (set_yrands (tail (y_rands y)) y).
Proof. by split; [apply y_rand|]. Qed.

Lemma quiet_steps G y y' : rtc (qstep G) y y' → rtc (ystep G) y y' ∧ quiet y y'.
Proof.
  induction 1 as [|y1 y2 y3 [Hst [Q1 Q2 Q3]] _ [Hr [Q1' Q2' Q3']]]; [done|]. split; [by eapply rtc_l|]. constructor; congruence.
Qed.

(** ** Promises *)

Definition thr_conns t : list aconn := at_conns t ++ at_closed t.
Definition conns y : list aconn := concat (thr_conns <$> y_thrs y).
Definition sendqs y : list mesg := concat (at_sendq <$> y_thrs y).

(** The message [m] was sent by the application, to a node. *)
Definition to_send y (m : mesg) : Prop := m ∈ y_sent y ∧ ¬ is_ack m ∧ h_nid (m_head m) ≠ NO_NID.

(** The receive threads of a node are among the [n] there are. *)
Definition map_ok (n : nat) (N : gmap Z (list Z)) : Prop :=
  map_Forall (λ nid l, is_node nid ∧ Forall (λ i, 0 ≤ i < Z.of_nat n) l) N.

(** The commands to the workers name receive queues. *)
Definition cmds_ok (n : nat) (cs : list (Z * rtmq_cmd_proc_req_t)) : Prop := Forall (λ c, 0 ≤ pr_rqidx c.2 < Z.of_nat n) cs.

Record yinv y : Prop := {
  yi_conns : Forall (conn_inv (to_send y) (y_acc y)) (conns y);
  yi_in : ∀ m, m ∈ concat (y_in y) ++ y_served y → sent_by (y_acc y) (conns y) m;
  yi_sendq : Forall (to_send y) (sendqs y);
  yi_items : (c_it <$> conns y) ++ concat (at_new <$> y_thrs y) ≡ₚ y_accepted y;
  yi_origin : Forall origin (conns y);
  yi_out : concat (app_puts <$> conns y) ++ sendqs y ++ concat (y_distq y) ⊆+ y_sent y;
  yi_app : Forall (λ m, ¬ is_ack m) (y_sent y);
  yi_once : y_served y ++ concat (y_in y) ⊆+ concat (c_read <$> conns y);
  yi_map : map_ok (length (y_thrs y)) (y_map y);
  yi_queues : y_in y ≠ [] ∧ length (y_in y) = (2 * length (y_works y))%nat;
  yi_cmds : cmds_ok (length (y_in y)) (y_cmds y);
}.

(** *** The other threads *)

Lemma insert_Permutation {A} (l : list A) i x z : l !! i = Some x → <[i := z]> l ≡ₚ z :: delete i l.
Proof.
  revert i. induction l as [|a l IH]; intros [|i]; cbn; try done. intros Hl. rewrite (IH i Hl). apply Permutation_swap.
Qed.

Lemma concat_take {A} (ls : list (list A)) i l : ls !! i = Some l → concat ls ≡ₚ l ++ concat (delete i ls).
Proof. intros Hl. by rewrite (delete_Permutation _ _ _ Hl) at 1. Qed.
Lemma concat_put {A} (ls : list (list A)) i l l' : ls !! i = Some l → concat (<[i := l']> ls) ≡ₚ l' ++ concat (delete i ls).
Proof. intros Hl. by rewrite (insert_Permutation _ _ _ _ Hl). Qed.

Section At.
Context {A B : Type} (f : B → list A).
Implicit Types (ts : list B) (z : B).

Lemma concat_at ts i z : ts !! i = Some z → concat (f <$> ts) ≡ₚ f z ++ concat (f <$> delete i ts).
Proof. intros Ht. by rewrite (delete_Permutation _ _ _ Ht) at 1. Qed.
Lemma concat_upd ts i z z' : ts !! i = Some z → concat (f <$> <[i := z']> ts) ≡ₚ f z' ++ concat (f <$> delete i ts).
Proof. intros Ht. by rewrite (insert_Permutation _ _ _ _ Ht). Qed.
Lemma concat_same ts i z z' : ts !! i = Some z → f z' = f z → concat (f <$> <[i := z']> ts) ≡ₚ concat (f <$> ts).
Proof. intros Ht Hf. by rewrite (concat_upd _ _ _ _ Ht), (concat_at _ _ _ Ht), Hf. Qed.
Lemma concat_snoc ts i z z' x : ts !! i = Some z → f z' = f z ++ [x] → concat (f <$> <[i := z']> ts) ≡ₚ x :: concat (f <$> ts).
Proof. intros Ht Hf. rewrite (concat_upd _ _ _ _ Ht), (concat_at _ _ _ Ht), Hf. solve_Permutation. Qed.
End At.

(** *** A turn of a thread *)

Lemma Forall_swap_remove {A} (P : A → Prop) i l : Forall P l → Forall P (swap_remove i l).
Proof.
  intros Hl. unfold swap_remove. destruct l as [|x l _] using rev_ind; [done|]. rewrite last_snoc, removelast_last.
  apply Forall_app in Hl as [Hl Hx]. case_decide; [done|]. apply Forall_insert; [done|]. by inversion Hx.
Qed.

Lemma map_del_ok n nid i N : map_ok n N → map_ok n (abs_map_del nid i N).2.
Proof.
  intros HN. unfold abs_map_del. destruct (N !! nid) as [l|] eqn:Hl; [|done]. cbn [snd].
  case_match; [|done]. case_decide; [by apply map_Forall_delete|].
  apply map_Forall_insert_2; [|done]. destruct (HN _ _ Hl) as [Hn Hf]. split; [done|]. by apply Forall_swap_remove.
Qed.

Lemma map_add_ok n nid i N : map_ok n N → is_node nid → 0 ≤ i < Z.of_nat n → map_ok n (abs_map_add nid i N).2.
Proof.
  intros HN Hnid Hi. unfold abs_map_add. case_decide; [done|]. apply map_Forall_insert_2; [|done]. split; [done|].
  apply Forall_snoc; [|done]. destruct (N !! nid) as [l|] eqn:Hl; [|constructor]. by destruct (HN _ _ Hl).
Qed.

(** What the handlers do not touch. *)
Record static (s s' : ashare) : Prop := {
  st_cnid : s_cnid s' = s_cnid s; st_id : s_id s' = s_id s; st_acc : s_acc s' = s_acc s; st_blocks : s_blocks s' = s_blocks s;
  st_len : length (s_in s') = length (s_in s) }.

Lemma mesg_static m a : static (share_of a) (share_of (abs_mesg m a).1).
Proof.
  assert (∀ b, a_cnid b = a_cnid a → a_id b = a_id a → a_acc b = a_acc a → a_blocks b = a_blocks a → length (a_in b) = length (a_in a) → static (share_of a) (share_of b)) as Hs by done.
  unfold abs_mesg, abs_auth, abs_exp. repeat case_match; apply Hs; try done. cbn. by rewrite length_alter.
Qed.

Lemma static_trans s1 s2 s3 : static s1 s2 → static s2 s3 → static s1 s3.
Proof. intros [] []. constructor; congruence. Qed.

Lemma deliver_static ms a : static (share_of a) (share_of (abs_deliver ms a).1).
Proof.
  revert a. induction ms as [|m ms IH]; intros a; cbn [abs_deliver]; [done|]. destruct (abs_mesg m a).2 eqn:Hm; [|apply mesg_static].
  eapply static_trans; [apply mesg_static|apply IH].
Qed.

Lemma mesg_map_ok n m a : mesg_fine m → 0 ≤ a_id a < Z.of_nat n → map_ok n (a_map a) → map_ok n (a_map (abs_mesg m a).1).
Proof.
  intros [_ Hm] Hi HN. unfold abs_mesg. destruct (Z.eqb_spec (h_flag (m_head m)) RTMQ_SYS_MESG) as [Hf|Hf].
  - specialize (Hm Hf). destruct (_ =? _); [|destruct (_ =? _); [by destruct (a_auth a)|done]]. destruct Hm as (_ & _ & _ & _ & Hn).
    unfold abs_auth. destruct (_ =? _); [done|]. destruct (auth_valid _ _ _); [|done].
    destruct (_ =? _); cbn [fst a_set_conn a_map]; by apply map_add_ok.
  - cbn [fst]. unfold abs_exp. by repeat case_match.
Qed.

Lemma deliver_map_ok n ms a : Forall mesg_fine ms → 0 ≤ a_id a < Z.of_nat n → map_ok n (a_map a) → map_ok n (a_map (abs_deliver ms a).1).
Proof.
  intros Hms. revert a. induction Hms as [|m ms Hm Hms IH]; intros a Hi HN; cbn [abs_deliver]; [done|].
  destruct (abs_mesg m a).2; [|by apply mesg_map_ok]. apply IH; [|by apply mesg_map_ok].
  pose proof (st_id _ _ (mesg_static m a)) as Hid. cbn in Hid. by rewrite Hid.
Qed.

Lemma astep_static v v' : astep v v' → static (v_share v) (v_share v').
Proof.
  destruct 1 as [s cs it q sq cl|s cs1 c cs2 q sq cl d evs ms r a Hs Hw Hd Hf|s cs1 c cs2 q sq cl d code evs ms r a ok Hs Hw Hd Hf Hok c'| | | | |]; try done.
  - pose proof (deliver_static ms (view s c [])) as [? ? ? ? ?]. rewrite Hd in *. done.
  - pose proof (deliver_static ms (view s c [])) as [? ? ? ? ?]. rewrite Hd in *. done.
Qed.

Lemma astep_map_ok v v' n : astep v v' → 0 ≤ s_id (v_share v) < Z.of_nat n → map_ok n (s_map (v_share v)) → map_ok n (s_map (v_share v')).
Proof.
  destruct 1 as [s cs it q sq cl|s cs1 c cs2 q sq cl d evs ms r a Hs Hw Hd Hf|s cs1 c cs2 q sq cl d code evs ms r a ok Hs Hw Hd Hf Hok c'| |s cs1 c cs2 q sq cl| | |];
    cbn [v_share]; intros Hi HN; try done.
  - pose proof (deliver_map_ok n ms (view s c []) Hf Hi HN) as Hma. by rewrite Hd in Hma.
  - pose proof (deliver_map_ok n ms (view s c []) Hf Hi HN) as Hma. rewrite Hd in Hma. by apply map_del_ok.
  - by apply map_del_ok.
Qed.

Lemma proc_req_all n id : cmds_ok n (proc_req id <$> seq 0 n).
Proof. apply Forall_fmap, Forall_forall. intros i Hi%elem_of_seq. cbn. lia. Qed.

Lemma mesg_cmds_ok m a : a_in a ≠ [] → cmds_ok (length (a_in a)) (a_cmds a) → cmds_ok (length (a_in a)) (a_cmds (abs_mesg m a).1).
Proof.
  intros Hin Hc. assert (0 < length (a_in a))%nat as Hl by (destruct (a_in a); [done|cbn; lia]).
  unfold abs_mesg. destruct (_ =? _).
  - unfold abs_auth. by repeat case_match.
  - cbn [fst]. unfold abs_exp. repeat case_match; cbn [a_set_in a_cmds]; try done; apply Forall_app; (split; [done|]); [|apply proc_req_all].
    apply Forall_singleton. cbn. set (r := default 0 (head (a_rands a))). pose proof (Z.rem_bound_abs r (Z.of_nat (length (a_in a)))). lia.
Qed.

Lemma deliver_cmds_ok n ms a : n = length (a_in a) → a_in a ≠ [] → cmds_ok n (a_cmds a) → cmds_ok n (a_cmds (abs_deliver ms a).1).
Proof.
  intros ->. revert a. induction ms as [|m ms IH]; intros a Hin Hc; cbn [abs_deliver]; [done|].
  pose proof (st_len _ _ (mesg_static m a)) as Hl. cbn in Hl. pose proof (mesg_cmds_ok m a Hin Hc) as Hc'.
  destruct (abs_mesg m a).2; [|done]. rewrite <-Hl in Hc' |- *. apply IH; [|done]. by rewrite <-length_zero_iff_nil, Hl, length_zero_iff_nil.
Qed.

Lemma astep_cmds_ok v v' n : astep v v' → n = length (s_in (v_share v)) → s_in (v_share v) ≠ [] → cmds_ok n (s_cmds (v_share v)) → cmds_ok n (s_cmds (v_share v')).
Proof.
  destruct 1 as [s cs it q sq cl|s cs1 c cs2 q sq cl d evs ms r a Hs Hw Hd Hf|s cs1 c cs2 q sq cl d code evs ms r a ok Hs Hw Hd Hf Hok c'| |s cs1 c cs2 q sq cl| | |];
    cbn [v_share]; intros -> Hin HN; try done.
  - pose proof (deliver_cmds_ok _ ms (view s c []) eq_refl Hin HN) as Hma. by rewrite Hd in Hma.
  - pose proof (deliver_cmds_ok _ ms (view s c []) eq_refl Hin HN) as Hma. by rewrite Hd in Hma.
  - apply Forall_app. split; [done|apply proc_req_all].
Qed.

(** A turn of a thread is a sequence of steps of the server. *)
Lemma view_after i v y : (i < length (y_thrs y))%nat → s_id (v_share v) = Z.of_nat i →
  y_thrs (after_turn i v y) !! i = Some (thread_of v) ∧ thread_view i (thread_of v) (after_turn i v y) = v.
Proof.
  intros Hi Hid. split; [cbn; by apply list_lookup_insert_eq|]. destruct v as [[] ? ? ? ?]. cbn in Hid. subst. done.
Qed.

Lemma after_after i v v' y : after_turn i v' (after_turn i v y) = after_turn i v' y.
Proof. unfold after_turn. cbn. by rewrite list_insert_insert_eq. Qed.

Lemma turn_steps G i v v' y : rtc astep v v' → (i < length (y_thrs y))%nat → s_id (v_share v) = Z.of_nat i →
  rtc (qstep G) (after_turn i v y) (after_turn i v' y) ∧ s_id (v_share v') = Z.of_nat i.
Proof.
  induction 1 as [v|v v1 v' Hst Hsts IH]; intros Hi Hid; [done|]. pose proof (st_id _ _ (astep_static _ _ Hst)) as Hid1. rewrite Hid in Hid1.
  destruct (IH Hi Hid1) as [Hr Hid']. split; [|done]. eapply rtc_l; [|exact Hr]. destruct (view_after i v y Hi Hid) as [Hl Hv].
  rewrite <-(after_after i v v1). split; [|split; [apply (astep_static _ _ Hst)|done|done]]. eapply y_turn; [exact Hl|]. by rewrite Hv.
Qed.

Lemma after_view i t y : y_thrs y !! i = Some t → after_turn i (thread_view i t y) y = y.
Proof. intros Ht. destruct y, t. unfold after_turn. cbn in *. by rewrite list_insert_id. Qed.

(** What a thread sees of the promises. *)
Definition elsewhere (i : nat) y : list aconn := concat (thr_conns <$> delete i (y_thrs y)).

Lemma conns_at y i t : y_thrs y !! i = Some t → conns y ≡ₚ thr_conns t ++ elsewhere i y.
Proof. apply concat_at. Qed.

Lemma sent_by_perm acc cs cs' m : cs ≡ₚ cs' → sent_by acc cs m → sent_by acc cs' m.
Proof. intros Hp (c & Hc & ?). exists c. by rewrite <-Hp. Qed.

Lemma yinv_view y i t : yinv y → y_thrs y !! i = Some t →
  ainv (to_send y) (elsewhere i y) (y_served y) (thread_view i t y).
Proof.
  intros [HC HI HS HN HO _ _ _ _ _ _] Ht. pose proof (conns_at _ _ _ Ht) as Hp. unfold sendqs in HS. rewrite (concat_at at_sendq _ _ _ Ht) in HS.
  apply Forall_app in HS as [HS _].
  assert (all_of (elsewhere i y) (thread_view i t y) = thr_conns t ++ elsewhere i y) as Hall.
  { unfold all_of, thr_conns. cbn. by rewrite app_assoc. }
  constructor; [rewrite Hall, <-Hp; exact HC| |exact HS|rewrite Hall, <-Hp; exact HO].
  intros m Hm. rewrite Hall. eapply sent_by_perm; [exact Hp|]. by apply HI.
Qed.

Lemma delete_insert_list {A} (l : list A) i x : delete i (<[i := x]> l) = delete i l.
Proof. revert i. induction l as [|a l IH]; intros [|i]; cbn; try done. f_equal. apply IH. Qed.

Lemma yinv_turn y i t v : yinv y → y_thrs y !! i = Some t → astep (thread_view i t y) v → yinv (after_turn i v y).
Proof.
  intros Hy Ht Hst. pose proof (yinv_view _ _ _ Hy Ht) as Ha. pose proof (ainv_step _ _ _ _ _ Hst Ha) as Ha'.
  pose proof (lookup_lt_Some _ _ _ Ht) as Hi. pose proof Hy as [HC HI HS HN HO Hout Happ Honce Hmap Hqs Hcmds].
  destruct (astep_static _ _ Hst) as [Hs1 Hs2 Hs3 Hs4 Hs5].
  assert (map_ok (length (y_thrs y)) (s_map (v_share v))) as Hmap' by (eapply astep_map_ok; [exact Hst|cbn; lia|exact Hmap]). cbn [thread_view v_share share_at s_cnid s_id s_acc s_blocks] in *.
  destruct (flow_step (thread_view i t y) v) as [Hfi Hfo (k & r & Hk & Hr & Hkr)]; [|exact Hst|].
  { eapply Forall_impl; [exact (ai_sendq _ _ _ _ Ha)|]. by intros m (_ & ? & _). }
  assert (conns (after_turn i v y) ≡ₚ (v_conns v ++ v_closed v) ++ elsewhere i y) as Hcs.
  { unfold conns. cbn [after_turn y_thrs]. by rewrite (concat_upd thr_conns _ _ _ _ Ht). }
  assert (sendqs (after_turn i v y) ≡ₚ v_sendq v ++ concat (at_sendq <$> delete i (y_thrs y))) as Hsq.
  { unfold sendqs. cbn [after_turn y_thrs]. by rewrite (concat_upd at_sendq _ _ _ _ Ht). }
  assert (all_of (elsewhere i y) v = (v_conns v ++ v_closed v) ++ elsewhere i y) as Hall by (unfold all_of; by rewrite app_assoc).
  destruct Ha' as [AC AI AS AO]. rewrite Hall, Hs3 in *. pose proof (conns_at _ _ _ Ht) as Hcs0.
  assert (sendqs y ≡ₚ at_sendq t ++ concat (at_sendq <$> delete i (y_thrs y))) as Hsq0 by (by apply concat_at).
  constructor; change (to_send (after_turn i v y)) with (to_send y); cbn [after_turn y_acc y_in y_served y_accepted y_sent y_map y_thrs y_distq]; rewrite ?Hs3.
  - by rewrite Hcs.
  - intros m Hm. eapply sent_by_perm; [symmetry; exact Hcs|]. by apply AI.
  - rewrite Hsq. apply Forall_app. split; [exact AS|]. rewrite Hsq0 in HS. by apply Forall_app in HS as [_ HS].
  - rewrite Hcs, (concat_upd at_new _ _ _ _ Ht), <-HN, Hcs0, (concat_at at_new _ _ _ Ht). unfold server_items in Hfi.
    cbn [thread_view v_conns v_closed v_new] in Hfi. change (at_new (thread_of v)) with (v_new v). rewrite !(fmap_app c_it _ (elsewhere i y)).
    unfold thr_conns. set (E := c_it <$> elsewhere i y). set (N := concat (at_new <$> delete i (y_thrs y))).
    transitivity (((c_it <$> v_conns v ++ v_closed v) ++ v_new v) ++ E ++ N); [solve_Permutation|]. rewrite Hfi. solve_Permutation.
  - by rewrite Hcs.
  - rewrite Hcs, Hsq. etransitivity; [|exact Hout]. rewrite Hcs0, Hsq0. rewrite !fmap_app, !concat_app in *.
    unfold server_out in Hfo. rewrite !fmap_app, !concat_app in Hfo. cbn [thread_view v_conns v_closed v_sendq] in Hfo. unfold thr_conns. rewrite !fmap_app, !concat_app.
    set (P := concat (app_puts <$> elsewhere i y)). set (R := concat (at_sendq <$> delete i (y_thrs y))). set (D := concat (y_distq y)).
    transitivity (((concat (app_puts <$> v_conns v) ++ concat (app_puts <$> v_closed v)) ++ v_sendq v) ++ (P ++ R ++ D));
      [apply Permutation_submseteq; solve_Permutation|].
    transitivity (((concat (app_puts <$> at_conns t) ++ concat (app_puts <$> at_closed t)) ++ at_sendq t) ++ (P ++ R ++ D));
      [by apply submseteq_app|apply Permutation_submseteq; solve_Permutation].
  - exact Happ.
  - rewrite Hk, Hcs. unfold server_read in Hr. rewrite (fmap_app c_read (v_conns v ++ v_closed v)), concat_app, Hr.
    rewrite Hcs0, fmap_app, concat_app in Honce. change (concat (c_read <$> thr_conns t)) with (concat (c_read <$> at_conns t ++ at_closed t)) in Honce.
    cbn [thread_view v_conns v_closed v_share share_at s_in] in *. set (X := concat (c_read <$> at_conns t ++ at_closed t)) in *.
    set (Y := concat (c_read <$> elsewhere i y)) in *. transitivity ((y_served y ++ concat (y_in y)) ++ k); [by rewrite app_assoc|].
    transitivity ((X ++ Y) ++ r); [by apply submseteq_app|]. apply Permutation_submseteq. solve_Permutation.
  - by rewrite length_insert.
  - rewrite Hs5. split; [|apply Hqs]. rewrite <-length_zero_iff_nil, Hs5, length_zero_iff_nil. apply Hqs.
  - rewrite Hs5. eapply astep_cmds_ok; [exact Hst|done|apply Hqs|exact Hcmds].
Qed.
(** *** The other steps *)

Lemma to_send_mono y y' m : y_sent y ⊆ y_sent y' → to_send y m → to_send y' m.
Proof. intros Hs (Hm & ? & ?). split; [by apply Hs|done]. Qed.

Lemma yinv_accept y i t it : yinv y → y_thrs y !! i = Some t →
  yinv (set_accepted (y_accepted y ++ [it]) (set_thrs (<[i := thr_accept it t]> (y_thrs y)) y)).
Proof.
  intros [HC HI HS HN HO Hout Happ Honce Hmap Hqs Hcmds] Ht. set (ts := <[i := thr_accept it t]> (y_thrs y)).
  assert (concat (thr_conns <$> ts) ≡ₚ conns y) as Hcs by (by apply concat_same with t).
  assert (concat (at_sendq <$> ts) ≡ₚ sendqs y) as Hsq by (by apply concat_same with t).
  constructor; unfold conns, sendqs; cbn [set_accepted set_thrs y_acc y_in y_served y_accepted y_sent y_map y_thrs y_distq]; try done.
  - by rewrite Hcs.
  - intros m Hm. eapply sent_by_perm; [symmetry; exact Hcs|]. by apply HI.
  - by rewrite Hsq.
  - rewrite Hcs. unfold ts. rewrite (concat_snoc at_new _ _ _ _ it Ht), <-HN by done. solve_Permutation.
  - by rewrite Hcs.
  - by rewrite Hcs, Hsq.
  - by rewrite Hcs.
  - unfold ts. by rewrite length_insert.
Qed.

(** Messages enter or leave [distq]. *)
Lemma yinv_distq y qs sent : yinv y → y_sent y ⊆ sent → Forall (λ m, ¬ is_ack m) sent →
  concat (app_puts <$> conns y) ++ sendqs y ++ concat qs ⊆+ sent → yinv (set_ydist qs sent y).
Proof.
  intros [HC HI HS HN HO Hout Happ Honce Hmap Hqs Hcmds] Hs Hn Ho. constructor; try done.
  - eapply Forall_impl; [exact HC|]. intros c. apply conn_inv_impl. intros m. by apply to_send_mono.
  - eapply Forall_impl; [exact HS|]. intros m. by apply to_send_mono.
Qed.

Lemma yinv_send y d q m : yinv y → y_distq y !! d = Some q → ¬ is_ack m →
  yinv (set_ydist (<[d := q ++ [m]]> (y_distq y)) (y_sent y ++ [m]) y).
Proof.
  intros Hy Hq Hm. apply yinv_distq; [done|set_solver|apply Forall_snoc; [apply Hy|done]|].
  rewrite (concat_put _ _ _ _ Hq). pose proof (yi_out _ Hy) as Hout. rewrite (concat_take _ _ _ Hq) in Hout.
  transitivity ((concat (app_puts <$> conns y) ++ sendqs y ++ q ++ concat (delete d (y_distq y))) ++ [m]); [|by apply submseteq_app].
  apply Permutation_submseteq. solve_Permutation.
Qed.

Lemma yinv_lost y d q m : yinv y → y_distq y !! d = Some (m :: q) → yinv (set_ydist (<[d := q]> (y_distq y)) (y_sent y) y).
Proof.
  intros Hy Hq. apply yinv_distq; [done|done|apply Hy|]. etransitivity; [|apply (yi_out _ Hy)].
  rewrite (concat_put _ _ _ _ Hq), (concat_take _ _ _ Hq). do 2 (apply submseteq_app; [done|]). by apply submseteq_cons.
Qed.

Lemma yinv_rands y rs : yinv y → yinv (set_yrands rs y).
Proof. intros Hy. by destruct Hy. Qed.

Lemma NO_NID_map y nid l : yinv y → y_map y !! i32 nid = Some l → nid ≠ NO_NID.
Proof. intros Hy Hl ->. destruct (yi_map _ Hy _ _ Hl) as [Hn _]. change (i32 NO_NID) with (-1) in Hn. unfold is_node in Hn. lia. Qed.

Lemma yinv_route y d m q l i t : yinv y → y_distq y !! d = Some (m :: q) → y_map y !! i32 (h_nid (m_head m)) = Some l → y_thrs y !! i = Some t →
  yinv (set_ydist (<[d := q]> (y_distq y)) (y_sent y) (set_thrs (<[i := thr_send m t]> (y_thrs y)) y)).
Proof.
  intros Hy Hq Hl Ht. pose proof (NO_NID_map _ _ _ Hy Hl) as Hnid. pose proof Hy as [HC HI HS HN HO Hout Happ Honce Hmap Hqs Hcmds].
  set (ts := <[i := thr_send m t]> (y_thrs y)).
  assert (concat (thr_conns <$> ts) ≡ₚ conns y) as Hcs by (by apply concat_same with t).
  assert (concat (at_sendq <$> ts) ≡ₚ m :: sendqs y) as Hsq by (by apply concat_snoc with t).
  rewrite (concat_take _ _ _ Hq) in Hout.
  assert (m ∈ y_sent y) as Hm by (eapply elem_of_submseteq; [|exact Hout]; set_solver).
  constructor; unfold conns, sendqs; cbn [set_ydist set_thrs y_acc y_in y_served y_accepted y_sent y_map y_thrs y_distq]; try done.
  - by rewrite Hcs.
  - intros m' Hm'. eapply sent_by_perm; [symmetry; exact Hcs|]. by apply HI.
  - rewrite Hsq. constructor; [|done]. split; [done|]. split; [|done]. rewrite Forall_forall in Happ. by apply Happ.
  - rewrite Hcs. unfold ts. by rewrite (concat_same at_new _ _ _ _ Ht).
  - by rewrite Hcs.
  - rewrite Hcs, Hsq, (concat_put _ _ _ _ Hq). etransitivity; [|exact Hout]. apply Permutation_submseteq. solve_Permutation.
  - by rewrite Hcs.
  - unfold ts. by rewrite length_insert.
Qed.

Lemma yinv_cmd y cs : yinv y → cs ⊆ y_cmds y → yinv (set_ywork (y_in y) cs (y_works y) (y_app y) (y_served y) y).
Proof.
  intros [HC HI HS HN HO Hout Happ Honce Hmap Hqs Hcmds] Hcs. constructor; try done. unfold cmds_ok in *. rewrite Forall_forall in Hcmds |- *. auto.
Qed.

Lemma yinv_serve y i ms ws u : yinv y → y_in y !! i = Some ms → length ws = length (y_works y) →
  yinv (set_ywork (<[i := []]> (y_in y)) (y_cmds y) ws u (y_served y ++ ms) y).
Proof.
  intros [HC HI HS HN HO Hout Happ Honce Hmap Hqs Hcmds] Hms Hws.
  assert (concat (<[i := []]> (y_in y)) ++ y_served y ++ ms ≡ₚ concat (y_in y) ++ y_served y) as Hp.
  { rewrite (concat_put _ _ _ _ Hms), (concat_take _ _ _ Hms). solve_Permutation. }
  constructor; try done; cbn [set_ywork y_in y_served].
  - intros m. rewrite Hp. apply HI.
  - etransitivity; [|exact Honce]. apply Permutation_submseteq. etransitivity; [apply Permutation_app_comm|]. rewrite Hp. apply Permutation_app_comm.
  - split; [|cbn [set_ywork y_works]; rewrite length_insert, Hws; apply Hqs]. rewrite <-length_zero_iff_nil, length_insert, length_zero_iff_nil. apply Hqs.
  - by rewrite length_insert.
Qed.

Lemma yinv_step G y y' : ystep G y y' → yinv y → yinv y'.
Proof.
  destruct 1; intros Hy.
  - by eapply yinv_turn.
  - by apply yinv_accept.
  - by apply yinv_send.
  - by eapply yinv_route.
  - by eapply yinv_lost.
  - by apply yinv_rands.
  - by apply yinv_cmd.
  - apply yinv_serve; [done|done|]. by rewrite length_insert.
Qed.

Lemma yinv_steps G y y' : rtc (ystep G) y y' → yinv y → yinv y'.
Proof. induction 1; [done|]. intros Hy. by eapply IHrtc, yinv_step. Qed.
End Sys.
