(* ===== verification/RtmqServerRep.v ===== *)
(** The server of [RtmqServer] represents the abstract server of [RtmqSys]: the
    relation, and how a receive thread is taken out of it for a turn. *)
From stdpp Require Import fin_maps gmap.
From S2P Require Import Prelude Heap Table HashTab TabRel TreeRel List2 Iovec Ring RingSpec Slot QueueSpec Mref Bytes Trees RtmqRecv RtmqMem RtmqRecvSpec RtmqSend RtmqSendSpec RtmqComm RtmqCommSpec RtmqRsvr RtmqRsvrSpec RtmqExp RtmqWork RtmqConn RtmqAbs RtmqConnRep RtmqConnEnd RtmqConnBody RtmqConnNew RtmqThread RtmqServer RtmqSys.
Open Scope Z_scope.

(** ** Parts *)

(** A receive thread between two turns: its counters, connections, the items of
    new connections, the blocks of the messages to send with the messages, and the
    connections closed. *)
Record part (T : Type → Type) := Part {
  p_recv : Z; p_drop : Z; p_cs : list (conn T); p_new : list rtmq_conn_item_t; p_sps : list ptr; p_sendq : list mesg;
  p_closed : list aconn }.
Arguments Part {_} _ _ _ _ _ _ _.
Arguments p_recv {_} _.
Arguments p_drop {_} _.
Arguments p_cs {_} _.
Arguments p_new {_} _.
Arguments p_sps {_} _.
Arguments p_sendq {_} _.
Arguments p_closed {_} _.

(** A ring of [distq]: the blocks taken from it, those in it, and the messages of
    both. *)
Record dpart := DPart { d_hold : list ptr; d_ring : list ptr; d_ms : list mesg }.

Section Rep.
Context {T : Type → Type} `{TreeLaws T} {U : Type}.
Implicit Types (t : thr_st T) (p : part T) (ps : list (part T)) (d : dpart) (x : srv_st T U) (y : asystem U).

Definition thr_of p : athread := AThr (p_recv p) (p_drop p) (n_abs <$> p_cs p) (p_new p) (p_sendq p) (p_closed p).

Record part_ok (i : nat) t p : Prop := {
  po_rsvr : t_rsvr t = Rsvr (Z.of_nat i) (p_recv p) (p_drop p);
  po_conns : l2rep_at (t_conns t) ((λ c, (n_node c, n_sck c)) <$> p_cs p);
  po_scks : hp (t_scks t) ((λ c, (n_sck c, n_k c)) <$> p_cs p);
  po_core : Forall conn_core (p_cs p);
  po_live : Forall conn_live (p_cs p);
  po_connq : ∃ size B F qs, Forall (λ q, NULL < q) B ∧ queue_rep size B (t_connq t) (AQueue F qs []) ∧
    Forall2 (λ q it, t_items t !! q = Some it) qs (p_new p);
  po_new : Forall (λ it, fd_ok (ci_fd it) = true ∧ stream_ok [] (ci_evs it)) (p_new p);
  po_sendq : Forall sendable (p_sendq p);
  po_ring : (∃ k, ring_rep k (t_sendq t) (p_sps p)) ∧ length (p_sps p) = length (p_sendq p);
  po_closed : t_closed t = (λ a : aconn, (c_fd a, c_sent a)) <$> p_closed p;
  po_max : 0 < t_sendq_max t < 2 ^ 30;
  po_cmd : fd_ok (t_cmd_fd t) = true;
  po_len : Z.of_nat (length (p_cs p) + length (p_new p)) < 2 ^ 31;
}.

(** The map of the nodes has keys of type [int]. *)
Definition routable (m : mesg) : Prop := sendable m ∧ is_nid (i32 (h_nid (m_head m))).

Definition dpart_ok (r : ring_t) d : Prop :=
  (∃ k, ring_rep k r (d_ring d)) ∧ length (d_hold d ++ d_ring d) = length (d_ms d) ∧ Forall routable (d_ms d).

Definition entries p : list (ptr * (list Z * Z)) := (λ c, (n_base c, (n_buf c, n_lim c))) <$> p_cs p.
Definition part_bases p : list ptr := n_base <$> p_cs p.
Definition part_refs p : list href := out_refs (p_sps p) (p_sendq p) ++ concat (conn_refs <$> p_cs p).
Definition part_demand p : Z := total (conn_demand <$> p_cs p) + total (item_demand <$> p_new p).
Definition dist_refs d : list href := out_refs (d_hold d ++ d_ring d) (d_ms d).
Definition all_bufs ps : bmap := list_to_map (concat (entries <$> ps)).

(** What the threads share, as the handlers of a message see it. *)
Definition sys_share y : ashare := share_at 0 (AThr 0 0 [] [] [] []) y.
Definition sys_view y : arsvr := view (sys_share y) (new_conn (ConnItem 0 0 [] [])) [].

Context (G : gmap Z (rtmq_reg_t U)).

(** [n] is the number of blocks that the actions to come may ask for, besides
    those the connections do. *)
Record sys_core x y (n : Z) ps (ds : list dpart) : Prop := {
  sc_mem : ∃ M rss, mrep (g_mem x) M ∧ ctx_rep (g_ctx x) rss (sys_view y) ∧
    minv (all_bufs ps) M (concat rss ++ concat (part_refs <$> ps) ++ concat (dist_refs <$> ds));
  sc_bases : NoDup (concat (part_bases <$> ps));
  sc_thrs : y_thrs y = thr_of <$> ps;
  sc_parts : length (g_thrs x) = length ps ∧ ∀ i t p, g_thrs x !! i = Some t → ps !! i = Some p → part_ok i t p;
  sc_some : ps ≠ [] ∧ ds ≠ [];
  sc_dist : y_distq y = d_ms <$> ds ∧ Forall2 dpart_ok (g_distq x) ds;
  sc_share : share_ok (sys_share y);
  sc_works : g_works x = y_works y ∧ g_app x = y_app y;
  sc_reg : tmap rg_type reg_dom rtmq_reg_cmp_cb (g_reg x) G;
  sc_sid : 0 ≤ g_sid x < 2 ^ 64;
  sc_room : 0 ≤ n ∧ fresh (mblk (g_mem x)) + total (part_demand <$> ps) + n < ADDR_MAX;
  sc_inv : yinv y;
}.

(** Nothing is taken from [distq] between two actions. *)
Definition sys_rep x y n : Prop := ∃ ps ds, sys_core x y n ps ds ∧ Forall (λ d, d_hold d = []) ds.

(** *** The buffers of all the threads *)

Lemma entries_bases ps : (concat (entries <$> ps)).*1 = concat (part_bases <$> ps).
Proof.
  induction ps as [|p ps IH]; [done|]. cbn [fmap list_fmap concat]. rewrite fmap_app. f_equal; [|exact IH].
  unfold entries, part_bases. by rewrite <-list_fmap_compose.
Qed.

Lemma all_bufs_perm ps ps' : ps ≡ₚ ps' → NoDup (concat (part_bases <$> ps)) → all_bufs ps = all_bufs ps'.
Proof. intros Hp Hn. unfold all_bufs. apply list_to_map_proper; [by rewrite entries_bases|by rewrite Hp]. Qed.

Lemma all_bufs_cons p ps : all_bufs (p :: ps) = bufs (B0 := all_bufs ps) (p_cs p).
Proof. unfold all_bufs, bufs. cbn. by rewrite list_to_map_app. Qed.

Lemma bases_cons_parts p ps : NoDup (concat (part_bases <$> p :: ps)) ↔ bases (B0 := all_bufs ps) (p_cs p) ∧ NoDup (concat (part_bases <$> ps)).
Proof.
  unfold bases. cbn [fmap list_fmap concat]. rewrite NoDup_app. fold (part_bases p).
  assert (∀ b, all_bufs ps !! b = None ↔ b ∉ concat (part_bases <$> ps)) as Hb.
  { intros b. unfold all_bufs. rewrite <-not_elem_of_list_to_map, entries_bases. done. }
  rewrite Forall_forall. setoid_rewrite Hb. tauto.
Qed.

Lemma total_perm zs zs' : zs ≡ₚ zs' → total zs = total zs'.
Proof. induction 1; unfold total in *; cbn in *; lia. Qed.

Lemma demand_nonneg p : 0 ≤ part_demand p.
Proof.
  unfold part_demand. assert (0 ≤ total (conn_demand <$> p_cs p)) by (apply total_pos, Forall_fmap, Forall_true; intros; apply demand_pos).
  assert (0 ≤ total (item_demand <$> p_new p)); [|lia].
  apply total_pos, Forall_fmap, Forall_true. intros it. cbn. unfold item_demand. pose proof (demand_pos [] (ci_evs it)). lia.
Qed.

Lemma sys_ctx ctx rss y y' : y_cnid y' = y_cnid y → y_cmds y' = y_cmds y → y_rands y' = y_rands y → y_acc y' = y_acc y → y_map y' = y_map y →
  y_blocks y' = y_blocks y → y_in y' = y_in y → ctx_rep ctx rss (sys_view y) → ctx_rep (T := T) ctx rss (sys_view y').
Proof. intros H1 H2 H3 H4 H5 H6 H7 [? ? ? ? ? ? ? ?]. constructor; cbn; by rewrite ?H1, ?H2, ?H3, ?H4, ?H5, ?H6, ?H7. Qed.

(** *** A turn of a receive thread *)

Definition rest_refs i ps ds : list href := concat (part_refs <$> delete i ps) ++ concat (dist_refs <$> ds).
Definition rest_room i ps n : Z := ADDR_MAX - total (part_demand <$> delete i ps) - n.

Lemma sys_open x y n ps ds i t p : sys_core x y n ps ds → g_thrs x !! i = Some t → ps !! i = Some p →
  core (room := rest_room i ps n) (lim := 2 ^ 31) (B0 := all_bufs (delete i ps)) (R0 := rest_refs i ps ds) [] []
    (set_core (g_mem x) (g_ctx x) (t_rsvr t) (t_err t) t) (share_at i (thr_of p) y) (p_cs p) (p_new p) (p_sendq p) (p_closed p).
Proof.
  intros [(M & rss & Hm & Hcx & Hi) Hb Hth [Hlen Hok] _ _ Hsh _ _ _ [Hn Hroom] _] Ht Hp.
  pose proof (delete_Permutation _ _ _ Hp) as Hperm. destruct (Hok _ _ _ Ht Hp).
  assert (NoDup (concat (part_bases <$> p :: delete i ps))) as Hb' by (by rewrite <-Hperm).
  apply bases_cons_parts in Hb' as [Hbase _].
  constructor; cbn [set_core t_mem t_ctx t_rsvr t_conns t_scks t_connq t_items t_closed t_sendq_max t_cmd_fd t_sendq share_at s_id s_recv s_drop thr_of at_recv at_drop]; try done.
  - exists M, rss, (p_sps p). destruct po_ring0 as [Hr Hl]. split_and!; [exact Hm| | |exact Hr|exact Hl].
    + destruct Hcx as [? ? ? ? ? ? ? ?]. constructor; done.
    + rewrite (all_bufs_perm _ _ Hperm Hb), all_bufs_cons in Hi. eapply minv_perm; [|exact Hi]. unfold rest_refs. rewrite (concat_at part_refs _ _ _ Hp).
      unfold part_refs at 1. cbn [app]. solve_Permutation.
  - rewrite (total_perm _ _ (fmap_Permutation part_demand _ _ Hperm)) in Hroom. cbn in Hroom. unfold part_demand at 1 in Hroom. unfold rest_room.
    change (foldr Z.add 0 (part_demand <$> delete i ps)) with (total (part_demand <$> delete i ps)) in Hroom.
    assert (0 ≤ total (part_demand <$> delete i ps)) by (apply total_pos, Forall_fmap, Forall_true; intros; apply demand_nonneg). lia.
Qed.

Lemma sys_close x y n ps ds i t p t' s cs q sq cl : sys_core x y n ps ds → g_thrs x !! i = Some t → ps !! i = Some p →
  s_id s = Z.of_nat i → Forall conn_live cs → yinv (after_turn i (srv s cs q sq cl) y) →
  core (room := rest_room i ps n) (lim := 2 ^ 31) (B0 := all_bufs (delete i ps)) (R0 := rest_refs i ps ds) [] [] t' s cs q sq cl →
  ∃ ps', sys_core (set_shared (t_mem t') (t_ctx t') (<[i := t']> (g_thrs x)) x) (after_turn i (srv s cs q sq cl) y) n ps' ds.
Proof.
  intros [_ Hb Hth [Hlen Hok] [Hps Hds] Hd _ Hw Hreg Hsid [Hn _] _] Ht Hp Hid Hlive Hinv
    [(M & rss & sps & Hm & Hcx & Hi & Hr & Hl) Hbase Hrv Hlc Hk Hcs Hcq Hnew Hsend Hcl Hmax Hcmd Hin Hln Hroom].
  set (p' := Part (s_recv s) (s_drop s) cs q sps sq cl). exists (<[i := p']> ps).
  pose proof (insert_Permutation _ _ _ p' Hp) as Hperm. pose proof (delete_Permutation _ _ _ Hp) as Hperm0.
  assert (NoDup (concat (part_bases <$> <[i := p']> ps))) as Hb'.
  { rewrite Hperm, bases_cons_parts. split; [exact Hbase|]. rewrite Hperm0 in Hb. by apply bases_cons_parts in Hb as [_ Hb]. }
  constructor; cbn [set_shared g_mem g_ctx g_thrs g_distq g_works g_app g_reg g_sid]; try done.
  - exists M, rss. split_and!; [exact Hm| |].
    + destruct Hcx as [? ? ? ? ? ? ? ?]. constructor; done.
    + rewrite (all_bufs_perm _ _ Hperm Hb'), all_bufs_cons. cbn [p' p_cs]. eapply minv_perm; [|exact Hi]. unfold rest_refs. rewrite (concat_upd part_refs _ _ _ p' Hp).
      unfold part_refs at 2. cbn [p' p_cs p_sps p_sendq app]. solve_Permutation.
  - cbn [after_turn y_thrs]. rewrite Hth. by rewrite list_fmap_insert.
  - rewrite !length_insert. split; [done|]. intros j tj pj Htj Hpj. destruct (decide (i = j)) as [<-|Hne].
    + rewrite list_lookup_insert_eq in Htj by (by eapply lookup_lt_Some). rewrite list_lookup_insert_eq in Hpj by (by eapply lookup_lt_Some).
      injection Htj as <-. injection Hpj as <-. constructor; cbn [p' p_recv p_drop p_cs p_new p_sps p_sendq p_closed]; try done; [by rewrite Hrv, Hid|lia].
    + rewrite list_lookup_insert_ne in Htj by done. rewrite list_lookup_insert_ne in Hpj by done. by eapply Hok.
  - split; [|done]. rewrite <-length_zero_iff_nil, length_insert. by rewrite length_zero_iff_nil.
  - split; [done|]. rewrite (total_perm _ _ (fmap_Permutation part_demand _ _ Hperm)). cbn [fmap list_fmap total foldr]. unfold part_demand at 1.
    cbn [p' p_cs p_new]. unfold rest_room in Hroom. unfold total in *. lia.
Qed.
End Rep.
