(* ===== verification/RtmqServerSpec.v ===== *)
(** The turns of the receive threads, of the listening thread and of the workers,
    and the calls of the application, refine the abstract server of [RtmqSys]. *)
From stdpp Require Import fin_maps gmap.
From S2P Require Import Prelude Heap Table HashTab TabRel TreeRel List2 Iovec Ring RingSpec Slot QueueSpec Mref Bytes Trees RtmqRecv RtmqMem RtmqRecvSpec RtmqSend RtmqSendSpec RtmqComm RtmqCommSpec RtmqRsvr RtmqRsvrSpec RtmqExp RtmqWork RtmqConn RtmqAbs RtmqConnRep RtmqConnEnd RtmqConnBody RtmqConnNew RtmqThread RtmqServer RtmqSys RtmqServerRep.
Open Scope Z_scope.

Section Spec.
Context {T : Type → Type} `{TreeLaws T} {U : Type} (G : gmap Z (rtmq_reg_t U)).
Implicit Types (t : thr_st T) (p : part T) (ps : list (part T)) (d : dpart) (x : srv_st T U) (y : asystem U).
Abbreviation sys_core := (sys_core G).
Abbreviation sys_rep := (sys_rep G).

(** What an action leaves if it accepts no connection and sends no message. *)
Definition sys_reaches y n x : Prop := ∃ y', rtc (qstep G) y y' ∧ sys_rep x y' n.

(** What one leaves that accepts [its] and sends [ms]. *)
Definition sys_did (its : list rtmq_conn_item_t) (ms : list mesg) y n x : Prop :=
  ∃ y', rtc (ystep G) y y' ∧ y_acc y' = y_acc y ∧ y_accepted y' = y_accepted y ++ its ∧ y_sent y' = y_sent y ++ ms ∧ sys_rep x y' n.

Lemma sys_reaches_did x y n : sys_reaches y n x → sys_did [] [] y n x.
Proof. intros (y' & [Hr [Q1 Q2 Q3]]%quiet_steps & Hx). exists y'. by rewrite !app_nil_r. Qed.

Lemma sys_did_same x y n : sys_rep x y n → sys_did [] [] y n x.
Proof. intros Hx. exists y. by rewrite !app_nil_r. Qed.

Lemma sys_reaches_same x y n : sys_rep x y n → sys_reaches y n x.
Proof. intros Hx. by exists y. Qed.

Lemma wp_on_thr {A} i t (m : SM (thr_st T) A) (Q : A → srv_st T U → mem → Prop) x ms :
  g_thrs x !! i = Some t →
  wp m (λ r t' ms', Q r (set_shared (t_mem t') (t_ctx t') (<[i := t']> (g_thrs x)) x) ms') (set_core (g_mem x) (g_ctx x) (t_rsvr t) (t_err t) t) ms →
  wp (on_thr (Z.of_nat i) m) Q x ms.
Proof.
  intros Ht Hm. unfold on_thr. do 2 wp_step. rewrite (proj2 (Z.ltb_ge _ _)) by lia. rewrite Nat2Z.id, Ht. cbn [deref].
  do 2 wp_step. apply wp_bind, wp_run_on. eapply wp_mono; [exact Hm|]. intros r t' ms' HQ. cbn [fst snd]. do 2 wp_step. apply wp_ret. exact HQ.
Qed.

Lemma part_at x y n ps ds i : sys_core x y n ps ds → (i < length (g_thrs x))%nat →
  ∃ t p, g_thrs x !! i = Some t ∧ ps !! i = Some p ∧ part_ok i t p ∧ y_thrs y !! i = Some (thr_of p).
Proof.
  intros Hx Hi. destruct (sc_parts _ _ _ _ _ _ Hx) as [Hl Hok].
  destruct (lookup_lt_is_Some_2 (g_thrs x) i Hi) as [t Ht]. destruct (lookup_lt_is_Some_2 ps i) as [p Hp]; [lia|].
  exists t, p. split_and!; [done|done|by apply Hok|]. rewrite (sc_thrs _ _ _ _ _ _ Hx), list_lookup_fmap. by rewrite Hp.
Qed.

(** *** The receive threads *)

Lemma wp_turn_recv i ev x y n t (Q : unit → srv_st T U → mem → Prop) :
  sys_rep x y n → g_thrs x !! i = Some t → turn_safe ev t → (∀ x', sys_reaches y n x' → Q tt x' []) → wp (act (TurnRecv i ev)) Q x [].
Proof.
  intros (ps & ds & Hx & Hd) Ht Hsafe HQ. destruct (part_at _ _ _ _ _ i Hx) as (t0 & p & Ht0 & Hp & _ & Hy); [by eapply lookup_lt_Some|].
  rewrite Ht in Ht0. injection Ht0 as <-. cbn [act]. eapply wp_on_thr; [exact Ht|].
  pose proof (sys_open _ _ _ _ _ _ _ _ _ Hx Ht Hp) as Hc.
  assert (Forall conn_live (p_cs p)) as Hlive by (by apply (proj2 (sc_parts _ _ _ _ _ _ Hx) i t p)).
  eapply wp_routine; [by exists (share_at i (thr_of p) y), (p_cs p), (p_new p), (p_sendq p), (p_closed p); split_and!; [|exact Hc|exact Hlive|apply Forall_true]|by destruct ev|].
  intros t' (A' & HA & s & cs & q & sq & cl & -> & Hc' & Hlive' & _). apply HQ.
  destruct (turn_steps G i _ _ y HA) as [Hr Hid]; [by eapply lookup_lt_Some|done|].
  change (srv (share_at i (thr_of p) y) (p_cs p) (p_new p) (p_sendq p) (p_closed p)) with (thread_view i (thr_of p) y) in Hr.
  rewrite (after_view _ _ _ Hy) in Hr. exists (after_turn i (srv s cs q sq cl) y). split; [exact Hr|].
  destruct (sys_close G _ _ _ _ _ _ _ _ t' s cs q sq cl Hx Ht Hp Hid Hlive') as (ps' & Hx'); [|exact Hc'|by exists ps', ds].
  eapply yinv_steps; [by apply quiet_steps|apply Hx].
Qed.

(** *** A part changes *)

Lemma sys_thr x y n ps ds i t t' p : sys_core x y n ps ds → ps !! i = Some p → g_thrs x !! i = Some t → part_ok i t' p →
  sys_core (set_shared (g_mem x) (g_ctx x) (<[i := t']> (g_thrs x)) x) y n ps ds.
Proof.
  intros [Hm Hb Hth [Hlen Hok] Hsome Hd Hsh Hw Hreg Hsid Hroom Hinv] Hp Ht Ht'. constructor; try done. cbn [set_shared g_thrs].
  rewrite length_insert. split; [done|]. intros j tj pj Htj Hpj. destruct (decide (i = j)) as [<-|Hne].
  - rewrite list_lookup_insert_eq in Htj by (by eapply lookup_lt_Some). injection Htj as <-. rewrite Hp in Hpj. by injection Hpj as <-.
  - rewrite list_lookup_insert_ne in Htj by done. by eapply Hok.
Qed.

Lemma wp_recv_cmd_write i type x y n ps ds (Q : Z → srv_st T U → mem → Prop) ms :
  sys_core x y n ps ds → (i < length (g_thrs x))%nat → (∀ r x', sys_core x' y n ps ds → Q r x' ms) → wp (recv_cmd_write (Z.of_nat i) type) Q x ms.
Proof.
  intros Hx Hi HQ. unfold recv_cmd_write, pipe_room. apply wp_bind. do 4 wp_step. apply wp_ret.
  set (x1 := set_writes (tail (g_writes x)) x). assert (sys_core x1 y n ps ds) as Hx1 by (by destruct Hx).
  destruct (default true (head (g_writes x))); [|by apply wp_ret, HQ].
  destruct (part_at _ _ _ _ _ i Hx1 Hi) as (t & p & Ht & Hp & Hok & _). apply wp_bind. eapply wp_on_thr; [exact Ht|].
  unfold modify, wp at 1. apply wp_ret, HQ. eapply sys_thr; [exact Hx1|exact Hp|exact Ht|]. by destruct Hok.
Qed.
(** *** The listening thread *)

(** What [accept] gives in the end. *)
Fixpoint accepted (l : list acc_ev) : option (option (Z * list rd_ev * list wr_ev)) :=
  match l with
  | [] => None
  | AccFd fd evs wr :: _ => Some (Some (fd, evs, wr))
  | AccErr e :: l => if e =? EINTR then accepted l else Some None
  end.

Lemma wp_accept_fd l a x (Q : option (Z * list rd_ev * list wr_ev) → srv_st T U → mem → Prop) ms :
  accepted l = Some a → Q a x ms → wp (lsn_accept_fd l) Q x ms.
Proof.
  induction l as [|[fd evs wr|e] l IH]; cbn [accepted lsn_accept_fd]; [done| |].
  - intros [= <-] HQ. by apply wp_ret.
  - destruct (e =? EINTR); [exact IH|]. intros [= <-] HQ. by apply wp_ret.
Qed.

(** The thread whose turn it is. *)
Definition next_thr x : nat := Z.to_nat (Z.rem (g_sid x) (Z.of_nat (length (g_thrs x)))).
Definition has_room x : Prop := match g_thrs x !! next_thr x with
  | Some t => num2 (t_conns t) + queue_used (t_connq t) + 1 < 2 ^ 31 | None => False end.

(** A new connection waits in the queue of the thread [i]. *)
Definition take_item p it : part T := Part (p_recv p) (p_drop p) (p_cs p) (p_new p ++ [it]) (p_sps p) (p_sendq p) (p_closed p).

Lemma sys_weaken x y n n' ps ds : sys_core x y n ps ds → 0 ≤ n' ≤ n → sys_core x y n' ps ds.
Proof. intros [Hm Hb Hth Hok Hsome Hd Hsh Hw Hreg Hsid Hroom Hinv] Hn. constructor; try done. lia. Qed.

Lemma sys_item x y n ps ds i t t' p it : sys_core x y (n + item_demand it) ps ds → 0 ≤ n → ps !! i = Some p → g_thrs x !! i = Some t → part_ok i t' (take_item p it) →
  sys_core (set_shared (g_mem x) (g_ctx x) (<[i := t']> (g_thrs x)) x)
    (set_accepted (y_accepted y ++ [it]) (set_thrs (<[i := thr_accept it (thr_of p)]> (y_thrs y)) y)) n (<[i := take_item p it]> ps) ds.
Proof.
  intros [(M & rss & Hm & Hcx & Hi) Hb Hth [Hlen Hok] [Hps Hds] Hd Hsh Hw Hreg Hsid Hroom Hinv] Hn Hp Ht Ht'.
  assert (∀ A (f : part T → list A), f (take_item p it) = f p → concat (f <$> <[i := take_item p it]> ps) ≡ₚ concat (f <$> ps)) as Hsame.
  { intros A f Hf. by apply (concat_same f _ _ p). }
  pose proof (insert_Permutation _ _ _ (take_item p it) Hp) as Hperm. pose proof (delete_Permutation _ _ _ Hp) as Hperm0.
  constructor; cbn [set_shared g_mem g_ctx g_thrs g_distq g_works g_app g_reg g_sid]; try done.
  - exists M, rss. split_and!; [exact Hm|eapply sys_ctx; [..|exact Hcx]; done|].
    assert (all_bufs (<[i := take_item p it]> ps) = all_bufs ps) as ->.
    { unfold all_bufs. apply list_to_map_proper; [rewrite entries_bases|]; rewrite Hsame; done. }
    eapply minv_perm; [|exact Hi]. by rewrite Hsame.
  - by rewrite Hsame.
  - cbn [set_accepted set_thrs y_thrs]. rewrite Hth. by rewrite list_fmap_insert.
  - rewrite !length_insert. split; [done|]. intros j tj pj Htj Hpj. destruct (decide (i = j)) as [<-|Hne].
    + rewrite list_lookup_insert_eq in Htj by (by eapply lookup_lt_Some). injection Htj as <-.
      rewrite list_lookup_insert_eq in Hpj by (by eapply lookup_lt_Some). by injection Hpj as <-.
    + rewrite list_lookup_insert_ne in Htj by done. rewrite list_lookup_insert_ne in Hpj by done. by eapply Hok.
  - split; [|done]. by rewrite <-length_zero_iff_nil, length_insert, length_zero_iff_nil.
  - rewrite (total_perm _ _ (fmap_Permutation part_demand _ _ Hperm)). rewrite (total_perm _ _ (fmap_Permutation part_demand _ _ Hperm0)) in Hroom.
    cbn [fmap list_fmap total foldr] in *. unfold part_demand at 1. unfold part_demand at 1 in Hroom. cbn [take_item p_cs p_new].
    rewrite fmap_app, total_app. cbn [fmap list_fmap total foldr]. unfold total in *. lia.
  - apply yinv_accept; [done|]. rewrite Hth, list_lookup_fmap. by rewrite Hp.
Qed.
(** A block of the queue of new connections is taken, filled and pushed. *)
Definition with_connq q (t : thr_st T) : thr_st T := set_queues q (t_sendq t) t.

Lemma wp_connq_malloc t p i n (Q : ptr → thr_st T → mem → Prop) ms : part_ok i t p →
  (∀ q, part_ok i (with_connq q t) p → Q NULL (with_connq q t) ms) →
  (∀ b q, b ≠ NULL → (∀ it its, its = <[b := it]> (t_items t) → fd_ok (ci_fd it) = true → stream_ok [] (ci_evs it) →
       Z.of_nat (length (p_cs p) + length (p_new p) + 1) < 2 ^ 31 →
       ∀ (Q' : Z → queue_t → mem → Prop) ms', (∀ q', part_ok i (with_connq q' (set_titems its t)) (take_item p it) → Q' 0 q' ms') →
       wp (queue_push b) Q' q ms') → Q b (with_connq q t) ms) →
  wp (on_connq (queue_malloc n)) Q t ms.
Proof.
  intros Hok HN HS. pose proof Hok as [Hrv Hl Hk Hc Hlive (size & B & F & qs & HB & Hq & Hits) Hnew Hsend Hring Hcl Hmax Hcmd Hlen].
  unfold on_connq. apply wp_zoom. eapply wp_mono; [apply (wp_run_queue_call (QMalloc n) _ _ _ Hq); done|].
  cbn [abs_queue_call]. intros b q ms' (Hb & Hq' & ->).
  assert (b = NULL ∧ queue_rep size B q (AQueue F qs []) ∨ (∃ F', F = b :: F' ∧ queue_rep size B q (AQueue F' qs [b]))) as [[-> Hq1]|(F' & -> & Hq1)].
  { cbn [afree aqueued aheld] in *. destruct (n >? size); [by left|]. destruct F as [|b0 F]; [by left|]. cbn [fst snd] in *. subst b0. right. by exists F. }
  - apply HN. constructor; try done. by exists size, B, F, qs.
  - assert (b ∈ B ∧ b ∉ qs) as [HbB Hbq].
    { pose proof (qr_blocks _ _ _ _ Hq) as Hp. cbn in Hp. pose proof (qr_nodup _ _ _ _ Hq) as Hn. rewrite <-Hp in Hn |- *. split; [left|].
      apply NoDup_cons in Hn as [Hn _]. set_solver. }
    rewrite Forall_forall in HB. pose proof (HB _ HbB) as Hpos. apply (HS b q); [unfold NULL in *; lia|].
    intros it its -> Hfd Hst Hlen' Q' ms' HQ'. eapply wp_queue_push; [exact Hq1|cbn; set_solver|]. intros q' Hq2. apply HQ'.
    cbn [abs_queue_call snd afree aqueued aheld] in Hq2.
    assert (drop_block b [b] = []) as Hdb by (unfold drop_block; rewrite filter_cons, decide_False by tauto; done). rewrite Hdb in Hq2.
    constructor; cbn [take_item p_recv p_drop p_cs p_new p_sps p_sendq p_closed]; try done.
    + exists size, B, F', (qs ++ [b]). split; [by apply Forall_forall|]. split; [exact Hq2|]. cbn.
      apply Forall2_app; [|constructor; [by rewrite lookup_insert_eq|constructor]].
      clear -Hits Hbq. induction Hits as [|q0 it0 qs its0 H1 Hits IH]; [constructor|]. apply not_elem_of_cons in Hbq as [Hb0 Hbq].
      constructor; [by rewrite lookup_insert_ne|by apply IH].
    + by apply Forall_snoc.
    + rewrite length_app. cbn. lia.
Qed.
Lemma wp_add_sck_notify i x y n ps ds (Q : Z → srv_st T U → mem → Prop) ms :
  sys_core x y n ps ds → (i < length (g_thrs x))%nat → (∀ r x', sys_core x' y n ps ds → Q r x' ms) → wp (rtmq_add_sck_notify (Z.of_nat i)) Q x ms.
Proof. intros Hx Hi HQ. unfold rtmq_add_sck_notify. apply wp_bind. eapply wp_recv_cmd_write; [exact Hx|exact Hi|]. intros r x' Hx'. by apply wp_ret, HQ. Qed.

Lemma sys_thrs_pos x y n ps ds : sys_core x y n ps ds → (0 < length (g_thrs x))%nat.
Proof.
  intros Hx. destruct (sc_parts _ _ _ _ _ _ Hx) as [-> _]. destruct (sc_some _ _ _ _ _ _ Hx) as [Hps _]. destruct ps; [done|cbn; lia].
Qed.

Lemma sys_lsn x y n ps ds sid refused : 0 ≤ sid < 2 ^ 64 → sys_core x y n ps ds → sys_core (set_lsn sid refused x) y n ps ds.
Proof. intros Hs [? ? ? ? ? ? ? ? ? ? ? ?]. by constructor. Qed.

Lemma wp_accept l fd evs wr x y n (Q : Z → srv_st T U → mem → Prop) :
  let it := ConnItem fd (u64 (g_sid x + 1)) evs wr in
  accepted l = Some (Some (fd, evs, wr)) → sys_rep x y (n + item_demand it) → 0 ≤ n → fd_ok fd = true → stream_ok [] evs → has_room x →
  (∀ r x', sys_did (if r =? RTMQ_OK then [it] else []) [] y n x' → Q r x' []) → wp (rtmq_lsn_accept l) Q x [].
Proof.
  intros it Hl (ps & ds & Hx & Hd) Hn Hfd Hst Hroom HQ. pose proof (sys_thrs_pos _ _ _ _ _ Hx) as Hpos. pose proof (sc_sid _ _ _ _ _ _ Hx) as Hsid.
  assert (0 ≤ item_demand it) as Hdem by (unfold item_demand; pose proof (demand_pos [] (ci_evs it)); lia).
  unfold rtmq_lsn_accept. apply wp_bind. eapply wp_accept_fd; [exact Hl|]. cbv beta iota. do 2 wp_step. rewrite decide_False by lia.
  unfold has_room in Hroom. set (i := next_thr x) in *.
  assert (Z.rem (g_sid x) (Z.of_nat (length (g_thrs x))) = Z.of_nat i ∧ (i < length (g_thrs x))%nat) as [Hi Hlt].
  { unfold i, next_thr. pose proof (Z.rem_bound_pos (g_sid x) (Z.of_nat (length (g_thrs x)))). lia. }
  cbv zeta. rewrite Hi. destruct (part_at _ _ _ _ _ i Hx Hlt) as (t & p & Ht & Hp & Hok & Hy). rewrite Ht in Hroom.
  assert (Z.of_nat (length (p_cs p) + length (p_new p) + 1) < 2 ^ 31) as Hlen.
  { destruct Hok as [_ Hlc _ _ _ (size & B & F & qs & _ & Hq & Hits) _ _ _ _ _ _ Hln].
    rewrite (l2_num _ _ Hlc), (queue_rep_used _ _ Hq), length_fmap in Hroom. cbn [aqueued] in Hroom.
    rewrite (Forall2_length _ _ _ Hits) in Hroom. rewrite i32_small in Hroom; lia. }
  apply wp_bind. eapply wp_on_thr; [exact Ht|]. set (T1 := set_core (g_mem x) (g_ctx x) (t_rsvr t) (t_err t) t).
  assert (part_ok i T1 p) as HT1 by (by destruct Hok). eapply (wp_connq_malloc T1 p i); [exact HT1| |].
  - intros q Hq. change (NULL =? NULL) with true. cbn iota. do 2 wp_step.
    assert (sys_core (set_shared (g_mem x) (g_ctx x) (<[i := with_connq q T1]> (g_thrs x)) x) y (n + item_demand it) ps ds) as Hx1 by (by eapply sys_thr).
    apply wp_bind. eapply wp_add_sck_notify; [by eapply sys_lsn; [exact Hsid|exact Hx1]|cbn; by rewrite length_insert|].
    intros r x' Hx'. apply wp_ret, HQ. change (RTMQ_ERR =? RTMQ_OK) with false. apply sys_did_same. exists ps, ds. split; [|done]. eapply sys_weaken; [exact Hx'|lia].
  - intros b q Hb Hpush. rewrite (proj2 (Z.eqb_neq _ _) Hb). do 4 wp_step. apply wp_bind. eapply wp_on_thr; [cbn; by apply list_lookup_insert_eq|].
    unfold modify, wp at 1. apply wp_bind. eapply wp_on_thr; [cbn; rewrite list_lookup_insert_eq; [done|by rewrite length_insert]|].
    unfold on_connq. apply wp_zoom. eapply (Hpush it); [done|exact Hfd|exact Hst|exact Hlen|]. intros q' Hok'. apply wp_bind.
    set (t3 := with_connq q' (set_titems (<[b := it]> (t_items T1)) T1)).
    eapply (wp_add_sck_notify i _ (set_accepted (y_accepted y ++ [it]) (set_thrs (<[i := thr_accept it (thr_of p)]> (y_thrs y)) y)) n (<[i := take_item p it]> ps) ds);
      [|cbn; rewrite !length_insert; exact Hlt|].
    + cbn [set_shared set_lsn g_thrs]. rewrite !list_insert_insert_eq.
      assert (0 ≤ u64 (g_sid x + 1) < 2 ^ 64) as Hs by (unfold u64; apply Z.mod_pos_bound; lia).
      exact (sys_lsn _ _ _ _ _ (u64 (g_sid x + 1)) (g_refused x) Hs (sys_item x y n ps ds i t t3 p it Hx Hn Hp Ht Hok')).
    + intros r x' Hx'. apply wp_ret, HQ. change (RTMQ_OK =? RTMQ_OK) with true. eexists. split; [apply rtc_once; eapply y_accept; exact Hy|].
      split_and!; [done|done|by rewrite app_nil_r|]. by exists (<[i := take_item p it]> ps), ds.
Qed.
End Spec.
