(* ===== verification/RtmqServerDist.v ===== *)
(** The messages the application sends: into [distq], and from there to the
    receive threads of their nodes. *)
From stdpp Require Import fin_maps gmap.
From S2P Require Import Prelude Heap Table HashTab TabRel TreeRel Trees List2 Ring RingSpec Slot QueueSpec Iovec Mref Bytes RtmqRecv RtmqMem RtmqRecvSpec RtmqSend RtmqSendSpec RtmqComm RtmqCommSpec RtmqRsvr RtmqRsvrSpec RtmqExp RtmqWork RtmqConn RtmqAbs RtmqConnRep RtmqConnEnd RtmqConnBody RtmqConnNew RtmqThread RtmqServer RtmqSys RtmqServerRep RtmqServerSpec.
Open Scope Z_scope.

Section Dist.
Context {T : Type → Type} `{TreeLaws T} {U : Type} (G : gmap Z (rtmq_reg_t U)).
Implicit Types (t : thr_st T) (p : part T) (ps : list (part T)) (d : dpart) (x : srv_st T U) (y : asystem U).
Abbreviation sys_core := (sys_core G).
Abbreviation sys_rep := (sys_rep G).
Abbreviation sys_reaches := (sys_reaches G).
Abbreviation sys_did := (sys_did G).

Lemma wp_on_distq {A} i r (m : SM ring_t A) (Q : A → srv_st T U → mem → Prop) x ms :
  g_distq x !! i = Some r →
  wp m (λ a r' ms', Q a (set_dist (<[i := r']> (g_distq x)) (g_dist_pipe x) x) ms') r ms → wp (on_distq (Z.of_nat i) m) Q x ms.
Proof.
  intros Hr Hm. unfold on_distq. do 2 wp_step. rewrite (proj2 (Z.ltb_ge _ _)) by lia. rewrite Nat2Z.id, Hr. cbn [deref].
  do 2 wp_step. apply wp_bind, wp_run_on. eapply wp_mono; [exact Hm|]. intros a r' ms' HQ. cbn [fst snd]. do 2 wp_step. apply wp_ret. exact HQ.
Qed.

Lemma wp_on_gmem {A} (m : SM (mref_st htree) A) (Q : A → srv_st T U → mem → Prop) x ms :
  wp m (λ a s ms', Q a (set_shared s (g_ctx x) (g_thrs x) x) ms') (g_mem x) ms → wp (on_gmem m) Q x ms.
Proof. intros Hm. unfold on_gmem. by apply wp_zoom. Qed.

(** The memory, the context and the rings of [distq] change. *)
Lemma sys_dist x y n ps ds x' y' n' ds' : sys_core x y n ps ds →
  g_thrs x' = g_thrs x → g_works x' = g_works x → g_app x' = g_app x → g_reg x' = g_reg x → g_sid x' = g_sid x →
  y_thrs y' = y_thrs y → y_works y' = y_works y → y_app y' = y_app y →
  (∃ M rss, mrep (g_mem x') M ∧ ctx_rep (g_ctx x') rss (sys_view y') ∧
    minv (all_bufs ps) M (concat rss ++ concat (part_refs <$> ps) ++ concat (dist_refs <$> ds'))) →
  y_distq y' = d_ms <$> ds' → Forall2 dpart_ok (g_distq x') ds' → ds' ≠ [] → share_ok (sys_share y') →
  0 ≤ n' → fresh (mblk (g_mem x')) + n' ≤ fresh (mblk (g_mem x)) + n → yinv y' →
  sys_core x' y' n' ps ds'.
Proof.
  intros [Hm Hb Hth [Hlen Hok] [Hps Hds] Hd Hsh [Hw1 Hw2] Hreg Hsid Hroom Hinv] E1 E2 E3 E4 E5 E6 E7 E8 Hm' Hd' Hr' Hds' Hsh' Hn' Hf Hinv'.
  constructor; rewrite ?E1, ?E2, ?E3, ?E4, ?E5, ?E6, ?E7, ?E8; try done. lia.
Qed.

(** *** Sending *)

Definition app_mesg (type dest : Z) (data : list Z) : mesg :=
  Mesg (Head (u32 type) (u32 dest) RTMQ_EXP_MESG (Z.of_nat (length data)) RTMQ_CHKSUM_VAL) data.

Lemma app_sendable type dest data : HEAD_SIZE + Z.of_nat (length data) < 2 ^ 31 → sendable (app_mesg type dest data).
Proof.
  intros Hl. unfold HEAD_SIZE in Hl. pose proof (u32_range type). pose proof (u32_range dest).
  constructor; [|done|done|cbn; unfold HEAD_SIZE; lia]. unfold head_ok, is_u32. cbn. unfold RTMQ_EXP_MESG, RTMQ_CHKSUM_VAL. lia.
Qed.

Lemma app_no_ack type dest data : ¬ is_ack (app_mesg type dest data).
Proof. intros Ha. discriminate Ha. Qed.

Lemma i32_u32 z : i32 (u32 z) = i32 z.
Proof. unfold i32, u32. by rewrite Z.add_mod_idemp_l. Qed.

Lemma app_routable type dest data : HEAD_SIZE + Z.of_nat (length data) < 2 ^ 31 → is_nid (i32 dest) → routable (app_mesg type dest data).
Proof. intros Hl Hd. split; [by apply app_sendable|]. cbn [app_mesg m_head h_nid]. by rewrite i32_u32. Qed.

(** A block with a message. *)
Definition fill_mesg (addr : ptr) (hd : rtmq_header_t) (data : list Z) : SM (mref_st htree) unit :=
  wr_head addr 0 hd;; blk_wr addr HEAD_SIZE data.

Lemma wp_fill_mesg s M b hd data (Q : unit → mref_st htree → mem → Prop) ms :
  mrep s (<[b := (replicate (Z.to_nat (HEAD_SIZE + Z.of_nat (length data))) 0, 1)]> M) →
  (∀ s', mrep s' (<[b := (put_head hd ++ data, 1)]> M) → fresh (mblk s') = fresh (mblk s) → Q tt s' ms) →
  wp (fill_mesg b hd data) Q s ms.
Proof.
  intros Hm HQ. unfold fill_mesg. apply wp_bind.
  assert (replicate (Z.to_nat (HEAD_SIZE + Z.of_nat (length data))) 0 = put_head (Head 0 0 0 0 0) ++ replicate (length data) 0) as Hz.
  { replace (Z.to_nat (HEAD_SIZE + Z.of_nat (length data))) with (20 + length data)%nat by (unfold HEAD_SIZE; lia). by rewrite replicate_add. }
  rewrite Hz in Hm. eapply (wp_wr_head _ _ b [] (Head 0 0 0 0 0) hd (replicate (length data) 0) 1); [exact Hm|by rewrite lookup_insert_eq|done|].
  intros s1 Hm1 Hf1. rewrite insert_insert_eq in Hm1. cbn [app] in Hm1.
  eapply (wp_blk_wr _ _ b _ (put_head hd ++ data)); [exact Hm1|by rewrite lookup_insert_eq| |].
  - pose proof (wr_bytes_app (put_head hd) (replicate (length data) 0) [] data) as Hw. rewrite !app_nil_r in Hw. apply Hw. by rewrite length_replicate.
  - intros s2 Hm2 Hf2. rewrite insert_insert_eq in Hm2. apply HQ; [exact Hm2|congruence].
Qed.

Lemma wp_gfill {A} b hd data (m : SM (srv_st T U) A) Q x M :
  mrep (g_mem x) (<[b := (replicate (Z.to_nat (HEAD_SIZE + Z.of_nat (length data))) 0, 1)]> M) →
  (∀ s', mrep s' (<[b := (put_head hd ++ data, 1)]> M) → fresh (mblk s') = fresh (mblk (g_mem x)) →
     wp m Q (set_shared s' (g_ctx x) (g_thrs x) x) []) →
  wp (on_gmem (wr_head b 0 hd);; on_gmem (blk_wr b HEAD_SIZE data);; m) Q x [].
Proof.
  intros Hm HQ. apply wp_bind, wp_on_gmem.
  pose proof (wp_fill_mesg (g_mem x) M b hd data (λ _ s' ms, ms = [] ∧ wp m Q (set_shared s' (g_ctx x) (g_thrs x) x) []) [] Hm) as Hf.
  unfold fill_mesg in Hf. specialize (Hf ltac:(auto)). apply wp_bind_inv in Hf. eapply wp_mono; [exact Hf|]. intros [] s1 ms1 H1.
  apply wp_bind, wp_on_gmem. eapply wp_mono; [exact H1|]. intros [] s2 ms2 [-> H2]. exact H2.
Qed.

Lemma wp_send_dist_req x y n ps ds (Q : Z → srv_st T U → mem → Prop) ms :
  sys_core x y n ps ds → (∀ r x', sys_core x' y n ps ds → Q r x' ms) → wp rtmq_cmd_send_dist_req Q x ms.
Proof.
  intros Hx HQ. unfold rtmq_cmd_send_dist_req, pipe_room. apply wp_bind. do 4 wp_step. apply wp_ret.
  destruct (default true (head (g_writes x))); [do 2 wp_step|]; apply wp_ret, HQ; destruct Hx; by constructor.
Qed.

Lemma dist_refs_upd ds i d d' : ds !! i = Some d →
  concat (dist_refs <$> <[i := d']> ds) ≡ₚ dist_refs d' ++ concat (dist_refs <$> delete i ds) ∧
  concat (dist_refs <$> ds) ≡ₚ dist_refs d ++ concat (dist_refs <$> delete i ds).
Proof. intros Hd. split; [by apply (concat_upd dist_refs _ _ d)|by apply concat_at]. Qed.

Lemma share_tail y : share_ok (sys_share y) → share_ok (sys_share (set_yrands (tail (y_rands y)) y)).
Proof. intros (H1 & H2 & H3). split; [done|]. split; [by apply Forall_tail|done]. Qed.

Lemma wp_grand x y n ps ds (Q : Z → srv_st T U → mem → Prop) ms : sys_core x y n ps ds →
  (∀ ctx, let y' := set_yrands (tail (y_rands y)) y in
     sys_core (set_shared (g_mem x) ctx (g_thrs x) x) y' n ps ds → 0 ≤ default 0 (head (y_rands y)) →
     Q (default 0 (head (y_rands y))) (set_shared (g_mem x) ctx (g_thrs x) x) ms) →
  wp (on_gctx c_rand) Q x ms.
Proof.
  intros Hx HQ. unfold on_gctx. apply wp_zoom. unfold c_rand. do 4 wp_step. apply wp_ret.
  destruct (sc_mem _ _ _ _ _ _ Hx) as (M & rss & Hm & Hcx & Hi). rewrite (cx_rands _ _ _ Hcx). cbn [sys_view view a_rands]. apply HQ.
  - eapply (sys_dist x y n ps ds); try done; [| | |by apply (sc_some _ _ _ _ _ _ Hx)| | |].
    + exists M, rss. split; [exact Hm|]. split; [|exact Hi]. by destruct Hcx.
    + apply Hx.
    + apply Hx.
    + apply share_tail, Hx.
    + apply (sc_room _ _ _ _ _ _ Hx).
    + apply yinv_rands, Hx.
  - destruct (sc_share _ _ _ _ _ _ Hx) as (_ & Hr & _). cbn in Hr. by destruct Hr.
Qed.
Lemma dpart_at x y n ps ds i : sys_core x y n ps ds → (i < length (g_distq x))%nat →
  ∃ r d, g_distq x !! i = Some r ∧ ds !! i = Some d ∧ dpart_ok r d ∧ y_distq y !! i = Some (d_ms d).
Proof.
  intros Hx Hi. destruct (sc_dist _ _ _ _ _ _ Hx) as [Hy Hd]. destruct (lookup_lt_is_Some_2 (g_distq x) i Hi) as [r Hr].
  destruct (Forall2_lookup_l _ _ _ _ _ Hd Hr) as (d & Hdi & Hok). exists r, d. split_and!; [done|done|done|]. by rewrite Hy, list_lookup_fmap, Hdi.
Qed.

Lemma distq_pos x y n ps ds : sys_core x y n ps ds → (0 < length (g_distq x))%nat.
Proof.
  intros Hx. destruct (sc_dist _ _ _ _ _ _ Hx) as [_ Hd]. rewrite (Forall2_length _ _ _ Hd). destruct (sc_some _ _ _ _ _ _ Hx) as [_ Hds]. destruct ds; [done|cbn; lia].
Qed.

Lemma wp_async_send type dest data x y n (Q : Z → srv_st T U → mem → Prop) :
  sys_rep x y (n + 1) → 0 ≤ n → HEAD_SIZE + Z.of_nat (length data) < 2 ^ 31 → is_nid (i32 dest) →
  (∀ r x', sys_did [] (if r =? RTMQ_OK then [app_mesg type dest data] else []) y n x' → Q r x' []) → wp (rtmq_async_send type dest data) Q x [].
Proof.
  intros (ps & ds & Hx & Hd) Hn Hl Hdest HQ. unfold rtmq_async_send. do 2 wp_step. pose proof (distq_pos _ _ _ _ _ Hx) as Hpos.
  rewrite decide_False by lia. apply wp_bind. eapply wp_grand; [exact Hx|]. cbn zeta. intros ctx Hx1 Hr. set (r := default 0 (head (y_rands y))) in *.
  set (y1 := set_yrands (tail (y_rands y)) y) in *. set (x1 := set_shared (g_mem x) ctx (g_thrs x) x) in *.
  assert (Z.of_nat (length data) < 2 ^ 31) as Hl' by (unfold HEAD_SIZE in Hl; lia).
  replace (u32 (Z.of_nat (length data))) with (Z.of_nat (length data)) by (unfold u32; rewrite Z.mod_small; lia).
  set (i := Z.to_nat (Z.rem r (Z.of_nat (length (g_distq x))))).
  assert (Z.rem r (Z.of_nat (length (g_distq x))) = Z.of_nat i ∧ (i < length (g_distq x1))%nat) as [Hi Hlt].
  { unfold i. cbn. pose proof (Z.rem_bound_pos r (Z.of_nat (length (g_distq x)))). lia. }
  rewrite Hi. destruct (sc_mem _ _ _ _ _ _ Hx1) as (M & rss & Hm & Hcx & Hinv). destruct (sc_room _ _ _ _ _ _ Hx1) as [Hn1 Hroom].
  assert (0 ≤ total (part_demand <$> ps)) as Hdem by (apply total_pos, Forall_fmap, Forall_true; intros; apply demand_nonneg).
  apply wp_bind, wp_on_gmem. eapply wp_mref_alloc; [exact Hm|unfold HEAD_SIZE; lia|lia|]. intros b s1 -> Hb Hf1 Hm1.
  destruct Hm as [_ _ _ [Hfr _]]. rewrite (proj2 (Z.eqb_neq (fresh (mblk (g_mem x1))) NULL)) by (unfold NULL; lia).
  set (b := fresh (mblk (g_mem x1))) in *. set (m := app_mesg type dest data). change (Head (u32 type) _ _ _ _) with (m_head m).
  apply (wp_gfill _ _ _ _ _ _ M); [exact Hm1|]. intros s2 Hm2 Hf2. change (put_head (m_head m) ++ data) with (host m) in Hm2.
  cbn [set_shared g_mem] in Hf2. assert (fresh (mblk s2) = fresh (mblk (g_mem x)) + 1) as Hf12 by (rewrite Hf2; exact Hf1).
  destruct (dpart_at _ _ _ _ _ i Hx1 Hlt) as (q & d & Hq & Hdi & ((k & Hring) & Hlen & Hms) & Hyq).
  assert (d_hold d = []) as Hhold by (rewrite Forall_forall in Hd; apply Hd; by eapply list_elem_of_lookup_2). rewrite Hhold in Hlen. cbn [app] in Hlen.
  pose proof (minv_new Hinv b (host m) Hb) as Hinv2.
  apply wp_bind. eapply wp_on_distq; [exact Hq|]. eapply wp_ring_push; [exact Hring|]. intros q' Hq'. unfold aring_push in Hq' |- *. case_decide as Hcap.
  - cbn [fst snd] in *. change (negb (0 =? 0)) with false. cbn iota. apply wp_bind.
    set (d' := DPart [] (d_ring d ++ [b]) (d_ms d ++ [m])).
    eapply (wp_send_dist_req _ (set_ydist (<[i := d_ms d ++ [m]]> (y_distq y1)) (y_sent y1 ++ [m]) y1) n ps (<[i := d']> ds)).
    + eapply (sys_dist x1 y1 (n + 1) ps ds); try done.
      * exists (<[b := (host m, 1)]> M), rss. split; [exact Hm2|]. split; [by destruct Hcx|].
        destruct (dist_refs_upd ds i d d' Hdi) as [Hu Hds]. eapply minv_perm; [|exact Hinv2]. rewrite Hu, Hds.
        unfold dist_refs at 1 3. cbn [d' d_hold d_ring d_ms app]. rewrite Hhold, out_refs_snoc by exact Hlen. cbn [app]. solve_Permutation.
      * cbn. rewrite list_fmap_insert. cbn [d' d_ms]. f_equal. apply Hx.
      * cbn. apply Forall2_insert; [apply Hx1|]. split; [by exists k|]. cbn. rewrite !length_app. split; [cbn; lia|].
        apply Forall_snoc; [exact Hms|]. by apply app_routable.
      * rewrite <-length_zero_iff_nil, length_insert, length_zero_iff_nil. apply Hx.
      * apply (sc_share _ _ _ _ _ _ Hx1).
      * cbn [set_dist set_shared g_mem]. change (g_mem x1) with (g_mem x). lia.
      * apply yinv_send; [apply Hx1|exact Hyq|apply app_no_ack].
    + intros z x2 Hx2. apply wp_ret, HQ. eexists. split; [eapply rtc_l; [apply y_rand|apply rtc_once; eapply y_send; [exact Hyq|apply app_no_ack]]|].
      split_and!; [done|by rewrite app_nil_r|done|]. exists ps, (<[i := d']> ds). split; [exact Hx2|]. by apply Forall_insert.
  - cbn [fst snd] in *. change (negb (-1 =? 0)) with true. cbn iota. apply wp_bind, wp_on_gmem.
    eapply wp_mref_dec; [exact Hm2|by rewrite lookup_insert_eq|]. intros s3 Hm3 Hf3. change (1 =? 1) with true in Hm3. cbn iota in Hm3.
    rewrite delete_insert_id in Hm3 by done. apply wp_ret, HQ. exists y1. split; [apply rtc_once, y_rand|]. change (RTMQ_ERR =? RTMQ_OK) with false. rewrite !app_nil_r. split_and!; [done..|]. exists ps, ds. split; [|exact Hd].
    eapply (sys_dist x1 y1 (n + 1) ps ds); try done.
    * exists M, rss. split; [exact Hm3|]. split; [by destruct Hcx|exact Hinv].
    * apply Hx1.
    * cbn. rewrite <-(list_insert_id ds i d Hdi). apply Forall2_insert; [apply Hx1|]. split; [by exists k|]. by rewrite Hhold.
    * apply Hx1.
    * apply Hx1.
    * cbn [set_dist set_shared g_mem]. change (g_mem x1) with (g_mem x). assert (fresh (mblk s3) = fresh (mblk s2)) as -> by exact Hf3. lia.
    * apply Hx1.
Qed.
(** *** The distribution *)

(** The first message taken from a ring is done. *)
Definition next_held d : dpart := DPart (tail (d_hold d)) (d_ring d) (tail (d_ms d)).

Section Item.
Context {x : srv_st T U} {y : asystem U} {n : Z} {ps : list (part T)} {ds : list dpart} {j : nat} {d : dpart}
  {b : ptr} {hs : list ptr} {m : mesg} {ms : list mesg}.
Hypothesis Hx : sys_core x y n ps ds.
Hypothesis Hd : ds !! j = Some d.
Hypothesis Hh : d_hold d = b :: hs.
Hypothesis Hms : d_ms d = m :: ms.

Lemma held_mesg : y_distq y !! j = Some (m :: ms) ∧ routable m ∧ dist_refs d = Href b 0 (host m) true :: dist_refs (next_held d).
Proof.
  destruct (sc_dist _ _ _ _ _ _ Hx) as [Hy Hok]. destruct (Forall2_lookup_r _ _ _ _ _ Hok Hd) as (r & _ & _ & _ & Hr).
  split_and!; [by rewrite Hy, list_lookup_fmap, Hd, <-Hms|rewrite Hms in Hr; by inversion Hr|].
  unfold dist_refs, next_held. cbn [d_hold d_ring d_ms]. by rewrite Hh, Hms.
Qed.

Lemma held_perm (R : list href) : R ++ concat (dist_refs <$> ds) ≡ₚ Href b 0 (host m) true :: R ++ concat (dist_refs <$> <[j := next_held d]> ds).
Proof.
  destruct held_mesg as (_ & _ & Hr). destruct (dist_refs_upd ds j d (next_held d) Hd) as [-> ->]. rewrite Hr. cbn [app]. solve_Permutation.
Qed.

Lemma held_block : ∃ M rss, mrep (g_mem x) M ∧ ctx_rep (g_ctx x) rss (sys_view y) ∧
  minv (all_bufs ps) M (Href b 0 (host m) true :: (concat rss ++ concat (part_refs <$> ps)) ++ concat (dist_refs <$> <[j := next_held d]> ds)) ∧
  M !! b = Some (host m, 1).
Proof.
  destruct (sc_mem _ _ _ _ _ _ Hx) as (M & rss & Hm & Hcx & Hi). exists M, rss. split; [exact Hm|]. split; [exact Hcx|].
  assert (minv (all_bufs ps) M (Href b 0 (host m) true :: (concat rss ++ concat (part_refs <$> ps)) ++ concat (dist_refs <$> <[j := next_held d]> ds))) as Hi'.
  { eapply minv_perm; [|exact Hi]. rewrite (app_assoc (concat rss)). apply held_perm. }
  split; [exact Hi'|]. by destruct (minv_sole Hi' _ ltac:(left) eq_refl) as (Hb & _).
Qed.

Lemma next_ok : Forall2 dpart_ok (g_distq x) (<[j := next_held d]> ds) ∧ <[j := ms]> (y_distq y) = d_ms <$> <[j := next_held d]> ds ∧ <[j := next_held d]> ds ≠ [].
Proof.
  destruct (sc_dist _ _ _ _ _ _ Hx) as [Hy Hok]. destruct (Forall2_lookup_r _ _ _ _ _ Hok Hd) as (r & Hr & Hring & Hl & Hf). split_and!.
  - rewrite <-(list_insert_id (g_distq x) j r Hr). apply Forall2_insert; [exact Hok|]. split; [exact Hring|].
    rewrite Hh, Hms in Hl. rewrite Hms in Hf. unfold next_held. cbn [d_hold d_ring d_ms]. rewrite Hh, Hms. cbn [tail app length] in *.
    split; [lia|by inversion Hf].
  - rewrite Hy, list_fmap_insert. unfold next_held at 1. cbn [d_ms]. by rewrite Hms.
  - rewrite <-length_zero_iff_nil, length_insert, length_zero_iff_nil. by apply (sc_some _ _ _ _ _ _ Hx).
Qed.

(** The message is lost. *)
Lemma wp_lose (Q : unit → srv_st T U → mem → Prop) ms' :
  (∀ x' y', qstep G y y' → sys_core x' y' n ps (<[j := next_held d]> ds) → Q tt x' ms') →
  wp (on_gmem (mref_dec b);; mret tt) Q x ms'.
Proof.
  intros HQ. destruct held_block as (M & rss & Hm & Hcx & Hi & Hb). destruct held_mesg as (Hy & _ & _). destruct next_ok as (N1 & N2 & N3).
  apply wp_bind, wp_on_gmem. eapply wp_mref_dec; [exact Hm|exact Hb|]. intros s' Hm' Hf. apply wp_ret.
  apply (HQ _ (set_ydist (<[j := ms]> (y_distq y)) (y_sent y) y)); [by split; [eapply y_lost|]|].
  eapply (sys_dist x y n ps ds); try done.
  - exists (given_back (M := M) b (host m) 1), rss. split; [exact Hm'|]. split; [by destruct Hcx|]. rewrite (app_assoc (concat rss)).
    by apply (minv_drop _ _ (Href b 0 (host m) true)).
  - apply Hx.
  - apply (sc_room _ _ _ _ _ _ Hx).
  - cbn [set_shared g_mem]. rewrite Hf. lia.
  - eapply yinv_lost; [apply Hx|exact Hy].
Qed.

(** It goes to the thread [i]. *)
Definition give_part p : part T := Part (p_recv p) (p_drop p) (p_cs p) (p_new p) (p_sps p ++ [b]) (p_sendq p ++ [m]) (p_closed p).

Lemma sys_give i t t' p l : g_thrs x !! i = Some t → ps !! i = Some p → part_ok i t' (give_part p) →
  y_map y !! i32 (h_nid (m_head m)) = Some l → Z.of_nat i ∈ l →
  let y' := set_ydist (<[j := ms]> (y_distq y)) (y_sent y) (set_thrs (<[i := thr_send m (thr_of p)]> (y_thrs y)) y) in
  qstep G y y' ∧ sys_core (set_shared (g_mem x) (g_ctx x) (<[i := t']> (g_thrs x)) x) y' n (<[i := give_part p]> ps) (<[j := next_held d]> ds).
Proof.
  intros Ht Hp Ht' Hmap Hin y'. destruct held_block as (M & rss & Hm & Hcx & Hi & Hb). destruct held_mesg as (Hy & _ & _). destruct next_ok as (N1 & N2 & N3).
  pose proof Hx as [_ Hbs Hth [Hlen Hok] [Hps Hds] _ Hsh Hw Hreg Hsid Hroom Hinv].
  assert (y_thrs y !! i = Some (thr_of p)) as Hyt by (rewrite Hth, list_lookup_fmap; by rewrite Hp).
  pose proof (insert_Permutation _ _ _ (give_part p) Hp) as Hperm. pose proof (delete_Permutation _ _ _ Hp) as Hperm0.
  split; [by split; [eapply y_route|]|].
  assert (∀ A (f : part T → list A), f (give_part p) = f p → concat (f <$> <[i := give_part p]> ps) ≡ₚ concat (f <$> ps)) as Hsame.
  { intros A f Hf. by apply (concat_same f _ _ p). }
  constructor; cbn [set_shared g_mem g_ctx g_thrs g_distq g_works g_app g_reg g_sid]; try done.
  - exists M, rss. split_and!; [exact Hm|eapply sys_ctx; [..|exact Hcx]; done|].
    assert (all_bufs (<[i := give_part p]> ps) = all_bufs ps) as ->.
    { unfold all_bufs. apply list_to_map_proper; [rewrite entries_bases|]; rewrite Hsame; done. }
    eapply minv_perm; [|exact Hi]. rewrite (concat_upd part_refs _ _ _ (give_part p) Hp), (concat_at part_refs _ _ _ Hp).
    unfold part_refs at 1 3. cbn [give_part p_sps p_sendq p_cs]. rewrite out_refs_snoc by (by apply (Hok _ _ _ Ht Hp)). solve_Permutation.
  - by rewrite Hsame.
  - cbn [y' set_ydist set_thrs y_thrs]. rewrite Hth. by rewrite list_fmap_insert.
  - rewrite !length_insert. split; [done|]. intros k tk pk Htk Hpk. destruct (decide (i = k)) as [<-|Hne].
    + rewrite list_lookup_insert_eq in Htk by (by eapply lookup_lt_Some). injection Htk as <-.
      rewrite list_lookup_insert_eq in Hpk by (by eapply lookup_lt_Some). by injection Hpk as <-.
    + rewrite list_lookup_insert_ne in Htk by done. rewrite list_lookup_insert_ne in Hpk by done. by eapply Hok.
  - split; [|done]. by rewrite <-length_zero_iff_nil, length_insert, length_zero_iff_nil.
  - rewrite (total_perm _ _ (fmap_Permutation part_demand _ _ Hperm)). rewrite (total_perm _ _ (fmap_Permutation part_demand _ _ Hperm0)) in Hroom. exact Hroom.
  - by eapply yinv_route.
Qed.
End Item.
Lemma wp_map_choice x y n ps ds nid (Q : Z → srv_st T U → mem → Prop) ms :
  sys_core x y n ps ds → is_nid nid →
  (∀ ctx, sys_core (set_shared (g_mem x) ctx (g_thrs x) x) y n ps ds →
     (match y_map y !! nid with
      | None => Q (-1) (set_shared (g_mem x) ctx (g_thrs x) x) ms
      | Some l => ∀ i, i ∈ l → Q i (set_shared (g_mem x) ctx (g_thrs x) x) ms
      end)) →
  wp (on_gctx (on_tabs (rtmq_node_to_svr_map_rand (default 0 (list.head (rands (g_ctx x)))) nid))) Q x ms.
Proof.
  intros Hx Hnid HQ. destruct (sc_mem _ _ _ _ _ _ Hx) as (M & rss & Hm & Hcx & Hi). destruct (sc_share _ _ _ _ _ _ Hx) as (_ & Hr & _).
  rewrite (cx_rands _ _ _ Hcx). cbn [sys_view view a_rands] in *. set (r := default 0 (list.head (y_rands y))).
  assert (0 ≤ r) as Hr0 by (unfold r; cbn in Hr; by destruct Hr).
  unfold on_gctx. apply wp_zoom. unfold on_tabs. apply wp_zoom. eapply wp_map_rand; [apply Hcx|exact Hnid|exact Hr0|]. intros c Hc.
  cbn [sys_view view a_map sys_share share_at s_map a_acc s_acc] in *.
  assert (sys_core (set_shared (g_mem x) (set_tabs c (g_ctx x)) (g_thrs x) x) y n ps ds) as Hx'.
  { eapply (sys_dist x y n ps ds); try done; [|apply Hx|apply Hx|by apply (sc_some _ _ _ _ _ _ Hx)|apply Hx|apply (sc_room _ _ _ _ _ _ Hx)|apply Hx].
    exists M, rss. split; [exact Hm|]. split; [by destruct Hcx|exact Hi]. }
  specialize (HQ _ Hx'). unfold abs_map_rand. destruct (y_map y !! nid) as [l|] eqn:Hl; [|exact HQ]. apply HQ.
  destruct (cr_map _ _ _ Hc) as (N & _ & HN). specialize (HN nid). rewrite Hl in HN. inversion HN as [z l' Hrel Hz|]; subst.
  pose proof (nr_some _ _ Hrel) as Hne. assert (0 < Z.of_nat (length l)) as Hpos by (destruct l; [done|cbn; lia]).
  pose proof (Z.rem_bound_pos r (Z.of_nat (length l)) Hr0 Hpos).
  destruct (lookup_lt_is_Some_2 l (Z.to_nat (Z.rem r (Z.of_nat (length l))))) as [i Hli]; [lia|]. change (default 0 (list.head (s_rands (sys_share y)))) with r. rewrite Hli. by eapply list_elem_of_lookup_2.
Qed.

Lemma wp_dsvr_item x y n ps ds j d b hs m ms (Q : unit → srv_st T U → mem → Prop) :
  sys_core x y n ps ds → ds !! j = Some d → d_hold d = b :: hs → d_ms d = m :: ms →
  (∀ x' y' ps', rtc (qstep G) y y' → sys_core x' y' n ps' (<[j := next_held d]> ds) → Q tt x' []) →
  wp (dsvr_item b) Q x [].
Proof.
  intros Hx Hd Hh Hms HQ. destruct (held_mesg Hx Hd Hh Hms) as (_ & [[Hhd _ _ _] Hnid] & _).
  destruct (held_block Hx Hd Hh Hms) as (M & rss & Hm & _ & _ & Hb).
  unfold dsvr_item. apply wp_bind, wp_on_gmem. eapply (wp_rd_head _ M b [] (m_head m) (m_body m)); [exact Hm|exact Hb|done|exact Hhd|].
  replace (set_shared (g_mem x) (g_ctx x) (g_thrs x) x) with x by (by destruct x). do 2 wp_step. apply wp_bind.
  eapply wp_map_choice; [exact Hx|exact Hnid|]. intros ctx Hx1. set (x1 := set_shared (g_mem x) ctx (g_thrs x) x) in *.
  destruct (y_map y !! i32 (h_nid (m_head m))) as [l|] eqn:Hmap.
  - intros i0 Hin. destruct (yi_map _ (sc_inv _ _ _ _ _ _ Hx) _ _ Hmap) as [_ Hl]. rewrite Forall_forall in Hl. specialize (Hl _ Hin).
    rewrite (proj2 (Z.ltb_ge _ _)) by lia. set (i := Z.to_nat i0). assert (i0 = Z.of_nat i) as Hi0 by lia. rewrite Hi0 in *. clearbody i.
    apply wp_bind. eapply wp_grand; [exact Hx1|]. cbn zeta. intros ctx2 Hx2 _. set (y2 := set_yrands (tail (y_rands y)) y) in *.
    set (x2 := set_shared (g_mem x1) ctx2 (g_thrs x1) x1) in *.
    assert (i < length (g_thrs x2))%nat as Hlt. { destruct (sc_parts _ _ _ _ _ _ Hx2) as [Hl2 _]. rewrite Hl2. rewrite (sc_thrs _ _ _ _ _ _ Hx), length_fmap in Hl. lia. }
    destruct (part_at G _ _ _ _ _ i Hx2 Hlt) as (t & p & Ht & Hp & Hok & _).
    apply wp_bind. eapply wp_on_thr; [exact Ht|]. set (T1 := set_core (g_mem x2) (g_ctx x2) (t_rsvr t) (t_err t) t).
    assert (part_ok i T1 p) as HT1 by (by destruct Hok). pose proof HT1 as [Hrv Hlc Hk Hc Hlive Hcq Hnew Hsend [(k & Hring) Hlr] Hcl Hmax Hcmd Hlen].
    unfold on_sendq. apply wp_zoom. eapply wp_ring_push; [exact Hring|]. intros q' Hq'. unfold aring_push in Hq' |- *. case_decide as Hcap; cbn [fst snd] in *.
    + change (negb (0 =? 0)) with false. cbn iota.
      assert (part_ok i (set_queues (t_connq T1) q' T1) (give_part (b := b) (m := m) p)) as Hok'.
      { constructor; cbn [give_part p_recv p_drop p_cs p_new p_sps p_sendq p_closed]; try done.
        - apply Forall_snoc; [exact Hsend|]. by destruct (held_mesg Hx Hd Hh Hms) as (_ & [? _] & _).
        - split; [by exists k|]. rewrite !length_app. cbn. lia. }
      destruct (sys_give Hx2 Hd Hh Hms i t _ p l Ht Hp Hok' Hmap Hin) as [Hst Hx3]. apply wp_bind. unfold rtmq_dsvr_cmd_dist_req. apply wp_bind.
      eapply wp_recv_cmd_write; [exact Hx3|cbn; rewrite length_insert; exact Hlt|]. intros r x4 Hx4. apply wp_ret, wp_ret.
      eapply HQ; [|exact Hx4]. eapply rtc_l; [apply rand_step|]. by apply rtc_once.
    + change (negb (-1 =? 0)) with true. cbn iota.
      assert (part_ok i (set_queues (t_connq T1) q' T1) p) as Hok' by (constructor; try done; split; [by exists k|done]).
      pose proof (sys_thr G _ _ _ _ _ i t _ p Hx2 Hp Ht Hok') as Hx3. eapply (wp_lose Hx3 Hd Hh Hms). intros x4 y4 Hst Hx4.
      eapply HQ; [|exact Hx4]. eapply rtc_l; [apply rand_step|]. by apply rtc_once.
  - change (-1 <? 0) with true. cbn iota. eapply (wp_lose Hx1 Hd Hh Hms). intros x4 y4 Hst Hx4. eapply HQ; [by apply rtc_once|exact Hx4].
Qed.

(** The messages taken from the ring [j]. *)
Lemma wp_dsvr_items hs : ∀ x y n ps ds j d (Q : unit → srv_st T U → mem → Prop),
  sys_core x y n ps ds → ds !! j = Some d → d_hold d = hs →
  (∀ x' y' ps', rtc (qstep G) y y' → sys_core x' y' n ps' (<[j := DPart [] (d_ring d) (drop (length hs) (d_ms d))]> ds) → Q tt x' []) →
  wp (for_each dsvr_item hs) Q x [].
Proof.
  induction hs as [|b hs IH]; intros x y n ps ds j d Q Hx Hd Hh HQ; cbn [for_each].
  - apply wp_ret. eapply HQ; [reflexivity|]. rewrite drop_0, list_insert_id; [exact Hx|]. rewrite Hd. destruct d. cbn in *. by subst.
  - destruct (sc_dist _ _ _ _ _ _ Hx) as [_ Hok]. destruct (Forall2_lookup_r _ _ _ _ _ Hok Hd) as (r & _ & _ & Hl & _).
    rewrite Hh in Hl. destruct (d_ms d) as [|m ms] eqn:Hms; [done|].
    apply wp_bind. eapply (wp_dsvr_item _ _ _ _ _ _ _ _ _ _ _ _ Hx Hd Hh Hms). intros x1 y1 ps1 Hst1 Hx1.
    eapply (IH x1 y1 n ps1 _ j (next_held d)); [exact Hx1|apply list_lookup_insert_eq; by eapply lookup_lt_Some|by unfold next_held; rewrite Hh|].
    intros x2 y2 ps2 Hst2 Hx2. rewrite list_insert_insert_eq in Hx2. unfold next_held in Hx2. rewrite Hms in Hx2. cbn [d_ring d_ms tail] in Hx2.
    eapply HQ; [by etransitivity|exact Hx2].
Qed.

Definition at_rest (ds : list dpart) : Prop := Forall (λ d, d_hold d = []) ds.

Lemma wp_dsvr_queue x y n ps ds j (Q : unit → srv_st T U → mem → Prop) :
  sys_core x y n ps ds → at_rest ds → (j < length ds)%nat →
  (∀ x' y' ps' ds', rtc (qstep G) y y' → sys_core x' y' n ps' ds' → at_rest ds' → length ds' = length ds → Q tt x' []) →
  wp (dsvr_queue j) Q x [].
Proof.
  intros Hx Hr Hj HQ. pose proof (sc_dist _ _ _ _ _ _ Hx) as [Hy Hok]. unfold dsvr_queue. do 2 wp_step.
  destruct (dpart_at x y n ps ds j Hx) as (q & d & Hq & Hd & [(k & Hk) [Hl Hf]] & _); [by rewrite (Forall2_length _ _ _ Hok)|].
  rewrite Hq. cbn [deref]. do 2 wp_step. assert (d_hold d = []) as Hh. { unfold at_rest in Hr. rewrite Forall_forall in Hr. apply Hr. by eapply list_elem_of_lookup_2. }
  unfold ring_used. rewrite (rr_num _ _ _ Hk). cbv zeta. set (num := Z.min (Z.of_nat (length (d_ring d))) RTRD_DISP_POP_NUM).
  destruct (Z.eqb_spec 0 num) as [Hz|Hz]; [apply wp_ret; by eapply HQ|].
  assert ((Z.to_nat num ≤ length (d_ring d))%nat ∧ Z.of_nat (Z.to_nat num) < 2 ^ 32) as [Hn1 Hn2] by (unfold num, RTRD_DISP_POP_NUM in *; lia).
  apply wp_bind. eapply wp_on_distq; [exact Hq|]. eapply wp_ring_mpop; [exact Hk|exact Hn2|]. unfold aring_pop. rewrite decide_True by done. cbn [fst snd].
  intros q' Hq'. set (hs := take (Z.to_nat num) (d_ring d)). set (d' := DPart hs (drop (Z.to_nat num) (d_ring d)) (d_ms d)).
  assert (sys_core (set_dist (<[j := q']> (g_distq x)) (g_dist_pipe x) x) y n ps (<[j := d']> ds)) as Hx1.
  { destruct (sc_mem _ _ _ _ _ _ Hx) as (M & rss & Hm & Hcx & Hi).
    eapply (sys_dist x y n ps ds); try done; [| | | |apply Hx|apply (sc_room _ _ _ _ _ _ Hx)|apply Hx].
    - exists M, rss. split; [exact Hm|]. split; [exact Hcx|]. eapply minv_perm; [|exact Hi].
      destruct (dist_refs_upd ds j d d' Hd) as [-> ->]. unfold dist_refs at 1 3. cbn [d' d_hold d_ring d_ms]. unfold hs. by rewrite take_drop, Hh.
    - rewrite Hy, list_fmap_insert. cbn [d' d_ms]. rewrite list_insert_id; [done|]. by rewrite list_lookup_fmap, Hd.
    - cbn. apply Forall2_insert; [exact Hok|]. split; [by exists k|]. cbn [d' d_hold d_ring d_ms]. unfold hs. rewrite take_drop. by rewrite Hh in Hl.
    - rewrite <-length_zero_iff_nil, length_insert, length_zero_iff_nil. by apply (sc_some _ _ _ _ _ _ Hx). }
  eapply (wp_dsvr_items hs _ _ _ _ _ j d'); [exact Hx1|by apply list_lookup_insert_eq|done|]. intros x2 y2 ps2 Hst Hx2.
  rewrite list_insert_insert_eq in Hx2. eapply HQ; [exact Hst|exact Hx2|by apply Forall_insert|by rewrite length_insert].
Qed.

Lemma wp_dsvr_queues js : ∀ x y n ps ds (Q : unit → srv_st T U → mem → Prop),
  sys_core x y n ps ds → at_rest ds → Forall (λ j, j < length ds)%nat js →
  (∀ x' y' ps' ds', rtc (qstep G) y y' → sys_core x' y' n ps' ds' → at_rest ds' → Q tt x' []) →
  wp (for_each dsvr_queue js) Q x [].
Proof.
  induction js as [|j js IH]; intros x y n ps ds Q Hx Hr Hjs HQ; cbn [for_each]; [apply wp_ret; by eapply HQ|].
  apply Forall_cons in Hjs as [Hj Hjs]. apply wp_bind. eapply wp_dsvr_queue; [exact Hx|exact Hr|exact Hj|]. intros x1 y1 ps1 ds1 Hst1 Hx1 Hr1 Hl1.
  eapply IH; [exact Hx1|exact Hr1|by rewrite Hl1|]. intros x2 y2 ps2 ds2 Hst2 Hx2 Hr2. eapply HQ; [by etransitivity|exact Hx2|exact Hr2].
Qed.

Lemma wp_dist_data_hdl x y n (Q : Z → srv_st T U → mem → Prop) :
  sys_rep x y n → (∀ r x', sys_reaches y n x' → Q r x' []) → wp rtmq_dsvr_dist_data_hdl Q x [].
Proof.
  intros (ps & ds & Hx & Hr) HQ. unfold rtmq_dsvr_dist_data_hdl. do 2 wp_step. apply wp_bind. eapply wp_dsvr_queues; [exact Hx|exact Hr| |].
  - destruct (sc_dist _ _ _ _ _ _ Hx) as [_ Hok]. rewrite (Forall2_length _ _ _ Hok). apply Forall_forall. intros j Hj%elem_of_seq. lia.
  - intros x' y' ps' ds' Hst Hx' Hr'. apply wp_ret, HQ. exists y'. split; [exact Hst|]. by exists ps', ds'.
Qed.

Lemma wp_turn_dist ev x y n (Q : unit → srv_st T U → mem → Prop) :
  sys_rep x y n → (∀ x', sys_reaches y n x' → Q tt x' []) → wp (rtmq_dsvr_routine ev) Q x [].
Proof.
  intros Hx HQ. destruct ev as [e| |]; cbn [rtmq_dsvr_routine].
  - apply wp_ret, HQ. by apply sys_reaches_same.
  - apply wp_bind. eapply wp_dist_data_hdl; [exact Hx|]. intros r x' Hx'. by apply wp_ret, HQ.
  - unfold rtmq_dsvr_cmd_recv_and_proc. apply wp_bind. do 4 wp_step. set (x1 := set_dist (g_distq x) (tail (g_dist_pipe x)) x).
    assert (sys_rep x1 y n) as Hx1. { destruct Hx as (ps & ds & Hx & Hr). exists ps, ds. split; [|done]. by destruct Hx. }
    destruct (default None (head (g_dist_pipe x))) as [type|].
    + destruct (type =? RTMQ_CMD_DIST_REQ).
      * eapply wp_dist_data_hdl; [exact Hx1|]. intros r x' Hx'. by apply wp_ret, HQ.
      * apply wp_ret, wp_ret, HQ. by apply sys_reaches_same.
    + apply wp_ret, wp_ret, HQ. by apply sys_reaches_same.
Qed.
End Dist.

(** * The turns of the workers, and the steps of the server: each refines the
    abstract server of [RtmqSys] *)

(** The handlers of the application return, with as much memory as they want. *)
Definition handlers_ok {U} (G : gmap Z (rtmq_reg_t U)) : Prop :=
  map_Forall (λ _ reg, ∀ type nid body len u, wp (rg_proc reg type nid body len) (λ _ _ os, os = []) u []) G.

Section Serve.
Context {U : Type} (G : gmap Z (rtmq_reg_t U)).
Hypothesis HG : handlers_ok G.

Lemma handler_ok type reg : handler_of G type = Some reg →
  ∀ ty nid body len u, wp (rg_proc reg ty nid body len) (λ _ _ os, os = []) u [].
Proof.
  unfold handler_of. destruct (G !! type) as [r|] eqn:Hr; [intros [= <-]; by apply (HG _ _ Hr)|]. intros Hr0. by apply (HG _ _ Hr0).
Qed.

Lemma wp_serve_total m a : wp (serve G m) (λ _ _ os, os = []) a [].
Proof.
  unfold serve. destruct (handler_of G (h_type (m_head m))) as [reg|] eqn:Hr; [|by wp_step].
  apply wp_bind, wp_zoom. eapply wp_mono; [by eapply handler_ok|]. intros r u os ->. destruct (negb (r =? 0)); by wp_step.
Qed.

Lemma serve_total ms : ∀ a, ∃ a', for_each (serve G) ms a [] = Ok (tt, a', []).
Proof.
  intros a. assert (wp (for_each (serve G) ms) (λ _ _ os, os = []) a []) as Hw.
  { revert a. induction ms as [|m ms IH]; intros a; cbn [for_each]; [by apply wp_ret|]. apply wp_bind.
    eapply wp_mono; [apply wp_serve_total|]. intros [] a1 os ->. apply IH. }
  apply wp_elim in Hw as ([] & a' & os & Heq & ->). by exists a'.
Qed.
End Serve.

Section Work.
Context {T : Type → Type} `{TreeLaws T} {U : Type} (G : gmap Z (rtmq_reg_t U)).
Implicit Types (t : thr_st T) (p : part T) (ps : list (part T)) (d : dpart) (x : srv_st T U) (y : asystem U).
Abbreviation sys_core := (sys_core G).
Abbreviation sys_rep := (sys_rep G).
Abbreviation sys_reaches := (sys_reaches G).
Abbreviation sys_did := (sys_did G).
Hypothesis HG : handlers_ok G.

(** The receive queues, the commands and the counters of the workers change. *)
Lemma sys_work x y n ps ds mem ctx reg works app inq cs served : sys_core x y n ps ds →
  let y' := set_ywork inq cs works app served y in
  (∃ M rss, mrep mem M ∧ ctx_rep ctx rss (sys_view y') ∧ minv (all_bufs ps) M (concat rss ++ concat (part_refs <$> ps) ++ concat (dist_refs <$> ds))) →
  tmap rg_type reg_dom rtmq_reg_cmp_cb reg G → fresh (mblk mem) = fresh (mblk (g_mem x)) → inq ≠ [] → concat inq ⊆ concat (y_in y) → yinv y' →
  sys_core (set_works mem ctx reg works app x) y' n ps ds.
Proof.
  intros [_ Hb Hth Hok Hsome Hd (_ & Hr & Hs) _ _ Hsid Hroom _] y' Hm Hreg Hf Hin Hsub Hinv. constructor; try done.
  - split_and!; [done|exact Hr|]. intros m Hm'. apply Hs. by apply Hsub.
  - cbn [set_works g_mem]. by rewrite Hf.
Qed.

Lemma wp_work_on w i x y n (Q : Z → srv_st T U → mem → Prop) :
  sys_rep x y n → (w < length (g_works x))%nat → (i < length (y_in y))%nat →
  (∀ r x' y', length (g_works x') = length (g_works x) → length (y_in y') = length (y_in y) → rtc (qstep G) y y' → sys_rep x' y' n → Q r x' []) →
  wp (work_on w (Z.of_nat i)) Q x [].
Proof.
  intros (ps & ds & Hx & Hd) Hw Hi HQ. destruct (lookup_lt_is_Some_2 _ _ Hw) as [c Hc]. destruct (lookup_lt_is_Some_2 _ _ Hi) as [ms Hms].
  destruct (sc_mem _ _ _ _ _ _ Hx) as (M & rss & Hm & Hcx & Hinv). destruct (sc_works _ _ _ _ _ _ Hx) as [Hw1 Hw2].
  destruct (sc_share _ _ _ _ _ _ Hx) as (Hin & _ & Hserved). cbn [sys_share share_at s_in] in Hin, Hserved.
  destruct (serve_total G HG ms (awork_of c (y_app y))) as (a & Ha).
  unfold work_on. do 2 wp_step. rewrite Hc. cbn [deref]. do 2 wp_step. apply wp_bind, wp_run_on.
  eapply wp_mono; [eapply (wp_worker_hdl (g_mem x) (Worker (wc_proc c) (wc_drop c) (wc_err c) (g_reg x) (g_ctx x) (g_app x)) _ _ _ rss (sys_view y) i ms G []
    (λ _ b os, b = a ∧ os = [])); [exact Hm|exact Hinv|exact Hcx|exact Hms|apply Hx| |]|].
  - apply Forall_forall. intros m Hm'. apply Hserved. by eapply elem_of_concat.
  - unfold aw. cbn [wk_proc wk_drop wk_err wk_app]. rewrite Hw2. apply (wp_intro _ _ _ _ tt a []); [exact Ha|done].
  - intros ret [st wk] os' (-> & (Haw & ->) & (M' & Hm' & Hmi' & Hcx') & Hreg' & Hf'). cbn [fst snd] in *. do 2 wp_step. apply wp_ret.
    apply (HQ _ _ (set_ywork (<[i := []]> (y_in y)) (y_cmds y) (<[w := count_of a]> (y_works y)) (aw_app a) (y_served y ++ ms) y)).
    + cbn. by rewrite length_insert.
    + cbn. by rewrite length_insert.
    + apply rtc_once. split; [|done]. eapply y_serve; [by rewrite <-Hw1|exact Hms|exact Ha].
    + exists ps, ds. split; [|exact Hd]. assert (WCount (wk_proc wk) (wk_drop wk) (wk_err wk) = count_of a ∧ wk_app wk = aw_app a) as [Hcnt Happ] by (by rewrite <-Haw).
      rewrite Hcnt, Happ, Hw1. eapply sys_work; [exact Hx| |exact Hreg'|exact Hf'| | |].
      * exists M', (<[i := []]> rss). split; [exact Hm'|]. split; [|exact Hmi']. by destruct Hcx'.
      * rewrite <-length_zero_iff_nil, length_insert, length_zero_iff_nil. exact Hin.
      * intros m. apply elem_of_concat_clear.
      * apply yinv_serve; [apply Hx|exact Hms|]. by rewrite length_insert.
Qed.

Lemma take_cmd_in w l c l' : take_cmd w l = Some (c, l') → (∃ k, (k, c) ∈ l) ∧ l' ⊆ l.
Proof.
  revert l'. induction l as [|[k c0] l IH]; intros l'; cbn [take_cmd]; [done|]. cbn [fst snd]. destruct (k =? w).
  - intros [= -> <-]. split; [exists k; by left|set_solver].
  - destruct (take_cmd w l) as [[c1 l1]|]; [|done]. intros [= -> <-]. destruct (IH _ eq_refl) as [(k' & Hk') Hl]. split; [exists k'; by right|set_solver].
Qed.

Lemma wp_work_queues w js : ∀ x y n (Q : unit → srv_st T U → mem → Prop),
  sys_rep x y n → (w < length (g_works x))%nat → Forall (λ j, 2 * w + j < length (y_in y))%nat js →
  (∀ x', sys_reaches y n x' → Q tt x' []) →
  wp (for_each (λ idx : nat, work_on w (RTMQ_WORKER_HDL_QNUM * Z.of_nat w + Z.of_nat idx);; mret tt) js) Q x [].
Proof.
  induction js as [|j js IH]; intros x y n Q Hx Hw Hjs HQ; cbn [for_each]; [apply wp_ret, HQ; by apply sys_reaches_same|].
  apply Forall_cons in Hjs as [Hj Hjs]. replace (RTMQ_WORKER_HDL_QNUM * Z.of_nat w + Z.of_nat j) with (Z.of_nat (2 * w + j)) by (unfold RTMQ_WORKER_HDL_QNUM; lia).
  apply wp_bind, wp_bind. eapply wp_work_on; [exact Hx|exact Hw|exact Hj|]. intros r x1 y1 Hl1 Hl2 Hst Hx1. apply wp_ret.
  eapply IH; [exact Hx1|by rewrite Hl1|by rewrite Hl2|]. intros x2 (y2 & Hst2 & Hx2). apply HQ. exists y2. split; [by etransitivity|done].
Qed.

Lemma wp_turn_work w ev x y n (Q : unit → srv_st T U → mem → Prop) :
  sys_rep x y n → (w < length (g_works x))%nat → (∀ e, ev = PollErr e → e = EINTR) →
  (∀ x', sys_reaches y n x' → Q tt x' []) → wp (rtmq_worker_routine w ev) Q x [].
Proof.
  intros Hx Hw Hev HQ.
  assert (length (y_in y) = 2 * length (g_works x))%nat as Hl.
  { destruct Hx as (ps & ds & Hx & _). destruct (sc_works _ _ _ _ _ _ Hx) as [-> _]. apply (sc_inv _ _ _ _ _ _ Hx). }
  destruct ev as [e| |]; cbn [rtmq_worker_routine].
  - rewrite (Hev e eq_refl). change (EINTR =? EINTR) with true. apply wp_ret, HQ. by apply sys_reaches_same.
  - eapply wp_work_queues; [exact Hx|exact Hw| |exact HQ]. apply Forall_forall. intros j Hj%elem_of_seq.
    change (Z.to_nat RTMQ_WORKER_HDL_QNUM) with 2%nat in Hj. lia.
  - unfold rtmq_worker_event_core_hdl. apply wp_bind. do 2 wp_step. destruct Hx as (ps & ds & Hx & Hd).
    destruct (sc_mem _ _ _ _ _ _ Hx) as (M & rss & Hm & Hcx & Hinv). rewrite (cx_cmds _ _ _ Hcx). cbn [sys_view view a_cmds sys_share share_at s_cmds].
    destruct (take_cmd (Z.of_nat w) (y_cmds y)) as [[req l]|] eqn:Ht; [|apply wp_ret, wp_ret, HQ, sys_reaches_same; by exists ps, ds].
    destruct (take_cmd_in _ _ _ _ Ht) as [(k & Hk) Hsub]. apply wp_bind. unfold on_gctx. apply wp_zoom. unfold modify, wp at 1.
    pose proof (sc_inv _ _ _ _ _ _ Hx) as Hy. pose proof (yi_cmds _ Hy) as Hcmds. unfold cmds_ok in Hcmds. rewrite Forall_forall in Hcmds.
    specialize (Hcmds _ Hk). cbn [snd] in Hcmds. destruct (sc_works _ _ _ _ _ _ Hx) as [Hw1 Hw2].
    set (x1 := set_shared (g_mem x) (set_cmds l (g_ctx x)) (g_thrs x) x). set (y1 := set_ywork (y_in y) l (y_works y) (y_app y) (y_served y) y).
    assert (sys_core x1 y1 n ps ds) as Hx1.
    { replace x1 with (set_works (g_mem x) (set_cmds l (g_ctx x)) (g_reg x) (y_works y) (y_app y) x) by (rewrite <-Hw1, <-Hw2; by destruct x).
      eapply sys_work; [exact Hx| |apply Hx|done|apply Hy|done|by apply yinv_cmd].
      exists M, rss. split; [exact Hm|]. split; [by destruct Hcx|exact Hinv]. }
    replace (pr_rqidx req) with (Z.of_nat (Z.to_nat (pr_rqidx req))) by lia.
    eapply (wp_work_on w _ x1 y1); [by exists ps, ds|exact Hw|cbn; lia|]. intros r x2 y2 _ _ Hst Hx2. apply wp_ret, HQ. exists y2. split; [|exact Hx2].
    eapply rtc_l; [by split; [apply y_cmd|]|exact Hst].
Qed.
End Work.
