(* ===== verification/RtmqServerProps.v ===== *)
(** The properties of the RTMQ server: any sequence of turns of its threads and of
    calls of the application refines the abstract server of [RtmqSys], none of them
    goes wrong, and the promises to the nodes and to the application hold. *)
From stdpp Require Import fin_maps gmap.
From S2P Require Import Prelude Heap Table HashTab TabRel TreeRel List2 Iovec Ring RingSpec Slot QueueSpec Mref Bytes Trees RtmqRecv RtmqMem RtmqRecvSpec RtmqSend RtmqSendSpec RtmqComm RtmqCommSpec RtmqRsvr RtmqRsvrSpec RtmqExp RtmqWork RtmqConn RtmqAbs RtmqConnRep RtmqConnEnd RtmqConnBody RtmqConnNew RtmqThread RtmqServer RtmqSys RtmqServerRep RtmqServerSpec RtmqServerDist.
Open Scope Z_scope.

(** ** Runs *)

Section Runs.
Context {T : Type → Type} `{TreeLaws T} {U : Type} (G : gmap Z (rtmq_reg_t U)).
Implicit Types (t : thr_st T) (p : part T) (ps : list (part T)) (d : dpart) (x : srv_st T U) (y : asystem U) (a : action).
Implicit Types (its : list rtmq_conn_item_t) (ms : list mesg).

(** The connections an action may accept, and the messages it may send. *)
Definition act_items a x : list rtmq_conn_item_t :=
  match a with
  | TurnListen PollReady l =>
      match accepted l with Some (Some (fd, evs, wr)) => [ConnItem fd (u64 (g_sid x + 1)) evs wr] | _ => [] end
  | _ => []
  end.
Definition act_mesgs a : list mesg :=
  match a with CallSend type dest data => [app_mesg type dest data] | _ => [] end.

(** What an action may rely on: [select] fails only when a signal interrupts it;
    there is a connection to accept, its descriptor is one [select] can watch, its
    peer sends well-formed messages, and there is room for it; a message fits an
    [int]; no connection has been silent for 60 seconds when the receive thread
    looks for such. *)
Definition act_safe a x : Prop :=
  match a with
  | TurnRecv i ev => ∃ t, g_thrs x !! i = Some t ∧ turn_safe ev t
  | TurnListen (PollErr e) _ => e = EINTR
  | TurnListen PollTimeout _ => True
  | TurnListen PollReady l =>
      match accepted l with
      | None => False
      | Some None => True
      | Some (Some (fd, evs, _)) => fd_ok fd = true ∧ stream_ok [] evs ∧ has_room x
      end
  | CallSend type dest data => HEAD_SIZE + Z.of_nat (length data) < 2 ^ 31 ∧ is_nid (i32 dest)
  | TurnDist _ => True
  | TurnWork w ev => (w < length (g_works x))%nat ∧ ∀ e, ev = PollErr e → e = EINTR
  end.

(** The blocks they may need. *)
Definition need its ms : Z := total (item_demand <$> its) + Z.of_nat (length ms).

(** A run: the connections accepted or refused, and the messages sent or not. *)
Inductive runs : srv_st T U → list rtmq_conn_item_t → list mesg → srv_st T U → Prop :=
  | runs_nil x : runs x [] [] x
  | runs_snoc x its ms x1 a x2 : runs x its ms x1 → act_safe a x1 → act a x1 [] = Ok (tt, x2, []) →
      runs x (its ++ act_items a x1) (ms ++ act_mesgs a) x2.

(** *** An action *)

Lemma item_demand_pos it : 0 ≤ item_demand it.
Proof. unfold item_demand. pose proof (demand_pos [] (ci_evs it)). lia. Qed.

Lemma need_pos its ms : 0 ≤ need its ms.
Proof.
  assert (0 ≤ total (item_demand <$> its)); [|unfold need; lia].
  apply total_pos, Forall_fmap, Forall_true. intros. apply item_demand_pos.
Qed.

Lemma need_app its its' ms ms' : need (its ++ its') (ms ++ ms') = need its ms + need its' ms'.
Proof. unfold need. rewrite fmap_app, total_app, length_app. lia. Qed.

Definition sys_may its ms y n x : Prop := ∃ its' ms', its' `sublist_of` its ∧ ms' `sublist_of` ms ∧ sys_did G its' ms' y n x.

Lemma reaches_may y n x : sys_reaches G y n x → sys_may [] [] y n x.
Proof. intros Hx. exists [], []. split_and!; [done|done|by apply sys_reaches_did]. Qed.

Lemma may_one {A} (b : bool) (z : A) : (if b then [z] else []) `sublist_of` [z].
Proof. destruct b; [done|]. apply sublist_nil_l. Qed.

Hypothesis HG : handlers_ok G.

Lemma wp_act a x y n (Q : unit → srv_st T U → mem → Prop) :
  sys_rep G x y (n + need (act_items a x) (act_mesgs a)) → 0 ≤ n → act_safe a x →
  (∀ x', sys_may (act_items a x) (act_mesgs a) y n x' → Q tt x' []) → wp (act a) Q x [].
Proof.
  intros Hx Hn Hsafe HQ.
  assert (act_items a x = [] → act_mesgs a = [] → sys_rep G x y n ∧ ∀ x', sys_reaches G y n x' → Q tt x' []) as Hquiet.
  { intros Hi Hm. rewrite Hi, Hm in Hx, HQ. change (need [] []) with 0 in Hx. rewrite Z.add_0_r in Hx. split; [exact Hx|].
    intros x' Hx'. apply HQ. by apply reaches_may. }
  destruct a as [i ev|ev l|type dest data|ev|w ev].
  - destruct Hquiet as [Hx0 HQ0]; [done..|]. destruct Hsafe as (t & Ht & Hs). by eapply wp_turn_recv.
  - destruct ev as [e| |]; cbn [act act_safe] in *.
    + destruct Hquiet as [Hx0 HQ0]; [done..|]. subst e. change (EINTR =? EINTR) with true. apply wp_ret, HQ0. by apply sys_reaches_same.
    + destruct Hquiet as [Hx0 HQ0]; [done..|]. apply wp_ret, HQ0. by apply sys_reaches_same.
    + cbn [act_items act_mesgs rtmq_lsn_routine] in *. destruct (accepted l) as [[[[fd evs] wr]|]|] eqn:Hl; [| |done].
      * destruct Hsafe as (Hfd & Hst & Hroom). apply wp_bind. eapply wp_accept; [exact Hl| |exact Hn|exact Hfd|exact Hst|exact Hroom|].
        -- unfold need in Hx. cbn in Hx. rewrite !Z.add_0_r in Hx. exact Hx.
        -- intros r x' Hx'. apply wp_ret, HQ. eexists _, []. split_and!; [|done|exact Hx']. apply may_one.
      * destruct Hquiet as [Hx0 HQ0]; [done..|]. unfold rtmq_lsn_accept. do 2 apply wp_bind. eapply wp_accept_fd; [exact Hl|].
        cbv beta iota. apply wp_ret, wp_ret, HQ0. by apply sys_reaches_same.
  - destruct Hsafe as [Hlen Hnid]. cbn [act act_items act_mesgs] in *. apply wp_bind. eapply wp_async_send; [exact Hx|exact Hn|exact Hlen|exact Hnid|].
    intros r x' Hx'. apply wp_ret, HQ. eexists [], _. split_and!; [done| |exact Hx']. apply may_one.
  - destruct Hquiet as [Hx0 HQ0]; [done..|]. by eapply wp_turn_dist.
  - destruct Hquiet as [Hx0 HQ0]; [done..|]. destruct Hsafe as [Hw He]. by eapply wp_turn_work.
Qed.

(** *** A run *)

Lemma may_snoc its ms its' ms' y y1 n x : rtc (ystep G) y y1 → y_acc y1 = y_acc y →
  y_accepted y1 = y_accepted y ++ its → y_sent y1 = y_sent y ++ ms → sys_may its' ms' y1 n x →
  ∃ its1 ms1, its1 `sublist_of` its' ∧ ms1 `sublist_of` ms' ∧ sys_did G (its ++ its1) (ms ++ ms1) y n x.
Proof.
  intros Hr Ha Hi Hm (its1 & ms1 & Hs1 & Hs2 & y2 & Hr2 & Ha2 & Hi2 & Hm2 & Hx). exists its1, ms1. split_and!; [done..|].
  exists y2. split_and!; [by etransitivity|congruence|by rewrite Hi2, Hi, app_assoc|by rewrite Hm2, Hm, app_assoc|done].
Qed.

Lemma sys_rep_weaken x y n n' : sys_rep G x y n → 0 ≤ n' ≤ n → sys_rep G x y n'.
Proof. intros (ps & ds & Hx & Hd) Hn. exists ps, ds. split; [by eapply sys_weaken|done]. Qed.

Lemma runs_may x0 its ms x : runs x0 its ms x → ∀ y n, sys_rep G x0 y (n + need its ms) → 0 ≤ n → sys_may its ms y n x.
Proof.
  induction 1 as [x0|x0 its ms x1 a x2 Hr IH Hsafe Hact]; intros y n Hx Hn.
  - change (need [] []) with 0 in Hx. rewrite Z.add_0_r in Hx. exists [], []. split_and!; [done|done|by apply sys_did_same].
  - rewrite need_app, Z.add_assoc, <-(Z.add_comm (need _ _)), Z.add_assoc in Hx. pose proof (need_pos (act_items a x1) (act_mesgs a)) as Hp.
    destruct (IH y (need (act_items a x1) (act_mesgs a) + n)) as (its1 & ms1 & Hs1 & Hs2 & y1 & Hr1 & Ha1 & Hi1 & Hm1 & Hx1); [|lia|].
    { replace (need (act_items a x1) (act_mesgs a) + n + need its ms) with (need (act_items a x1) (act_mesgs a) + n + need its ms) by lia. exact Hx. }
    rewrite Z.add_comm in Hx1. pose proof (wp_act a x1 y1 n (λ _ x' _, sys_may (act_items a x1) (act_mesgs a) y1 n x') Hx1 Hn Hsafe (λ _ Hm, Hm)) as Hw.
    unfold wp in Hw. rewrite Hact in Hw.
    destruct (may_snoc its1 ms1 _ _ y y1 n x2 Hr1 Ha1 Hi1 Hm1 Hw) as (its2 & ms2 & Hs3 & Hs4 & Hd).
    exists (its1 ++ its2), (ms1 ++ ms2). split_and!; [by apply sublist_app|by apply sublist_app|exact Hd].
Qed.
End Runs.

(** ** What the application gets *)

Section Handled.
Context {U : Type} (G : gmap Z (rtmq_reg_t U)).
Implicit Types (u : U) (m : mesg) (ms : list mesg).

(** The state of the application, after the handlers got the messages in order. *)
Inductive handled : list mesg → U → U → Prop :=
  | handled_nil u : handled [] u u
  | handled_none m ms u u' : handler_of G (h_type (m_head m)) = None → handled ms u u' → handled (m :: ms) u u'
  | handled_some m ms reg r u u1 u' : handler_of G (h_type (m_head m)) = Some reg →
      rg_proc reg (h_type (m_head m)) (i32 (h_nid (m_head m))) (m_body m) (h_length (m_head m)) u [] = Ok (r, u1, []) →
      handled ms u1 u' → handled (m :: ms) u u'.

Lemma handled_app ms1 ms2 u u1 u' : handled ms1 u u1 → handled ms2 u1 u' → handled (ms1 ++ ms2) u u'.
Proof. induction 1; cbn; [done|by constructor 2; auto|econstructor 3; eauto]. Qed.

Hypothesis HG : handlers_ok G.

Lemma wp_serve_handled m a (Q : unit → awork U → mem → Prop) :
  (∀ a', (∀ ms u', handled ms (aw_app a') u' → handled (m :: ms) (aw_app a) u') → Q tt a' []) → wp (serve G m) Q a [].
Proof.
  intros HQ. unfold serve. destruct (handler_of G (h_type (m_head m))) as [reg|] eqn:Hr.
  - apply wp_bind, wp_zoom.
    pose proof (handler_ok G HG _ _ Hr (h_type (m_head m)) (i32 (h_nid (m_head m))) (m_body m) (h_length (m_head m)) (aw_app a)) as Hw.
    apply wp_elim in Hw as (r & u & os & Heq & ->). apply (wp_intro _ _ _ _ _ _ _ Heq).
    destruct (negb (r =? 0)); wp_step; apply HQ; intros ms u' Hms; by econstructor 3.
  - wp_step. apply HQ. intros ms u' Hms. by constructor 2.
Qed.

Lemma served_handled ms : ∀ a a', for_each (serve G) ms a [] = Ok (tt, a', []) → handled ms (aw_app a) (aw_app a').
Proof.
  assert (∀ a, wp (for_each (serve G) ms) (λ _ a' _, handled ms (aw_app a) (aw_app a')) a []) as Hw.
  { induction ms as [|m ms IH]; intros a; cbn [for_each]; [apply wp_ret; constructor|]. apply wp_bind, wp_serve_handled.
    intros a1 H1. eapply wp_mono; [apply IH|]. intros [] a2 os H2. by apply H1. }
  intros a a' Ha. specialize (Hw a). unfold wp in Hw. by rewrite Ha in Hw.
Qed.

Lemma app_steps y y' : rtc (ystep G) y y' → ∃ ms, y_served y' = y_served y ++ ms ∧ handled ms (y_app y) (y_app y').
Proof.
  induction 1 as [y|y y1 y' Hst _ (ms & Hs & Hh)]; [exists []; rewrite app_nil_r; by split; [|constructor]|].
  assert (∃ k, y_served y1 = y_served y ++ k ∧ handled k (y_app y) (y_app y1)) as (k & Hk & Hhk).
  { destruct Hst; try (exists []; rewrite app_nil_r; by split; [|constructor]). eexists. split; [done|]. match goal with Hf : for_each _ _ _ _ = _ |- _ => exact (served_handled _ _ _ Hf) end. }
  exists (k ++ ms). split; [by rewrite Hs, Hk, app_assoc|by eapply handled_app].
Qed.
End Handled.

(** ** Properties *)

Section Props.
Context {T : Type → Type} `{TreeLaws T} {U : Type} (G : gmap Z (rtmq_reg_t U)).
Implicit Types (t : thr_st T) (p : part T) (ps : list (part T)) (d : dpart) (x : srv_st T U) (y : asystem U) (a : action).
Implicit Types (its : list rtmq_conn_item_t) (ms : list mesg) (acc : gmap (list Z) (list Z)) (u : U).

(** The sockets of the server, open and closed, each with the bytes it took. *)
Definition thr_sockets t : list (Z * list Z) := ((λ e : ptr * sck_t T, (k_fd e.2, k_out e.2)) <$> map_to_list (cell (t_scks t))) ++ t_closed t.
Definition sockets x : list (Z * list Z) := concat (thr_sockets <$> g_thrs x).

(** The server has the accounts [acc]; nothing has happened; there is memory for
    [n] blocks. *)
Definition server_start x acc u (n : Z) : Prop :=
  ∃ y, sys_rep G x y n ∧ y_acc y = acc ∧ y_app y = u ∧ y_accepted y = [] ∧ y_sent y = [].

(** The promises, for the connections [its] and the messages [ms] of a run:  [cs]
    is the story of the connections, and [served] what the application got. *)
Record promises acc u its ms (cs : list aconn) (served : list mesg) x : Prop := {
  pm_sockets : sockets x ≡ₚ (λ c, (c_fd c, c_sent c)) <$> cs;
  pm_conns : (c_it <$> cs) ⊆+ its;
  pm_reads : Forall (λ c, wires (c_read c) `prefix_of` all_data (ci_evs (c_it c))) cs;
  pm_writes : Forall (λ c, c_sent c `prefix_of` wires (c_put c)) cs;
  pm_nodes : Forall (λ c, Forall (λ m, is_ack m ∨ (m ∈ ms ∧ proved acc (c_read c) (h_nid (m_head m)))) (c_put c)) cs;
  pm_once : concat (app_puts <$> cs) ⊆+ ms;
  pm_served : served ⊆+ concat (c_read <$> cs);
  pm_authentic : ∀ m, m ∈ served → sent_by acc cs m;
  pm_app : handled G served u (g_app x);
}.

Lemma hp_to_list {N} (h : heap N) C : hp h C → map_to_list (cell h) ≡ₚ C.
Proof.
  intros Hh. apply NoDup_Permutation; [apply NoDup_map_to_list|eapply NoDup_fmap_1; apply (hp_nodup _ _ Hh)|].
  intros [q k]. rewrite elem_of_map_to_list. apply (hp_get _ _ Hh).
Qed.

Lemma part_sockets i t p : part_ok i t p → thr_sockets t ≡ₚ (λ c, (c_fd c, c_sent c)) <$> thr_conns (thr_of p).
Proof.
  intros [_ _ Hk Hc _ _ _ _ _ Hcl _ _ _]. unfold thr_sockets, thr_conns. cbn [thr_of at_conns at_closed].
  rewrite (hp_to_list _ _ Hk), Hcl, fmap_app. apply Permutation_app_tail. rewrite <-!list_fmap_compose. apply reflexive_eq.
  apply list_fmap_ext. intros j c Hj. rewrite Forall_forall in Hc. destruct (Hc c) as [_ _ Hfd _ _ _ _ _ _ _ _ _ _ Hout]; [by eapply list_elem_of_lookup_2|].
  cbn. by rewrite Hfd, Hout.
Qed.

Lemma sys_sockets x y n : sys_rep G x y n → sockets x ≡ₚ (λ c, (c_fd c, c_sent c)) <$> conns y.
Proof.
  intros (ps & ds & Hx & _). destruct (sc_parts _ _ _ _ _ _ Hx) as [Hl Hok]. unfold sockets, conns. rewrite (sc_thrs _ _ _ _ _ _ Hx). clear Hx.
  set (base := O) in Hok. assert (∀ i t p, g_thrs x !! i = Some t → ps !! i = Some p → ∃ j, part_ok j t p) as Hok'.
  { intros i t p Ht Hp. exists i. by apply Hok. }
  clear Hok base. revert ps Hl Hok'. generalize (g_thrs x) as ts. induction ts as [|t ts IH]; intros [|p ps] Hl Hok; [done..|].
  cbn. rewrite fmap_app. destruct (Hok O t p eq_refl eq_refl) as (j & Hj). rewrite (part_sockets _ _ _ Hj). apply Permutation_app_head.
  apply IH; [by injection Hl|]. intros i t' p' Ht Hp. exact (Hok (S i) _ _ Ht Hp).
Qed.

(** What the invariant says of the connections. *)
Lemma yinv_promises y its ms u served x n : sys_rep G x y n → y_accepted y `sublist_of` its → y_sent y `sublist_of` ms →
  served ⊆+ y_served y → handled G served u (y_app y) → promises (y_acc y) u its ms (conns y) served x.
Proof.
  intros Hx Hits Hms Hserved Hh. pose proof (sys_sockets _ _ _ Hx) as Hso. destruct Hx as (ps & ds & Hx & _). destruct (sc_works _ _ _ _ _ _ Hx) as [_ Happ].
  destruct (sc_inv _ _ _ _ _ _ Hx) as [HC HI _ HN HO Hout _ Honce _ _ _]. constructor; [exact Hso|..].
  - transitivity (y_accepted y); [|by apply sublist_submseteq]. rewrite <-HN. by apply submseteq_inserts_r.
  - eapply Forall_impl; [exact HO|]. intros c Hc. unfold origin in Hc. rewrite <-Hc. by apply prefix_app_r.
  - eapply Forall_impl; [exact HC|]. intros c Hc. rewrite <-(ci_stream _ _ _ Hc). by apply prefix_app_r.
  - eapply Forall_impl; [exact HC|]. intros c Hc. eapply Forall_impl; [exact (ci_put _ _ _ Hc)|]. intros m [?|[(Hm & _ & Hn) [?|Hp]]]; [by left|done|].
    right. split; [|done]. eapply elem_of_submseteq; [exact Hm|by apply sublist_submseteq].
  - etransitivity; [|apply sublist_submseteq, Hms]. etransitivity; [|exact Hout]. by apply submseteq_inserts_r.
  - etransitivity; [exact Hserved|]. etransitivity; [|exact Honce]. by apply submseteq_inserts_r.
  - intros m Hm. apply HI, elem_of_app. right. by eapply elem_of_submseteq.
  - by rewrite Happ.
Qed.

Hypothesis HG : handlers_ok G.

(** C2: the server refines its specification, for every sequence of turns of the
    receive threads, the listening thread, the distribution and the workers, and of
    calls of [rtmq_async_send], in any order: what it does are steps of the abstract
    server, and its state represents that server's. *)
Theorem server_refines x0 y0 n its ms x : sys_rep G x0 y0 n → runs x0 its ms x → need its ms ≤ n →
  ∃ y, rtc (ystep G) y0 y ∧ sys_rep G x y (n - need its ms).
Proof.
  intros Hx Hr Hn. destruct (runs_may G HG _ _ _ _ Hr y0 (n - need its ms)) as (its' & ms' & _ & _ & y & Hst & _ & _ & _ & Hy); [|lia|by exists y].
  by rewrite Z.sub_add.
Qed.

(** C3: nothing goes wrong: after any run, the next action ends; it does not crash,
    block, or run out of fuel, and so every loop of the server ends. *)
Theorem server_safe x0 y0 n its ms x a : sys_rep G x0 y0 n → runs x0 its ms x → act_safe a x →
  need (its ++ act_items a x) (ms ++ act_mesgs a) ≤ n → ∃ x', act a x [] = Ok (tt, x', []).
Proof.
  intros Hx Hr Hs Hn. rewrite need_app in Hn. pose proof (need_pos (act_items a x) (act_mesgs a)) as Hp.
  destruct (runs_may G HG _ _ _ _ Hr y0 (n - need its ms)) as (its' & ms' & _ & _ & y & _ & _ & _ & _ & Hy); [by rewrite Z.sub_add|lia|].
  replace (n - need its ms) with (n - need its ms - need (act_items a x) (act_mesgs a) + need (act_items a x) (act_mesgs a)) in Hy by lia.
  destruct (wp_elim _ _ _ _ (wp_act G HG a x y _ (λ _ _ os, os = []) Hy ltac:(lia) Hs (λ _ _, eq_refl))) as ([] & x' & os & Hx' & ->). by exists x'.
Qed.


(** *** No leak *)

(** The server is idle: no connection is open, and nothing is queued. *)
Definition idle_server x : Prop :=
  Forall (λ t, num2 (t_conns t) = 0 ∧ ring_used (t_sendq t) = 0) (g_thrs x) ∧
  Forall (λ r, ring_used r = 0) (g_distq x) ∧ Forall (λ q, queue_used q = 0) (recvq (g_ctx x)).

Lemma idle_part i t p : part_ok i t p → num2 (t_conns t) = 0 → ring_used (t_sendq t) = 0 → p_cs p = [] ∧ p_sps p = [].
Proof.
  intros Hok Hn Hr. destruct (po_ring _ _ _ Hok) as ((k & Hk) & _). pose proof (po_len _ _ _ Hok) as Hl.
  rewrite (l2_num _ _ (po_conns _ _ _ Hok)), length_fmap, i32_small in Hn by lia.
  unfold ring_used in Hr. rewrite (rr_num _ _ _ Hk) in Hr. rewrite <-!length_zero_iff_nil. lia.
Qed.

Lemma idle_parts ts ps : length ts = length ps → (∀ i t p, ts !! i = Some t → ps !! i = Some p → ∃ j, part_ok j t p) →
  Forall (λ t, num2 (t_conns t) = 0 ∧ ring_used (t_sendq t) = 0) ts → concat (part_refs <$> ps) = [] ∧ all_bufs ps = ∅.
Proof.
  revert ps. induction ts as [|t ts IH]; intros [|p ps] Hl Hok Hi; try done. apply Forall_cons in Hi as [[Hn Hr] Hi].
  destruct (Hok O t p eq_refl eq_refl) as (j & Hj). destruct (idle_part _ _ _ Hj Hn Hr) as [Hcs Hsps].
  destruct (IH ps) as [H1 H2]; [by injection Hl|intros i; exact (Hok (S i))|exact Hi|]. split.
  - cbn. rewrite H1. unfold part_refs. by rewrite Hcs, Hsps.
  - unfold all_bufs in *. cbn. unfold entries at 1. by rewrite Hcs.
Qed.

Lemma idle_queues (ctx : rtmq_cntx_t T) rss v : ctx_rep ctx rss v → Forall (λ q, queue_used q = 0) (recvq ctx) → concat rss = [].
Proof.
  intros Hx Hq. destruct (cx_len _ _ _ Hx) as (Hl1 & Hl2 & Hl3). apply concat_nil_Forall, Forall_lookup. intros i rs Hrs.
  pose proof (lookup_lt_Some _ _ _ Hrs) as Hi.
  destruct (lookup_lt_is_Some_2 (recvq ctx) i) as [q Hqi]; [lia|]. destruct (lookup_lt_is_Some_2 (a_blocks v) i) as [B HB]; [lia|].
  destruct (lookup_lt_is_Some_2 (a_in v) i) as [ms Hms]; [lia|].
  destruct (cx_inq _ _ _ Hx i q B ms rs Hqi HB Hms Hrs) as (F & Qs & Hqr & Hall). rewrite Forall_lookup in Hq. specialize (Hq _ _ Hqi).
  rewrite (queue_rep_used _ _ Hqr) in Hq. cbn in Hq. destruct Qs; [|done]. by inversion Hall.
Qed.

End Props.
