(* ===== verification/RtmqInit.v ===== *)
(** How the RTMQ server is set up ([lib/rtmq/server/rtmq_recv.c]): [rtmq_init]
    creates the tables, the queues, the pipes and the threads of the context, and
    [rtmq_register] adds the handlers of the application. *)
From stdpp Require Import gmap.
From S2P Require Import Prelude Heap Table HashTab List List2 Ring Slot Mref Bytes Trees RtmqRecv RtmqComm RtmqRsvr RtmqSend RtmqConn RtmqServer.
Open Scope Z_scope.

(** ** Data *)

Record queue_conf_t := QueueConf { q_max : Z; q_size : Z }.

Record rtmq_conf_t := Conf {
  cf_nid : Z; cf_auth : option (list_t rtmq_auth_t); cf_port : Z;
  cf_recv_thd_num : Z; cf_work_thd_num : Z; cf_recvq_num : Z; cf_distq_num : Z;
  cf_recvq : queue_conf_t; cf_sendq : queue_conf_t; cf_distq : queue_conf_t }.

(** What the system gives: the read ends of the pipes of the receive threads, the
    times their calls of [time] give, the address from which the areas of the
    queues lie one after the other, and the result of [tcp_listen]. *)
Record init_env := InitEnv { e_fds : list Z; e_clocks : list (list Z); e_area : ptr; e_listen : Z }.

Definition rtmq_conf_isvalid (conf : rtmq_conf_t) : bool :=
  negb ((0 =? cf_nid conf) || (match cf_auth conf with None => true | Some _ => false end) ||
    ((0 =? cf_port conf) || (cf_port conf >? 65535)) ||
    (0 =? cf_recv_thd_num conf) || (0 =? cf_work_thd_num conf) || (0 =? cf_recvq_num conf) || (0 =? cf_distq_num conf) ||
    ((0 =? q_max (cf_recvq conf)) || (0 =? q_size (cf_recvq conf))) ||
    ((0 =? q_max (cf_sendq conf)) || (0 =? q_size (cf_sendq conf))) ||
    ((0 =? q_max (cf_distq conf)) || (0 =? q_size (cf_distq conf)))).

Section Init.
Context {T : Type → Type} `{TreeOps T} {U : Type}.
Abbreviation GM := (SM (srv_st T U)).

(** [n] objects, until one cannot be created; the [i]-th is [f i]. *)
Fixpoint creat_all {Σ A} (n : nat) (i : nat) (f : nat → SM Σ (option A)) : SM Σ (option (list A)) :=
  match n with
  | O => mret (Some [])
  | S n =>
      a ← f i;
      match a with
      | None => mret None
      | Some a => l ← creat_all n (S i) f; mret (cons a <$> l)
      end
  end.

(** An array of pointers, and what they point to. *)
Definition creat_array {Σ A} (num : Z) (f : nat → SM Σ (option A)) : SM Σ (option (list A)) :=
  ok ← malloc;
  if negb ok then mret None else creat_all (Z.to_nat num) 0 f.

Definition rtmq_creat_connq (conf : rtmq_conf_t) (area : ptr) : GM (option (list queue_t)) :=
  creat_array (cf_recv_thd_num conf) (λ idx,
    queue_creat RTMQ_CONNQ_LEN CONN_ITEM_SIZE (area + Z.of_nat idx * (RTMQ_CONNQ_LEN * CONN_ITEM_SIZE))).
Definition rtmq_creat_recvq (conf : rtmq_conf_t) (area : ptr) : GM (option (list queue_t)) :=
  creat_array (cf_recvq_num conf) (λ idx,
    queue_creat (q_max (cf_recvq conf)) RECV_ITEM_SIZE (area + Z.of_nat idx * (q_max (cf_recvq conf) * RECV_ITEM_SIZE))).
Definition rtmq_creat_sendq (conf : rtmq_conf_t) : GM (option (list ring_t)) :=
  creat_array (cf_recv_thd_num conf) (λ _, ring_creat (q_max (cf_sendq conf))).
Definition rtmq_creat_distq (conf : rtmq_conf_t) : GM (option (list ring_t)) :=
  creat_array (cf_distq_num conf) (λ _, ring_creat (q_max (cf_distq conf))).

(** The pipes: [rtmq_creat_recv_cmd_fd], [rtmq_creat_work_cmd_fd] and
    [rtmq_creat_dist_cmd_fd] return [RTMQ_OK] when the array cannot be allocated;
    it is NULL then, and its first use fails. *)
Definition creat_cmd_fd {A} (fds : A) : GM (option A) :=
  ok ← malloc; mret (if ok : bool then Some fds else None).

(** The receive thread [idx]. *)
Definition creat_rsvr (conf : rtmq_conf_t) (env : init_env) (connq : list queue_t) (sendq : list ring_t) (fds : option (list Z))
    (idx : nat) : GM (option (thr_st T)) :=
  x ← get;
  fds ← deref fds;
  fd ← deref (fds !! idx);
  cq ← deref (connq !! idx);
  sq ← deref (sendq !! idx);
  rtmq_rsvr_init (Z.of_nat idx) fd (g_mem x) (g_ctx x) cq ∅ (q_max (cf_sendq conf)) sq [] (default [] (e_clocks env !! idx)).

(** The objects, then the pool of the threads. *)
Definition rtmq_creat_recvs (conf : rtmq_conf_t) (env : init_env) (connq : list queue_t) (sendq : list ring_t) (fds : option (list Z)) :
    GM (option (list (thr_st T))) :=
  ok ← malloc;
  if negb ok then mret None else
  creat_array (cf_recv_thd_num conf) (creat_rsvr conf env connq sendq fds).

Definition rtmq_worker_init (fds : option unit) (idx : nat) : GM (option wcount) :=
  deref fds;; mret (Some (WCount 0 0 0)).
Definition rtmq_creat_workers (conf : rtmq_conf_t) (fds : option unit) : GM (option (list wcount)) :=
  ok ← malloc;
  if negb ok then mret None else
  creat_array (cf_work_thd_num conf) (rtmq_worker_init fds).

Definition rtmq_lsn_init (env : init_env) : GM Z := mret (if e_listen env <? 0 then RTMQ_ERR else RTMQ_OK).

(** The next step, unless this one has failed. *)
Definition check_ok (m : GM Z) (k : GM Z) : GM Z := r ← m; if negb (r =? 0) then mret RTMQ_ERR else k.
Definition check_some {A} (m : GM (option A)) (k : A → GM Z) : GM Z := r ← m; match r with None => mret RTMQ_ERR | Some a => k a end.

Definition on_gtabs {A} (m : SM (comm_st T) A) : GM A := on_gctx (on_tabs m).

(** The state is the context just allocated, with its configuration: each field is
    set before it is used.  [RTMQ_ERR] stands for the result NULL. *)
Definition rtmq_init (cf : rtmq_conf_t) (env : init_env) : GM Z :=
  if negb (rtmq_conf_isvalid cf) then mret RTMQ_ERR else
  auth ← deref (cf_auth cf);
  ok ← malloc;
  if negb ok then mret RTMQ_ERR else
  let conf := Conf (cf_nid cf) (cf_auth cf) (cf_port cf) (cf_recv_thd_num cf) (cf_work_thd_num cf)
    (RTMQ_WORKER_HDL_QNUM * cf_work_thd_num cf) (cf_distq_num cf) (cf_recvq cf) (cf_sendq cf) (cf_distq cf) in
  check_ok (on_gtabs (rtmq_auth_init auth)) (
  check_ok (on_gtabs rtmq_node_to_svr_map_init) (
  check_ok (on_gtabs rtmq_sub_init) (
  check_some tr_creat (λ reg,
  check_some (rtmq_creat_connq conf (e_area env)) (λ connq,
  check_some (rtmq_creat_recvq conf (e_area env + cf_recv_thd_num conf * (RTMQ_CONNQ_LEN * CONN_ITEM_SIZE))) (λ recvq,
  check_some (rtmq_creat_sendq conf) (λ sendq,
  check_some (rtmq_creat_distq conf) (λ distq,
  recv_fd ← creat_cmd_fd (e_fds env);
  work_fd ← creat_cmd_fd tt;
  dist_fd ← creat_cmd_fd tt;
  modify (λ x, Server (g_mem x) (Cntx (cf_nid conf) recvq ∅ [] (tabs (g_ctx x)) (rands (g_ctx x))) [] 0 [] distq [] reg [] (g_app x)
    (g_writes x));;
  check_some (rtmq_creat_recvs conf env connq sendq recv_fd) (λ thrs,
  modify (λ x, set_shared (g_mem x) (g_ctx x) thrs x);;
  check_some (rtmq_creat_workers conf work_fd) (λ works,
  modify (λ x, set_works (g_mem x) (g_ctx x) (g_reg x) works (g_app x) x);;
  check_ok (rtmq_lsn_init env) (
  deref dist_fd;;
  mret RTMQ_OK))))))))))).

(** [rtmq_register], on the handlers of the server. *)
Definition srv_register (type : Z) (proc : Z → Z → list Z → Z → SM U Z) : GM Z :=
  x ← get;
  y ← run_on (Worker 0 0 0 (g_reg x) (g_ctx x) (g_app x)) (rtmq_register type proc);
  put (set_works (g_mem x) (g_ctx x) (wk_reg (snd y)) (g_works x) (g_app x) x);;
  mret (fst y).
End Init.
