(* ===== verification/RtmqInitProps.v ===== *)
(** [rtmq_init] sets up a server as the theorems of [RtmqServerProps] start from,
    with the accounts of its configuration; [rtmq_register] adds a handler. *)
From stdpp Require Import fin_maps gmap.
From S2P Require Import Prelude Heap Table HashTab TabRel TreeRel List ListProps List2 Iovec Ring RingSpec Slot QueueSpec QueueProps Mref Bytes Trees RtmqRecv RtmqMem RtmqRecvSpec RtmqSend RtmqSendSpec RtmqComm RtmqCommSpec RtmqRsvr RtmqRsvrSpec RtmqExp RtmqWork RtmqConn RtmqAbs RtmqConnRep RtmqConnEnd RtmqConnBody RtmqConnNew RtmqThread RtmqServer RtmqSys RtmqServerRep RtmqServerSpec RtmqServerDist RtmqServerProps RtmqInit.
Open Scope Z_scope.

(** ** Creation *)

(** Without failures of memory, [m] gives an object that satisfies [P]. *)
Definition makes {Σ A} (m : SM Σ (option A)) (P : A → Prop) (s : Σ) : Prop :=
  wp m (λ o s' ms, s' = s ∧ ms = [] ∧ ∃ a, o = Some a ∧ P a) s [].

Lemma wp_makes {Σ A} (m : SM Σ (option A)) P s (Q : option A → Σ → mem → Prop) :
  makes m P s → (∀ a, P a → Q (Some a) s []) → wp m Q s [].
Proof. intros Hm HQ. eapply wp_mono; [exact Hm|]. intros o s' ms (-> & -> & a & -> & Ha). by apply HQ. Qed.

Lemma creat_all_makes {Σ A} (f : nat → SM Σ (option A)) (P : nat → A → Prop) s n : ∀ i,
  (∀ j, (i ≤ j < i + n)%nat → makes (f j) (P j) s) →
  makes (creat_all n i f) (λ l, length l = n ∧ ∀ j a, l !! j = Some a → P (i + j)%nat a) s.
Proof.
  induction n as [|n IH]; intros i Hf; unfold makes; cbn [creat_all]; [by apply wp_ret; split_and!; [..|exists []]|].
  apply wp_bind. eapply wp_makes; [apply Hf; lia|]. intros a Ha. cbv beta iota. apply wp_bind.
  eapply wp_makes; [apply IH; intros j Hj; apply Hf; lia|]. intros l [Hl Hok]. apply wp_ret. split_and!; [done..|].
  exists (a :: l). split; [done|]. split; [cbn; by rewrite Hl|]. intros [|j] b; cbn; [intros [= <-]; by rewrite Nat.add_0_r|].
  intros Hb. rewrite <-Nat.add_succ_comm. by apply Hok.
Qed.

Lemma creat_array_makes {Σ A} (f : nat → SM Σ (option A)) (P : nat → A → Prop) s num :
  (∀ j, (j < Z.to_nat num)%nat → makes (f j) (P j) s) →
  makes (creat_array num f) (λ l, length l = Z.to_nat num ∧ ∀ j a, l !! j = Some a → P j a) s.
Proof.
  intros Hf. unfold makes, creat_array. apply wp_bind, wp_malloc_nil. cbn [negb]. apply (creat_all_makes f P s _ 0). intros j Hj. apply Hf. lia.
Qed.

(** What keeps the memory without failures. *)
Lemma wp_no_fail {Σ A} (m : SM Σ A) (Q : A → Σ → mem → Prop) s :
  wp m Q s [] → (∀ a s' ms, m s [] = Ok (a, s', ms) → ms = []) → wp m (λ a s' ms, Q a s' ms ∧ ms = []) s [].
Proof. intros Hm Hnil. apply wp_elim in Hm as (a & s' & ms & Heq & HQ). apply (wp_intro _ _ _ _ _ _ _ Heq). split; [done|by eapply Hnil]. Qed.

Lemma ring_creat_nil {Σ} max (s : Σ) a s' ms : ring_creat max s [] = Ok (a, s', ms) → ms = [].
Proof.
  unfold ring_creat. destruct (power2 max) as [z|]; [|done]. cbn. destruct (z <? 0); cbn; by intros [= _ _ <-].
Qed.

Lemma ring_makes {Σ} max (s : Σ) : 0 < max ≤ 2 ^ 30 → makes (ring_creat max) (λ r, ∃ k, max ≤ 2 ^ k ∧ ring_rep k r []) s.
Proof.
  intros Hm. unfold makes. eapply wp_mono; [apply wp_no_fail; [|apply ring_creat_nil]|].
  - apply (wp_ring_creat max (λ o s' _, s' = s ∧ ∃ r, o = Some r ∧ ∃ k, max ≤ 2 ^ k ∧ ring_rep k r [])); [exact Hm|by intros ?%elem_of_nil|].
    intros r k ms _ [Hk _] Hr. split; [done|]. exists r. split; [done|]. by exists k.
  - intros o s' ms [(-> & Hr) ->]. by split_and!.
Qed.

Lemma queue_makes {Σ} max size area (s : Σ) : 0 < max ≤ 2 ^ 30 → 0 < size < 2 ^ 31 →
  makes (queue_creat max size area) (λ q, let B := blocks area size (Z.to_nat max) in queue_rep size B q (AQueue B [] [])) s.
Proof.
  intros Hm Hs. unfold makes, queue_creat. assert (((0 =? max) || (0 =? size)) = false) as -> by lia.
  apply wp_bind, wp_malloc_nil. cbn [negb]. apply wp_bind. eapply wp_makes; [by apply ring_makes|]. intros r (k & Hk & Hr). cbv beta iota.
  apply wp_bind. unfold slot_creat. apply wp_bind, wp_malloc_nil. cbn [negb].
  apply wp_bind. eapply wp_makes; [by apply ring_makes|]. intros r1 (k1 & Hk1 & Hr1). cbv beta iota.
  apply wp_bind, wp_malloc_nil. cbn [negb]. apply wp_bind, wp_run_on.
  eapply (wp_slot_fill k1 _ _ _ _ []); [exact Hr1|cbn; lia|]. intros r2 Hr2. cbn [fst snd]. do 2 apply wp_ret. split_and!; [done..|].
  assert (Z.of_nat (length (blocks area size (Z.to_nat max))) = max) as Hlen by (unfold blocks; rewrite length_fmap, length_seq; lia).
  eexists. split; [done|]. constructor; cbn [qslot qring afree aqueued aheld].
  - exists k1. rewrite Hlen. split; [done|]. split; [|exact Hr2]. cbn. unfold i32. rewrite Z.mod_small; lia.
  - rewrite Hlen. by exists k.
  - by rewrite !app_nil_r.
  - apply blocks_nodup. lia.
Qed.

(** Areas one after the other. *)
Lemma blocks_app area size n m : blocks area size (n + m) = blocks area size n ++ blocks (area + Z.of_nat n * size) size m.
Proof.
  revert area. induction n as [|n IH]; intros area; [by rewrite Z.mul_0_l, Z.add_0_r|].
  cbn [Nat.add]. rewrite !blocks_S, IH. cbn [app]. do 2 f_equal. f_equal. lia.
Qed.

Lemma blocks_concat area size n k :
  concat ((λ i, blocks (area + Z.of_nat i * (Z.of_nat n * size)) size n) <$> seq 0 k) = blocks area size (k * n).
Proof.
  induction k as [|k IH]; [done|]. rewrite seq_S, fmap_app, concat_app, IH. cbn [Nat.add fmap list_fmap concat].
  replace (S k * n)%nat with (k * n + n)%nat by lia. rewrite app_nil_r, blocks_app. do 2 f_equal. lia.
Qed.

Lemma concat_none {A B} (f : B → list A) n z : f z = [] → concat (f <$> replicate n z) = [].
Proof. intros Hf. induction n as [|n IH]; [done|]. cbn. by rewrite Hf. Qed.

Lemma total_none {B} (f : B → Z) n z : f z = 0 → total (f <$> replicate n z) = 0.
Proof. intros Hf. induction n as [|n IH]; [done|]. unfold total in *. cbn. lia. Qed.

(** ** Accounts *)

Fixpoint abs_auth_all (auths : list rtmq_auth_t) (A : gmap (list Z) (list Z)) : option (gmap (list Z) (list Z)) :=
  match auths with
  | [] => Some A
  | a :: auths =>
      let r := abs_auth_add (a_usr a) (a_passwd a) A in if r.1 =? 0 then abs_auth_all auths r.2 else None
  end.

Definition account_ok (a : rtmq_auth_t) : Prop := is_cstr (a_usr a) ∧ is_cstr (a_passwd a).

Section Tabs.
Context {T : Type → Type} `{TreeLaws T}.

Lemma wp_auth_trav auths : ∀ (c : comm_st T) A (Q : Z → comm_st T → mem → Prop),
  auth_rep (RtmqComm.c_auth c) A → Forall account_ok auths →
  (∀ t, match abs_auth_all auths A with
        | Some A' => auth_rep t A' → Q 0 (set_auth t c) []
        | None => Q (-1) (set_auth t c) []
        end) → wp (trav_until rtmq_auth_trav_add auths) Q c [].
Proof.
  induction auths as [|a auths IH]; intros c A Q Ha Hok HQ; cbn [trav_until abs_auth_all] in *.
  - apply wp_ret. specialize (HQ (RtmqComm.c_auth c) Ha). by destruct c.
  - apply Forall_cons in Hok as [[Hu Hp] Hok]. apply wp_bind. eapply wp_auth_add_at; [exact Ha|exact Hu|exact Hp|]. intros t Ht.
    destruct (_ =? 0); cbn [negb]; [|apply wp_ret; exact (HQ t)].
    apply (IH (set_auth t c) _ Q Ht Hok). intros t'. exact (HQ t').
Qed.

Lemma wp_auth_init l auths (c : comm_st T) (Q : Z → comm_st T → mem → Prop) : lrep l auths → Forall account_ok auths →
  (∀ t, match abs_auth_all auths ∅ with
        | Some A => auth_rep t A → Q 0 (set_auth t c) []
        | None => Q (-1) (set_auth t c) []
        end) → wp (rtmq_auth_init l) Q c [].
Proof.
  intros (cells & Hl & <-) Hok HQ. unfold rtmq_auth_init. apply wp_bind.
  apply (wp_tcreat (key := a_usr) (dm := auth_dom) (cmp := rtmq_auth_cmp_cb)). intros t Ht. cbv beta iota. wp_step.
  wp_step. unfold wp. rewrite (list_trav_spec _ _ _ _ _ Hl). apply (wp_auth_trav _ (set_auth t c) ∅ Q); [|exact Hok|intros t'; exact (HQ t')].
  split; [|apply map_Forall_empty]. exists ∅. by rewrite fmap_empty.
Qed.
End Tabs.

(** ** Set-up *)

Section Setup.
Context {T : Type → Type} `{TreeLaws T} {U : Type}.
Implicit Types (x : srv_st T U) (y : asystem U) (t : thr_st T).

(** The configuration is valid, with the accounts [auths]; the system gives a
    descriptor for each receive thread, and a socket to listen to. *)
Record setup_ok (cf : rtmq_conf_t) (env : init_env) (auths : list rtmq_auth_t) : Prop := {
  su_nid : cf_nid cf ≠ 0;
  su_auth : ∃ l, cf_auth cf = Some l ∧ lrep l auths;
  su_accounts : Forall account_ok auths;
  su_port : 0 < cf_port cf ≤ 65535;
  su_thds : 0 < cf_recv_thd_num cf ∧ 0 < cf_work_thd_num cf ∧ 0 < cf_recvq_num cf ∧ 0 < cf_distq_num cf;
  su_recvq : 0 < q_max (cf_recvq cf) ≤ 2 ^ 30 ∧ 0 < q_size (cf_recvq cf);
  su_sendq : 0 < q_max (cf_sendq cf) < 2 ^ 30 ∧ 0 < q_size (cf_sendq cf);
  su_distq : 0 < q_max (cf_distq cf) ≤ 2 ^ 30 ∧ 0 < q_size (cf_distq cf);
  su_fds : ∀ i, (i < Z.to_nat (cf_recv_thd_num cf))%nat → ∃ fd, e_fds env !! i = Some fd ∧ fd_ok fd = true;
  su_env : 0 < e_area env ∧ 0 ≤ e_listen env;
}.

Definition empty_part : part T := Part 0 0 [] [] [] [] [].
Definition empty_dpart : dpart := DPart [] [] [].

(** The server, as its peers see it. *)
Definition first_blocks (cf : rtmq_conf_t) (env : init_env) : list (list ptr) :=
  (λ i, blocks (e_area env + cf_recv_thd_num cf * (RTMQ_CONNQ_LEN * CONN_ITEM_SIZE) + Z.of_nat i * (q_max (cf_recvq cf) * RECV_ITEM_SIZE))
          RECV_ITEM_SIZE (Z.to_nat (q_max (cf_recvq cf)))) <$> seq 0 (Z.to_nat (RTMQ_WORKER_HDL_QNUM * cf_work_thd_num cf)).
Definition first_sys (cf : rtmq_conf_t) (env : init_env) acc rs (u : U) : asystem U :=
  ASys (cf_nid cf) acc ∅ (first_blocks cf env) (replicate (Z.to_nat (RTMQ_WORKER_HDL_QNUM * cf_work_thd_num cf)) []) [] rs
    (thr_of <$> replicate (Z.to_nat (cf_recv_thd_num cf)) empty_part) (d_ms <$> replicate (Z.to_nat (cf_distq_num cf)) empty_dpart)
    (replicate (Z.to_nat (cf_work_thd_num cf)) (WCount 0 0 0)) u [] [] [].

Lemma first_inv cf env acc rs u : 0 < cf_work_thd_num cf → yinv (first_sys cf env acc rs u).
Proof.
  intros Hw. assert (conns (first_sys cf env acc rs u) = []) as Hc.
  { unfold conns. cbn [first_sys y_thrs]. rewrite <-list_fmap_compose. by apply concat_none. }
  assert (sendqs (first_sys cf env acc rs u) = []) as Hs.
  { unfold sendqs. cbn [first_sys y_thrs]. rewrite <-list_fmap_compose. by apply concat_none. }
  assert (concat (y_in (first_sys cf env acc rs u)) = []) as Hin by (rewrite <-(list_fmap_id (y_in _)); by apply concat_none).
  constructor; rewrite ?Hc, ?Hs, ?Hin; cbn [first_sys y_served y_thrs y_accepted y_sent y_distq y_in y_works y_cmds y_map].
  - constructor.
  - intros m Hm. by apply elem_of_nil in Hm.
  - constructor.
  - rewrite <-list_fmap_compose. by rewrite concat_none.
  - constructor.
  - by rewrite concat_none.
  - constructor.
  - done.
  - apply map_Forall_empty.
  - rewrite !length_replicate. unfold RTMQ_WORKER_HDL_QNUM. split; [|lia]. rewrite <-length_zero_iff_nil, length_replicate. lia.
  - constructor.
Qed.

Lemma first_blocks_ok cf env : 0 < e_area env → 0 < cf_recv_thd_num cf → 0 < q_max (cf_recvq cf) →
  NoDup (concat (first_blocks cf env)) ∧ Forall (λ p, NULL < p) (concat (first_blocks cf env)).
Proof.
  intros Ha Hr Hq. unfold first_blocks. set (base := e_area env + cf_recv_thd_num cf * (RTMQ_CONNQ_LEN * CONN_ITEM_SIZE)).
  set (n := Z.to_nat (q_max (cf_recvq cf))).
  assert (0 < base) as Hb by (unfold base, RTMQ_CONNQ_LEN, CONN_ITEM_SIZE; lia).
  replace (q_max (cf_recvq cf)) with (Z.of_nat n) by (unfold n; lia). rewrite blocks_concat. split; [by apply blocks_nodup|].
  apply Forall_forall. intros p Hp. eapply blocks_pos; [exact Hb| |exact Hp]. done.
Qed.

(** A receive thread before its first turn. *)
Lemma rsvr_makes cf env connq sendq auths x i : setup_ok cf env auths → (i < Z.to_nat (cf_recv_thd_num cf))%nat →
  (∃ cq B, connq !! i = Some cq ∧ Forall (λ p, NULL < p) B ∧ queue_rep CONN_ITEM_SIZE B cq (AQueue B [] [])) →
  (∃ sq k, sendq !! i = Some sq ∧ ring_rep k sq []) →
  makes (creat_rsvr cf env connq sendq (Some (e_fds env)) i) (λ t, part_ok i t empty_part) x.
Proof.
  intros Hsu Hi (cq & B & Hcq & HB & Hq) (sq & k & Hsq & Hr). destruct (su_fds _ _ _ Hsu i Hi) as (fd & Hfd & Hok).
  unfold makes, creat_rsvr. do 2 wp_step. cbn [deref]. apply wp_bind, wp_ret. rewrite Hfd. apply wp_bind, wp_ret. rewrite Hcq.
  apply wp_bind, wp_ret. rewrite Hsq. apply wp_bind, wp_ret. unfold rtmq_rsvr_init. apply wp_bind. unfold list2_creat. apply wp_bind, wp_malloc_nil. apply wp_ret.
  apply wp_ret. split_and!; [done..|]. eexists. split; [done|].
  constructor; cbn [empty_part p_recv p_drop p_cs p_new p_sps p_sendq p_closed t_rsvr t_conns t_scks t_connq t_items t_sendq t_closed t_sendq_max t_cmd_fd];
    try done.
  - constructor; [apply hp_empty|done|done].
  - apply hp_empty.
  - by exists CONN_ITEM_SIZE, B, B, [].
  - split; [by exists k|done].
  - apply (su_sendq _ _ _ Hsu).
Qed.

Lemma wp_check_ok (m k : SM (srv_st T U) Z) (Q : Z → srv_st T U → mem → Prop) x :
  wp m (λ r x' ms, if r =? 0 then wp k Q x' ms else Q RTMQ_ERR x' ms) x [] → wp (check_ok m k) Q x [].
Proof. intros Hm. unfold check_ok. apply wp_bind. eapply wp_mono; [exact Hm|]. intros r x' ms HQ. cbv beta in HQ. destruct (r =? 0); cbn [negb]; [exact HQ|by apply wp_ret]. Qed.

Lemma wp_check_some {A} (m : SM (srv_st T U) (option A)) (P : A → Prop) k (Q : Z → srv_st T U → mem → Prop) x :
  makes m P x → (∀ a, P a → wp (k a) Q x []) → wp (check_some m k) Q x [].
Proof. intros Hm HQ. unfold check_some. apply wp_bind. eapply wp_makes; [exact Hm|]. intros a Ha. by apply HQ. Qed.

(** The tables of the context. *)
Lemma wp_on_gtabs {A} (m : SM (comm_st T) A) (Q : A → srv_st T U → mem → Prop) x ms :
  wp m (λ a c ms', Q a (set_shared (g_mem x) (set_tabs c (g_ctx x)) (g_thrs x) x) ms') (tabs (g_ctx x)) ms → wp (on_gtabs m) Q x ms.
Proof. intros Hm. unfold on_gtabs, on_gctx. apply wp_zoom. unfold on_tabs. by apply wp_zoom. Qed.

Lemma wp_map_init (c : comm_st T) (Q : Z → comm_st T → mem → Prop) :
  (∀ z, tmap nm_nid map_dom rtmq_node_to_svr_map_cmp_cb z ∅ → Q 0 (set_map_lock idle (set_map z c)) []) → wp rtmq_node_to_svr_map_init Q c [].
Proof.
  intros HQ. unfold rtmq_node_to_svr_map_init. apply wp_bind. apply (wp_tcreat (key := nm_nid) (dm := map_dom) (cmp := rtmq_node_to_svr_map_cmp_cb)).
  intros z Hz. cbv beta iota. do 4 wp_step. by apply HQ.
Qed.

Lemma wp_sub_init (c : comm_st T) (Q : Z → comm_st T → mem → Prop) : (∀ h, Q 0 (set_sub h c) []) → wp rtmq_sub_init Q c [].
Proof.
  intros HQ. unfold rtmq_sub_init, hash_tab_creat. apply wp_bind. do 3 (apply wp_bind, wp_malloc_nil; cbn [negb]).
  apply wp_bind. eapply wp_mono; [apply wp_creat_trees|]. intros r c' ms (-> & -> & ts & -> & _). apply wp_ret. do 2 wp_step. by apply HQ.
Qed.

(** The state that [rtmq_init] leaves. *)
Lemma first_core cf env auths acc rs x thrs works n : setup_ok cf env auths →
  mrep (g_mem x) ∅ → conf_nid (g_ctx x) = cf_nid cf → cmds (g_ctx x) = [] → rands (g_ctx x) = rs → comm_rep (tabs (g_ctx x)) acc ∅ →
  length (recvq (g_ctx x)) = Z.to_nat (RTMQ_WORKER_HDL_QNUM * cf_work_thd_num cf) →
  (∀ i q B, recvq (g_ctx x) !! i = Some q → first_blocks cf env !! i = Some B → queue_rep RECV_ITEM_SIZE B q (AQueue B [] [])) →
  g_thrs x = thrs → length thrs = Z.to_nat (cf_recv_thd_num cf) → (∀ i t, thrs !! i = Some t → part_ok i t empty_part) →
  length (g_distq x) = Z.to_nat (cf_distq_num cf) → (∀ i r, g_distq x !! i = Some r → ∃ k, ring_rep k r []) →
  g_works x = works → works = replicate (Z.to_nat (cf_work_thd_num cf)) (WCount 0 0 0) → g_sid x = 0 →
  tmap rg_type reg_dom rtmq_reg_cmp_cb (g_reg x) (∅ : gmap Z (rtmq_reg_t U)) → Forall (λ r, 0 ≤ r) rs → 0 ≤ n → fresh (mblk (g_mem x)) + n < ADDR_MAX →
  sys_rep ∅ x (first_sys cf env acc rs (g_app x)) n.
Proof.
  intros Hsu Hm Hnid Hcmds Hrs Htabs Hlq Hq <- Hlt Ht Hld Hd <- Hworks Hsid Hreg Hpos Hn Hroom.
  destruct (su_thds _ _ _ Hsu) as (Hrt & Hwt & _ & Hdt). destruct (su_recvq _ _ _ Hsu) as [Hrq _]. destruct (su_env _ _ _ Hsu) as [Harea _].
  destruct (first_blocks_ok cf env Harea Hrt) as [HB1 HB2]; [lia|].
  set (ps := replicate (Z.to_nat (cf_recv_thd_num cf)) empty_part). set (ds := replicate (Z.to_nat (cf_distq_num cf)) empty_dpart).
  assert (concat (replicate (Z.to_nat (RTMQ_WORKER_HDL_QNUM * cf_work_thd_num cf)) (@nil href)) = []) as Hrss.
  { rewrite <-(list_fmap_id (replicate _ _)). by apply concat_none. }
  exists ps, ds. split; [|by apply Forall_replicate]. constructor; try done.
  - exists ∅, (replicate (Z.to_nat (RTMQ_WORKER_HDL_QNUM * cf_work_thd_num cf)) []). split; [exact Hm|]. split.
    + constructor; cbn [sys_view view sys_share share_at s_cnid s_cmds s_rands s_acc s_map s_blocks s_in a_cnid a_cmds a_rands a_acc a_map a_blocks a_in
        first_sys y_cnid y_cmds y_rands y_acc y_map y_blocks y_in]; try done.
      * rewrite !length_replicate. unfold first_blocks. rewrite length_fmap, length_seq. by split_and!.
      * intros i q B ms rs' Hqi HBi Hms Hrs'. apply lookup_replicate in Hms as [-> _]. apply lookup_replicate in Hrs' as [-> _].
        exists B, []. split; [by eapply Hq|constructor].
    + rewrite Hrss. unfold ps, ds, part_refs. rewrite !concat_none by done. unfold all_bufs. rewrite concat_none by done. apply minv_empty.
  - unfold ps, part_bases. rewrite concat_none by done. constructor.
  - unfold ps. rewrite length_replicate. split; [done|]. intros i t p Hti Hp. apply lookup_replicate in Hp as [-> _]. by apply Ht.
  - unfold ps, ds. rewrite <-!length_zero_iff_nil, !length_replicate. lia.
  - split; [done|]. apply Forall2_same_length_lookup. unfold ds. rewrite length_replicate. split; [done|]. intros i r d Hri Hdi.
    apply lookup_replicate in Hdi as [-> _]. split; [by eapply Hd|]. split; [done|constructor].
  - split; [|split; [done|]]; cbn [sys_share share_at s_in first_sys y_in].
    + rewrite <-length_zero_iff_nil, length_replicate. unfold RTMQ_WORKER_HDL_QNUM. lia.
    + intros m. rewrite <-(list_fmap_id (replicate _ _)), concat_none by done. by intros ?%elem_of_nil.
  - by rewrite Hsid.
  - unfold ps, part_demand. rewrite total_none by done. lia.
  - by apply first_inv.
Qed.

Lemma setup_valid cf env auths : setup_ok cf env auths → rtmq_conf_isvalid cf = true.
Proof.
  intros [Hnid (l & Hl & _) _ Hport Hth Hrq Hsq Hdq _ _]. unfold rtmq_conf_isvalid. rewrite Hl. lia.
Qed.

Lemma wp_rtmq_init cf env auths x n (Q : Z → srv_st T U → mem → Prop) :
  setup_ok cf env auths → mrep (g_mem x) ∅ → Forall (λ r, 0 ≤ r) (rands (g_ctx x)) → 0 ≤ n → fresh (mblk (g_mem x)) + n < ADDR_MAX →
  match abs_auth_all auths ∅ with
  | Some acc => ∀ x', server_start (∅ : gmap Z (rtmq_reg_t U)) x' acc (g_app x) n → Q RTMQ_OK x' []
  | None => ∀ x', Q RTMQ_ERR x' []
  end → wp (rtmq_init cf env) Q x [].
Proof.
  intros Hsu Hm Hrs Hn Hroom HQ. destruct (su_auth _ _ _ Hsu) as (l & Hl & Hauths). destruct (su_env _ _ _ Hsu) as [Harea Hlsn].
  destruct (su_recvq _ _ _ Hsu) as [Hrq _]. destruct (su_sendq _ _ _ Hsu) as [Hsq _]. destruct (su_distq _ _ _ Hsu) as [Hdq _].
  unfold rtmq_init. rewrite (setup_valid _ _ _ Hsu), Hl. cbn [negb deref]. apply wp_bind, wp_ret. apply wp_bind, wp_malloc_nil. cbn [negb]. cbv zeta.
  apply wp_check_ok, wp_on_gtabs. eapply wp_auth_init; [exact Hauths|exact (su_accounts _ _ _ Hsu)|]. intros ta.
  destruct (abs_auth_all auths ∅) as [acc|]; [|exact (HQ _)]. intros Hta. change (0 =? 0) with true. cbn iota.
  apply wp_check_ok, wp_on_gtabs. apply wp_map_init. intros tm Htm. change (0 =? 0) with true. cbn iota.
  apply wp_check_ok, wp_on_gtabs. apply wp_sub_init. intros h. change (0 =? 0) with true. cbn iota.
  set (x1 := set_shared _ _ _ _).
  assert (comm_rep (tabs (g_ctx x1)) acc ∅) as Htabs.
  { destruct Hta as [Ha Hp]. constructor; [exact Ha| |done|exact Hp]. exists ∅. split; [exact Htm|]. intros k. rewrite !lookup_empty. constructor. }
  eapply (wp_check_some _ (λ z, tmap rg_type reg_dom rtmq_reg_cmp_cb z (∅ : gmap Z (rtmq_reg_t U)))).
  { unfold makes. apply (wp_tcreat (key := rg_type) (dm := reg_dom) (cmp := rtmq_reg_cmp_cb)). intros z Hz. split_and!; [done..|]. by exists z. }
  intros reg Hreg. unfold rtmq_creat_connq, rtmq_creat_recvq, rtmq_creat_sendq, rtmq_creat_distq. cbn [cf_recv_thd_num cf_recvq_num cf_recvq cf_sendq cf_distq cf_distq_num].
  eapply wp_check_some; [apply (creat_array_makes _ (λ i q, let B := blocks (e_area env + Z.of_nat i * (RTMQ_CONNQ_LEN * CONN_ITEM_SIZE)) CONN_ITEM_SIZE (Z.to_nat RTMQ_CONNQ_LEN) in queue_rep CONN_ITEM_SIZE B q (AQueue B [] []))); intros; by apply queue_makes|].
  intros connq [Hlc Hconnq].
  eapply wp_check_some; [apply (creat_array_makes _ (λ i q, let B := blocks (e_area env + cf_recv_thd_num cf * (RTMQ_CONNQ_LEN * CONN_ITEM_SIZE) + Z.of_nat i * (q_max (cf_recvq cf) * RECV_ITEM_SIZE)) RECV_ITEM_SIZE (Z.to_nat (q_max (cf_recvq cf))) in queue_rep RECV_ITEM_SIZE B q (AQueue B [] []))); intros; by apply queue_makes|].
  intros recvq [Hlr Hrecvq].
  eapply wp_check_some; [apply (creat_array_makes _ (λ _ r, ∃ k, q_max (cf_sendq cf) ≤ 2 ^ k ∧ ring_rep k r [])); intros; apply ring_makes; lia|].
  intros sendq [Hls Hsendq].
  eapply wp_check_some; [apply (creat_array_makes _ (λ _ r, ∃ k, q_max (cf_distq cf) ≤ 2 ^ k ∧ ring_rep k r [])); intros; apply ring_makes; lia|].
  intros distq [Hld Hdistq]. unfold creat_cmd_fd. do 3 (apply wp_bind; apply wp_bind, wp_malloc_nil; apply wp_ret).
  do 2 wp_step. set (x2 := Server _ _ _ _ _ _ _ _ _ _ _). unfold rtmq_creat_recvs.
  eapply (wp_check_some _ (λ thrs, length thrs = Z.to_nat (cf_recv_thd_num cf) ∧ ∀ i t, thrs !! i = Some t → part_ok i t empty_part)).
  { unfold makes. apply wp_bind, wp_malloc_nil. cbn [negb cf_recv_thd_num]. apply (creat_array_makes _ (λ i t, part_ok i t empty_part)). intros j Hj.
    destruct (lookup_lt_is_Some_2 connq j) as [cq Hcq]; [lia|]. destruct (lookup_lt_is_Some_2 sendq j) as [sq Hsqj]; [lia|].
    eapply (rsvr_makes (Conf _ _ _ _ _ _ _ _ _ _) env connq sendq auths); [|exact Hj| |].
    - destruct Hsu. constructor; cbn [cf_nid cf_auth cf_port cf_recv_thd_num cf_work_thd_num cf_recvq_num cf_distq_num cf_recvq cf_sendq cf_distq]; try done; [by exists l|unfold RTMQ_WORKER_HDL_QNUM; lia].
    - eexists cq, _. split; [exact Hcq|]. split; [|by apply Hconnq]. apply Forall_forall. intros p Hp.
      eapply (blocks_pos _ CONN_ITEM_SIZE); [|done|exact Hp]. unfold RTMQ_CONNQ_LEN, CONN_ITEM_SIZE. lia.
    - destruct (Hsendq _ _ Hsqj) as (k & _ & Hk). by exists sq, k. }
  intros thrs [Hlt Hthrs]. do 2 wp_step. unfold rtmq_creat_workers.
  eapply (wp_check_some _ (λ works, works = replicate (Z.to_nat (cf_work_thd_num cf)) (WCount 0 0 0))).
  { unfold makes. apply wp_bind, wp_malloc_nil. cbn [negb cf_work_thd_num].
    eapply wp_mono; [apply (creat_array_makes _ (λ _ c, c = WCount 0 0 0)); intros j _; unfold makes, rtmq_worker_init; cbn [deref];
      apply wp_bind, wp_ret; apply wp_ret; split_and!; [done..|]; by eexists|].
    intros o s' ms (-> & -> & ws & -> & Hws & Hall). split_and!; [done..|]. exists ws. split; [done|]. apply list_eq. intros i.
    destruct (ws !! i) as [c|] eqn:Hi.
    - rewrite (Hall _ _ Hi). symmetry. apply lookup_replicate_2. rewrite <-Hws. by eapply lookup_lt_Some.
    - symmetry. apply lookup_replicate_None. rewrite <-Hws. by apply lookup_ge_None. }
  intros works Hworks. do 2 wp_step. apply wp_check_ok. unfold rtmq_lsn_init. rewrite (proj2 (Z.ltb_ge _ _)) by lia.
  apply wp_ret. change (RTMQ_OK =? 0) with true. cbn iota. cbn [deref]. apply wp_bind, wp_ret. apply wp_ret. apply HQ.
  exists (first_sys cf env acc (rands (g_ctx x)) (g_app x)). split_and!; [|done..].
  set (xf := set_works _ _ _ _ _ _). change (g_app x) with (g_app xf).
  eapply (first_core cf env auths); try done.
  - intros i q B Hq HB. unfold first_blocks in HB. rewrite list_lookup_fmap in HB. destruct (seq 0 _ !! i) as [j|] eqn:Hj; [|done].
    apply lookup_seq in Hj as [-> _]. injection HB as <-. by apply Hrecvq.
  - intros i r Hr. destruct (Hdistq _ _ Hr) as (k & _ & Hk). by exists k.
Qed.

(** C5: [rtmq_init] with a valid configuration, and memory for it, returns a
    server with the accounts of the configuration and no connection, to which the
    theorems of the server apply; it fails if a user has two passwords. *)
Theorem rtmq_init_starts cf env auths x n :
  setup_ok cf env auths → mrep (g_mem x) ∅ → Forall (λ r, 0 ≤ r) (rands (g_ctx x)) → 0 ≤ n → fresh (mblk (g_mem x)) + n < ADDR_MAX →
  wp (rtmq_init cf env) (λ r x' _, match abs_auth_all auths ∅ with
    | Some acc => r = RTMQ_OK ∧ server_start (∅ : gmap Z (rtmq_reg_t U)) x' acc (g_app x) n
    | None => r = RTMQ_ERR
    end) x [].
Proof. intros Hsu Hm Hrs Hn Hroom. eapply wp_rtmq_init; [exact Hsu|exact Hm|exact Hrs|exact Hn|exact Hroom|]. by destruct (abs_auth_all auths ∅). Qed.

(** A handler is added before the threads are launched. *)
Lemma wp_srv_register G type proc x acc u n (Q : Z → srv_st T U → mem → Prop) :
  server_start G x acc u n → is_int type →
  (∀ r x', r = match G !! type with Some _ => RTMQ_ERR_REPEAT_REG | None => RTMQ_OK end →
     server_start (match G !! type with Some _ => G | None => <[type := Reg type proc]> G end) x' acc u n → Q r x' []) →
  wp (srv_register type proc) Q x [].
Proof.
  intros (y & (ps & ds & Hx & Hd) & Ha & Hu & Hi & Hs) Hty HQ. unfold srv_register. do 2 wp_step. apply wp_bind, wp_run_on.
  eapply (wp_rtmq_register type proc); [exact (sc_reg _ _ _ _ _ _ Hx)|exact Hty|]. intros r tr Hr Ht. do 2 wp_step. apply wp_ret. cbn [fst snd set_wk_reg wk_reg].
  apply HQ; [exact Hr|]. exists y. split_and!; [|done..]. exists ps, ds. split; [|exact Hd]. by destruct Hx.
Qed.
End Setup.
