(* ===== verification/RtmqDemo.v ===== *)
(** A server that [rtmq_init] sets up, with an account and a handler, and a run of
    it: a node connects, authenticates itself and sends a message, and the
    application sends one to the node. *)
From stdpp Require Import fin_maps gmap.
From S2P Require Import Prelude Heap Table HashTab TabRel TreeRel List ListProps List2 Iovec Ring RingSpec Slot QueueSpec QueueProps Mref Bytes Trees RtmqRecv RtmqMem RtmqRecvSpec RtmqSend RtmqSendSpec RtmqComm RtmqCommSpec RtmqRsvr RtmqRsvrSpec RtmqExp RtmqProps RtmqWork RtmqConn RtmqAbs RtmqConnRep RtmqConnEnd RtmqConnBody RtmqConnNew RtmqThread RtmqServer RtmqSys RtmqServerRep RtmqServerSpec RtmqServerDist RtmqServerProps RtmqInit RtmqInitProps.
Open Scope Z_scope.

(** ** The start *)

Section Start.
Context {T : Type → Type} `{TreeLaws T} {U : Type} (G : gmap Z (rtmq_reg_t U)).
Implicit Types (x : srv_st T U) (y : asystem U) (a : action).
Implicit Types (its : list rtmq_conn_item_t) (ms : list mesg).

Lemma concat_nil_at {A B} (f : B → list A) (l : list B) i z : concat (f <$> l) = [] → l !! i = Some z → f z = [].
Proof.
  intros Hc Hz. pose proof (concat_at f l i z Hz) as Hp. rewrite Hc in Hp. apply Permutation_nil_l in Hp. by destruct (app_eq_nil _ _ (eq_sym Hp)).
Qed.

(** Nothing has been accepted or sent. *)
Lemma start_empty y : yinv y → y_accepted y = [] → y_sent y = [] →
  conns y = [] ∧ concat (at_new <$> y_thrs y) = [] ∧ sendqs y = [] ∧ concat (y_distq y) = [] ∧ concat (y_in y) = [].
Proof.
  intros [HC HI HS HN HO Hout Happ Honce Hmap Hqs Hcmds] Ha Hs. rewrite Ha in HN. rewrite Hs in Hout. apply submseteq_nil_r in Hout.
  symmetry in HN. apply Permutation_nil_l in HN. symmetry in HN. apply app_eq_nil in HN as [HN1 HN2]. apply fmap_nil_inv in HN1.
  apply app_eq_nil in Hout as [_ Hout]. apply app_eq_nil in Hout as [H1 H2]. rewrite HN1 in Honce. apply submseteq_nil_r in Honce.
  apply app_eq_nil in Honce as [_ Hin]. by split_and!.
Qed.

Lemma start_idle x y n : sys_rep G x y n → y_accepted y = [] → y_sent y = [] → idle_server x ∧ has_room x.
Proof.
  intros (ps & ds & Hx & Hd) Ha Hs. destruct (start_empty y (sc_inv _ _ _ _ _ _ Hx) Ha Hs) as (Hcs & Hnew & Hsq & Hdq & Hin).
  assert (∀ i t, g_thrs x !! i = Some t → num2 (t_conns t) = 0 ∧ ring_used (t_sendq t) = 0 ∧ queue_used (t_connq t) = 0) as Hthr.
  { intros i t Ht. destruct (part_at _ _ _ _ _ _ i Hx) as (t0 & p & Ht0 & Hp & Hok & Hy); [by eapply lookup_lt_Some|]. rewrite Ht in Ht0. injection Ht0 as <-.
    pose proof (concat_nil_at _ _ _ _ Hcs Hy) as Hc. pose proof (concat_nil_at _ _ _ _ Hnew Hy) as Hn. pose proof (concat_nil_at _ _ _ _ Hsq Hy) as Hq.
    unfold thr_conns in Hc. cbn [thr_of at_conns at_closed at_new at_sendq] in *. apply app_eq_nil in Hc as [Hc _]. apply fmap_nil_inv in Hc.
    destruct Hok as [_ Hlc _ _ _ (size & B & F & qs & _ & Hqr & Hits) _ _ [(k & Hk) Hlen] _ _ _ _].
    rewrite (l2_num _ _ Hlc), Hc. rewrite Hn in Hits. inversion Hits; subst. rewrite (queue_rep_used _ _ Hqr). unfold ring_used. rewrite (rr_num _ _ _ Hk), Hlen, Hq. done. }
  destruct (sc_dist _ _ _ _ _ _ Hx) as [Hy Hdok]. split; [split_and!|].
  - apply Forall_lookup. intros i t Ht. destruct (Hthr _ _ Ht) as (? & ? & _). done.
  - apply Forall_lookup. intros i r Hr. destruct (Forall2_lookup_l _ _ _ _ _ Hdok Hr) as (d & Hdi & (k & Hk) & Hl & _).
    rewrite Hy in Hdq. pose proof (concat_nil_at _ _ _ _ Hdq Hdi) as Hms. rewrite Hms, length_app in Hl. unfold ring_used. rewrite (rr_num _ _ _ Hk). cbn in Hl. lia.
  - destruct (sc_mem _ _ _ _ _ _ Hx) as (M & rss & _ & Hcx & _). destruct (cx_len _ _ _ Hcx) as (Hl1 & Hl2 & Hl3).
    apply Forall_lookup. intros i q Hq. pose proof (lookup_lt_Some _ _ _ Hq) as Hi.
    destruct (lookup_lt_is_Some_2 (a_blocks (sys_view y)) i) as [B HB]; [lia|]. destruct (lookup_lt_is_Some_2 (a_in (sys_view y)) i) as [ms Hms]; [lia|].
    destruct (lookup_lt_is_Some_2 rss i) as [rs Hrs]; [lia|]. destruct (cx_inq _ _ _ Hcx i q B ms rs Hq HB Hms Hrs) as (F & Qs & Hqr & Hall).
    rewrite (queue_rep_used _ _ Hqr). change (a_in (sys_view y)) with (y_in y) in Hms. rewrite <-(list_fmap_id (y_in y)) in Hin.
    pose proof (concat_nil_at _ _ _ _ Hin Hms) as Hnil. cbn in Hnil. subst ms. by inversion Hall.
  - unfold has_room. pose proof (sys_thrs_pos _ _ _ _ _ _ Hx) as Hpos. pose proof (sc_sid _ _ _ _ _ _ Hx) as Hsid.
    destruct (lookup_lt_is_Some_2 (g_thrs x) (next_thr x)) as [t Ht].
    { unfold next_thr. pose proof (Z.rem_bound_pos (g_sid x) (Z.of_nat (length (g_thrs x)))). lia. }
    rewrite Ht. destruct (Hthr _ _ Ht) as (-> & _ & ->). lia.
Qed.

(** Actions that are safe at any time. *)
Definition tame a : Prop := ∀ x y n, sys_rep G x y n → act_safe a x ∧ act_items a x = [].

Lemma tame_recv rd wr : tame (TurnRecv 0 (SelReady rd wr)).
Proof.
  intros x y n (ps & ds & Hx & _). split; [|done]. pose proof (sys_thrs_pos _ _ _ _ _ _ Hx) as Hp.
  destruct (lookup_lt_is_Some_2 (g_thrs x) 0) as [t Ht]; [lia|]. by exists t.
Qed.
Lemma tame_dist ev : tame (TurnDist ev).
Proof. done. Qed.
Lemma tame_send type dest data : HEAD_SIZE + Z.of_nat (length data) < 2 ^ 31 → is_nid (i32 dest) → tame (CallSend type dest data).
Proof. intros H1 H2. by split. Qed.
Lemma tame_work ev : (∀ e, ev = PollErr e → e = EINTR) → tame (TurnWork 0 ev).
Proof.
  intros He x y n (ps & ds & Hx & _). split; [|done]. split; [|exact He]. destruct (sc_works _ _ _ _ _ _ Hx) as [-> _].
  destruct (yi_queues _ (sc_inv _ _ _ _ _ _ Hx)) as [Hne Hl]. destruct (y_in y); [done|]. cbn in Hl. lia.
Qed.

Hypothesis HG : handlers_ok G.

Lemma runs_tame acts : ∀ x0 y0 n its ms x, sys_rep G x0 y0 n → runs x0 its ms x → Forall tame acts →
  need its (ms ++ concat (act_mesgs <$> acts)) ≤ n → ∃ x', runs x0 its (ms ++ concat (act_mesgs <$> acts)) x'.
Proof.
  induction acts as [|a acts IH]; intros x0 y0 n its ms x Hx Hr Hacts Hn; [exists x; cbn; by rewrite app_nil_r|].
  apply Forall_cons in Hacts as [Ha Hacts]. cbn [fmap list_fmap concat] in *. rewrite app_assoc in Hn |- *.
  pose proof (need_pos [] (concat (act_mesgs <$> acts))) as Hp. pose proof (need_pos [] (act_mesgs a)) as Hpa.
  rewrite <-(app_nil_r its), need_app in Hn. rewrite <-(app_nil_r its), need_app in Hn.
  destruct (runs_may G HG _ _ _ _ Hr y0 (n - need its ms)) as (its' & ms' & _ & _ & y & _ & _ & _ & _ & Hy); [by rewrite Z.sub_add|lia|].
  destruct (Ha _ _ _ Hy) as [Hsafe Hits].
  replace (n - need its ms) with (n - need its ms - need (act_items a x) (act_mesgs a) + need (act_items a x) (act_mesgs a)) in Hy by lia.
  destruct (wp_elim _ _ _ _ (wp_act G HG a x y _ (λ _ _ os, os = []) Hy ltac:(rewrite Hits; lia) Hsafe (λ _ _, eq_refl))) as ([] & x1 & os & Hx1 & ->).
  pose proof (runs_snoc _ _ _ _ _ _ Hr Hsafe Hx1) as Hr1. rewrite Hits, app_nil_r in Hr1.
  eapply (IH x0 y0 n); [exact Hx|exact Hr1|exact Hacts|]. rewrite <-(app_nil_r its), need_app. rewrite <-(app_nil_r its), need_app. lia.
Qed.
End Start.

(** ** A server *)

Abbreviation dserver := (srv_st atree (list (list Z))).

Definition demo_auths : list_t rtmq_auth_t := MkList 1 1 1 (Heap {[ 1 := LNode (Auth [117] [112]) NULL ]} 2).
Definition demo_cf : rtmq_conf_t := Conf 9 (Some demo_auths) 8000 1 1 1 1 (QueueConf 2 16) (QueueConf 4 8) (QueueConf 4 8).
Definition demo_env : init_env := InitEnv [10] [[]] 4096 11.
Definition demo_G : gmap Z (rtmq_reg_t (list (list Z))) := {[ 0x0101 := keep_body ]}.

Lemma demo_setup : setup_ok demo_cf demo_env [Auth [117] [112]].
Proof.
  constructor; try done.
  - exists demo_auths. split; [done|]. exists [(1, Auth [117] [112])]. split; [|done]. constructor; try done.
    change (seg [(1, Auth [117] [112])] NULL) with [(1, LNode (Auth [117] [112]) NULL)].
    constructor; cbn.
    + intros p z. rewrite lookup_singleton_Some, list_elem_of_singleton. split; [by intros [-> ->]|by intros [= -> ->]].
    + apply NoDup_singleton.
    + constructor; [by unfold NULL|constructor].
    + done.
  - by repeat constructor.
  - intros [|i] Hi; [by exists 10|]. cbn in Hi. lia.
Qed.

Lemma keep_ok : handlers_ok demo_G.
Proof.
  unfold handlers_ok, demo_G. apply map_Forall_singleton. intros ty nid body len u. cbn. by wp_steps.
Qed.

(** The context before [rtmq_init], with memory for [n] blocks. *)
Lemma demo_cntx : ∃ x : dserver, mrep (g_mem x) ∅ ∧ fresh (mblk (g_mem x)) = 1 ∧ rands (g_ctx x) = [] ∧ g_app x = [].
Proof.
  assert (wp (mref_init (T := htree) empty_heap) (λ o _ _, ∃ s, o = Some s ∧ mrep s ∅ ∧ fresh (mblk s) = 1) tt []) as Hi.
  { apply wp_mref_init; [done|cbn; unfold ADDR_MAX; lia|]. intros s ? Hs. exists s. by rewrite Hs. }
  apply wp_elim in Hi as (o & _ & _ & _ & s & -> & Hm & Hf).
  by exists (Server s (Cntx 0 [] ∅ [] comm0 []) [] 0 [] [] [] empty_atree [] [] []).
Qed.

Lemma demo_start : ∃ x : dserver, server_start demo_G x acc1 [] 100000.
Proof.
  destruct demo_cntx as (x & Hm & Hf & Hr & Ha).
  assert (wp (rtmq_init demo_cf demo_env) (λ _ x' os, os = [] ∧ server_start (∅ : gmap Z (rtmq_reg_t (list (list Z)))) x' acc1 [] 100000) x []) as Hw.
  { eapply (wp_rtmq_init demo_cf demo_env [Auth [117] [112]] x 100000); [exact demo_setup|exact Hm|by rewrite Hr|done|rewrite Hf; unfold ADDR_MAX; lia|].
    change (abs_auth_all [Auth [117] [112]] ∅) with (Some acc1). cbn iota. intros x' Hx'. by rewrite Ha in Hx'. }
  apply wp_elim in Hw as (_ & x1 & os & _ & -> & Hx1).
  assert (wp (srv_register 0x0101 (rg_proc keep_body)) (λ _ x' _, server_start demo_G x' acc1 [] 100000) x1 []) as Hw.
  { eapply wp_srv_register; [exact Hx1|done|]. intros r x' _ Hx'. exact Hx'. }
  apply wp_elim in Hw as (_ & x' & _ & _ & Hx'). by exists x'.
Qed.

(** ** A run *)

(** The node 7 authenticates itself and sends a message ([RtmqProps]); its bytes
    come in parts. *)
Definition demo_accept : action := TurnListen PollReady [AccErr EINTR; AccFd 5 events12 []].
Definition demo_actions : list action :=
  [TurnRecv 0 (SelReady {[ 10 ]} ∅); TurnRecv 0 (SelReady {[ 5 ]} ∅); TurnWork 0 PollReady; CallSend 0x0102 7 [4; 5];
   TurnDist PollTimeout; TurnRecv 0 (SelReady {[ 10 ]} ∅); TurnRecv 0 (SelReady ∅ {[ 5 ]})].
Definition demo_mesg : mesg := app_mesg 0x0102 7 [4; 5].

Lemma demo_stream : stream_ok [] events12.
Proof.
  split; [by repeat constructor|]. exists [mesg1; mesg2], []. split; [by vm_compute|]. split; [apply partial_nil; pose proof buff_size; unfold HEAD_SIZE; lia|].
  split; [exact mesg12_ok|]. constructor; [|constructor; [|constructor]].
  - split; [done|]. intros _. change ((52 ≤ length (m_body mesg1))%nat ∧ Forall is_byte (m_body mesg1) ∧ is_Some (auth_usr (m_body mesg1)) ∧
      is_Some (auth_passwd (m_body mesg1)) ∧ is_node 7). split_and!; [by vm_compute|by repeat constructor|by eexists|by eexists|done].
  - split; [done|]. intros Hf. discriminate Hf.
Qed.

Lemma demo_run : ∃ (x0 : dserver) y0 its x, sys_rep demo_G x0 y0 100000 ∧ y_acc y0 = acc1 ∧ y_app y0 = [] ∧ y_accepted y0 = [] ∧ y_sent y0 = [] ∧
  runs x0 its [demo_mesg] x ∧ ci_evs <$> its = [events12] ∧ need its [demo_mesg] ≤ 1000.
Proof.
  destruct demo_start as (x0 & y0 & Hx0 & Ha & Hu & Hi & Hs). destruct (start_idle _ _ _ _ Hx0 Hi Hs) as [_ Hroom].
  set (it := ConnItem 5 (u64 (g_sid x0 + 1)) events12 []).
  assert (need [it] [] = 1 + demand [] events12) as Hneed by (change (need [it] []) with ((1 + demand [] events12) + 0 + 0); lia).
  assert (demand [] events12 = Z.of_nat (2 * length bytes12)) as Hd by (by vm_compute).
  assert (length bytes12 = 95%nat) as Hl by (by vm_compute). rewrite Hl in Hd. assert (need [it] [] = 191) as Hn1 by lia.
  assert (act_safe demo_accept x0) as Hsafe by (split; [done|split; [exact demo_stream|exact Hroom]]).
  destruct (wp_elim _ _ _ _ (wp_act demo_G keep_ok demo_accept x0 y0 1000 (λ _ _ os, os = [])
    ltac:(eapply sys_rep_weaken; [exact Hx0|]; change (act_items demo_accept x0) with [it]; change (act_mesgs demo_accept) with (@nil mesg); rewrite Hn1; lia) ltac:(done) Hsafe (λ _ _, eq_refl))) as ([] & x1 & os & Hx1 & ->).
  pose proof (runs_snoc _ _ _ _ _ _ (runs_nil x0) Hsafe Hx1) as Hr1. change (act_items demo_accept x0) with [it] in Hr1. cbn [act_mesgs demo_accept app] in Hr1.
  assert (need [it] [demo_mesg] = need [it] [] + 1) as Hn by (unfold need; cbn; lia).
  destruct (runs_tame demo_G keep_ok demo_actions _ _ _ _ _ _ Hx0 Hr1) as (x & Hr).
  - repeat (constructor; [first [apply tame_recv|apply tame_dist|by apply tame_work|by apply tame_send]|]). constructor.
  - change ([] ++ concat (act_mesgs <$> demo_actions)) with [demo_mesg]. lia.
  - exists x0, y0, [it], x. split_and!; [done..|exact Hr|done|lia].
Qed.

(** ** Witnesses *)

Lemma rtmq_init_starts_witness : ∃ x : dserver, wp (rtmq_init demo_cf demo_env) (λ r x' _, r = RTMQ_OK ∧ server_start ∅ x' acc1 [] 100000) x [].
Proof.
  destruct demo_cntx as (x & Hm & Hf & Hr & Ha). exists x.
  pose proof (rtmq_init_starts demo_cf demo_env [Auth [117] [112]] x 100000 demo_setup Hm ltac:(rewrite Hr; constructor) ltac:(done)
    ltac:(rewrite Hf; unfold ADDR_MAX; lia)) as Hw. rewrite Ha in Hw. exact Hw.
Defined.

Lemma server_refines_witness : ∃ (x0 : dserver) y0 its x y, runs x0 its [demo_mesg] x ∧ rtc (ystep demo_G) y0 y ∧ sys_rep demo_G x y (100000 - need its [demo_mesg]).
Proof.
  destruct demo_run as (x0 & y0 & its & x & Hx0 & _ & _ & _ & _ & Hr & _ & Hn).
  destruct (server_refines demo_G keep_ok x0 y0 100000 its [demo_mesg] x Hx0 Hr ltac:(lia)) as (y & Hy & Hx). by exists x0, y0, its, x, y.
Defined.

Lemma server_safe_witness : ∃ (x0 : dserver) its x x', runs x0 its [demo_mesg] x ∧ act (CallSend 0x0102 7 [6]) x [] = Ok (tt, x', []).
Proof.
  destruct demo_run as (x0 & y0 & its & x & Hx0 & _ & _ & _ & _ & Hr & _ & Hn).
  destruct (server_safe demo_G keep_ok x0 y0 100000 its [demo_mesg] x (CallSend 0x0102 7 [6]) Hx0 Hr ltac:(done)) as (x' & Hx').
  - rewrite need_app. change (need (act_items _ _) (act_mesgs _)) with 1. lia.
  - by exists x0, its, x, x'.
Defined.


