(* ===== verification/Mesg.v ===== *)
(** The header of the chat messages ([incl/mesg.h]) as the bytes it is made of: its
    eight fields in the order of the host, its change to the order of the network
    and back, and the types of messages ([incl/cmd_list.h]) the listener names. *)
From S2P Require Import Prelude Bytes.
Open Scope Z_scope.

(** ** 64-bit integers *)

Definition is_u64 (x : Z) : Prop := 0 ≤ x < 2 ^ 64.

Definition store64 (x : Z) : list Z := store32 x ++ store32 (x / 2 ^ 32).
Definition load64 (l : list Z) : Z := load32 (take 4 l) + load32 (drop 4 l) * 2 ^ 32.

(** [ntoh64] and [hton64] of [incl/sck.h]. *)
Definition ntoh64 (v : Z) : Z :=
  Z.lor (Z.shiftl (Z.land v 0x00000000000000FF) 56)
 (Z.lor (Z.shiftl (Z.land v 0x000000000000FF00) 40)
 (Z.lor (Z.shiftl (Z.land v 0x0000000000FF0000) 24)
 (Z.lor (Z.shiftl (Z.land v 0x00000000FF000000) 8)
 (Z.lor (Z.shiftr (Z.land v 0x000000FF00000000) 8)
 (Z.lor (Z.shiftr (Z.land v 0x0000FF0000000000) 24)
 (Z.lor (Z.shiftr (Z.land v 0x00FF000000000000) 40)
        (Z.shiftr (Z.land v 0xFF00000000000000) 56))))))).
Definition hton64 : Z → Z := ntoh64.

Lemma is_u64_bits x : is_u64 x ↔ 0 ≤ x ∧ ∀ i, 64 ≤ i → Z.testbit x i = false.
Proof.
  unfold is_u64. split.
  - intros [? Hx]. split; [done|]. intros i Hi. destruct (decide (x = 0)) as [->|]; [apply Z.testbit_0_l|].
    apply Z.bits_above_log2; [done|]. enough (Z.log2 x < 64) by lia. apply Z.log2_lt_pow2; lia.
  - intros [? Hx]. split; [done|]. destruct (decide (x = 0)) as [->|]; [done|].
    apply Z.log2_lt_pow2; [lia|]. destruct (decide (64 ≤ Z.log2 x)) as [Hl|]; [|lia].
    specialize (Hx _ Hl). rewrite Z.bit_log2 in Hx by lia. done.
Qed.

(** The bit [i] of a mask made of ones from [a] to [a + 7]. *)
Lemma mask_bit a i : 0 ≤ a → 0 ≤ i → Z.testbit (Z.shiftl (Z.ones 8) a) i = bool_decide (a ≤ i < a + 8).
Proof.
  intros. rewrite Z.shiftl_spec by lia. destruct (decide (i < a)).
  - rewrite Z.testbit_neg_r by lia. symmetry. apply bool_decide_eq_false. lia.
  - rewrite Z.testbit_ones by lia. apply eq_true_iff_eq. rewrite andb_true_iff, bool_decide_eq_true. lia.
Qed.

Lemma bits_ext (P Q : Prop) `{Decision P, Decision Q} b : (P ↔ Q) → bool_decide P && b = b && bool_decide Q.
Proof. intros HPQ. rewrite (bool_decide_ext _ _ HPQ). apply andb_comm. Qed.

(** The byte of [v] at [a], moved to [b]. *)
Definition move_byte (v a b : Z) : Z := Z.shiftl (Z.shiftr (Z.land v (Z.shiftl (Z.ones 8) a)) a) b.

Lemma move_byte_bit v a b i : 0 ≤ a → 0 ≤ b → 0 ≤ i →
  Z.testbit (move_byte v a b) i = bool_decide (b ≤ i < b + 8) && Z.testbit v (i - b + a).
Proof.
  intros. unfold move_byte. rewrite Z.shiftl_spec by lia. destruct (decide (i < b)).
  - rewrite Z.testbit_neg_r by lia. rewrite bool_decide_eq_false_2 by lia. done.
  - rewrite Z.shiftr_spec, Z.land_spec, mask_bit by lia. symmetry. apply bits_ext. lia.
Qed.

Lemma move_up v a b : 0 ≤ a ≤ b → move_byte v a b = Z.shiftl (Z.land v (Z.shiftl (Z.ones 8) a)) (b - a).
Proof.
  intros. apply Z.bits_inj'. intros i Hi. rewrite move_byte_bit, Z.shiftl_spec by lia.
  destruct (decide (i < b - a)).
  - rewrite (Z.testbit_neg_r _ (i - (b - a))) by lia. rewrite bool_decide_eq_false_2 by lia. done.
  - rewrite Z.land_spec, mask_bit by lia. replace (i - (b - a)) with (i - b + a) by lia.
    apply bits_ext. lia.
Qed.

Lemma move_down v a b : 0 ≤ b ≤ a → move_byte v a b = Z.shiftr (Z.land v (Z.shiftl (Z.ones 8) a)) (a - b).
Proof.
  intros. apply Z.bits_inj'. intros i Hi. rewrite move_byte_bit, Z.shiftr_spec, Z.land_spec, mask_bit by lia.
  replace (i + (a - b)) with (i - b + a) by lia. apply bits_ext. lia.
Qed.

(** The eight bytes in the reverse order. *)
Lemma ntoh64_moves v :
  ntoh64 v = foldr (λ k acc, Z.lor (move_byte v (8 * k) (56 - 8 * k)) acc) 0 (seqZ 0 8).
Proof.
  unfold ntoh64. change (seqZ 0 8) with [0; 1; 2; 3; 4; 5; 6; 7]. cbn [foldr]. rewrite Z.lor_0_r.
  rewrite (move_up v (8 * 0)), (move_up v (8 * 1)), (move_up v (8 * 2)), (move_up v (8 * 3)) by lia.
  rewrite (move_down v (8 * 4)), (move_down v (8 * 5)), (move_down v (8 * 6)), (move_down v (8 * 7)) by lia.
  done.
Qed.

Lemma ntoh64_bit v i : 0 ≤ i →
  Z.testbit (ntoh64 v) i = bool_decide (i < 64) && Z.testbit v (56 - 8 * (i / 8) + i mod 8).
Proof.
  intros Hi. rewrite ntoh64_moves. change (seqZ 0 8) with [0; 1; 2; 3; 4; 5; 6; 7]. cbn [foldr].
  rewrite !Z.lor_spec, !move_byte_bit, Z.testbit_0_l by lia.
  pose proof (Z.div_mod i 8 ltac:(lia)) as Hd. pose proof (Z.mod_pos_bound i 8 ltac:(lia)) as Hm.
  set (q := i / 8) in *. set (r := i mod 8) in *.
  assert (0 ≤ q) as Hq by lia.
  destruct (decide (i < 64)) as [Hlt|Hge].
  - rewrite (bool_decide_eq_true_2 (i < 64)) by done. rewrite andb_true_l.
    assert (q = 0 ∨ q = 1 ∨ q = 2 ∨ q = 3 ∨ q = 4 ∨ q = 5 ∨ q = 6 ∨ q = 7) as Hc by lia.
    clearbody q r.
    repeat destruct Hc as [Hc|Hc]; subst q;
      repeat first [rewrite bool_decide_eq_true_2 by lia | rewrite bool_decide_eq_false_2 by lia];
      rewrite ?andb_true_l, ?andb_false_l, ?orb_false_l, ?orb_false_r; f_equal; lia.
  - by repeat rewrite bool_decide_eq_false_2 by lia.
Qed.

Lemma ntoh64_u64 v : is_u64 (ntoh64 v).
Proof.
  apply is_u64_bits. split.
  - apply Z.bits_iff_nonneg_ex. exists 64. intros i Hi.
    by rewrite ntoh64_bit, bool_decide_eq_false_2 by lia.
  - intros i Hi. by rewrite ntoh64_bit, bool_decide_eq_false_2 by lia.
Qed.

Lemma ntoh64_ntoh64 v : is_u64 v → ntoh64 (ntoh64 v) = v.
Proof.
  intros [Hv Hb]%is_u64_bits. apply Z.bits_inj'. intros i Hi. rewrite ntoh64_bit by lia.
  destruct (decide (i < 64)) as [Hlt|Hge].
  2: { rewrite bool_decide_eq_false_2 by done. rewrite Hb by lia. done. }
  rewrite (bool_decide_eq_true_2 (i < 64)) by done. rewrite andb_true_l.
  pose proof (Z.div_mod i 8 ltac:(lia)) as Hd. pose proof (Z.mod_pos_bound i 8 ltac:(lia)) as Hm.
  set (q := i / 8) in *. set (r := i mod 8) in *.
  assert (0 ≤ q < 8) as Hq by lia. clearbody q r.
  rewrite ntoh64_bit, bool_decide_eq_true_2, andb_true_l by lia. f_equal.
  replace (56 - 8 * q + r) with (r + (7 - q) * 8) by lia.
  rewrite Z.div_add, Z.mod_add, Z.div_small, Z.mod_small by lia. lia.
Qed.

Lemma load_store64 x : is_u64 x → load64 (store64 x) = x.
Proof.
  unfold is_u64, load64, store64. intros Hx. change (take 4 (store32 x ++ store32 (x / 2 ^ 32))) with (store32 x).
  change (drop 4 (store32 x ++ store32 (x / 2 ^ 32))) with (store32 (x / 2 ^ 32)).
  rewrite (load_store32 (x / 2 ^ 32)).
  - assert (load32 (store32 x) = x mod 2 ^ 32) as ->.
    { clear. unfold load32, store32. Z.to_euclidean_division_equations. lia. }
    Z.to_euclidean_division_equations. lia.
  - unfold is_u32. Z.to_euclidean_division_equations. lia.
Qed.

Lemma load64_u64 l : Forall is_byte l → length l = 8%nat → is_u64 (load64 l).
Proof.
  intros Hl Hn. unfold load64, is_u64.
  pose proof (load32_u32 (take 4 l) ltac:(by apply Forall_take)) as H1.
  pose proof (load32_u32 (drop 4 l) ltac:(by apply Forall_drop)) as H2. unfold is_u32 in *. lia.
Qed.

Lemma store64_bytes x : Forall is_byte (store64 x).
Proof. apply Forall_app. split; apply store32_bytes. Qed.

(** ** The header *)

Record mesg_header_t := MHead {
  mh_type : Z; mh_length : Z; mh_sid : Z; mh_cid : Z; mh_nid : Z; mh_seq : Z; mh_dsid : Z; mh_dseq : Z }.

Definition MESG_SIZE : Z := 52.

Definition MESG_HEAD_HTON (h : mesg_header_t) : mesg_header_t :=
  MHead (htonl (mh_type h)) (htonl (mh_length h)) (hton64 (mh_sid h)) (hton64 (mh_cid h)) (htonl (mh_nid h))
    (hton64 (mh_seq h)) (hton64 (mh_dsid h)) (hton64 (mh_dseq h)).
Definition MESG_HEAD_NTOH (n : mesg_header_t) : mesg_header_t :=
  MHead (ntohl (mh_type n)) (ntohl (mh_length n)) (ntoh64 (mh_sid n)) (ntoh64 (mh_cid n)) (ntohl (mh_nid n))
    (ntoh64 (mh_seq n)) (ntoh64 (mh_dsid n)) (ntoh64 (mh_dseq n)).

(** The packed structure in memory, read and written by the host. *)
Definition put_mhead (h : mesg_header_t) : list Z :=
  store32 (mh_type h) ++ store32 (mh_length h) ++ store64 (mh_sid h) ++ store64 (mh_cid h) ++ store32 (mh_nid h) ++
  store64 (mh_seq h) ++ store64 (mh_dsid h) ++ store64 (mh_dseq h).
Definition get_mhead (l : list Z) : mesg_header_t :=
  MHead (load32 (take 4 l)) (load32 (take 4 (drop 4 l))) (load64 (take 8 (drop 8 l))) (load64 (take 8 (drop 16 l)))
    (load32 (take 4 (drop 24 l))) (load64 (take 8 (drop 28 l))) (load64 (take 8 (drop 36 l)))
    (load64 (take 8 (drop 44 l))).

Definition set_mh_type x (h : mesg_header_t) : mesg_header_t :=
  MHead x (mh_length h) (mh_sid h) (mh_cid h) (mh_nid h) (mh_seq h) (mh_dsid h) (mh_dseq h).
Definition set_mh_sid x (h : mesg_header_t) : mesg_header_t :=
  MHead (mh_type h) (mh_length h) x (mh_cid h) (mh_nid h) (mh_seq h) (mh_dsid h) (mh_dseq h).
Definition set_mh_cid x (h : mesg_header_t) : mesg_header_t :=
  MHead (mh_type h) (mh_length h) (mh_sid h) x (mh_nid h) (mh_seq h) (mh_dsid h) (mh_dseq h).
Definition set_mh_nid x (h : mesg_header_t) : mesg_header_t :=
  MHead (mh_type h) (mh_length h) (mh_sid h) (mh_cid h) x (mh_seq h) (mh_dsid h) (mh_dseq h).

Record mhead_ok (h : mesg_header_t) : Prop := {
  mo_type : is_u32 (mh_type h); mo_len : is_u32 (mh_length h); mo_sid : is_u64 (mh_sid h); mo_cid : is_u64 (mh_cid h);
  mo_nid : is_u32 (mh_nid h); mo_seq : is_u64 (mh_seq h); mo_dsid : is_u64 (mh_dsid h); mo_dseq : is_u64 (mh_dseq h);
}.

Lemma length_put_mhead h : length (put_mhead h) = 52%nat.
Proof. done. Qed.

Lemma put_mhead_bytes h : Forall is_byte (put_mhead h).
Proof. unfold put_mhead. repeat apply Forall_app_2; apply store32_bytes || apply store64_bytes. Qed.

Lemma get_put_mhead h l : mhead_ok h → get_mhead (put_mhead h ++ l) = h.
Proof.
  intros []. destruct h. unfold get_mhead, put_mhead.
  cbn [store64 store32 app take drop mh_type mh_length mh_sid mh_cid mh_nid mh_seq mh_dsid mh_dseq] in *.
  f_equal; first [by apply load_store32|by apply load_store64].
Qed.

Lemma take_mhead h l : take 52 (put_mhead h ++ l) = put_mhead h.
Proof. apply (take_app_length (put_mhead h)). Qed.
Lemma drop_mhead h l : drop 52 (put_mhead h ++ l) = l.
Proof. apply (drop_app_length (put_mhead h)). Qed.

Lemma mhead_ntoh_hton h : mhead_ok h → MESG_HEAD_NTOH (MESG_HEAD_HTON h) = h.
Proof.
  intros []. destruct h. unfold MESG_HEAD_HTON, MESG_HEAD_NTOH, htonl, hton64.
  cbn [mh_type mh_length mh_sid mh_cid mh_nid mh_seq mh_dsid mh_dseq] in *. by rewrite !ntohl_ntohl, !ntoh64_ntoh64.
Qed.

Lemma mhead_hton_ok h : mhead_ok (MESG_HEAD_HTON h).
Proof. constructor; apply ntohl_u32 || apply ntoh64_u64. Qed.

(** A message as it travels, and what its reader sees. *)
Definition packet (h : mesg_header_t) (body : list Z) : list Z := put_mhead (MESG_HEAD_HTON h) ++ body.

Definition read_mhead (data : list Z) : option (mesg_header_t * list Z) :=
  if decide (MESG_SIZE ≤ Z.of_nat (length data)) then Some (get_mhead data, drop 52 data) else None.

Lemma length_packet h body : length (packet h body) = (52 + length body)%nat.
Proof. unfold packet. by rewrite length_app, length_put_mhead. Qed.

Lemma read_packet h body : read_mhead (packet h body) = Some (MESG_HEAD_HTON h, body).
Proof.
  unfold read_mhead. rewrite length_packet, decide_True by (unfold MESG_SIZE; lia).
  unfold packet. by rewrite get_put_mhead, drop_mhead by apply mhead_hton_ok.
Qed.

(** A whole message: the length of the header is that of the body. *)
Record whole (h : mesg_header_t) (body : list Z) : Prop := {
  wh_head : mhead_ok h;
  wh_length : mh_length h = Z.of_nat (length body);
  wh_body : Forall is_byte body;
}.

Lemma store32_add x y : store32 (x + y * 2 ^ 32) = store32 x.
Proof.
  unfold store32. assert (∀ k, (k = 0 ∨ k = 8 ∨ k = 16 ∨ k = 24) → ((x + y * 2 ^ 32) / 2 ^ k) mod 256 = (x / 2 ^ k) mod 256) as Hk.
  { intros k Hk. replace (x + y * 2 ^ 32) with (x + (y * 2 ^ (32 - k)) * 2 ^ k) by (destruct Hk as [->|[->|[->| ->]]]; lia).
    rewrite Z.div_add by (destruct Hk as [->|[->|[->| ->]]]; lia).
    replace (y * 2 ^ (32 - k)) with (y * 2 ^ (24 - k) * 256) by (destruct Hk as [->|[->|[->| ->]]]; lia).
    by rewrite Z.mod_add. }
  pose proof (Hk 0 ltac:(auto)) as H0. rewrite !Z.div_1_r in H0. rewrite H0, !Hk by auto. done.
Qed.

Lemma store_load64 l : Forall is_byte l → length l = 8%nat → store64 (load64 l) = l.
Proof.
  intros Hl Hn. do 9 (destruct l as [|? l]; [try discriminate Hn|]); [|discriminate Hn].
  repeat (apply Forall_cons in Hl as [? Hl]). unfold load64, store64. cbn [take drop].
  assert (is_u32 (load32 [z; z0; z1; z2])) as Hx by (apply load32_u32; repeat (constructor; [done|]); constructor).
  assert (is_u32 (load32 [z3; z4; z5; z6])) as Hy by (apply load32_u32; repeat (constructor; [done|]); constructor).
  unfold is_u32 in *. rewrite Z.div_add, Z.div_small, Z.add_0_l, store32_add by lia. by rewrite !store_load32.
Qed.

Lemma put_get_mhead l : Forall is_byte l → (52 ≤ length l)%nat → put_mhead (get_mhead l) = take 52 l.
Proof.
  intros Hl Hn. unfold put_mhead, get_mhead. cbn [mh_type mh_length mh_sid mh_cid mh_nid mh_seq mh_dsid mh_dseq].
  assert (∀ a n, (a + n ≤ 52)%nat → Forall is_byte (take n (drop a l)) ∧ length (take n (drop a l)) = n) as Hpart.
  { intros a n ?. split; [by apply Forall_take, Forall_drop|]. rewrite length_take, length_drop. lia. }
  assert (∀ a, (a + 4 ≤ 52)%nat → store32 (load32 (take 4 (drop a l))) = take 4 (drop a l)) as H32.
  { intros a Ha. destruct (Hpart a 4%nat Ha) as [Hb Hlen]. destruct (take 4 (drop a l)) as [|b0 [|b1 [|b2 [|b3 [|]]]]]; try discriminate Hlen.
    repeat (apply Forall_cons in Hb as [? Hb]). by apply store_load32. }
  assert (∀ a, (a + 8 ≤ 52)%nat → store64 (load64 (take 8 (drop a l))) = take 8 (drop a l)) as H64.
  { intros a Ha. destruct (Hpart a 8%nat Ha) as [Hb Hlen]. by apply store_load64. }
  pose proof (H32 0%nat ltac:(lia)) as H0. rewrite drop_0 in H0. rewrite H0, !H32, !H64 by lia.

  assert (∀ n m a, take n (drop a l) ++ take m (drop (a + n) l) = take (n + m) (drop a l)) as Hjoin.
  { intros n m a. by rewrite <-drop_drop, take_take_drop. }
  rewrite (Hjoin 8 8 36 : take 8 (drop 36 l) ++ take 8 (drop 44 l) = take 16 (drop 36 l))%nat.
  rewrite (Hjoin 8 16 28 : take 8 (drop 28 l) ++ take 16 (drop 36 l) = take 24 (drop 28 l))%nat.
  rewrite (Hjoin 4 24 24 : take 4 (drop 24 l) ++ take 24 (drop 28 l) = take 28 (drop 24 l))%nat.
  rewrite (Hjoin 8 28 16 : take 8 (drop 16 l) ++ take 28 (drop 24 l) = take 36 (drop 16 l))%nat.
  rewrite (Hjoin 8 36 8 : take 8 (drop 8 l) ++ take 36 (drop 16 l) = take 44 (drop 8 l))%nat.
  rewrite (Hjoin 4 44 4 : take 4 (drop 4 l) ++ take 44 (drop 8 l) = take 48 (drop 4 l))%nat.
  apply (take_take_drop l 4 48).
Qed.

Lemma get_mhead_ok l : Forall is_byte l → (52 ≤ length l)%nat → mhead_ok (get_mhead l).
Proof.
  intros Hl Hn. assert (∀ a, is_u32 (load32 (take 4 (drop a l)))) as H32 by (intros; by apply load32_u32, Forall_take, Forall_drop).
  assert (∀ a, (a + 8 ≤ 52)%nat → is_u64 (load64 (take 8 (drop a l)))) as H64.
  { intros a Ha. apply load64_u64; [by apply Forall_take, Forall_drop|]. rewrite length_take, length_drop. lia. }
  constructor; cbn [get_mhead mh_type mh_length mh_sid mh_cid mh_nid mh_seq mh_dsid mh_dseq]; try (apply H64; lia); try apply H32.
  apply (H32 0%nat).
Qed.

Lemma mhead_hton_ntoh n : mhead_ok n → MESG_HEAD_HTON (MESG_HEAD_NTOH n) = n.
Proof. apply mhead_ntoh_hton. Qed.

(** C16: the header of a message survives the wire both ways: what was packed is
    unpacked, field by field and with its body; and what is unpacked from bytes is a
    header that packs into these bytes. *)
Theorem mesg_roundtrip :
  (∀ h body, mhead_ok h → ∃ n, read_mhead (packet h body) = Some (n, body) ∧ MESG_HEAD_NTOH n = h) ∧
  (∀ data n body, Forall is_byte data → read_mhead data = Some (n, body) →
     mhead_ok (MESG_HEAD_NTOH n) ∧ packet (MESG_HEAD_NTOH n) body = data).
Proof.
  split.
  - intros h body Hh. eexists. split; [apply read_packet|by apply mhead_ntoh_hton].
  - intros data n body Hb. unfold read_mhead, MESG_SIZE. case_decide as Hl; [|done]. intros [= <- <-].
    assert (mhead_ok (get_mhead data)) as Hok by (apply get_mhead_ok; [done|lia]). split; [apply mhead_hton_ok|].
    unfold packet. rewrite mhead_hton_ntoh, put_get_mhead by (done || lia). apply take_drop.
Qed.

(** ** Types of messages *)

Definition CMD_UNKNOWN : Z := 0.
Definition CMD_ONLINE : Z := 0x0101.
Definition CMD_ONLINE_ACK : Z := 0x0102.
Definition CMD_OFFLINE : Z := 0x0103.
Definition CMD_PING : Z := 0x0105.
Definition CMD_PONG : Z := 0x0106.
Definition CMD_KICK : Z := 0x0110.
Definition CMD_CHAT : Z := 0x0201.
Definition CMD_CHAT_ACK : Z := 0x0202.
Definition CMD_FRIEND_ADD : Z := 0x0203.
Definition CMD_FRIEND_ADD_ACK : Z := 0x0204.
Definition CMD_FRIEND_DEL : Z := 0x0205.
Definition CMD_FRIEND_DEL_ACK : Z := 0x0206.
Definition CMD_BLACKLIST_ADD : Z := 0x0207.
Definition CMD_BLACKLIST_ADD_ACK : Z := 0x0208.
Definition CMD_BLACKLIST_DEL : Z := 0x0209.
Definition CMD_BLACKLIST_DEL_ACK : Z := 0x020A.
Definition CMD_GAG_ADD : Z := 0x020B.
Definition CMD_GAG_ADD_ACK : Z := 0x020C.
Definition CMD_GAG_DEL : Z := 0x020D.
Definition CMD_GAG_DEL_ACK : Z := 0x020E.
Definition CMD_MARK_ADD : Z := 0x0210.
Definition CMD_MARK_ADD_ACK : Z := 0x0211.
Definition CMD_MARK_DEL : Z := 0x0212.
Definition CMD_MARK_DEL_ACK : Z := 0x0213.
Definition CMD_ROOM_JOIN : Z := 0x0405.
Definition CMD_ROOM_JOIN_ACK : Z := 0x0406.
Definition CMD_ROOM_QUIT : Z := 0x0407.
Definition CMD_ROOM_CHAT : Z := 0x040B.
Definition CMD_ROOM_CHAT_ACK : Z := 0x040C.
Definition CMD_ROOM_BC : Z := 0x040D.
Definition CMD_ROOM_USR_NUM : Z := 0x0410.
Definition CMD_ROOM_LSN_STAT : Z := 0x0412.
Definition CMD_ROOM_JOIN_NTF : Z := 0x0450.
Definition CMD_ROOM_QUIT_NTF : Z := 0x0452.
Definition CMD_ROOM_KICK_NTF : Z := 0x0454.
Definition CMD_LSND_INFO : Z := 0x0601.
