(* ===== verification/Lsnd.v ===== *)
(** The listener process ([exec/listend]): the connections of the clients, the
    messages it relays between them and the servers behind RTMQ, the rooms it
    keeps, and the connections it kicks out.  The access layer and the RTMQ proxy
    are seen through their calls, which are recorded; the decoders of the message
    bodies are those of the generated code. *)
From stdpp Require Import fin_maps gmap.
From S2P Require Import Prelude Heap Table HashTab List Trees Chat Bytes Mesg.
Open Scope Z_scope.

Definition LSND_CONN_HASH_TAB_LEN : Z := 999.
Definition LSND_KICK_TTL : Z := 5.
Definition CHAT_APP_NAME_LEN : nat := 64.
Definition CHAT_APP_VERS_LEN : nat := 32.
Definition LSND_TYPE_TCP : Z := 1.
Definition LSND_OK : Z := 0.
Definition LSND_ERR : Z := - 2 ^ 31.

#[global] Instance rwlock_eq_dec : EqDecision rwlock.
Proof. solve_decision. Defined.

(** ** Data *)

(** [lsnd_conn_stat_e]. *)
Inductive lsnd_conn_stat_e :=
  | CHAT_CONN_STAT_UNKNOWN | CHAT_CONN_STAT_ESTABLISH | CHAT_CONN_STAT_ONLINE | CHAT_CONN_STAT_KICK
  | CHAT_CONN_STAT_OFFLINE | CHAT_CONN_STAT_CLOSEING | CHAT_CONN_STAT_CLOSED.
#[global] Instance lsnd_conn_stat_eq_dec : EqDecision lsnd_conn_stat_e.
Proof. solve_decision. Defined.

(** [lsnd_conn_extra_t], without its links to the socket and to the context. *)
Record lsnd_conn_extra_t := Conn {
  c_lock : rwlock;
  c_sid : Z; c_seq : Z; c_cid : Z; c_nid : Z; c_uid : Z;
  c_stat : lsnd_conn_stat_e;
  c_create_time : Z; c_recv_time : Z; c_send_time : Z; c_keepalive_time : Z; c_kick_ttl : Z;
  c_app_name : list Z; c_app_vers : list Z; c_terminal : Z }.

(** The block [calloc] gives. *)
Definition conn_zero : lsnd_conn_extra_t :=
  Conn idle 0 0 0 0 0 CHAT_CONN_STAT_UNKNOWN 0 0 0 0 0 [] [] 0.

Definition set_c_lock x c := Conn x (c_sid c) (c_seq c) (c_cid c) (c_nid c) (c_uid c) (c_stat c) (c_create_time c)
  (c_recv_time c) (c_send_time c) (c_keepalive_time c) (c_kick_ttl c) (c_app_name c) (c_app_vers c) (c_terminal c).
Definition set_c_sid x c := Conn (c_lock c) x (c_seq c) (c_cid c) (c_nid c) (c_uid c) (c_stat c) (c_create_time c)
  (c_recv_time c) (c_send_time c) (c_keepalive_time c) (c_kick_ttl c) (c_app_name c) (c_app_vers c) (c_terminal c).
Definition set_c_seq x c := Conn (c_lock c) (c_sid c) x (c_cid c) (c_nid c) (c_uid c) (c_stat c) (c_create_time c)
  (c_recv_time c) (c_send_time c) (c_keepalive_time c) (c_kick_ttl c) (c_app_name c) (c_app_vers c) (c_terminal c).
Definition set_c_stat x c := Conn (c_lock c) (c_sid c) (c_seq c) (c_cid c) (c_nid c) (c_uid c) x (c_create_time c)
  (c_recv_time c) (c_send_time c) (c_keepalive_time c) (c_kick_ttl c) (c_app_name c) (c_app_vers c) (c_terminal c).
Definition set_c_kick_ttl x c := Conn (c_lock c) (c_sid c) (c_seq c) (c_cid c) (c_nid c) (c_uid c) (c_stat c)
  (c_create_time c) (c_recv_time c) (c_send_time c) (c_keepalive_time c) x (c_app_name c) (c_app_vers c) (c_terminal c).
Definition set_c_app name vers terminal c := Conn (c_lock c) (c_sid c) (c_seq c) (c_cid c) (c_nid c) (c_uid c) (c_stat c)
  (c_create_time c) (c_recv_time c) (c_send_time c) (c_keepalive_time c) (c_kick_ttl c) name vers terminal.

(** [lsnd_kick_item_t]. *)
Record lsnd_kick_item_t := KickItem { ki_cid : Z; ki_ttl : Z }.

(** What the table of connections is asked with, a local structure, or stores, the
    address of a connection. *)
Inductive conn_ref := Key (sid cid : Z) | At (p : ptr).

(** The callbacks that are registered: those for the messages of the clients, and
    those for the messages of RTMQ. *)
Inductive lsnd_proc :=
  | MesgDef | MesgOnline | MesgOffline | MesgPing | MesgRoomJoin | MesgRoomQuit
  | UpDef | UpOnlineAck | UpKick | UpRoomJoinAck | UpRoomChat | UpRoomBc | UpRoomUsrNum
  | UpRoomJoinNtf | UpRoomQuitNtf | UpRoomKickNtf.

(** [lsnd_reg_t], and [rtmq_reg_t] on the side of the proxy. *)
Record lsnd_reg_t := LReg { lr_type : Z; lr_proc : lsnd_proc }.

(** The part of [lsnd_conf_t] the code reads. *)
Record lsnd_conf_t := LConf {
  lc_nid : Z; lc_opid : Z; lc_nation : list Z; lc_ipaddr : list Z; lc_port : Z }.

(** The calls to the access layer and to the proxy, with what they will answer:
    0 when nothing is said. *)
Inductive port_call :=
  | AccSend (type cid : Z) (data : list Z)
  | AccKick (cid : Z)
  | RtmqSend (type : Z) (data : list Z).
Record ports := Ports { calls : list port_call; answers : list Z }.

(** [lsnd_cntx_t], with the memory of the connections, the registry of the proxy,
    and the counters of its worker. *)
Record lsnd_cntx_t (T : Type → Type) := Lsnd {
  l_conf : lsnd_conf_t;
  l_reg : atree lsnd_reg_t;
  l_upreg : atree lsnd_reg_t;
  l_chat : chat_tab_t T;
  l_conn_list : hash_tab_t T conn_ref;
  l_kick_list : hash_tab_t T lsnd_kick_item_t;
  l_conns : heap lsnd_conn_extra_t;
  l_ports : ports }.
Arguments Lsnd {_} _ _ _ _ _ _ _ _.
Arguments l_conf {_} _.
Arguments l_reg {_} _.
Arguments l_upreg {_} _.
Arguments l_chat {_} _.
Arguments l_conn_list {_} _.
Arguments l_kick_list {_} _.
Arguments l_conns {_} _.
Arguments l_ports {_} _.

(** *** The bodies of messages, as far as they are read *)

Record MesgOnlineAck := OnlineAck { oa_sid : Z; oa_seq : Z; oa_app : list Z; oa_version : list Z; oa_terminal : Z }.
Record MesgRoom := RoomMesg { mr_rid : Z; mr_gid : Z }.
Record MesgLsndInfo := LsndInfo {
  li_type : Z; li_nid : Z; li_opid : Z; li_nation : list Z; li_ip : list Z; li_port : Z; li_connections : Z }.
Record MesgRoomLsnStat := RoomLsnStat { rs_rid : Z; rs_nid : Z; rs_num : Z }.

(** The functions of [mesg.pb-c.c]: [None] is the NULL of a body that is not one. *)
Class Protobuf := {
  mesg_online_ack__unpack : list Z → option MesgOnlineAck;
  mesg_room_join_ack__unpack : list Z → option MesgRoom;
  mesg_room_quit__unpack : list Z → option MesgRoom;
  mesg_room_chat__unpack : list Z → option MesgRoom;
  mesg_room_bc__unpack : list Z → option MesgRoom;
  mesg_room_usr_num__unpack : list Z → option MesgRoom;
  mesg_room_join_ntf__unpack : list Z → option MesgRoom;
  mesg_room_quit_ntf__unpack : list Z → option MesgRoom;
  mesg_room_kick_ntf__unpack : list Z → option MesgRoom;
  mesg_kick__unpack : list Z → option unit;
  mesg_lsnd_info__pack : MesgLsndInfo → list Z;
  mesg_room_lsn_stat__pack : MesgRoomLsnStat → list Z;
}.

(** *** Callbacks of the tables, and of the access layer *)

Definition lsnd_mesg_body_length (head : mesg_header_t) : Z := ntohl (mh_length head).

Definition lsnd_acc_reg_cmp_cb (reg1 reg2 : lsnd_reg_t) : Z := i32 (lr_type reg1 - lr_type reg2).
Definition lsnd_conn_list_hash_cb (key : Z * Z) : Z := key.1.
Definition lsnd_conn_list_cmp_cb (key1 key2 : Z * Z) : Z :=
  let diff := cmp_u64 key1.1 key2.1 in
  if 0 =? diff then cmp_u64 key1.2 key2.2 else diff.
Definition lsnd_kick_list_hash_cb (item : lsnd_kick_item_t) : Z := ki_cid item.
Definition lsnd_kick_list_cmp_cb (item1 item2 : lsnd_kick_item_t) : Z := cmp_u64 (ki_cid item1) (ki_cid item2).

(** The string that [snprintf] with [%s] leaves in a buffer of [size] bytes: it ends
    at its first zero, or where the buffer does. *)
Fixpoint snprintf_s (size : nat) (s : list Z) : list Z :=
  match size, s with
  | S (S n as size'), x :: s' => if x =? 0 then [] else x :: snprintf_s size' s'
  | _, _ => []
  end.

Section Ops.
Context {T : Type → Type} `{TreeOps T} {pb : Protobuf}.
Abbreviation LM := (SM (lsnd_cntx_t T)).

(** The time of the call, and what the memory of a freed connection holds. *)
Context (now : Z) (junk : ptr → Z * Z).

(** *** Parts of the context *)

Definition set_l_reg x (s : lsnd_cntx_t T) : lsnd_cntx_t T :=
  Lsnd (l_conf s) x (l_upreg s) (l_chat s) (l_conn_list s) (l_kick_list s) (l_conns s) (l_ports s).
Definition set_l_upreg x (s : lsnd_cntx_t T) : lsnd_cntx_t T :=
  Lsnd (l_conf s) (l_reg s) x (l_chat s) (l_conn_list s) (l_kick_list s) (l_conns s) (l_ports s).
Definition set_l_chat x (s : lsnd_cntx_t T) : lsnd_cntx_t T :=
  Lsnd (l_conf s) (l_reg s) (l_upreg s) x (l_conn_list s) (l_kick_list s) (l_conns s) (l_ports s).
Definition set_l_conn_list x (s : lsnd_cntx_t T) : lsnd_cntx_t T :=
  Lsnd (l_conf s) (l_reg s) (l_upreg s) (l_chat s) x (l_kick_list s) (l_conns s) (l_ports s).
Definition set_l_kick_list x (s : lsnd_cntx_t T) : lsnd_cntx_t T :=
  Lsnd (l_conf s) (l_reg s) (l_upreg s) (l_chat s) (l_conn_list s) x (l_conns s) (l_ports s).
Definition set_l_conns x (s : lsnd_cntx_t T) : lsnd_cntx_t T :=
  Lsnd (l_conf s) (l_reg s) (l_upreg s) (l_chat s) (l_conn_list s) (l_kick_list s) x (l_ports s).
Definition set_l_ports x (s : lsnd_cntx_t T) : lsnd_cntx_t T :=
  Lsnd (l_conf s) (l_reg s) (l_upreg s) (l_chat s) (l_conn_list s) (l_kick_list s) (l_conns s) x.

Definition on_chat {A} : SM (chat_tab_t T) A → LM A := zoom l_chat set_l_chat.
Definition on_kick_list {A} : SM (hash_tab_t T lsnd_kick_item_t) A → LM A := zoom l_kick_list set_l_kick_list.
Definition on_conns {A} : SM (heap lsnd_conn_extra_t) A → LM A := zoom l_conns set_l_conns.
Definition rd_conn (p : ptr) : LM lsnd_conn_extra_t := on_conns (hrd p).
Definition wr_conn (p : ptr) (f : lsnd_conn_extra_t → lsnd_conn_extra_t) : LM unit := on_conns (hwr p f).

(** *** Calls to the outside *)

Definition call_port (c : port_call) : SM ports Z :=
  p ← get;
  put (Ports (calls p ++ [c]) (tail (answers p)));;
  mret (default 0 (head (answers p))).
Definition acc_async_send (type cid : Z) (data : list Z) : LM Z :=
  zoom l_ports set_l_ports (call_port (AccSend type cid data)).
Definition acc_async_kick (cid : Z) : LM Z := zoom l_ports set_l_ports (call_port (AccKick cid)).
Definition rtmq_proxy_async_send (type : Z) (data : list Z) : LM Z :=
  zoom l_ports set_l_ports (call_port (RtmqSend type data)).

(** A body of [n] bytes is decoded; a length that leads out of the message is a
    read of foreign memory. *)
Definition unpack {A} (f : list Z → option A) (n : Z) (body : list Z) : LM (option A) :=
  bs ← deref (rd_bytes body 0 n);
  mret (f bs).

(** *** The lock of a connection *)

Definition conn_lock (f : rwlock → outcome rwlock) (p : ptr) : LM unit :=
  c ← rd_conn p;
  match f (c_lock c) with
  | Ok l => wr_conn p (set_c_lock l)
  | Blocked => blocked
  | Crash => crash
  | NoFuel => nofuel
  end.

(** *** The table of connections: the callbacks follow the pointers it stores *)

Definition ref_key (h : heap lsnd_conn_extra_t) (r : conn_ref) : Z * Z :=
  match r with
  | Key sid cid => (sid, cid)
  | At p => match cell h !! p with Some c => (c_sid c, c_cid c) | None => junk p end
  end.
Definition ref_hash (h : heap lsnd_conn_extra_t) (r : conn_ref) : Z := lsnd_conn_list_hash_cb (ref_key h r).
Definition ref_cmp (h : heap lsnd_conn_extra_t) (r1 r2 : conn_ref) : Z :=
  lsnd_conn_list_cmp_cb (ref_key h r1) (ref_key h r2).

Definition on_conn_list {A} (m : (conn_ref → Z) → (conn_ref → conn_ref → Z) → SM (hash_tab_t T conn_ref) A) : LM A :=
  s ← get;
  zoom l_conn_list set_l_conn_list (m (ref_hash (l_conns s)) (ref_cmp (l_conns s))).

(** The address in an entry: the entries are addresses. *)
Definition entry (r : option conn_ref) : LM (option ptr) :=
  match r with
  | None => mret None
  | Some (At p) => mret (Some p)
  | Some (Key _ _) => crash
  end.

Definition conn_query (sid cid : Z) (lk : lock_e) : LM (option ptr) :=
  r ← on_conn_list (λ hash cmp, hash_tab_query hash cmp (Key sid cid) lk); entry r.
Definition conn_unlock (sid cid : Z) (lk : lock_e) : LM unit :=
  on_conn_list (λ hash _, hash_tab_unlock hash (Key sid cid) lk).
Definition conn_insert (p : ptr) (lk : lock_e) : LM Z :=
  on_conn_list (λ hash cmp, hash_tab_insert hash cmp (At p) lk).
Definition conn_delete (sid cid : Z) (lk : lock_e) : LM (option ptr) :=
  r ← on_conn_list (λ hash cmp, hash_tab_delete hash cmp (Key sid cid) lk); entry r.

(** ** lsnd_comm.c *)

Definition lsnd_acc_reg_add (type : Z) (proc : lsnd_proc) : LM Z :=
  ok ← malloc;
  if negb ok then mret (-1) else
  ret ← zoom l_reg set_l_reg (tr_insert lsnd_acc_reg_cmp_cb (LReg type proc));
  if negb (ret =? 0) then mret (-1) else mret 0.

(** [rtmq_proxy_reg_add] of [lib/rtmq/proxy/rtmq_proxy.c]. *)
Definition RTMQ_ERR_REPEAT_REG : Z := - 2 ^ 31 + 7.
Definition rtmq_proxy_reg_add (type : Z) (proc : lsnd_proc) : LM Z :=
  ok ← malloc;
  if negb ok then mret (-1) else
  ret ← zoom l_upreg set_l_upreg (tr_insert lsnd_acc_reg_cmp_cb (LReg type proc));
  if negb (ret =? 0) then mret RTMQ_ERR_REPEAT_REG else mret 0.

Definition lsnd_kick_add (conn : ptr) : LM Z :=
  ok ← malloc;
  if negb ok then mret (-1) else
  conn_lock rwlock_wrlock conn;;
  wr_conn conn (set_c_stat CHAT_CONN_STAT_KICK);;
  wr_conn conn (set_c_kick_ttl (now + LSND_KICK_TTL));;
  c ← rd_conn conn;
  conn_lock rwlock_unlock conn;;
  on_kick_list (hash_tab_insert lsnd_kick_list_hash_cb lsnd_kick_list_cmp_cb (KickItem (c_cid c) (c_kick_ttl c)) WRLOCK);;
  mret 0.

Definition lsnd_kick_trav_cb (item : lsnd_kick_item_t) : SM (list_t Z * lsnd_cntx_t T) unit :=
  if now <? ki_ttl item then mret tt else on_fst (list_rpush (ki_cid item));; mret tt.

(** The connections are in the list as if they were addresses: 0 ends the loop. *)
Definition lsnd_timer_kick_loop : SM (list_t Z * lsnd_cntx_t T) unit :=
  s ← get;
  loop (list_fuel s.1) (λ _,
    addr ← on_fst list_lpop;
    match addr with
    | None => mret (inr tt)
    | Some cid =>
        if cid =? NULL then mret (inr tt) else
        item ← on_snd (on_kick_list (hash_tab_delete lsnd_kick_list_hash_cb lsnd_kick_list_cmp_cb (KickItem cid 0) WRLOCK));
        match item with
        | None => mret (inl tt)
        | Some _ => on_snd (acc_async_kick cid);; mret (inl tt)
        end
    end) tt.

Definition lsnd_timer_kick_handler : LM unit :=
  timeout_list ← list_creat;
  match timeout_list with
  | None => mret tt
  | Some timeout_list =>
      '(_, timeout_list) ← with_local timeout_list
        (hash_tab_trav (λ s, l_kick_list s.2) (λ h s, (s.1, set_l_kick_list h s.2)) lsnd_kick_trav_cb RDLOCK;;
         lsnd_timer_kick_loop);
      with_local (timeout_list : list_t Z) (list_destroy (λ _, mret tt));;
      mret tt
  end.

Definition lsnd_timer_info_handler : LM unit :=
  s ← get;
  let conf := l_conf s in
  let info := LsndInfo LSND_TYPE_TCP (u32 (lc_nid conf)) (lc_opid conf) (lc_nation conf) (lc_ipaddr conf)
                (u32 (lc_port conf)) (u32 (total (l_conn_list s))) in
  let body := mesg_lsnd_info__pack info in
  ok ← malloc;
  if negb ok then mret tt else
  let head := MHead CMD_LSND_INFO (u32 (Z.of_nat (length body))) 0 0 (u32 (lc_nid conf)) 0 0 0 in
  rtmq_proxy_async_send CMD_LSND_INFO (put_mhead (MESG_HEAD_HTON head) ++ body);;
  mret tt.

Definition lsnd_upload_room_stat_handler (conf : lsnd_conf_t) (room : chat_room_t T) : SM ports unit :=
  let stat := RoomLsnStat (r_rid room) (u32 (lc_nid conf)) (u32 (r_sid_num room)) in
  let body := mesg_room_lsn_stat__pack stat in
  ok ← malloc;
  if negb ok then mret tt else
  let head := MHead CMD_ROOM_LSN_STAT (u32 (Z.of_nat (length body))) 0 0 (u32 (lc_nid conf)) 0 0 0 in
  call_port (RtmqSend CMD_ROOM_LSN_STAT (put_mhead (MESG_HEAD_HTON head) ++ body));;
  mret tt.

(** The rooms and the calls to the outside, as one part of the context. *)
Definition on_chat_ports {A} : SM (chat_tab_t T * ports) A → LM A :=
  zoom (λ s, (l_chat s, l_ports s)) (λ x s, set_l_ports x.2 (set_l_chat x.1 s)).

Definition lsnd_timer_room_stat_handler : LM unit :=
  s ← get;
  on_chat_ports (chat_room_trav (lsnd_upload_room_stat_handler (l_conf s))).

Definition lsnd_timer_room_clean_handler : LM unit := on_chat chat_room_clean_hdl;; mret tt.

Definition lsnd_offline_notify (sid cid nid : Z) : LM unit :=
  ok ← malloc;
  if negb ok then mret tt else
  let head := MHead CMD_OFFLINE 0 sid cid nid 0 0 0 in
  rtmq_proxy_async_send CMD_OFFLINE (put_mhead (MESG_HEAD_HTON head));;
  mret tt.

(** ** lsnd_mesg.c: the messages of the clients

    [data] is the message of [len] bytes the access layer hands over; a message
    shorter than a header is never handed over. *)

Definition with_head {A} (data : list Z) (f : mesg_header_t → list Z → LM A) : LM A :=
  r ← deref (read_mhead data); f r.1 r.2.

Definition lsnd_mesg_def_handler (conn : ptr) (type : Z) (data : list Z) : LM Z :=
  with_head data (λ head body,
    let head := MESG_HEAD_HTON head in
    c ← rd_conn conn;
    let head := set_mh_nid (c_nid c) (set_mh_cid (c_cid c) (set_mh_sid (c_sid c) head)) in
    let head := MESG_HEAD_NTOH head in
    rtmq_proxy_async_send type (put_mhead head ++ body)).

(** The client chooses its session here. *)
Definition lsnd_mesg_online_handler (conn : ptr) (type : Z) (data : list Z) : LM Z :=
  with_head data (λ head body,
    let head := MESG_HEAD_NTOH head in
    s ← get;
    wr_conn conn (set_c_sid (mh_sid head));;
    c ← rd_conn conn;
    let head := set_mh_nid (u32 (lc_nid (l_conf s))) (set_mh_cid (c_cid c) head) in
    ret ← conn_insert conn WRLOCK;
    if negb (ret =? 0) then mret (-1) else
    rtmq_proxy_async_send type (put_mhead (MESG_HEAD_HTON head) ++ body)).

Definition lsnd_mesg_offline_handler (conn : ptr) (type : Z) (data : list Z) : LM Z :=
  with_head data (λ head body,
    let hhead := MESG_HEAD_NTOH head in
    s ← get;
    c ← rd_conn conn;
    let head := set_mh_nid (htonl (u32 (lc_nid (l_conf s)))) (set_mh_cid (hton64 (c_cid c)) head) in
    extra ← conn_query (mh_sid hhead) (c_cid c) RDLOCK;
    match extra with
    | None => mret (-1)
    | Some extra =>
        wr_conn extra (set_c_stat CHAT_CONN_STAT_OFFLINE);;
        conn_unlock (mh_sid hhead) (c_cid c) RDLOCK;;
        rtmq_proxy_async_send CMD_OFFLINE (put_mhead head ++ body);;
        mret (-1)
    end).

Definition lsnd_mesg_room_join_handler (conn : ptr) (type : Z) (data : list Z) : LM Z :=
  with_head data (λ head body,
    let head := MESG_HEAD_NTOH head in
    s ← get;
    let head := set_mh_nid (u32 (lc_nid (l_conf s))) head in
    rtmq_proxy_async_send type (put_mhead (MESG_HEAD_HTON head) ++ body)).

Definition lsnd_mesg_room_quit_handler (conn : ptr) (type : Z) (data : list Z) : LM Z :=
  with_head data (λ head body,
    let head := MESG_HEAD_NTOH head in
    s ← get;
    c ← rd_conn conn;
    let head := set_mh_nid (u32 (lc_nid (l_conf s))) (set_mh_cid (c_cid c) head) in
    quit ← unpack mesg_room_quit__unpack (mh_length head) body;
    match quit with
    | None => mret (-1)
    | Some quit =>
        on_chat (chat_room_del_session (mr_rid quit) (c_sid c) (c_cid c));;
        rtmq_proxy_async_send type (put_mhead (MESG_HEAD_HTON head) ++ body)
    end).

(** The answer is the header alone. *)
Definition lsnd_mesg_ping_handler (conn : ptr) (type : Z) (data : list Z) : LM Z :=
  with_head data (λ head body,
    let head := MESG_HEAD_NTOH head in
    s ← get;
    let head := set_mh_type CMD_PONG (set_mh_nid (u32 (lc_nid (l_conf s))) head) in
    c ← rd_conn conn;
    acc_async_send CMD_PONG (c_cid c) (put_mhead (MESG_HEAD_HTON head));;
    mret 0).

(** ** lsnd_mesg.c: the messages of RTMQ *)

Definition lsnd_mesg_online_ack_logic (ack : MesgOnlineAck) (cid : Z) : LM Z :=
  let sid := oa_sid ack in
  extra ← conn_query sid cid RDLOCK;
  match extra with
  | None => mret (-1)
  | Some extra =>
      c ← rd_conn extra;
      if negb (bool_decide (c_stat c = CHAT_CONN_STAT_ESTABLISH)) then
        lsnd_kick_add extra;; conn_unlock sid cid RDLOCK;; mret (-1)
      else if 0 =? sid then
        lsnd_kick_add extra;; conn_unlock sid cid RDLOCK;; mret (-1)
      else
        conn_lock rwlock_wrlock extra;;
        wr_conn extra (set_c_sid sid);;
        wr_conn extra (set_c_seq (oa_seq ack));;
        wr_conn extra (set_c_stat CHAT_CONN_STAT_ONLINE);;
        wr_conn extra (set_c_app (snprintf_s CHAT_APP_NAME_LEN (oa_app ack))
                         (snprintf_s CHAT_APP_VERS_LEN (oa_version ack)) (oa_terminal ack));;
        conn_lock rwlock_unlock extra;;
        conn_unlock sid cid RDLOCK;;
        old_cid ← on_chat (chat_get_cid_by_sid sid);
        (if negb (0 =? old_cid) && negb (old_cid =? cid) then
           old_extra ← conn_query sid old_cid RDLOCK;
           match old_extra with
           | Some old_extra => lsnd_kick_add old_extra;; conn_unlock sid old_cid RDLOCK
           | None => mret tt
           end
         else mret tt);;
        on_chat (chat_set_sid_to_cid sid cid);;
        mret 0
  end.

Definition lsnd_upmesg_online_ack_handler (type orig : Z) (data : list Z) : LM Z :=
  with_head data (λ head body,
    let hhead := MESG_HEAD_NTOH head in
    ack ← unpack mesg_online_ack__unpack (mh_length hhead) body;
    match ack with
    | None => mret (-1)
    | Some ack =>
        ret ← lsnd_mesg_online_ack_logic ack (mh_cid hhead);
        if negb (ret =? 0) then mret (-1) else
        acc_async_send type (mh_cid hhead) data
    end).

Definition lsnd_upmesg_room_join_ack_handler (type orig : Z) (data : list Z) : LM Z :=
  with_head data (λ head body,
    let hhead := MESG_HEAD_NTOH head in
    ack ← unpack mesg_room_join_ack__unpack (mh_length hhead) body;
    match ack with
    | None => mret 0
    | Some ack =>
        let sid := mh_sid hhead in
        key_cid ← on_chat (chat_get_cid_by_sid sid);
        extra ← conn_query sid key_cid WRLOCK;
        match extra with
        | None => mret 0
        | Some extra =>
            c ← rd_conn extra;
            if negb (bool_decide (c_stat c = CHAT_CONN_STAT_ONLINE)) then
              conn_unlock sid key_cid WRLOCK;; mret 0
            else
              wr_conn extra (set_c_stat CHAT_CONN_STAT_ONLINE);;
              gid ← on_chat (chat_room_add_session now (mr_rid ack) (mr_gid ack) (c_sid c) (c_cid c));
              if u32 (-1) =? gid then conn_unlock sid key_cid WRLOCK;; mret (-1) else
              conn_unlock sid key_cid WRLOCK;;
              acc_async_send type (c_cid c) data
        end
    end).

Definition lsnd_room_mesg_trav_send_handler (type : Z) (data : list Z) (item : chat_sid2cid_item_t) : SM ports unit :=
  call_port (AccSend type (it_cid item) data);; mret tt.

(** The common part of the messages to a room: [all] when the group is not read. *)
Definition room_mesg (f : list Z → option MesgRoom) (gid_of : MesgRoom → Z) (data : list Z) : LM Z :=
  with_head data (λ head body,
    let hhead := MESG_HEAD_NTOH head in
    mesg ← unpack f (mh_length hhead) body;
    match mesg with
    | None => mret (-1)
    | Some mesg =>
        on_chat_ports (chat_room_trav_session (mr_rid mesg) (gid_of mesg)
          (lsnd_room_mesg_trav_send_handler (i32 (mh_type hhead)) data));;
        mret 0
    end).

Definition lsnd_upmesg_room_chat_handler (type orig : Z) (data : list Z) : LM Z :=
  room_mesg mesg_room_chat__unpack mr_gid data.
Definition lsnd_upmesg_room_bc_handler (type orig : Z) (data : list Z) : LM Z :=
  room_mesg mesg_room_bc__unpack (λ _, 0) data.
Definition lsnd_upmesg_room_usr_num_handler (type orig : Z) (data : list Z) : LM Z :=
  room_mesg mesg_room_usr_num__unpack (λ _, 0) data.
Definition lsnd_upmesg_room_quit_ntf_handler (type orig : Z) (data : list Z) : LM Z :=
  room_mesg mesg_room_quit_ntf__unpack (λ _, 0) data.
Definition lsnd_upmesg_room_kick_ntf_handler (type orig : Z) (data : list Z) : LM Z :=
  room_mesg mesg_room_kick_ntf__unpack (λ _, 0) data.
Definition lsnd_upmesg_room_join_ntf_handler (type orig : Z) (data : list Z) : LM Z :=
  room_mesg mesg_room_join_ntf__unpack (λ _, 0) data.

Definition lsnd_upmesg_kick_handler (type orig : Z) (data : list Z) : LM Z :=
  with_head data (λ head body,
    let hhead := MESG_HEAD_NTOH head in
    kick ← unpack mesg_kick__unpack (mh_length hhead) body;
    match kick with
    | None => mret (-1)
    | Some _ =>
        cid ← (if 0 =? mh_cid hhead then on_chat (chat_get_cid_by_sid (mh_sid hhead)) else mret (mh_cid hhead));
        conn ← conn_delete (mh_sid hhead) cid WRLOCK;
        match conn with
        | None => mret (-1)
        | Some conn =>
            c ← rd_conn conn;
            lsnd_kick_add conn;;
            acc_async_send type (c_cid c) data;;
            mret 0
        end
    end).

Definition lsnd_upmesg_def_handler (type orig : Z) (data : list Z) : LM Z :=
  with_head data (λ head body,
    let hhead := MESG_HEAD_NTOH head in
    cid ← (if 0 =? mh_cid hhead then on_chat (chat_get_cid_by_sid (mh_sid hhead)) else mret (mh_cid hhead));
    acc_async_send type cid data;;
    mret 0).

(** ** lsnd_mesg.c: the events of the access layer *)

(** The call of a registered function: one of the other signature is undefined. *)
Definition run_mesg (proc : lsnd_proc) (conn : ptr) (type : Z) (data : list Z) : LM Z :=
  match proc with
  | MesgDef => lsnd_mesg_def_handler conn type data
  | MesgOnline => lsnd_mesg_online_handler conn type data
  | MesgOffline => lsnd_mesg_offline_handler conn type data
  | MesgPing => lsnd_mesg_ping_handler conn type data
  | MesgRoomJoin => lsnd_mesg_room_join_handler conn type data
  | MesgRoomQuit => lsnd_mesg_room_quit_handler conn type data
  | _ => crash
  end.

Definition run_up (proc : lsnd_proc) (type orig : Z) (data : list Z) : LM Z :=
  match proc with
  | UpDef => lsnd_upmesg_def_handler type orig data
  | UpOnlineAck => lsnd_upmesg_online_ack_handler type orig data
  | UpKick => lsnd_upmesg_kick_handler type orig data
  | UpRoomJoinAck => lsnd_upmesg_room_join_ack_handler type orig data
  | UpRoomChat => lsnd_upmesg_room_chat_handler type orig data
  | UpRoomBc => lsnd_upmesg_room_bc_handler type orig data
  | UpRoomUsrNum => lsnd_upmesg_room_usr_num_handler type orig data
  | UpRoomJoinNtf => lsnd_upmesg_room_join_ntf_handler type orig data
  | UpRoomQuitNtf => lsnd_upmesg_room_quit_ntf_handler type orig data
  | UpRoomKickNtf => lsnd_upmesg_room_kick_ntf_handler type orig data
  | _ => crash
  end.

(** [cid] is the identifier the access layer gave to the socket. *)
Definition lsnd_callback_creat_handler (cid : Z) (extra : ptr) : LM Z :=
  s ← get;
  wr_conn extra (λ c, Conn idle 0 (c_seq c) cid (u32 (lc_nid (l_conf s))) (c_uid c) CHAT_CONN_STAT_ESTABLISH
    now now now now (c_kick_ttl c) (c_app_name c) (c_app_vers c) (c_terminal c));;
  mret 0.

Definition lsnd_callback_destroy_handler (extra : ptr) : LM Z :=
  c ← rd_conn extra;
  conn_delete (c_sid c) (c_cid c) WRLOCK;;
  cassert (bool_decide (c_lock c = idle));;
  wr_conn extra (set_c_stat CHAT_CONN_STAT_CLOSED);;
  on_chat (chat_del_session (c_sid c) (c_cid c));;
  lsnd_offline_notify (c_sid c) (c_cid c) (c_nid c);;
  mret 0.

Definition lsnd_callback_recv_handler (conn : ptr) (data : list Z) : LM Z :=
  with_head data (λ head body,
    let hhead := MESG_HEAD_NTOH head in
    conn_lock rwlock_wrlock conn;;
    c ← rd_conn conn;
    if bool_decide (c_stat c = CHAT_CONN_STAT_KICK) then conn_lock rwlock_unlock conn;; mret 0
    else if mh_seq hhead <=? c_seq c then conn_lock rwlock_unlock conn;; mret (-1)
    else
      wr_conn conn (set_c_seq (mh_seq hhead));;
      conn_lock rwlock_unlock conn;;
      let type := i32 (mh_type hhead) in
      reg ← zoom l_reg set_l_reg (tr_query lsnd_acc_reg_cmp_cb (LReg type MesgDef));
      match reg with
      | Some reg => run_mesg (lr_proc reg) conn type data
      | None =>
          c ← rd_conn conn;
          if negb (bool_decide (c_stat c = CHAT_CONN_STAT_ONLINE)) then mret 0 else
          reg ← zoom l_reg set_l_reg (tr_query lsnd_acc_reg_cmp_cb (LReg CMD_UNKNOWN MesgDef));
          match reg with
          | None => mret 0
          | Some reg => run_mesg (lr_proc reg) conn type data
          end
      end).

(** [acc_callback_reason_e]. *)
Inductive acc_callback_reason_e :=
  | ACC_CALLBACK_SCK_CREAT | ACC_CALLBACK_SCK_CLOSED | ACC_CALLBACK_SCK_DESTROY
  | ACC_CALLBACK_RECEIVE | ACC_CALLBACK_WRITEABLE
  | ACC_CALLBACK_ADD_POLL_FD | ACC_CALLBACK_DEL_POLL_FD | ACC_CALLBACK_CHANGE_MODE_POLL_FD
  | ACC_CALLBACK_LOCK_POLL | ACC_CALLBACK_UNLOCK_POLL.

Definition lsnd_callback (cid : Z) (reason : acc_callback_reason_e) (user : ptr) (data : list Z) : LM Z :=
  match reason with
  | ACC_CALLBACK_SCK_CREAT => lsnd_callback_creat_handler cid user
  | ACC_CALLBACK_SCK_CLOSED => mret 0
  | ACC_CALLBACK_SCK_DESTROY => lsnd_callback_destroy_handler user
  | ACC_CALLBACK_RECEIVE => lsnd_callback_recv_handler user data
  | _ => mret 0
  end.

(** ** What happens to the process *)

(** A connection is opened, with the identifier [cid]; it is closed; a message comes
    from it; a message comes from RTMQ; the timer runs its tasks. *)
Inductive lsnd_ev :=
  | EvOpen (cid : Z)
  | EvClose (p : ptr)
  | EvRecv (p : ptr) (data : list Z)
  | EvUp (type orig : Z) (data : list Z)
  | EvKick | EvInfo | EvRoomStat | EvRoomClean.

(** [acc_rsvr_add_conn] allocates the block of the connection, [acc_rsvr_del_conn]
    frees it ([lib/access/acc_rsvr.c]). *)
Definition acc_open (cid : Z) : LM Z :=
  user ← on_conns (halloc conn_zero);
  match user with
  | None => mret (-1)
  | Some user => lsnd_callback cid ACC_CALLBACK_SCK_CREAT user [];; mret 0
  end.

Definition acc_close (user : ptr) : LM Z :=
  c ← rd_conn user;
  lsnd_callback (c_cid c) ACC_CALLBACK_SCK_CLOSED user [];;
  lsnd_callback (c_cid c) ACC_CALLBACK_SCK_DESTROY user [];;
  on_conns (hfree user);;
  mret 0.

(** [rtmq_proxy_worker_cmd_proc_req_hdl] ([lib/rtmq/proxy/rtmq_proxy_worker.c]) on one
    message: the function of its type, or the one of the type 0. *)
Definition proxy_worker_item (type orig : Z) (data : list Z) : LM Z :=
  reg ← zoom l_upreg set_l_upreg (tr_query lsnd_acc_reg_cmp_cb (LReg (i32 type) UpDef));
  match reg with
  | Some reg => run_up (lr_proc reg) (i32 type) orig data
  | None =>
      reg ← zoom l_upreg set_l_upreg (tr_query lsnd_acc_reg_cmp_cb (LReg 0 UpDef));
      match reg with
      | None => mret 0
      | Some reg => run_up (lr_proc reg) (i32 type) orig data
      end
  end.

Definition run_ev (ev : lsnd_ev) : LM Z :=
  match ev with
  | EvOpen cid => acc_open cid
  | EvClose p => acc_close p
  | EvRecv p data =>
      c ← rd_conn p;
      lsnd_callback (c_cid c) ACC_CALLBACK_RECEIVE p data
  | EvUp type orig data => proxy_worker_item type orig data
  | EvKick => lsnd_timer_kick_handler;; mret 0
  | EvInfo => lsnd_timer_info_handler;; mret 0
  | EvRoomStat => lsnd_timer_room_stat_handler;; mret 0
  | EvRoomClean => lsnd_timer_room_clean_handler;; mret 0
  end.
End Ops.

(** ** listend.c *)

Section Init.
Context {T : Type → Type} `{TreeOps T} {pb : Protobuf}.
Abbreviation LM := (SM (lsnd_cntx_t T)).

(** Whether the timer, the proxy, the thread pool and the access layer can be set
    up. *)
Record lsnd_env := LEnv { le_timer : bool; le_frwder : bool; le_pool : bool; le_access : bool }.

(** The steps in their order; the first that fails gives NULL. *)
Definition or_null {A B Σ} (m : SM Σ (option A)) (f : A → SM Σ (option B)) : SM Σ (option B) :=
  r ← m; match r with None => mret None | Some a => f a end.
Definition check {B Σ} (b : bool) (m : SM Σ (option B)) : SM Σ (option B) := if b then m else mret None.

Definition lsnd_init {Σ} (env : lsnd_env) (conf : lsnd_conf_t) : SM Σ (option (lsnd_cntx_t T)) :=
  ok ← malloc;
  if negb ok then mret None else
  or_null tr_creat (λ reg,
  or_null (hash_tab_creat LSND_CONN_HASH_TAB_LEN) (λ conn_list,
  or_null (hash_tab_creat LSND_CONN_HASH_TAB_LEN) (λ kick_list,
  check (le_timer env) (
  or_null (chat_tab_init 1024) (λ chat_tab,
  check (le_frwder env) (
  or_null tr_creat (λ upreg,
  check (le_pool env) (
  check (le_access env) (
  mret (Some (Lsnd conf reg upreg chat_tab conn_list kick_list empty_heap (Ports [] [])))))))))))).

(** The registrations, in the order of the code: [Acc] are those of the macro
    [LSND_ACC_REG_CB], [Rtq] those of [LSND_RTQ_REG_CB]. *)
Inductive registration := Acc (type : Z) (proc : lsnd_proc) | Rtq (type : Z) (proc : lsnd_proc).

Definition registrations : list registration := [
  Acc CMD_UNKNOWN MesgDef;
  Acc CMD_ONLINE MesgOnline; Acc CMD_OFFLINE MesgOffline; Acc CMD_PING MesgPing;
  Acc CMD_CHAT MesgDef; Acc CMD_FRIEND_ADD MesgDef; Acc CMD_FRIEND_DEL MesgDef;
  Acc CMD_BLACKLIST_ADD MesgDef; Acc CMD_BLACKLIST_DEL MesgDef; Acc CMD_GAG_ADD MesgDef;
  Acc CMD_GAG_DEL MesgDef; Acc CMD_MARK_ADD MesgDef; Acc CMD_MARK_DEL MesgDef;
  Acc CMD_ROOM_JOIN MesgRoomJoin; Acc CMD_ROOM_CHAT MesgDef; Acc CMD_ROOM_QUIT MesgRoomQuit;
  Rtq CMD_UNKNOWN UpDef;
  Rtq CMD_ONLINE_ACK UpOnlineAck; Rtq CMD_KICK UpKick;
  Rtq CMD_CHAT_ACK UpDef;
  Acc CMD_FRIEND_ADD_ACK UpDef; Acc CMD_FRIEND_DEL_ACK UpDef; Acc CMD_BLACKLIST_ADD_ACK UpDef;
  Acc CMD_BLACKLIST_DEL_ACK UpDef; Acc CMD_GAG_ADD_ACK UpDef; Acc CMD_GAG_DEL_ACK UpDef;
  Acc CMD_MARK_ADD_ACK UpDef; Acc CMD_MARK_DEL_ACK UpDef;
  Rtq CMD_ROOM_JOIN_ACK UpRoomJoinAck; Rtq CMD_ROOM_CHAT UpRoomChat; Rtq CMD_ROOM_CHAT_ACK UpDef;
  Rtq CMD_ROOM_BC UpRoomBc; Rtq CMD_ROOM_USR_NUM UpRoomUsrNum; Rtq CMD_ROOM_JOIN_NTF UpRoomJoinNtf;
  Rtq CMD_ROOM_QUIT_NTF UpRoomQuitNtf; Rtq CMD_ROOM_KICK_NTF UpRoomKickNtf ].

Fixpoint register_all (l : list registration) : LM Z :=
  match l with
  | [] => mret LSND_OK
  | r :: l' =>
      ret ← match r with Acc type proc => lsnd_acc_reg_add type proc | Rtq type proc => rtmq_proxy_reg_add type proc end;
      if negb (ret =? 0) then mret LSND_ERR else register_all l'
  end.
Definition lsnd_set_reg : LM Z := register_all registrations.
End Init.
