(* ===== verification/LsndSpec.v ===== *)
(** The listener over an abstract state: the connections in memory, the table that
    finds them by session and identifier, the connections to kick, the rooms.  The
    primitive steps of its handlers refine steps on that state. *)
From stdpp Require Import fin_maps gmap.
From S2P Require Import Prelude Heap Table HashTab TabRel TreeRel List Trees Chat ChatSpec ChatRooms ChatOps ChatRefine ChatTrav Bytes Mesg Lsnd.
Open Scope Z_scope.

(** ** Keys of the tables *)

Definition is_type (z : Z) : Prop := 0 ≤ z < 2 ^ 31.
Definition reg_dom (r : lsnd_reg_t) : Prop := is_type (lr_type r).

#[export] Instance lreg_ok : TreeOk lr_type reg_dom lsnd_acc_reg_cmp_cb.
Proof.
  apply cmp_law_diff. unfold reg_dom, is_type. intros x y Hx Hy. unfold lsnd_acc_reg_cmp_cb. apply i32_small. lia.
Qed.

Definition kick_dom (i : lsnd_kick_item_t) : Prop := is_id (ki_cid i).

#[export] Instance kicks_ok : HashOk ki_cid kick_dom lsnd_kick_list_hash_cb lsnd_kick_list_cmp_cb.
Proof.
  constructor; [by intros d [? ?]|done|]. apply cmp_law_diff. intros x y ??. by apply cmp_u64_small.
Qed.

Definition key_dom (k : Z * Z) : Prop := is_id k.1 ∧ is_id k.2.

Section Refs.
Context (junk : ptr → Z * Z) (h : heap lsnd_conn_extra_t).

Definition ref_dom (r : conn_ref) : Prop := key_dom (ref_key junk h r).

#[export] Instance refs_ok : HashOk (ref_key junk h) ref_dom (ref_hash junk h) (ref_cmp junk h).
Proof.
  constructor; [by intros d [[? ?] _]|by intros x y _ _; unfold ref_hash; intros ->|].
  assert (cmp_law (λ d, ((ref_key junk h d).1, (ref_key junk h d).2)) ref_dom (ref_cmp junk h)) as [Hz Ha Ht].
  { apply cmp_law_lex. intros x y [? ?] [? ?]. unfold ref_cmp, lsnd_conn_list_cmp_cb. rewrite !cmp_u64_small by done.
    rewrite (Z.eqb_sym 0). done. }
  constructor; [|exact Ha|exact Ht]. intros x y Hx Hy. rewrite (Hz x y Hx Hy), <-!surjective_pairing. done.
Qed.
End Refs.

(** ** Tables whose data change away from their keys *)

Lemma sorted_ext {D} (cmp cmp' : D → D → Z) (l : list D) :
  (∀ x y, x ∈ l → y ∈ l → cmp' x y = cmp x y) → sorted cmp l → sorted cmp' l.
Proof.
  unfold sorted. intros Hc Hs. induction Hs as [|x l Hs IH Hx]; constructor.
  - apply IH. intros. apply Hc; by right.
  - apply Forall_forall. intros y Hy. rewrite Forall_forall in Hx. rewrite Hc; [by apply Hx|by left|by right].
Qed.

Lemma hrep_ext {T : Type → Type} `{TreeLaws T} {D K} `{Countable K} (key key' : D → K) (dm dm' : D → Prop)
    (hash hash' : D → Z) (cmp cmp' : D → D → Z) (h : hash_tab_t T D) m L :
  (∀ k d, m !! k = Some d → key' d = key d ∧ (dm d → dm' d) ∧ hash' d = hash d) →
  (∀ k d k2 d2, m !! k = Some d → m !! k2 = Some d2 → cmp' d d2 = cmp d d2) →
  hrep key dm hash cmp h m L → hrep key' dm' hash' cmp' h m L.
Proof.
  intros Hd Hc [R1 R2 R3 R4 R5 R6 R7].
  constructor; try done.
  - intros k d Hk. destruct (Hd _ _ Hk) as (Hk2 & Hdd & _). destruct (R6 _ _ Hk) as [He ?]. split; [by rewrite Hk2|auto].
  - intros i t Ht. destruct (R7 _ _ Ht) as (l & Hwf & [S1 S2]). exists l. split; [done|].
    assert (∀ d, d ∈ l → m !! key d = Some d) as Hin by (intros d Hd2; by destruct (proj1 (S2 d) Hd2)).
    constructor.
    + eapply sorted_ext; [|exact S1]. intros x y Hx Hy. apply (Hc _ _ _ _ (Hin _ Hx) (Hin _ Hy)).
    + intros d. rewrite S2. split; intros [Hm Hs].
      * destruct (Hd _ _ Hm) as (He & _ & Hh). unfold slot in *. rewrite He, Hh. done.
      * destruct (R6 _ _ Hm) as [He _]. destruct (Hd _ _ Hm) as (He' & _ & Hh). unfold slot in *.
        rewrite Hh in Hs. split; [|done]. congruence.
Qed.

(** ** The abstract state *)

Record alsnd := ALsnd {
  al_conns : heap lsnd_conn_extra_t;
  al_tab : gmap (Z * Z) ptr;
  al_kick : gmap Z lsnd_kick_item_t;
  al_chat : achat }.

Definition conn_key (c : lsnd_conn_extra_t) : Z * Z := (c_sid c, c_cid c).
Definition conn_at (a : alsnd) (p : ptr) : option lsnd_conn_extra_t := cell (al_conns a) !! p.
Definition set_al_conns x (a : alsnd) : alsnd := ALsnd x (al_tab a) (al_kick a) (al_chat a).
Definition set_al_tab x (a : alsnd) : alsnd := ALsnd (al_conns a) x (al_kick a) (al_chat a).
Definition set_al_kick x (a : alsnd) : alsnd := ALsnd (al_conns a) (al_tab a) x (al_chat a).
Definition set_al_chat x (a : alsnd) : alsnd := ALsnd (al_conns a) (al_tab a) (al_kick a) x.
Definition put_conn (p : ptr) (c : lsnd_conn_extra_t) (a : alsnd) : alsnd := set_al_conns (set_cell p c (al_conns a)) a.

Lemma put_put p c c' a : put_conn p c' (put_conn p c a) = put_conn p c' a.
Proof. unfold put_conn, set_al_conns, set_cell. simpl. by rewrite insert_insert_eq. Qed.
Lemma put_same p c a : conn_at a p = Some c → put_conn p c a = a.
Proof.
  unfold put_conn, set_al_conns, set_cell, conn_at. intros Hc. rewrite insert_id by done. by destruct a as [[] ? ? ?].
Qed.
Lemma conn_put p q c a : conn_at (put_conn p c a) q = if decide (p = q) then Some c else conn_at a q.
Proof. unfold conn_at, put_conn. simpl. apply lookup_insert. Qed.

Lemma list_key (m : gmap (Z * Z) ptr) k r : (At <$> m) !! k = Some r → ∃ p, r = At p ∧ m !! k = Some p.
Proof. rewrite lookup_fmap, fmap_Some. intros (p & ? & ->). eauto. Qed.

(** ** Representation *)

Section Rep.
Context {T : Type → Type} `{TreeLaws T} (junk : ptr → Z * Z) (conf : lsnd_conf_t) (G1 G2 : gmap Z lsnd_reg_t).
Abbreviation st := (lsnd_cntx_t T).
Abbreviation conn_rep h := (hrep (ref_key junk h) (ref_dom junk h) (ref_hash junk h) (ref_cmp junk h)).
Abbreviation kick_rep := (hrep ki_cid kick_dom lsnd_kick_list_hash_cb lsnd_kick_list_cmp_cb).

(** The slot of a session in the table of connections. *)
Definition cslot (sid : Z) : nat := Z.to_nat (sid mod LSND_CONN_HASH_TAB_LEN).

(** The context represents [a]; the locks of the table of connections are in the
    states [L], and the calls to the outside so far are those of [P]. *)
Record lrepL (L : list rwlock) (P : ports) (s : st) (a : alsnd) : Prop := {
  lr_conf : l_conf s = conf;
  lr_reg : tmap lr_type reg_dom lsnd_acc_reg_cmp_cb (l_reg s) G1;
  lr_upreg : tmap lr_type reg_dom lsnd_acc_reg_cmp_cb (l_upreg s) G2;
  lr_chat : chat_rep (l_chat s) (al_chat a);
  lr_conn : conn_rep (l_conns s) (l_conn_list s) (At <$> al_tab a) L;
  lr_len : len (l_conn_list s) = LSND_CONN_HASH_TAB_LEN;
  lr_kick : kick_rep (l_kick_list s) (al_kick a) (idles (len (l_kick_list s)));
  lr_conns : l_conns s = al_conns a;
  lr_ports : l_ports s = P;
}.
Definition Lidle : list rwlock := idles LSND_CONN_HASH_TAB_LEN.
Definition lrep : ports → st → alsnd → Prop := lrepL Lidle.

Lemma cslot_free sid lk : free_at Lidle (cslot sid) lk.
Proof.
  apply free_replicate. unfold cslot. pose proof (Z.mod_pos_bound sid LSND_CONN_HASH_TAB_LEN eq_refl).
  unfold LSND_CONN_HASH_TAB_LEN in *. lia.
Qed.

Lemma cslot_eq L P s a r sid : lrepL L P s a → (ref_key junk (l_conns s) r).1 = sid →
  slot (ref_hash junk (l_conns s)) (len (l_conn_list s)) r = cslot sid.
Proof. intros Hr <-. unfold slot. by rewrite (lr_len _ _ _ _ Hr). Qed.

(** *** Connections in memory *)

Lemma wp_conn_rd L P s a p c (Q : lsnd_conn_extra_t → st → mem → Prop) ms :
  lrepL L P s a → conn_at a p = Some c → Q c s ms → wp (rd_conn p) Q s ms.
Proof.
  intros Hr Hc HQ. unfold rd_conn, on_conns. apply wp_zoom. unfold hrd. wp_steps.
  rewrite (lr_conns _ _ _ _ Hr). unfold conn_at in Hc. rewrite Hc. cbn [deref]. wp_steps.
  rewrite <-(lr_conns _ _ _ _ Hr). by destruct s.
Qed.

(** The table is not disturbed by a change of a connection that keeps its key, or
    that is not in the table. *)
Lemma lrep_put L P s a p c c' :
  lrepL L P s a → conn_at a p = Some c → (conn_key c' = conn_key c ∨ ∀ k, al_tab a !! k ≠ Some p) →
  lrepL L P (set_l_conns (set_cell p c' (l_conns s)) s) (put_conn p c' a).
Proof.
  intros [R1 R2 R3 R4 R5 R6 R7 R8 R9] Hc Hk. constructor; try done; simpl; [|by rewrite R8].
  assert (∀ k r, (At <$> al_tab a) !! k = Some r →
    ref_key junk (set_cell p c' (l_conns s)) r = ref_key junk (l_conns s) r) as Hsame.
  { intros k r (q & -> & Hq)%list_key. simpl. rewrite lookup_insert. case_decide as Hpq; [|done]. subst q.
    destruct Hk as [Hk|Hk]; [|by destruct (Hk k)]. unfold conn_at in Hc. rewrite R8, Hc. exact Hk. }
  eapply hrep_ext; [| |exact R5].
  - intros k r Hr. unfold ref_dom, ref_hash. rewrite (Hsame k r Hr). done.
  - intros k r k2 r2 Hr Hr2. unfold ref_cmp. by rewrite (Hsame k r Hr), (Hsame k2 r2 Hr2).
Qed.

Lemma wp_wr_conn L P s a p c f (Q : unit → st → mem → Prop) ms :
  lrepL L P s a → conn_at a p = Some c → (conn_key (f c) = conn_key c ∨ ∀ k, al_tab a !! k ≠ Some p) →
  (∀ s', lrepL L P s' (put_conn p (f c) a) → Q tt s' ms) → wp (wr_conn p f) Q s ms.
Proof.
  intros Hr Hc Hk HQ. unfold wr_conn, on_conns, hwr. apply wp_zoom. unfold hrd. wp_steps.
  rewrite (lr_conns _ _ _ _ Hr). pose proof Hc as Hc'. unfold conn_at in Hc'. rewrite Hc'. cbn [deref]. wp_steps.
  rewrite <-(lr_conns _ _ _ _ Hr). apply HQ. by eapply lrep_put.
Qed.

(** The lock of a connection is free outside of the handlers: it is taken, and given
    back. *)
Lemma wp_conn_wrlock L P s a p c (Q : unit → st → mem → Prop) ms :
  lrepL L P s a → conn_at a p = Some c → c_lock c = idle →
  (∀ s', lrepL L P s' (put_conn p (set_c_lock {| readers := 0; writer := true |} c) a) → Q tt s' ms) →
  wp (conn_lock rwlock_wrlock p) Q s ms.
Proof.
  intros Hr Hc Hl HQ. unfold conn_lock. apply wp_bind. eapply wp_conn_rd; [done..|]. rewrite Hl. cbn [rwlock_wrlock idle writer readers].
  eapply wp_wr_conn; [done..|by left|]. exact HQ.
Qed.

Lemma wp_conn_unlock L P s a p c (Q : unit → st → mem → Prop) ms :
  lrepL L P s a → conn_at a p = Some c → c_lock c = {| readers := 0; writer := true |} →
  (∀ s', lrepL L P s' (put_conn p (set_c_lock idle c) a) → Q tt s' ms) →
  wp (conn_lock rwlock_unlock p) Q s ms.
Proof.
  intros Hr Hc Hl HQ. unfold conn_lock. apply wp_bind. eapply wp_conn_rd; [done..|]. rewrite Hl. cbn [rwlock_unlock writer readers].
  eapply wp_wr_conn; [done..|by left|]. exact HQ.
Qed.

(** *** The table of connections *)

Lemma lrep_conn_list L L' P s a m h :
  lrepL L P s a → len h = len (l_conn_list s) → conn_rep (l_conns s) h (At <$> m) L' →
  lrepL L' P (set_l_conn_list h s) (set_al_tab m a).
Proof. intros [] Hl Hh. constructor; try done. simpl. congruence. Qed.

Lemma tab_eta a : set_al_tab (al_tab a) a = a.
Proof. by destruct a. Qed.

Lemma wp_conn_query L P s a sid cid lk (Q : option ptr → st → mem → Prop) ms :
  lrepL L P s a → is_id sid → is_id cid → free_at L (cslot sid) lk →
  (∀ s', lrepL (match al_tab a !! (sid, cid) with Some _ => locked (cslot sid) lk L | None => L end) P s' a →
     Q (al_tab a !! (sid, cid)) s' ms) →
  wp (conn_query junk sid cid lk) Q s ms.
Proof.
  intros Hr Hs Hc Hf HQ. unfold conn_query, on_conn_list. wp_steps. apply wp_zoom.
  pose proof (cslot_eq _ _ _ _ (Key sid cid) sid Hr eq_refl) as Hsl.
  eapply wp_mono; [apply (wp_hash_tab_query _ _ _ _ _ _ _ (Key sid cid) lk ms (lr_conn _ _ _ _ Hr)); [done|by rewrite Hsl]|].
  intros r h ms' (Hlen & -> & -> & Hh). rewrite Hsl in Hh. simpl ref_key in *. rewrite lookup_fmap in *.
  destruct (al_tab a !! (sid, cid)) as [p|]; simpl in *; wp_steps; apply HQ;
    rewrite <-(tab_eta a); by eapply lrep_conn_list.
Qed.

Lemma wp_conn_tab_unlock L P s a sid cid lk (Q : unit → st → mem → Prop) ms :
  lrepL (locked (cslot sid) lk L) P s a → is_id sid → is_id cid → free_at L (cslot sid) lk →
  (∀ s', lrepL L P s' a → Q tt s' ms) → wp (Lsnd.conn_unlock junk sid cid lk) Q s ms.
Proof.
  intros Hr Hs Hc Hf HQ. unfold Lsnd.conn_unlock, on_conn_list. wp_steps. apply wp_zoom.
  pose proof (cslot_eq _ _ _ _ (Key sid cid) sid Hr eq_refl) as Hsl.
  apply (wp_hash_tab_unlock (ref_key junk (l_conns s)) (ref_dom junk (l_conns s)) _ (ref_cmp junk (l_conns s)) _ (At <$> al_tab a) L);
    [done|rewrite Hsl; exact (lr_conn _ _ _ _ Hr)|by rewrite Hsl|].
  intros h Hh Hlen. apply HQ. rewrite <-(tab_eta a). by eapply lrep_conn_list.
Qed.

Lemma wp_conn_insert L P s a p c lk (Q : Z → st → mem → Prop) :
  lrepL L P s a → conn_at a p = Some c → key_dom (conn_key c) → free_at L (cslot (c_sid c)) lk →
  (∀ s', lrepL L P s' (match al_tab a !! conn_key c with
                       | Some _ => a | None => set_al_tab (<[conn_key c := p]> (al_tab a)) a end) →
     Q (match al_tab a !! conn_key c with Some _ => TREE_NODE_EXIST | None => TREE_OK end) s' []) →
  wp (conn_insert junk p lk) Q s [].
Proof.
  intros Hr Hp Hk Hf HQ. unfold conn_insert, on_conn_list. wp_steps. apply wp_zoom.
  assert (ref_key junk (l_conns s) (At p) = conn_key c) as Hkey.
  { simpl. rewrite (lr_conns _ _ _ _ Hr). unfold conn_at in Hp. by rewrite Hp. }
  pose proof (cslot_eq _ _ _ _ (At p) (c_sid c) Hr ltac:(by rewrite Hkey)) as Hsl.
  eapply wp_mono; [apply (wp_hash_tab_insert _ _ _ _ _ _ _ (At p) lk [] (lr_conn _ _ _ _ Hr))|].
  - unfold ref_dom. by rewrite Hkey.
  - by rewrite Hsl.
  - intros r h ms' (Hlen & Hm). rewrite Hkey, lookup_fmap in Hm. destruct (al_tab a !! conn_key c) as [q|]; simpl in Hm.
    + destruct Hm as (-> & -> & Hh). apply HQ. rewrite <-(tab_eta a). by eapply lrep_conn_list.
    + destruct Hm as (-> & -> & Hh). apply HQ. eapply lrep_conn_list; [done|done|]. by rewrite fmap_insert.
Qed.

Lemma wp_conn_delete L P s a sid cid lk (Q : option ptr → st → mem → Prop) ms :
  lrepL L P s a → is_id sid → is_id cid → free_at L (cslot sid) lk →
  (∀ s', lrepL L P s' (set_al_tab (delete (sid, cid) (al_tab a)) a) → Q (al_tab a !! (sid, cid)) s' ms) →
  wp (conn_delete junk sid cid lk) Q s ms.
Proof.
  intros Hr Hs Hc Hf HQ. unfold conn_delete, on_conn_list. wp_steps. apply wp_zoom.
  pose proof (cslot_eq _ _ _ _ (Key sid cid) sid Hr eq_refl) as Hsl.
  eapply wp_mono; [apply (wp_hash_tab_delete _ _ _ _ _ _ _ (Key sid cid) lk ms (lr_conn _ _ _ _ Hr)); [done|by rewrite Hsl]|].
  intros r h ms' (Hlen & -> & -> & Hh). simpl ref_key in *. rewrite <-fmap_delete in Hh. rewrite lookup_fmap.
  assert (lrepL L P (set_l_conn_list h s) (set_al_tab (delete (sid, cid) (al_tab a)) a)) as Hl by (by eapply lrep_conn_list).
  destruct (al_tab a !! (sid, cid)) as [p|]; simpl; wp_steps; apply HQ; exact Hl.
Qed.

(** *** The rooms and the kicks *)

Lemma wp_on_chat {A} L P s a (m : SM (chat_tab_t T) A) (Q : A → st → mem → Prop) ms :
  lrepL L P s a →
  wp m (λ r c ms', ∃ b, chat_rep c b ∧
    ∀ s', lrepL L P s' (set_al_chat b a) → Q r s' ms') (l_chat s) ms →
  wp (on_chat m) Q s ms.
Proof.
  intros Hr Hw. apply wp_zoom. eapply wp_mono; [exact Hw|]. intros r c ms' (b & Hb & HQ).
  apply HQ. by destruct Hr.
Qed.

Lemma chat_eta a : set_al_chat (al_chat a) a = a.
Proof. by destruct a. Qed.

Lemma wp_lsnd_get_cid L P s a sid (Q : Z → st → mem → Prop) ms :
  lrepL L P s a → is_id sid →
  (∀ s', lrepL L P s' a → Q (default 0 (ac_cids (al_chat a) !! sid)) s' ms) →
  wp (on_chat (chat_get_cid_by_sid sid)) Q s ms.
Proof.
  intros Hr Hs HQ. eapply wp_on_chat; [done|]. eapply wp_mono; [by apply (wp_get_cid _ _ _ _ _ (lr_chat _ _ _ _ Hr))|].
  intros r c ms' (-> & -> & Hc & Hl). exists (al_chat a). split; [unfold chat_rep; by rewrite Hl|]. by rewrite chat_eta.
Qed.

(** [lsnd_kick_add]: the connection is marked, and waits to be closed. *)
Definition kicked (now : Z) (c : lsnd_conn_extra_t) : lsnd_conn_extra_t :=
  set_c_kick_ttl (now + LSND_KICK_TTL) (set_c_stat CHAT_CONN_STAT_KICK c).
Definition kick_conn (now : Z) (p : ptr) (c : lsnd_conn_extra_t) (a : alsnd) : alsnd :=
  let a := put_conn p (kicked now c) a in
  match al_kick a !! c_cid c with
  | Some _ => a
  | None => set_al_kick (<[c_cid c := KickItem (c_cid c) (now + LSND_KICK_TTL)]> (al_kick a)) a
  end.

Lemma wp_kick_add now L P s a p c (Q : Z → st → mem → Prop) :
  lrepL L P s a → conn_at a p = Some c → c_lock c = idle → is_id (c_cid c) →
  (∀ s', lrepL L P s' (kick_conn now p c a) → Q 0 s' []) →
  wp (lsnd_kick_add now p) Q s [].
Proof.
  intros Hr Hc Hl Hid HQ. unfold lsnd_kick_add. apply wp_bind, wp_malloc_nil. cbn [negb]. apply wp_bind.
  eapply wp_conn_wrlock; [done..|]. intros s1 Hr1. apply wp_bind.
  eapply wp_wr_conn; [done|by rewrite conn_put, decide_True|by left|]. intros s2 Hr2. rewrite put_put in Hr2. apply wp_bind.
  eapply wp_wr_conn; [done|by rewrite conn_put, decide_True|by left|]. intros s3 Hr3. rewrite put_put in Hr3. apply wp_bind.
  eapply wp_conn_rd; [done|by rewrite conn_put, decide_True|]. apply wp_bind.
  eapply wp_conn_unlock; [done|by rewrite conn_put, decide_True|done|]. intros s4 Hr4. rewrite put_put in Hr4. apply wp_bind.
  set (c4 := set_c_lock idle _) in Hr4. assert (c4 = kicked now c) as Hc4 by (destruct c; simpl in *; by subst).
  rewrite Hc4 in Hr4. clear c4 Hc4. unfold on_kick_list. apply wp_zoom.
  destruct Hr4 as [R1 R2 R3 R4 R5 R6 R7 R8 R9].
  eapply wp_mono; [apply (wp_hash_tab_insert _ _ _ _ _ _ _ (KickItem (c_cid c) (now + LSND_KICK_TTL)) WRLOCK [] R7); [done|]|].
  { apply free_replicate. by eapply slot_lt. }
  intros r h ms' (Hlen & Hm). cbn [ki_cid] in Hm. change (al_kick (put_conn p (kicked now c) a)) with (al_kick a) in *.
  wp_steps. unfold kick_conn in HQ. change (al_kick (put_conn p (kicked now c) a)) with (al_kick a) in HQ.
  destruct (al_kick a !! c_cid c) as [i|].
  - destruct Hm as (_ & -> & Hh). apply HQ. constructor; try done. simpl. by rewrite Hlen.
  - destruct Hm as (-> & _ & Hh). apply HQ. constructor; try done. simpl. by rewrite Hlen.
Qed.

(** *** Calls to the outside, and the registries *)

Definition next_answer (P : ports) : Z := default 0 (head (answers P)).
Definition after (l : list port_call) (P : ports) : ports := Ports (calls P ++ l) (drop (length l) (answers P)).

Lemma after_nil P : after [] P = P.
Proof. destruct P. unfold after. simpl. by rewrite app_nil_r. Qed.
Lemma after_app l1 l2 P : after l2 (after l1 P) = after (l1 ++ l2) P.
Proof. unfold after. simpl. by rewrite <-app_assoc, drop_drop, length_app. Qed.

Lemma wp_call_port c P (Q : Z → ports → mem → Prop) ms :
  Q (next_answer P) (after [c] P) ms → wp (call_port c) Q P ms.
Proof.
  intros HQ. unfold call_port. wp_steps. unfold after, next_answer in HQ. simpl in HQ. by destruct (answers P).
Qed.

Lemma lrep_ports L P P' s a : lrepL L P s a → lrepL L P' (set_l_ports P' s) a.
Proof. by intros []. Qed.

Lemma wp_send c L P s a (Q : Z → st → mem → Prop) ms :
  lrepL L P s a → (∀ s', lrepL L (after [c] P) s' a → Q (next_answer P) s' ms) →
  wp (zoom l_ports set_l_ports (call_port c)) Q s ms.
Proof.
  intros Hr HQ. apply wp_zoom, wp_call_port. rewrite (lr_ports _ _ _ _ Hr). apply HQ. by eapply lrep_ports.
Qed.

Lemma wp_query_reg L P s a type (Q : option lsnd_reg_t → st → mem → Prop) ms proc :
  lrepL L P s a → is_type type → (∀ s', lrepL L P s' a → Q (G1 !! type) s' ms) →
  wp (zoom l_reg set_l_reg (tr_query lsnd_acc_reg_cmp_cb (LReg type proc))) Q s ms.
Proof.
  intros Hr Ht HQ. apply wp_zoom. apply (wp_tquery (key := lr_type) (dm := reg_dom) (lr_reg _ _ _ _ Hr)); [done|].
  cbn [lr_type]. apply HQ. by destruct Hr, s.
Qed.

Lemma wp_query_upreg L P s a type (Q : option lsnd_reg_t → st → mem → Prop) ms proc :
  lrepL L P s a → is_type type → (∀ s', lrepL L P s' a → Q (G2 !! type) s' ms) →
  wp (zoom l_upreg set_l_upreg (tr_query lsnd_acc_reg_cmp_cb (LReg type proc))) Q s ms.
Proof.
  intros Hr Ht HQ. apply wp_zoom. apply (wp_tquery (key := lr_type) (dm := reg_dom) (lr_upreg _ _ _ _ Hr)); [done|].
  cbn [lr_type]. apply HQ. by destruct Hr, s.
Qed.

(** The rooms and the calls together. *)
Lemma wp_on_chat_ports {A} L P s a (m : SM (chat_tab_t T * ports) A) (Q : A → st → mem → Prop) ms :
  lrepL L P s a →
  wp m (λ r x ms', ∃ b, chat_rep x.1 b ∧ ∀ s', lrepL L x.2 s' (set_al_chat b a) → Q r s' ms') (l_chat s, P) ms →
  wp (on_chat_ports m) Q s ms.
Proof.
  intros Hr Hw. apply wp_zoom. cbn beta. rewrite (lr_ports _ _ _ _ Hr). eapply wp_mono; [exact Hw|].
  intros r [c p'] ms' (b & Hb & HQ). apply HQ. by destruct Hr.
Qed.

(** A message that is read. *)
Lemma wp_with_head {A} h body (f : mesg_header_t → list Z → SM st A) (Q : A → st → mem → Prop) s ms :
  wp (f (MESG_HEAD_HTON h) body) Q s ms → wp (with_head (packet h body) f) Q s ms.
Proof. intros Hw. unfold with_head. rewrite read_packet. cbn [deref]. apply wp_bind, wp_ret. exact Hw. Qed.

Lemma wp_unpack {A} (f : list Z → option A) n body (Q : option A → st → mem → Prop) s ms :
  0 ≤ n ≤ Z.of_nat (length body) → Q (f (take (Z.to_nat n) body)) s ms → wp (unpack f n body) Q s ms.
Proof.
  intros Hn HQ. unfold unpack, rd_bytes. rewrite decide_True by lia. cbn [deref]. rewrite drop_0. by wp_steps.
Qed.
End Rep.
