(* ===== verification/LsndAbs.v ===== *)
(** The events of the listener as functions on its abstract state: what an event
    answers ([None] for the answer of its last call to the outside), the state it
    leads to, and the calls it makes.  Then what holds of every state the listener
    can reach. *)
From stdpp Require Import fin_maps gmap.
From S2P Require Import Prelude Heap Table HashTab TabRel TreeRel List Trees Chat ChatSpec ChatRooms ChatOps ChatRefine ChatTrav ChatProps Bytes Mesg Lsnd LsndSpec.
Open Scope Z_scope.

(** ** The registered callbacks *)

Definition add_reg (type : Z) (proc : lsnd_proc) (G : gmap Z lsnd_reg_t) : gmap Z lsnd_reg_t := <[type := LReg type proc]> G.
Definition acc_regs : gmap Z lsnd_reg_t :=
  foldl (λ G r, match r with Acc type proc => add_reg type proc G | Rtq _ _ => G end) ∅ registrations.
Definition rtq_regs : gmap Z lsnd_reg_t :=
  foldl (λ G r, match r with Rtq type proc => add_reg type proc G | Acc _ _ => G end) ∅ registrations.

(** The callback of a type, or the one of the unknown type. *)
Definition proc_of (G : gmap Z lsnd_reg_t) (type : Z) : option lsnd_proc := lr_proc <$> G !! type.

Section Abs.
Context {pb : Protobuf} (conf : lsnd_conf_t).

Abbreviation res := (option Z * alsnd * list port_call)%type.
Definition quiet (r : Z) (a : alsnd) : res := (Some r, a, []).

(** A header and what follows it. *)
Abbreviation nid := (u32 (lc_nid conf)).
Definition out_head (h : mesg_header_t) (body : list Z) : list Z := put_mhead (MESG_HEAD_HTON h) ++ body.

(** ** The messages of the clients *)

Definition a_online (p : ptr) (c : lsnd_conn_extra_t) (type : Z) (h : mesg_header_t) (body : list Z) (a : alsnd) : res :=
  let c' := set_c_sid (mh_sid h) c in
  let a := put_conn p c' a in
  match al_tab a !! conn_key c' with
  | Some _ => quiet (-1) a
  | None => (None, set_al_tab (<[conn_key c' := p]> (al_tab a)) a,
             [RtmqSend type (out_head (set_mh_nid nid (set_mh_cid (c_cid c) h)) body)])
  end.

Definition a_offline (c : lsnd_conn_extra_t) (h : mesg_header_t) (body : list Z) (a : alsnd) : res :=
  match al_tab a !! (mh_sid h, c_cid c) with
  | None => quiet (-1) a
  | Some q =>
      match conn_at a q with
      | None => quiet (-1) a
      | Some d => (Some (-1), put_conn q (set_c_stat CHAT_CONN_STAT_OFFLINE d) a,
                   [RtmqSend CMD_OFFLINE (out_head (set_mh_nid nid (set_mh_cid (c_cid c) h)) body)])
      end
  end.

Definition a_quit (c : lsnd_conn_extra_t) (type : Z) (h : mesg_header_t) (body : list Z) (a : alsnd) : res :=
  match mesg_room_quit__unpack (take (Z.to_nat (mh_length h)) body) with
  | None => quiet (-1) a
  | Some quit => (None, set_al_chat (achat_part (mr_rid quit) (conn_key c) (al_chat a)) a,
                  [RtmqSend type (out_head (set_mh_nid nid (set_mh_cid (c_cid c) h)) body)])
  end.

Definition a_mesg (proc : lsnd_proc) (p : ptr) (c : lsnd_conn_extra_t) (type : Z) (h : mesg_header_t) (body : list Z)
    (a : alsnd) : res :=
  match proc with
  | MesgDef => (None, a,
      [RtmqSend type (out_head (set_mh_nid (c_nid c) (set_mh_cid (c_cid c) (set_mh_sid (c_sid c) h))) body)])
  | MesgOnline => a_online p c type h body a
  | MesgOffline => a_offline c h body a
  | MesgPing => (Some 0, a, [AccSend CMD_PONG (c_cid c) (out_head (set_mh_type CMD_PONG (set_mh_nid nid h)) [])])
  | MesgRoomJoin => (None, a, [RtmqSend type (out_head (set_mh_nid nid h) body)])
  | MesgRoomQuit => a_quit c type h body a
  | _ => quiet 0 a
  end.

(** The callback that gets a message of [type] from a connection in the state
    [stat]. *)
Definition recv_proc (type : Z) (stat : lsnd_conn_stat_e) : option lsnd_proc :=
  match proc_of acc_regs type with
  | Some proc => Some proc
  | None => if bool_decide (stat = CHAT_CONN_STAT_ONLINE) then proc_of acc_regs CMD_UNKNOWN else None
  end.

Definition a_recv (p : ptr) (data : list Z) (a : alsnd) : res :=
  match conn_at a p, read_mhead data with
  | Some c, Some (head, body) =>
      let h := MESG_HEAD_NTOH head in
      if bool_decide (c_stat c = CHAT_CONN_STAT_KICK) then quiet 0 a
      else if mh_seq h <=? c_seq c then quiet (-1) a
      else
        let c' := set_c_seq (mh_seq h) c in
        let a := put_conn p c' a in
        match recv_proc (i32 (mh_type h)) (c_stat c) with
        | Some proc => a_mesg proc p c' (i32 (mh_type h)) h body a
        | None => quiet 0 a
        end
  | _, _ => quiet 0 a
  end.

(** ** The messages of RTMQ *)

Definition cid_of (a : alsnd) (sid : Z) : Z := default 0 (ac_cids (al_chat a) !! sid).

Definition to_online (ack : MesgOnlineAck) (c : lsnd_conn_extra_t) : lsnd_conn_extra_t :=
  set_c_app (snprintf_s CHAT_APP_NAME_LEN (oa_app ack)) (snprintf_s CHAT_APP_VERS_LEN (oa_version ack)) (oa_terminal ack)
    (set_c_stat CHAT_CONN_STAT_ONLINE (set_c_seq (oa_seq ack) (set_c_sid (oa_sid ack) c))).

(** The connection the session had before, if it is another one, is kicked. *)
Definition kick_old (now : Z) (sid cid : Z) (a : alsnd) : alsnd :=
  let old := cid_of a sid in
  if negb (0 =? old) && negb (old =? cid) then
    match al_tab a !! (sid, old) with
    | Some q => match conn_at a q with Some d => kick_conn now q d a | None => a end
    | None => a
    end
  else a.

Definition a_online_ack (now : Z) (ack : MesgOnlineAck) (cid type : Z) (data : list Z) (a : alsnd) : res :=
  let sid := oa_sid ack in
  match al_tab a !! (sid, cid) with
  | None => quiet (-1) a
  | Some p =>
      match conn_at a p with
      | None => quiet (-1) a
      | Some c =>
          if negb (bool_decide (c_stat c = CHAT_CONN_STAT_ESTABLISH)) || (0 =? sid) then quiet (-1) (kick_conn now p c a)
          else
            let a := kick_old now sid cid (put_conn p (to_online ack c) a) in
            (None, set_al_chat (on_ac_cids (<[sid := cid]>) (al_chat a)) a, [AccSend type cid data])
      end
  end.

Definition a_join_ack (now : Z) (ack : MesgRoom) (sid type : Z) (data : list Z) (a : alsnd) : res :=
  match al_tab a !! (sid, cid_of a sid) with
  | None => quiet 0 a
  | Some p =>
      match conn_at a p with
      | None => quiet 0 a
      | Some c =>
          if negb (bool_decide (c_stat c = CHAT_CONN_STAT_ONLINE)) then quiet 0 a else
          let x := achat_join now (mr_rid ack) (mr_gid ack) (conn_key c) (al_chat a) in
          let a := set_al_chat x.2 a in
          if u32 (-1) =? x.1 then quiet (-1) a else (None, a, [AccSend type (c_cid c) data])
      end
  end.

(** A message goes to the connection of each member of the group, of the room when
    [gid] is 0. *)
Definition room_sends (a : alsnd) (rid gid type : Z) (data : list Z) : list port_call :=
  (λ k : Z * Z, AccSend type k.2 data) <$>
    match ac_rooms (al_chat a) !! rid with Some r => visits gid r | None => [] end.

Definition a_room (f : list Z → option MesgRoom) (gid_of : MesgRoom → Z) (h : mesg_header_t) (body data : list Z)
    (a : alsnd) : res :=
  match f (take (Z.to_nat (mh_length h)) body) with
  | None => quiet (-1) a
  | Some m => (Some 0, a, room_sends a (mr_rid m) (gid_of m) (i32 (mh_type h)) data)
  end.

(** The connection a message of RTMQ names: by its identifier, or by its session. *)
Definition dest (h : mesg_header_t) (a : alsnd) : Z := if 0 =? mh_cid h then cid_of a (mh_sid h) else mh_cid h.

Definition a_kick (now : Z) (h : mesg_header_t) (body : list Z) (type : Z) (data : list Z) (a : alsnd) : res :=
  match mesg_kick__unpack (take (Z.to_nat (mh_length h)) body) with
  | None => quiet (-1) a
  | Some _ =>
      let k := (mh_sid h, dest h a) in
      match al_tab a !! k with
      | None => quiet (-1) (set_al_tab (delete k (al_tab a)) a)
      | Some p =>
          match conn_at a p with
          | None => quiet (-1) a
          | Some c => (Some 0, kick_conn now p c (set_al_tab (delete k (al_tab a)) a), [AccSend type (c_cid c) data])
          end
      end
  end.

Definition a_up (now : Z) (proc : lsnd_proc) (type : Z) (h : mesg_header_t) (body data : list Z) (a : alsnd) : res :=
  match proc with
  | UpDef => (Some 0, a, [AccSend type (dest h a) data])
  | UpOnlineAck =>
      match mesg_online_ack__unpack (take (Z.to_nat (mh_length h)) body) with
      | None => quiet (-1) a
      | Some ack => a_online_ack now ack (mh_cid h) type data a
      end
  | UpKick => a_kick now h body type data a
  | UpRoomJoinAck =>
      match mesg_room_join_ack__unpack (take (Z.to_nat (mh_length h)) body) with
      | None => quiet 0 a
      | Some ack => a_join_ack now ack (mh_sid h) type data a
      end
  | UpRoomChat => a_room mesg_room_chat__unpack mr_gid h body data a
  | UpRoomBc => a_room mesg_room_bc__unpack (λ _, 0) h body data a
  | UpRoomUsrNum => a_room mesg_room_usr_num__unpack (λ _, 0) h body data a
  | UpRoomJoinNtf => a_room mesg_room_join_ntf__unpack (λ _, 0) h body data a
  | UpRoomQuitNtf => a_room mesg_room_quit_ntf__unpack (λ _, 0) h body data a
  | UpRoomKickNtf => a_room mesg_room_kick_ntf__unpack (λ _, 0) h body data a
  | _ => quiet 0 a
  end.

Definition up_proc (type : Z) : option lsnd_proc :=
  match proc_of rtq_regs type with Some proc => Some proc | None => proc_of rtq_regs CMD_UNKNOWN end.

Definition a_upmesg (now type : Z) (data : list Z) (a : alsnd) : res :=
  match up_proc (i32 type), read_mhead data with
  | Some proc, Some (head, body) => a_up now proc (i32 type) (MESG_HEAD_NTOH head) body data a
  | _, _ => quiet 0 a
  end.

(** ** Connections and timers *)

Definition new_conn (now cid : Z) : lsnd_conn_extra_t :=
  Conn idle 0 0 cid nid 0 CHAT_CONN_STAT_ESTABLISH now now now now 0 [] [] 0.
Definition a_open (now cid : Z) (a : alsnd) : res :=
  let h := al_conns a in
  quiet 0 (set_al_conns (Heap (<[fresh h := new_conn now cid]> (cell h)) (fresh h + 1)) a).

Definition a_close (p : ptr) (a : alsnd) : res :=
  match conn_at a p with
  | None => quiet 0 a
  | Some c =>
      (Some 0, ALsnd (del_cell p (al_conns a)) (delete (conn_key c) (al_tab a)) (al_kick a)
                 (achat_del_session (conn_key c) (al_chat a)),
       [RtmqSend CMD_OFFLINE (out_head (MHead CMD_OFFLINE 0 (c_sid c) (c_cid c) (c_nid c) 0 0 0) [])])
  end.

(** The connections whose time has come. *)
Definition due (now : Z) (a : alsnd) : gmap Z lsnd_kick_item_t := filter (λ x, ki_ttl x.2 ≤ now) (al_kick a).
Definition a_kick_timer (now : Z) (a : alsnd) : res :=
  (Some 0, set_al_kick (filter (λ x, now < ki_ttl x.2) (al_kick a)) a,
   (λ x, AccKick x.1) <$> map_to_list (due now a)).

Definition info_call (a : alsnd) : port_call :=
  let body := mesg_lsnd_info__pack (LsndInfo LSND_TYPE_TCP nid (lc_opid conf) (lc_nation conf) (lc_ipaddr conf)
                (u32 (lc_port conf)) (u32 (Z.of_nat (size (al_tab a))))) in
  RtmqSend CMD_LSND_INFO (out_head (MHead CMD_LSND_INFO (u32 (Z.of_nat (length body))) 0 0 nid 0 0 0) body).

Definition stat_call (rid : Z) (r : aroom) : port_call :=
  let body := mesg_room_lsn_stat__pack (RoomLsnStat rid nid (u32 (Z.of_nat (count (a_groups r))))) in
  RtmqSend CMD_ROOM_LSN_STAT (out_head (MHead CMD_ROOM_LSN_STAT (u32 (Z.of_nat (length body))) 0 0 nid 0 0 0) body).

(** ** Events *)

Definition aev (now : Z) (ev : lsnd_ev) (a : alsnd) : res :=
  match ev with
  | EvOpen cid => a_open now cid a
  | EvClose p => a_close p a
  | EvRecv p data => a_recv p data a
  | EvUp type _ data => a_upmesg now type data a
  | EvKick => a_kick_timer now a
  | EvInfo => (Some 0, a, [info_call a])
  | EvRoomStat => (Some 0, a, (λ x, stat_call x.1 x.2) <$> map_to_list (ac_rooms (al_chat a)))
  | EvRoomClean => (Some 0, set_al_chat (on_ac_rooms clean_rooms (al_chat a)) a, [])
  end.

(** ** What holds of every reachable state *)

(** The connection of the key [k] is there, and is found in the table unless it is
    being kicked. *)
Definition live (a : alsnd) (k : Z * Z) : Prop :=
  ∃ p c, conn_at a p = Some c ∧ conn_key c = k ∧ (al_tab a !! k = Some p ∨ c_stat c = CHAT_CONN_STAT_KICK).

(** A connection outside of the handlers. *)
Record conn_ok (fr : ptr) (p : ptr) (c : lsnd_conn_extra_t) : Prop := {
  co_fresh : p < fr;
  co_lock : c_lock c = idle;
  co_key : key_dom (conn_key c);
  co_cid : c_cid c ≠ 0;
  co_nid : c_nid c = nid;
}.

Record ainv (a : alsnd) : Prop := {
  ai_conn : ∀ p c, conn_at a p = Some c → conn_ok (fresh (al_conns a)) p c;
  ai_cid : ∀ p q c d, conn_at a p = Some c → conn_at a q = Some d → c_cid c = c_cid d → p = q;
  ai_tab : ∀ k p, al_tab a !! k = Some p → ∃ c, conn_at a p = Some c ∧ conn_key c = k;
  ai_sess : ∀ k, is_Some (ac_sessions (al_chat a) !! k) → live a k;
  ai_cids : ∀ sid cid, ac_cids (al_chat a) !! sid = Some cid → live a (sid, cid);
  ai_known : known (al_chat a);
  ai_kick : ∀ cid i, al_kick a !! cid = Some i → cid ≠ 0;
  ai_room : ∀ rid, is_Some (ac_rooms (al_chat a) !! rid) → rid ≠ 0;
}.

(** ** The events that the environment may cause *)

Definition rooms_fit (a : alsnd) : Prop := map_Forall (λ _ r, room_fits r) (ac_rooms (al_chat a)).

(** A message of a client, by the callback that gets it.  A connection in the table
    does not change its session; a session that is in a room does not quit it (the
    two cases the code does not survive, see [LsndProps]); the types whose callback
    has the wrong signature do not come. *)
Definition mesg_fine (proc : lsnd_proc) (p : ptr) (c : lsnd_conn_extra_t) (h : mesg_header_t) (body : list Z) (a : alsnd) : Prop :=
  match proc with
  | MesgDef | MesgPing | MesgRoomJoin => True
  | MesgOnline => is_id (mh_sid h) ∧ ∀ k, al_tab a !! k = Some p → k.1 = mh_sid h
  | MesgOffline => is_id (mh_sid h)
  | MesgRoomQuit => ac_sessions (al_chat a) !! conn_key c = None ∧
      ∀ quit, mesg_room_quit__unpack body = Some quit → is_id (mr_rid quit)
  | _ => False
  end.

(** A body of a message of RTMQ: its length is not beyond the end of the message. *)
Definition body_fine {A} (f : list Z → option A) (h : mesg_header_t) (body : list Z) (ok : A → Prop) : Prop :=
  0 ≤ mh_length h ≤ Z.of_nat (length body) ∧ ∀ x, f (take (Z.to_nat (mh_length h)) body) = Some x → ok x.

Definition room_fine (f : list Z → option MesgRoom) (h : mesg_header_t) (body : list Z) (a : alsnd) : Prop :=
  body_fine f h body (λ m, is_id (mr_rid m)) ∧ rooms_fit a.

Definition up_fine (proc : lsnd_proc) (h : mesg_header_t) (body : list Z) (a : alsnd) : Prop :=
  match proc with
  | UpDef => is_id (mh_sid h)
  | UpOnlineAck => is_id (mh_cid h) ∧ body_fine mesg_online_ack__unpack h body (λ ack, is_id (oa_sid ack))
  | UpKick => is_id (mh_sid h) ∧ is_id (mh_cid h) ∧ body_fine mesg_kick__unpack h body (λ _, True)
  | UpRoomJoinAck => is_id (mh_sid h) ∧
      body_fine mesg_room_join_ack__unpack h body (λ ack, is_id (mr_rid ack) ∧ mr_rid ack ≠ 0)
  | UpRoomChat => room_fine mesg_room_chat__unpack h body a
  | UpRoomBc => room_fine mesg_room_bc__unpack h body a
  | UpRoomUsrNum => room_fine mesg_room_usr_num__unpack h body a
  | UpRoomJoinNtf => room_fine mesg_room_join_ntf__unpack h body a
  | UpRoomQuitNtf => room_fine mesg_room_quit_ntf__unpack h body a
  | UpRoomKickNtf => room_fine mesg_room_kick_ntf__unpack h body a
  | _ => False
  end.

Definition ev_ok (ev : lsnd_ev) (a : alsnd) : Prop :=
  match ev with
  | EvOpen cid => is_id cid ∧ cid ≠ 0 ∧ ∀ p c, conn_at a p = Some c → c_cid c ≠ cid
  | EvClose p => is_Some (conn_at a p)
  | EvRecv p data => ∃ c h body, conn_at a p = Some c ∧ data = packet h body ∧ whole h body ∧ is_type (mh_type h) ∧
      (c_stat c ≠ CHAT_CONN_STAT_KICK → c_seq c < mh_seq h → ∀ proc, recv_proc (mh_type h) (c_stat c) = Some proc →
       mesg_fine proc p c h body a)
  | EvUp type _ data => is_type type ∧ ∃ h body, data = packet h body ∧ mhead_ok h ∧
      ∀ proc, up_proc type = Some proc → up_fine proc h body a
  | EvKick | EvInfo => True
  | EvRoomStat | EvRoomClean => rooms_fit a
  end.

(** ** The invariant is kept *)

Lemma conn_at_key a p q c d : ainv a → conn_at a p = Some c → conn_at a q = Some d → conn_key c = conn_key d → p = q.
Proof. intros Hi Hp Hq Hk. eapply (ai_cid _ Hi); [done..|]. by injection Hk. Qed.

Lemma live_put a p c c' k :
  conn_at a p = Some c → conn_key c' = conn_key c → (c_stat c = CHAT_CONN_STAT_KICK → c_stat c' = CHAT_CONN_STAT_KICK) →
  live a k → live (put_conn p c' a) k.
Proof.
  intros Hp Hk Hs (q & d & Hq & Hd & Ht). destruct (decide (p = q)) as [->|Hne].
  - exists q, c'. rewrite conn_put, decide_True by done. rewrite Hp in Hq. injection Hq as ->.
    split_and!; [done|congruence|]. destruct Ht as [Ht|Ht]; [by left|right; auto].
  - exists q, d. rewrite conn_put, decide_False by done. done.
Qed.

Lemma ainv_put a p c c' :
  ainv a → conn_at a p = Some c → conn_key c' = conn_key c →
  (c_stat c = CHAT_CONN_STAT_KICK → c_stat c' = CHAT_CONN_STAT_KICK) → c_lock c' = idle → c_nid c' = c_nid c →
  ainv (put_conn p c' a).
Proof.
  intros Hi Hp Hk Hs Hl Hn. pose proof (ai_conn _ Hi _ _ Hp) as [C1 C2 C3 C4 C5].
  assert (c_cid c' = c_cid c) as Hcid by (by injection Hk).
  constructor; try apply Hi.
  - intros q d. rewrite conn_put. case_decide as Hq; [intros [= <-]; subst q|intros Hd; by destruct (ai_conn _ Hi _ _ Hd)].
    constructor; [done|done|by rewrite Hk|by rewrite Hcid|congruence].
  - intros q r d e. rewrite !conn_put. repeat case_decide; intros Hd He Heq; simplify_eq; try done.
    + symmetry. eapply (ai_cid _ Hi); [exact He|exact Hp|congruence].
    + eapply (ai_cid _ Hi); [exact Hd|exact Hp|congruence].
    + by eapply (ai_cid _ Hi).
  - intros k q Hq. destruct (ai_tab _ Hi _ _ Hq) as (d & Hd & Hdk). rewrite conn_put. case_decide as Hpq; [|by eauto].
    subst q. exists c'. split; [done|]. rewrite Hp in Hd. injection Hd as <-. congruence.
  - intros k Hx. eapply live_put; [done..|]. by apply (ai_sess _ Hi).
  - intros sid cid Hx. eapply live_put; [done..|]. by apply (ai_cids _ Hi).
Qed.

Lemma ainv_kicks m a : ainv a → (∀ cid i, m !! cid = Some i → cid ≠ 0) → ainv (set_al_kick m a).
Proof. intros Hi Hm. constructor; try apply Hi. done. Qed.

Lemma ainv_kick_conn now p c a : ainv a → conn_at a p = Some c → ainv (kick_conn now p c a).
Proof.
  intros Hi Hp. pose proof (ai_conn _ Hi _ _ Hp) as [C1 C2 C3 C4 C5].
  assert (ainv (put_conn p (kicked now c) a)) as Hi' by (by eapply ainv_put).
  unfold kick_conn. destruct (_ !! _); [done|]. apply ainv_kicks; [done|].
  intros cid i. rewrite lookup_insert_Some. intros [[<- _]|[_ Hx]]; [done|]. by eapply (ai_kick _ Hi).
  Qed.

Lemma ainv_chat b a :
  ainv a → (∀ k, is_Some (ac_sessions b !! k) → live a k) → (∀ sid cid, ac_cids b !! sid = Some cid → live a (sid, cid)) →
  known b → (∀ rid, is_Some (ac_rooms b !! rid) → rid ≠ 0) → ainv (set_al_chat b a).
Proof. intros Hi H1 H2 H3 H4. by constructor; try apply Hi. Qed.

Lemma cid_of_id a sid : ainv a → is_id (cid_of a sid).
Proof.
  intros Hi. unfold cid_of. destruct (ac_cids (al_chat a) !! sid) as [cid|] eqn:Hc; [|done].
  destruct (ai_cids _ Hi _ _ Hc) as (p & c & Hp & Hk & _). destruct (ai_conn _ Hi _ _ Hp) as [_ _ [_ C] _ _].
  rewrite Hk in C. exact C.
Qed.

(** The connection of a session that is looked up. *)
Lemma tab_conn a k p : ainv a → al_tab a !! k = Some p → ∃ c, conn_at a p = Some c ∧ conn_key c = k ∧ conn_ok (fresh (al_conns a)) p c.
Proof. intros Hi Hk. destruct (ai_tab _ Hi _ _ Hk) as (c & Hc & ?). exists c. split_and!; [done..|by apply (ai_conn _ Hi)]. Qed.

Lemma kick_conn_tab now p c a : al_tab (kick_conn now p c a) = al_tab a ∧ al_chat (kick_conn now p c a) = al_chat a.
Proof. unfold kick_conn. by destruct (_ !! _). Qed.

Lemma kick_old_tab now sid cid a :
  al_tab (kick_old now sid cid a) = al_tab a ∧ al_chat (kick_old now sid cid a) = al_chat a.
Proof.
  unfold kick_old. destruct (_ && _); [|done]. destruct (al_tab a !! _) as [q|]; [|done].
  destruct (conn_at a q); [|done]. apply kick_conn_tab.
Qed.

Lemma ainv_kick_old now sid cid a : ainv a → ainv (kick_old now sid cid a).
Proof.
  intros Hi. unfold kick_old. destruct (_ && _); [|done]. destruct (al_tab a !! _) as [q|]; [|done].
  destruct (conn_at a q) eqn:Hq; [|done]. by apply ainv_kick_conn.
Qed.

Lemma tab_live a k p : ainv a → al_tab a !! k = Some p → live a k.
Proof. intros Hi Hk. destruct (ai_tab _ Hi _ _ Hk) as (c & Hc & Hkey). exists p, c. auto. Qed.

Lemma ainv_open now cid a : ainv a → ev_ok (EvOpen cid) a → ainv (a_open now cid a).1.2.
Proof.
  intros Hi (Hid & Hnz & Hfr). unfold a_open, quiet. cbn [fst snd]. remember (fresh (al_conns a)) as p eqn:Hpf.
  assert (∀ q c, cell (al_conns a) !! q = Some c → p ≠ q) as Hne.
  { intros q c Hq ->. destruct (ai_conn _ Hi _ _ Hq) as [Hlt _ _ _ _]. lia. }
  assert (∀ k, live a k → live (set_al_conns (Heap (<[p:=new_conn now cid]> (cell (al_conns a))) (p + 1)) a) k) as Hlive.
  { intros k (q & c & Hq & Hk). exists q, c. split; [|exact Hk]. unfold conn_at. simpl.
    rewrite lookup_insert_ne; [exact Hq|by eapply Hne]. }
  constructor; simpl; try apply Hi.
  - intros q c. unfold conn_at. simpl. rewrite lookup_insert_Some. intros [[<- <-]|[_ Hq]].
    + constructor; simpl; [lia|done|done|done|done].
    + destruct (ai_conn _ Hi _ _ Hq). constructor; try done. lia.
  - intros q r c d. unfold conn_at. simpl. rewrite !lookup_insert_Some.
    intros [[<- <-]|[_ Hq]] [[<- <-]|[_ Hr]] Heq; [done|..].
    + simpl in Heq. by destruct (Hfr _ _ Hr).
    + simpl in Heq. by destruct (Hfr _ _ Hq).
    + by eapply (ai_cid _ Hi).
  - intros k q Hq. destruct (ai_tab _ Hi _ _ Hq) as (c & Hc & Hk). exists c. split; [|done]. unfold conn_at. simpl.
    rewrite lookup_insert_ne; [exact Hc|by eapply Hne].
  - intros k Hk. by apply Hlive, (ai_sess _ Hi).
  - intros sid c Hk. by apply Hlive, (ai_cids _ Hi).
Qed.

Lemma del_session_keys k a :
  ac_sessions (achat_del_session k a) !! k = None ∧
  (∀ k', is_Some (ac_sessions (achat_del_session k a) !! k') → is_Some (ac_sessions a !! k')) ∧
  (∀ sid cid, ac_cids (achat_del_session k a) !! sid = Some cid → ac_cids a !! sid = Some cid ∧ (sid, cid) ≠ k) ∧
  (∀ rid, is_Some (ac_rooms (achat_del_session k a) !! rid) → is_Some (ac_rooms a !! rid)).
Proof.
  destruct k as [sid0 cid0]. unfold achat_del_session. cbn [fst snd].
  assert (∀ sid cid, ac_cids (achat_del_cid sid0 cid0 a) !! sid = Some cid → ac_cids a !! sid = Some cid ∧ (sid, cid) ≠ (sid0, cid0)) as Hc.
  { intros sid cid. unfold achat_del_cid, on_ac_cids. simpl. case_decide as Hd.
    - rewrite lookup_delete_Some. intros [Hne Hm]. split; [done|]. congruence.
    - intros Hm. split; [done|]. intros [= -> ->]. done. }
  change (ac_sessions (achat_del_cid sid0 cid0 a)) with (ac_sessions a).
  change (ac_rooms (achat_del_cid sid0 cid0 a)) with (ac_rooms a).
  destruct (ac_sessions a !! (sid0, cid0)) as [b|] eqn:Hb.
  - cbn [ac_sessions ac_cids ac_rooms]. split_and!; [apply lookup_delete_eq| |exact Hc|].
    + intros k' [x Hx]. apply lookup_delete_Some in Hx as [_ Hx]. by eexists.
    + intros rid [x Hx]. unfold leave_rooms in Hx. rewrite map_lookup_imap in Hx. destruct (ac_rooms a !! rid); [by eexists|done].
  - split_and!; [exact Hb|done|exact Hc|done].
Qed.

Lemma ainv_close p a : ainv a → ainv (a_close p a).1.2.
Proof.
  intros Hi. unfold a_close. destruct (conn_at a p) as [c|] eqn:Hp; [|done]. cbn [fst snd].
  destruct (del_session_keys (conn_key c) (al_chat a)) as (D1 & D2 & D3 & D4).
  assert (∀ k, k ≠ conn_key c → live a k →
    live (ALsnd (del_cell p (al_conns a)) (delete (conn_key c) (al_tab a)) (al_kick a)
            (achat_del_session (conn_key c) (al_chat a))) k) as Hlive.
  { intros k Hk (q & d & Hq & Hd & Ht). exists q, d. unfold conn_at. simpl.
    rewrite !lookup_delete_ne; [done|done|]. intros ->. rewrite Hp in Hq. by injection Hq as <-. }
  constructor; simpl.
  - intros q d. unfold conn_at. simpl. rewrite lookup_delete_Some. intros [_ Hq]. by apply (ai_conn _ Hi).
  - intros q r d e. unfold conn_at. simpl. rewrite !lookup_delete_Some. intros [_ Hq] [_ Hr]. by apply (ai_cid _ Hi).
  - intros k q. rewrite lookup_delete_Some. intros [Hne Hq]. destruct (ai_tab _ Hi _ _ Hq) as (d & Hd & Hk).
    exists d. split; [|done]. unfold conn_at. simpl. rewrite lookup_delete_ne; [done|]. intros ->.
    rewrite Hp in Hd. injection Hd as <-. done.
  - intros k Hk. apply Hlive; [|by apply (ai_sess _ Hi), D2]. intros ->. rewrite D1 in Hk. by destruct Hk.
  - intros sid cid Hk. apply D3 in Hk as [Hk Hne]. apply Hlive; [done|]. by apply (ai_cids _ Hi).
  - destruct (conn_key c) as [sid cid]. apply (known_call (CDelSession sid cid)). apply (ai_known _ Hi).
  - intros cid i. apply (ai_kick _ Hi).
  - intros rid Hr. by apply (ai_room _ Hi), D4.
Qed.

(** A connection that is not in the table, nor kicked, may change its session. *)
Lemma ainv_rekey p c sid a :
  ainv a → conn_at a p = Some c → c_stat c ≠ CHAT_CONN_STAT_KICK → is_id sid → (∀ k, al_tab a !! k = Some p → k.1 = sid) →
  ainv (put_conn p (set_c_sid sid c) a).
Proof.
  intros Hi Hp Hs Hid Hk. destruct (ai_conn _ Hi _ _ Hp) as [C1 C2 [C3 C3'] C4 C5].
  destruct (decide (c_sid c = sid)) as [<-|Hne].
  { eapply ainv_put; [done|exact Hp|done..]. }
  assert (∀ k, al_tab a !! k ≠ Some p) as Hnt.
  { intros k Hkp. destruct (ai_tab _ Hi _ _ Hkp) as (d & Hd & Hdk). rewrite Hp in Hd. injection Hd as <-.
    apply Hne. rewrite <-(Hk _ Hkp), <-Hdk. done. }
  assert (∀ k, live a k → live (put_conn p (set_c_sid sid c) a) k) as Hlive.
  { intros k (q & d & Hq & Hd & Ht). exists q, d. rewrite conn_put. case_decide as Hpq; [|done]. exfalso. subst q.
    rewrite Hp in Hq. injection Hq as <-. destruct Ht as [Ht|Ht]; [by apply (Hnt k)|done]. }
  constructor; try apply Hi.
  - intros q d. rewrite conn_put. case_decide as Hpq; [intros [= <-]; subst q; by constructor|intros Hd; by apply (ai_conn _ Hi)].
  - intros q r d e. rewrite !conn_put. repeat case_decide; intros Hd He Heq; simplify_eq; try done.
    + symmetry. eapply (ai_cid _ Hi); [exact He|exact Hp|by rewrite <-Heq].
    + eapply (ai_cid _ Hi); [exact Hd|exact Hp|done].
    + by eapply (ai_cid _ Hi).
  - intros k q Hq. destruct (ai_tab _ Hi _ _ Hq) as (d & Hd & Hdk). exists d. rewrite conn_put, decide_False; [done|].
    intros ->. by apply (Hnt k).
  - intros k Hx. by apply Hlive, (ai_sess _ Hi).
  - intros sid' cid Hx. by apply Hlive, (ai_cids _ Hi).
Qed.

Lemma ainv_tab_insert p c a :
  ainv a → conn_at a p = Some c → al_tab a !! conn_key c = None → ainv (set_al_tab (<[conn_key c := p]> (al_tab a)) a).
Proof.
  intros Hi Hp Hn.
  assert (∀ k, live a k → live (set_al_tab (<[conn_key c := p]> (al_tab a)) a) k) as Hlive.
  { intros k (q & d & Hq & Hd & Ht). exists q, d. split_and!; [done..|]. destruct Ht as [Ht|Ht]; [left|by right].
    simpl. rewrite lookup_insert_ne; [done|]. intros <-. congruence. }
  constructor; try apply Hi.
  - intros k q. simpl. rewrite lookup_insert_Some. intros [[<- <-]|[_ Hq]]; [by exists c|by apply (ai_tab _ Hi)].
  - intros k Hx. by apply Hlive, (ai_sess _ Hi).
  - intros sid' cid Hx. by apply Hlive, (ai_cids _ Hi).
Qed.

Lemma part_id rid k a : ac_sessions a !! k = None → achat_part rid k a = a.
Proof. intros Hk. unfold achat_part. by rewrite Hk. Qed.

Lemma ainv_mesg proc p c type h body a :
  ainv a → conn_at a p = Some c → c_stat c ≠ CHAT_CONN_STAT_KICK → mesg_fine proc p c h body a →
  ainv (a_mesg proc p c type h body a).1.2.
Proof.
  intros Hi Hp Hs Hf. destruct proc; cbn [a_mesg fst snd quiet]; try done.
  - destruct Hf as [Hid Hk]. unfold a_online, quiet.
    assert (ainv (put_conn p (set_c_sid (mh_sid h) c) a)) as Hi' by (by apply ainv_rekey).
    destruct (al_tab (put_conn _ _ a) !! _) eqn:Ht; cbn [fst snd]; [done|].
    apply ainv_tab_insert; [done|by rewrite conn_put, decide_True|done].
  - unfold a_offline, quiet. destruct (al_tab a !! _) as [q|] eqn:Hq; [|done].
    destruct (conn_at a q) as [d|] eqn:Hd; [|done]. cbn [fst snd].
    destruct (ai_tab _ Hi _ _ Hq) as (d' & Hd' & Hk). rewrite Hd in Hd'. injection Hd' as <-.
    assert (c_cid d = c_cid c) as Hdc by (unfold conn_key in Hk; congruence).
    assert (q = p) as -> by (eapply (ai_cid _ Hi); [exact Hd|exact Hp|exact Hdc]).
    rewrite Hp in Hd. injection Hd as <-. eapply ainv_put; [done|exact Hp|done|done|apply (ai_conn _ Hi _ _ Hp)|done].
  - destruct Hf as [Hk Hq]. unfold a_quit, quiet. destruct (mesg_room_quit__unpack (take _ _)); [|done]. cbn [fst snd].
    by rewrite part_id, chat_eta.
Qed.

Lemma ainv_recv p data a : ainv a → ev_ok (EvRecv p data) a → ainv (a_recv p data a).1.2.
Proof.
  intros Hi (c & h & body & Hp & -> & Hw & Ht & Hf). unfold a_recv. rewrite Hp, read_packet, mhead_ntoh_hton by apply Hw.
  case_bool_decide as Hk; [done|]. destruct (Z.leb_spec (mh_seq h) (c_seq c)) as [Hs|Hs]; [done|].
  assert (i32 (mh_type h) = mh_type h) as -> by (apply i32_small; unfold is_type in *; lia).
  assert (ainv (put_conn p (set_c_seq (mh_seq h) c) a)) as Hi'.
  { eapply ainv_put; [done|exact Hp|done|done|apply (ai_conn _ Hi _ _ Hp)|done]. }
  destruct (recv_proc _ _) as [proc|] eqn:Hproc; [|done]. specialize (Hf Hk Hs _ eq_refl).
  apply ainv_mesg; [done|by rewrite conn_put, decide_True|done|]. by destruct proc.
Qed.

Lemma known_set_cid sid cid a : known a → known (on_ac_cids (<[sid := cid]>) a).
Proof. apply (known_call (CSetCid sid cid)). Qed.

Lemma ainv_online_ack now ack cid type data a : ainv a → ainv (a_online_ack now ack cid type data a).1.2.
Proof.
  intros Hi. unfold a_online_ack, quiet. destruct (al_tab a !! _) as [p|] eqn:Ht; [|done].
  destruct (ai_tab _ Hi _ _ Ht) as (c & Hp & Hk). rewrite Hp.
  destruct (_ || _) eqn:Hst; cbn [fst snd]; [by apply ainv_kick_conn|].
  apply orb_false_iff in Hst as [Hst _]. apply negb_false_iff, bool_decide_eq_true in Hst.
  assert (ainv (put_conn p (to_online ack c) a)) as Hi1.
  { eapply ainv_put; [done|exact Hp| |congruence|apply (ai_conn _ Hi _ _ Hp)|done]. rewrite Hk. unfold conn_key.
    injection Hk as _ <-. done. }
  pose proof (ainv_kick_old now (oa_sid ack) cid _ Hi1) as Hi2.
  destruct (kick_old_tab now (oa_sid ack) cid (put_conn p (to_online ack c) a)) as [Htab Hchat].
  set (a2 := kick_old _ _ _ _) in *. apply ainv_chat; [done|exact (ai_sess _ Hi2)| |apply known_set_cid, Hi2|exact (ai_room _ Hi2)].
  intros sid c2. simpl. rewrite lookup_insert_Some. intros [[<- <-]|[_ Hc]]; [|by apply (ai_cids _ Hi2)].
  eapply tab_live; [done|]. rewrite Htab. exact Ht.
Qed.

Lemma ainv_join_ack now ack sid type data a :
  ainv a → mr_rid ack ≠ 0 → ainv (a_join_ack now ack sid type data a).1.2.
Proof.
  intros Hi Hnz. unfold a_join_ack, quiet. destruct (al_tab a !! _) as [p|] eqn:Ht; [|done].
  destruct (ai_tab _ Hi _ _ Ht) as (c & Hp & Hk). rewrite Hp. destruct (negb _); [done|].
  assert (ainv (set_al_chat (achat_join now (mr_rid ack) (mr_gid ack) (conn_key c) (al_chat a)).2 a)) as Hi'.
  { assert (live a (conn_key c)) as Hl by (rewrite Hk; by eapply tab_live).
    pose proof (ai_known _ Hi) as Hkn. destruct (conn_key c) as [s0 c0].
    apply (known_call (CJoin now (mr_rid ack) (mr_gid ack) s0 c0)) in Hkn. cbn [abs_call] in Hkn.
    assert (ac_cids (achat_join now (mr_rid ack) (mr_gid ack) (s0, c0) (al_chat a)).2 = ac_cids (al_chat a)) as Hcids
      by (unfold achat_join; by destruct (ac_sessions (al_chat a) !! (s0, c0))).
    apply ainv_chat; [done| |rewrite Hcids; apply (ai_cids _ Hi)|exact Hkn|].
    - intros k. unfold achat_join. destruct (ac_sessions (al_chat a) !! (s0, c0)) eqn:Hb; simpl; rewrite lookup_insert; case_decide as Hks;
        [by subst|by apply (ai_sess _ Hi)|by subst|by apply (ai_sess _ Hi)].
    - intros rid. unfold achat_join. destruct (ac_sessions (al_chat a) !! (s0, c0)) eqn:Hb; simpl; [apply (ai_room _ Hi)|].
      unfold enter_rooms. rewrite lookup_insert. case_decide; [by subst|apply (ai_room _ Hi)]. }
  by destruct (_ =? _).
Qed.

Lemma ainv_kick_mesg now h body type data a : ainv a → ainv (a_kick now h body type data a).1.2.
Proof.
  intros Hi. unfold a_kick, quiet. destruct (mesg_kick__unpack _); [|done].
  set (k := (mh_sid h, dest h a)). destruct (al_tab a !! k) as [p|] eqn:Ht; cbn [fst snd].
  2: { rewrite delete_id by done. by rewrite tab_eta. }
  destruct (ai_tab _ Hi _ _ Ht) as (c & Hp & Hk). rewrite Hp. cbn [fst snd].
  pose proof (ainv_kick_conn now _ _ _ Hi Hp) as Hi'.
  assert (kick_conn now p c (set_al_tab (delete k (al_tab a)) a) =
          set_al_tab (delete k (al_tab a)) (kick_conn now p c a)) as ->.
  { unfold kick_conn. simpl. by destruct (al_kick a !! c_cid c). }
  destruct (kick_conn_tab now p c a) as [Htab Hchat].
  assert (conn_at (kick_conn now p c a) p = Some (kicked now c)) as Hkp.
  { assert (conn_at (put_conn p (kicked now c) a) p = Some (kicked now c)) as Hpp by (by rewrite conn_put, decide_True).
    unfold kick_conn. by destruct (al_kick (put_conn p (kicked now c) a) !! c_cid c). }
  assert (∀ k', live (kick_conn now p c a) k' → live (set_al_tab (delete k (al_tab a)) (kick_conn now p c a)) k') as Hlive.
  { intros k' (q & d & Hq & Hd & Hx). destruct (decide (q = p)) as [->|Hne].
    - exists p, d. split_and!; [done..|right]. rewrite Hkp in Hq. by injection Hq as <-.
    - exists q, d. split_and!; [done..|]. destruct Hx as [Hx|Hx]; [left|by right]. rewrite Htab in Hx. simpl.
      rewrite lookup_delete_ne; [done|]. intros <-. congruence. }
  constructor; try apply Hi'.
  - intros k' q. simpl. rewrite lookup_delete_Some. intros [_ Hq]. apply (ai_tab _ Hi'). by rewrite Htab.
  - intros k' Hx. by apply Hlive, (ai_sess _ Hi').
  - intros sid cid Hx. by apply Hlive, (ai_cids _ Hi').
Qed.

Lemma ainv_room f gid_of h body data a : ainv a → ainv (a_room f gid_of h body data a).1.2.
Proof. intros Hi. unfold a_room, quiet. by destruct (f _). Qed.

Lemma ainv_up now type orig data a : ainv a → ev_ok (EvUp type orig data) a → ainv (a_upmesg now type data a).1.2.
Proof.
  intros Hi (Ht & h & body & -> & Hh & Hf). unfold a_upmesg. rewrite read_packet, mhead_ntoh_hton by done.
  assert (i32 type = type) as -> by (apply i32_small; unfold is_type in *; lia).
  destruct (up_proc type) as [proc|]; [|done]. specialize (Hf _ eq_refl).
  destruct proc; cbn [a_up]; try done; try (by apply ainv_room).
  - unfold quiet. destruct (mesg_online_ack__unpack _); [by apply ainv_online_ack|done].
  - by apply ainv_kick_mesg.
  - destruct Hf as (_ & _ & Hf). unfold quiet. destruct (mesg_room_join_ack__unpack _) as [ack|]; [|done].
    apply ainv_join_ack; [done|by apply (Hf ack)].
Qed.

(** Every event keeps the invariant. *)
Lemma ainv_ev now ev a : ainv a → ev_ok ev a → ainv (aev now ev a).1.2.
Proof.
  intros Hi Hok. destruct ev as [cid|p|p data|type orig data| | | |]; cbn [aev fst snd].
  - by apply ainv_open.
  - by apply ainv_close.
  - by apply ainv_recv.
  - by apply (ainv_up _ _ orig).
  - apply ainv_kicks; [done|]. intros cid i Hx. apply map_lookup_filter_Some in Hx as [Hx _]. by eapply (ai_kick _ Hi).
  - done.
  - done.
  - apply ainv_chat; [done|exact (ai_sess _ Hi)|exact (ai_cids _ Hi)|apply (known_call CClean), Hi|].
    intros rid [r Hr]. simpl in Hr. apply map_lookup_filter_Some in Hr as [Hr _]. apply (ai_room _ Hi). eauto.
Qed.

(** The state in which the process starts. *)
Definition alsnd_start : alsnd := ALsnd empty_heap ∅ ∅ achat_empty.

Lemma ainv_start : ainv alsnd_start.
Proof.
  constructor.
  - by intros p c Hp.
  - by intros p q c d Hp.
  - by intros k p Hp.
  - by intros k [x Hx].
  - by intros sid cid Hx.
  - by intros rid g k (r & X & Hr & _).
  - by intros cid i Hx.
  - by intros rid [x Hx].
Qed.
End Abs.
