(* ===== verification/LsndRefine.v ===== *)
(** Each handler of the listener does what its abstract function says. *)
From stdpp Require Import fin_maps gmap.
From S2P Require Import Prelude Heap Table HashTab TabRel TreeRel List Trees Chat ChatSpec ChatRooms ChatOps ChatRefine ChatTrav ChatProps Bytes Mesg Lsnd LsndSpec LsndAbs.
Open Scope Z_scope.

Section Refine.
Context {T : Type → Type} `{TreeLaws T} {pb : Protobuf} (junk : ptr → Z * Z) (conf : lsnd_conf_t) (now : Z).
Abbreviation st := (lsnd_cntx_t T).
Abbreviation res := (option Z * alsnd * list port_call)%type.
Abbreviation nid := (u32 (lc_nid conf)).
Abbreviation lrepL := (lrepL (T := T) junk conf acc_regs rtq_regs).
Abbreviation lrep := (lrep (T := T) junk conf acc_regs rtq_regs).
Abbreviation ainv := (ainv conf).

(** The outcome of an event: the calls of a traversal are made in some order. *)
Definition done_as (P : ports) (x : res) (r : Z) (s' : st) (ms' : mem) : Prop :=
  ms' = [] ∧ r = default (next_answer P) x.1.1 ∧ ∃ l, l ≡ₚ x.2 ∧ lrep (after l P) s' x.1.2.

Lemma done_quiet P r a s : lrep P s a → done_as P (quiet r a) r s [].
Proof. intros Hr. split_and!; [done..|]. exists []. split; [done|]. by rewrite after_nil. Qed.

Lemma done_one P ro a c r s : lrep (after [c] P) s a → r = default (next_answer P) ro → done_as P (ro, a, [c]) r s [].
Proof. intros Hr ->. split_and!; [done..|]. by exists [c]. Qed.

Lemma hton_hton h : mhead_ok h → MESG_HEAD_NTOH (MESG_HEAD_HTON h) = h.
Proof. apply mhead_ntoh_hton. Qed.

(** Enter a handler: the header is read, and brought into the order of the host. *)
#[local] Ltac read_head := apply wp_with_head; rewrite ?hton_hton by done; cbv beta zeta.

(** ** The messages of the clients *)

Lemma wp_def P s a p c type h body :
  lrep P s a → conn_at a p = Some c → mhead_ok h →
  wp (lsnd_mesg_def_handler p type (packet h body)) (done_as P (a_mesg conf MesgDef p c type h body a)) s [].
Proof.
  intros Hr Hc Hh. read_head. apply wp_bind. eapply wp_conn_rd; [exact Hr|exact Hc|].
  eapply wp_send; [exact Hr|]. intros s' Hr'. by apply done_one.
Qed.

Lemma wp_room_join P s a p c type h body :
  lrep P s a → mhead_ok h →
  wp (lsnd_mesg_room_join_handler p type (packet h body)) (done_as P (a_mesg conf MesgRoomJoin p c type h body a)) s [].
Proof.
  intros Hr Hh. read_head. wp_steps. rewrite (lr_conf _ _ _ _ _ _ _ _ Hr).
  eapply wp_send; [exact Hr|]. intros s' Hr'. by apply done_one.
Qed.

Lemma wp_ping P s a p c type h body :
  lrep P s a → conn_at a p = Some c → mhead_ok h →
  wp (lsnd_mesg_ping_handler p type (packet h body)) (done_as P (a_mesg conf MesgPing p c type h body a)) s [].
Proof.
  intros Hr Hc Hh. read_head. wp_steps. rewrite (lr_conf _ _ _ _ _ _ _ _ Hr).
  eapply wp_conn_rd; [exact Hr|exact Hc|]. apply wp_bind. eapply wp_send; [exact Hr|]. intros s' Hr'. wp_steps.
  apply done_one; [|done]. unfold out_head. rewrite app_nil_r. exact Hr'.
Qed.

Lemma wp_online P s a p c type h body :
  lrep P s a → ainv a → conn_at a p = Some c → mhead_ok h → mesg_fine MesgOnline p c h body a →
  wp (lsnd_mesg_online_handler junk p type (packet h body)) (done_as P (a_mesg conf MesgOnline p c type h body a)) s [].
Proof.
  intros Hr Hi Hc Hh [Hs Hk]. read_head. wp_steps. rewrite (lr_conf _ _ _ _ _ _ _ _ Hr).
  pose proof (ai_conn _ _ Hi _ _ Hc) as [_ _ [_ Hcid] _ _].
  eapply wp_wr_conn; [exact Hr|exact Hc| |].
  { destruct (decide (c_sid c = mh_sid h)) as [He|He]; [left; unfold conn_key; simpl; congruence|right].
    intros k Hp. pose proof (Hk _ Hp) as Hk1. destruct (ai_tab _ _ Hi _ _ Hp) as (d & Hd & <-).
    rewrite Hc in Hd. injection Hd as <-. by destruct He. }
  intros s1 Hr1. apply wp_bind. eapply wp_conn_rd; [exact Hr1|by rewrite conn_put, decide_True|]. apply wp_bind.
  eapply wp_conn_insert; [exact Hr1|by rewrite conn_put, decide_True|by split|apply cslot_free|].
  intros s2 Hr2. cbn [a_mesg]. unfold a_online. change (al_tab (put_conn p _ a)) with (al_tab a) in *.
  destruct (al_tab a !! _) as [q|]; simpl negb; cbn match.
  - wp_steps. by apply done_quiet.
  - eapply wp_send; [exact Hr2|]. intros s' Hr'. by apply done_one.
Qed.

Lemma wp_offline P s a p c type h body :
  lrep P s a → ainv a → conn_at a p = Some c → mhead_ok h → mesg_fine MesgOffline p c h body a →
  wp (lsnd_mesg_offline_handler junk p type (packet h body)) (done_as P (a_mesg conf MesgOffline p c type h body a)) s [].
Proof.
  intros Hr Hi Hc Hh Hs. read_head. wp_steps. rewrite (lr_conf _ _ _ _ _ _ _ _ Hr).
  pose proof (ai_conn _ _ Hi _ _ Hc) as [_ _ [_ Hcid] _ _].
  eapply wp_conn_rd; [exact Hr|exact Hc|]. apply wp_bind. eapply wp_conn_query; [exact Hr|exact Hs|exact Hcid|apply cslot_free|].
  intros s1 Hr1. cbn [a_mesg]. unfold a_offline. destruct (al_tab a !! (mh_sid h, c_cid c)) as [q|] eqn:Hq.
  - destruct (ai_tab _ _ Hi _ _ Hq) as (d & Hd & _). rewrite Hd. apply wp_bind.
    eapply wp_wr_conn; [exact Hr1|exact Hd|by left|]. intros s2 Hr2. apply wp_bind.
    eapply wp_conn_tab_unlock; [exact Hr2|exact Hs|exact Hcid|apply cslot_free|]. intros s3 Hr3. apply wp_bind.
    eapply wp_send; [exact Hr3|]. intros s' Hr'. wp_steps. by apply done_one.
  - wp_steps. by apply done_quiet.
Qed.

Lemma part_none rid k a : ac_sessions a !! k = None → achat_part rid k a = a.
Proof. intros Hk. unfold achat_part. by rewrite Hk. Qed.

Lemma wp_quit P s a p c type h body :
  lrep P s a → ainv a → conn_at a p = Some c → whole h body → mesg_fine MesgRoomQuit p c h body a →
  wp (lsnd_mesg_room_quit_handler p type (packet h body)) (done_as P (a_mesg conf MesgRoomQuit p c type h body a)) s [].
Proof.
  intros Hr Hi Hc [Hh Hlen _] [Hk Hrid]. read_head. wp_steps.
  rewrite (lr_conf _ _ _ _ _ _ _ _ Hr).
  pose proof (ai_conn _ _ Hi _ _ Hc) as [_ _ [Hsid Hcid] _ _].
  eapply wp_conn_rd; [exact Hr|exact Hc|]. apply wp_bind. cbn [mh_length set_mh_nid set_mh_cid].
  apply wp_unpack; [lia|]. cbn [a_mesg]. unfold a_quit. rewrite Hlen, Nat2Z.id, firstn_all.
  destruct (mesg_room_quit__unpack body) as [quit|]; [|wp_steps; by apply done_quiet]. apply wp_bind.
  eapply wp_on_chat; [exact Hr|].
  eapply wp_mono; [apply (wp_part _ (al_chat a)); [apply Hr|by apply Hrid|done|done]|].
  intros r c' ms' (_ & -> & Hl & Hrep). rewrite part_none in Hrep by done. unfold conn_key in Hk. rewrite Hk in Hrep.
  exists (al_chat a). split; [unfold chat_rep; by rewrite Hl|]. intros s' Hr'. rewrite part_none by done. rewrite chat_eta in *.
  eapply wp_send; [exact Hr'|]. intros s2 Hr2. by apply done_one.
Qed.

(** ** The messages of RTMQ *)

Lemma wp_updef P s a type orig h body :
  lrep P s a → mhead_ok h → is_id (mh_sid h) →
  wp (lsnd_upmesg_def_handler type orig (packet h body)) (done_as P (a_up now UpDef type h body (packet h body) a)) s [].
Proof.
  intros Hr Hh Hs. read_head. apply wp_bind. cbn [a_up]. unfold dest.
  destruct (0 =? mh_cid h).
  - eapply wp_lsnd_get_cid; [exact Hr|done|]. intros s1 Hr1. apply wp_bind. eapply wp_send; [exact Hr1|].
    intros s2 Hr2. wp_steps. by apply done_one.
  - wp_steps. eapply wp_send; [exact Hr|]. intros s2 Hr2. wp_steps. by apply done_one.
Qed.

Lemma wp_kick P s a type orig h body :
  lrep P s a → ainv a → mhead_ok h → up_fine UpKick h body a →
  wp (lsnd_upmesg_kick_handler now junk type orig (packet h body))
    (done_as P (a_up now UpKick type h body (packet h body) a)) s [].
Proof.
  intros Hr Hi Hh (Hs & Hc & [Hlen _]). read_head. apply wp_bind, wp_unpack; [done|]. cbn [a_up]. unfold a_kick.
  destruct (mesg_kick__unpack _) as [[]|]; [|wp_steps; by apply done_quiet]. apply wp_bind.
  assert (∀ Q : Z → st → mem → Prop, (∀ s', lrep P s' a → Q (dest h a) s' []) →
    wp (if 0 =? mh_cid h then on_chat (chat_get_cid_by_sid (mh_sid h)) else mret (mh_cid h)) Q s []) as Hdest.
  { intros Q HQ. unfold dest in HQ. destruct (0 =? mh_cid h); [|wp_steps; by apply HQ].
    eapply wp_lsnd_get_cid; [exact Hr|done|]. exact HQ. }
  apply Hdest. intros s1 Hr1. apply wp_bind.
  assert (is_id (dest h a)) as Hd by (unfold dest; destruct (0 =? mh_cid h); [by apply (cid_of_id conf)|done]).
  eapply wp_conn_delete; [exact Hr1|done|done|apply cslot_free|]. intros s2 Hr2.
  destruct (al_tab a !! (mh_sid h, dest h a)) as [p|] eqn:Hp; [|wp_steps; by apply done_quiet].
  destruct (tab_conn _ _ _ _ Hi Hp) as (c & Hpc & Hk & [_ Hl [_ Hid] _ _]). rewrite Hpc. apply wp_bind.
  eapply wp_conn_rd; [exact Hr2|exact Hpc|]. apply wp_bind.
  eapply wp_kick_add; [exact Hr2|exact Hpc|done|done|]. intros s3 Hr3. apply wp_bind.
  eapply wp_send; [exact Hr3|]. intros s4 Hr4. wp_steps. by apply done_one.
Qed.

Lemma to_online_key ack c : conn_key (to_online ack c) = (oa_sid ack, c_cid c).
Proof. done. Qed.

(** The writes to a connection that comes online, between its locks. *)
Lemma wp_to_online L P s a p c ack (k : SM st Z) (Q : Z → st → mem → Prop) ms :
  lrepL L P s a → conn_at a p = Some c → c_lock c = idle → c_sid c = oa_sid ack →
  (∀ s', lrepL L P s' (put_conn p (to_online ack c) a) → wp k Q s' ms) →
  wp (conn_lock rwlock_wrlock p;;
      wr_conn p (set_c_sid (oa_sid ack));;
      wr_conn p (set_c_seq (oa_seq ack));;
      wr_conn p (set_c_stat CHAT_CONN_STAT_ONLINE);;
      wr_conn p (set_c_app (snprintf_s CHAT_APP_NAME_LEN (oa_app ack))
                   (snprintf_s CHAT_APP_VERS_LEN (oa_version ack)) (oa_terminal ack));;
      conn_lock rwlock_unlock p;; k) Q s ms.
Proof.
  intros Hr Hc Hl Hs HQ. apply wp_bind. eapply wp_conn_wrlock; [exact Hr|exact Hc|done|]. intros s1 Hr1. apply wp_bind.
  eapply wp_wr_conn; [exact Hr1|by rewrite conn_put, decide_True| |].
  { left. unfold conn_key. simpl. by rewrite Hs. }
  intros s2 Hr2. rewrite put_put in Hr2. apply wp_bind.
  eapply wp_wr_conn; [exact Hr2|by rewrite conn_put, decide_True|by left|].
  intros s3 Hr3. rewrite put_put in Hr3. apply wp_bind.
  eapply wp_wr_conn; [exact Hr3|by rewrite conn_put, decide_True|by left|].
  intros s4 Hr4. rewrite put_put in Hr4. apply wp_bind.
  eapply wp_wr_conn; [exact Hr4|by rewrite conn_put, decide_True|by left|].
  intros s5 Hr5. rewrite put_put in Hr5. apply wp_bind.
  eapply wp_conn_unlock; [exact Hr5|by rewrite conn_put, decide_True|done|].
  intros s6 Hr6. rewrite put_put in Hr6. apply HQ.
  set (c6 := set_c_lock idle _) in Hr6. assert (c6 = to_online ack c) as <-; [|done].
  unfold c6, to_online. rewrite <-Hl. by destruct c.
Qed.

(** The old connection of a session is kicked. *)
Lemma wp_kick_old P s a sid cid (k : SM st Z) (Q : Z → st → mem → Prop) :
  lrep P s a → ainv a → is_id sid →
  (∀ s', lrep P s' (kick_old now sid cid a) → wp k Q s' []) →
  wp (old_cid ← on_chat (chat_get_cid_by_sid sid);
      (if negb (0 =? old_cid) && negb (old_cid =? cid) then
         old_extra ← conn_query junk sid old_cid RDLOCK;
         match old_extra with
         | Some old_extra => lsnd_kick_add now old_extra;; Lsnd.conn_unlock junk sid old_cid RDLOCK
         | None => mret tt
         end
       else mret tt);; k) Q s [].
Proof.
  intros Hr Hi Hs HQ. apply wp_bind. eapply wp_lsnd_get_cid; [exact Hr|done|]. intros s1 Hr1. apply wp_bind.
  unfold kick_old in HQ. fold (cid_of a sid) in *. destruct (_ && _); [|wp_steps; by apply HQ].
  pose proof (cid_of_id _ _ sid Hi) as Hid. apply wp_bind.
  eapply wp_conn_query; [exact Hr1|done|done|apply cslot_free|]. intros s2 Hr2.
  destruct (al_tab a !! (sid, cid_of a sid)) as [q|] eqn:Hq; [|wp_steps; by apply HQ].
  destruct (tab_conn _ _ _ _ Hi Hq) as (d & Hqd & Hk & [_ Hl [_ Hcid] _ _]). rewrite Hqd in HQ. apply wp_bind.
  eapply wp_kick_add; [exact Hr2|exact Hqd|done|done|]. intros s3 Hr3.
  eapply wp_conn_tab_unlock; [exact Hr3|done|done|apply cslot_free|]. intros s4 Hr4. by apply HQ.
Qed.

Lemma wp_online_ack P s a ack cid type data :
  lrep P s a → ainv a → is_id cid → is_id (oa_sid ack) →
  wp (ret ← lsnd_mesg_online_ack_logic now junk ack cid;
      if negb (ret =? 0) then mret (-1) else acc_async_send type cid data)
    (done_as P (a_online_ack now ack cid type data a)) s [].
Proof.
  intros Hr Hi Hc Hs. unfold lsnd_mesg_online_ack_logic, a_online_ack. apply wp_bind. apply wp_bind.
  eapply wp_conn_query; [exact Hr|done|done|apply cslot_free|]. intros s1 Hr1.
  destruct (al_tab a !! (oa_sid ack, cid)) as [p|] eqn:Hp; [|cbv zeta; wp_steps; by apply done_quiet].
  destruct (tab_conn _ _ _ _ Hi Hp) as (c & Hpc & Hk & [_ Hl [Hsid Hid] _ _]). rewrite Hpc. apply wp_bind.
  eapply wp_conn_rd; [exact Hr1|exact Hpc|]. injection Hk as Hks Hkc.
  assert (wp (lsnd_kick_add now p;; Lsnd.conn_unlock junk (oa_sid ack) cid RDLOCK;; mret (-1))
    (λ r, wp (if negb (r =? 0) then mret (-1) else acc_async_send type cid data)
            (done_as P (quiet (-1) (kick_conn now p c a)))) s1 []) as Hkick.
  { apply wp_bind. eapply wp_kick_add; [exact Hr1|exact Hpc|done|done|]. intros s2 Hr2. apply wp_bind.
    eapply wp_conn_tab_unlock; [exact Hr2|done|done|apply cslot_free|]. intros s3 Hr3. wp_steps. simpl negb. cbn match. wp_steps.
    by apply done_quiet. }
  destruct (negb (bool_decide (c_stat c = CHAT_CONN_STAT_ESTABLISH))) eqn:Hst; [exact Hkick|].
  destruct (0 =? oa_sid ack) eqn:Hz; [exact Hkick|]. cbn [orb]. clear Hkick.
  eapply wp_to_online; [exact Hr1|exact Hpc|done|done|]. intros s2 Hr2. apply wp_bind.
  eapply wp_conn_tab_unlock; [exact Hr2|done|done|apply cslot_free|]. intros s3 Hr3.
  set (a1 := put_conn p (to_online ack c) a) in *.
  assert (ainv a1) as Hi1.
  { eapply ainv_put; [exact Hi|exact Hpc|rewrite to_online_key; unfold conn_key; congruence| |done|done].
    intros Hkk. apply negb_false_iff, bool_decide_eq_true in Hst. congruence. }
  eapply wp_kick_old; [exact Hr3|exact Hi1|done|]. intros s4 Hr4. apply wp_bind.
  eapply wp_on_chat; [exact Hr4|]. eapply wp_mono; [apply wp_set_cid; [apply Hr4|done]|].
  intros r c' ms' (-> & -> & Hrep). eexists. split; [exact Hrep|]. intros s5 Hr5. wp_steps. simpl negb. cbn match.
  eapply wp_send; [exact Hr5|]. intros s6 Hr6. by apply done_one.
Qed.

Lemma wp_up_online_ack P s a type orig h body :
  lrep P s a → ainv a → mhead_ok h → up_fine UpOnlineAck h body a →
  wp (lsnd_upmesg_online_ack_handler now junk type orig (packet h body))
    (done_as P (a_up now UpOnlineAck type h body (packet h body) a)) s [].
Proof.
  intros Hr Hi Hh (Hc & Hlen & Hok). read_head. apply wp_bind, wp_unpack; [done|]. cbn [a_up].
  destruct (mesg_online_ack__unpack _) as [ack|] eqn:Hack; [|wp_steps; by apply done_quiet].
  apply wp_online_ack; [done|done|done|by apply Hok].
Qed.

Lemma stat_same c x : c_stat c = x → set_c_stat x c = c.
Proof. destruct c. simpl. by intros <-. Qed.

Lemma wp_join_ack P s a type orig h body :
  lrep P s a → ainv a → mhead_ok h → up_fine UpRoomJoinAck h body a →
  wp (lsnd_upmesg_room_join_ack_handler now junk type orig (packet h body))
    (done_as P (a_up now UpRoomJoinAck type h body (packet h body) a)) s [].
Proof.
  intros Hr Hi Hh (Hs & Hlen & Hok). read_head. apply wp_bind, wp_unpack; [done|]. cbn [a_up].
  destruct (mesg_room_join_ack__unpack _) as [ack|] eqn:Hack; [|wp_steps; by apply done_quiet].
  destruct (Hok _ eq_refl) as [Hrid _]. unfold a_join_ack. apply wp_bind.
  eapply wp_lsnd_get_cid; [exact Hr|done|]. intros s1 Hr1. fold (cid_of a (mh_sid h)).
  pose proof (cid_of_id _ _ (mh_sid h) Hi) as Hcid. apply wp_bind.
  eapply wp_conn_query; [exact Hr1|done|done|apply cslot_free|]. intros s2 Hr2.
  destruct (al_tab a !! (mh_sid h, cid_of a (mh_sid h))) as [p|] eqn:Hp; [|wp_steps; by apply done_quiet].
  destruct (tab_conn _ _ _ _ Hi Hp) as (c & Hpc & Hk & [_ Hl [Hsid Hid] _ _]). rewrite Hpc. apply wp_bind.
  eapply wp_conn_rd; [exact Hr2|exact Hpc|].
  destruct (negb (bool_decide (c_stat c = CHAT_CONN_STAT_ONLINE))) eqn:Hst.
  - apply wp_bind. eapply wp_conn_tab_unlock; [exact Hr2|done|done|apply cslot_free|]. intros s3 Hr3. wp_steps. by apply done_quiet.
  - apply wp_bind. eapply wp_wr_conn; [exact Hr2|exact Hpc|by left|]. intros s3 Hr3.
    rewrite put_same in Hr3.
    2: { rewrite Hpc. f_equal. apply negb_false_iff, bool_decide_eq_true in Hst. by rewrite stat_same. }
    apply wp_bind. eapply wp_on_chat; [exact Hr3|].
    eapply wp_mono; [apply wp_join; [apply Hr3|done|done|done]|].
    intros r c' ms' (-> & -> & Hrep). eexists. split; [exact Hrep|]. intros s4 Hr4.
    change (c_sid c, c_cid c) with (conn_key c) in *. destruct (u32 (-1) =? _); apply wp_bind.
    + eapply wp_conn_tab_unlock; [exact Hr4|done|done|apply cslot_free|]. intros s5 Hr5. wp_steps. by apply done_quiet.
    + eapply wp_conn_tab_unlock; [exact Hr4|done|done|apply cslot_free|]. intros s5 Hr5.
      eapply wp_send; [exact Hr5|]. intros s6 Hr6. by apply done_one.
Qed.

(** A message to a room reaches the connections of the members, in some order. *)
Lemma wp_room P s a f gid_of h body data (Hdata : data = packet h body) :
  lrep P s a → mhead_ok h → room_fine f h body a →
  wp (room_mesg f gid_of data) (done_as P (a_room f gid_of h body data a)) s [].
Proof.
  intros Hr Hh [[Hlen Hok] Hfit]. subst data. unfold room_mesg. read_head. apply wp_bind, wp_unpack; [done|].
  unfold a_room. destruct (f _) as [m|] eqn:Hm; [|wp_steps; by apply done_quiet].
  set (data := packet h body). apply wp_bind. eapply wp_on_chat_ports; [exact Hr|].
  eapply wp_mono.
  { eapply (wp_room_trav _ (λ ks P' ms', ms' = [] ∧
      P' = after ((λ k : Z * Z, AccSend (i32 (mh_type h)) k.2 data) <$> ks) P)).
    - intros ks i P' ms' [-> ->]. unfold lsnd_room_mesg_trav_send_handler. apply wp_bind, wp_call_port. wp_steps.
      split; [done|]. by rewrite after_app, fmap_app.
    - apply Hr.
    - by apply Hok.
    - intros r Hrm. by eapply Hfit.
    - split; [done|]. by rewrite after_nil. }
  intros ret [c P'] ms' (-> & Hrep & ks & Hks & -> & HP'). simpl in HP'. subst P'.
  exists (al_chat a). split; [exact Hrep|]. intros s1 Hr1. rewrite chat_eta in Hr1. wp_steps.
  split_and!; [done..|]. eexists. split; [|exact Hr1]. simpl. unfold room_sends. apply fmap_Permutation. exact Hks.
Qed.

(** ** Connections *)

Lemma wp_open P s a cid :
  lrep P s a → ainv a →
  wp (acc_open now junk cid) (done_as P (a_open conf now cid a)) s [].
Proof.
  intros Hr Hi. unfold acc_open. apply wp_bind. unfold on_conns, halloc. apply wp_zoom.
  apply wp_bind, wp_malloc_nil. wp_steps. unfold lsnd_callback, lsnd_callback_creat_handler. apply wp_bind, wp_bind.
  wp_steps. unfold wr_conn, on_conns, hwr. apply wp_zoom. unfold hrd. wp_steps. simpl. rewrite lookup_insert_eq. cbn [deref].
  wp_steps. split_and!; [done..|]. exists []. split; [done|]. rewrite after_nil. unfold a_open, quiet. cbn [fst snd].
  rewrite (lr_conns _ _ _ _ _ _ _ _ Hr), (lr_conf _ _ _ _ _ _ _ _ Hr).
  assert (cell (al_conns a) !! fresh (al_conns a) = None) as Hfr.
  { destruct (cell (al_conns a) !! fresh (al_conns a)) as [c|] eqn:Hc; [|done].
    pose proof (ai_conn _ _ Hi _ _ Hc) as [Hlt _ _ _ _]. lia. }
  destruct Hr as [R1 R2 R3 R4 R5 R6 R7 R8 R9]. constructor; try done; simpl.
  2: { unfold set_cell. simpl. rewrite insert_insert_eq. by unfold new_conn, conn_zero. }
  rewrite R8 in R5.
  assert (∀ k r, (At <$> al_tab a) !! k = Some r →
    ref_key junk (set_cell (fresh (al_conns a)) (new_conn conf now cid)
      (Heap (<[fresh (al_conns a):=conn_zero]> (cell (al_conns a))) (fresh (al_conns a) + 1))) r
    = ref_key junk (al_conns a) r) as Hsame.
  { intros k r (q & -> & Hq)%list_key. simpl. destruct (ai_tab _ _ Hi _ _ Hq) as (d & Hd & _). unfold conn_at in Hd.
    rewrite !lookup_insert_ne; [done|congruence|congruence]. }
  eapply hrep_ext; [| |exact R5].
  - intros k r Hk. unfold ref_dom, ref_hash. rewrite <-(Hsame k r Hk). done.
  - intros k r k2 r2 Hk Hk2. unfold ref_cmp. rewrite <-(Hsame k r Hk), <-(Hsame k2 r2 Hk2). done.
Qed.

(** The table has forgotten a connection before its memory is freed. *)
Lemma lrep_free L P s a p :
  lrepL L P s a → (∀ k, al_tab a !! k ≠ Some p) →
  lrepL L P (set_l_conns (del_cell p (l_conns s)) s) (set_al_conns (del_cell p (al_conns a)) a).
Proof.
  intros [R1 R2 R3 R4 R5 R6 R7 R8 R9] Hne. constructor; try done; simpl; [|by rewrite R8].
  assert (∀ k r, (At <$> al_tab a) !! k = Some r → ref_key junk (del_cell p (l_conns s)) r = ref_key junk (l_conns s) r) as Hsame.
  { intros k r (q & -> & Hq)%list_key. simpl. rewrite lookup_delete_ne; [done|]. intros <-. by destruct (Hne k). }
  eapply hrep_ext; [| |exact R5].
  - intros k r Hk. unfold ref_dom, ref_hash. rewrite (Hsame k r Hk). done.
  - intros k r k2 r2 Hk Hk2. unfold ref_cmp. rewrite (Hsame k r Hk), (Hsame k2 r2 Hk2). done.
Qed.

Lemma wp_close P s a p :
  lrep P s a → ainv a → is_Some (conn_at a p) → wp (acc_close now junk p) (done_as P (a_close p a)) s [].
Proof.
  intros Hr Hi [c Hc]. unfold acc_close, lsnd_callback, lsnd_callback_destroy_handler, a_close. rewrite Hc.
  pose proof (ai_conn _ _ Hi _ _ Hc) as [_ Hl [Hsid Hcid] _ _]. apply wp_bind.
  eapply wp_conn_rd; [exact Hr|exact Hc|]. wp_steps. eapply wp_conn_rd; [exact Hr|exact Hc|]. apply wp_bind.
  eapply wp_conn_delete; [exact Hr|done|done|apply cslot_free|]. intros s1 Hr1. rewrite Hl, bool_decide_true by done.
  cbn [cassert]. wp_steps. eapply wp_wr_conn; [exact Hr1|exact Hc|by left|]. intros s2 Hr2. apply wp_bind.
  eapply wp_on_chat; [exact Hr2|]. eapply wp_mono; [apply wp_del_session; [apply Hr2|done|done]|].
  intros r c' ms' (-> & -> & Hrep). eexists. split; [exact Hrep|]. intros s3 Hr3. unfold lsnd_offline_notify.
  apply wp_bind, wp_bind, wp_malloc_nil. cbn [negb]. cbv zeta. apply wp_bind. eapply wp_send; [exact Hr3|]. intros s4 Hr4. wp_steps.
  unfold on_conns, hfree. apply wp_zoom. unfold hrd. wp_steps.
  assert (cell (l_conns s4) !! p = Some (set_c_stat CHAT_CONN_STAT_CLOSED c)) as Hp4.
  { rewrite (lr_conns _ _ _ _ _ _ _ _ Hr4). apply lookup_insert_eq. }
  rewrite Hp4. cbn [deref]. wp_steps.
  apply done_one; [|done]. unfold out_head. rewrite app_nil_r. eapply lrep_free in Hr4.
  - assert (del_cell p (set_cell p (set_c_stat CHAT_CONN_STAT_CLOSED c) (al_conns a)) = del_cell p (al_conns a)) as Hdel.
    { unfold del_cell, set_cell. simpl. by rewrite delete_insert_eq. }
    unfold set_al_conns in Hr4. simpl al_conns in Hr4. rewrite Hdel in Hr4. exact Hr4.
  - simpl. intros k Hk. apply lookup_delete_Some in Hk as [Hne Hk]. destruct (ai_tab _ _ Hi _ _ Hk) as (d & Hd & Hdk).
    rewrite Hc in Hd. injection Hd as <-. by destruct Hne.
Qed.

(** ** Dispatch *)

Lemma type_i32 z : is_type z → i32 z = z.
Proof. intros. apply i32_small. unfold is_type in *. lia. Qed.

Lemma wp_run_mesg P s a proc p c type h body :
  lrep P s a → ainv a → conn_at a p = Some c → whole h body → mesg_fine proc p c h body a →
  wp (run_mesg junk proc p type (packet h body)) (done_as P (a_mesg conf proc p c type h body a)) s [].
Proof.
  intros Hr Hi Hc Hw Hf. pose proof (wh_head _ _ Hw) as Hh.
  destruct proc; cbn [run_mesg]; try contradiction.
  - by apply wp_def.
  - by apply wp_online.
  - by apply wp_offline.
  - by apply wp_ping.
  - by apply wp_room_join.
  - by apply wp_quit.
Qed.

Lemma wp_run_up P s a proc type orig h body :
  lrep P s a → ainv a → mhead_ok h → up_fine proc h body a →
  wp (run_up now junk proc type orig (packet h body)) (done_as P (a_up now proc type h body (packet h body) a)) s [].
Proof.
  intros Hr Hi Hh Hf. destruct proc; cbn [run_up]; try contradiction.
  - apply wp_updef; assumption.
  - apply wp_up_online_ack; assumption.
  - apply wp_kick; assumption.
  - apply wp_join_ack; assumption.
  - apply (wp_room _ _ _ mesg_room_chat__unpack); [reflexivity|assumption..].
  - apply (wp_room _ _ _ mesg_room_bc__unpack); [reflexivity|assumption..].
  - apply (wp_room _ _ _ mesg_room_usr_num__unpack); [reflexivity|assumption..].
  - apply (wp_room _ _ _ mesg_room_join_ntf__unpack); [reflexivity|assumption..].
  - apply (wp_room _ _ _ mesg_room_quit_ntf__unpack); [reflexivity|assumption..].
  - apply (wp_room _ _ _ mesg_room_kick_ntf__unpack); [reflexivity|assumption..].
Qed.

Lemma wp_up P s a type orig data :
  lrep P s a → ainv a → ev_ok (EvUp type orig data) a →
  wp (proxy_worker_item now junk type orig data) (done_as P (a_upmesg now type data a)) s [].
Proof.
  intros Hr Hi (Ht & h & body & -> & Hh & Hf). unfold proxy_worker_item, a_upmesg. rewrite type_i32 by done.
  rewrite read_packet, hton_hton by done. apply wp_bind.
  eapply wp_query_upreg; [exact Hr|done|]. intros s1 Hr1. unfold up_proc, proc_of in *.
  destruct (rtq_regs !! type) as [reg|]; cbn [fmap option_fmap option_map] in *.
  - apply wp_run_up; auto.
  - apply wp_bind. eapply wp_query_upreg; [exact Hr1|done|]. intros s2 Hr2.
    change (rtq_regs !! 0) with (Some (LReg CMD_UNKNOWN UpDef)) in *.
    change (rtq_regs !! CMD_UNKNOWN) with (Some (LReg CMD_UNKNOWN UpDef)) in *.
    cbn [fmap option_fmap option_map lr_proc] in *. apply wp_run_up; auto.
Qed.

Lemma wp_recv P s a p data :
  lrep P s a → ainv a → ev_ok (EvRecv p data) a →
  wp (lsnd_callback_recv_handler junk p data) (done_as P (a_recv conf p data a)) s [].
Proof.
  intros Hr Hi (c & h & body & Hc & -> & Hw & Ht & Hf). unfold lsnd_callback_recv_handler, a_recv.
  pose proof (wh_head _ _ Hw) as Hh. pose proof (ai_conn _ _ Hi _ _ Hc) as [_ Hl _ _ _].
  rewrite Hc, read_packet, hton_hton by done. read_head. apply wp_bind.
  eapply wp_conn_wrlock; [exact Hr|exact Hc|done|]. intros s1 Hr1. apply wp_bind.
  eapply wp_conn_rd; [exact Hr1|by rewrite conn_put, decide_True|]. cbn [set_c_lock c_stat c_seq].
  assert (∀ x (Q : Z → st → mem → Prop), (∀ s', lrep P s' a → wp (mret x) Q s' []) →
    wp (conn_lock rwlock_unlock p;; mret x) Q s1 []) as Hout.
  { intros x Q HQ. apply wp_bind. eapply wp_conn_unlock; [exact Hr1|by rewrite conn_put, decide_True|done|]. intros s2 Hr2.
    rewrite put_put in Hr2. assert (set_c_lock idle (set_c_lock {| readers := 0; writer := true |} c) = c) as Heq.
    { rewrite <-Hl. by destruct c. }
    rewrite Heq, put_same in Hr2 by done. by apply HQ. }
  case_bool_decide as Hk; [apply Hout; intros s2 Hr2; wp_steps; by apply done_quiet|].
  destruct (Z.leb_spec (mh_seq h) (c_seq c)) as [Hseq|Hseq]; [apply Hout; intros s2 Hr2; wp_steps; by apply done_quiet|].
  clear Hout. apply wp_bind. eapply wp_wr_conn; [exact Hr1|by rewrite conn_put, decide_True|by left|]. intros s2 Hr2.
  rewrite put_put in Hr2. apply wp_bind.
  eapply wp_conn_unlock; [exact Hr2|by rewrite conn_put, decide_True|done|]. intros s3 Hr3. rewrite put_put in Hr3.
  assert (set_c_lock idle (set_c_seq (mh_seq h) (set_c_lock {| readers := 0; writer := true |} c)) = set_c_seq (mh_seq h) c) as Heq.
  { rewrite <-Hl. by destruct c. }
  rewrite Heq in Hr3. clear Heq. specialize (Hf Hk Hseq). rewrite type_i32 by done. apply wp_bind.
  set (a1 := put_conn p (set_c_seq (mh_seq h) c) a) in *.
  assert (ainv a1) as Hi1 by (by eapply ainv_put).
  assert (conn_at a1 p = Some (set_c_seq (mh_seq h) c)) as Hc1 by (by unfold a1; rewrite conn_put, decide_True).
  assert (∀ proc, mesg_fine proc p c h body a → mesg_fine proc p (set_c_seq (mh_seq h) c) h body a1) as Hfine by (by intros []).
  eapply wp_query_reg; [exact Hr3|done|]. intros s4 Hr4. unfold recv_proc, proc_of in *.
  destruct (acc_regs !! mh_type h) as [reg|]; cbn [fmap option_fmap option_map] in *.
  - apply wp_run_mesg; auto.
  - apply wp_bind. eapply wp_conn_rd; [exact Hr4|exact Hc1|]. cbn [c_stat set_c_seq].
    case_bool_decide; cbn [negb]; [|wp_steps; by apply done_quiet]. apply wp_bind.
    eapply wp_query_reg; [exact Hr4|done|]. intros s5 Hr5.
    change (acc_regs !! CMD_UNKNOWN) with (Some (LReg CMD_UNKNOWN MesgDef)) in *.
    cbn [fmap option_fmap option_map lr_proc] in *. apply wp_run_mesg; auto.
Qed.

(** ** Timers *)

Definition due_at (m : gmap Z lsnd_kick_item_t) (cid : Z) : bool :=
  match m !! cid with Some i => ki_ttl i <=? now | None => false end.

Lemma wp_kick_delete L P s a cid (Q : option lsnd_kick_item_t → st → mem → Prop) ms :
  lrepL L P s a → is_id cid →
  (∀ s', lrepL L P s' (set_al_kick (delete cid (al_kick a)) a) → Q (al_kick a !! cid) s' ms) →
  wp (on_kick_list (hash_tab_delete lsnd_kick_list_hash_cb lsnd_kick_list_cmp_cb (KickItem cid 0) WRLOCK)) Q s ms.
Proof.
  intros [R1 R2 R3 R4 R5 R6 R7 R8 R9] Hid HQ. apply wp_zoom.
  eapply wp_mono; [apply (wp_hash_tab_delete _ _ _ _ _ _ _ (KickItem cid 0) WRLOCK ms R7); [done|]|].
  { apply free_replicate. by eapply slot_lt. }
  intros r h ms' (Hlen & -> & -> & Hh). apply HQ. constructor; try done. simpl. by rewrite Hlen.
Qed.

(** The connections of the list leave the table, and are closed. *)
Lemma wp_kick_loop a ps : ∀ l s P' m fuel (Q : unit → list_t Z * st → mem → Prop),
  lrep_at l ps → lrep P' s (set_al_kick m a) → (length ps < fuel)%nat → NoDup ps.*2 →
  Forall (λ cid, is_id cid ∧ cid ≠ 0 ∧ is_Some (m !! cid)) ps.*2 →
  (∀ l' s', lrep_at l' [] → lrep (after (AccKick <$> ps.*2) P') s' (set_al_kick (foldl (λ m cid, delete cid m) m ps.*2) a) →
     Q tt (l', s') []) →
  wp (loop fuel (λ _,
    addr ← on_fst list_lpop;
    match addr with
    | None => mret (inr tt)
    | Some cid =>
        if cid =? NULL then mret (inr tt) else
        item ← on_snd (on_kick_list (hash_tab_delete lsnd_kick_list_hash_cb lsnd_kick_list_cmp_cb (KickItem cid 0) WRLOCK));
        match item with
        | None => mret (inl tt)
        | Some _ => on_snd (acc_async_kick cid);; mret (inl tt)
        end
    end) tt) Q (l, s) [].
Proof.
  induction ps as [|[p cid] ps IH]; intros l s P' m fuel Q Hl Hr Hfuel Hnd Hids HQ;
    (destruct fuel as [|fuel]; [simpl in Hfuel; lia|]); apply wp_loop_step; apply wp_bind; apply wp_zoom; cbn [fst snd].
  - eapply wp_lpop; [exact Hl|]. cbn beta iota. apply wp_ret. apply HQ; [done|]. simpl. by rewrite after_nil.
  - eapply wp_lpop; [exact Hl|]. intros l' Hl'. csimpl in Hids. apply Forall_cons in Hids as [(Hid & Hnz & [i Hi]) Hids].
    csimpl in Hnd. apply NoDup_cons in Hnd as [Hni Hnd].
    cbn beta iota. rewrite (proj2 (Z.eqb_neq cid NULL)) by done. apply wp_bind. apply wp_zoom. cbn [fst snd].
    eapply wp_kick_delete; [exact Hr|done|]. intros s1 Hr1. cbn [al_kick set_al_kick] in *. rewrite Hi. cbn beta iota.
    apply wp_bind. apply wp_zoom. cbn [fst snd]. eapply wp_send; [exact Hr1|]. intros s2 Hr2. apply wp_ret. cbn beta iota.
    apply (IH _ _ (after [AccKick cid] P') (delete cid m)); [done|exact Hr2|simpl in Hfuel; lia|done| |].
    + apply Forall_forall. intros c2 Hc2. rewrite Forall_forall in Hids. destruct (Hids _ Hc2) as (? & ? & ?).
      split_and!; [done..|]. rewrite lookup_delete_ne; [done|]. intros ->. done.
    + intros l3 s3 Hl3 Hr3. apply HQ; [done|]. rewrite after_app in Hr3. exact Hr3.
Qed.

Lemma foldl_delete (m : gmap Z lsnd_kick_item_t) ks k :
  foldl (λ m cid, delete cid m) m ks !! k = if decide (k ∈ ks) then None else m !! k.
Proof.
  revert m. induction ks as [|c ks IH]; intros m; cbn [foldl].
  - rewrite decide_False; [done|apply not_elem_of_nil].
  - rewrite IH. destruct (decide (k ∈ ks)) as [Hk|Hk].
    + by rewrite decide_True by (by right).
    + destruct (decide (k = c)) as [->|Hne].
      * rewrite decide_True by (by left). apply lookup_delete_eq.
      * rewrite decide_False by (intros [?|?]%elem_of_cons; done). by apply lookup_delete_ne.
Qed.

Abbreviation ktrel := (trel (T := T) ki_cid kick_dom lsnd_kick_list_hash_cb lsnd_kick_list_cmp_cb eq).

Lemma ktrel_iff (h : hash_tab_t T lsnd_kick_item_t) m L :
  ktrel h m L ↔ hrep ki_cid kick_dom lsnd_kick_list_hash_cb lsnd_kick_list_cmp_cb h m L.
Proof.
  split.
  - intros (m' & Hr & Hm). assert (m' = m) as <-; [|done]. apply map_eq. intros k. specialize (Hm k).
    by inversion Hm; subst.
  - intros Hr. exists m. split; [done|]. intros k. by destruct (m !! k); constructor.
Qed.

(** The traversal gathers the connections whose time has come. *)
Lemma wp_gather_due P s a (l0 : list_t Z) :
  lrep P s a → lrep_at l0 [] →
  wp (hash_tab_trav (λ s, l_kick_list s.2) (λ h s, (s.1, set_l_kick_list h s.2)) (lsnd_kick_trav_cb now) RDLOCK)
    (λ _ x ms', ms' = [] ∧ lrep P x.2 a ∧ ∃ ps ks, lrep_at x.1 ps ∧
      ps.*2 = filter (λ k, due_at (al_kick a) k = true) ks ∧ ks ≡ₚ (map_to_list (al_kick a)).*1) (l0, s) [].
Proof.
  intros Hr Hl. pose proof (lr_kick _ _ _ _ _ _ _ _ Hr) as Hk. apply ktrel_iff in Hk. eapply wp_mono.
  { eapply (wp_rtrav_ro (g := λ s, l_kick_list s.2) (s := (l0, s)) (lk := RDLOCK) Hk)
      with (I := λ ks (x : list_t Z * st) ms', ms' = [] ∧ (∃ h, x.2 = set_l_kick_list h s) ∧
        ∃ ps, lrep_at x.1 ps ∧ ps.*2 = filter (λ k, due_at (al_kick a) k = true) ks).
    - done.
    - intros ks h [s1 s2] ms' (-> & [h0 Hh0] & HI). cbn [fst snd] in *. split_and!; [done| |done].
      exists h. by rewrite Hh0.
    - intros ks d i [l1 s1] ms' Hd <- Hdd Hks (-> & Hs & ps & Hps & Hpk). cbn [fst snd] in *.
      unfold lsnd_kick_trav_cb.
      assert (due_at (al_kick a) (ki_cid d) = negb (now <? ki_ttl d)) as He.
      { unfold due_at. rewrite Hd. destruct (Z.ltb_spec now (ki_ttl d)); simpl; [apply Z.leb_gt|apply Z.leb_le]; lia. }
      destruct (now <? ki_ttl d); cbn [negb] in He.
      + wp_step. split_and!; [done..|]. exists ps. split; [done|].
        rewrite filter_app, filter_cons_False by congruence. by rewrite filter_nil, app_nil_r.
      + apply wp_bind, wp_zoom. cbn [fst snd]. eapply wp_rpush; [exact Hps|]. simpl. intros l2 p Hl2. wp_step. cbn [fst snd].
        split_and!; [done..|]. eexists. split; [exact Hl2|].
        rewrite fmap_app, filter_app, Hpk. csimpl. by rewrite filter_cons_True.
    - intros i Hi. by apply free_replicate.
    - assert (Z.of_nat (size (al_kick a)) ≤ 2 ^ 63); [|lia]. eapply (trel_size (T := T)); [exact Hk|done|]. intros d Hd. exact Hd.
    - split_and!; [done|by exists (l_kick_list s); destruct s|]. by exists []. }
  intros [] [l1 s1] ms' (ks & Hlen & Htr & Hks & -> & [h Hh] & ps & Hps & Hpk). cbn [fst snd] in *.
  split_and!; [done| |by exists ps, ks]. apply ktrel_iff in Htr. rewrite Hh in *. cbn [l_kick_list set_l_kick_list] in *.
  destruct Hr. constructor; try assumption. cbn [l_kick_list set_l_kick_list]. by rewrite Hlen.
Qed.

Lemma due_split (m : gmap Z lsnd_kick_item_t) ks :
  ks ≡ₚ (map_to_list m).*1 →
  foldl (λ m cid, delete cid m) m (filter (λ k, due_at m k = true) ks) = filter (λ x, now < ki_ttl x.2) m ∧
  filter (λ k, due_at m k = true) ks ≡ₚ (map_to_list (filter (λ x, ki_ttl x.2 ≤ now) m)).*1.
Proof.
  intros Hks.
  assert (∀ k, k ∈ ks ↔ is_Some (m !! k)) as Hin.
  { intros k. rewrite Hks, list_elem_of_fmap. split.
    - intros ([k' r] & -> & Hr%elem_of_map_to_list). by exists r.
    - intros [r Hr]. exists (k, r). split; [done|]. by apply elem_of_map_to_list. }
  split.
  - apply map_eq. intros k. rewrite foldl_delete, map_lookup_filter. unfold due_at.
    destruct (m !! k) as [i|] eqn:Hk.
    + simpl. destruct (Z.leb_spec (ki_ttl i) now).
      * rewrite decide_True, option_guard_False; [done|lia|]. apply list_elem_of_filter. rewrite Hk.
        split; [by apply Z.leb_le|]. apply Hin. eauto.
      * rewrite decide_False, option_guard_True; [done|lia|]. rewrite list_elem_of_filter, Hk. intros [Hx _].
        apply Z.leb_le in Hx. lia.
    + simpl. by case_decide.
  - apply NoDup_Permutation.
    + apply NoDup_filter. rewrite Hks. apply NoDup_fst_map_to_list.
    + apply NoDup_fst_map_to_list.
    + intros k. rewrite list_elem_of_filter, Hin, list_elem_of_fmap. unfold due_at. split.
      * intros [Hd [i Hi]]. rewrite Hi in Hd. exists (k, i). split; [done|]. apply elem_of_map_to_list, map_lookup_filter_Some.
        split; [done|]. simpl. by apply Z.leb_le.
      * intros ([k' i] & -> & Hi). apply elem_of_map_to_list, map_lookup_filter_Some in Hi as [Hi Hd]. simpl in *. rewrite Hi.
        split; [by apply Z.leb_le|eauto].
Qed.

Lemma wp_kick_timer P s a :
  lrep P s a → ainv a → wp (lsnd_timer_kick_handler now;; mret 0) (done_as P (a_kick_timer now a)) s [].
Proof.
  intros Hr Hi. unfold lsnd_timer_kick_handler. apply wp_bind, wp_bind. unfold list_creat. wp_step. apply wp_malloc_nil.
  wp_step. wp_step. apply wp_with_local. apply wp_bind.
  eapply wp_mono; [eapply (wp_gather_due P s a); [exact Hr|constructor; simpl; [apply hp_empty|done..]]|].
  intros [] [l1 s1] ms' (-> & Hr1 & ps & ks & Hps & Hpk & Hks). cbn [fst snd] in *.
  destruct (due_split _ _ Hks) as [Hm Hp].
  unfold lsnd_timer_kick_loop. wp_step. wp_step. cbn [fst snd]. rewrite (rep_fuel _ _ Hps).
  eapply (wp_kick_loop a ps _ _ P (al_kick a)); [exact Hps|by destruct a|lia| | |].
  - rewrite Hpk. apply NoDup_filter. rewrite Hks. apply NoDup_fst_map_to_list.
  - rewrite Hpk. apply Forall_forall. intros k [Hd _]%list_elem_of_filter. unfold due_at in Hd.
    destruct (al_kick a !! k) as [i|] eqn:Hk; [|done]. split_and!; [|by eapply (ai_kick _ _ Hi)|done].
    destruct (hr_key _ _ _ _ _ _ _ _ _ (lr_kick _ _ _ _ _ _ _ _ Hr) Hk) as [<- Hdm]. exact Hdm.
  - intros l2 s2 Hl2 Hr2. wp_steps. apply wp_with_local. cbn [fst snd].
    eapply wp_mono; [eapply (wp_list_destroy _ (λ _ s ms', s = s2 ∧ ms' = [])); [exact Hl2|done]|].
    intros [] s' ms2 [[-> ->] _]. wp_steps. rewrite Hpk, Hm in Hr2.
    split_and!; [done..|]. eexists. split; [|exact Hr2]. cbn [snd a_kick_timer].
    rewrite Hp. unfold due. by rewrite <-list_fmap_compose.
Qed.

Lemma u32_u64 x : u32 (u64 x) = u32 x.
Proof. unfold u32, u64. apply Z.mod_mod_divide. by exists (2 ^ 32). Qed.

Lemma wp_info P s a :
  lrep P s a → wp (lsnd_timer_info_handler;; mret 0) (done_as P (Some 0, a, [info_call conf a])) s [].
Proof.
  intros Hr. unfold lsnd_timer_info_handler. wp_steps. cbv zeta. apply wp_malloc_nil. cbn [negb].
  rewrite (lr_conf _ _ _ _ _ _ _ _ Hr), (hr_total _ _ _ _ _ _ _ (lr_conn _ _ _ _ _ _ _ _ Hr)), map_size_fmap, u32_u64.
  apply wp_bind. eapply wp_send; [exact Hr|]. intros s1 Hr1. wp_steps. by apply done_one.
Qed.

Lemma wp_room_stat P s a :
  lrep P s a → rooms_fit a →
  wp (lsnd_timer_room_stat_handler;; mret 0)
    (done_as P (Some 0, a, (λ x, stat_call conf x.1 x.2) <$> map_to_list (ac_rooms (al_chat a)))) s [].
Proof.
  intros Hr Hfit. unfold lsnd_timer_room_stat_handler. wp_steps. rewrite (lr_conf _ _ _ _ _ _ _ _ Hr).
  pose proof (lr_chat _ _ _ _ _ _ _ _ Hr) as [R1 R2 R3].
  eapply wp_on_chat_ports; [exact Hr|]. unfold chat_room_trav.
  set (m := ac_rooms (al_chat a)) in *.
  eapply wp_mono.
  { eapply (wp_rtrav_ro (g := λ s, rooms s.1) (s := (l_chat s, P)) (lk := RDLOCK) R1)
      with (I := λ ks (x : chat_tab_t T * ports) ms', ms' = [] ∧ (∃ h, x.1 = set_rooms h (l_chat s)) ∧
        x.2 = after ((λ k, stat_call conf k (default (ARoom ∅ 0) (m !! k))) <$> ks) P).
    - done.
    - intros ks h [x1 x2] ms' (-> & [h0 Hh0] & HI). cbn [fst snd] in *. split_and!; [done| |done]. exists h. by rewrite Hh0.
    - intros ks d r [c1 P1] ms' Hd Hdr Hdd Hks (-> & Hc & HP). cbn [fst snd] in *. subst P1.
      apply wp_zoom. cbn [fst snd]. unfold lsnd_upload_room_stat_handler. cbv zeta. apply wp_bind, wp_malloc_nil. cbn [negb].
      apply wp_bind, wp_call_port. wp_steps. split_and!; [done..|]. rewrite after_app, fmap_app. cbn [fmap list_fmap].
      rewrite Hd. cbn [default]. unfold stat_call, out_head. rewrite (rr_num _ _ _ Hdr), u32_u64. done.
    - intros i Hi. by apply free_replicate.
    - by eapply rooms_size.
    - split_and!; [done|by exists (rooms (l_chat s)); destruct (l_chat s)|]. by rewrite after_nil. }
  intros [] [c1 P1] ms' (ks & Hlen & Htr & Hks & -> & [h Hh] & HP). cbn [fst snd] in *. subst P1 c1.
  exists (al_chat a). split; [constructor; [|done|done]|].
  { cbn [rooms set_rooms] in *. by rewrite Hlen. }
  intros s1 Hr1. rewrite chat_eta in Hr1. wp_steps. split_and!; [done..|]. eexists. split; [|exact Hr1]. cbn [snd].
  rewrite Hks, <-list_fmap_compose. apply Permutation_refl'. unfold compose. apply list_fmap_ext. intros i [k r] Hx.
  apply list_elem_of_lookup_2, elem_of_map_to_list in Hx. simpl. by rewrite Hx.
Qed.

Lemma wp_room_clean P s a :
  lrep P s a → ainv a → rooms_fit a →
  wp (lsnd_timer_room_clean_handler;; mret 0)
    (done_as P (Some 0, set_al_chat (on_ac_rooms clean_rooms (al_chat a)) a, [])) s [].
Proof.
  intros Hr Hi Hfit. unfold lsnd_timer_room_clean_handler. apply wp_bind, wp_bind. eapply wp_on_chat; [exact Hr|].
  eapply wp_mono; [apply wp_clean; [apply Hr|]|].
  { intros rid r Hrid. split; [apply (ai_room _ _ Hi); eauto|by eapply Hfit]. }
  intros ret c' ms' (-> & -> & Hrep). eexists. split; [exact Hrep|]. intros s1 Hr1. wp_steps. by apply done_quiet.
Qed.

(** ** Events *)

Lemma wp_ev P s a ev :
  lrep P s a → ainv a → ev_ok ev a → wp (run_ev now junk ev) (done_as P (aev conf now ev a)) s [].
Proof.
  intros Hr Hi Hok. destruct ev as [cid|p|p data|type orig data| | | |]; cbn [run_ev aev].
  - by apply wp_open.
  - by apply wp_close.
  - destruct Hok as (c & Hok). apply wp_bind. eapply wp_conn_rd; [exact Hr|by destruct Hok as (? & ? & ? & _)|].
    cbn [lsnd_callback]. apply wp_recv; [done|done|by exists c].
  - by apply (wp_up _ _ _ _ orig).
  - by apply wp_kick_timer.
  - by apply wp_info.
  - by apply wp_room_stat.
  - by apply wp_room_clean.
Qed.
End Refine.
