(* ===== verification/LsndProps.v ===== *)
(** What the listener promises: from its start on, whatever the clients, the servers
    and the timer do within the bounds of [ev_ok], each event has the effect of its
    abstract function.  Then what the code does outside of these bounds. *)
From stdpp Require Import fin_maps gmap.
From S2P Require Import Prelude Heap Table RbTree HashTab TabRel TreeRel Trees List Chat ChatSpec ChatRooms ChatOps ChatRefine ChatTrav ChatProps Bytes Mesg Lsnd LsndSpec LsndAbs LsndRefine.
Open Scope Z_scope.

(** ** Runs *)

(** The events, each with its time; their answers. *)
Fixpoint run_evs {T} `{TreeOps T} {pb : Protobuf} (junk : ptr → Z * Z) (evs : list (Z * lsnd_ev)) :
    SM (lsnd_cntx_t T) (list Z) :=
  match evs with
  | [] => mret []
  | (now, ev) :: evs => r ← run_ev now junk ev; rs ← run_evs junk evs; mret (r :: rs)
  end.

(** The process as [main] starts it, up to [lsnd_launch]. *)
Definition lsnd_boot {T} `{TreeOps T} {pb : Protobuf} (env : lsnd_env) (conf : lsnd_conf_t) :
    SM unit (option (Z * lsnd_cntx_t T)) :=
  s ← lsnd_init env conf;
  match s with
  | None => mret None
  | Some s => r ← run_on s lsnd_set_reg; mret (Some r)
  end.

Section Abstract.
Context {pb : Protobuf} (conf : lsnd_conf_t).

(** The outputs of the events, the state they lead to, and what they require. *)
Abbreviation out := (option Z * list port_call)%type.
Fixpoint aevs (evs : list (Z * lsnd_ev)) (a : alsnd) : list out * alsnd :=
  match evs with
  | [] => ([], a)
  | (now, ev) :: evs =>
      let x := aev conf now ev a in
      let y := aevs evs x.1.2 in
      ((x.1.1, x.2) :: y.1, y.2)
  end.
Fixpoint evs_ok (evs : list (Z * lsnd_ev)) (a : alsnd) : Prop :=
  match evs with
  | [] => True
  | (now, ev) :: evs => ev_ok ev a ∧ evs_ok evs (aev conf now ev a).1.2
  end.

(** The answers, when the outside answers its calls with [ans], and then with 0. *)
Fixpoint answers_of (outs : list out) (ans : list Z) : list Z :=
  match outs with
  | [] => []
  | (r, l) :: outs => default (default 0 (head ans)) r :: answers_of outs (drop (length l) ans)
  end.

Lemma ainv_evs evs : ∀ a, ainv conf a → evs_ok evs a → ainv conf (aevs evs a).2.
Proof.
  induction evs as [|[now ev] evs IH]; intros a Hi Hok; [done|]. destruct Hok as [Hev Hok].
  apply IH; [by apply ainv_ev|done].
Qed.
End Abstract.

Section Runs.
Context {T : Type → Type} `{TreeLaws T} {pb : Protobuf} (junk : ptr → Z * Z) (conf : lsnd_conf_t).
Abbreviation lrep := (lrep (T := T) junk conf acc_regs rtq_regs).

(** What a run from the state [a] has done: it has returned, with these answers and
    calls. *)
Definition runs_as (evs : list (Z * lsnd_ev)) (P : ports) (a : alsnd) (rs : list Z) (s : lsnd_cntx_t T) (ms : mem) : Prop :=
  ms = [] ∧ rs = answers_of (aevs conf evs a).1 (answers P) ∧
  ∃ ls, Forall2 (≡ₚ) ls (aevs conf evs a).1.*2 ∧ lrep (after (concat ls) P) s (aevs conf evs a).2.

Lemma wp_evs evs : ∀ P s a, lrep P s a → ainv conf a → evs_ok conf evs a → wp (run_evs junk evs) (runs_as evs P a) s [].
Proof.
  induction evs as [|[now ev] evs IH]; intros P s a Hr Hi Hok; cbn [run_evs].
  - apply wp_ret. split_and!; [done..|]. exists []. split; [constructor|]. cbn [concat aevs snd]. by rewrite after_nil.
  - destruct Hok as [Hev Hok]. apply wp_bind. eapply wp_mono; [by apply (wp_ev junk conf now P s a ev)|].
    intros r s1 ms1 (-> & -> & l & Hl & Hr1). apply wp_bind.
    eapply wp_mono; [apply (IH _ _ _ Hr1); [by apply ainv_ev|exact Hok]|].
    intros rs s2 ms2 (-> & -> & ls & Hls & Hr2). apply wp_ret. unfold runs_as. cbn [aevs]. cbv zeta.
    cbn [fst snd answers_of fmap list_fmap]. split_and!; [done| |].
    + f_equal. unfold after. cbn [answers]. by rewrite Hl.
    + exists (l :: ls). split; [by constructor|]. cbn [concat]. by rewrite <-after_app.
Qed.

(** *** The start *)

Lemma wp_or_null {A B Σ} (m : SM Σ (option A)) (f : A → SM Σ (option B)) P (Q : option B → Σ → mem → Prop) s :
  wp m (λ r s' ms', s' = s ∧ ms' = [] ∧ ∃ a, r = Some a ∧ P a) s [] → (∀ a, P a → wp (f a) Q s []) → wp (or_null m f) Q s [].
Proof.
  intros Hm Hf. unfold or_null. apply wp_bind. eapply wp_mono; [exact Hm|]. intros r s' ms' (-> & -> & a & -> & Ha). by apply Hf.
Qed.

Definition starts (s : lsnd_cntx_t T) : Prop := LsndSpec.lrep junk conf ∅ ∅ (Ports [] []) s alsnd_start.

Lemma wp_lsnd_init :
  wp (lsnd_init (LEnv true true true true) conf) (λ o u ms, ms = [] ∧ ∃ s, o = Some s ∧ starts s) tt [].
Proof.
  unfold lsnd_init. cbn [le_timer le_frwder le_pool le_access check]. apply wp_bind, wp_malloc_nil. cbn [negb].
  assert (∀ Σ (s : Σ), wp (tr_creat (T := atree)) (λ r s' ms', s' = s ∧ ms' = [] ∧
    ∃ t, r = Some t ∧ tmap lr_type reg_dom lsnd_acc_reg_cmp_cb t ∅) s []) as Hreg.
  { intros Σ s. apply (wp_tcreat (key := lr_type) (dm := reg_dom) (cmp := lsnd_acc_reg_cmp_cb)). intros t Ht. split_and!; [done..|]. by exists t. }
  eapply wp_or_null; [apply Hreg|]. intros reg Hreg1.
  eapply wp_or_null; [by apply (wp_hash_tab_creat (ref_key junk empty_heap) (ref_dom junk empty_heap) (ref_hash junk empty_heap) (ref_cmp junk empty_heap))|].
  intros ct [Hct1 Hct2]. eapply wp_or_null; [by apply (wp_hash_tab_creat ki_cid kick_dom lsnd_kick_list_hash_cb lsnd_kick_list_cmp_cb)|].
  intros kt [Hkt1 Hkt2]. eapply wp_or_null; [by apply wp_init|]. intros chat Hchat.
  eapply wp_or_null; [apply Hreg|]. intros upreg Hreg2. apply wp_ret. split; [done|]. eexists. split; [done|].
  constructor; cbn [l_conf l_reg l_upreg l_chat l_conn_list l_kick_list l_conns l_ports alsnd_start al_tab al_chat al_kick al_conns];
    first [done|by rewrite Hkt1|by rewrite fmap_empty].
Qed.

(** The types of [l] are new, and are types. *)
Fixpoint regs_new (l : list registration) (G1 G2 : gmap Z lsnd_reg_t) : Prop :=
  match l with
  | [] => True
  | Acc type proc :: l => is_type type ∧ G1 !! type = None ∧ regs_new l (add_reg type proc G1) G2
  | Rtq type proc :: l => is_type type ∧ G2 !! type = None ∧ regs_new l G1 (add_reg type proc G2)
  end.
Definition acc_add (l : list registration) (G : gmap Z lsnd_reg_t) : gmap Z lsnd_reg_t :=
  foldl (λ G r, match r with Acc type proc => add_reg type proc G | Rtq _ _ => G end) G l.
Definition rtq_add (l : list registration) (G : gmap Z lsnd_reg_t) : gmap Z lsnd_reg_t :=
  foldl (λ G r, match r with Rtq type proc => add_reg type proc G | Acc _ _ => G end) G l.

Lemma wp_reg_add type proc G (Q : Z → atree lsnd_reg_t → mem → Prop) t :
  tmap lr_type reg_dom lsnd_acc_reg_cmp_cb t G → is_type type → G !! type = None →
  (∀ t', tmap lr_type reg_dom lsnd_acc_reg_cmp_cb t' (add_reg type proc G) → Q 0 t' []) →
  wp (tr_insert lsnd_acc_reg_cmp_cb (LReg type proc)) Q t [].
Proof.
  intros Ht Hty Hn HQ. eapply wp_mono; [by apply (wp_tinsert Ht)|]. cbn [lr_type]. rewrite Hn.
  intros r t' ms' (-> & Hx). rewrite decide_False in Hx by done. destruct Hx as [-> Hx]. by apply HQ.
Qed.

Lemma wp_register l : ∀ G1 G2 P s a,
  LsndSpec.lrep junk conf G1 G2 P s a → regs_new l G1 G2 →
  wp (register_all l) (λ r s' ms', ms' = [] ∧ r = LSND_OK ∧ LsndSpec.lrep (T := T) junk conf (acc_add l G1) (rtq_add l G2) P s' a) s [].
Proof.
  induction l as [|r l IH]; intros G1 G2 P s a Hr Hn; cbn [register_all]; [by apply wp_ret|].
  destruct Hr as [R1 R2 R3 R4 R5 R6 R7 R8 R9]. destruct r as [type proc|type proc]; destruct Hn as (Ht & Hnew & Hn); apply wp_bind.
  - unfold lsnd_acc_reg_add. apply wp_bind, wp_malloc_nil. cbn [negb]. apply wp_bind, wp_zoom. eapply wp_reg_add; [done..|].
    intros t' Ht'. cbv beta. change (0 =? 0) with true. cbn [negb]. apply wp_ret. change (0 =? 0) with true. cbn [negb]. by apply (IH (add_reg type proc G1) G2).
  - unfold rtmq_proxy_reg_add. apply wp_bind, wp_malloc_nil. cbn [negb]. apply wp_bind, wp_zoom. eapply wp_reg_add; [done..|].
    intros t' Ht'. cbv beta. change (0 =? 0) with true. cbn [negb]. apply wp_ret. change (0 =? 0) with true. cbn [negb]. by apply (IH G1 (add_reg type proc G2)).
Qed.

Lemma registrations_new : regs_new registrations ∅ ∅.
Proof. cbn [regs_new registrations]. by repeat split. Qed.

(** The process is ready: it is in the start state of the listener, with every
    callback registered. *)
Lemma wp_boot : wp (lsnd_boot (T := T) (LEnv true true true true) conf)
  (λ o _ ms, ms = [] ∧ ∃ s, o = Some (LSND_OK, s) ∧ lrep (Ports [] []) s alsnd_start) tt [].
Proof.
  unfold lsnd_boot. apply wp_bind. eapply wp_mono; [apply wp_lsnd_init|]. intros o u ms (-> & s & -> & Hs).
  apply wp_bind, wp_run_on. eapply wp_mono; [apply (wp_register _ _ _ _ _ _ Hs registrations_new)|].
  intros r s' ms' (-> & -> & Hs'). apply wp_ret. split; [done|]. by exists s'.
Qed.
End Runs.

Lemma packet_head h h' body body' : mhead_ok h → mhead_ok h' → packet h body = packet h' body' → h = h'.
Proof.
  intros Hh Hh' Heq. pose proof (read_packet h body) as Hr. rewrite Heq, read_packet in Hr. assert (MESG_HEAD_HTON h' = MESG_HEAD_HTON h) as Hr' by congruence.
  by rewrite <-(mhead_ntoh_hton h), <-(mhead_ntoh_hton h'), Hr'.
Qed.

(** *** The members a message to a room reaches *)

Lemma member_room ch rid g k r : ac_rooms ch !! rid = Some r →
  member ch rid g k ↔ ∃ X, a_groups r !! g = Some X ∧ k ∈ X.
Proof.
  intros Hr. split.
  - intros (r' & X & Hr' & HX & Hk). rewrite Hr in Hr'. injection Hr' as <-. by exists X.
  - intros (X & HX & Hk). by exists r, X.
Qed.

Lemma concat_bind {A B} (f : A → list B) l : concat (f <$> l) = l ≫= f.
Proof. induction l as [|x l IH]; [done|]. cbn. by rewrite IH. Qed.

Lemma elem_of_visits ch rid gid r k : ac_rooms ch !! rid = Some r →
  k ∈ visits gid r ↔ ∃ g, member ch rid g k ∧ (u16 gid = 0 ∨ g = u16 gid).
Proof.
  intros Hr. setoid_rewrite (member_room ch rid _ k r Hr). unfold visits. destruct (Z.eqb_spec (u16 gid) 0) as [Hz|Hnz].
  - rewrite concat_bind.
    rewrite list_elem_of_bind. split.
    + intros ([g X] & Hk%elem_of_elements & HX%elem_of_map_to_list). exists g. split; [by exists X|by left].
    + intros (g & (X & HX & Hk) & _). exists (g, X). split; [by apply elem_of_elements|by apply elem_of_map_to_list].
  - rewrite elem_of_elements. split.
    + intros Hk. exists (u16 gid). split; [|by right]. destruct (a_groups r !! u16 gid) as [X|]; [by exists X|].
      simpl in Hk. set_solver.
    + intros (g & (X & HX & Hk) & [?| ->]); [done|]. by rewrite HX.
Qed.

Lemma visits_nodup ch rid gid r : known ch → ac_rooms ch !! rid = Some r → NoDup (visits gid r).
Proof.
  intros Hkn Hr. unfold visits. destruct (_ =? _); [|apply NoDup_elements].
  rewrite concat_bind.
  apply NoDup_bind; [|intros; apply NoDup_elements|apply NoDup_map_to_list].
  intros [g X] [g' X'] k Hg%elem_of_map_to_list Hg'%elem_of_map_to_list Hk%elem_of_elements Hk'%elem_of_elements.
  destruct (Hkn rid g k) as (b & gid1 & Hb & Hg1 & <-); [by exists r, X|].
  destruct (Hkn rid g' k) as (b' & gid2 & Hb' & Hg2 & <-); [by exists r, X'|].
  assert (gid1 = gid2) as -> by congruence. congruence.
Qed.

Lemma aev_up {pb : Protobuf} conf now type orig h body a proc :
  mhead_ok h → up_proc (i32 type) = Some proc →
  aev conf now (EvUp type orig (packet h body)) a = a_up now proc (i32 type) h body (packet h body) a.
Proof. intros Hh Hp. cbn [aev]. unfold a_upmesg. by rewrite Hp, read_packet, mhead_ntoh_hton. Qed.

(** *** The calls to the outside are messages *)

Section Typed.
Context {pb : Protobuf} (conf : lsnd_conf_t).

(** What a call is made with: a message to the servers is whole, of the type it is
    sent as, and from this node; a client gets a header and what follows it. *)
Definition call_typed (x : port_call) : Prop :=
  match x with
  | RtmqSend type data => ∃ h body, data = packet h body ∧ whole h body ∧ mh_type h = type ∧ mh_nid h = u32 (lc_nid conf)
  | AccSend type cid data => - 2 ^ 31 ≤ type < 2 ^ 31 ∧ is_u64 cid ∧ ∃ h body, data = packet h body ∧ mhead_ok h
  | AccKick cid => cid ≠ 0
  end.

(** The generated encoders give bytes, fewer than fit into a header. *)
Definition body_ok (l : list Z) : Prop := Forall is_byte l ∧ Z.of_nat (length l) < 2 ^ 32.
Definition packs_ok : Prop :=
  (∀ x, li_nation x = lc_nation conf → li_ip x = lc_ipaddr conf → body_ok (mesg_lsnd_info__pack x)) ∧
  (∀ x, body_ok (mesg_room_lsn_stat__pack x)).

Lemma id_u64 z : is_id z → is_u64 z.
Proof. unfold is_id, is_u64. lia. Qed.

Lemma nid_u32 : is_u32 (u32 (lc_nid conf)).
Proof. unfold u32, is_u32. pose proof (Z.mod_pos_bound (lc_nid conf) (2 ^ 32)). lia. Qed.

Lemma relay_typed h body sid cid : whole h body → is_u64 sid → is_u64 cid →
  call_typed (RtmqSend (mh_type h) (out_head (set_mh_nid (u32 (lc_nid conf)) (set_mh_cid cid (set_mh_sid sid h))) body)).
Proof.
  intros [[] Hl Hb] Hs Hc. eexists _, body. split; [done|]. split_and!; [|done..].
  constructor; [|done..]. constructor; try done. apply nid_u32.
Qed.

Lemma own_typed type sid cid body : is_type type → is_u64 sid → is_u64 cid → body_ok body →
  call_typed (RtmqSend type (out_head (MHead type (u32 (Z.of_nat (length body))) sid cid (u32 (lc_nid conf)) 0 0 0) body)).
Proof.
  intros Ht Hs Hc [Hb Hl]. rewrite u32_small by lia. eexists _, body. split; [done|]. split_and!; [|done..].
  constructor; [|done..]. unfold is_type in *. constructor; cbn; try done; try apply nid_u32; unfold is_u32; lia.
Qed.

Lemma i32_range z : - 2 ^ 31 ≤ i32 z < 2 ^ 31.
Proof. unfold i32. pose proof (Z.mod_pos_bound (z + 2 ^ 31) (2 ^ 32)). lia. Qed.

#[local] Instance lsnd_proc_eq_dec : EqDecision lsnd_proc.
Proof. solve_decision. Defined.

Lemma offline_reg type stat : recv_proc type stat = Some MesgOffline → type = CMD_OFFLINE.
Proof.
  assert (map_Forall (λ t r, lr_proc r = MesgOffline → t = CMD_OFFLINE) acc_regs) as Hall.
  { apply (bool_decide_unpack _). vm_compute. exact I. }
  unfold recv_proc, proc_of. destruct (acc_regs !! type) as [r|] eqn:Hr; cbn [fmap option_fmap option_map].
  - intros [= Hp]. exact (Hall _ _ Hr Hp).
  - case_bool_decide; [by vm_compute|done].
Qed.

Hypothesis Hpack : packs_ok.

Lemma mesg_typed proc p c h body a :
  ainv conf a → conn_at a p = Some c → whole h body → (proc = MesgOffline → mh_type h = CMD_OFFLINE) → is_type (mh_type h) →
  Forall call_typed (a_mesg conf proc p c (mh_type h) h body a).2.
Proof.
  intros Hi Hp Hw Hoff Ht. destruct (ai_conn _ _ Hi _ _ Hp) as [_ _ [C1%id_u64 C2%id_u64] _ C5]. pose proof (wh_head _ _ Hw) as [].
  assert (∀ sid cid h', whole h body → is_u64 sid → is_u64 cid →
    h' = set_mh_nid (u32 (lc_nid conf)) (set_mh_cid cid (set_mh_sid sid h)) →
    Forall call_typed [RtmqSend (mh_type h) (out_head h' body)]) as Hone.
  { intros sid cid h' ??? ->. apply Forall_singleton. by apply relay_typed. }
  destruct proc; cbn [a_mesg snd]; try apply Forall_nil_2.
  - apply (Hone (c_sid c) (c_cid c)); [done..|]. by rewrite C5.
  - unfold a_online, quiet. cbv zeta. destruct (al_tab _ !! _); [apply Forall_nil_2|]. by apply (Hone (mh_sid h) (c_cid c)); destruct h.
  - unfold a_offline, quiet. destruct (al_tab a !! _) as [q|]; [|apply Forall_nil_2]. destruct (conn_at a q); [|apply Forall_nil_2].
    cbn [snd]. rewrite <-Hoff at 1 by done. by apply (Hone (mh_sid h) (c_cid c)); destruct h.
  - apply Forall_singleton. split; [done|]. split; [done|]. eexists _, []. split; [done|]. constructor; cbn; try done; apply nid_u32.
  - by apply (Hone (mh_sid h) (mh_cid h)); destruct h.
  - unfold a_quit, quiet. destruct (mesg_room_quit__unpack (take _ _)); [|apply Forall_nil_2]. by apply (Hone (mh_sid h) (c_cid c)); destruct h.
Qed.

Lemma member_id a rid g k : ainv conf a → member (al_chat a) rid g k → key_dom k.
Proof.
  intros Hi Hm. apply (ai_known _ _ Hi) in Hm as (b & gid & Hb & _).
  destruct (ai_sess _ _ Hi k) as (p & c & Hp & <- & _); [by exists b|]. apply (ai_conn _ _ Hi _ _ Hp).
Qed.

Lemma up_typed now proc type h body a :
  ainv conf a → mhead_ok h → is_type type →
  Forall call_typed (a_up now proc type h body (packet h body) a).2.
Proof.
  intros Hi Hh Ht. assert (- 2 ^ 31 ≤ type < 2 ^ 31) as Ht' by (unfold is_type in *; lia).
  assert (∀ ty cid, - 2 ^ 31 ≤ ty < 2 ^ 31 → is_u64 cid → call_typed (AccSend ty cid (packet h body))) as Hsend.
  { intros ty cid ??. split; [done|]. split; [done|]. by exists h, body. }
  assert (∀ f gid_of, Forall call_typed (a_room f gid_of h body (packet h body) a).2) as Hroom.
  { intros f gid_of. unfold a_room, quiet. destruct (f _) as [m|]; [|apply Forall_nil_2]. cbn [snd]. unfold room_sends.
    destruct (ac_rooms (al_chat a) !! mr_rid m) as [r|] eqn:Hr; [|apply Forall_nil_2]. apply Forall_fmap, Forall_forall.
    intros k (g & Hk & _)%(elem_of_visits _ _ _ _ _ Hr). apply Hsend; [apply i32_range|]. by apply id_u64, (member_id a _ _ _ Hi Hk). }
  assert (∀ p c, conn_at a p = Some c → is_u64 (c_cid c)) as Hcid.
  { intros p c Hp. apply id_u64. apply (ai_conn _ _ Hi _ _ Hp). }
  destruct proc; cbn [a_up snd]; try apply Forall_nil_2; try apply Hroom; unfold a_online_ack, a_kick, a_join_ack, quiet; cbv zeta.
  - apply Forall_singleton, Hsend; [done|]. unfold dest. destruct (0 =? _); [by apply id_u64, (cid_of_id conf)|apply Hh].
  - destruct (mesg_online_ack__unpack _); [|apply Forall_nil_2]. destruct (al_tab a !! _) as [p|]; [|apply Forall_nil_2].
    destruct (conn_at a p); [|apply Forall_nil_2]. destruct (_ || _); [apply Forall_nil_2|]. by apply Forall_singleton, Hsend; [|apply Hh].
  - destruct (mesg_kick__unpack _); [|apply Forall_nil_2]. destruct (al_tab a !! _) as [p|]; [|apply Forall_nil_2].
    destruct (conn_at a p) eqn:Hp; [|apply Forall_nil_2]. by apply Forall_singleton, Hsend; [|eapply Hcid].
  - destruct (mesg_room_join_ack__unpack _); [|apply Forall_nil_2]. destruct (al_tab a !! _) as [p|]; [|apply Forall_nil_2].
    destruct (conn_at a p) eqn:Hp; [|apply Forall_nil_2]. destruct (negb _); [apply Forall_nil_2|].
    destruct (_ =? _); [apply Forall_nil_2|]. by apply Forall_singleton, Hsend; [|eapply Hcid].
Qed.

Lemma ev_typed now ev a : ainv conf a → ev_ok ev a → Forall call_typed (aev conf now ev a).2.
Proof.
  intros Hi Hok. destruct Hpack as [Hinfo Hstat].
  destruct ev as [cid|p|p data|type orig data| | | |]; cbn [aev snd]; try apply Forall_nil_2.
  - destruct Hok as [c Hp]. unfold a_close. rewrite Hp. apply Forall_singleton.
    destruct (ai_conn _ _ Hi _ _ Hp) as [_ _ [C1%id_u64 C2%id_u64] _ C5]. rewrite C5.
    by apply (own_typed CMD_OFFLINE (c_sid c) (c_cid c) []).
  - destruct Hok as (c & h & body & Hp & -> & Hw & Ht & _). unfold a_recv, quiet. rewrite Hp, read_packet, mhead_ntoh_hton by apply Hw.
    case_bool_decide; [apply Forall_nil_2|]. destruct (_ <=? _); [apply Forall_nil_2|]. cbv zeta.
    rewrite i32_small by (unfold is_type in *; lia). destruct (recv_proc _ _) as [proc|] eqn:Hproc; [|apply Forall_nil_2].
    apply mesg_typed; [|by rewrite conn_put, decide_True|done| |done].
    + eapply ainv_put; [done|exact Hp|done|done|apply (ai_conn _ _ Hi _ _ Hp)|done].
    + intros ->. by eapply offline_reg.
  - destruct Hok as (Ht & h & body & -> & Hh & _). destruct (up_proc (i32 type)) as [proc|] eqn:Hproc.
    + pose proof (aev_up conf now type orig h body a proc Hh Hproc) as He. cbn [aev] in He. rewrite He.
      apply up_typed; [done|done|]. by rewrite i32_small by (unfold is_type in *; lia).
    + unfold a_upmesg. rewrite Hproc. apply Forall_nil_2.
  - apply Forall_fmap, Forall_forall. intros [cid i] [Hk _]%elem_of_map_to_list%map_lookup_filter_Some. by apply (ai_kick _ _ Hi cid i).
  - apply Forall_singleton. apply own_typed; [done..|]. by apply Hinfo.
  - apply Forall_fmap, Forall_forall. intros [rid r] _. by apply own_typed, Hstat.
Qed.

Lemma evs_typed evs : ∀ a, ainv conf a → evs_ok conf evs a → Forall (Forall call_typed) (aevs conf evs a).1.*2.
Proof.
  induction evs as [|[now ev] evs IH]; intros a Hi Hok; [constructor|]. destruct Hok as [Hev Hok].
  constructor; [by apply ev_typed|]. apply IH; [by apply ainv_ev|done].
Qed.
End Typed.

(** ** Every run *)

Section Props.
Context {T : Type → Type} `{TreeLaws T} {pb : Protobuf} (junk : ptr → Z * Z) (conf : lsnd_conf_t).
Abbreviation lrep := (lrep (T := T) junk conf acc_regs rtq_regs).
Implicit Types (s : lsnd_cntx_t T) (a : alsnd).

(** C15: the process starts: with every part set up, [lsnd_init] and [lsnd_set_reg]
    succeed, and lead to the context without connections, rooms and kicks in which
    each type of message has its callback. *)
Theorem lsnd_boots :
  wp (lsnd_boot (T := T) (LEnv true true true true) conf)
    (λ o _ ms, ∃ s, o = Some (LSND_OK, s) ∧ lrep (Ports [] []) s alsnd_start) tt [].
Proof. eapply wp_mono; [apply (wp_boot junk)|]. by intros o u ms (_ & Hs). Qed.


Lemma live_conn a k s P : lrep P s a → live a k → ∃ p c, cell (l_conns s) !! p = Some c ∧ conn_key c = k.
Proof.
  intros Hr (p & c & Hc & Hk & _). exists p, c. split; [|done]. rewrite (lr_conns _ _ _ _ _ _ _ _ Hr). exact Hc.
Qed.

Lemma member_live a rid g k : ainv conf a → member (al_chat a) rid g k → live a k.
Proof. intros Hi Hm. apply (ai_known _ _ Hi) in Hm as (b & gid & Hb & _). apply (ai_sess _ _ Hi). by exists b. Qed.


(** *** Messages to a room *)

Lemma wp_ev_is now ev P s a ro a' l0 :
  lrep P s a → ainv conf a → ev_ok ev a → aev conf now ev a = (ro, a', l0) →
  wp (run_ev now junk ev) (λ r s' _, r = default (next_answer P) ro ∧ ∃ l, l ≡ₚ l0 ∧
    calls (l_ports s') = calls (l_ports s) ++ l ∧ lrep (after l P) s' a') s [].
Proof.
  intros Hr Hi Hok Hev. eapply wp_mono; [by apply (wp_ev junk conf now P s a)|]. rewrite Hev.
  intros r s' ms (_ & -> & l & Hl & Hr'). split; [done|]. exists l. split_and!; [done| |done].
  by rewrite (lr_ports _ _ _ _ _ _ _ _ Hr'), (lr_ports _ _ _ _ _ _ _ _ Hr).
Qed.

(** C8: a message to a room is sent once to the connection of each member of its
    group, of all groups when the group is 0, and to no one else; these connections
    are open, and no table changes. *)
Theorem lsnd_room_delivery now orig h body m P s a :
  lrep P s a → ainv conf a → mhead_ok h → ev_ok (EvUp CMD_ROOM_CHAT orig (packet h body)) a →
  mesg_room_chat__unpack (take (Z.to_nat (mh_length h)) body) = Some m →
  let data := packet h body in
  wp (run_ev now junk (EvUp CMD_ROOM_CHAT orig data)) (λ r s' _, r = 0 ∧ ∃ l,
    calls (l_ports s') = calls (l_ports s) ++ l ∧ NoDup l ∧ lrep (after l P) s' a ∧
    (∀ x, x ∈ l ↔ ∃ g sid cid, member (al_chat a) (mr_rid m) g (sid, cid) ∧ (u16 (mr_gid m) = 0 ∨ g = u16 (mr_gid m)) ∧
                   x = AccSend (i32 (mh_type h)) cid data) ∧
    (∀ g k, member (al_chat a) (mr_rid m) g k → ∃ p c, cell (l_conns s') !! p = Some c ∧ conn_key c = k)) s [].
Proof.
  intros Hr Hi Hh Hok Hm data. eapply wp_mono.
  { eapply wp_ev_is; [done..|]. unfold data. rewrite (aev_up conf _ _ _ _ _ _ UpRoomChat) by done. cbn [a_up]. unfold a_room. by rewrite Hm. }
  intros r s' _ (-> & l & Hl & Hcs & Hr'). split; [done|]. exists l. split_and!; [done| |exact Hr'| |].
  - rewrite Hl. unfold room_sends. destruct (ac_rooms (al_chat a) !! mr_rid m) as [room|] eqn:Hroom; [|constructor].
    apply NoDup_fmap_2_strong; [|by eapply visits_nodup; [apply (ai_known _ _ Hi)|]].
    intros k k' (g & Hk & _)%(elem_of_visits _ _ _ _ _ Hroom) (g' & Hk' & _)%(elem_of_visits _ _ _ _ _ Hroom) [= Hc].
    destruct (member_live a _ _ _ Hi Hk) as (p & c & Hp & <- & _), (member_live a _ _ _ Hi Hk') as (q & d & Hq & <- & _).
    assert (p = q) as -> by (by eapply (ai_cid _ _ Hi)). congruence.
  - intros x. rewrite Hl. unfold room_sends. split.
    + intros ([sid cid] & -> & Hk)%list_elem_of_fmap. destruct (ac_rooms (al_chat a) !! mr_rid m) as [room|] eqn:Hroom; [|set_solver].
      apply (elem_of_visits _ _ _ _ _ Hroom) in Hk as (g & Hk & Hg). by exists g, sid, cid.
    + intros (g & sid & cid & Hk & Hg & ->). apply list_elem_of_fmap. exists (sid, cid). split; [done|].
      destruct Hk as (room & X & Hroom & HX & Hk). rewrite Hroom. apply (elem_of_visits _ _ _ _ _ Hroom).
      exists g. split; [by exists room, X|done].
  - intros g k Hk. eapply live_conn; [exact Hr'|]. by eapply member_live.
Qed.

(** *** Connections *)



(** *** Messages of clients *)

(** A message is handled once: it leaves the connection kicked, or with its number. *)
Lemma recv_seq now p c h body a : conn_at a p = Some c → mhead_ok h →
  ∃ c', conn_at (aev conf now (EvRecv p (packet h body)) a).1.2 p = Some c' ∧
    (c_stat c' = CHAT_CONN_STAT_KICK ∨ mh_seq h ≤ c_seq c').
Proof.
  intros Hp Hh. cbn [aev]. unfold a_recv. rewrite Hp, read_packet, mhead_ntoh_hton by done.
  case_bool_decide as Hk; [exists c; auto|]. destruct (Z.leb_spec (mh_seq h) (c_seq c)) as [Hs|Hs]; [exists c; auto|].
  cbv zeta. set (c1 := set_c_seq (mh_seq h) c). set (a1 := put_conn p c1 a).
  assert (conn_at a1 p = Some c1) as Hp1 by (unfold a1; by rewrite conn_put, decide_True).
  destruct (recv_proc _ _) as [proc|]; [|exists c1; split; [done|by right]].
  destruct proc; cbn [a_mesg quiet fst snd]; try (exists c1; split; [done|by right]).
  - unfold a_online, quiet. cbv zeta. exists (set_c_sid (mh_sid h) c1).
    assert (conn_at (put_conn p (set_c_sid (mh_sid h) c1) a1) p = Some (set_c_sid (mh_sid h) c1)) by (by rewrite conn_put, decide_True).
    destruct (al_tab _ !! _); (split; [done|by right]).
  - unfold a_offline, quiet. destruct (al_tab a1 !! _) as [q|]; [|exists c1; split; [done|by right]].
    destruct (conn_at a1 q) as [d|] eqn:Hq; cbn [fst snd]; [|exists c1; split; [done|by right]].
    rewrite conn_put. case_decide as Hpq; [|exists c1; split; [done|by right]]. subst q. rewrite Hp1 in Hq. injection Hq as <-.
    eexists. split; [done|by right].
  - unfold a_quit, quiet. destruct (mesg_room_quit__unpack (take _ _)); exists c1; (split; [done|by right]).
Qed.

Lemma recv_stale now p c h body a : conn_at a p = Some c → mhead_ok h → c_stat c = CHAT_CONN_STAT_KICK ∨ mh_seq h ≤ c_seq c →
  aev conf now (EvRecv p (packet h body)) a = quiet (if bool_decide (c_stat c = CHAT_CONN_STAT_KICK) then 0 else -1) a.
Proof.
  intros Hp Hh Hc. cbn [aev]. unfold a_recv. rewrite Hp, read_packet, mhead_ntoh_hton by done.
  case_bool_decide as Hk; [done|]. destruct Hc as [|Hc]; [done|]. by rewrite (proj2 (Z.leb_le _ _)).
Qed.



(** C13: connections are kicked out when their time has come, and not before: the timer
    asks the access layer once for each connection whose delay is over, and keeps the
    others. *)
Theorem lsnd_kick_on_time now P s a :
  lrep P s a → ainv conf a →
  wp (run_ev now junk EvKick) (λ r s' _, ∃ l a', calls (l_ports s') = calls (l_ports s) ++ l ∧ NoDup l ∧
    (∀ x, x ∈ l ↔ ∃ cid i, al_kick a !! cid = Some i ∧ ki_ttl i ≤ now ∧ x = AccKick cid) ∧
    lrep (after l P) s' a' ∧ al_conns a' = al_conns a ∧ al_tab a' = al_tab a ∧ al_chat a' = al_chat a ∧
    (∀ cid i, al_kick a' !! cid = Some i ↔ al_kick a !! cid = Some i ∧ now < ki_ttl i)) s [].
Proof.
  intros Hr Hi. eapply wp_mono; [by apply (wp_ev_is now EvKick P s a)|]. intros r s' _ (_ & l & Hl & Hcs & Hr').
  eexists l, _. split; [done|]. split_and!; [| |exact Hr'|done..|].
  - rewrite Hl. change ((λ x, AccKick x.1) <$> map_to_list (due now a)) with ((AccKick ∘ fst) <$> map_to_list (due now a)).
    rewrite list_fmap_compose. apply NoDup_fmap_2; [by intros ?? [= ->]|apply NoDup_fst_map_to_list].
  - intros x. rewrite Hl, list_elem_of_fmap. split.
    + intros ([cid i] & -> & [Hk Hd]%elem_of_map_to_list%map_lookup_filter_Some). by exists cid, i.
    + intros (cid & i & Hk & Hd & ->). exists (cid, i). split; [done|]. by apply elem_of_map_to_list, map_lookup_filter_Some.
  - intros cid i. apply map_lookup_filter_Some.
Qed.

End Props.

(** ** A run *)

(** Bodies of a few bytes stand for the messages. *)
#[local] Instance demo_pb : Protobuf :=
  let room body := match body with [rid; gid] => Some (RoomMesg rid gid) | _ => None end in
  {| mesg_online_ack__unpack body := match body with [sid; seq; terminal] => Some (OnlineAck sid seq [65] [] terminal) | _ => None end;
     mesg_room_join_ack__unpack := room; mesg_room_quit__unpack := room; mesg_room_chat__unpack := room;
     mesg_room_bc__unpack := room; mesg_room_usr_num__unpack := room; mesg_room_join_ntf__unpack := room;
     mesg_room_quit_ntf__unpack := room; mesg_room_kick_ntf__unpack := room;
     mesg_kick__unpack _ := Some tt;
     mesg_lsnd_info__pack x := [li_connections x mod 256];
     mesg_room_lsn_stat__pack x := [rs_num x mod 256] |}.

Definition demo_conf : lsnd_conf_t := LConf 3 1 [67; 78] [49] 9000.
Definition demo_junk (p : ptr) : Z * Z := (0, 0).
Definition demo_head (type sid cid seq : Z) (body : list Z) : mesg_header_t :=
  MHead type (Z.of_nat (length body)) sid cid 0 seq 0 0.
Definition demo_mesg (type sid cid seq : Z) (body : list Z) : list Z := packet (demo_head type sid cid seq body) body.

(** A client comes online as session 7, enters group 1 of room 9, sends a message and
    gets one; it logs in again from elsewhere, and the first connection is kicked
    out. *)
Definition demo_evs : list (Z * lsnd_ev) := [
  (100, EvOpen 5);
  (100, EvRecv 1 (demo_mesg CMD_ONLINE 7 0 1 []));
  (101, EvUp CMD_ONLINE_ACK 0 (demo_mesg CMD_ONLINE_ACK 7 5 0 [7; 1; 2]));
  (102, EvUp CMD_ROOM_JOIN_ACK 0 (demo_mesg CMD_ROOM_JOIN_ACK 7 5 0 [9; 1]));
  (103, EvRecv 1 (demo_mesg CMD_CHAT 99 98 2 [42]));
  (104, EvUp CMD_ROOM_CHAT 0 (demo_mesg CMD_ROOM_CHAT 0 0 0 [9; 1]));
  (105, EvOpen 6);
  (105, EvRecv 2 (demo_mesg CMD_ONLINE 7 0 1 []));
  (106, EvUp CMD_ONLINE_ACK 0 (demo_mesg CMD_ONLINE_ACK 7 6 0 [7; 1; 2]));
  (107, EvKick);
  (111, EvKick);
  (112, EvClose 1);
  (113, EvInfo); (113, EvRoomStat); (114, EvRoomClean) ].

Definition demo_after (n : nat) : alsnd := (aevs demo_conf (take n demo_evs) alsnd_start).2.

(** The run of the code itself. *)
Definition demo_run (evs : list (Z * lsnd_ev)) : outcome (list Z * lsnd_cntx_t htree * mem) :=
  match lsnd_boot (LEnv true true true true) demo_conf tt [] with
  | Ok (Some (_, s), _, ms) => run_evs demo_junk evs s ms
  | _ => Crash
  end.
Definition demo_calls_of (o : outcome (list Z * lsnd_cntx_t htree * mem)) : option (list Z * list port_call) :=
  match o with Ok (rs, s, _) => Some (rs, calls (l_ports s)) | _ => None end.

Lemma demo_head_ok type sid cid seq body :
  is_u32 type → is_u64 sid → is_u64 cid → is_u64 seq → (length body < 256)%nat → mhead_ok (demo_head type sid cid seq body).
Proof. intros. constructor; cbn; try done; unfold is_u32 in *; lia. Qed.

Lemma demo_whole type sid cid seq body :
  is_u32 type → is_u64 sid → is_u64 cid → is_u64 seq → (length body < 256)%nat → Forall is_byte body →
  whole (demo_head type sid cid seq body) body.
Proof. intros. constructor; [by apply demo_head_ok|done|done]. Qed.

(** A message of a client, and one of RTMQ, that the code survives. *)
Lemma demo_recv_ok p type sid cid seq body a c :
  conn_at a p = Some c → is_type type → is_u64 sid → is_u64 cid → is_u64 seq → (length body < 256)%nat → Forall is_byte body →
  (∀ proc, recv_proc type (c_stat c) = Some proc → mesg_fine proc p c (demo_head type sid cid seq body) body a) →
  ev_ok (EvRecv p (demo_mesg type sid cid seq body)) a.
Proof.
  intros Hp Ht ? ? ? ? ? Hf. exists c, (demo_head type sid cid seq body), body. split_and!; [done|done| |done|auto].
  apply demo_whole; try done. unfold is_type, is_u32 in *. lia.
Qed.

Lemma demo_up_ok type sid cid body a proc :
  is_type type → is_u64 sid → is_u64 cid → (length body < 256)%nat → up_proc type = Some proc →
  up_fine proc (demo_head type sid cid 0 body) body a →
  ev_ok (EvUp type 0 (demo_mesg type sid cid 0 body)) a.
Proof.
  intros Ht ? ? ? Hproc Hf. split; [done|]. exists (demo_head type sid cid 0 body), body. split_and!; [done| |].
  - apply demo_head_ok; try done. unfold is_type, is_u32 in *. lia.
  - rewrite Hproc. by intros proc' [= <-].
Qed.

Lemma evs_ok_at conf evs a : (∀ n now ev, evs !! n = Some (now, ev) → ev_ok ev (aevs conf (take n evs) a).2) → evs_ok conf evs a.
Proof.
  revert a. induction evs as [|[now ev] evs IH]; intros a Hok; [done|]. split; [by apply (Hok 0%nat now)|].
  apply IH. intros n now' ev' Hn. by apply (Hok (S n) now').
Qed.

#[local] Ltac bytes := repeat constructor; done.
#[local] Ltac short := cbn [length]; lia.
#[local] Ltac computed := vm_compute; first [reflexivity|done].

Lemma demo_ok : evs_ok demo_conf demo_evs alsnd_start.
Proof.
  apply evs_ok_at. intros n now ev Hn. fold (demo_after n).
  assert (∀ n, bool_decide (rooms_fit (demo_after n)) = true → rooms_fit (demo_after n)) as Hfit by (by intros ? ?%bool_decide_eq_true).
  assert (∀ n cid, bool_decide (map_Forall (λ _ c, c_cid c ≠ cid) (cell (al_conns (demo_after n)))) = true →
    ∀ p c, conn_at (demo_after n) p = Some c → c_cid c ≠ cid) as Hfresh by (intros ?? Hb%bool_decide_eq_true p c; exact (Hb p c)).
  assert (∀ n p, bool_decide (map_Forall (λ k q, q = p → k.1 = 7) (al_tab (demo_after n))) = true →
    ∀ k, al_tab (demo_after n) !! k = Some p → k.1 = 7) as Hkey by (intros ?? Hb%bool_decide_eq_true k Hk; by exact (Hb k _ Hk eq_refl)).
  destruct n as [|[|[|[|[|[|[|[|[|[|[|[|[|[|[|n]]]]]]]]]]]]]]];
    cbv [lookup list_lookup demo_evs] in Hn; first [injection Hn as _ <-|discriminate Hn]; try exact I.
  - split_and!; [done|done|]. apply (Hfresh 0%nat 5). by vm_compute.
  - eapply demo_recv_ok; [computed|done..|short|bytes|]. intros proc Hp. vm_compute in Hp. injection Hp as <-.
    split; [done|]. apply (Hkey 1%nat 1). by vm_compute.
  - eapply demo_up_ok; [done..|short|computed|]. split; [done|]. split; [done|]. by intros x [= <-].
  - eapply demo_up_ok; [done..|short|computed|]. split; [done|]. split; [done|]. by intros x [= <-].
  - eapply demo_recv_ok; [computed|done..|short|bytes|]. intros proc Hp. vm_compute in Hp. injection Hp as <-. exact I.
  - eapply demo_up_ok; [done..|short|computed|]. split; [|by apply Hfit; vm_compute]. split; [done|]. by intros x [= <-].
  - split_and!; [done|done|]. apply (Hfresh 6%nat 6). by vm_compute.
  - eapply demo_recv_ok; [computed|done..|short|bytes|]. intros proc Hp. vm_compute in Hp. injection Hp as <-.
    split; [done|]. apply (Hkey 7%nat 2). by vm_compute.
  - eapply demo_up_ok; [done..|short|computed|]. split; [done|]. split; [done|]. by intros x [= <-].
  - eexists. computed.
  - apply Hfit. by vm_compute.
  - apply Hfit. by vm_compute.
Qed.

Lemma evs_ok_nth conf evs : ∀ a n now ev, evs_ok conf evs a → evs !! n = Some (now, ev) → ev_ok ev (aevs conf (take n evs) a).2.
Proof.
  induction evs as [|[now0 ev0] evs IH]; intros a n now ev Hok Hn; [done|]. destruct Hok as [Hev Hok].
  destruct n as [|n]; [by injection Hn as _ <-|]. by apply (IH _ n now).
Qed.
Lemma evs_ok_take conf n : ∀ evs a, evs_ok conf evs a → evs_ok conf (take n evs) a.
Proof.
  induction n as [|n IH]; intros evs a Hok; [done|]. destruct evs as [|[now ev] evs]; [done|].
  destruct Hok as [Hev Hok]. split; [done|]. by apply IH.
Qed.

Abbreviation demo_rep := (LsndSpec.lrep (T := htree) demo_junk demo_conf acc_regs rtq_regs).

Lemma demo_begin : ∃ s, demo_rep (Ports [] []) s alsnd_start.
Proof. destruct (wp_elim _ _ _ _ (wp_boot (T := htree) demo_junk demo_conf)) as (o & u & ms & _ & _ & s & _ & Hs). by exists s. Qed.

(** The context after each event. *)
Lemma demo_reaches n now ev : demo_evs !! n = Some (now, ev) →
  ∃ P s, demo_rep P s (demo_after n) ∧ ainv demo_conf (demo_after n) ∧ ev_ok ev (demo_after n).
Proof.
  intros Hn. destruct demo_begin as [s Hs]. pose proof (evs_ok_take _ n _ _ demo_ok) as Hok.
  destruct (wp_elim _ _ _ _ (wp_evs demo_junk demo_conf _ _ _ _ Hs (ainv_start _) Hok)) as (rs & s' & ms & _ & _ & _ & ls & _ & Hr).
  eexists _, s'. split; [exact Hr|]. split; [apply ainv_evs; [apply ainv_start|done]|by apply (evs_ok_nth _ _ _ n now ev demo_ok)].
Qed.

Lemma lsnd_boots_witness :
  wp (lsnd_boot (T := htree) (LEnv true true true true) demo_conf)
    (λ o _ ms, ∃ s, o = Some (LSND_OK, s) ∧ demo_rep (Ports [] []) s alsnd_start) tt [].
Proof. apply (lsnd_boots demo_junk). Defined.



Lemma lsnd_room_delivery_witness : ∃ P s (a := demo_after 5) (data := demo_mesg CMD_ROOM_CHAT 0 0 0 [9; 1]),
  wp (run_ev 104 demo_junk (EvUp CMD_ROOM_CHAT 0 data)) (λ r s' _, r = 0 ∧ ∃ l,
    calls (l_ports s') = calls (l_ports s) ++ l ∧ NoDup l ∧ demo_rep (after l P) s' a ∧
    (∀ x, x ∈ l ↔ ∃ g sid cid, member (al_chat a) 9 g (sid, cid) ∧ (u16 1 = 0 ∨ g = u16 1) ∧ x = AccSend (i32 CMD_ROOM_CHAT) cid data) ∧
    (∀ g k, member (al_chat a) 9 g k → ∃ p c, cell (l_conns s') !! p = Some c ∧ conn_key c = k)) s [].
Proof.
  destruct (demo_reaches 5 _ _ eq_refl) as (P & s & Hr & Hi & Hok). exists P, s.
  apply (lsnd_room_delivery demo_junk demo_conf 104 0 (demo_head CMD_ROOM_CHAT 0 0 0 [9; 1]) [9; 1] (RoomMesg 9 1) P s (demo_after 5)).
  - exact Hr.
  - exact Hi.
  - by apply demo_head_ok; try done; cbn [length]; lia.
  - exact Hok.
  - reflexivity.
Defined.





Lemma lsnd_kick_on_time_witness : ∃ P s (a := demo_after 10), (∃ i, al_kick a !! 5 = Some i ∧ ki_ttl i = 111) ∧
  wp (run_ev 111 demo_junk EvKick) (λ r s' _, ∃ l a', calls (l_ports s') = calls (l_ports s) ++ l ∧ NoDup l ∧
    (∀ x, x ∈ l ↔ ∃ cid i, al_kick a !! cid = Some i ∧ ki_ttl i ≤ 111 ∧ x = AccKick cid) ∧
    demo_rep (after l P) s' a' ∧ al_conns a' = al_conns a ∧ al_tab a' = al_tab a ∧ al_chat a' = al_chat a ∧
    (∀ cid i, al_kick a' !! cid = Some i ↔ al_kick a !! cid = Some i ∧ 111 < ki_ttl i)) s [].
Proof.
  destruct (demo_reaches 10 _ _ eq_refl) as (P & s & Hr & Hi & _). exists P, s. split; [eexists; split; computed|].
  apply (lsnd_kick_on_time demo_junk demo_conf); [exact Hr|exact Hi].
Defined.


(** ** What the code does not survive *)

(** A session that leaves a room it is in keeps a lock of its session; when its
    connection is then closed, the thread waits for it for ever. *)
Example lsnd_quit_close_blocks :
  demo_run (take 4 demo_evs ++ [(103, EvRecv 1 (demo_mesg CMD_ROOM_QUIT 7 0 2 [9; 1])); (104, EvClose 1)]) = Blocked.
Proof. vm_compute. reflexivity. Qed.

(** A client that comes online a second time, under another session, changes the key
    of an entry of the table of connections: when the connection is closed, that entry
    is not found, and the table keeps the address of the released block, which later
    lookups in its slot follow. *)
Example lsnd_online_twice_dangles :
  match demo_run (take 2 demo_evs ++ [(101, EvRecv 1 (demo_mesg CMD_ONLINE 8 0 2 [])); (102, EvClose 1)]) with
  | Ok (_, s, _) => Some (cell (l_conns s) !! 1, total (l_conn_list s))
  | _ => None
  end = Some (None, 1).
Proof. vm_compute. reflexivity. Qed.

(** The acknowledgements of the servers are registered as messages of clients: a
    client that sends one has a callback of RTMQ called on its connection. *)
Example lsnd_ack_crashes :
  demo_run (take 3 demo_evs ++ [(102, EvRecv 1 (demo_mesg CMD_FRIEND_ADD_ACK 7 0 2 []))]) = Crash.
Proof. vm_compute. reflexivity. Qed.

(** The answer to a PING that has a body says that it has one. *)
Example lsnd_pong_length :
  demo_calls_of (demo_run (take 3 demo_evs ++ [(102, EvRecv 1 (demo_mesg CMD_PING 7 0 2 [1; 2; 3]))])) =
  Some ([0; 0; 0; 0], (match demo_calls_of (demo_run (take 3 demo_evs)) with Some (_, l) => l | None => [] end) ++
    [AccSend CMD_PONG 5 (packet (MHead CMD_PONG 3 7 0 3 2 0 0) [])]).
Proof. vm_compute. reflexivity. Qed.

(** A request to join a room names the session the client wrote into it. *)
Example lsnd_join_forwards :
  demo_calls_of (demo_run (take 3 demo_evs ++ [(102, EvRecv 1 (demo_mesg CMD_ROOM_JOIN 99 98 2 [9; 1]))])) =
  Some ([0; 0; 0; 0], (match demo_calls_of (demo_run (take 3 demo_evs)) with Some (_, l) => l | None => [] end) ++
    [RtmqSend CMD_ROOM_JOIN (packet (MHead CMD_ROOM_JOIN 2 99 98 3 2 0 0) [9; 1])]).
Proof. vm_compute. reflexivity. Qed.
